(* ===== verification/_CoqProject ===== *)
-Q . S2P
Prelude.v
Str.v
Wire.v
AntiReplay.v
Fragment.v
Reorder.v
LinkState.v
Float.v
Score.v
Strategy.v
Engine.v
Probe.v
Crypto.v
X25519.v
Noise.v
Session.v
RateLimit.v
Clients.v
Pipeline.v
ServerLoop.v
Dns.v
DnsOverride.v
Pmtud.v
Stun.v
Netlink.v
HolePunch.v
Relay.v
NatRules.v
Timer.v
Ring.v
Reactor.v
Iocp.v
TunDev.v
Sockets.v
Http.v
WebSocket.v
Json.v
Asn1.v
X509.v
Auth.v
Toml.v
TomlPrint.v
Config.v
Log.v
Bus.v
Daemon.v
Ipc.v
Tunnel.v
PrivDrop.v
Runners.v
Iface.v
WinIface.v
WebUi.v
WsLoop.v
EditDistance.v
Cli.v
