(* ===== verification/Prelude.v ===== *)
(** * Verification of the Desmos bonding VPN

    Desmos bonds several network links into one encrypted tunnel.  A client reads
    packets from a TUN device, picks a link for each ([bonding/]), seals them with
    the keys of a Noise IK session ([session/], [crypto/]) behind a 16-byte header
    ([desmos-proto]) and sends them over UDP; the server authenticates clients
    ([server/], [auth/]), opens the packets, drops replays and writes to its TUN.
    Around this core are NAT traversal ([net/], [p2p/]), the runtime's timer wheel and
    queues ([desmos-rt]), the configuration ([config/]), the control socket and the
    log ([daemon/], [log/]), the command line ([desmos-cli]) and an HTTP server with a
    REST interface ([desmos-http], [desmos-webui]).  The sources are under [src/crates].

    ** Conventions

    A machine integer is a [Z] with its wrap-around written out ([wrap],
    [wrapping_add], [saturating_add]); floats are the IEEE floats of the standard
    library's specification; a [String] is the list of its characters (Str.v), a
    [BTreeMap] the list of its entries in key order, a [HashMap] a [gmap].  A panic is
    [None] in [panics A] or [Panic] in [outcome A E] (a result, an error or a panic);
    errors are values of the source's error types.  A method on [&mut self] returns
    the new state.  Where locks or atomics make the interleaving matter, the operation
    is split into its shared accesses as the steps of a relation.  Code of third-party
    crates is a class with the documented laws as a second class, and every theorem
    that uses the laws has a witness with a concrete instance.

    ** Files

    - Prelude.v (this file): [result], [outcome] and the state-and-error monad with
      their notations, machine integers, big-endian bytes, slices, list lemmas.
      Str.v: Rust's [str] (UTF-8, searching, splitting, trimming, numbers).
      Float.v: [f32] and [f64].
    - Packets.  Wire.v: [desmos-proto/src] [types], [flags], [wire], [packet].
      AntiReplay.v, Fragment.v: [antireplay], [fragment].  Reorder.v:
      [bonding/reorder].
    - Links.  LinkState.v, Score.v, Strategy.v, Engine.v (engine and failover),
      Probe.v: [bonding/link_state], [score], [link] and [strategy], [mod] and
      [failover], [probe].
    - Cryptography.  Crypto.v: [crypto/] wrappers and [handshake/cookie]; X25519.v:
      [crypto/x25519_field] (limbs, ladder); Noise.v: [handshake/noise]; Session.v:
      [session/]: typestate, rekeying, keepalive, table.
    - Data plane.  RateLimit.v, Clients.v, NatRules.v: [server/]; Pipeline.v:
      [pipeline/]; ServerLoop.v: [daemon/handshake] and the datagrams of [server_loop];
      Tunnel.v: the set-up and the event loops of [daemon/client] and [server_loop];
      Runners.v: the entry points of every platform, [run_daemon] and the plaintext
      runner of [pipeline/mod].
    - NAT traversal.  Pmtud.v, Stun.v: [net/]; HolePunch.v, Relay.v: [p2p/]; both run
      on a scripted socket with a clock.
    - Names and interfaces.  Dns.v, DnsOverride.v, Netlink.v, Iface.v, WinIface.v:
      [net/dns], [resolver_hook], [watcher], [iface].
    - Runtime, [desmos-rt/src].  Timer.v, Ring.v: [timer], [ring], [pool].  Reactor.v:
      [event], the [Reactor] trait as a class with its laws, and its epoll and kqueue
      instances; Iocp.v: the completion-port reactor; TunDev.v: the TUN devices of Linux,
      macOS and FreeBSD and the netlink socket; Sockets.v: [socket], [bind_device] and the
      Wintun adapter; PrivDrop.v: [priv_drop].
    - HTTP.  Http.v: parser, responses, router, connection loop; WebSocket.v: frames,
      upgrade, Basic authentication; Json.v: codec.
    - Authentication.  Asn1.v, X509.v, Auth.v: [auth/].
    - Control.  Toml.v (lexer, parser), TomlPrint.v (printer, round trip), Config.v
      (validation, diff): [config/]; Log.v: [broadcast], [log/]; Bus.v: the broadcast
      ring with every shared access a step; Daemon.v: [daemon/mod], start-up of [runner], the commands of [ipc]; Ipc.v: the control
      socket and its client; WebUi.v, WsLoop.v: [desmos-webui];
      EditDistance.v, Cli.v: [desmos-cli] (parsing, dispatch, every subcommand).

    ** What the theorems show

    - The anti-replay bitmap refines a set of sequence numbers; fragments reassemble in
      any order and any bytes leave the reassembler safe; the reorder buffer delivers in
      order; the timer wheel fires each timer exactly at its tick; the SPSC ring is a
      FIFO under every interleaving with stale loads; under every interleaving a poll
      of the broadcast ring that overlaps no [send] returns exactly what was sent since
      the last one, and no poll returns what was not sent.
    - The four strategies satisfy one law (only healthy links, total); the engine
      respects the link state machines end to end.
    - The limb arithmetic, wrapping at 64 bits, computes the RFC 7748 function; both ends of the Noise
      handshake derive the same keys; sessions built from it transport data exactly,
      never seal two packets under one nonce, and rekey; the responder admits exactly the known clients
      within its limit; the rate limiter bounds every window.
    - DER, X.509, CRL, JSON, HTTP, WebSocket, TOML and DNS codecs: round trips, totality
      without panics, well-formedness of what they accept.
    - Netlink datagrams and DNS responses yield exactly the events and addresses they
      encode; the resolver override is undone by restoring it or dropping its guard.
    - The one-time-password and the certificate authenticator accept exactly the
      credentials stated, revocation lists of every shape included; names of issuers are
      not among the conditions, because the code does not compare them.
    - Packets read from the client's TUN in one turn of its loop leave once over every
      link selected, and the server's loop writes to its TUN, once and in order, exactly
      those of which a copy comes from the address of the handshake.
    - Whatever the system answers, on every platform, a daemon publishes the tunnel as up
      when it enters its loop and as down when the loop ends well, a Unix client is never
      up as root, and a run that ends has closed its device and a server its socket; a
      socket is bound only after it is confined to its device.
    - Both Unix reactors implement one contract, a simulation of the map of watched
      sources, and serve the daemon exactly; the completion-port reactor keeps what the
      kernel holds allocated, as long as nothing is deregistered or registered twice and
      no registration for both readinesses fails, and every source armed, when moreover
      the kernel accepts every probe.
    - Hole punching returns on finitely many arrivals, bounded by the deadline or the last
      of them, and confirms only an address that answered its nonce.
    - A successful privilege drop changes every id and installs a filter that refuses
      exactly the listed calls.
    - A request over the control socket is read as sent, executed once and answered with
      exactly the line the client returns, on sockets that both ends keep open; the log
      stream sends every entry once.
    - Every command line is answered without a panic; the suggestion for a mistyped
      subcommand is the nearest by edit distance.
    - A configuration is validated soundly and completely, survives printing and
      loading, and hot reload keeps what it must under any interleaving of the accesses to
      its lock; every change
      through the REST interface is an authenticated PUT or DELETE.
    - Theorems about faults state what the code does where it departs from its
      documentation: a forged packet poisons the replay window, the shipped client and
      server framings do not match, frames over a second link are dropped, every second
      packet is lost on Windows, a server keeps root, completion-port boxes are freed in
      flight, the broadcast race, the configuration lock that blocks hot reload, and others; they are listed
      as findings of the manifest.

    ** Bounds and fuel

    Recursion that is not structural takes fuel whose sufficiency is part of the
    theorems: running out is [None] or [Panic], which the theorems exclude.  HKDF
    expansion runs 256 blocks, id allocation [2^16] candidates, the punch loop the
    configured bursts, polling the wheel one round per tick, draining a ring its
    capacity.  Parsers get the length of their input plus one: attribute and DER walks,
    chunked bodies, JSON ([2·length + 1]), TOML (characters plus one for the lexer,
    remaining tokens plus one for each parser loop), DNS names, netlink messages and
    attributes; records and questions are counted by the header.  The HTTP
    connection loop gets the bytes of the stream plus one and the header buffer its
    64 KiB; the walks over the lists of the Windows enumeration the number of nodes, the
    digits of a device path its length.  Lengths are assumed below [2^63] where Rust guarantees it.

    ** Assumptions

    [RingCrypto] with [RingLaws] (lengths of digests and tags, sealing of what is in
    range, AEAD opens what it sealed; nothing about what it rejects; HMAC as a function), [X25519Ops] with agreement of Diffie-Hellman, [Blake3],
    [RingSignature], [RingHash] with [RingHashLaws], [RunnerLaws] for the command
    runner of the NAT rules, and of the kernels [EpollLaws], [KqueueLaws], [IocpLaws],
    [BpfLaws] and [UnixLaws], which state the documented effects of the calls (the
    filter of the privilege drop is that of the calling thread, the only one then).  Each
    has a concrete instance in a witness.

    ** Not modelled

    The system calls themselves: models take their outcomes as arguments, as a script or
    from a class.  Threads beyond the interleavings above, the installation of signal
    handlers ([desmos-rt/signal]), the iptables process.  BLAKE3, SHA and AEAD primitives
    and the Wintun library: third-party code.  The embedded web assets are generated.
    [Display] of most error types and the formatting of the statistics table are
    presentation. *)

From stdpp Require Import base list list_numbers gmap numbers strings.
From Stdlib Require Import ZArith Lia.

Declare Scope desmos_scope.
Delimit Scope desmos_scope with desmos.
#[global] Open Scope Z_scope.

(** ** Fallible code: [Result<T, E>] and panics *)

(** [Result<T, E>] of the Rust core library. *)
Inductive result (A E : Type) : Type :=
| Ok (a : A)
| Err (e : E).

Arguments Ok {A E} a.
Arguments Err {A E} e.

#[export] Instance result_eq_dec `{EqDecision A, EqDecision E} : EqDecision (result A E).
Proof. solve_decision. Defined.

Definition result_bind {A B E : Type} (m : result A E) (f : A → result B E) : result B E :=
  match m with Ok a => f a | Err e => Err e end.

Definition result_map_err {A E F : Type} (f : E → F) (m : result A E) : result A F :=
  match m with Ok a => Ok a | Err e => Err (f e) end.

Notation "'let?' x := m 'in' k" := (result_bind m (fun x => k))
  (at level 10, x name, m at level 100, k at level 200) : desmos_scope.
#[global] Open Scope desmos_scope.

(** A computation that can panic is an [option]: [None] is the panic. *)
Abbreviation panics A := (option A).

(** A method on [&mut self] that returns a [Result]: the new state and the
    outcome.  The mutations made before an error stay. *)
Definition stM (S E A : Type) : Type := S → S * result A E.

Definition st_ret {S E A} (a : A) : stM S E A := fun s => (s, Ok a).
Definition st_throw {S E A} (e : E) : stM S E A := fun s => (s, Err e).
Definition st_get {S E} : stM S E S := fun s => (s, Ok s).
Definition st_modify {S E} (f : S → S) : stM S E () := fun s => (f s, Ok ()).

Definition st_bind {S E A B} (m : stM S E A) (f : A → stM S E B) : stM S E B :=
  fun s => match m s with
           | (s', Ok a) => f a s'
           | (s', Err e) => (s', Err e)
           end.

(** The [?] operator on a pure result. *)
Definition st_lift {S E A} (r : result A E) : stM S E A := fun s => (s, r).

(** A call on a field of the state, its error converted by [From]. *)
Definition st_zoom {S T E F A} (get : S → T) (set : T → S → S) (conv : E → F) (m : stM T E A)
  : stM S F A :=
  fun s => let '(t, r) := m (get s) in (set t s, result_map_err conv r).

Notation "'let!' x := m 'in' k" := (st_bind m (fun x => k))
  (at level 10, x name, m at level 100, k at level 200) : desmos_scope.
Notation "m ';!' k" := (st_bind m (fun _ => k)) (at level 60, right associativity) : desmos_scope.

(** ** Outcomes of code that can both fail and panic *)

Inductive outcome (A E : Type) : Type :=
| Ret (a : A)
| Fail (e : E)
| Panic.

Arguments Ret {A E} a.
Arguments Fail {A E} e.
Arguments Panic {A E}.

Definition out_bind {A B E} (m : outcome A E) (k : A → outcome B E) : outcome B E :=
  match m with Ret a => k a | Fail e => Fail e | Panic => Panic end.

Definition out_map_err {A E F} (f : E → F) (m : outcome A E) : outcome A F :=
  match m with Ret a => Ret a | Fail e => Fail (f e) | Panic => Panic end.

(** An indexing or slicing expression: [None] is the panic. *)
Definition out_panics {A E} (m : panics A) : outcome A E :=
  match m with Some a => Ret a | None => Panic end.

Definition out_ok_or {A E} (m : option A) (e : E) : outcome A E :=
  match m with Some a => Ret a | None => Fail e end.

Notation "'let%' x := m 'in' k" := (out_bind m (fun x => k))
  (at level 10, x pattern, m at level 100, k at level 200) : desmos_scope.

(** ** Machine integers

    A [w]-bit unsigned integer is a [Z] in [[0, 2^w)].  [wrap] is the
    release-mode wrap-around of [+], [*] and [<<]; the [saturating_] and
    [checked_] families are the methods of the same name. *)

Definition wrap (w x : Z) : Z := x mod 2 ^ w.
Definition in_width (w x : Z) : Prop := 0 <= x < 2 ^ w.
Definition umax (w : Z) : Z := 2 ^ w - 1.
Definition wrapping_add (w a b : Z) : Z := wrap w (a + b).
Definition saturating_add (w a b : Z) : Z := Z.min (a + b) (umax w).
Definition saturating_mul (w a b : Z) : Z := Z.min (a * b) (umax w).
Definition saturating_sub (a b : Z) : Z := Z.max 0 (a - b).
Definition checked_sub (a b : Z) : option Z := if a <? b then None else Some (a - b).
Definition checked_add (w a b : Z) : option Z := if a + b <=? umax w then Some (a + b) else None.

#[export] Instance in_width_dec w x : Decision (in_width w x).
Proof. unfold in_width. apply _. Defined.

(** ** Bytes and big-endian integers *)

Abbreviation bytes := (list Z).
Abbreviation byte_ok := (in_width 8).

(** [to_be_bytes] of an [8 * n]-bit integer. *)
Fixpoint to_be_bytes (n : nat) (x : Z) : bytes :=
  match n with
  | O => []
  | S n' => to_be_bytes n' (x / 256) ++ [x mod 256]
  end.

(** [from_be_bytes]. *)
Definition from_be_bytes (bs : bytes) : Z := foldl (fun acc b => acc * 256 + b) 0 bs.

(** Indexing [bs[i]] where a length guard has been passed. *)
Definition byte_at (bs : bytes) (i : nat) : Z := default 0 (bs !! i).

(** [&bs[lo..hi]] where the range is in bounds. *)
Definition slice {A} (lo hi : nat) (bs : list A) : list A := take (hi - lo) (drop lo bs).

(** [&bs[lo..hi]] with the bounds check: [None] is the panic. *)
Definition slice_checked {A} (lo hi : nat) (bs : list A) : panics (list A) :=
  if ((lo <=? hi) && (hi <=? length bs))%nat then Some (slice lo hi bs) else None.

(** [u16::from_be_bytes([bs[i], bs[i + 1]])] with the bounds checks. *)
Definition u16_at (bs : bytes) (i : nat) : panics Z :=
  a ← bs !! i; b ← bs !! S i; Some (from_be_bytes [a; b]).

(** [buf[i..i + src.len()].copy_from_slice(src)]. *)
Abbreviation copy_from_slice buf i src := (list_inserts i src buf).

(** ** Addresses of [std::net]

    Octets are bytes in network order: four or sixteen of them. *)

Inductive IpAddr := V4 (octets : bytes) | V6 (octets : bytes).

#[export] Instance IpAddr_eq_dec : EqDecision IpAddr.
Proof. solve_decision. Defined.

#[export] Program Instance IpAddr_countable : Countable IpAddr :=
  inj_countable' (fun a => match a with V4 o => inl o | V6 o => inr o end)
                 (fun s => match s with inl o => V4 o | inr o => V6 o end) _.
Next Obligation. by intros []. Qed.

Record SocketAddr := mkSocketAddr { sa_ip : IpAddr; sa_port : Z }.

#[export] Instance SocketAddr_eq_dec : EqDecision SocketAddr.
Proof. solve_decision. Defined.

#[export] Program Instance SocketAddr_countable : Countable SocketAddr :=
  inj_countable' (fun a => (sa_ip a, sa_port a)) (fun p => mkSocketAddr p.1 p.2) _.
Next Obligation. by intros []. Qed.

(** ** Tactics *)

(** Evaluates the powers of two that widths introduce, then [lia]. *)
Ltac pow2 :=
  unfold in_width, wrap, umax in *;
  change (2 ^ 8) with 256 in *; change (2 ^ 16) with 65536 in *;
  change (2 ^ 32) with 4294967296 in *;
  change (2 ^ 64) with 18446744073709551616 in *.

Ltac zlia := pow2; lia.

(** Splits every [if] / [match] on a decidable test and simplifies. *)
Ltac split_ifs :=
  repeat match goal with
  | |- context [if (?a <? ?b)%Z then _ else _] => destruct (Z.ltb_spec a b)
  | |- context [if (?a <=? ?b)%Z then _ else _] => destruct (Z.leb_spec a b)
  | |- context [if (?a =? ?b)%Z then _ else _] => destruct (Z.eqb_spec a b)
  | |- context [if (?a <? ?b)%nat then _ else _] => destruct (Nat.ltb_spec a b)
  | |- context [if (?a <=? ?b)%nat then _ else _] => destruct (Nat.leb_spec a b)
  | |- context [if (?a =? ?b)%nat then _ else _] => destruct (Nat.eqb_spec a b)
  | |- context [if decide ?P then _ else _] => destruct (decide P)
  end.

Ltac split_ifs_in H :=
  repeat match type of H with
  | context [if (?a <? ?b)%Z then _ else _] => destruct (Z.ltb_spec a b)
  | context [if (?a <=? ?b)%Z then _ else _] => destruct (Z.leb_spec a b)
  | context [if (?a =? ?b)%Z then _ else _] => destruct (Z.eqb_spec a b)
  | context [if (?a <? ?b)%nat then _ else _] => destruct (Nat.ltb_spec a b)
  | context [if (?a <=? ?b)%nat then _ else _] => destruct (Nat.leb_spec a b)
  | context [if (?a =? ?b)%nat then _ else _] => destruct (Nat.eqb_spec a b)
  | context [if decide ?P then _ else _] => destruct (decide P)
  end.

(** [Forall P] of an explicit list whose elements are hypotheses. *)
Ltac solve_bytes := repeat first [assumption | apply Forall_nil_2 | apply Forall_cons_2].

Create HintDb desmos discriminated.
Create Rewrite HintDb desmos.

(** ** Generic lemmas *)

Lemma wrap_small w x : in_width w x → wrap w x = x.
Proof. intros H. apply Z.mod_small, H. Qed.

Lemma wrap_range w x : 0 <= w → in_width w (wrap w x).
Proof. intros Hw. apply Z.mod_pos_bound. lia. Qed.

Lemma in_width_0 w : 0 <= w → in_width w 0.
Proof. unfold in_width. lia. Qed.

Lemma saturating_add_range w a b :
  0 <= w → 0 <= a → 0 <= b → in_width w (saturating_add w a b).
Proof. unfold saturating_add, in_width, umax. lia. Qed.

Lemma length_to_be_bytes n x : length (to_be_bytes n x) = n.
Proof. revert x; induction n; intros; simpl; [done|]. rewrite length_app, IHn. simpl. lia. Qed.

Lemma from_be_bytes_snoc bs b : from_be_bytes (bs ++ [b]) = from_be_bytes bs * 256 + b.
Proof. unfold from_be_bytes. by rewrite foldl_app. Qed.

Lemma pow256_succ n : 2 ^ (8 * Z.of_nat (S n)) = 256 * 2 ^ (8 * Z.of_nat n).
Proof.
  replace (8 * Z.of_nat (S n)) with (8 + 8 * Z.of_nat n) by lia.
  by rewrite Z.pow_add_r by lia.
Qed.

Lemma from_to_be_bytes n x :
  in_width (8 * Z.of_nat n) x → from_be_bytes (to_be_bytes n x) = x.
Proof.
  unfold in_width. revert x; induction n as [|n IH]; intros x Hx.
  - change (2 ^ (8 * Z.of_nat 0)) with 1 in Hx. unfold from_be_bytes; simpl. lia.
  - rewrite pow256_succ in Hx. simpl to_be_bytes. rewrite from_be_bytes_snoc, IH.
    + pose proof (Z.div_mod x 256). lia.
    + split; [apply Z.div_pos; lia | apply Z.div_lt_upper_bound; lia].
Qed.

Lemma to_be_bytes_ok n x : Forall byte_ok (to_be_bytes n x).
Proof.
  revert x; induction n; intros x; simpl; [constructor|].
  apply Forall_app; split; [done|]. constructor; [|done].
  apply Z.mod_pos_bound. lia.
Qed.

Lemma from_be_bytes_range bs :
  Forall byte_ok bs → in_width (8 * Z.of_nat (length bs)) (from_be_bytes bs).
Proof.
  unfold in_width. induction bs as [|b bs IH] using rev_ind; intros H.
  - unfold from_be_bytes; simpl. lia.
  - apply Forall_app in H as [H1 H2]. inversion_clear H2 as [|? ? Hb _].
    specialize (IH H1). rewrite from_be_bytes_snoc, length_app. simpl length.
    replace (8 * Z.of_nat (length bs + 1)) with (8 * Z.of_nat (S (length bs))) by lia.
    rewrite pow256_succ. unfold in_width in Hb. lia.
Qed.

Lemma to_from_be_bytes bs :
  Forall byte_ok bs → to_be_bytes (length bs) (from_be_bytes bs) = bs.
Proof.
  induction bs as [|b bs IH] using rev_ind; intros H; [done|].
  apply Forall_app in H as [H1 H2]. inversion_clear H2 as [|? ? Hb _].
  unfold in_width in Hb. change (2 ^ 8) with 256 in Hb.
  rewrite length_app, Nat.add_comm. simpl. rewrite from_be_bytes_snoc.
  rewrite Z.add_comm, Z.div_add, Z.mod_add, Z.div_small, Z.mod_small by lia.
  by rewrite Z.add_0_l, IH.
Qed.

Lemma to_be_bytes_inj n x y :
  in_width (8 * Z.of_nat n) x → in_width (8 * Z.of_nat n) y →
  to_be_bytes n x = to_be_bytes n y → x = y.
Proof. intros Hx Hy E. by rewrite <-(from_to_be_bytes n x), E, from_to_be_bytes. Qed.

Lemma length_slice {A} lo hi (l : list A) :
  (hi <= length l)%nat → length (slice lo hi l) = (hi - lo)%nat.
Proof. intros H. unfold slice. rewrite length_take, length_drop. lia. Qed.

(** [copy_from_slice] in range: the bytes before, the source, the bytes after. *)
(** A cursor [pos] with [front] ahead of it. *)
Lemma drop_pos {A} (packet front rest : list A) pos :
  drop pos packet = front ++ rest → drop (pos + length front) packet = rest.
Proof. intros Hd. rewrite <-drop_drop, Hd. apply drop_app_length. Qed.

Lemma drop_length_le {A} (packet front rest : list A) pos :
  drop pos packet = front ++ rest → front ≠ [] → (pos + length front <= length packet)%nat.
Proof.
  intros Hd Hne. apply (f_equal length) in Hd. rewrite length_drop, length_app in Hd.
  destruct front; [done|]. simpl in *. lia.
Qed.

Lemma slice_checked_drop {A} (packet front rest : list A) pos :
  drop pos packet = front ++ rest → front ≠ [] → slice_checked pos (pos + length front) packet = Some front.
Proof.
  intros Hd Hne. pose proof (drop_length_le _ _ _ _ Hd Hne). unfold slice_checked, slice.
  rewrite (proj2 (Nat.leb_le _ _)), (proj2 (Nat.leb_le _ _)) by lia. cbn [andb].
  replace (pos + length front - pos)%nat with (length front) by lia. by rewrite Hd, take_app_length.
Qed.

Lemma copy_from_slice_eq {A} (buf src : list A) i :
  (i + length src <= length buf)%nat →
  copy_from_slice buf i src = take i buf ++ src ++ drop (i + length src) buf.
Proof.
  intros Hl. rewrite <-(take_drop i buf) at 1.
  replace i with (length (take i buf) + 0)%nat at 1 by (rewrite length_take; lia).
  rewrite list_inserts_app_r. f_equal. rewrite <-(take_drop (length src) (drop i buf)).
  rewrite list_inserts_0_r by (rewrite length_take, length_drop; lia).
  by rewrite drop_drop.
Qed.

Lemma st_bind_ok {S E A B} (m : stM S E A) (f : A → stM S E B) s s' a :
  m s = (s', Ok a) → st_bind m f s = f a s'.
Proof. unfold st_bind. by intros ->. Qed.

Lemma st_bind_err {S E A B} (m : stM S E A) (f : A → stM S E B) s s' e :
  m s = (s', Err e) → st_bind m f s = (s', Err e).
Proof. unfold st_bind. by intros ->. Qed.

Lemma st_zoom_ok {S T E F A} (get : S → T) (set : T → S → S) (conv : E → F) (m : stM T E A) s t a :
  m (get s) = (t, Ok a) → st_zoom get set conv m s = (set t s, Ok a).
Proof. unfold st_zoom. by intros ->. Qed.

(** The outcome is no panic, and a value satisfies [P]. *)
Definition holds {A E} (P : A → Prop) (m : outcome A E) : Prop :=
  match m with Ret a => P a | Fail _ => True | Panic => False end.

Lemma holds_safe {A E} (P : A → Prop) (m : outcome A E) : holds P m → m ≠ Panic.
Proof. by destruct m. Qed.

Lemma safe_holds {A E} (m : outcome A E) : m ≠ Panic → holds (fun _ => True) m.
Proof. by destruct m. Qed.

Lemma holds_bind {A B E} (Q : B → Prop) (m : outcome A E) (k : A → outcome B E) :
  m ≠ Panic → (∀ a, m = Ret a → holds Q (k a)) → holds Q (out_bind m k).
Proof. destruct m; cbn; [|done|done]. intros _ H. by apply H. Qed.

Lemma holds_then {A B E} (P : A → Prop) (Q : B → Prop) (m : outcome A E) (k : A → outcome B E) :
  holds P m → (∀ a, P a → holds Q (k a)) → holds Q (out_bind m k).
Proof. destruct m; cbn; [|done|done]. intros Ha Hk. by apply Hk. Qed.

Lemma holds_if {A E} (Q : A → Prop) (b : bool) (m n : outcome A E) : holds Q m → holds Q n → holds Q (if b then m else n).
Proof. by destruct b. Qed.

#[export] Hint Resolve to_be_bytes_ok wrap_range in_width_0 : desmos.
#[export] Hint Rewrite length_to_be_bytes @length_slice : desmos.

(** ** Bits of machine integers *)

Lemma testbit_wrap w x i : 0 <= w → Z.testbit (wrap w x) i = (i <? w) && Z.testbit x i.
Proof.
  intros Hw. unfold wrap. destruct (Z.ltb_spec i w); simpl.
  - destruct (Z.lt_ge_cases i 0); [by rewrite !Z.testbit_neg_r|].
    by apply Z.mod_pow2_bits_low.
  - by apply Z.mod_pow2_bits_high.
Qed.

Lemma in_width_testbit w x i : 0 <= w → in_width w x → w <= i → Z.testbit x i = false.
Proof.
  intros Hw Hx Hi. rewrite <-(wrap_small w x Hx), testbit_wrap by done.
  destruct (Z.ltb_spec i w); [lia|done].
Qed.

Lemma in_width_lxor w x y : 0 <= w → in_width w x → in_width w y → in_width w (Z.lxor x y).
Proof.
  intros Hw Hx Hy. rewrite <-(wrap_small w x Hx), <-(wrap_small w y Hy).
  replace (Z.lxor (wrap w x) (wrap w y)) with (wrap w (Z.lxor x y)); [by apply wrap_range|].
  apply Z.bits_inj'. intros i Hi. rewrite Z.lxor_spec, !testbit_wrap, Z.lxor_spec by done.
  by destruct (i <? w).
Qed.

Lemma in_width_shiftr w x k : 0 <= k → in_width w x → in_width w (Z.shiftr x k).
Proof.
  unfold in_width. intros Hk Hx. rewrite Z.shiftr_div_pow2 by done.
  split; [apply Z.div_pos; lia|].
  eapply Z.le_lt_trans; [apply Z.div_le_upper_bound with (q := x)|]; nia.
Qed.

(** A step [x ^= x << k] of a xorshift generator is injective: the low bits
    determine the rest. *)
Lemma shl_step_inj w k x y : 0 <= w → 0 < k → in_width w x → in_width w y →
  Z.lxor x (wrap w (Z.shiftl x k)) = Z.lxor y (wrap w (Z.shiftl y k)) → x = y.
Proof.
  intros Hw Hk Hx Hy E. apply Z.bits_inj'. intros n Hn.
  induction n as [n IH] using (well_founded_induction (Z.lt_wf 0)).
  destruct (Z.lt_ge_cases n w); [|by rewrite !(in_width_testbit w)].
  assert (Eb := f_equal (fun z => Z.testbit z n) E). cbn beta in Eb.
  rewrite !Z.lxor_spec, !testbit_wrap, !Z.shiftl_spec in Eb by lia.
  destruct (Z.ltb_spec n w); [|lia]. rewrite !andb_true_l in Eb.
  destruct (Z.lt_ge_cases n k).
  - rewrite !(Z.testbit_neg_r _ (n - k)) in Eb by lia. by rewrite !xorb_false_r in Eb.
  - rewrite (IH (n - k)) in Eb by lia.
    by destruct (Z.testbit x n), (Z.testbit y n), (Z.testbit y (n - k)).
Qed.

(** A step [x ^= x >> k] is injective: the high bits determine the rest. *)
Lemma shr_step_inj w k x y : 0 <= w → 0 < k → in_width w x → in_width w y →
  Z.lxor x (Z.shiftr x k) = Z.lxor y (Z.shiftr y k) → x = y.
Proof.
  intros Hw Hk Hx Hy E. apply Z.bits_inj'.
  assert (Hd : ∀ d i, 0 <= d → w - i <= d → 0 <= i → Z.testbit x i = Z.testbit y i).
  { intros d. induction d as [d IH] using (well_founded_induction (Z.lt_wf 0)).
    intros i Hd Hi Hi0. destruct (Z.le_gt_cases w i); [by rewrite !(in_width_testbit w)|].
    assert (Eb := f_equal (fun z => Z.testbit z i) E). cbn beta in Eb.
    rewrite !Z.lxor_spec, !Z.shiftr_spec, (IH (Z.max 0 (d - k)) ltac:(lia) (i + k)) in Eb by lia.
    by destruct (Z.testbit x i), (Z.testbit y i), (Z.testbit y (i + k)). }
  intros i Hi. apply (Hd (Z.max 0 (w - i))); lia.
Qed.

Lemma lxor_cancel x y : Z.lxor (Z.lxor x y) y = x.
Proof. by rewrite Z.lxor_assoc, Z.lxor_nilpotent, Z.lxor_0_r. Qed.
