(* ===== verification/Str.v ===== *)
(** * Rust's [str]

    The part of the standard library's strings that the HTTP server, the JSON
    codec and the text parsers use.  A [str] is its list of Unicode scalar
    values; byte lengths and byte offsets are those of its UTF-8 encoding, and
    slicing off a character boundary panics as in Rust. *)

From stdpp Require Import base numbers list strings.
From Stdlib Require Import ZArith Lia.
From S2P Require Import Prelude.

Abbreviation char := Z.
Abbreviation str := (list Z).

(** A literal; the sources' literals are ASCII. *)
Fixpoint lit (s : string) : str :=
  match s with
  | EmptyString => []
  | String a s => Z.of_N (Ascii.N_of_ascii a) :: lit s
  end.
Arguments lit s%_string_scope.

(** Unicode scalar values: what a Rust [char] is. *)
Definition is_scalar (c : char) : bool := ((0 <=? c) && (c <? 0xD800)) || ((0xE000 <=? c) && (c <? 0x110000)).

(** [char::from_u32]. *)
Definition char_from_u32 (c : Z) : option char := if is_scalar c then Some c else None.

(** ** UTF-8 *)

Definition encode_utf8 (c : char) : bytes :=
  if c <? 0x80 then [c]
  else if c <? 0x800 then [0xC0 + c / 64; 0x80 + c mod 64]
  else if c <? 0x10000 then [0xE0 + c / 4096; 0x80 + (c / 64) mod 64; 0x80 + c mod 64]
  else [0xF0 + c / 262144; 0x80 + (c / 4096) mod 64; 0x80 + (c / 64) mod 64; 0x80 + c mod 64].

Definition as_bytes (s : str) : bytes := s ≫= encode_utf8.
Definition str_len (s : str) : nat := length (as_bytes s).

Definition is_cont (b : Z) : bool := (0x80 <=? b) && (b <? 0xC0).

(** [str::from_utf8]: well-formed sequences only (no overlong form, no surrogate). *)
Fixpoint from_utf8 (b : bytes) : option str :=
  match b with
  | [] => Some []
  | b0 :: r0 =>
      if (0 <=? b0) && (b0 <? 0x80) then s ← from_utf8 r0; Some (b0 :: s)
      else
        match r0 with
        | [] => None
        | b1 :: r1 =>
            if negb (is_cont b1) then None
            else if (0xC2 <=? b0) && (b0 <? 0xE0) then
              s ← from_utf8 r1; Some ((b0 - 0xC0) * 64 + (b1 - 0x80) :: s)
            else
              match r1 with
              | [] => None
              | b2 :: r2 =>
                  if negb (is_cont b2) then None
                  else if (0xE0 <=? b0) && (b0 <? 0xF0) then
                    let c := (b0 - 0xE0) * 4096 + (b1 - 0x80) * 64 + (b2 - 0x80) in
                    if (0x800 <=? c) && is_scalar c then s ← from_utf8 r2; Some (c :: s) else None
                  else
                    match r2 with
                    | [] => None
                    | b3 :: r3 =>
                        if negb (is_cont b3) then None
                        else if (0xF0 <=? b0) && (b0 <? 0xF5) then
                          let c := (b0 - 0xF0) * 262144 + (b1 - 0x80) * 4096 + (b2 - 0x80) * 64 + (b3 - 0x80) in
                          if (0x10000 <=? c) && is_scalar c then s ← from_utf8 r3; Some (c :: s) else None
                        else None
                    end
              end
        end
  end.

(** [&s[..n]] and [&s[n..]]: [None] is the panic off a character boundary or past
    the end. *)
Fixpoint split_at (n : nat) (s : str) : panics (str * str) :=
  match n, s with
  | O, _ => Some ([], s)
  | S _, [] => None
  | S _, c :: s' =>
      let k := length (encode_utf8 c) in
      if (n <? k)%nat then None
      else '(a, b) ← split_at (n - k) s'; Some (c :: a, b)
  end.

(** ** Searching and splitting *)

Fixpoint strip_prefix (pat s : str) : option str :=
  match pat, s with
  | [], _ => Some s
  | p :: pat, c :: s => if p =? c then strip_prefix pat s else None
  | _ :: _, [] => None
  end.

Definition starts_with (pat s : str) : bool := match strip_prefix pat s with Some _ => true | None => false end.

(** [split_once]: at the first occurrence of the pattern. *)
Fixpoint split_once (pat s : str) : option (str * str) :=
  match strip_prefix pat s with
  | Some rest => Some ([], rest)
  | None =>
      match s with
      | [] => None
      | c :: s => '(a, b) ← split_once pat s; Some (c :: a, b)
      end
  end.

Definition str_contains (pat s : str) : bool := match split_once pat s with Some _ => true | None => false end.

(** [find]: the byte offset of the first occurrence. *)
Definition str_find (pat s : str) : option nat := '(a, _) ← split_once pat s; Some (str_len a).

(** [split]: every piece; the pattern is not empty, so [length s] steps suffice. *)
Fixpoint split_fuel (fuel : nat) (pat s : str) : list str :=
  match fuel with
  | O => [s]
  | S fuel =>
      match split_once pat s with
      | Some (a, b) => a :: split_fuel fuel pat b
      | None => [s]
      end
  end.
Definition split (pat s : str) : list str := split_fuel (length s) pat s.

(** [join]. *)
Definition separated {A} (sep : list A) (ss : list (list A)) : list A :=
  match ss with [] => [] | s :: ss => s ++ (ss ≫= (fun t => sep ++ t)) end.

(** [splitn(3, ' ')] as an iterator: at most three pieces. *)
Definition splitn3 (pat s : str) : list str :=
  match split_once pat s with
  | None => [s]
  | Some (a, b) => match split_once pat b with None => [a; b] | Some (b, c) => [a; b; c] end
  end.

(** ** Case and white space *)

(** Unicode's [White_Space], which [trim] strips. *)
Definition is_whitespace (c : char) : bool :=
  ((0x09 <=? c) && (c <=? 0x0D)) || (c =? 0x20) || (c =? 0x85) || (c =? 0xA0) || (c =? 0x1680)
  || ((0x2000 <=? c) && (c <=? 0x200A)) || (c =? 0x2028) || (c =? 0x2029) || (c =? 0x202F)
  || (c =? 0x205F) || (c =? 0x3000).

Fixpoint trim_start_by (p : char → bool) (s : str) : str :=
  match s with
  | c :: s' => if p c then trim_start_by p s' else s
  | [] => []
  end.
Definition trim_end_by (p : char → bool) (s : str) : str := rev (trim_start_by p (rev s)).
Definition trim (s : str) : str := trim_end_by is_whitespace (trim_start_by is_whitespace s).
Definition trim_end_matches (c : char) (s : str) : str := trim_end_by (Z.eqb c) s.

Definition ascii_lower (c : char) : char := if (65 <=? c) && (c <=? 90) then c + 32 else c.
Definition to_ascii_lowercase (s : str) : str := ascii_lower <$> s.
Definition eq_ignore_ascii_case (a b : str) : bool := bool_decide (to_ascii_lowercase a = to_ascii_lowercase b).

(** ** Integers *)

Definition to_digit (radix : Z) (c : char) : option Z :=
  let v := if (48 <=? c) && (c <=? 57) then c - 48
           else if (97 <=? c) && (c <=? 122) then c - 87
           else if (65 <=? c) && (c <=? 90) then c - 55 else radix in
  if v <? radix then Some v else None.

(** The digits of [from_str_radix] at [w] bits: an error past the maximum. *)
Fixpoint parse_digits (w radix : Z) (acc : Z) (s : str) : option Z :=
  match s with
  | [] => Some acc
  | c :: s => d ← to_digit radix c; let acc := acc * radix + d in
              if acc <=? umax w then parse_digits w radix acc s else None
  end.

(** [from_str_radix] of an unsigned type: an optional [+], then digits. *)
Definition from_str_radix (w radix : Z) (s : str) : option Z :=
  match s with
  | [] => None
  | [43] => None
  | 43 :: s => parse_digits w radix 0 s
  | s => parse_digits w radix 0 s
  end.

(** [str::parse::<uN>]. *)
Definition parse_uint (w : Z) (s : str) : option Z := from_str_radix w 10 s.

(** [Display] of an unsigned integer: its decimal digits. *)
Fixpoint digits_fuel (fuel : nat) (n : Z) (acc : str) : str :=
  match fuel with
  | O => acc
  | S fuel => if n <? 10 then (48 + n) :: acc else digits_fuel fuel (n / 10) ((48 + n mod 10) :: acc)
  end.
Definition show_uint (n : Z) : str := digits_fuel (S (Z.to_nat (Z.log2 n))) n [].

Example show_uint_ex : show_uint 65536 = lit "65536".
Proof. reflexivity. Qed.
Example from_utf8_ex : from_utf8 [72; 0xC3; 0xA9; 0xF0; 0x9F; 0x98; 0x80] = Some [72; 0xE9; 0x1F600].
Proof. reflexivity. Qed.
Example split_ex : split (lit ",") (lit "a,,b") = [lit "a"; []; lit "b"].
Proof. reflexivity. Qed.

(** ** Lemmas *)

Lemma as_bytes_cons c s : as_bytes (c :: s) = encode_utf8 c ++ as_bytes s.
Proof. done. Qed.

Lemma as_bytes_app a b : as_bytes (a ++ b) = as_bytes a ++ as_bytes b.
Proof. apply bind_app. Qed.

Lemma str_len_app a b : str_len (a ++ b) = (str_len a + str_len b)%nat.
Proof. unfold str_len. by rewrite as_bytes_app, length_app. Qed.

Lemma encode_utf8_length c : (1 <= length (encode_utf8 c) <= 4)%nat.
Proof. unfold encode_utf8. split_ifs; cbn; lia. Qed.

(** An ASCII string is its bytes. *)
Definition is_ascii (s : str) : Prop := Forall (fun c => 0 <= c < 128) s.

Lemma encode_utf8_ascii c : c < 128 → encode_utf8 c = [c].
Proof. intros H. unfold encode_utf8. by rewrite (proj2 (Z.ltb_lt _ _)) by lia. Qed.

Lemma as_bytes_ascii s : is_ascii s → as_bytes s = s.
Proof.
  induction 1 as [|c s Hc _ IH]; [done|]. rewrite as_bytes_cons, IH, encode_utf8_ascii by lia. done.
Qed.

Lemma str_len_ascii s : is_ascii s → str_len s = length s.
Proof. intros H. unfold str_len. by rewrite as_bytes_ascii. Qed.

(** Bit fields of a code point as quotients and remainders. *)
Ltac divmod n d :=
  let H := fresh "Hdm" in let B := fresh "Hbm" in
  pose proof (Z.div_mod n d ltac:(lia)) as H; pose proof (Z.mod_pos_bound n d ltac:(lia)) as B.

Ltac solve_ltb :=
  repeat match goal with
  | |- context [?a <? ?b] => first [rewrite (proj2 (Z.ltb_lt a b)) by lia | rewrite (proj2 (Z.ltb_ge a b)) by lia]
  | |- context [?a <=? ?b] => first [rewrite (proj2 (Z.leb_le a b)) by lia | rewrite (proj2 (Z.leb_gt a b)) by lia]
  end; cbn [andb orb negb].

Lemma is_scalar_spec c : is_scalar c = true ↔ 0 <= c < 0xD800 ∨ 0xE000 <= c < 0x110000.
Proof. unfold is_scalar. rewrite orb_true_iff, !andb_true_iff, !Z.leb_le, !Z.ltb_lt. lia. Qed.

Lemma is_cont_low x : 0 <= x < 64 → is_cont (0x80 + x) = true.
Proof. intros H. unfold is_cont. by solve_ltb. Qed.

Lemma from_utf8_cons c r : is_scalar c = true → from_utf8 (encode_utf8 c ++ r) = s ← from_utf8 r; Some (c :: s).
Proof.
  intros Hc. pose proof (proj1 (is_scalar_spec c) Hc) as Hr. unfold encode_utf8.
  divmod c 64. divmod (c / 64) 64. divmod (c / 4096) 64.
  assert (c / 4096 = c / 64 / 64) as E1 by (rewrite Z.div_div by lia; done).
  assert (c / 262144 = c / 4096 / 64) as E2 by (rewrite Z.div_div by lia; done).
  destruct (Z.ltb_spec c 0x80) as [H1|H1]; [cbn [app from_utf8]; by solve_ltb|].
  destruct (Z.ltb_spec c 0x800) as [H2|H2].
  { cbn [app from_utf8]. rewrite is_cont_low by lia. solve_ltb.
    by replace ((0xC0 + c / 64 - 0xC0) * 64 + (0x80 + c mod 64 - 0x80)) with c by lia. }
  destruct (Z.ltb_spec c 0x10000) as [H3|H3]; cbn [app from_utf8]; rewrite !is_cont_low by lia; solve_ltb.
  - replace ((0xE0 + c / 4096 - 0xE0) * 4096 + (0x80 + (c / 64) mod 64 - 0x80) * 64 + (0x80 + c mod 64 - 0x80))
      with c by lia. rewrite Hc. by solve_ltb.
  - replace ((0xF0 + c / 262144 - 0xF0) * 262144 + (0x80 + (c / 4096) mod 64 - 0x80) * 4096
             + (0x80 + (c / 64) mod 64 - 0x80) * 64 + (0x80 + c mod 64 - 0x80)) with c by lia.
    rewrite Hc. by solve_ltb.
Qed.

(** Decoding inverts encoding. *)
Lemma from_utf8_as_bytes s : Forall (fun c => is_scalar c = true) s → from_utf8 (as_bytes s) = Some s.
Proof.
  induction 1 as [|c s Hc _ IH]; [done|]. rewrite as_bytes_cons, from_utf8_cons, IH by done. done.
Qed.

Lemma from_utf8_ascii s : is_ascii s → from_utf8 s = Some s.
Proof.
  intros H. rewrite <- (as_bytes_ascii s H) at 1. apply from_utf8_as_bytes.
  eapply Forall_impl; [exact H|]. intros c Hc. cbn in Hc. apply is_scalar_spec. lia.
Qed.

(** Encodings are bytes. *)
Lemma encode_utf8_bytes c : is_scalar c = true → Forall byte_ok (encode_utf8 c).
Proof.
  intros Hc. apply is_scalar_spec in Hc. unfold encode_utf8, byte_ok, in_width. change (2 ^ 8) with 256.
  destruct (Z.ltb_spec c 0x80); [repeat constructor; lia|].
  destruct (Z.ltb_spec c 0x800); [repeat constructor; Z.to_euclidean_division_equations; lia|].
  destruct (Z.ltb_spec c 0x10000); repeat constructor; Z.to_euclidean_division_equations; lia.
Qed.

Definition scalars (s : str) : Prop := Forall (fun c => is_scalar c = true) s.

Lemma as_bytes_ok s : scalars s → Forall byte_ok (as_bytes s).
Proof.
  induction 1 as [|c s Hc _ IH]; [constructor|]. rewrite as_bytes_cons. apply Forall_app. split; [by apply encode_utf8_bytes|done].
Qed.

Lemma split_at_spec n s a b : split_at n s = Some (a, b) → s = a ++ b ∧ str_len a = n.
Proof.
  revert n a b. induction s as [|c s IH]; intros [|n] a b H; cbn [split_at] in H; simplify_eq/=; try done.
  destruct (Nat.ltb_spec (S n) (length (encode_utf8 c))) as [|Hk]; [done|].
  destruct (split_at (S n - length (encode_utf8 c)) s) as [[a' b']|] eqn:E; simplify_eq/=.
  apply IH in E as [-> E]. split; [done|]. unfold str_len in *. rewrite as_bytes_cons, length_app. lia.
Qed.

Lemma split_at_app a b : split_at (str_len a) (a ++ b) = Some (a, b).
Proof.
  induction a as [|c a IH]; [by destruct b|]. pose proof (encode_utf8_length c) as Hc.
  unfold str_len in *. rewrite as_bytes_cons, length_app.
  destruct (length (encode_utf8 c) + length (as_bytes a))%nat as [|n] eqn:E; [lia|]. cbn [app split_at].
  rewrite (proj2 (Nat.ltb_ge _ _)) by lia.
  replace (S n - length (encode_utf8 c))%nat with (length (as_bytes a)) by lia. by rewrite IH.
Qed.

Lemma strip_prefix_spec pat s rest : strip_prefix pat s = Some rest ↔ s = pat ++ rest.
Proof.
  revert s. induction pat as [|p pat IH]; intros s; cbn [strip_prefix app]; [naive_solver|].
  destruct s as [|c s]; [naive_solver|]. destruct (Z.eqb_spec p c) as [->|Hne]; [rewrite IH|]; naive_solver.
Qed.

Lemma split_once_spec pat s a b : split_once pat s = Some (a, b) → s = a ++ pat ++ b.
Proof.
  revert a b. induction s as [|c s IH]; intros a b H; cbn [split_once] in H.
  - destruct (strip_prefix pat []) as [rest|] eqn:E; [|done]. simplify_eq. by apply strip_prefix_spec in E.
  - destruct (strip_prefix pat (c :: s)) as [rest|] eqn:E; [simplify_eq; by apply strip_prefix_spec in E|].
    destruct (split_once pat s) as [[a' b']|]; [|done]. simplify_eq/=. f_equal. by apply IH.
Qed.

(** *** Decimal digits *)

Lemma to_digit_decimal d : 0 <= d < 10 → to_digit 10 (48 + d) = Some d.
Proof. intros H. unfold to_digit. solve_ltb. replace (48 + d - 48) with d by lia. by solve_ltb. Qed.

Lemma parse_digits_app w radix acc a b :
  parse_digits w radix acc (a ++ b) = v ← parse_digits w radix acc a; parse_digits w radix v b.
Proof.
  revert acc. induction a as [|c a IH]; intros acc; [done|]. cbn [app parse_digits].
  destruct (to_digit radix c) as [d|]; [|done]. cbn [mbind option_bind].
  destruct (acc * radix + d <=? umax w); [apply IH|done].
Qed.

Lemma digits_fuel_spec fuel w n acc :
  0 <= n < 10 ^ Z.of_nat fuel → n <= umax w → (0 < fuel)%nat →
  ∃ ds, digits_fuel fuel n acc = ds ++ acc ∧ parse_digits w 10 0 ds = Some n ∧
        (∃ d ds', ds = d :: ds' ∧ 48 <= d <= 57) ∧ Forall (fun c => 48 <= c <= 57) ds.
Proof.
  revert n acc. induction fuel as [|fuel IH]; intros n acc Hn Hw Hf; [lia|]. cbn [digits_fuel].
  destruct (Z.ltb_spec n 10) as [Hlt|Hge].
  - exists [48 + n]. split_and!; [done| |eexists _, _; split; [done|lia]|repeat constructor; lia].
    cbn [parse_digits]. rewrite to_digit_decimal by lia. cbn [mbind option_bind]. rewrite Z.mul_0_l, Z.add_0_l.
    by rewrite (proj2 (Z.leb_le _ _)).
  - divmod n 10. destruct fuel as [|fuel]; [cbn in Hn; lia|].
    assert (10 ^ Z.of_nat (S (S fuel)) = 10 * 10 ^ Z.of_nat (S fuel)) as Hp
      by (rewrite <- Z.pow_succ_r by lia; f_equal; lia).
    destruct (IH (n / 10) ((48 + n mod 10) :: acc)) as (ds & -> & Hds & (d & ds' & -> & Hd) & Hall); [lia|lia|lia|].
    exists ((d :: ds') ++ [48 + n mod 10]). split_and!; [by rewrite <- app_assoc| | |].
    + rewrite parse_digits_app, Hds. cbn [mbind option_bind parse_digits]. rewrite to_digit_decimal by lia.
      cbn [mbind option_bind]. replace (n / 10 * 10 + n mod 10) with n by lia. by rewrite (proj2 (Z.leb_le _ _)).
    + eexists _, _. split; [done|lia].
    + apply Forall_app. split; [done|]. repeat constructor; lia.
Qed.

Lemma show_uint_fuel n : 0 <= n → n < 10 ^ Z.of_nat (S (Z.to_nat (Z.log2 n))).
Proof.
  intros H. destruct (decide (n = 0)) as [->|]; [done|].
  pose proof (Z.log2_spec n ltac:(lia)) as [_ Hlt]. pose proof (Z.log2_nonneg n).
  rewrite Nat2Z.inj_succ, Z2Nat.id by done.
  eapply Z.lt_le_trans; [exact Hlt|]. apply Z.pow_le_mono_l. lia.
Qed.

Lemma show_uint_digits n : 0 <= n → Forall (fun c => 48 <= c <= 57) (show_uint n).
Proof.
  intros H. destruct (digits_fuel_spec (S (Z.to_nat (Z.log2 n))) (n + 1) n []) as (ds & Hds & _ & _ & Hall);
    [split; [done|by apply show_uint_fuel]| |lia|].
  - unfold umax. pose proof (Z.pow_gt_lin_r 2 (n + 1)). lia.
  - unfold show_uint. by rewrite Hds, app_nil_r.
Qed.

(** Parsing inverts printing. *)
Lemma parse_show_uint w n : 0 <= n <= umax w → parse_uint w (show_uint n) = Some n.
Proof.
  intros H. unfold parse_uint, show_uint.
  destruct (digits_fuel_spec (S (Z.to_nat (Z.log2 n))) w n []) as (ds & -> & Hds & (d & ds' & -> & Hd) & _);
    [split; [lia|by apply show_uint_fuel; lia]|lia|lia|].
  rewrite app_nil_r. unfold from_str_radix.
  assert (d ≠ 43) by lia. destruct d as [|p|p]; [done| |done].
  repeat match goal with |- context [match ?p with _ => _ end] => is_var p; destruct p end; try done; lia.
Qed.
