(* ===== verification/Wire.v ===== *)
(** * The DWP wire format

    Models [desmos-proto]: [types.rs], [flags.rs], [errors.rs], [wire.rs]
    (the 16-byte header codec) and [packet.rs] (the packet buffer).  The
    newtypes [SessionId], [InterfaceId], [Seq] and [TimestampUs] are their
    payload: a [Z] of the declared width. *)

From stdpp Require Import base list numbers strings.
From Stdlib Require Import ZArith Lia.
From S2P Require Import Prelude.

(** ** [types.rs] *)

Abbreviation SessionId := Z.
Abbreviation InterfaceId := Z.
Abbreviation Seq := Z.
Abbreviation TimestampUs := Z.

Definition Seq_next (s : Seq) : Seq := wrapping_add 32 s 1.

(** ** [flags.rs] *)

Abbreviation Flags := Z.

Definition Flags_EMPTY : Flags := 0.
Definition Flags_FIN : Flags := Z.shiftl 1 0.
Definition Flags_ACK : Flags := Z.shiftl 1 1.
Definition Flags_FRAG : Flags := Z.shiftl 1 2.
Definition Flags_REDUNDANT : Flags := Z.shiftl 1 3.
Definition Flags_PRIORITY : Flags := Z.shiftl 1 4.

Definition Flags_KNOWN : Flags :=
  Z.lor (Z.lor (Z.lor (Z.lor Flags_FIN Flags_ACK) Flags_FRAG) Flags_REDUNDANT) Flags_PRIORITY.

Definition Flags_from_bits (bits : Z) : Flags := bits.
Definition Flags_bits (f : Flags) : Z := f.

(** [!x] on a [u8]. *)
Definition not8 (x : Z) : Z := Z.lxor 255 x.

Definition Flags_contains (f other : Flags) : bool := Z.land f other =? other.
Definition Flags_insert (f other : Flags) : Flags := Z.lor f other.
Definition Flags_remove (f other : Flags) : Flags := Z.land f (not8 other).
Definition Flags_has_unknown_bits (f : Flags) : bool := negb (Z.land f (not8 Flags_KNOWN) =? 0).
Definition Flags_bitor (f rhs : Flags) : Flags := Z.lor f rhs.

(** [Display]: the names of the known flags that are set, separated by
    ["|"], or ["-"]. The accumulator is the closure's [first] flag and the text. *)
Definition Flags_write_flag (f flag : Flags) (name : string) (st : bool * string) : bool * string :=
  if Flags_contains f flag
  then (false, String.append (if st.1 then st.2 else String.append st.2 "|") name)
  else st.

Definition Flags_fmt (f : Flags) : string :=
  let st := (true, EmptyString) in
  let st := Flags_write_flag f Flags_FIN "FIN" st in
  let st := Flags_write_flag f Flags_ACK "ACK" st in
  let st := Flags_write_flag f Flags_FRAG "FRAG" st in
  let st := Flags_write_flag f Flags_REDUNDANT "REDUNDANT" st in
  let st := Flags_write_flag f Flags_PRIORITY "PRIORITY" st in
  if st.1 then String.append st.2 "-" else st.2.

(** ** [errors.rs] *)

Inductive WireError :=
| BufferTooShort (need got : nat)
| UnsupportedVersion (v : Z)
| UnknownPacketType (t : Z)
| PayloadTruncated (declared available : nat).

#[export] Instance WireError_eq_dec : EqDecision WireError.
Proof. solve_decision. Defined.

(** ** [wire.rs] *)

Definition HEADER_LEN : nat := 16.
Definition WIRE_VERSION : Z := 1.
Definition AEAD_TAG_LEN : nat := 16.

Inductive PacketType := Data | Handshake | Keepalive | Probe | Control.

#[export] Instance PacketType_eq_dec : EqDecision PacketType.
Proof. solve_decision. Defined.

Definition PacketType_as_nibble (t : PacketType) : Z :=
  match t with
  | Data => 0 | Handshake => 1 | Keepalive => 2 | Probe => 3 | Control => 4
  end.

Definition PacketType_from_nibble (n : Z) : result PacketType WireError :=
  match n with
  | 0 => Ok Data
  | 1 => Ok Handshake
  | 2 => Ok Keepalive
  | 3 => Ok Probe
  | 4 => Ok Control
  | other => Err (UnknownPacketType other)
  end.

Record Header := mkHeader {
  version : Z;
  packet_type : PacketType;
  flags : Flags;
  session_id : SessionId;
  sequence : Seq;
  timestamp_us : TimestampUs;
  payload_len : Z;
  interface_id : InterfaceId;
}.

#[export] Instance Header_eq_dec : EqDecision Header.
Proof. solve_decision. Defined.

Definition Header_new (t : PacketType) (sid : SessionId) : Header :=
  {| version := WIRE_VERSION; packet_type := t; flags := Flags_EMPTY; session_id := sid;
     sequence := 0; timestamp_us := 0; payload_len := 0; interface_id := 0 |}.

(** [Header::encode]: the returned count and the buffer after the writes. *)
Definition Header_encode (h : Header) (out : bytes) : result (nat * bytes) WireError :=
  if (length out <? HEADER_LEN)%nat
  then Err (BufferTooShort HEADER_LEN (length out))
  else
    let out := <[0%nat := Z.lor (wrap 8 (Z.shiftl (Z.land (version h) 15) 4))
                            (Z.land (PacketType_as_nibble (packet_type h)) 15)]> out in
    let out := <[1%nat := Flags_bits (flags h)]> out in
    let out := copy_from_slice out 2%nat (to_be_bytes 2 (session_id h)) in
    let out := copy_from_slice out 4%nat (to_be_bytes 4 (sequence h)) in
    let out := copy_from_slice out 8%nat (to_be_bytes 4 (timestamp_us h)) in
    let out := copy_from_slice out 12%nat (to_be_bytes 2 (payload_len h)) in
    let out := <[14%nat := interface_id h]> out in
    let out := <[15%nat := 0]> out in
    Ok (HEADER_LEN, out).

Definition Header_decode (bs : bytes) : result Header WireError :=
  if (length bs <? HEADER_LEN)%nat
  then Err (BufferTooShort HEADER_LEN (length bs))
  else
    let version := Z.land (Z.shiftr (byte_at bs 0) 4) 15 in
    if negb (version =? WIRE_VERSION) then Err (UnsupportedVersion version)
    else
      let? packet_type := PacketType_from_nibble (Z.land (byte_at bs 0) 15) in
      Ok {| version := version;
            packet_type := packet_type;
            flags := Flags_from_bits (byte_at bs 1);
            session_id := from_be_bytes [byte_at bs 2; byte_at bs 3];
            sequence := from_be_bytes [byte_at bs 4; byte_at bs 5; byte_at bs 6; byte_at bs 7];
            timestamp_us := from_be_bytes [byte_at bs 8; byte_at bs 9; byte_at bs 10; byte_at bs 11];
            payload_len := from_be_bytes [byte_at bs 12; byte_at bs 13];
            interface_id := byte_at bs 14 |}.

(** The invariant of a header the crate builds: its version is the wire
    version and every field fits its declared width. *)
Record Header_wf (h : Header) : Prop := {
  wf_version : version h = WIRE_VERSION;
  wf_flags : in_width 8 (flags h);
  wf_session_id : in_width 16 (session_id h);
  wf_sequence : in_width 32 (sequence h);
  wf_timestamp : in_width 32 (timestamp_us h);
  wf_payload_len : in_width 16 (payload_len h);
  wf_interface_id : in_width 8 (interface_id h);
}.

(** ** [packet.rs] *)

Definition PACKET_OVERHEAD : nat := 256.

Record PacketBuf := mkPacketBuf { pb_data : bytes; pb_len : nat }.

Definition PacketBuf_new (mtu : nat) : PacketBuf :=
  let capacity := Z.to_nat (saturating_add 64 (Z.of_nat mtu) (Z.of_nat PACKET_OVERHEAD)) in
  {| pb_data := replicate capacity 0; pb_len := 0 |}.

Definition PacketBuf_capacity (b : PacketBuf) : nat := length (pb_data b).
Definition PacketBuf_is_empty (b : PacketBuf) : bool := (pb_len b =? 0)%nat.

(** [&self.data[..self.len]]: panics when [len] is past the end. *)
Definition PacketBuf_as_slice (b : PacketBuf) : panics bytes :=
  if (pb_len b <=? length (pb_data b))%nat then Some (take (pb_len b) (pb_data b)) else None.

(** Writing through [as_mut_capacity] leaves the length of the box alone. *)
Definition PacketBuf_write_capacity (b : PacketBuf) (i : nat) (src : bytes) : PacketBuf :=
  {| pb_data := copy_from_slice (pb_data b) i src; pb_len := pb_len b |}.

Definition PacketBuf_set_len (b : PacketBuf) (len : nat) : panics PacketBuf :=
  if (len <=? length (pb_data b))%nat
  then Some {| pb_data := pb_data b; pb_len := len |} else None.

Definition PacketBuf_reset (b : PacketBuf) : PacketBuf :=
  {| pb_data := pb_data b; pb_len := 0 |}.

Record PacketMeta := mkPacketMeta {
  pm_interface_id : InterfaceId;
  pm_received_at_us : TimestampUs;
  pm_is_inbound : bool;
}.

Definition PacketMeta_inbound (i : InterfaceId) (t : TimestampUs) : PacketMeta :=
  {| pm_interface_id := i; pm_received_at_us := t; pm_is_inbound := true |}.
Definition PacketMeta_outbound (i : InterfaceId) (t : TimestampUs) : PacketMeta :=
  {| pm_interface_id := i; pm_received_at_us := t; pm_is_inbound := false |}.

Definition PacketBuf_wf (b : PacketBuf) : Prop := (pb_len b <= length (pb_data b))%nat.

(** ** Lemmas *)

(** A buffer that passed the length guard is sixteen bytes and a rest. *)
Lemma header_bytes_split (bs : bytes) :
  (HEADER_LEN <= length bs)%nat →
  ∃ b0 b1 b2 b3 b4 b5 b6 b7 b8 b9 b10 b11 b12 b13 b14 b15 rest,
    bs = [b0;b1;b2;b3;b4;b5;b6;b7;b8;b9;b10;b11;b12;b13;b14;b15] ++ rest.
Proof.
  intros H. do 16 (destruct bs as [|? bs]; [cbv [HEADER_LEN] in H; simpl in H; lia|]).
  repeat eexists.
Qed.

Ltac split_header bs H :=
  destruct (header_bytes_split bs H)
    as (?b0 & ?b1 & ?b2 & ?b3 & ?b4 & ?b5 & ?b6 & ?b7 & ?b8 & ?b9 & ?b10 & ?b11 & ?b12 & ?b13
        & ?b14 & ?b15 & ?rest & ->).

Lemma PacketType_nibble_roundtrip t :
  PacketType_from_nibble (PacketType_as_nibble t) = Ok t.
Proof. by destruct t. Qed.

Lemma PacketType_from_nibble_Ok n t :
  PacketType_from_nibble n = Ok t → n = PacketType_as_nibble t.
Proof.
  unfold PacketType_from_nibble. intros H.
  repeat case_match; simplify_eq; reflexivity.
Qed.

Lemma first_byte_decodes t :
  let b := Z.lor (wrap 8 (Z.shiftl (Z.land WIRE_VERSION 15) 4)) (Z.land (PacketType_as_nibble t) 15) in
  Z.land (Z.shiftr b 4) 15 = WIRE_VERSION ∧ Z.land b 15 = PacketType_as_nibble t.
Proof. by destruct t. Qed.

(** The explicit sixteen bytes of a header. *)
Definition Header_layout (h : Header) : bytes :=
  [Z.lor (wrap 8 (Z.shiftl (Z.land (version h) 15) 4))
         (Z.land (PacketType_as_nibble (packet_type h)) 15); flags h]
  ++ to_be_bytes 2 (session_id h) ++ to_be_bytes 4 (sequence h)
  ++ to_be_bytes 4 (timestamp_us h) ++ to_be_bytes 2 (payload_len h)
  ++ [interface_id h; 0].

Lemma Header_encode_spec h out :
  (HEADER_LEN <= length out)%nat →
  Header_encode h out = Ok (HEADER_LEN, Header_layout h ++ drop HEADER_LEN out).
Proof.
  intros H. unfold Header_encode. destruct (Nat.ltb_spec (length out) HEADER_LEN); [lia|].
  split_header out H. reflexivity.
Qed.

Lemma length_Header_layout h : length (Header_layout h) = HEADER_LEN.
Proof. reflexivity. Qed.

Lemma two_be_bytes x : in_width 16 x → from_be_bytes [x / 256 mod 256; x mod 256] = x.
Proof. apply (from_to_be_bytes 2). Qed.

Lemma four_be_bytes x :
  in_width 32 x →
  from_be_bytes [x / 256 / 256 / 256 mod 256; x / 256 / 256 mod 256; x / 256 mod 256; x mod 256] = x.
Proof. apply (from_to_be_bytes 4). Qed.

Lemma Header_decode_16 b0 b1 b2 b3 b4 b5 b6 b7 b8 b9 b10 b11 b12 b13 b14 b15 rest :
  Header_decode (b0::b1::b2::b3::b4::b5::b6::b7::b8::b9::b10::b11::b12::b13::b14::b15::rest) =
  if negb (Z.land (Z.shiftr b0 4) 15 =? WIRE_VERSION)
  then Err (UnsupportedVersion (Z.land (Z.shiftr b0 4) 15))
  else
    let? t := PacketType_from_nibble (Z.land b0 15) in
    Ok {| version := Z.land (Z.shiftr b0 4) 15; packet_type := t; flags := b1;
          session_id := from_be_bytes [b2; b3];
          sequence := from_be_bytes [b4; b5; b6; b7];
          timestamp_us := from_be_bytes [b8; b9; b10; b11];
          payload_len := from_be_bytes [b12; b13]; interface_id := b14 |}.
Proof. reflexivity. Qed.

Lemma Header_decode_layout h rest :
  Header_wf h → Header_decode (Header_layout h ++ rest) = Ok h.
Proof.
  intros [Hv Hf Hs Hq Ht Hp Hi].
  destruct h as [v t f s q ts p i]; simpl in Hv, Hf, Hs, Hq, Ht, Hp, Hi. subst v.
  etrans; [apply Header_decode_16|]. destruct (first_byte_decodes t) as [H1 H2].
  cbn [version packet_type]. rewrite H1, H2, PacketType_nibble_roundtrip.
  cbn [result_bind negb]. rewrite Z.eqb_refl. cbn [negb].
  by rewrite !two_be_bytes, !four_be_bytes by done.
Qed.

(** Decoding looks at the first sixteen bytes only. *)
Lemma Header_decode_take bs :
  (HEADER_LEN <= length bs)%nat → Header_decode (take HEADER_LEN bs) = Header_decode bs.
Proof. intros H. split_header bs H. reflexivity. Qed.

(** A first byte with the right version nibble is determined by its type. *)
Lemma first_byte_encodes b t :
  byte_ok b → Z.land (Z.shiftr b 4) 15 = WIRE_VERSION → Z.land b 15 = PacketType_as_nibble t →
  Z.lor (wrap 8 (Z.shiftl (Z.land WIRE_VERSION 15) 4)) (Z.land (PacketType_as_nibble t) 15) = b.
Proof.
  intros Hb Hv Ht. unfold in_width in Hb. change (2 ^ 8) with 256 in Hb.
  change 15 with (Z.ones 4) in Hv, Ht.
  rewrite Z.land_ones in Hv, Ht by lia. rewrite Z.shiftr_div_pow2 in Hv by lia.
  change (2 ^ 4) with 16 in *.
  rewrite (Z.mod_small (b / 16)) in Hv
    by (split; [apply Z.div_pos|apply Z.div_lt_upper_bound]; lia).
  pose proof (Z.div_mod b 16 ltac:(lia)) as E. rewrite Hv, Ht in E.
  unfold WIRE_VERSION in *. by destruct t; rewrite E.
Qed.

Lemma Header_decode_inv bs h :
  Forall byte_ok bs → Header_decode bs = Ok h →
  Header_wf h ∧ (HEADER_LEN <= length bs)%nat ∧
  ∀ out, (HEADER_LEN <= length out)%nat →
    Header_encode h out = Ok (HEADER_LEN, take 15 bs ++ [0] ++ drop HEADER_LEN out).
Proof.
  intros Hb. destruct (decide (HEADER_LEN <= length bs)%nat) as [Hlen|Hlen]; cycle 1.
  { unfold Header_decode. destruct (Nat.ltb_spec (length bs) HEADER_LEN); [done|lia]. }
  split_header bs Hlen. apply Forall_app in Hb as [Hb _]. cbn [app]. rewrite Header_decode_16.
  destruct (Z.eqb_spec (Z.land (Z.shiftr b0 4) 15) WIRE_VERSION) as [Hv|]; [|done].
  cbn [negb]. destruct (PacketType_from_nibble _) as [t|] eqn:Ht; [|done].
  cbn [result_bind]. intros [= <-]. apply PacketType_from_nibble_Ok in Ht.
  repeat match goal with H : Forall byte_ok (_ :: _) |- _ => inversion_clear H end.
  split_and!; [| done |].
  - constructor; cbn [version flags session_id sequence timestamp_us payload_len interface_id];
      try done; apply from_be_bytes_range; solve_bytes.
  - intros out Hout. rewrite Header_encode_spec by done. unfold Header_layout.
    cbn [version packet_type flags session_id sequence timestamp_us payload_len interface_id].
    rewrite Hv, (first_byte_encodes b0 t) by done.
    rewrite !(to_from_be_bytes [_; _]), !(to_from_be_bytes [_; _; _; _]) by solve_bytes.
    reflexivity.
Qed.

Lemma PacketBuf_new_wf mtu : PacketBuf_wf (PacketBuf_new mtu).
Proof. unfold PacketBuf_wf; simpl; lia. Qed.

Lemma PacketBuf_write_wf b i src : PacketBuf_wf b → PacketBuf_wf (PacketBuf_write_capacity b i src).
Proof. unfold PacketBuf_wf; simpl. by rewrite length_inserts. Qed.

(** Bits of [!x] on a byte. *)
Lemma not8_spec x i : 0 <= i < 8 → Z.testbit (not8 x) i = negb (Z.testbit x i).
Proof.
  intros Hi. unfold not8. rewrite Z.lxor_spec. change 255 with (Z.ones 8).
  rewrite Z.ones_spec_low by lia. by destruct (Z.testbit x i).
Qed.

Lemma testbit_byte_high f i : byte_ok f → 8 <= i → Z.testbit f i = false.
Proof.
  intros [H1 H2] Hi. destruct (decide (f = 0)) as [->|]; [by rewrite Z.testbit_0_l|].
  apply Z.bits_above_log2; [done|]. apply Z.log2_lt_pow2; [lia|].
  eapply Z.lt_le_trans; [exact H2|]. apply Z.pow_le_mono_r; lia.
Qed.

Lemma Flags_remove_spec f g i :
  byte_ok f → Z.testbit (Flags_remove f g) i = Z.testbit f i && negb (Z.testbit g i).
Proof.
  intros Hf. unfold Flags_remove. rewrite Z.land_spec.
  destruct (decide (i < 0)); [by rewrite !Z.testbit_neg_r|].
  destruct (decide (i < 8)); [by rewrite not8_spec by lia|].
  by rewrite (testbit_byte_high f i) by (done || lia).
Qed.

Lemma Flags_contains_spec f g :
  Flags_contains f g = true ↔ ∀ i, Z.testbit g i = true → Z.testbit f i = true.
Proof.
  unfold Flags_contains. rewrite Z.eqb_eq. split.
  - intros E i Hi. rewrite <-E, Z.land_spec, andb_true_iff in Hi. apply Hi.
  - intros H. apply Z.bits_inj'. intros i _. rewrite Z.land_spec. specialize (H i).
    destruct (Z.testbit f i), (Z.testbit g i); naive_solver.
Qed.

Lemma Flags_has_unknown_bits_spec f : byte_ok f → Flags_has_unknown_bits f = (32 <=? f).
Proof.
  intros [H1 H2].
  assert (Hall : forallb (fun f => Bool.eqb (Flags_has_unknown_bits f) (32 <=? f)) (seqZ 0 256) = true)
    by (vm_compute; reflexivity).
  rewrite forallb_forall in Hall. apply Bool.eqb_prop, Hall, list_elem_of_In, elem_of_seqZ. zlia.
Qed.

(** ** Properties *)

(** Encoding a well-formed header into any buffer of at least sixteen
    bytes succeeds, reports sixteen bytes, touches nothing past the header,
    and decoding the buffer gives the header back. *)
Theorem header_decode_encode (h : Header) (out : bytes) :
  Header_wf h → (HEADER_LEN <= length out)%nat →
  ∃ out', Header_encode h out = Ok (HEADER_LEN, out') ∧ length out' = length out ∧
    drop HEADER_LEN out' = drop HEADER_LEN out ∧ Header_decode out' = Ok h.
Proof.
  intros Hwf Hlen. exists (Header_layout h ++ drop HEADER_LEN out). split_and!.
  - by apply Header_encode_spec.
  - rewrite length_app, length_Header_layout, length_drop. lia.
  - by apply drop_app_length'.
  - by apply Header_decode_layout.
Qed.

Definition sample_header : Header :=
  {| version := 1; packet_type := Data; flags := Z.lor Flags_ACK Flags_PRIORITY;
     session_id := 0xBEEF; sequence := 0x12345678; timestamp_us := 0xCAFEBABE;
     payload_len := 1280; interface_id := 7 |}.

Lemma sample_header_wf : Header_wf sample_header.
Proof. constructor; vm_compute; intuition congruence. Qed.

Lemma header_decode_encode_witness :
  ∃ out', Header_encode sample_header (replicate 20 255) = Ok (HEADER_LEN, out') ∧
    length out' = 20%nat ∧ drop HEADER_LEN out' = drop HEADER_LEN (replicate 20 255) ∧
    Header_decode out' = Ok sample_header.
Proof.
  apply (header_decode_encode sample_header (replicate 20 255) sample_header_wf).
  vm_compute. lia.
Defined.

(** Whatever bytes decode to a header, the header is well formed and
    re-encoding it over the same buffer restores it byte for byte, except
    the reserved byte 15, which becomes zero: the encoding is canonical and
    unknown flag bits survive. *)
Theorem header_encode_decode (bs : bytes) (h : Header) :
  Forall byte_ok bs → Header_decode bs = Ok h →
  Header_wf h ∧ Header_encode h bs = Ok (HEADER_LEN, <[15%nat := 0]> bs).
Proof.
  intros Hb Hd. destruct (Header_decode_inv bs h Hb Hd) as (Hwf & Hlen & Henc).
  split; [done|]. rewrite Henc by done. f_equal. f_equal.
  split_header bs Hlen. reflexivity.
Qed.

Lemma header_encode_decode_witness :
  Header_wf sample_header ∧
  Header_encode sample_header (Header_layout sample_header) =
    Ok (HEADER_LEN, <[15%nat := 0]> (Header_layout sample_header)).
Proof.
  apply header_encode_decode; [|vm_compute; reflexivity].
  repeat apply Forall_cons_2; try apply Forall_nil_2; vm_compute; intuition congruence.
Defined.

(** [Header::decode] accepts exactly the buffers of at least sixteen
    bytes whose first byte has version nibble 1 and a type nibble of at most
    4; the errors are reported in the order short buffer, version, type, and
    [PayloadTruncated] is never returned. *)
Theorem header_decode_errors (bs : bytes) :
  let b0 := byte_at bs 0 in
  match Header_decode bs with
  | Ok h => (16 <= length bs)%nat ∧ b0 / 16 mod 16 = 1 ∧ 0 <= b0 mod 16 <= 4 ∧
            PacketType_as_nibble (packet_type h) = b0 mod 16
  | Err (BufferTooShort need got) => need = 16%nat ∧ got = length bs ∧ (length bs < 16)%nat
  | Err (UnsupportedVersion v) => (16 <= length bs)%nat ∧ v = b0 / 16 mod 16 ∧ v ≠ 1
  | Err (UnknownPacketType t) =>
      (16 <= length bs)%nat ∧ b0 / 16 mod 16 = 1 ∧ t = b0 mod 16 ∧ 4 < t
  | Err (PayloadTruncated _ _) => False
  end.
Proof.
  intros b0. unfold Header_decode. fold b0. unfold HEADER_LEN.
  destruct (Nat.ltb_spec (length bs) 16); [done|].
  change 15 with (Z.ones 4). rewrite !Z.land_ones, Z.shiftr_div_pow2 by lia.
  change (2 ^ 4) with 16. unfold WIRE_VERSION.
  pose proof (Z.mod_pos_bound b0 16 ltac:(lia)).
  destruct (Z.eqb_spec (b0 / 16 mod 16) 1); cbn [negb]; [|done].
  destruct (PacketType_from_nibble _) as [t|er] eqn:E; cbn [result_bind packet_type].
  - apply PacketType_from_nibble_Ok in E. rewrite E. split_and!; [done|done|by destruct t..|done].
  - unfold PacketType_from_nibble in E. repeat case_match; simplify_eq; split_and!; try done; lia.
Qed.

(** On byte-sized flag sets the operations are set operations on the
    bits: [insert] and [|] are union, [remove] is difference, [contains] is
    inclusion, and [has_unknown_bits] holds exactly when one of the bits 5 to
    7, which this protocol version does not define, is set. *)
Theorem flags_bitwise (f g : Flags) :
  byte_ok f → byte_ok g →
  (∀ i, Z.testbit (Flags_insert f g) i = Z.testbit f i || Z.testbit g i) ∧
  (∀ i, Z.testbit (Flags_remove f g) i = Z.testbit f i && negb (Z.testbit g i)) ∧
  (Flags_contains f g = true ↔ ∀ i, Z.testbit g i = true → Z.testbit f i = true) ∧
  Flags_has_unknown_bits f = (32 <=? f).
Proof.
  intros Hf Hg. split_and!.
  - intros i. apply Z.lor_spec.
  - intros i. apply Flags_remove_spec, Hf.
  - apply Flags_contains_spec.
  - by apply Flags_has_unknown_bits_spec.
Qed.

Lemma flags_bitwise_witness :
  byte_ok 225 ∧ Flags_has_unknown_bits 225 = (32 <=? 225) ∧
  (∀ i, Z.testbit (Flags_remove 225 Flags_FIN) i = Z.testbit 225 i && negb (Z.testbit Flags_FIN i)).
Proof.
  split; [vm_compute; intuition congruence|].
  destruct (flags_bitwise 225 Flags_FIN) as (_ & H & _ & H'); [vm_compute; intuition congruence..|].
  split; [exact H'|exact H].
Defined.
