(* ===== verification/AntiReplay.v ===== *)
(** * The anti-replay window

    Models [desmos-proto/src/antireplay.rs]: the 128-packet sliding window
    over 64-bit sequence numbers.  [AntiReplaySpec] is the contract the
    window implements, a finite set of accepted sequence numbers with no
    bitmap; [window_refines] is the simulation between the two. *)

From stdpp Require Import base list gmap numbers.
From Stdlib Require Import ZArith Lia.
From S2P Require Import Prelude.

Definition WINDOW_SIZE : Z := 128.

Inductive ReplayError := Duplicate | OutOfWindow.

#[export] Instance ReplayError_eq_dec : EqDecision ReplayError.
Proof. solve_decision. Defined.

Record AntiReplayWindow := mkWindow {
  highest : Z;
  bitmap : Z;
  initialised : bool;
}.

#[export] Instance AntiReplayWindow_eq_dec : EqDecision AntiReplayWindow.
Proof. solve_decision. Defined.

Definition AntiReplayWindow_new : AntiReplayWindow :=
  {| highest := 0; bitmap := 0; initialised := false |}.

Definition AntiReplayWindow_highest (w : AntiReplayWindow) : option Z :=
  if initialised w then Some (highest w) else None.

Definition would_accept (w : AntiReplayWindow) (seq : Z) : bool :=
  if negb (initialised w) then true
  else if highest w <? seq then true
  else
    let offset := highest w - seq in
    if WINDOW_SIZE <=? offset then false
    else
      let mask := Z.shiftl 1 offset in
      Z.land (bitmap w) mask =? 0.

Definition check_and_update (w : AntiReplayWindow) (seq : Z)
  : AntiReplayWindow * result unit ReplayError :=
  if negb (initialised w)
  then ({| highest := seq; bitmap := 1; initialised := true |}, Ok tt)
  else if highest w <? seq
  then
    let shift := seq - highest w in
    let bitmap' :=
      if WINDOW_SIZE <=? shift then 1 else Z.lor (wrap 128 (Z.shiftl (bitmap w) shift)) 1 in
    ({| highest := seq; bitmap := bitmap'; initialised := initialised w |}, Ok tt)
  else
    let offset := highest w - seq in
    if WINDOW_SIZE <=? offset then (w, Err OutOfWindow)
    else
      let mask := Z.shiftl 1 offset in
      if negb (Z.land (bitmap w) mask =? 0) then (w, Err Duplicate)
      else ({| highest := highest w; bitmap := Z.lor (bitmap w) mask;
               initialised := initialised w |}, Ok tt).

(** A stream of arrivals: the final window and the sequence numbers that
    were accepted, in order. *)
Fixpoint run (w : AntiReplayWindow) (seqs : list Z) : AntiReplayWindow * list Z :=
  match seqs with
  | [] => (w, [])
  | s :: rest =>
      let (w', r) := check_and_update w s in
      let (w'', acc) := run w' rest in
      (w'', match r with Ok _ => s :: acc | Err _ => acc end)
  end.

(** ** The contract *)

Module AntiReplaySpec.

(** The highest accepted sequence number and everything accepted. *)
Record state := mkState { top : option Z; seen : gset Z }.

Definition init : state := {| top := None; seen := ∅ |}.

Definition step (st : state) (seq : Z) : state * result unit ReplayError :=
  match top st with
  | None => ({| top := Some seq; seen := {[seq]} ∪ seen st |}, Ok tt)
  | Some h =>
      if bool_decide (seq ∈ seen st ∧ h - seq < 128) then (st, Err Duplicate)
      else if bool_decide (h - seq >= 128) then (st, Err OutOfWindow)
      else ({| top := Some (Z.max h seq); seen := {[seq]} ∪ seen st |}, Ok tt)
  end.

End AntiReplaySpec.

Import AntiReplaySpec (top, seen).

(** The simulation relation. *)
Record window_rel (w : AntiReplayWindow) (st : AntiReplaySpec.state) : Prop := {
  rel_top : top st = AntiReplayWindow_highest w;
  rel_seen_le s : s ∈ seen st → initialised w = true ∧ s <= highest w;
  rel_bits k : initialised w = true → 0 <= k < 128 →
    Z.testbit (bitmap w) k = bool_decide (highest w - k ∈ seen st);
}.

(** ** Lemmas *)

Lemma land_mask_zero b k : 0 <= k → (Z.land b (Z.shiftl 1 k) =? 0) = negb (Z.testbit b k).
Proof.
  intros Hk. rewrite Z.shiftl_1_l. destruct (Z.testbit b k) eqn:E; cbn.
  - apply Z.eqb_neq. intros H0. apply (f_equal (fun z => Z.testbit z k)) in H0.
    by rewrite Z.land_spec, E, Z.pow2_bits_true, Z.bits_0 in H0 by lia.
  - apply Z.eqb_eq, Z.bits_inj'. intros i Hi. rewrite Z.land_spec, Z.bits_0.
    destruct (decide (i = k)) as [->|]; [by rewrite E|].
    by rewrite Z.pow2_bits_false, andb_false_r by lia.
Qed.

Lemma testbit_set_mask b k i :
  0 <= k → Z.testbit (Z.lor b (Z.shiftl 1 k)) i = Z.testbit b i || bool_decide (i = k).
Proof.
  intros Hk. rewrite Z.lor_spec, Z.shiftl_1_l. f_equal.
  case_bool_decide; subst; [by apply Z.pow2_bits_true | by apply Z.pow2_bits_false; lia].
Qed.

(** The bits after sliding the window by [s]. *)
Lemma testbit_slide b s k :
  0 < s → 0 <= k < 128 →
  Z.testbit (Z.lor (wrap 128 (Z.shiftl b s)) 1) k =
  bool_decide (k = 0) || (if s <=? k then Z.testbit b (k - s) else false).
Proof.
  intros Hs Hk. unfold wrap. rewrite Z.lor_spec, Z.mod_pow2_bits_low by lia.
  rewrite Z.shiftl_spec by lia. rewrite orb_comm. f_equal.
  - destruct (decide (k = 0)) as [->|]; [done|]. rewrite bool_decide_false by done.
    apply Z.bits_above_log2; simpl; lia.
  - destruct (Z.leb_spec s k); [done|]. apply Z.testbit_neg_r. lia.
Qed.

Lemma window_rel_init : window_rel AntiReplayWindow_new AntiReplaySpec.init.
Proof. by constructor. Qed.

Lemma testbit_1 k : 0 <= k → Z.testbit 1 k = bool_decide (k = 0).
Proof.
  intros. case_bool_decide; [by subst|]. apply Z.bits_above_log2; simpl; lia.
Qed.

(** The three ways a window accepts. *)
Lemma window_rel_first w st seq :
  window_rel w st → initialised w = false →
  window_rel (mkWindow seq 1 true) (AntiReplaySpec.mkState (Some seq) ({[seq]} ∪ seen st)).
Proof.
  intros [Ht Hle Hb] Hi.
  assert (Hnone : ∀ s, s ∉ seen st) by (intros s Hs; destruct (Hle s Hs); congruence).
  constructor; [done| |].
  - intros s Hs. simpl in *. split; [done|].
    apply elem_of_union in Hs as [Hs%elem_of_singleton|Hs%Hnone]; [lia|done].
  - intros k _ Hk. simpl. rewrite testbit_1 by lia. apply bool_decide_ext.
    rewrite elem_of_union, elem_of_singleton. specialize (Hnone (seq - k)).
    split; [intros ->; left; lia|intros [?|?]; [lia|done]].
Qed.

Lemma window_rel_slide w st seq :
  window_rel w st → initialised w = true → highest w < seq →
  window_rel
    (mkWindow seq (if WINDOW_SIZE <=? seq - highest w then 1
                   else Z.lor (wrap 128 (Z.shiftl (bitmap w) (seq - highest w))) 1) true)
    (AntiReplaySpec.mkState (Some seq) ({[seq]} ∪ seen st)).
Proof.
  intros [Ht Hle Hb] Hi Hlt. constructor; [done| |].
  - intros s Hs. simpl in *. split; [done|].
    apply elem_of_union in Hs as [Hs%elem_of_singleton|Hs%Hle]; lia.
  - intros k _ Hk. simpl.
    assert (Hgt : ∀ j, highest w < j → j ∉ seen st) by (intros j Hj Hs%Hle; lia).
    assert (Hmem : seq - k ∈ ({[seq]} : gset Z) ∪ seen st ↔ k = 0 ∨ seq - k ∈ seen st).
    { rewrite elem_of_union, elem_of_singleton. split; (intros [?|?]; [left; lia|by right]). }
    rewrite (bool_decide_ext _ _ Hmem), bool_decide_or.
    unfold WINDOW_SIZE. destruct (Z.leb_spec 128 (seq - highest w)).
    + rewrite testbit_1 by lia. rewrite (bool_decide_false (_ ∈ seen st)); [by rewrite orb_false_r|].
      apply Hgt. lia.
    + rewrite testbit_slide by lia. f_equal. destruct (Z.leb_spec (seq - highest w) k).
      * rewrite Hb by (done || lia). by replace (highest w - (k - (seq - highest w))) with (seq - k) by lia.
      * symmetry. apply bool_decide_false, Hgt. lia.
Qed.

Lemma window_rel_fill w st seq :
  window_rel w st → initialised w = true → seq <= highest w → highest w - seq < 128 →
  window_rel
    (mkWindow (highest w) (Z.lor (bitmap w) (Z.shiftl 1 (highest w - seq))) true)
    (AntiReplaySpec.mkState (Some (highest w)) ({[seq]} ∪ seen st)).
Proof.
  intros [Ht Hle Hb] Hi Hlt Hw. constructor; [done| |].
  - intros s Hs. simpl in *. split; [done|].
    apply elem_of_union in Hs as [Hs%elem_of_singleton|Hs%Hle]; lia.
  - intros k _ Hk. simpl. rewrite testbit_set_mask, Hb, <-bool_decide_or by (done || lia).
    apply bool_decide_ext. rewrite elem_of_union, elem_of_singleton.
    split; (intros [?|?]; [right|left]; lia || done).
Qed.

(** One arrival is simulated step by step, with the same verdict. *)
Lemma check_and_update_refines w st seq :
  window_rel w st →
  window_rel (check_and_update w seq).1 (AntiReplaySpec.step st seq).1 ∧
  (check_and_update w seq).2 = (AntiReplaySpec.step st seq).2.
Proof.
  intros Hrel. pose proof Hrel as [Ht Hle Hb].
  unfold check_and_update, AntiReplaySpec.step, AntiReplayWindow_highest in *. rewrite Ht.
  destruct (initialised w) eqn:Hi; cbn [negb]; [|split; [by apply window_rel_first with w|done]].
  destruct (Z.ltb_spec (highest w) seq) as [Hlt|Hge].
  - rewrite (bool_decide_false (_ ∧ _)) by (intros [Hs%Hle _]; lia).
    rewrite (bool_decide_false (_ >= _)) by lia.
    rewrite Z.max_r by lia. split; [by apply window_rel_slide|done].
  - unfold WINDOW_SIZE. destruct (Z.leb_spec 128 (highest w - seq)).
    + rewrite (bool_decide_false (_ ∧ _)), (bool_decide_true (_ >= _)) by lia. done.
    + rewrite land_mask_zero, Hb by (done || lia).
      replace (highest w - (highest w - seq)) with seq by lia. rewrite negb_involutive.
      case_bool_decide as Hs.
      * by rewrite bool_decide_true by (split; [done|lia]).
      * rewrite (bool_decide_false (_ ∧ _)), (bool_decide_false (_ >= _)) by (lia || tauto).
        rewrite Z.max_l by lia. split; [by apply window_rel_fill|done].
Qed.

(** [accepted] of the specification: never something already seen. *)
Lemma spec_step_fresh st seq st' :
  AntiReplaySpec.step st seq = (st', Ok tt) → (top st = None → seen st = ∅) →
  (∀ s h, s ∈ seen st → top st = Some h → s <= h) →
  seq ∉ seen st ∧ seen st' = {[seq]} ∪ seen st.
Proof.
  unfold AntiReplaySpec.step. intros H Hn Hle. destruct (top st) as [h|] eqn:E.
  - case_bool_decide as H1; [done|]. case_bool_decide as H2; [done|]. simplify_eq.
    split; [|done]. intros Hs. apply H1. split; [done|]. lia.
  - simplify_eq. rewrite Hn by done. set_solver.
Qed.

Lemma run_accepts_fresh w st seqs :
  window_rel w st → NoDup (run w seqs).2 ∧ ∀ s, s ∈ (run w seqs).2 → s ∉ seen st.
Proof.
  revert w st; induction seqs as [|s seqs IH]; intros w st Hrel; simpl.
  { split; [constructor|set_solver]. }
  destruct (check_and_update_refines w st s Hrel) as [Hrel' Hres].
  destruct (check_and_update w s) as [w' r], (AntiReplaySpec.step st s) as [st' r'] eqn:Est.
  simpl in Hrel', Hres. subst r'.
  destruct (IH w' st' Hrel') as [Hnd Hseen]. destruct (run w' seqs) as [w'' acc]. simpl in *.
  destruct Hrel as [Ht Hle _]. unfold AntiReplayWindow_highest in Ht. destruct r as [[]|e].
  - destruct (spec_step_fresh st s st' Est) as [Hf Hs].
    { intros Hn. destruct (initialised w) eqn:Hi; [congruence|].
      apply leibniz_equiv, set_equiv. intros x. split; [by intros [? _]%Hle|by intros ?%not_elem_of_empty]. }
    { intros x h [Hi Hx]%Hle. rewrite Hi in Ht. rewrite Ht. by intros [= <-]. }
    split; [constructor; [intros Hin%Hseen; set_solver|done]|]. set_solver.
  - split; [done|]. intros x Hx%Hseen. unfold AntiReplaySpec.step in Est.
    destruct (top st); [|done]. repeat case_bool_decide; by simplify_eq.
Qed.

(** An accepted number is marked in the window it leaves. *)
Lemma accept_marks w seq :
  would_accept w seq = true →
  ∃ w', check_and_update w seq = (w', Ok tt) ∧ initialised w' = true ∧
    seq <= highest w' ∧ highest w' - seq < 128 ∧ Z.testbit (bitmap w') (highest w' - seq) = true.
Proof.
  unfold would_accept, check_and_update. destruct (initialised w) eqn:Ei; cbn [negb].
  - destruct (Z.ltb_spec (highest w) seq).
    + intros _. eexists. split; [done|]. cbn [initialised highest bitmap].
      rewrite Z.sub_diag. split_and!; [done|lia|lia|].
      destruct (WINDOW_SIZE <=? seq - highest w); [done|]. by rewrite Z.lor_spec, orb_true_r.
    + unfold WINDOW_SIZE. destruct (Z.leb_spec 128 (highest w - seq)); [done|]. intros ->.
      eexists. split; [done|]. cbn [initialised highest bitmap]. split_and!; [done|lia|lia|].
      rewrite testbit_set_mask by lia. by rewrite bool_decide_true, orb_true_r by done.
  - intros _. eexists. split; [done|]. cbn [initialised highest bitmap]. rewrite Z.sub_diag.
    split_and!; lia || done.
Qed.

Lemma rejected_unchanged w seq :
  would_accept w seq = false → ∃ e, check_and_update w seq = (w, Err e).
Proof.
  unfold would_accept, check_and_update. destruct (initialised w); cbn [negb]; [|done].
  destruct (highest w <? seq); [done|]. destruct (WINDOW_SIZE <=? highest w - seq); [by eauto|].
  destruct (Z.land _ _ =? 0); [done|by eauto].
Qed.

Lemma err_unchanged w w' seq e : check_and_update w seq = (w', Err e) → w' = w.
Proof.
  intros H. destruct (would_accept w seq) eqn:E.
  - destruct (accept_marks w seq E) as (? & H' & _). congruence.
  - destruct (rejected_unchanged w seq E) as [? H']. congruence.
Qed.

Lemma marked_duplicate w seq :
  initialised w = true → seq <= highest w → highest w - seq < 128 →
  Z.testbit (bitmap w) (highest w - seq) = true → check_and_update w seq = (w, Err Duplicate).
Proof.
  intros Hi Hle Hlt Hb. unfold check_and_update, WINDOW_SIZE. rewrite Hi. cbn [negb].
  rewrite (proj2 (Z.ltb_ge _ _)) by lia. rewrite (proj2 (Z.leb_gt _ _)) by lia.
  by rewrite land_mask_zero, Hb by lia.
Qed.

Lemma below_window w seq :
  initialised w = true → seq + 128 <= highest w → check_and_update w seq = (w, Err OutOfWindow).
Proof.
  intros Hi Hle. unfold check_and_update, WINDOW_SIZE. rewrite Hi. cbn [negb].
  rewrite (proj2 (Z.ltb_ge _ _)) by lia. by rewrite (proj2 (Z.leb_le _ _)) by lia.
Qed.

(** ** Properties *)

(** C1: The bitmap window refines its set-based contract: started on related
    states, [check_and_update] gives the verdict of the contract (accept,
    duplicate, too old) and leaves related states; the fresh window is
    related to the empty set. *)
Theorem window_refines :
  window_rel AntiReplayWindow_new AntiReplaySpec.init ∧
  ∀ w st seq, window_rel w st →
    window_rel (check_and_update w seq).1 (AntiReplaySpec.step st seq).1 ∧
    (check_and_update w seq).2 = (AntiReplaySpec.step st seq).2.
Proof. split; [apply window_rel_init|apply check_and_update_refines]. Qed.

(** No sequence number is accepted twice, whatever the order and
    repetition of the arrivals: the accepted stream has no duplicates. *)
Theorem replay_never_accepted_twice (seqs : list Z) :
  NoDup (run AntiReplayWindow_new seqs).2.
Proof. apply (run_accepts_fresh _ _ _ window_rel_init). Qed.

(** [would_accept] predicts [check_and_update] exactly, and a rejected
    packet leaves the window untouched. *)
Theorem would_accept_exact (w : AntiReplayWindow) (seq : Z) :
  (would_accept w seq = true ↔ (check_and_update w seq).2 = Ok tt) ∧
  (would_accept w seq = false → (check_and_update w seq).1 = w).
Proof.
  unfold would_accept, check_and_update.
  destruct (initialised w) eqn:Hi; cbn [negb]; [|done].
  destruct (highest w <? seq); [done|].
  destruct (WINDOW_SIZE <=? highest w - seq); [done|].
  by destruct (Z.land (bitmap w) (Z.shiftl 1 (highest w - seq)) =? 0).
Qed.
