(* ===== verification/Fragment.v ===== *)
(** * Fragmentation and reassembly

    Models [desmos-proto/src/fragment.rs]: the 4-byte fragment sub-header,
    the fragmenter and the per-session [Reassembler].  The reassembler's
    [HashMap] is a [gmap], its [VecDeque] a list whose head is the oldest
    group.  [expect] and slice indexing can panic, so [Reassembler_push] is
    in [panics]. *)

From stdpp Require Import base list gmap numbers sorting.
From Stdlib Require Import ZArith Lia.
From S2P Require Import Prelude.

Definition FRAGMENT_HEADER_LEN : nat := 4.
Definition MAX_FRAGMENTS : nat := 64.

Inductive FragmentError :=
| ShortHeader | InvalidHeader | TooManyFragments | FragmentTooLarge
| EmptyPayload | Inconsistent | MismatchedTotal.

#[export] Instance FragmentError_eq_dec : EqDecision FragmentError.
Proof. solve_decision. Defined.

(** ** The sub-header *)

Record FragmentHeader := mkFragmentHeader { fragment_id : Z; offset : Z; total : Z }.

#[export] Instance FragmentHeader_eq_dec : EqDecision FragmentHeader.
Proof. solve_decision. Defined.

Definition FragmentHeader_new (fragment_id offset total : Z) : result FragmentHeader FragmentError :=
  if (total =? 0) || (total <=? offset) then Err InvalidHeader
  else Ok (mkFragmentHeader fragment_id offset total).

Definition FragmentHeader_encode (h : FragmentHeader) (buf : bytes) : result bytes FragmentError :=
  if (length buf <? FRAGMENT_HEADER_LEN)%nat then Err ShortHeader
  else
    let buf := copy_from_slice buf 0%nat (to_be_bytes 2 (fragment_id h)) in
    let buf := <[2%nat := offset h]> buf in
    let buf := <[3%nat := total h]> buf in
    Ok buf.

Definition FragmentHeader_decode (buf : bytes) : result FragmentHeader FragmentError :=
  if (length buf <? FRAGMENT_HEADER_LEN)%nat then Err ShortHeader
  else
    let fragment_id := from_be_bytes [byte_at buf 0; byte_at buf 1] in
    FragmentHeader_new fragment_id (byte_at buf 2) (byte_at buf 3).

Definition FragmentHeader_is_last (h : FragmentHeader) : bool :=
  wrapping_add 8 (offset h) 1 =? total h.

(** ** The fragmenter *)

(** [slice::chunks(n)] for [n > 0]; the fuel is the length of the slice. *)
Fixpoint chunks_fuel {A} (fuel n : nat) (l : list A) : list (list A) :=
  match fuel, l with
  | S fuel', _ :: _ => take n l :: chunks_fuel fuel' n (drop n l)
  | _, _ => []
  end.
Definition chunks {A} (n : nat) (l : list A) : list (list A) := chunks_fuel (length l) n l.

(** [usize::div_ceil]. *)
Definition div_ceil (a b : nat) : nat := ((a + b - 1) / b)%nat.

(** The [for (idx, chunk)] loop, starting at index [idx]. *)
Fixpoint fragment_loop (fid total_u8 : Z) (idx : nat) (cs : list bytes)
  : result (list bytes) FragmentError :=
  match cs with
  | [] => Ok []
  | chunk :: cs' =>
      let? hdr := FragmentHeader_new fid (wrap 8 (Z.of_nat idx)) total_u8 in
      let? buf := FragmentHeader_encode hdr (replicate FRAGMENT_HEADER_LEN 0) in
      let? rest := fragment_loop fid total_u8 (S idx) cs' in
      Ok ((buf ++ chunk) :: rest)
  end.

Definition fragment (payload : bytes) (max_fragment_len : nat) (fid : Z)
  : result (list bytes) FragmentError :=
  if (length payload =? 0)%nat then Err EmptyPayload
  else if (max_fragment_len <=? FRAGMENT_HEADER_LEN)%nat then Err FragmentTooLarge
  else
    let body_per_fragment := (max_fragment_len - FRAGMENT_HEADER_LEN)%nat in
    let total := div_ceil (length payload) body_per_fragment in
    if (total =? 0)%nat || (MAX_FRAGMENTS <? total)%nat || (255 <? total)%nat
    then Err TooManyFragments
    else fragment_loop fid (Z.of_nat total) 0 (chunks body_per_fragment payload).

(** ** The reassembler *)

Record PartialGroup := mkGroup {
  pg_total : Z;
  pg_slots : list (option bytes);
  pg_received : nat;
}.

Record Reassembler := mkReassembler {
  in_flight : gmap Z PartialGroup;
  order : list Z;
  in_flight_limit : nat;
}.

Definition Reassembler_new (limit : nat) : Reassembler :=
  {| in_flight := ∅; order := []; in_flight_limit := Nat.max limit 1 |}.

Definition Reassembler_in_flight (r : Reassembler) : nat := size (in_flight r).

Definition Reassembler_clear (r : Reassembler) : Reassembler :=
  {| in_flight := ∅; order := []; in_flight_limit := in_flight_limit r |}.

(** Evict the oldest group when a new group arrives at capacity. *)
Definition Reassembler_evict (r : Reassembler) (fid : Z) : Reassembler :=
  if bool_decide (in_flight r !! fid = None) && (in_flight_limit r <=? size (in_flight r))%nat
  then match order r with
       | [] => r
       | oldest :: rest =>
           {| in_flight := delete oldest (in_flight r); order := rest;
              in_flight_limit := in_flight_limit r |}
       end
  else r.

Definition PartialGroup_fresh (total : Z) : PartialGroup :=
  {| pg_total := total; pg_slots := replicate (Z.to_nat total) None; pg_received := 0 |}.

(** [in_flight.entry(fid)]: the group, created when vacant. *)
Definition Reassembler_entry (r : Reassembler) (fid total : Z) : Reassembler * PartialGroup :=
  match in_flight r !! fid with
  | Some g => (r, g)
  | None =>
      let g := PartialGroup_fresh total in
      ({| in_flight := <[fid := g]> (in_flight r); order := order r ++ [fid];
          in_flight_limit := in_flight_limit r |}, g)
  end.

Definition Reassembler_put (r : Reassembler) (fid : Z) (g : PartialGroup) : Reassembler :=
  {| in_flight := <[fid := g]> (in_flight r); order := order r;
     in_flight_limit := in_flight_limit r |}.

(** [order.remove(position(id))]. *)
Fixpoint remove_first (x : Z) (l : list Z) : list Z :=
  match l with
  | [] => []
  | y :: l' => if y =? x then l' else y :: remove_first x l'
  end.

Definition Reassembler_finish (r : Reassembler) (fid : Z) : Reassembler :=
  {| in_flight := delete fid (in_flight r); order := remove_first fid (order r);
     in_flight_limit := in_flight_limit r |}.

(** The drain loop; an empty slot is the failed [expect]. *)
Fixpoint drain_slots (slots : list (option bytes)) : panics bytes :=
  match slots with
  | [] => Some []
  | None :: _ => None
  | Some b :: rest => out ← drain_slots rest; Some (b ++ out)
  end.

Definition Reassembler_push (r : Reassembler) (fragment_bytes : bytes)
  : panics (Reassembler * result (option bytes) FragmentError) :=
  match FragmentHeader_decode fragment_bytes with
  | Err e => Some (r, Err e)
  | Ok hdr =>
    let body := drop FRAGMENT_HEADER_LEN fragment_bytes in
    let tot := Z.to_nat (total hdr) in
    if (MAX_FRAGMENTS <? tot)%nat then Some (r, Err TooManyFragments)
    else
      let r := Reassembler_evict r (fragment_id hdr) in
      let (r, group) := Reassembler_entry r (fragment_id hdr) (total hdr) in
      if negb (pg_total group =? total hdr) then Some (r, Err MismatchedTotal)
      else
        slot ← pg_slots group !! Z.to_nat (offset hdr);
        match slot with
        | Some existing =>
            if bool_decide (existing ≠ body) then Some (r, Err Inconsistent)
            else if (pg_received group =? tot)%nat
            then out ← drain_slots (pg_slots group);
                 Some (Reassembler_finish r (fragment_id hdr), Ok (Some out))
            else Some (r, Ok None)
        | None =>
            let group := {| pg_total := pg_total group;
                            pg_slots := <[Z.to_nat (offset hdr) := Some body]> (pg_slots group);
                            pg_received := S (pg_received group) |} in
            let r := Reassembler_put r (fragment_id hdr) group in
            if (pg_received group =? tot)%nat
            then out ← drain_slots (pg_slots group);
                 Some (Reassembler_finish r (fragment_id hdr), Ok (Some out))
            else Some (r, Ok None)
        end
  end.

(** Feeding a list of fragments; the outcomes in order. *)
Fixpoint push_all (r : Reassembler) (fs : list bytes)
  : panics (Reassembler * list (result (option bytes) FragmentError)) :=
  match fs with
  | [] => Some (r, [])
  | f :: fs' =>
      '(r', o) ← Reassembler_push r f;
      '(r'', os) ← push_all r' fs';
      Some (r'', o :: os)
  end.

(** ** Invariants *)

Definition count_some {A} (l : list (option A)) : nat := length (filter is_Some l).

Record group_ok (g : PartialGroup) : Prop := {
  go_total : 1 <= pg_total g <= Z.of_nat MAX_FRAGMENTS;
  go_slots : length (pg_slots g) = Z.to_nat (pg_total g);
  go_received : pg_received g = count_some (pg_slots g);
  go_incomplete : (pg_received g < Z.to_nat (pg_total g))%nat;
}.

Record reassembler_inv (r : Reassembler) : Prop := {
  ri_limit : (1 <= in_flight_limit r)%nat;
  ri_size : (size (in_flight r) <= in_flight_limit r)%nat;
  ri_nodup : NoDup (order r);
  ri_order id : id ∈ order r ↔ is_Some (in_flight r !! id);
  ri_groups : map_Forall (fun _ g => group_ok g) (in_flight r);
}.

(** ** Lemmas: the sub-header *)

Lemma FragmentHeader_new_Ok fid off tot :
  off < tot → 0 <= off → FragmentHeader_new fid off tot = Ok (mkFragmentHeader fid off tot).
Proof.
  intros. unfold FragmentHeader_new.
  destruct (Z.eqb_spec tot 0), (Z.leb_spec tot off); simpl; (done || lia).
Qed.

Lemma FragmentHeader_new_inv fid off tot h :
  FragmentHeader_new fid off tot = Ok h →
  h = mkFragmentHeader fid off tot ∧ tot ≠ 0 ∧ off < tot.
Proof.
  unfold FragmentHeader_new.
  destruct (Z.eqb_spec tot 0), (Z.leb_spec tot off); simpl; naive_solver lia.
Qed.

Lemma FragmentHeader_encode_spec h body :
  ∃ buf, FragmentHeader_encode h (replicate FRAGMENT_HEADER_LEN 0) = Ok buf ∧
    buf = to_be_bytes 2 (fragment_id h) ++ [offset h; total h] ∧
    length (buf ++ body) = (FRAGMENT_HEADER_LEN + length body)%nat ∧
    drop FRAGMENT_HEADER_LEN (buf ++ body) = body.
Proof. eexists; split; [reflexivity|]. split_and!; reflexivity. Qed.

(** The bytes of one fragment. *)
Definition frag_bytes (fid : Z) (n i : nat) (body : bytes) : bytes :=
  to_be_bytes 2 fid ++ [Z.of_nat i; Z.of_nat n] ++ body.

Lemma decode_frag_bytes fid n i body :
  in_width 16 fid → (i < n)%nat →
  FragmentHeader_decode (frag_bytes fid n i body) =
    Ok (mkFragmentHeader fid (Z.of_nat i) (Z.of_nat n)).
Proof.
  intros Hf Hi. unfold FragmentHeader_decode, frag_bytes. cbn [to_be_bytes app length].
  destruct (Nat.ltb_spec (S (S (S (S (length body))))) FRAGMENT_HEADER_LEN) as [H|H];
    [unfold FRAGMENT_HEADER_LEN in H; lia|].
  change (FragmentHeader_new (from_be_bytes (to_be_bytes 2 fid)) (Z.of_nat i) (Z.of_nat n)
    = Ok (mkFragmentHeader fid (Z.of_nat i) (Z.of_nat n))).
  rewrite (from_to_be_bytes 2 fid Hf). apply FragmentHeader_new_Ok; lia.
Qed.

(** ** Lemmas: the fragmenter *)

Lemma chunks_fuel_concat {A} fuel n (l : list A) :
  (0 < n)%nat → (length l <= fuel)%nat → concat (chunks_fuel fuel n l) = l.
Proof.
  intros Hn. revert l; induction fuel as [|f IH]; intros l Hl.
  - by destruct l; [|simpl in Hl; lia].
  - destruct l as [|x l]; [done|]. cbn [chunks_fuel concat].
    rewrite IH; [apply take_drop|]. rewrite length_drop. simpl in *. lia.
Qed.

Lemma chunks_fuel_bound {A} fuel n (l : list A) :
  Forall (fun c => (length c <= n)%nat) (chunks_fuel fuel n l).
Proof.
  revert l; induction fuel as [|f IH]; intros l; [constructor|].
  destruct l as [|x l]; [constructor|]. cbn [chunks_fuel]. constructor; [|done].
  rewrite length_take. lia.
Qed.

Lemma div_ceil_step a b : (0 < b)%nat → (0 < a)%nat → div_ceil a b = S (div_ceil (a - b) b).
Proof.
  intros Hb Ha. unfold div_ceil. destruct (Nat.le_gt_cases a b).
  - replace (a - b + b - 1)%nat with (b - 1)%nat by lia.
    rewrite (Nat.div_small (b - 1)) by lia.
    replace (a + b - 1)%nat with (a - 1 + 1 * b)%nat by lia.
    rewrite Nat.div_add, (Nat.div_small (a - 1)) by lia. lia.
  - replace (a + b - 1)%nat with (a - b + b - 1 + 1 * b)%nat by lia.
    rewrite Nat.div_add by lia. lia.
Qed.

Lemma chunks_fuel_length {A} fuel n (l : list A) :
  (0 < n)%nat → (length l <= fuel)%nat →
  length (chunks_fuel fuel n l) = div_ceil (length l) n.
Proof.
  intros Hn. revert l; induction fuel as [|f IH]; intros l Hl.
  - destruct l; [|simpl in Hl; lia]. simpl. unfold div_ceil. rewrite Nat.div_small; lia.
  - destruct l as [|x l]; [simpl; unfold div_ceil; rewrite Nat.div_small; lia|].
    cbn [chunks_fuel]. cbn [length]. rewrite IH by (rewrite length_drop; simpl in *; lia).
    rewrite (div_ceil_step (S (length l))), length_drop by lia. done.
Qed.

Lemma fragment_loop_spec fid n idx cs :
  (idx + length cs = n)%nat → (n <= MAX_FRAGMENTS)%nat →
  fragment_loop fid (Z.of_nat n) idx cs = Ok (imap (fun i => frag_bytes fid n (idx + i)) cs).
Proof.
  unfold MAX_FRAGMENTS. revert idx; induction cs as [|c cs IH]; intros idx Hlen Hn; [done|].
  simpl in Hlen. cbn [fragment_loop].
  rewrite wrap_small by (unfold in_width; lia). rewrite FragmentHeader_new_Ok by lia.
  cbn [result_bind]. destruct (FragmentHeader_encode_spec
    (mkFragmentHeader fid (Z.of_nat idx) (Z.of_nat n)) c) as (buf & -> & -> & _).
  cbn [result_bind]. rewrite IH by lia. cbn [result_bind imap]. f_equal. f_equal.
  - rewrite Nat.add_0_r. unfold frag_bytes. cbn [fragment_id offset total]. by rewrite <-app_assoc.
  - apply imap_ext. intros i x _. simpl. by rewrite <-plus_n_Sm.
Qed.

(** What a successful [fragment] call returns. *)
Lemma fragment_Ok payload max fid fs :
  fragment payload max fid = Ok fs →
  let cs := chunks (max - FRAGMENT_HEADER_LEN) payload in
  (FRAGMENT_HEADER_LEN < max)%nat ∧ (1 <= length cs <= MAX_FRAGMENTS)%nat ∧
  concat cs = payload ∧ Forall (fun c => (length c <= max - FRAGMENT_HEADER_LEN)%nat) cs ∧
  fs = imap (frag_bytes fid (length cs)) cs.
Proof.
  unfold fragment. intros H.
  destruct (Nat.eqb_spec (length payload) 0); [done|].
  destruct (Nat.leb_spec max FRAGMENT_HEADER_LEN); [done|].
  set (b := (max - FRAGMENT_HEADER_LEN)%nat) in *.
  assert (Hl : length (chunks b payload) = div_ceil (length payload) b)
    by (apply chunks_fuel_length; lia).
  destruct (Nat.eqb_spec (div_ceil (length payload) b) 0); [done|].
  destruct (Nat.ltb_spec MAX_FRAGMENTS (div_ceil (length payload) b)); [done|].
  destruct (Nat.ltb_spec 255 (div_ceil (length payload) b)); [done|]. cbn [orb] in H.
  rewrite <-Hl, fragment_loop_spec in H by lia. injection H as <-.
  split_and!; [done|lia|lia| | |].
  - apply chunks_fuel_concat; lia.
  - apply chunks_fuel_bound.
  - by apply imap_ext.
Qed.

(** ** Lemmas: one push, for the round trip *)

(** The slots of a group still waiting for the indices [todo]. *)
Definition slots_for (bodies : list bytes) (todo : list nat) : list (option bytes) :=
  imap (fun i b => if decide (i ∈ todo) then None else Some b) bodies.

(** The group of [fid], or the one [entry] would create. *)
Definition group_of (r : Reassembler) (fid : Z) (n : nat) : PartialGroup :=
  default (PartialGroup_fresh (Z.of_nat n)) (in_flight r !! fid).

Lemma lookup_slots_for bodies todo i :
  slots_for bodies todo !! i = (fun b => if decide (i ∈ todo) then None else Some b) <$> bodies !! i.
Proof. apply list_lookup_imap. Qed.

Lemma slots_for_insert bodies todo i b :
  bodies !! i = Some b → i ∉ todo →
  <[i := Some b]> (slots_for bodies (i :: todo)) = slots_for bodies todo.
Proof.
  intros Hb Hi. apply list_eq. intros j. destruct (decide (i = j)) as [<-|Hne].
  - rewrite list_lookup_insert_eq
      by (unfold slots_for; rewrite length_imap; by eapply lookup_lt_Some).
    rewrite lookup_slots_for, Hb. simpl. by rewrite decide_False by done.
  - rewrite list_lookup_insert_ne, !lookup_slots_for by done.
    destruct (bodies !! j); simpl; [|done]. f_equal.
    by apply decide_ext; rewrite elem_of_cons; naive_solver.
Qed.

Lemma slots_for_all bodies todo :
  (∀ i, (i < length bodies)%nat → i ∈ todo) →
  slots_for bodies todo = replicate (length bodies) None.
Proof.
  intros H. apply list_eq. intros i. rewrite lookup_slots_for.
  destruct (bodies !! i) as [b|] eqn:E; simpl.
  - apply lookup_lt_Some in E. rewrite decide_True by auto.
    by rewrite lookup_replicate_2.
  - apply lookup_ge_None in E. symmetry. apply lookup_ge_None. by rewrite length_replicate.
Qed.

Lemma drain_slots_for bodies : drain_slots (slots_for bodies []) = Some (concat bodies).
Proof.
  replace (slots_for bodies []) with (Some <$> bodies).
  - induction bodies as [|b bodies IH]; [done|]. rewrite fmap_cons. cbn [drain_slots]. by rewrite IH.
  - apply list_eq. intros i. rewrite lookup_slots_for, list_lookup_fmap.
    by destruct (bodies !! i).
Qed.

Lemma lookup_evict r fid : in_flight (Reassembler_evict r fid) !! fid = in_flight r !! fid.
Proof.
  unfold Reassembler_evict. case_bool_decide as H; simpl; [|done].
  destruct (in_flight_limit r <=? size (in_flight r))%nat; [|done].
  destruct (order r) as [|o rest]; simpl; [done|].
  rewrite H. rewrite lookup_delete. by case_decide.
Qed.

Lemma entry_spec r fid n r' g :
  Reassembler_entry r fid (Z.of_nat n) = (r', g) →
  g = group_of r fid n ∧ in_flight r' !! fid = Some g.
Proof.
  unfold Reassembler_entry, group_of. destruct (in_flight r !! fid) as [g0|] eqn:E;
    intros [= <- <-]; simpl; [done|]. by rewrite lookup_insert_eq.
Qed.

Lemma group_of_put r fid n g : group_of (Reassembler_put r fid g) fid n = g.
Proof. unfold group_of; simpl. by rewrite lookup_insert_eq. Qed.

Lemma push_frag r fid bodies i todo b :
  let n := length bodies in
  in_width 16 fid → (n <= MAX_FRAGMENTS)%nat → bodies !! i = Some b → i ∉ todo →
  (S (length todo) <= n)%nat →
  group_of r fid n = mkGroup (Z.of_nat n) (slots_for bodies (i :: todo)) (n - S (length todo)) →
  ∃ r', Reassembler_push r (frag_bytes fid n i b) =
      Some (r', Ok (if decide (todo = []) then Some (concat bodies) else None)) ∧
    (if decide (todo = []) then in_flight r' !! fid = None
     else group_of r' fid n = mkGroup (Z.of_nat n) (slots_for bodies todo) (n - length todo)).
Proof.
  intros n Hf Hn Hb Hi Hlen Hg. pose proof (lookup_lt_Some _ _ _ Hb) as Hin.
  unfold Reassembler_push. rewrite decode_frag_bytes by done. cbn [fragment_id offset total].
  rewrite Nat2Z.id. destruct (Nat.ltb_spec MAX_FRAGMENTS n); [lia|].
  destruct (Reassembler_entry _ fid (Z.of_nat n)) as [r1 g] eqn:E.
  apply entry_spec in E as [E1 E2]. unfold group_of in E1. rewrite lookup_evict in E1.
  fold (group_of r fid n) in E1. rewrite Hg in E1. subst g. cbn [pg_total pg_slots pg_received].
  rewrite Z.eqb_refl, Nat2Z.id. cbn [negb]. rewrite lookup_slots_for, Hb. cbn [fmap option_fmap option_map].
  rewrite decide_True by left. cbn [mbind option_bind].
  change (drop FRAGMENT_HEADER_LEN (frag_bytes fid n i b)) with b.
  rewrite slots_for_insert by done. cbn [pg_received pg_slots].
  destruct (decide (todo = [])) as [->|Hne].
  - destruct (Nat.eqb_spec (S (n - S (length (@nil nat)))) n) as [_|Hx]; [|simpl in *; lia].
    rewrite drain_slots_for. eexists; split; [reflexivity|]. simpl. by rewrite lookup_delete_eq.
  - destruct (Nat.eqb_spec (S (n - S (length todo))) n) as [Hx|_].
    { destruct todo; simpl in *; [done|lia]. }
    eexists; split; [reflexivity|]. rewrite group_of_put. f_equal. lia.
Qed.

Lemma push_all_indices r fid bodies todo :
  let n := length bodies in
  in_width 16 fid → (n <= MAX_FRAGMENTS)%nat → NoDup todo → todo ≠ [] →
  (∀ i, i ∈ todo → (i < n)%nat) → (length todo <= n)%nat →
  group_of r fid n = mkGroup (Z.of_nat n) (slots_for bodies todo) (n - length todo) →
  ∃ r', push_all r ((fun i => frag_bytes fid n i (bodies !!! i)) <$> todo) =
      Some (r', replicate (length todo - 1) (Ok None) ++ [Ok (Some (concat bodies))]) ∧
    in_flight r' !! fid = None.
Proof.
  intros n Hf Hn Hnd Hne. revert r Hne. induction Hnd as [|i todo Hi Hnd IH]; intros r Hne Hin Hlen Hg;
    [done|]. simpl in Hlen.
  assert (Hb : bodies !! i = Some (bodies !!! i)) by (apply list_lookup_lookup_total_lt, Hin; left).
  destruct (push_frag r fid bodies i todo (bodies !!! i)) as (r1 & Hp & Hr1); [done..|].
  cbn [fmap list_fmap push_all]. fold n in Hp. rewrite Hp. cbn [mbind option_bind].
  destruct (decide (todo = [])) as [->|Hne'].
  - simpl. by eexists.
  - destruct (IH r1 Hne') as (r2 & Hp2 & Hr2); [|lia|done|].
    { intros j Hj. apply Hin. by right. }
    rewrite Hp2. cbn [mbind option_bind]. eexists; split; [|done]. f_equal. f_equal.
    destruct todo as [|j todo]; [done|]. simpl. by rewrite Nat.sub_0_r.
Qed.

(** ** Lemmas: the invariant *)

Lemma count_some_le {A} (l : list (option A)) : (count_some l <= length l)%nat.
Proof. apply length_filter. Qed.

Lemma count_some_cons {A} (x : option A) l :
  count_some (x :: l) = ((if x is Some _ then 1 else 0) + count_some l)%nat.
Proof.
  unfold count_some. destruct x as [x|].
  - by rewrite filter_cons_True by (by exists x).
  - by rewrite filter_cons_False by (by intros [? ?]).
Qed.

Lemma count_some_insert {A} (l : list (option A)) i b :
  l !! i = Some None → count_some (<[i := Some b]> l) = S (count_some l).
Proof.
  revert i; induction l as [|x l IH]; intros [|i] H; simplify_eq/=; rewrite !count_some_cons; [done|].
  rewrite IH by done. lia.
Qed.

Lemma drain_slots_full (l : list (option bytes)) :
  count_some l = length l → is_Some (drain_slots l).
Proof.
  induction l as [|x l IH]; [by eauto|]. rewrite count_some_cons. cbn [length drain_slots].
  pose proof (count_some_le l). destruct x as [x|]; [|lia].
  intros Hc. destruct IH as [out ->]; [lia|]. by eauto.
Qed.

Lemma count_some_replicate {A} n : count_some (replicate n (@None A)) = O.
Proof. induction n; [done|]. cbn [replicate]. by rewrite count_some_cons. Qed.

Lemma group_ok_fresh tot :
  1 <= tot <= Z.of_nat MAX_FRAGMENTS → group_ok (PartialGroup_fresh tot).
Proof.
  intros H. constructor; simpl; [done| | |lia].
  - by rewrite length_replicate.
  - by rewrite count_some_replicate.
Qed.

Lemma elem_of_remove_first x y l : NoDup l → y ∈ remove_first x l ↔ y ∈ l ∧ y ≠ x.
Proof.
  induction 1 as [|z l Hz Hnd IH]; simpl; [set_solver|].
  destruct (Z.eqb_spec z x) as [->|Hne].
  - rewrite elem_of_cons. split; [|naive_solver].
    intros Hy. split; [by right|]. intros ->. done.
  - rewrite !elem_of_cons, IH. naive_solver.
Qed.

Lemma NoDup_remove_first x l : NoDup l → NoDup (remove_first x l).
Proof.
  induction 1 as [|z l Hz Hnd IH]; simpl; [constructor|].
  destruct (z =? x); [done|]. constructor; [|done].
  rewrite elem_of_remove_first by done. naive_solver.
Qed.

Lemma evict_inv r fid :
  reassembler_inv r →
  reassembler_inv (Reassembler_evict r fid) ∧
  (in_flight r !! fid = None →
   (size (in_flight (Reassembler_evict r fid)) < in_flight_limit (Reassembler_evict r fid))%nat).
Proof.
  intros Hinv. pose proof Hinv as [Hl Hs Hnd Ho Hg]. unfold Reassembler_evict.
  case_bool_decide as Hf; simpl; [|done].
  destruct (Nat.leb_spec (in_flight_limit r) (size (in_flight r))); [|done].
  destruct (order r) as [|o rest] eqn:Er; simpl.
  { assert (in_flight r = ∅) as E.
    { apply map_empty. intros i. apply eq_None_not_Some. rewrite <-Ho. set_solver. }
    rewrite E, map_size_empty in *. lia. }
  assert (is_Some (in_flight r !! o)) as [g Hgo] by (apply Ho; left).
  apply NoDup_cons in Hnd as [Hnin Hnd].
  assert (Hsz : S (size (delete o (in_flight r))) = size (in_flight r)).
  { rewrite <-(map_size_insert_None o g (delete o (in_flight r))) by apply lookup_delete_eq.
    by rewrite insert_delete_id. }
  split; [|lia]. constructor; simpl; [done|lia|done| |by apply map_Forall_delete].
  intros id. rewrite lookup_delete_is_Some, <-Ho, elem_of_cons. naive_solver.
Qed.

Lemma entry_inv r fid tot r' g :
  reassembler_inv r → 1 <= tot <= Z.of_nat MAX_FRAGMENTS →
  (in_flight r !! fid = None → (size (in_flight r) < in_flight_limit r)%nat) →
  Reassembler_entry r fid tot = (r', g) →
  reassembler_inv r' ∧ in_flight r' !! fid = Some g ∧ group_ok g.
Proof.
  intros [Hl Hs Hnd Ho Hg] Ht Hroom. unfold Reassembler_entry.
  destruct (in_flight r !! fid) as [g0|] eqn:E; intros [= <- <-].
  { split_and!; [done|done|]. by apply (Hg fid). }
  pose proof (group_ok_fresh tot Ht). split_and!; [|simpl; by rewrite lookup_insert_eq|done].
  constructor; simpl; [done| | | |].
  - rewrite map_size_insert_None by done. specialize (Hroom eq_refl). lia.
  - apply NoDup_app. split_and!; [done| |apply NoDup_singleton].
    intros x Hx ->%list_elem_of_singleton. apply Ho in Hx. rewrite E in Hx. by destruct Hx.
  - intros id. rewrite elem_of_app, list_elem_of_singleton, Ho, lookup_insert_is_Some.
    destruct (decide (fid = id)); naive_solver.
  - by apply map_Forall_insert_2.
Qed.

Lemma put_inv r fid g :
  reassembler_inv r → is_Some (in_flight r !! fid) → group_ok g →
  reassembler_inv (Reassembler_put r fid g).
Proof.
  intros [Hl Hs Hnd Ho Hg] [g0 Hf] Hok. constructor; simpl; [done| |done| |by apply map_Forall_insert_2].
  - rewrite map_size_insert_Some by eauto. done.
  - intros id. rewrite Ho, lookup_insert_is_Some. destruct (decide (fid = id)); naive_solver.
Qed.

Lemma finish_inv r r0 fid g :
  reassembler_inv r → is_Some (in_flight r !! fid) → r0 = Reassembler_put r fid g ∨ r0 = r →
  reassembler_inv (Reassembler_finish r0 fid).
Proof.
  intros [Hl Hs Hnd Ho Hg] [g0 Hf] Hr0.
  assert (Hdel : in_flight (Reassembler_finish r0 fid) = delete fid (in_flight r)).
  { destruct Hr0 as [->| ->]; simpl; [apply delete_insert_eq|done]. }
  assert (Hord : order (Reassembler_finish r0 fid) = remove_first fid (order r)
    ∧ in_flight_limit (Reassembler_finish r0 fid) = in_flight_limit r) by (by destruct Hr0 as [->| ->]).
  destruct Hord as [Hord Hlim]. constructor; rewrite ?Hdel, ?Hord, ?Hlim; [done| | | |].
  - etrans; [|exact Hs]. apply map_subseteq_size, delete_subseteq.
  - by apply NoDup_remove_first.
  - intros id. rewrite elem_of_remove_first, Ho, lookup_delete_is_Some by done. naive_solver.
  - by apply map_Forall_delete.
Qed.

Lemma group_ok_store g i b :
  group_ok g → pg_slots g !! i = Some None →
  let g' := mkGroup (pg_total g) (<[i := Some b]> (pg_slots g)) (S (pg_received g)) in
  if (pg_received g' =? Z.to_nat (pg_total g))%nat then is_Some (drain_slots (pg_slots g'))
  else group_ok g'.
Proof.
  intros [Ht Hs Hr Hi] Hslot g'. unfold g'. cbn [pg_received pg_slots].
  pose proof (count_some_insert _ _ b Hslot) as Hc.
  destruct (Nat.eqb_spec (S (pg_received g)) (Z.to_nat (pg_total g))) as [E|E].
  - apply drain_slots_full. rewrite Hc, length_insert. lia.
  - constructor; simpl; [done|by rewrite length_insert|by rewrite Hc, Hr|lia].
Qed.

Lemma push_inv r fb :
  reassembler_inv r → Forall byte_ok fb →
  ∃ r' o, Reassembler_push r fb = Some (r', o) ∧ reassembler_inv r'.
Proof.
  intros Hinv Hb. unfold Reassembler_push.
  destruct (FragmentHeader_decode fb) as [hdr|e] eqn:Ed; [|by eauto].
  destruct (Nat.ltb_spec MAX_FRAGMENTS (Z.to_nat (total hdr))) as [|Hmax]; [by eauto|].
  assert (Hhdr : 0 <= offset hdr < total hdr).
  { unfold FragmentHeader_decode in Ed. destruct (Nat.ltb_spec (length fb) FRAGMENT_HEADER_LEN) as [|Hl];
      [done|]. apply FragmentHeader_new_inv in Ed as (-> & ? & ?). simpl. split; [|done].
    unfold FRAGMENT_HEADER_LEN in Hl. unfold byte_at.
    destruct (fb !! 2%nat) as [x|] eqn:E; simpl; [|lia].
    rewrite Forall_lookup in Hb. by destruct (Hb _ _ E). }
  destruct (evict_inv r (fragment_id hdr) Hinv) as [Hinv1 Hroom].
  rewrite <-(lookup_evict r (fragment_id hdr)) in Hroom.
  destruct (Reassembler_entry _ _ _) as [r1 g] eqn:Ee.
  apply entry_inv in Ee as (Hinv2 & Hlk & Hok); [|done|lia|done].
  destruct (Z.eqb_spec (pg_total g) (total hdr)) as [Et|]; cbn [negb]; [|by eauto].
  destruct Hok as [Ht Hs Hr Hi] eqn:Hok'. clear Hok'.
  destruct (lookup_lt_is_Some_2 (pg_slots g) (Z.to_nat (offset hdr))) as [slot Hslot]; [lia|].
  rewrite Hslot. cbn [mbind option_bind]. destruct slot as [ex|].
  - case_bool_decide; [by eauto|]. rewrite <-Et.
    destruct (Nat.eqb_spec (pg_received g) (Z.to_nat (pg_total g))); [lia|by eauto].
  - pose proof (group_ok_store g _ (drop FRAGMENT_HEADER_LEN fb) Hok Hslot) as Hst.
    cbn [pg_received pg_slots] in Hst |- *. rewrite <-Et.
    destruct (S (pg_received g) =? Z.to_nat (pg_total g))%nat.
    + destruct Hst as [out ->]. cbn [mbind option_bind]. do 2 eexists; split; [reflexivity|].
      eapply finish_inv; [exact Hinv2|by eauto|by left].
    + do 2 eexists; split; [reflexivity|]. apply put_inv; by eauto.
Qed.

(** ** Properties *)

(** C8: A reassembler never panics and keeps its invariant on any bytes: at
    most [in_flight_limit] groups, the eviction queue listing exactly the
    groups in flight without repetition, and every group with one slot per
    fragment, at most 64 of them, a correct received count and at least one
    slot still empty. *)
Theorem reassembler_push_safe (r : Reassembler) (fb : bytes) :
  reassembler_inv r → Forall byte_ok fb →
  ∃ r' o, Reassembler_push r fb = Some (r', o) ∧ reassembler_inv r'.
Proof. apply push_inv. Qed.

Lemma reassembler_new_inv limit : reassembler_inv (Reassembler_new limit).
Proof.
  constructor; simpl; [lia|rewrite map_size_empty; lia|constructor| |by intros ? ? ?%lookup_empty_Some].
  intros id. rewrite lookup_empty. split; [set_solver|by intros [? ?]].
Qed.

Lemma reassembler_push_safe_witness :
  ∃ r' o, Reassembler_push (Reassembler_new 32) [0; 7; 1; 2; 65] = Some (r', o) ∧ reassembler_inv r'.
Proof.
  apply (reassembler_push_safe (Reassembler_new 32) [0; 7; 1; 2; 65] (reassembler_new_inv 32)).
  repeat apply Forall_cons_2; try apply Forall_nil_2; vm_compute; intuition congruence.
Defined.

(** A successful [fragment] returns between 1 and 64 fragments, each of
    at most [max_fragment_len] bytes and each a sub-header that decodes to
    the group id, its own index and the count, followed by a body; the bodies
    in order are the payload.  It fails exactly on an empty payload, a budget
    of at most four bytes, or a payload that needs more than 64 fragments. *)
Theorem fragment_correct (payload : bytes) (max : nat) (fid : Z) :
  in_width 16 fid →
  match fragment payload max fid with
  | Ok fs =>
      (1 <= length fs <= MAX_FRAGMENTS)%nat ∧
      Forall (fun f => (length f <= max)%nat) fs ∧
      concat (drop FRAGMENT_HEADER_LEN <$> fs) = payload ∧
      ∀ i f, fs !! i = Some f →
        FragmentHeader_decode f = Ok (mkFragmentHeader fid (Z.of_nat i) (Z.of_nat (length fs)))
  | Err EmptyPayload => payload = []
  | Err FragmentTooLarge => payload ≠ [] ∧ (max <= FRAGMENT_HEADER_LEN)%nat
  | Err TooManyFragments =>
      (FRAGMENT_HEADER_LEN < max)%nat ∧
      (MAX_FRAGMENTS < div_ceil (length payload) (max - FRAGMENT_HEADER_LEN))%nat
  | Err _ => False
  end.
Proof.
  intros Hf. destruct (fragment payload max fid) as [fs|e] eqn:E.
  - apply fragment_Ok in E as (Hmax & Hn & Hcat & Hlen & ->).
    set (cs := chunks _ payload) in *. rewrite length_imap. split_and!; try lia.
    + apply Forall_lookup. intros i f Hi. rewrite list_lookup_imap in Hi.
      destruct (cs !! i) as [c|] eqn:Ec; simplify_eq/=.
      eapply Forall_lookup_1 in Hlen; [|exact Ec]. unfold FRAGMENT_HEADER_LEN in *. lia.
    + rewrite <-Hcat. f_equal. apply list_eq. intros i.
      rewrite list_lookup_fmap, list_lookup_imap. by destruct (cs !! i).
    + intros i f Hi. rewrite list_lookup_imap in Hi.
      destruct (cs !! i) as [c|] eqn:Ec; simplify_eq/=. apply decode_frag_bytes; [done|].
      by eapply lookup_lt_Some.
  - unfold fragment in E. destruct (Nat.eqb_spec (length payload) 0) as [H0|H0].
    { simplify_eq. by apply nil_length_inv. }
    destruct (Nat.leb_spec max FRAGMENT_HEADER_LEN) as [|Hm].
    { simplify_eq. split; [by intros ->|done]. }
    destruct (Nat.eqb_spec (div_ceil (length payload) (max - FRAGMENT_HEADER_LEN)) 0) as [Hz|Hz].
    { rewrite div_ceil_step in Hz; unfold FRAGMENT_HEADER_LEN in *; lia. }
    destruct (Nat.ltb_spec MAX_FRAGMENTS (div_ceil (length payload) (max - FRAGMENT_HEADER_LEN))).
    { by simplify_eq/=. }
    destruct (Nat.ltb_spec 255 (div_ceil (length payload) (max - FRAGMENT_HEADER_LEN))).
    { unfold MAX_FRAGMENTS in *. lia. }
    cbn [orb] in E. exfalso. rewrite fragment_loop_spec in E; [done| |done].
    unfold chunks. rewrite chunks_fuel_length; [done| |done]. unfold FRAGMENT_HEADER_LEN in *; lia.
Qed.

Lemma fragment_correct_witness :
  in_width 16 9 ∧ fragment (replicate 10 1) 8 9 =
    Ok [frag_bytes 9 3 0 [1;1;1;1]; frag_bytes 9 3 1 [1;1;1;1]; frag_bytes 9 3 2 [1;1]] ∧
  (1 <= 3 <= MAX_FRAGMENTS)%nat.
Proof.
  split; [vm_compute; intuition congruence|]. split; [reflexivity|].
  apply (fragment_correct (replicate 10 1) 8 9). vm_compute; intuition congruence.
Defined.

(** C4: Fragmentation round trip under reordering: pushing the fragments of a
    payload in any order into a reassembler that has no group of that id in
    flight answers [Ok(None)] to all but the last and the whole payload to the
    last, and removes the group. *)
Theorem fragment_reassemble_any_order (r : Reassembler) (payload : bytes) (max : nat) (fid : Z)
  (fs fs' : list bytes) :
  in_width 16 fid → in_flight r !! fid = None →
  fragment payload max fid = Ok fs → fs' ≡ₚ fs →
  ∃ r', push_all r fs' =
      Some (r', replicate (length fs - 1) (Ok None) ++ [Ok (Some payload)]) ∧
    in_flight r' !! fid = None.
Proof.
  intros Hf Hnone E Hperm. apply fragment_Ok in E as (Hmax & Hn & Hcat & Hlen & ->).
  set (cs := chunks _ payload) in *. set (n := length cs) in *.
  assert (Himap : imap (frag_bytes fid n) cs = (fun i => frag_bytes fid n i (cs !!! i)) <$> seq 0 n).
  { apply list_eq. intros i. rewrite list_lookup_imap, list_lookup_fmap.
    destruct (cs !! i) as [c|] eqn:Ec; simpl.
    - pose proof (lookup_lt_Some _ _ _ Ec). rewrite lookup_seq_lt by done. simpl.
      by rewrite (list_lookup_total_correct _ _ _ Ec).
    - apply lookup_ge_None in Ec. by rewrite lookup_seq_ge. }
  rewrite Himap in Hperm.
  destruct (Permutation_map_inv _ _ Hperm) as (todo & -> & Hseq).
  rewrite length_imap. fold n.
  assert (Hlt : length todo = n) by (rewrite <-(Permutation_length Hseq); by rewrite length_seq).
  destruct (push_all_indices r fid cs todo) as (r' & Hp & Hr').
  - done.
  - fold n; lia.
  - rewrite <-Hseq. apply NoDup_seq.
  - intros ->. simpl in Hlt. lia.
  - intros i Hi. rewrite <-Hseq, elem_of_seq in Hi. fold n. lia.
  - fold n. lia.
  - fold n. unfold group_of. rewrite Hnone. simpl. unfold PartialGroup_fresh. f_equal; [|lia].
    rewrite slots_for_all; [by rewrite Nat2Z.id|].
    intros i Hi. rewrite <-Hseq, elem_of_seq. fold n in Hi. lia.
  - fold n in Hp. rewrite Hcat, Hlt in Hp. eauto.
Qed.

Lemma fragment_reassemble_any_order_witness :
  ∃ r', push_all (Reassembler_new 1) [frag_bytes 9 2 1 [5]; frag_bytes 9 2 0 [1;2;3;4]] =
      Some (r', [Ok None; Ok (Some [1;2;3;4;5])]) ∧ in_flight r' !! 9 = None.
Proof.
  apply (fragment_reassemble_any_order (Reassembler_new 1) [1;2;3;4;5] 8 9
           [frag_bytes 9 2 0 [1;2;3;4]; frag_bytes 9 2 1 [5]]
           [frag_bytes 9 2 1 [5]; frag_bytes 9 2 0 [1;2;3;4]]).
  - vm_compute; intuition congruence.
  - reflexivity.
  - reflexivity.
  - apply Permutation_swap.
Defined.

(** A second fragment for a filled slot changes nothing: the same body is
    answered [Ok(None)], a different body [Inconsistent], and in both cases
    the group stays in flight with the slots it had (the conflicting group is
    not discarded). *)
Theorem duplicate_fragment_keeps_group (r : Reassembler) (fid : Z) (i n : nat)
  (g : PartialGroup) (old body : bytes) :
  in_width 16 fid → reassembler_inv r → in_flight r !! fid = Some g →
  pg_total g = Z.of_nat n → pg_slots g !! i = Some (Some old) →
  Reassembler_push r (frag_bytes fid n i body) =
    Some (r, if decide (old = body) then Ok None else Err Inconsistent).
Proof.
  intros Hf [_ _ _ _ Hg] Hlk Ht Hslot. destruct (Hg fid g Hlk) as [Htot Hs Hr Hi].
  pose proof (lookup_lt_Some _ _ _ Hslot) as Hlt.
  unfold Reassembler_push. rewrite decode_frag_bytes by (done || lia).
  cbn [fragment_id offset total]. rewrite !Nat2Z.id.
  destruct (Nat.ltb_spec MAX_FRAGMENTS n); [lia|].
  replace (Reassembler_evict r fid) with r by (unfold Reassembler_evict; by rewrite Hlk).
  unfold Reassembler_entry. rewrite Hlk, Ht, Z.eqb_refl. cbn [negb]. rewrite Hslot.
  cbn [mbind option_bind]. change (drop FRAGMENT_HEADER_LEN (frag_bytes fid n i body)) with body.
  destruct (decide (old = body)) as [->|Hne]; [|by rewrite bool_decide_true].
  rewrite bool_decide_false by congruence.
  destruct (Nat.eqb_spec (pg_received g) n); [lia|done].
Qed.

Lemma duplicate_fragment_keeps_group_witness :
  let r := mkReassembler {[ 7 := mkGroup 2 [None; Some [66]] 1 ]} [7] 32 in
  Reassembler_push r (frag_bytes 7 2 1 [67]) = Some (r, Err Inconsistent).
Proof.
  intros r.
  apply (duplicate_fragment_keeps_group r 7 1 2 (mkGroup 2 [None; Some [66]] 1) [66] [67]);
    [vm_compute; intuition congruence| |reflexivity..].
  constructor; [simpl; lia|vm_compute; lia|apply NoDup_singleton| |].
  - intros id. unfold r; simpl. rewrite list_elem_of_singleton, lookup_singleton_is_Some.
    split; congruence.
  - apply map_Forall_singleton. by constructor; vm_compute; [split; congruence|..].
Defined.
