(* ===== verification/Reorder.v ===== *)
(** * The reorder buffer

    Models [desmos-core/src/bonding/reorder.rs].  The [BTreeMap] is a [gmap]
    from sequence numbers; its smallest key is [min_key].  [u64] additions
    are written with their release-mode wrap-around; the theorems about
    streams state the bounds under which none of them wraps. *)

From stdpp Require Import base list list_numbers gmap numbers sorting.
From Stdlib Require Import ZArith Lia.
From S2P Require Import Prelude.

Section ReorderBuffer.
Context {T : Type}.

Record Pending := mkPending { payload : T; received_at_ms : Z }.

Record ReorderBuffer := mkReorderBuffer {
  next_expected : Z;
  pending : gmap Z Pending;
  window : Z;
  gap_timeout_ms : Z;
  initialised : bool;
  delivered : Z;
  lost : Z;
  duplicates : Z;
}.

Definition ReorderBuffer_new (window gap_timeout_ms : Z) : ReorderBuffer :=
  {| next_expected := 0; pending := ∅; window := window; gap_timeout_ms := gap_timeout_ms;
     initialised := false; delivered := 0; lost := 0; duplicates := 0 |}.

Definition pending_count (b : ReorderBuffer) : nat := size (pending b).

(** Field updates of [push]. *)
Definition advance_to (b : ReorderBuffer) (next : Z) (skipped : Z) (m : gmap Z Pending)
  : ReorderBuffer :=
  {| next_expected := next; pending := m; window := window b;
     gap_timeout_ms := gap_timeout_ms b; initialised := true;
     delivered := wrapping_add 64 (delivered b) 1;
     lost := wrapping_add 64 (lost b) skipped; duplicates := duplicates b |}.

Definition count_duplicate (b : ReorderBuffer) : ReorderBuffer :=
  {| next_expected := next_expected b; pending := pending b; window := window b;
     gap_timeout_ms := gap_timeout_ms b; initialised := initialised b;
     delivered := delivered b; lost := lost b; duplicates := wrapping_add 64 (duplicates b) 1 |}.

Definition buffer_packet (b : ReorderBuffer) (seq : Z) (p : Pending) : ReorderBuffer :=
  {| next_expected := next_expected b; pending := <[seq := p]> (pending b); window := window b;
     gap_timeout_ms := gap_timeout_ms b; initialised := initialised b;
     delivered := delivered b; lost := lost b; duplicates := duplicates b |}.

(** [drain_contiguous]: the loop removes one entry per turn, so the size of
    [pending] bounds the number of turns. *)
Fixpoint drain_fuel (fuel : nat) (b : ReorderBuffer) (out : list T) : ReorderBuffer * list T :=
  match fuel with
  | O => (b, out)
  | S fuel' =>
      match pending b !! next_expected b with
      | None => (b, out)
      | Some p =>
          drain_fuel fuel'
            {| next_expected := wrapping_add 64 (next_expected b) 1;
               pending := delete (next_expected b) (pending b); window := window b;
               gap_timeout_ms := gap_timeout_ms b; initialised := initialised b;
               delivered := wrapping_add 64 (delivered b) 1;
               lost := lost b; duplicates := duplicates b |}
            (out ++ [payload p])
      end
  end.
Definition drain_contiguous (b : ReorderBuffer) (out : list T) : ReorderBuffer * list T :=
  drain_fuel (size (pending b)) b out.

Definition ReorderBuffer_push (b : ReorderBuffer) (seq : Z) (p : T) (now_ms : Z)
  : ReorderBuffer * list T :=
  if negb (initialised b)
  then (advance_to b (wrapping_add 64 seq 1) 0 (pending b), [p])
  else if seq <? next_expected b then (count_duplicate b, [])
  else if bool_decide (is_Some (pending b !! seq)) then (count_duplicate b, [])
  else if wrapping_add 64 (next_expected b) (window b) <=? seq
  then
    let skipped := seq - next_expected b in
    let b := advance_to b (wrapping_add 64 seq 1) skipped
               (filter (fun kv => seq < kv.1) (pending b)) in
    drain_contiguous b [p]
  else if seq =? next_expected b
  then
    let b := advance_to b (wrapping_add 64 (next_expected b) 1) 0 (pending b) in
    drain_contiguous b [p]
  else (buffer_packet b seq (mkPending p now_ms), []).

(** [pending.keys().next()]. *)
Definition min_key (m : gmap Z Pending) : option Z :=
  match (map_to_list m).*1 with
  | [] => None
  | k :: ks => Some (foldr Z.min k ks)
  end.

(** [values().map(age).max().unwrap_or(0)]. *)
Definition oldest_age (m : gmap Z Pending) (now_ms : Z) : Z :=
  foldr Z.max 0 ((fun kp => saturating_sub now_ms (received_at_ms kp.2)) <$> map_to_list m).

Definition skip_to (b : ReorderBuffer) (seq : Z) : ReorderBuffer :=
  if next_expected b <? seq
  then {| next_expected := seq; pending := pending b; window := window b;
          gap_timeout_ms := gap_timeout_ms b; initialised := initialised b;
          delivered := delivered b;
          lost := wrapping_add 64 (lost b) (seq - next_expected b);
          duplicates := duplicates b |}
  else b.

(** [None] is the [unwrap] of an empty iterator, which the first test rules out. *)
Definition ReorderBuffer_poll_timeout (b : ReorderBuffer) (now_ms : Z)
  : panics (ReorderBuffer * list T) :=
  if bool_decide (pending b = ∅) then Some (b, [])
  else if oldest_age (pending b) now_ms <? gap_timeout_ms b then Some (b, [])
  else oldest_seq ← min_key (pending b); Some (drain_contiguous (skip_to b oldest_seq) []).

(** The owner's calls, in order. *)
Inductive reorder_event :=
| EvPush (seq : Z) (p : T) (now_ms : Z)
| EvPoll (now_ms : Z).

Fixpoint run_reorder (b : ReorderBuffer) (evs : list reorder_event)
  : panics (ReorderBuffer * list T) :=
  match evs with
  | [] => Some (b, [])
  | ev :: evs' =>
      '(b1, o1) ← match ev with
                  | EvPush s p now => Some (ReorderBuffer_push b s p now)
                  | EvPoll now => ReorderBuffer_poll_timeout b now
                  end;
      '(b2, o2) ← run_reorder b1 evs';
      Some (b2, o1 ++ o2)
  end.

(** ** The invariant

    [tag] is the sequence number a payload was pushed under; the buffer never
    looks inside payloads, so tagging them loses no generality. *)

Context (tag : T → Z).

(** No sequence number or window reaches this bound, so no [u64] wraps. *)
Definition SEQ_BOUND : Z := 2 ^ 62.

Record reorder_inv (start : Z) (b : ReorderBuffer) : Prop := {
  ro_init : initialised b = true;
  ro_start : 0 <= start <= next_expected b;
  ro_next : next_expected b <= SEQ_BOUND;
  ro_window : 0 < window b <= SEQ_BOUND;
  ro_keys k p : pending b !! k = Some p →
    next_expected b < k < next_expected b + window b ∧ k < SEQ_BOUND ∧ tag (payload p) = k;
  ro_account : delivered b + lost b = next_expected b - start;
  ro_counts : 0 <= delivered b ∧ 0 <= lost b;
}.

(** ** Lemmas *)

Lemma wadd64_small a b : 0 <= a → 0 <= b → a + b <= 2 ^ 63 → wrapping_add 64 a b = a + b.
Proof. intros. apply wrap_small. unfold in_width. lia. Qed.

(** The effect of draining. *)
Lemma drain_fuel_spec fuel b out b' out' :
  (size (pending b) <= fuel)%nat →
  (∀ k p, pending b !! k = Some p → 0 <= k < SEQ_BOUND ∧ tag (payload p) = k) →
  0 <= next_expected b <= SEQ_BOUND → 0 <= delivered b → delivered b <= next_expected b →
  drain_fuel fuel b out = (b', out') →
  ∃ l, out' = out ++ l ∧ next_expected b' = next_expected b + Z.of_nat (length l) ∧
    next_expected b' <= SEQ_BOUND ∧
    tag <$> l = seqZ (next_expected b) (Z.of_nat (length l)) ∧
    delivered b' = delivered b + Z.of_nat (length l) ∧
    lost b' = lost b ∧ window b' = window b ∧ gap_timeout_ms b' = gap_timeout_ms b ∧
    initialised b' = initialised b ∧ duplicates b' = duplicates b ∧
    pending b' !! next_expected b' = None ∧
    (∀ k, next_expected b <= k < next_expected b' → is_Some (pending b !! k)) ∧
    ∀ k, pending b' !! k =
      if decide (next_expected b <= k < next_expected b') then None else pending b !! k.
Proof.
  revert b out; induction fuel as [|fuel IH]; intros b out Hsz Hk Hn Hd Hdn; cbn [drain_fuel].
  - intros [= <- <-]. exists []. rewrite app_nil_r. simpl. rewrite Z.add_0_r.
    assert (pending b = ∅) as E by (apply map_size_empty_inv; lia). rewrite !E.
    split_and!; try done; try lia.
    intros k. destruct (decide _); [lia|done].
  - destruct (pending b !! next_expected b) as [p|] eqn:Ep; cycle 1.
    { intros [= <- <-]. exists []. rewrite app_nil_r. simpl. rewrite Z.add_0_r.
      split_and!; try done; try lia. intros k. destruct (decide _); [lia|done]. }
    destruct (Hk _ _ Ep) as [Hb Htag]. intros E. unfold SEQ_BOUND in *.
    rewrite !wadd64_small in E by lia.
    apply IH in E as (l & -> & Hn' & Hb' & Hl & Hd' & Hlo & Hw & Hg & Hi & Hdu & Hno & Hall & Hm);
      cbn [next_expected pending delivered lost window gap_timeout_ms initialised duplicates] in *;
      [| | |lia..].
    + exists (payload p :: l). rewrite <-app_assoc. simpl length.
      split_and!; try done; try lia.
      * rewrite fmap_cons, Hl, Htag. rewrite (seqZ_cons (next_expected b)) by lia.
        repeat f_equal; lia.
      * intros k Hk'. destruct (decide (k = next_expected b)) as [->|]; [by eauto|].
        destruct (Hall k) as [q Hq]; [lia|]. rewrite lookup_delete_ne in Hq by lia. by eauto.
      * intros k. rewrite Hm, lookup_delete.
        destruct (decide (next_expected b = k)) as [<-|];
          [by rewrite decide_False, decide_True by lia|].
        apply decide_ext. lia.
    + assert (size (pending b) = S (size (delete (next_expected b) (pending b)))); [|lia].
      rewrite <-(map_size_insert_None (next_expected b) p) by apply lookup_delete_eq.
      by rewrite insert_delete_id.
    + intros k q [? Hq]%lookup_delete_Some. by apply Hk.
Qed.

Lemma drain_inv start b out b' out' :
  0 <= start <= next_expected b → next_expected b <= SEQ_BOUND → 0 < window b <= SEQ_BOUND →
  initialised b = true →
  (∀ k p, pending b !! k = Some p →
    next_expected b <= k < next_expected b + window b ∧ k < SEQ_BOUND ∧ tag (payload p) = k) →
  delivered b + lost b = next_expected b - start → 0 <= delivered b → 0 <= lost b →
  drain_contiguous b out = (b', out') →
  reorder_inv start b' ∧ next_expected b <= next_expected b' ∧
  window b' = window b ∧ gap_timeout_ms b' = gap_timeout_ms b ∧
  lost b' = lost b ∧
  (∀ k, pending b' !! k =
      if decide (next_expected b <= k < next_expected b') then None else pending b !! k) ∧
  (∀ k, next_expected b <= k < next_expected b' → is_Some (pending b !! k)) ∧
  ∃ l, out' = out ++ l ∧ tag <$> l = seqZ (next_expected b) (next_expected b' - next_expected b).
Proof.
  intros Hs Hn Hw Hi Hk Ha Hd Hl E.
  apply drain_fuel_spec in E as (l & -> & Hn' & Hb' & Ht & Hd' & Hlo & Hw' & Hg & Hi' & Hdu & Hno & Hall & Hm);
    [|done| |lia..].
  - split_and!; try done; try lia.
    + constructor; rewrite ?Hw', ?Hi'; try done; try lia.
      intros k p Hp. rewrite Hm in Hp. destruct (decide _) as [|Hnin]; [done|].
      destruct (Hk k p Hp) as (H1 & H2 & H3).
      assert (k ≠ next_expected b') by (intros ->; rewrite Hm, decide_False in Hno by lia; congruence).
      split_and!; [lia|lia|done|done].
    + exists l. split; [done|]. rewrite Ht. f_equal. lia.
  - intros k p Hp. destruct (Hk k p Hp) as (? & ? & ?). split; [lia|done].
Qed.

Lemma foldr_min_spec (l : list Z) x :
  foldr Z.min x l ∈ x :: l ∧ ∀ y, y ∈ x :: l → foldr Z.min x l <= y.
Proof.
  induction l as [|z l [IH1 IH2]]; simpl.
  - split; [left|]. intros y. rewrite list_elem_of_singleton. lia.
  - split.
    + destruct (Z.min_spec z (foldr Z.min x l)) as [[_ ->]|[_ ->]]; [right; left|].
      apply elem_of_cons in IH1 as [->|?]; [left|right; by right].
    + intros y [->|[->|Hy]%elem_of_cons]%elem_of_cons; [|lia|].
      * specialize (IH2 x ltac:(left)). lia.
      * specialize (IH2 y ltac:(by right)). lia.
Qed.

Lemma min_key_spec (m : gmap Z Pending) :
  match min_key m with
  | None => m = ∅
  | Some k => is_Some (m !! k) ∧ ∀ j p, m !! j = Some p → k <= j
  end.
Proof.
  unfold min_key. destruct ((map_to_list m).*1) as [|k ks] eqn:E.
  - apply fmap_nil_inv in E. by apply map_to_list_empty_iff.
  - destruct (foldr_min_spec ks k) as [H1 H2]. rewrite <-E in H1, H2. split.
    + apply list_elem_of_fmap in H1 as ([j p] & -> & Hj). apply elem_of_map_to_list in Hj. by eauto.
    + intros j p Hp. apply H2, list_elem_of_fmap. exists (j, p). split; [done|].
      by apply elem_of_map_to_list.
Qed.

(** Every call releases a contiguous run that ends at the new
    [next_expected]; what it skips is counted lost. *)
Definition step_ok (start : Z) (b b' : ReorderBuffer) (o : list T) : Prop :=
  reorder_inv start b' ∧ window b' = window b ∧ gap_timeout_ms b' = gap_timeout_ms b ∧
  ∃ s, next_expected b <= s <= next_expected b' ∧
    tag <$> o = seqZ s (next_expected b' - s) ∧ lost b' = lost b + (s - next_expected b).

Lemma step_ok_silent start b b' :
  reorder_inv start b' → window b' = window b → gap_timeout_ms b' = gap_timeout_ms b →
  next_expected b' = next_expected b → lost b' = lost b → step_ok start b b' [].
Proof.
  intros Hi Hw Hg Hn Hl. split_and!; try done. exists (next_expected b).
  rewrite Hn, Z.sub_diag. split_and!; lia || done.
Qed.

(** Advancing to [s + 1] and draining. *)
Lemma advance_drain start b s m p b' o :
  reorder_inv start b → next_expected b <= s < SEQ_BOUND → tag p = s →
  (∀ k q, m !! k = Some q → pending b !! k = Some q ∧ s < k) →
  drain_contiguous (advance_to b (s + 1) (s - next_expected b) m) [p] = (b', o) →
  step_ok start b b' o ∧
  (∀ k, pending b' !! k = if decide (s < k < next_expected b') then None else m !! k) ∧
  (∀ k, s < k < next_expected b' → is_Some (m !! k)) ∧ s < next_expected b' ∧
  tag <$> o = seqZ s (next_expected b' - s) ∧ lost b' = lost b + (s - next_expected b).
Proof.
  intros [Hi Hst Hn Hw Hk Ha [Hd Hl]] Hs Htag Hm. unfold SEQ_BOUND in *.
  unfold advance_to. rewrite !wadd64_small by lia. intros E.
  apply (drain_inv start) in E as (Hinv & Hle & Hw' & Hg & Hlo & Hp & Hall & l & -> & Ht);
    cbn [next_expected pending delivered lost window gap_timeout_ms initialised duplicates] in *;
    try done; try (unfold SEQ_BOUND; lia).
  - assert (Htags : tag <$> [p] ++ l = seqZ s (next_expected b' - s)).
    { rewrite fmap_app, Ht. simpl. rewrite Htag, (seqZ_cons s) by lia.
      f_equal. f_equal; lia. }
    split; [split_and!; try done; exists s; split_and!; try done; lia|].
    split_and!; [| |lia|done|lia].
    + intros k. rewrite Hp. apply decide_ext. lia.
    + intros k Hk'. apply Hall. lia.
  - intros k q Hq. destruct (Hm k q Hq) as [H1 H2]. destruct (Hk k q H1) as (H3 & H4 & H5).
    unfold SEQ_BOUND in *. split_and!; try done; lia.
Qed.

(** What [push] does on an initialised buffer. *)
Lemma push_step start b seq p now b' o :
  reorder_inv start b → 0 <= seq < SEQ_BOUND → tag p = seq →
  ReorderBuffer_push b seq p now = (b', o) → step_ok start b b' o.
Proof.
  intros Hinv Hs Htag. pose proof Hinv as [Hi Hst Hn Hw Hk Ha Hc].
  unfold ReorderBuffer_push. rewrite Hi. cbn [negb].
  assert (Hdup : step_ok start b (count_duplicate b) []) by (apply step_ok_silent; done).
  destruct (Z.ltb_spec seq (next_expected b)); [by intros [= <- <-]|].
  case_bool_decide as Hp; [by intros [= <- <-]|]. apply eq_None_not_Some in Hp.
  rewrite (wadd64_small (next_expected b)) by (unfold SEQ_BOUND in *; lia).
  destruct (Z.leb_spec (next_expected b + window b) seq) as [Hpress|Hfit].
  - rewrite (wadd64_small seq) by (unfold SEQ_BOUND in *; lia). intros E.
    apply (advance_drain start) in E as [? _]; try done; [lia|].
    intros k q [??]%map_lookup_filter_Some. done.
  - destruct (Z.eqb_spec seq (next_expected b)) as [->|Hne].
    + rewrite (wadd64_small (next_expected b)) by (unfold SEQ_BOUND in *; lia).
      replace 0 with (next_expected b - next_expected b) at 1 by lia. intros E.
      apply (advance_drain start) in E as [? _]; try done; [lia|].
      intros k q Hq. split; [done|]. apply Hk in Hq. lia.
    + intros [= <- <-]. apply step_ok_silent; try done. constructor; try done. simpl.
      intros k q [[<- <-]|[? Hq]]%lookup_insert_Some; [split_and!; simpl; try done; lia|by apply Hk].
Qed.

Lemma oldest_age_ge m now k q :
  m !! k = Some q → now - received_at_ms q <= oldest_age m now.
Proof.
  intros Hq%elem_of_map_to_list. unfold oldest_age.
  induction (map_to_list m) as [|x l IH]; [by apply not_elem_of_nil in Hq|].
  apply elem_of_cons in Hq as [<-|Hq]; cbn [fmap list_fmap foldr snd]; unfold saturating_sub.
  - lia.
  - specialize (IH Hq). unfold saturating_sub in IH. lia.
Qed.

(** A poll that fires. *)
Lemma poll_fires start b now k :
  reorder_inv start b → min_key (pending b) = Some k → gap_timeout_ms b <= oldest_age (pending b) now →
  ∃ b' o, ReorderBuffer_poll_timeout b now = Some (b', o) ∧
    reorder_inv start b' ∧ window b' = window b ∧ gap_timeout_ms b' = gap_timeout_ms b ∧
    next_expected b < k < next_expected b' ∧ tag <$> o = seqZ k (next_expected b' - k) ∧
    lost b' = lost b + (k - next_expected b).
Proof.
  intros [Hi Hst Hn Hw Hk Ha [Hd Hl]] Hkey Hage. unfold ReorderBuffer_poll_timeout.
  pose proof (min_key_spec (pending b)) as Hmin. rewrite Hkey in Hmin. destruct Hmin as [[q Hq] Hmin].
  rewrite bool_decide_false by (intros E; by rewrite E, lookup_empty in Hq).
  destruct (Z.ltb_spec (oldest_age (pending b) now) (gap_timeout_ms b)); [lia|].
  rewrite Hkey. cbn [mbind option_bind]. destruct (Hk k q Hq) as (Hk1 & Hk2 & _).
  unfold skip_to. destruct (Z.ltb_spec (next_expected b) k) as [_|]; [|lia].
  unfold SEQ_BOUND in *. rewrite wadd64_small by lia.
  destruct (drain_contiguous _ []) as [b' o] eqn:E.
  apply (drain_inv start) in E as (Hinv' & Hle & Hw' & Hg & Hlo & Hp & Hall & l & -> & Ht);
    cbn [next_expected pending delivered lost window gap_timeout_ms initialised duplicates] in *;
    try done; try (unfold SEQ_BOUND; lia).
  - do 2 eexists; split; [done|]. split_and!; try done; try lia.
    destruct (decide (next_expected b' = k)) as [Ek|]; [|lia].
    destruct (ro_keys _ _ Hinv' k q) as [? _]; [|lia]. by rewrite Hp, decide_False by lia.
  - intros j r Hr. destruct (Hk j r Hr) as (H3 & H4 & H5). specialize (Hmin j r Hr).
    unfold SEQ_BOUND in *. split_and!; try done; lia.
Qed.

Lemma poll_step start b now :
  reorder_inv start b →
  ∃ b' o, ReorderBuffer_poll_timeout b now = Some (b', o) ∧ step_ok start b b' o.
Proof.
  intros Hinv. assert (Hsilent : step_ok start b b []) by (apply step_ok_silent; done).
  destruct (decide (pending b = ∅)) as [He|He].
  { unfold ReorderBuffer_poll_timeout. rewrite bool_decide_true by done. by eauto. }
  destruct (decide (gap_timeout_ms b <= oldest_age (pending b) now)) as [Hage|Hage].
  - pose proof (min_key_spec (pending b)) as Hmin. destruct (min_key (pending b)) as [k|] eqn:Hkey; [|done].
    destruct (poll_fires start b now k) as (b' & o & E & H1 & H2 & H3 & H4 & H5 & H6); try done.
    exists b', o. split; [done|]. split_and!; try done. exists k. split_and!; (done || lia).
  - unfold ReorderBuffer_poll_timeout. rewrite bool_decide_false by done.
    destruct (Z.ltb_spec (oldest_age (pending b) now) (gap_timeout_ms b)); [by eauto|lia].
Qed.

Lemma seqZ_sorted s n : StronglySorted Z.lt (seqZ s n).
Proof.
  destruct (decide (n <= 0)); [rewrite seqZ_nil by done; constructor|].
  replace n with (Z.of_nat (Z.to_nat n)) by lia. generalize (Z.to_nat n) as m; clear.
  intros m; revert s; induction m as [|m IH]; intros s; [constructor|].
  rewrite seqZ_cons by lia. replace (Z.pred (Z.of_nat (S m))) with (Z.of_nat m) by lia.
  constructor; [apply IH|]. apply Forall_forall. intros x Hx%elem_of_seqZ. lia.
Qed.

(** A valid call: the payload is tagged with its sequence number. *)
Definition event_ok (ev : reorder_event) : Prop :=
  match ev with EvPush s p _ => 0 <= s < SEQ_BOUND ∧ tag p = s | EvPoll _ => True end.

Lemma run_inv start b evs :
  reorder_inv start b → Forall event_ok evs →
  ∃ b' o, run_reorder b evs = Some (b', o) ∧ reorder_inv start b' ∧
    next_expected b <= next_expected b' ∧ StronglySorted Z.lt (tag <$> o) ∧
    Forall (fun s => next_expected b <= s < next_expected b') (tag <$> o) ∧
    delivered b' = delivered b + Z.of_nat (length o).
Proof.
  intros Hinv Hev. revert b Hinv; induction Hev as [|ev evs Hev _ IH]; intros b Hinv; cbn [run_reorder].
  { exists b, []. split_and!; try done; try constructor; simpl; lia. }
  assert (∃ b1 o1, match ev with
      | EvPush s p now => Some (ReorderBuffer_push b s p now)
      | EvPoll now => ReorderBuffer_poll_timeout b now end = Some (b1, o1) ∧ step_ok start b b1 o1)
    as (b1 & o1 & -> & Hinv1 & Hw & Hg & s & Hs & Htag & Hlost).
  { destruct ev as [s p now|now]; [|by apply poll_step].
    destruct (ReorderBuffer_push b s p now) as [b1 o1] eqn:E. destruct Hev as [Hs Ht].
    eauto using push_step. }
  destruct (IH b1 Hinv1) as (b2 & o2 & E2 & Hinv2 & Hle & Hsort & Hrange & Hdel).
  cbn [mbind option_bind]. rewrite E2. cbn [mbind option_bind].
  assert (Hlen : Z.of_nat (length o1) = next_expected b1 - s).
  { rewrite <-(length_fmap tag), Htag, length_seqZ. lia. }
  destruct Hinv as [_ Hst _ _ _ Ha _], Hinv1 as [_ _ _ _ _ Ha1 _].
  do 2 eexists; split; [done|]. rewrite fmap_app, Htag. split_and!; try done; try lia.
  - apply StronglySorted_app. split_and!; try done.
    + intros x y Hx Hy. rewrite Forall_forall in Hrange. apply elem_of_seqZ in Hx.
      specialize (Hrange y Hy). lia.
    + apply seqZ_sorted.
  - apply Forall_app. split; [|eapply Forall_impl; [exact Hrange|simpl; lia]].
    apply Forall_forall. intros x Hx%elem_of_seqZ. lia.
  - rewrite length_app, Nat2Z.inj_add, Hdel. lia.
Qed.

(** ** A gap-free stream that stays within the window

    [o] has been released out of the arrivals [A], all at least [e]. *)
Record in_window (start e lost0 : Z) (A : gset Z) (b : ReorderBuffer) (o : list T) : Prop := {
  iw_inv : reorder_inv start b;
  iw_next : e <= next_expected b;
  iw_out : tag <$> o = seqZ e (next_expected b - e);
  iw_lost : lost b = lost0;
  iw_pending k : is_Some (pending b !! k) ↔ k ∈ A ∧ next_expected b < k;
  iw_below k : e <= k < next_expected b → k ∈ A;
  iw_gap : next_expected b ∉ A;
}.

Lemma seqZ_app' s t u : s <= t <= u → seqZ s (t - s) ++ seqZ t (u - t) = seqZ s (u - s).
Proof.
  intros H. replace (u - s) with ((t - s) + (u - t)) by lia. rewrite seqZ_app by lia.
  f_equal. f_equal; lia.
Qed.

Lemma in_window_push start e lost0 A b o s p now b' o' :
  in_window start e lost0 A b o → s ∉ A → e <= s < SEQ_BOUND → s < e + window b → tag p = s →
  ReorderBuffer_push b s p now = (b', o') →
  in_window start e lost0 ({[s]} ∪ A) b' (o ++ o') ∧ window b' = window b.
Proof.
  intros [Hinv He Ho Hlo Hp Hbelow Hgap] Hs Hsr Hwin Htag. pose proof Hinv as [Hi Hst Hn Hw Hk Ha Hc].
  assert (Hge : next_expected b <= s).
  { destruct (decide (s < next_expected b)); [|lia]. exfalso. apply Hs, Hbelow. lia. }
  unfold ReorderBuffer_push. rewrite Hi. cbn [negb].
  destruct (Z.ltb_spec s (next_expected b)); [lia|].
  rewrite bool_decide_false by (rewrite Hp; tauto).
  rewrite (wadd64_small (next_expected b)) by (unfold SEQ_BOUND in *; lia).
  destruct (Z.leb_spec (next_expected b + window b) s); [lia|].
  destruct (Z.eqb_spec s (next_expected b)) as [->|Hne].
  - rewrite (wadd64_small (next_expected b)) by (unfold SEQ_BOUND in *; lia).
    replace 0 with (next_expected b - next_expected b) at 1 by lia. intros E.
    apply (advance_drain start) in E as ((Hinv' & Hw' & _ & _) & Hm & Hall & Hlt & Htags & Hl');
      [|done|lia|done|intros k q Hq; split; [done|]; apply Hk in Hq; lia].
    split; [|done]. pose proof (ro_keys _ _ Hinv') as Hk'. constructor; [done|lia| |lia| | |].
    + rewrite fmap_app, Ho, Htags. apply seqZ_app'. lia.
    + intros k. rewrite elem_of_union, elem_of_singleton. split.
      * intros [q Hq]. pose proof (Hk' k q Hq) as [Hkk _]. rewrite Hm in Hq.
        destruct (decide _); [done|]. split; [right; by eapply Hp|lia].
      * intros [[->|HkA] Hlt']; [lia|]. rewrite Hm, decide_False by lia. apply Hp. split; [done|lia].
    + intros k Hke. rewrite elem_of_union, elem_of_singleton.
      destruct (decide (k < next_expected b)); [right; apply Hbelow; lia|].
      destruct (decide (k = next_expected b)); [by left|].
      right. apply Hp, Hall. lia.
    + rewrite elem_of_union, elem_of_singleton. intros [?|HA]; [lia|].
      destruct (proj2 (Hp (next_expected b'))) as [q Hq]; [split; [done|lia]|].
      destruct (Hk' (next_expected b') q) as [? _]; [|lia]. by rewrite Hm, decide_False by lia.
  - intros [= <- <-]. split; [|done]. rewrite app_nil_r. constructor; simpl; try done.
    + constructor; try done. simpl.
      intros k q [[<- <-]|[? Hq]]%lookup_insert_Some; [split_and!; simpl; try done; lia|by apply Hk].
    + intros k. rewrite lookup_insert_is_Some, Hp, elem_of_union, elem_of_singleton.
      destruct (decide (s = k)) as [->|]; [|naive_solver]. split; [intros _; split; [by left|lia]|by left].
    + intros k Hke. apply elem_of_union_r, Hbelow. lia.
    + rewrite elem_of_union, elem_of_singleton. naive_solver lia.
Qed.

(** Pushing packets [(payload, arrival time)] under their tags. *)
Definition push_event (pkt : T * Z) : reorder_event := EvPush (tag pkt.1) pkt.1 pkt.2.

Lemma in_window_run start e lost0 A b o pkts :
  let seqs := tag <$> pkts.*1 in
  in_window start e lost0 A b o → NoDup seqs →
  Forall (fun s => s ∉ A ∧ e <= s < SEQ_BOUND ∧ s < e + window b) seqs →
  ∃ b' o', run_reorder b (push_event <$> pkts) = Some (b', o') ∧
    in_window start e lost0 (list_to_set seqs ∪ A) b' (o ++ o').
Proof.
  intros seqs. subst seqs. revert A b o. induction pkts as [|[p now] pkts IH]; intros A b o Hw Hnd Hall.
  { exists b, []. split; [done|]. rewrite app_nil_r. simpl. by rewrite union_empty_l_L. }
  cbn [fmap list_fmap fst] in Hnd, Hall. apply NoDup_cons in Hnd as [Hnin Hnd].
  apply Forall_cons in Hall as [(HsA & Hs & Hsw) Hall].
  cbn [fmap list_fmap run_reorder push_event fst snd].
  destruct (ReorderBuffer_push b (tag p) p now) as [b1 o1] eqn:E.
  destruct (in_window_push _ _ _ _ _ _ _ _ _ _ _ Hw HsA Hs Hsw eq_refl E) as [Hw1 Hwin].
  destruct (IH _ b1 _ Hw1) as (b2 & o2 & E2 & Hw2); [done| |].
  { eapply Forall_impl; [|]. 2:{ intros x Hx. exact Hx. }
    apply Forall_forall. intros x Hx. rewrite Forall_forall in Hall. destruct (Hall x Hx) as (H1 & H2 & H3).
    rewrite Hwin. split_and!; try done; try lia.
    rewrite elem_of_union, elem_of_singleton. intros [->|?]; done. }
  cbn [mbind option_bind]. rewrite E2. cbn [mbind option_bind].
  do 2 eexists; split; [done|]. rewrite app_assoc. simpl.
  by rewrite <-union_assoc_L, (union_comm_L {[tag p]}), <-union_assoc_L, (union_comm_L A).
Qed.

Lemma first_push b p now :
  initialised b = false → pending b = ∅ → delivered b = 0 → lost b = 0 →
  0 <= tag p < SEQ_BOUND → 0 < window b <= SEQ_BOUND →
  ∃ b1, ReorderBuffer_push b (tag p) p now = (b1, [p]) ∧ reorder_inv (tag p) b1 ∧
    next_expected b1 = tag p + 1 ∧ pending b1 = ∅ ∧ lost b1 = 0 ∧ window b1 = window b ∧
    delivered b1 = 1.
Proof.
  intros Hi Hp Hd Hl Hs Hw. unfold ReorderBuffer_push. rewrite Hi. cbn [negb].
  unfold advance_to. rewrite Hd, Hl. unfold SEQ_BOUND in *. rewrite !wadd64_small by lia.
  eexists; split; [reflexivity|]. split_and!; simpl; try done.
  constructor; simpl; unfold SEQ_BOUND; try done; try lia.
  intros k q. by rewrite Hp, lookup_empty.
Qed.

(** The end of such a stream: everything released, nothing held. *)
Lemma in_window_complete start e lost0 n b o :
  0 <= n → in_window start e lost0 (list_to_set (seqZ e n)) b o →
  next_expected b = e + n ∧ pending b = ∅ ∧ tag <$> o = seqZ e n ∧ lost b = lost0.
Proof.
  intros Hn [Hinv He Ho Hlo Hp Hbelow Hgap].
  assert (Hin : ∀ k, k ∈ (list_to_set (seqZ e n) : gset Z) ↔ e <= k < e + n)
    by (intros k; by rewrite elem_of_list_to_set, elem_of_seqZ).
  assert (Hne : next_expected b = e + n).
  { rewrite Hin in Hgap. destruct (decide (next_expected b = e)); [lia|].
    assert (H : next_expected b - 1 ∈ (list_to_set (seqZ e n) : gset Z)) by (apply Hbelow; lia).
    rewrite Hin in H. lia. }
  split_and!; [done| | |done].
  - apply map_empty. intros k. apply eq_None_not_Some. rewrite Hp, Hin. lia.
  - rewrite Ho. f_equal. lia.
Qed.

(** Before the first packet nothing is held and polls do nothing. *)
Lemma run_fresh b evs :
  initialised b = false → pending b = ∅ → delivered b = 0 → lost b = 0 →
  0 < window b <= SEQ_BOUND → Forall event_ok evs →
  ∃ b' o, run_reorder b evs = Some (b', o) ∧ StronglySorted Z.lt (tag <$> o) ∧
    delivered b' = Z.of_nat (length o) ∧
    match o with
    | [] => b' = b
    | p :: _ => reorder_inv (tag p) b'
    end.
Proof.
  intros Hi Hp Hd Hl Hw Hev. induction Hev as [|ev evs Hok Hev IH]; cbn [run_reorder].
  { exists b, []. split_and!; try done; constructor. }
  destruct ev as [s p now|now].
  - destruct Hok as [Hs <-].
    destruct (first_push b p now) as (b1 & -> & Hinv & Hn & _ & _ & _ & Hd1); try done.
    destruct (run_inv (tag p) b1 evs Hinv Hev) as (b2 & o2 & E2 & Hinv2 & Hle & Hsort & Hrange & Hdel).
    cbn [mbind option_bind]. rewrite E2. cbn [mbind option_bind]. do 2 eexists; split; [done|].
    split_and!; [|simpl length; lia|done]. simpl. constructor; [done|].
    eapply Forall_impl; [exact Hrange|]. simpl. lia.
  - unfold ReorderBuffer_poll_timeout. rewrite bool_decide_true by done. cbn [mbind option_bind].
    destruct IH as (b' & o & E & H). rewrite E. cbn [mbind option_bind]. by eauto.
Qed.

End ReorderBuffer.

Arguments ReorderBuffer : clear implicits.
Arguments Pending : clear implicits.
Arguments reorder_event : clear implicits.

(** ** Properties *)

(** C7: Whatever packets arrive, in whatever order, with polls in between,
    the buffer never panics and releases packets in strictly increasing
    sequence order; [delivered] counts exactly the packets released, and
    [delivered + lost] is exactly the distance from the first packet to
    [next_expected]. *)
Theorem reorder_in_order {T} (tag : T → Z) (window gap_timeout_ms : Z) (evs : list (reorder_event T)) :
  0 < window <= SEQ_BOUND → Forall (event_ok tag) evs →
  ∃ b' o, run_reorder (ReorderBuffer_new window gap_timeout_ms) evs = Some (b', o) ∧
    StronglySorted Z.lt (tag <$> o) ∧ delivered b' = Z.of_nat (length o) ∧
    match o with
    | [] => b' = ReorderBuffer_new window gap_timeout_ms
    | first :: _ => delivered b' + lost b' = next_expected b' - tag first
    end.
Proof.
  intros Hw Hev.
  destruct (run_fresh tag (ReorderBuffer_new window gap_timeout_ms) evs)
    as (b' & o & E & Hs & Hd & Ho); try done.
  exists b', o. split_and!; try done. destruct o; [done|]. by destruct Ho.
Qed.

Lemma reorder_in_order_witness :
  ∃ b' o, run_reorder (ReorderBuffer_new 8 100) [EvPush 5 5 0; EvPush 7 7 0; EvPoll 200; EvPush 6 6 201]
      = Some (b', o) ∧ StronglySorted Z.lt (id <$> o) ∧ delivered b' = Z.of_nat (length o) ∧
    match o with
    | [] => b' = ReorderBuffer_new 8 100
    | first :: _ => delivered b' + lost b' = next_expected b' - first
    end.
Proof.
  apply (reorder_in_order id 8 100 [EvPush 5 5 0; EvPush 7 7 0; EvPoll 200; EvPush 6 6 201]).
  - vm_compute. intuition congruence.
  - repeat apply Forall_cons_2; try apply Forall_nil_2; vm_compute; intuition congruence.
Defined.

(** If after the first packet every one of the next [n] sequence numbers
    arrives exactly once, in any order and at any times, and [n] is at most
    the window, then all of them are released in sequence order, nothing is
    lost and nothing stays buffered. *)
Theorem reorder_window_complete {T} (tag : T → Z) (window gap_timeout_ms n : Z) (p0 : T) (now0 : Z)
  (pkts : list (T * Z)) :
  0 < window <= SEQ_BOUND → 0 <= n <= window → 0 <= tag p0 → tag p0 + n < SEQ_BOUND →
  tag <$> pkts.*1 ≡ₚ seqZ (tag p0 + 1) n →
  ∃ b' o, run_reorder (ReorderBuffer_new window gap_timeout_ms)
      (push_event tag <$> (p0, now0) :: pkts) = Some (b', o) ∧
    tag <$> o = seqZ (tag p0) (n + 1) ∧ lost b' = 0 ∧ pending b' = ∅.
Proof.
  intros Hw Hn H0 Hb Hperm. cbn [fmap list_fmap run_reorder push_event fst snd].
  destruct (first_push tag (ReorderBuffer_new window gap_timeout_ms) p0 now0)
    as (b1 & -> & Hinv & Hne & Hp & Hl & Hwin & _); try done; [lia|].
  destruct (in_window_run tag (tag p0) (tag p0 + 1) 0 ∅ b1 [] pkts) as (b2 & o2 & E2 & Hiw).
  - constructor; rewrite ?Hne, ?Hp; try done; try lia.
    + by rewrite Z.sub_diag.
    + intros k. rewrite lookup_empty. split; [by intros [??]|set_solver].
  - rewrite Hperm. apply NoDup_seqZ.
  - rewrite Hperm. apply Forall_forall. intros x Hx%elem_of_seqZ. rewrite Hwin. simpl.
    split_and!; [set_solver|lia..].
  - cbn [mbind option_bind]. rewrite E2. cbn [mbind option_bind app] in *.
    rewrite union_empty_r_L in Hiw.
    assert (Hset : list_to_set (tag <$> pkts.*1) = (list_to_set (seqZ (tag p0 + 1) n) : gset Z)).
    { apply list_to_set_perm_L. exact Hperm. }
    rewrite Hset in Hiw. apply in_window_complete in Hiw as (_ & Hpe & Ho & Hlo); [|lia].
    do 2 eexists; split; [done|]. split_and!; try done. rewrite fmap_cons, Ho.
    rewrite (seqZ_cons (tag p0)) by lia. f_equal. f_equal; lia.
Qed.

Lemma reorder_window_complete_witness :
  ∃ b' o, run_reorder (ReorderBuffer_new 4 100)
      (push_event id <$> [(10, 0); (13, 1); (11, 2); (12, 3)]) = Some (b', o) ∧
    id <$> o = seqZ 10 4 ∧ lost b' = 0 ∧ pending b' = ∅.
Proof.
  apply (reorder_window_complete id 4 100 3 10 0 [(13, 1); (11, 2); (12, 3)]).
  - vm_compute. intuition congruence.
  - lia.
  - vm_compute. congruence.
  - vm_compute. congruence.
  - vm_compute. apply (Permutation_middle [11; 12] [] 13).
Defined.

(** Gap timeout makes progress: when some buffered packet has waited at
    least [gap_timeout_ms], a poll skips to the smallest buffered sequence
    number, counts exactly the skipped numbers as lost and releases a
    contiguous run that starts with it. *)
Theorem reorder_poll_progress {T} (tag : T → Z) (start : Z) (b : ReorderBuffer T) (now k : Z)
  (q : Pending T) :
  reorder_inv tag start b → pending b !! k = Some q →
  gap_timeout_ms b <= now - received_at_ms q →
  ∃ b' o s, ReorderBuffer_poll_timeout b now = Some (b', o) ∧
    min_key (pending b) = Some s ∧ next_expected b < s <= k ∧ s < next_expected b' ∧
    lost b' = lost b + (s - next_expected b) ∧ tag <$> o = seqZ s (next_expected b' - s).
Proof.
  intros Hinv Hq Hage. pose proof (oldest_age_ge _ now _ _ Hq) as Hold.
  pose proof (min_key_spec (pending b)) as Hmin. destruct (min_key (pending b)) as [s|] eqn:Hkey.
  - destruct Hmin as [_ Hmin]. specialize (Hmin k q Hq).
    destruct (poll_fires tag start b now s) as (b' & o & E & H1 & H2 & H3 & H4 & H5 & H6);
      [done|done|lia|].
    exists b', o, s. split_and!; (done || lia).
  - by rewrite Hmin, lookup_empty in Hq.
Qed.

Definition example_buffer : ReorderBuffer Z :=
  mkReorderBuffer 4 {[ 6 := mkPending 6 100 ]} 8 50 true 4 0 0.

Lemma example_buffer_inv : reorder_inv id 0 example_buffer.
Proof.
  constructor; simpl; unfold SEQ_BOUND; [done|lia..| |lia|lia].
  intros k p Hp. apply lookup_singleton_Some in Hp as [<- <-]. simpl. unfold id. lia.
Qed.

Lemma reorder_poll_progress_witness :
  let b := example_buffer in
  ∃ b' o s, ReorderBuffer_poll_timeout b 150 = Some (b', o) ∧
    min_key (pending b) = Some s ∧ 4 < s <= 6 ∧ s < next_expected b' ∧
    lost b' = 0 + (s - 4) ∧ id <$> o = seqZ s (next_expected b' - s).
Proof.
  intros b. apply (reorder_poll_progress id 0 b 150 6 (mkPending 6 100)).
  - apply example_buffer_inv.
  - reflexivity.
  - vm_compute. congruence.
Defined.

(** Window pressure: a packet at or past [next_expected + window] is
    released at once, everything still buffered is dropped, and the skipped
    numbers (buffered ones included) are counted lost. *)
Theorem reorder_window_pressure {T} (tag : T → Z) (start : Z) (b : ReorderBuffer T) (seq : Z) (p : T)
  (now : Z) :
  reorder_inv tag start b → next_expected b + window b <= seq < SEQ_BOUND →
  ∃ b', ReorderBuffer_push b seq p now = (b', [p]) ∧ pending b' = ∅ ∧
    next_expected b' = seq + 1 ∧ lost b' = lost b + (seq - next_expected b) ∧
    delivered b' = delivered b + 1.
Proof.
  intros [Hi Hst Hn Hw Hk Ha [Hd Hl]] Hs. unfold ReorderBuffer_push. rewrite Hi. cbn [negb].
  destruct (Z.ltb_spec seq (next_expected b)); [lia|].
  rewrite bool_decide_false by (intros [q Hq]; apply Hk in Hq; lia).
  unfold SEQ_BOUND in *. rewrite (wadd64_small (next_expected b)) by lia.
  destruct (Z.leb_spec (next_expected b + window b) seq); [|lia].
  assert (Hf : filter (fun kv => seq < kv.1) (pending b) = ∅).
  { apply map_empty. intros k. apply map_lookup_filter_None. right.
    intros q Hq Hlt. simpl in Hlt. apply Hk in Hq. lia. }
  rewrite Hf. unfold advance_to. rewrite !wadd64_small by lia.
  eexists; split; [reflexivity|]. simpl. split_and!; done.
Qed.

Lemma reorder_window_pressure_witness :
  let b := example_buffer in
  ∃ b', ReorderBuffer_push b 20 20 0 = (b', [20]) ∧ pending b' = ∅ ∧
    next_expected b' = 21 ∧ lost b' = 0 + 16 ∧ delivered b' = 4 + 1.
Proof.
  intros b. apply (reorder_window_pressure id 0 b 20 20 0).
  - apply example_buffer_inv.
  - vm_compute. intuition congruence.
Defined.
