(* ===== verification/LinkState.v ===== *)
(** * The per-link health state machine

    Models [desmos-core/src/bonding/link_state.rs]: the four-state machine
    with its streak counters.  Its calls are also given as a step relation,
    and the invariants are proved by induction on reachability. *)

From stdpp Require Import base list numbers relations.
From Stdlib Require Import ZArith Lia.
From S2P Require Import Prelude.

Definition PROBATION_MS : Z := 10000.
Definition HIGH_LOSS_STREAK : Z := 5.
Definition NO_RESPONSE_STREAK : Z := 3.
Definition RECOVERY_STREAK : Z := 3.

Inductive ProbeSample := Good | HighLoss | NoResponse.

Inductive LinkState :=
| Healthy
| Probation (until_ms : Z)
| Degraded
| Dead.

#[export] Instance ProbeSample_eq_dec : EqDecision ProbeSample.
Proof. solve_decision. Defined.
#[export] Instance LinkState_eq_dec : EqDecision LinkState.
Proof. solve_decision. Defined.

Definition LinkState_is_bondable (s : LinkState) : bool :=
  match s with Dead => false | _ => true end.

Record Transition := mkTransition { t_from : LinkState; t_to : LinkState }.

Record LinkStateMachine := mkMachine {
  lsm_state : LinkState;
  high_loss_streak : Z;
  no_response_streak : Z;
  recovery_streak : Z;
}.

Definition LinkStateMachine_new : LinkStateMachine := mkMachine Healthy 0 0 0.

Definition LinkStateMachine_is_bondable (m : LinkStateMachine) : bool :=
  LinkState_is_bondable (lsm_state m).

(** [now_ms + PROBATION_MS] is a [u64] addition. *)
Definition compute_next (m : LinkStateMachine) (now_ms : Z) : LinkState :=
  match lsm_state m with
  | Healthy =>
      if NO_RESPONSE_STREAK <=? no_response_streak m then Dead
      else if HIGH_LOSS_STREAK <=? high_loss_streak m then Degraded
      else Healthy
  | Degraded =>
      if NO_RESPONSE_STREAK <=? no_response_streak m then Dead
      else if RECOVERY_STREAK <=? recovery_streak m
      then Probation (wrapping_add 64 now_ms PROBATION_MS)
      else Degraded
  | Dead =>
      if RECOVERY_STREAK <=? recovery_streak m
      then Probation (wrapping_add 64 now_ms PROBATION_MS)
      else Dead
  | Probation until_ms =>
      if NO_RESPONSE_STREAK <=? no_response_streak m then Dead
      else if HIGH_LOSS_STREAK <=? high_loss_streak m then Degraded
      else if until_ms <=? now_ms then Healthy
      else Probation until_ms
  end.

(** The streak updates at the head of [on_probe]. *)
Definition bump_streaks (m : LinkStateMachine) (sample : ProbeSample) : LinkStateMachine :=
  match sample with
  | Good => mkMachine (lsm_state m) 0 0 (saturating_add 8 (recovery_streak m) 1)
  | HighLoss => mkMachine (lsm_state m) (saturating_add 8 (high_loss_streak m) 1) 0 0
  | NoResponse => mkMachine (lsm_state m) 0 (saturating_add 8 (no_response_streak m) 1) 0
  end.

Definition on_probe (m : LinkStateMachine) (sample : ProbeSample) (now_ms : Z)
  : LinkStateMachine * option Transition :=
  let m := bump_streaks m sample in
  let next := compute_next m now_ms in
  if decide (next ≠ lsm_state m)
  then (mkMachine next 0 0 0, Some (mkTransition (lsm_state m) next))
  else (m, None).

Definition LinkStateMachine_tick (m : LinkStateMachine) (now_ms : Z)
  : LinkStateMachine * option Transition :=
  match lsm_state m with
  | Probation until_ms =>
      if until_ms <=? now_ms
      then (mkMachine Healthy (high_loss_streak m) (no_response_streak m) 0,
            Some (mkTransition (Probation until_ms) Healthy))
      else (m, None)
  | _ => (m, None)
  end.

(** ** Calls as a step relation *)

Inductive lsm_event := EvProbe (s : ProbeSample) (now_ms : Z) | EvTick (now_ms : Z).

Definition lsm_apply (m : LinkStateMachine) (ev : lsm_event) : LinkStateMachine * option Transition :=
  match ev with
  | EvProbe s now => on_probe m s now
  | EvTick now => LinkStateMachine_tick m now
  end.

Inductive lsm_step : LinkStateMachine → LinkStateMachine → Prop :=
| lsm_step_intro m ev : lsm_step m (lsm_apply m ev).1.

Definition lsm_reachable : LinkStateMachine → Prop := rtc lsm_step LinkStateMachine_new.

Definition lsm_run (m : LinkStateMachine) (evs : list lsm_event) : LinkStateMachine :=
  foldl (fun m ev => (lsm_apply m ev).1) m evs.

(** The number of [NoResponse] probes at the end of a history, ticks aside. *)
Definition trailing_no_response (evs : list lsm_event) : Z :=
  foldl (fun n ev => match ev with
                     | EvProbe NoResponse _ => n + 1
                     | EvProbe _ _ => 0
                     | EvTick _ => n
                     end) 0 evs.

(** ** Invariant *)

(** Streaks fit a [u8], at most one of them is nonzero, and no streak has
    reached the threshold that would have fired a transition. *)
Record lsm_inv (m : LinkStateMachine) : Prop := {
  li_width : in_width 8 (high_loss_streak m) ∧ in_width 8 (no_response_streak m)
             ∧ in_width 8 (recovery_streak m);
  li_one : (high_loss_streak m = 0 ∨ no_response_streak m = 0) ∧
           (high_loss_streak m = 0 ∨ recovery_streak m = 0) ∧
           (no_response_streak m = 0 ∨ recovery_streak m = 0);
  li_silent : lsm_state m ≠ Dead → no_response_streak m < NO_RESPONSE_STREAK;
  li_loss : lsm_state m = Healthy ∨ (∃ u, lsm_state m = Probation u) →
            high_loss_streak m < HIGH_LOSS_STREAK;
  li_recover : lsm_state m = Dead ∨ lsm_state m = Degraded →
               recovery_streak m < RECOVERY_STREAK;
}.

(** ** Lemmas *)

Lemma bump_streaks_state m s : lsm_state (bump_streaks m s) = lsm_state m.
Proof. by destruct s. Qed.

Lemma saturating_add8_1 x :
  in_width 8 x → 1 <= saturating_add 8 x 1 <= 255 ∧ saturating_add 8 x 1 <= x + 1 ∧
  (x < 255 → saturating_add 8 x 1 = x + 1).
Proof. unfold saturating_add. intros. pow2. lia. Qed.

(** The invariant after [compute_next] said "no change". *)
Lemma lsm_inv_stay m now :
  in_width 8 (high_loss_streak m) → in_width 8 (no_response_streak m) →
  in_width 8 (recovery_streak m) →
  ((high_loss_streak m = 0 ∨ no_response_streak m = 0) ∧
   (high_loss_streak m = 0 ∨ recovery_streak m = 0) ∧
   (no_response_streak m = 0 ∨ recovery_streak m = 0)) →
  compute_next m now = lsm_state m → lsm_inv m.
Proof.
  intros Hh Hn Hr Hone. unfold compute_next. intros E.
  constructor; try done; destruct (lsm_state m) eqn:Es; intros Hst;
    try (exfalso; naive_solver); split_ifs_in E; try lia; congruence.
Qed.

Lemma lsm_inv_fresh s : lsm_inv (mkMachine s 0 0 0).
Proof. by constructor; simpl; [pow2; lia|lia|..]. Qed.

Lemma on_probe_inv m s now : lsm_inv m → lsm_inv (on_probe m s now).1.
Proof.
  intros [(Hh & Hn & Hr) Hone _ _ _]. unfold on_probe. case_decide as E; [apply lsm_inv_fresh|].
  pose proof (saturating_add8_1 _ Hh). pose proof (saturating_add8_1 _ Hn).
  pose proof (saturating_add8_1 _ Hr).
  apply (lsm_inv_stay _ now); [..|done]; destruct s; simpl; try (pow2; lia); lia.
Qed.

Lemma tick_inv m now : lsm_inv m → lsm_inv (LinkStateMachine_tick m now).1.
Proof.
  intros Hinv. unfold LinkStateMachine_tick. destruct (lsm_state m) eqn:Es; try done.
  destruct (until_ms <=? now); [|done]. destruct Hinv as [(Hh & Hn & Hr) Hone Hs Hl Hrec].
  constructor; simpl.
  - pow2. lia.
  - lia.
  - intros _. apply Hs. congruence.
  - intros _. apply Hl. right. by exists until_ms.
  - by intros [|].
Qed.

Lemma lsm_step_inv m m' : lsm_inv m → lsm_step m m' → lsm_inv m'.
Proof.
  intros Hinv Hst. inversion_clear Hst as [? ev].
  destruct ev; simpl; [by apply on_probe_inv|by apply tick_inv].
Qed.

Lemma lsm_reachable_inv m : lsm_reachable m → lsm_inv m.
Proof.
  intros H. unfold lsm_reachable in H.
  remember LinkStateMachine_new as m0 eqn:E. assert (Hinv : lsm_inv m0) by (subst; apply lsm_inv_fresh).
  clear E. induction H; eauto using lsm_step_inv.
Qed.

Lemma lsm_run_reachable evs : lsm_reachable (lsm_run LinkStateMachine_new evs).
Proof.
  unfold lsm_reachable, lsm_run. induction evs as [|ev evs IH] using rev_ind; [apply rtc_refl|].
  rewrite foldl_app. simpl. eapply rtc_r; [exact IH|constructor].
Qed.

Lemma lsm_run_snoc m evs ev : lsm_run m (evs ++ [ev]) = (lsm_apply (lsm_run m evs) ev).1.
Proof. unfold lsm_run. by rewrite foldl_app. Qed.

(** The silent streak never exceeds what the history shows. *)
Lemma streak_le_history evs :
  no_response_streak (lsm_run LinkStateMachine_new evs) <= trailing_no_response evs ∧
  0 <= trailing_no_response evs.
Proof.
  induction evs as [|ev evs [IH IH0]] using rev_ind; [done|].
  unfold trailing_no_response in *. rewrite lsm_run_snoc, foldl_app. simpl.
  pose proof (lsm_reachable_inv _ (lsm_run_reachable evs)) as [(_ & Hn & _) _ _ _ _].
  pose proof (saturating_add8_1 _ Hn).
  destruct ev as [s now|now]; simpl.
  - unfold on_probe. case_decide; destruct s; simpl; lia.
  - unfold LinkStateMachine_tick. destruct (lsm_state _); [simpl; lia| |simpl; lia..].
    destruct (until_ms <=? now); simpl; lia.
Qed.

(** [compute_next] after a [NoResponse] on a link that is not dead. *)
Lemma compute_next_no_response st n now :
  st ≠ Dead →
  compute_next (mkMachine st 0 n 0) now =
  if 3 <=? n then Dead
  else match st with
       | Probation u => if u <=? now then Healthy else Probation u
       | _ => st
       end.
Proof.
  intros Hd. unfold compute_next, NO_RESPONSE_STREAK, HIGH_LOSS_STREAK, RECOVERY_STREAK. simpl.
  by destruct st; try done; destruct (3 <=? n).
Qed.

(** One [NoResponse] on a machine whose streak is known. *)
Lemma on_probe_no_response m now :
  lsm_inv m → lsm_state m ≠ Dead →
  let m' := (on_probe m NoResponse now).1 in
  if no_response_streak m =? 2 then lsm_state m' = Dead
  else lsm_state m' ≠ Dead ∧
       ((lsm_state m' = lsm_state m ∧ no_response_streak m' = no_response_streak m + 1) ∨
        (∃ u, lsm_state m = Probation u ∧ m' = LinkStateMachine_new)).
Proof.
  intros [(Hh & Hn & Hr) Hone Hs _ _] Hd m'. specialize (Hs Hd). unfold NO_RESPONSE_STREAK in Hs.
  assert (Hsat : saturating_add 8 (no_response_streak m) 1 = no_response_streak m + 1)
    by (apply saturating_add8_1; [done|lia]).
  subst m'. unfold on_probe, bump_streaks. rewrite Hsat. cbn [lsm_state].
  rewrite compute_next_no_response by done. destruct Hn as [Hn0 _].
  destruct (Z.eqb_spec (no_response_streak m) 2) as [E|Hne].
  - rewrite E. simpl. by rewrite decide_True by done.
  - destruct (Z.leb_spec 3 (no_response_streak m + 1)); [lia|].
    destruct (lsm_state m) as [|u| |] eqn:Es; try done.
    + rewrite decide_False by tauto. simpl. split; [done|by left].
    + destruct (u <=? now).
      * rewrite decide_True by done. simpl. split; [done|]. right. by exists u.
      * rewrite decide_False by tauto. simpl. split; [done|by left].
    + rewrite decide_False by tauto. simpl. split; [done|by left].
Qed.

Lemma on_probe_dead_no_response m now :
  lsm_inv m → lsm_state m = Dead → lsm_state (on_probe m NoResponse now).1 = Dead.
Proof.
  intros [_ _ _ _ _] Hd. unfold on_probe, bump_streaks, compute_next. simpl. by rewrite Hd.
Qed.

(** Probing a silent link at the times [ts]. *)
Definition silent (m : LinkStateMachine) (ts : list Z) : LinkStateMachine :=
  lsm_run m (EvProbe NoResponse <$> ts).

Lemma silent_inv m ts : lsm_inv m → lsm_inv (silent m ts).
Proof.
  unfold silent, lsm_run. revert m. induction ts as [|t ts IH]; intros m Hm; [done|].
  simpl. by apply IH, on_probe_inv.
Qed.

Lemma silent_dead m ts : lsm_inv m → lsm_state m = Dead → lsm_state (silent m ts) = Dead.
Proof.
  unfold silent, lsm_run. revert m. induction ts as [|t ts IH]; intros m Hm Hd; [done|].
  simpl. apply IH; [by apply on_probe_inv|by apply on_probe_dead_no_response].
Qed.

(** A link that is not in probation is dead after [3 - streak] silences. *)
Lemma silent_settled m ts :
  lsm_inv m → (∀ u, lsm_state m ≠ Probation u) →
  3 <= no_response_streak m + Z.of_nat (length ts) → lsm_state m = Dead ∨ lsm_state (silent m ts) = Dead.
Proof.
  revert m. induction ts as [|t ts IH]; intros m Hm Hp Hlen.
  - left. simpl in Hlen. destruct Hm as [_ _ Hs _ _]. apply dec_stable. intros Hd.
    specialize (Hs Hd). unfold NO_RESPONSE_STREAK in Hs. lia.
  - destruct (decide (lsm_state m = Dead)) as [|Hd]; [by left|]. right.
    pose proof (on_probe_no_response m t Hm Hd) as H. pose proof (on_probe_inv m NoResponse t Hm) as Hm'.
    change (silent m (t :: ts)) with (silent (on_probe m NoResponse t).1 ts).
    cbn zeta in H. destruct (Z.eqb_spec (no_response_streak m) 2).
    + by apply silent_dead.
    + destruct H as [Hd' [[Hst Hn]|(u & Hu & _)]]; [|by destruct (Hp u)].
      destruct (IH (on_probe m NoResponse t).1) as [?|?]; try done; [by rewrite Hst|].
      rewrite Hn. simpl in Hlen. lia.
Qed.

(** A link in probation may first be promoted by an expired window. *)
Lemma silent_any m ts :
  lsm_inv m → 5 <= no_response_streak m + Z.of_nat (length ts) →
  lsm_state m = Dead ∨ lsm_state (silent m ts) = Dead.
Proof.
  revert m. induction ts as [|t ts IH]; intros m Hm Hlen.
  - left. simpl in Hlen. destruct Hm as [_ _ Hs _ _]. apply dec_stable. intros Hd.
    specialize (Hs Hd). unfold NO_RESPONSE_STREAK in Hs. lia.
  - destruct (decide (lsm_state m = Dead)) as [|Hd]; [by left|]. right.
    pose proof (on_probe_no_response m t Hm Hd) as H. pose proof (on_probe_inv m NoResponse t Hm) as Hm'.
    change (silent m (t :: ts)) with (silent (on_probe m NoResponse t).1 ts).
    cbn zeta in H. destruct (Z.eqb_spec (no_response_streak m) 2); [by apply silent_dead|].
    destruct H as [Hd' [[Hst Hn]|(u & Hu & Hnew)]].
    + destruct (IH (on_probe m NoResponse t).1) as [?|?]; try done.
      rewrite Hn. simpl in Hlen. lia.
    + rewrite Hnew. destruct (silent_settled LinkStateMachine_new ts) as [?|?]; try done.
      * apply lsm_inv_fresh.
      * destruct Hm as [(_ & Hw & _) _ Hs _ _]. specialize (Hs Hd). unfold NO_RESPONSE_STREAK in Hs.
        simpl in *. lia.
Qed.

(** ** Properties *)

(** In every reachable machine the streak counters fit a [u8], at most
    one of them is nonzero, and none has reached the threshold that makes the
    current state change: no due transition is ever missed. *)
Theorem link_state_invariant (m : LinkStateMachine) : lsm_reachable m → lsm_inv m.
Proof. apply lsm_reachable_inv. Qed.

Lemma link_state_invariant_witness :
  lsm_inv (lsm_run LinkStateMachine_new [EvProbe NoResponse 0; EvProbe HighLoss 1; EvTick 2]).
Proof. apply link_state_invariant, lsm_run_reachable. Defined.

(** Failover detection: three consecutive unanswered probes declare any
    reachable link dead unless it was in probation, and five do so from every
    reachable state (a window that expires during the silence first promotes
    the link to healthy and restarts the count). *)
Theorem silent_link_declared_dead (m : LinkStateMachine) (ts : list Z) :
  lsm_reachable m → (length ts = 3)%nat ∧ (∀ u, lsm_state m ≠ Probation u) ∨ (length ts = 5)%nat →
  lsm_state (silent m ts) = Dead.
Proof.
  intros Hr Hcase. apply lsm_reachable_inv in Hr as Hinv.
  pose proof (li_width _ Hinv) as (_ & Hn & _). destruct Hn as [Hn _].
  assert (lsm_state m = Dead ∨ lsm_state (silent m ts) = Dead) as [Hd|?]; [|by apply silent_dead|done].
  destruct Hcase as [[Hl Hp]|Hl]; [apply silent_settled|apply silent_any]; (done || lia).
Qed.

Lemma silent_link_declared_dead_witness :
  lsm_state (silent LinkStateMachine_new [10; 20; 30]) = Dead.
Proof.
  apply (silent_link_declared_dead LinkStateMachine_new [10; 20; 30]); [apply rtc_refl|].
  left. split; [reflexivity|]. intros u. discriminate.
Defined.

(** No false alarm: a link becomes dead only on a probe that went
    unanswered, and only when at least the last three probes of its history
    went unanswered. *)
Theorem dead_needs_three_silences (evs : list lsm_event) (ev : lsm_event) :
  lsm_state (lsm_run LinkStateMachine_new evs) ≠ Dead →
  lsm_state (lsm_run LinkStateMachine_new (evs ++ [ev])) = Dead →
  (∃ now, ev = EvProbe NoResponse now) ∧ 3 <= trailing_no_response (evs ++ [ev]).
Proof.
  intros Hd. rewrite lsm_run_snoc. pose proof (lsm_reachable_inv _ (lsm_run_reachable evs)) as Hinv.
  destruct (streak_le_history evs) as [Hle _]. set (m := lsm_run LinkStateMachine_new evs) in *.
  unfold trailing_no_response in *. rewrite foldl_app. cbn [foldl].
  destruct ev as [s now|now]; cbn [lsm_apply].
  - destruct s.
    + intros H. exfalso. revert H. unfold on_probe, compute_next, bump_streaks. simpl.
      by destruct (lsm_state m); try done; simpl; repeat (case_decide || case_match).
    + intros H. exfalso. revert H. unfold on_probe, compute_next, bump_streaks. simpl.
      by destruct (lsm_state m); try done; simpl; repeat (case_decide || case_match).
    + intros H. split; [by eauto|]. pose proof (on_probe_no_response m now Hinv Hd) as Hp.
      cbn zeta in Hp. destruct (Z.eqb_spec (no_response_streak m) 2); [lia|]. by destruct Hp.
  - intros H. exfalso. revert H. unfold LinkStateMachine_tick.
    destruct (lsm_state m) eqn:Es; simpl; try congruence. destruct (until_ms <=? now); simpl; congruence.
Qed.

Lemma dead_needs_three_silences_witness :
  (∃ now, EvProbe NoResponse 3 = EvProbe NoResponse now) ∧
  3 <= trailing_no_response ([EvProbe NoResponse 1; EvProbe NoResponse 2] ++ [EvProbe NoResponse 3]).
Proof. apply dead_needs_three_silences; vm_compute; [discriminate|reflexivity]. Defined.

(** Recovery goes through probation: a dead or degraded link leaves only
    to probation or death, [PROBATION_MS] after the current time, and from
    probation [tick] promotes it to healthy exactly when the window has
    elapsed. *)
Theorem recovery_through_probation (m : LinkStateMachine) (s : ProbeSample) (now : Z) :
  lsm_reachable m → 0 <= now → now + PROBATION_MS < 2 ^ 64 →
  (lsm_state m = Dead → let st := lsm_state (on_probe m s now).1 in
     st = Dead ∨ s = Good ∧ recovery_streak m = 2 ∧ st = Probation (now + PROBATION_MS)) ∧
  (lsm_state m = Degraded → let st := lsm_state (on_probe m s now).1 in
     st = Degraded ∨ s = NoResponse ∧ st = Dead ∨
     s = Good ∧ recovery_streak m = 2 ∧ st = Probation (now + PROBATION_MS)) ∧
  (∀ u t, lsm_state m = Probation u →
     lsm_state (LinkStateMachine_tick m t).1 = if u <=? t then Healthy else Probation u).
Proof.
  intros Hr Hnow Hmax. apply lsm_reachable_inv in Hr as [(Hh & Hn & Hrw) Hone Hs Hl Hrec].
  pose proof (saturating_add8_1 _ Hrw) as (_ & Hr1 & _).
  assert (Hw : wrapping_add 64 now PROBATION_MS = now + PROBATION_MS) by (apply wrap_small; split; unfold PROBATION_MS in *; lia).
  unfold NO_RESPONSE_STREAK, RECOVERY_STREAK in *.
  split_and!.
  - intros Hd. specialize (Hrec (or_introl Hd)).
    unfold on_probe, compute_next, bump_streaks. destruct s; simpl; rewrite !Hd; cbn [lsm_state]; try by left.
    unfold RECOVERY_STREAK. destruct (Z.leb_spec 3 (saturating_add 8 (recovery_streak m) 1)); [|by left].
    right. rewrite Hw, decide_True by done. split_and!; [done|lia|done].
  - intros Hd. specialize (Hrec (or_intror Hd)).
    unfold on_probe, compute_next, bump_streaks, NO_RESPONSE_STREAK, RECOVERY_STREAK.
    destruct s; simpl; rewrite !Hd; cbn [lsm_state no_response_streak recovery_streak]; simpl; try by left.
    + destruct (Z.leb_spec 3 (saturating_add 8 (recovery_streak m) 1)); [|by left].
      right; right. rewrite Hw, decide_True by done. split_and!; [done|lia|done].
    + destruct (3 <=? _); [by right; left|by left].
  - intros u t Hu. unfold LinkStateMachine_tick. rewrite Hu. by destruct (u <=? t).
Qed.

Lemma recovery_through_probation_witness :
  lsm_state (on_probe (mkMachine Dead 0 0 2) Good 500).1 = Probation 10500.
Proof.
  assert (Hr : lsm_reachable (mkMachine Dead 0 0 2)).
  { apply (lsm_run_reachable [EvProbe NoResponse 1; EvProbe NoResponse 2; EvProbe NoResponse 3;
             EvProbe Good 4; EvProbe Good 5]). }
  destruct (recovery_through_probation (mkMachine Dead 0 0 2) Good 500 Hr) as [H _]; [lia|vm_compute; reflexivity|].
  destruct (H eq_refl) as [E|(_ & _ & E)]; [vm_compute in E; discriminate|exact E].
Defined.
