(* ===== verification/Float.v ===== *)
(** * IEEE 754 arithmetic of [f32] and [f64]

    The executable binary floats of the Standard Library ([SpecFloat], no
    axioms) at the two precisions, with the conversions the scoring code
    uses.  Every operation rounds to nearest, ties to even. *)

From stdpp Require Import base list numbers.
From Stdlib Require Import ZArith Lia SpecFloat.
From S2P Require Import Prelude.

Abbreviation f32 := spec_float.
Abbreviation f64 := spec_float.

Definition f64_of_Z (n : Z) : f64 := binary_normalize 53 1024 n 0 false.
Definition f32_of_Z (n : Z) : f32 := binary_normalize 24 128 n 0 false.

Definition f64_add (a b : f64) : f64 := SFadd 53 1024 a b.
Definition f64_sub (a b : f64) : f64 := SFsub 53 1024 a b.
Definition f64_mul (a b : f64) : f64 := SFmul 53 1024 a b.
Definition f64_div (a b : f64) : f64 := SFdiv 53 1024 a b.
Definition f64_sqrt (a : f64) : f64 := SFsqrt 53 1024 a.
Definition f32_add (a b : f32) : f32 := SFadd 24 128 a b.
Definition f32_sub (a b : f32) : f32 := SFsub 24 128 a b.
Definition f32_mul (a b : f32) : f32 := SFmul 24 128 a b.
Definition f32_div (a b : f32) : f32 := SFdiv 24 128 a b.

(** [x as f32] and [x as f64]: rounding to the target format. *)
Definition float_cast (prec emax : Z) (x : spec_float) : spec_float :=
  match x with
  | S754_finite s m e => binary_normalize prec emax (if s then Zneg m else Zpos m) e s
  | _ => x
  end.
Definition f64_as_f32 : f64 → f32 := float_cast 24 128.
Definition f32_as_f64 : f32 → f64 := float_cast 53 1024.

(** [x.round()]: to the nearest integer, halves away from zero. *)
Definition f64_round (x : f64) : f64 :=
  match x with
  | S754_finite s m e =>
      let n := if 0 <=? e then Zpos m * 2 ^ e
               else (Zpos m + 2 ^ (- e - 1)) / 2 ^ (- e) in
      binary_normalize 53 1024 (if s then - n else n) 0 s
  | _ => x
  end.

(** [x as u32]: truncation, saturating, [NaN] to zero. *)
Definition f64_as_u32 (x : f64) : Z :=
  match x with
  | S754_nan => 0
  | S754_zero _ => 0
  | S754_infinity s => if s then 0 else umax 32
  | S754_finite s m e =>
      let n := if 0 <=? e then Zpos m * 2 ^ e else Zpos m / 2 ^ (- e) in
      if s then 0 else Z.min n (umax 32)
  end.

(** [f32::max]: a [NaN] operand is ignored. *)
Definition f32_max (a b : f32) : f32 :=
  match a, b with
  | S754_nan, _ => b
  | _, S754_nan => a
  | _, _ => if SFltb a b then b else a
  end.

(** Checks against known values. *)
Example f64_as_u32_ex : f64_as_u32 (f64_round (f64_div (f64_of_Z 7) (f64_of_Z 2))) = 4.
Proof. reflexivity. Qed.

Example f64_as_f32_ex : f64_as_f32 (f64_of_Z (2 ^ 24 + 1)) = f32_of_Z (2 ^ 24).
Proof. reflexivity. Qed.

Lemma f64_as_u32_range x : in_width 32 (f64_as_u32 x).
Proof.
  unfold f64_as_u32, in_width, umax. destruct x as [| [] | |s m e]; try lia.
  destruct s; [lia|]. destruct (Z.leb_spec 0 e) as [He|He].
  - assert (0 < 2 ^ e) by (apply Z.pow_pos_nonneg; lia). nia.
  - assert (0 <= Zpos m / 2 ^ (- e)) by (apply Z.div_pos; lia). lia.
Qed.
