(* ===== verification/Score.v ===== *)
(** * Link statistics and score

    Models [desmos-core/src/bonding/score.rs]: the rolling outcome and RTT
    windows, the Jacobson average and the composite score, with their float
    arithmetic at the source's precisions. *)

From stdpp Require Import base list numbers.
From Stdlib Require Import ZArith Lia SpecFloat.
From S2P Require Import Prelude Float.

Definition DEFAULT_WINDOW : nat := 100.
Definition RTT_EWMA_ALPHA : f64 := binary_normalize 53 1024 1 (-3) false.

Record LinkScore := mkLinkScore {
  rtt_us : Z;
  loss_rate : f32;
  jitter_us : Z;
  composite : f32;
}.

Record LinkStats := mkLinkStats {
  ls_rtt_ewma_us : f64;
  ls_rtt_seeded : bool;
  ls_outcome_window : list bool;
  ls_rtt_samples : list Z;
  ls_window_size : nat;
}.

(** [new] asserts a positive window. *)
Definition LinkStats_new (window_size : nat) : panics LinkStats :=
  if (0 <? window_size)%nat
  then Some (mkLinkStats (S754_zero false) false [] [] window_size) else None.

(** Push at the back of a full [VecDeque] after popping its front. *)
Definition push_window {A} (w : nat) (q : list A) (x : A) : list A :=
  (if (length q =? w)%nat then tail q else q) ++ [x].

Definition push_sample (s : LinkStats) (rtt : Z) : LinkStats :=
  mkLinkStats (ls_rtt_ewma_us s) (ls_rtt_seeded s) (ls_outcome_window s)
    (push_window (ls_window_size s) (ls_rtt_samples s) rtt) (ls_window_size s).

Definition push_outcome (s : LinkStats) (success : bool) : LinkStats :=
  mkLinkStats (ls_rtt_ewma_us s) (ls_rtt_seeded s)
    (push_window (ls_window_size s) (ls_outcome_window s) success)
    (ls_rtt_samples s) (ls_window_size s).

Definition record_rtt (s : LinkStats) (rtt : Z) : LinkStats :=
  let ewma :=
    if ls_rtt_seeded s
    then f64_add (f64_mul (f64_sub (f64_of_Z 1) RTT_EWMA_ALPHA) (ls_rtt_ewma_us s))
                 (f64_mul RTT_EWMA_ALPHA (f64_of_Z rtt))
    else f64_of_Z rtt in
  let s := mkLinkStats ewma true (ls_outcome_window s) (ls_rtt_samples s) (ls_window_size s) in
  push_outcome (push_sample s rtt) true.

Definition record_loss (s : LinkStats) : LinkStats := push_outcome s false.

Definition rtt_ewma_us (s : LinkStats) : option Z :=
  if ls_rtt_seeded s then Some (f64_as_u32 (f64_round (ls_rtt_ewma_us s))) else None.

Definition lost_in_window (s : LinkStats) : nat :=
  length (filter (fun ok => negb ok) (ls_outcome_window s)).

Definition LinkStats_loss_rate (s : LinkStats) : f32 :=
  if (length (ls_outcome_window s) =? 0)%nat then S754_zero false
  else f32_div (f32_of_Z (Z.of_nat (lost_in_window s)))
               (f32_of_Z (Z.of_nat (length (ls_outcome_window s)))).

Definition f64_sum (l : list f64) : f64 := foldl f64_add (S754_zero false) l.

Definition LinkStats_jitter_us (s : LinkStats) : Z :=
  let n := length (ls_rtt_samples s) in
  if (n <? 2)%nat then 0
  else
    let mean := f64_div (f64_sum (f64_of_Z <$> ls_rtt_samples s)) (f64_of_Z (Z.of_nat n)) in
    let variance :=
      f64_div (f64_sum ((fun x => let d := f64_sub (f64_of_Z x) mean in f64_mul d d)
                          <$> ls_rtt_samples s)) (f64_of_Z (Z.of_nat n)) in
    f64_as_u32 (f64_round (f64_sqrt variance)).

Definition LinkStats_score (s : LinkStats) : LinkScore :=
  let rtt_us := default 0 (rtt_ewma_us s) in
  let loss_rate := LinkStats_loss_rate s in
  let jitter_us := LinkStats_jitter_us s in
  let rtt_ms := f32_div (f32_of_Z rtt_us) (f32_of_Z 1000) in
  let jitter_ms := f32_div (f32_of_Z jitter_us) (f32_of_Z 1000) in
  let composite :=
    f32_div (f32_mul (f32_sub (f32_of_Z 1) loss_rate) (f32_of_Z 10000))
            (f32_add (f32_add (f32_of_Z 1) rtt_ms) (f32_mul jitter_ms (f32_of_Z 2))) in
  mkLinkScore rtt_us loss_rate jitter_us composite.

(** The measurements of a link's life, in order. *)
Inductive measurement := Rtt (us : Z) | Loss.

Definition measure (s : LinkStats) (x : measurement) : LinkStats :=
  match x with Rtt us => record_rtt s us | Loss => record_loss s end.

Definition outcomes (xs : list measurement) : list bool :=
  (fun x => match x with Rtt _ => true | Loss => false end) <$> xs.
Definition rtts (xs : list measurement) : list Z :=
  omap (fun x => match x with Rtt us => Some us | Loss => None end) xs.

(** The last [n] elements. *)
Definition last_n {A} (n : nat) (l : list A) : list A := drop (length l - n) l.

(** ** Lemmas *)

Lemma tail_drop {A} k (l : list A) : tail (drop k l) = drop (S k) l.
Proof. revert l; induction k as [|k IH]; intros [|x l]; simpl; done || apply IH. Qed.

Lemma push_window_last_n {A} w (l : list A) x :
  (0 < w)%nat → push_window w (last_n w l) x = last_n w (l ++ [x]).
Proof.
  intros Hw. unfold push_window, last_n. rewrite length_drop, length_app. simpl length.
  destruct (Nat.eqb_spec (length l - (length l - w)) w) as [E|E].
  - rewrite tail_drop, drop_app_le by lia. f_equal. f_equal. lia.
  - assert (length l < w)%nat by lia.
    replace (length l - w)%nat with O by lia. replace (length l + 1 - w)%nat with O by lia.
    by rewrite !drop_0.
Qed.

Lemma length_last_n {A} n (l : list A) : length (last_n n l) = Nat.min n (length l).
Proof. unfold last_n. rewrite length_drop. lia. Qed.

Lemma measure_run w xs s0 :
  LinkStats_new w = Some s0 →
  let s := foldl measure s0 xs in
  ls_outcome_window s = last_n w (outcomes xs) ∧ ls_rtt_samples s = last_n w (rtts xs) ∧
  ls_window_size s = w.
Proof.
  unfold LinkStats_new. destruct (Nat.ltb_spec 0 w) as [Hw|]; [|done]. intros [= <-].
  induction xs as [|x xs IH] using rev_ind; [done|].
  rewrite foldl_app. simpl foldl. set (s := foldl measure _ xs) in *.
  destruct IH as (Ho & Hr & Hs). unfold outcomes, rtts in *. rewrite fmap_app, omap_app.
  destruct x as [us|]; simpl; rewrite ?Ho, ?Hr, ?Hs, ?app_nil_r, ?push_window_last_n by done; done.
Qed.

(** The loss ratio at every window fill of at most [DEFAULT_WINDOW]. *)
Definition loss_ratio (lost len : Z) : f32 := f32_div (f32_of_Z lost) (f32_of_Z len).

Definition loss_ratio_ok (lost len : Z) : bool :=
  SFleb (S754_zero false) (loss_ratio lost len) && SFleb (loss_ratio lost len) (f32_of_Z 1)
  && eqb (SFeqb (loss_ratio lost len) (S754_zero false)) (lost =? 0)
  && eqb (SFeqb (loss_ratio lost len) (f32_of_Z 1)) (lost =? len)
  && ((lost =? 0) || SFltb (loss_ratio (lost - 1) len) (loss_ratio lost len)).

Lemma loss_ratio_table :
  forallb (fun len => forallb (fun lost => loss_ratio_ok lost len) (seqZ 0 (len + 1))) (seqZ 1 100) = true.
Proof. vm_compute. reflexivity. Qed.

Lemma loss_ratio_spec lost len :
  0 <= lost <= len → 1 <= len <= 100 → loss_ratio_ok lost len = true.
Proof.
  intros Hl Hn. pose proof loss_ratio_table as H. rewrite forallb_forall in H.
  specialize (H len). rewrite forallb_forall in H. apply H; apply list_elem_of_In, elem_of_seqZ; lia.
Qed.

(** ** Properties *)

(** After any sequence of measurements the outcome window holds exactly
    the outcomes of the last [window_size] probes, and the sample window the
    last [window_size] round-trip times, oldest first. *)
Theorem score_windows_slide (w : nat) (xs : list measurement) (s0 : LinkStats) :
  LinkStats_new w = Some s0 →
  let s := foldl measure s0 xs in
  ls_outcome_window s = last_n w (outcomes xs) ∧ ls_rtt_samples s = last_n w (rtts xs).
Proof. intros H s. destruct (measure_run w xs s0 H) as (? & ? & _). done. Qed.

Lemma score_windows_slide_witness :
  let s := foldl measure (mkLinkStats (S754_zero false) false [] [] 2) [Rtt 5; Loss; Rtt 7; Rtt 9] in
  ls_outcome_window s = [true; true] ∧ ls_rtt_samples s = [7; 9].
Proof. apply (score_windows_slide 2 [Rtt 5; Loss; Rtt 7; Rtt 9]). reflexivity. Defined.

(** With a window of at most the default 100 probes the [f32] loss rate
    lies in [[0, 1]], is 0 exactly when no probe of the window was lost and 1
    exactly when all were. *)
Theorem loss_rate_in_unit_interval (w : nat) (xs : list measurement) (s0 : LinkStats) :
  LinkStats_new w = Some s0 → (w <= DEFAULT_WINDOW)%nat →
  let s := foldl measure s0 xs in
  let len := length (ls_outcome_window s) in
  SFleb (S754_zero false) (LinkStats_loss_rate s) = true ∧
  SFleb (LinkStats_loss_rate s) (f32_of_Z 1) = true ∧
  (SFeqb (LinkStats_loss_rate s) (S754_zero false) = true ↔ lost_in_window s = O) ∧
  (SFeqb (LinkStats_loss_rate s) (f32_of_Z 1) = true ↔ lost_in_window s = len ∧ len ≠ O).
Proof.
  intros H Hw s len. destruct (measure_run w xs s0 H) as (Ho & _ & _).
  fold s in Ho. assert (Hlen : (len <= 100)%nat).
  { unfold len. rewrite Ho, length_last_n. unfold DEFAULT_WINDOW in Hw. lia. }
  assert (Hlost : (lost_in_window s <= len)%nat) by apply length_filter.
  unfold LinkStats_loss_rate. fold len. destruct (Nat.eqb_spec len 0) as [E|E].
  { rewrite E in Hlost |- *. split_and!; [done|done|split; [lia|done]|split; [done|lia]]. }
  pose proof (loss_ratio_spec (Z.of_nat (lost_in_window s)) (Z.of_nat len) ltac:(lia) ltac:(lia)) as Hok.
  unfold loss_ratio_ok in Hok. rewrite !andb_true_iff in Hok. destruct Hok as [[[[H1 H2] H3] H4] _].
  unfold loss_ratio in *. apply eqb_prop in H3, H4. split_and!; [done|done| |].
  - rewrite H3, Z.eqb_eq. lia.
  - rewrite H4, Z.eqb_eq. lia.
Qed.

Lemma loss_rate_in_unit_interval_witness :
  let s := foldl measure (mkLinkStats (S754_zero false) false [] [] 4) [Rtt 5; Loss; Loss] in
  SFleb (LinkStats_loss_rate s) (f32_of_Z 1) = true.
Proof.
  apply (loss_rate_in_unit_interval 4 [Rtt 5; Loss; Loss]); [reflexivity|vm_compute; lia].
Defined.
