(* ===== verification/Strategy.v ===== *)
(** * Links and bonding strategies

    Models [desmos-core/src/bonding/link.rs] and [strategy.rs].  The Rust
    trait [BondingStrategy] is the class of the same name; what the engine
    relies on is the class [StrategyLaws], discharged by an instance for each
    of the four strategies.  The strategies' atomics are state the call
    returns: a successful [fetch_add] or compare-and-swap is one atomic step,
    so concurrent calls are a sequence of these. Slice indexing and [unwrap]
    are [panics]. *)

From stdpp Require Import base list gmap numbers strings.
From Stdlib Require Import ZArith Lia SpecFloat.
From S2P Require Import Prelude Str Wire Float Score.

(** ** [link.rs] *)

Abbreviation LinkId := Z.

Record Link := mkLink {
  link_id : LinkId;
  link_name : str;
  link_peer : SocketAddr;
  link_weight : Z;
  link_healthy : bool;
}.

#[export] Instance Link_eq_dec : EqDecision Link.
Proof. solve_decision. Defined.

Definition Link_new (id : LinkId) (name : str) (peer : SocketAddr) (weight : Z) : Link :=
  mkLink id name peer weight true.

Definition Link_set_healthy (h : bool) (l : Link) : Link :=
  mkLink (link_id l) (link_name l) (link_peer l) (link_weight l) h.
Definition Link_mark_healthy : Link → Link := Link_set_healthy true.
Definition Link_mark_dead : Link → Link := Link_set_healthy false.
Definition Link_set_weight (w : Z) (l : Link) : Link :=
  mkLink (link_id l) (link_name l) (link_peer l) w (link_healthy l).

Abbreviation LinkTable := (list Link).

Definition LinkTable_healthy (t : LinkTable) : list Link := filter (fun l => link_healthy l) t.

Definition LinkTable_get (t : LinkTable) (id : LinkId) : option Link :=
  snd <$> list_find (fun l => link_id l = id) t.

(** ** [strategy.rs] *)

Inductive LinkSelection :=
| One (l : Link)
| Many (ls : list Link)
| SelNone.

Definition LinkSelection_links (s : LinkSelection) : list Link :=
  match s with One l => [l] | Many ls => ls | SelNone => [] end.

Definition LinkSelection_count (s : LinkSelection) : nat :=
  match s with SelNone => 0 | One _ => 1 | Many v => length v end.

Class BondingStrategy (S : Type) := {
  strategy_name : S → string;
  strategy_schedule : S → PacketMeta → LinkTable → panics (S * LinkSelection);
}.

(** What the engine relies on: a call returns, picks only healthy links, and
    picks none only when there is none. *)
Class StrategyLaws (S : Type) `{BondingStrategy S} := {
  schedule_laws (s : S) (p : PacketMeta) (t : LinkTable) :
    ∃ s' sel, strategy_schedule s p t = Some (s', sel) ∧
      Forall (fun l => l ∈ LinkTable_healthy t) (LinkSelection_links sel) ∧
      (LinkTable_healthy t = [] ↔ LinkSelection_links sel = []);
}.

(** *** Round robin *)

Record RoundRobin := mkRoundRobin { rr_next : Z }.

Definition RoundRobin_new : RoundRobin := mkRoundRobin 0.

(** [fetch_add(1)] returns the old cursor; [usize] wraps. *)
Definition RoundRobin_schedule (s : RoundRobin) (_ : PacketMeta) (t : LinkTable)
  : panics (RoundRobin * LinkSelection) :=
  let healthy := LinkTable_healthy t in
  if (length healthy =? 0)%nat then Some (s, SelNone)
  else
    let idx := rr_next s mod Z.of_nat (length healthy) in
    l ← healthy !! Z.to_nat idx;
    Some (mkRoundRobin (wrapping_add 64 (rr_next s) 1), One l).

(** *** The shared generator *)

Definition XORSHIFT_SEED : Z := 0x9E3779B97F4A7C15.

Definition xorshift64 (x : Z) : Z :=
  let y := if x =? 0 then XORSHIFT_SEED else x in
  let y := Z.lxor y (wrap 64 (Z.shiftl y 13)) in
  let y := Z.lxor y (Z.shiftr y 7) in
  Z.lxor y (wrap 64 (Z.shiftl y 17)).

(** *** Weighted *)

Record Weighted := mkWeighted { w_rng_state : Z }.

Definition Weighted_new : Weighted := mkWeighted XORSHIFT_SEED.
Definition Weighted_seeded (seed : Z) : Weighted :=
  mkWeighted (if seed =? 0 then XORSHIFT_SEED else seed).

Definition total_weight (ls : list Link) : Z :=
  foldl (fun acc l => wrapping_add 64 acc (link_weight l)) 0 ls.

(** The cumulative walk from [cumulative]. *)
Fixpoint weighted_walk (pick cumulative : Z) (ls : list Link) : option Link :=
  match ls with
  | [] => None
  | l :: ls' =>
      let cumulative := wrapping_add 64 cumulative (link_weight l) in
      if pick <? cumulative then Some l else weighted_walk pick cumulative ls'
  end.

Definition Weighted_schedule (s : Weighted) (_ : PacketMeta) (t : LinkTable)
  : panics (Weighted * LinkSelection) :=
  let healthy := LinkTable_healthy t in
  if (length healthy =? 0)%nat then Some (s, SelNone)
  else
    let y := xorshift64 (w_rng_state s) in
    let total := total_weight healthy in
    if total =? 0
    then l ← healthy !! Z.to_nat (y mod Z.of_nat (length healthy)); Some (mkWeighted y, One l)
    else
      match weighted_walk (y mod total) 0 healthy with
      | Some l => Some (mkWeighted y, One l)
      | None => l ← last healthy; Some (mkWeighted y, One l)
      end.

(** *** Latency adaptive *)

Record LatencyAdaptive := mkLatencyAdaptive {
  la_scores : gmap LinkId LinkScore;
  la_rng_state : Z;
  la_default_weight : f32;
}.

Definition LatencyAdaptive_with_default_weight (w : f32) : LatencyAdaptive :=
  mkLatencyAdaptive ∅ XORSHIFT_SEED w.
Definition LatencyAdaptive_new : LatencyAdaptive :=
  LatencyAdaptive_with_default_weight (f32_of_Z 1000).

Definition LatencyAdaptive_update_score (s : LatencyAdaptive) (id : LinkId) (sc : LinkScore)
  : LatencyAdaptive :=
  mkLatencyAdaptive (<[id := sc]> (la_scores s)) (la_rng_state s) (la_default_weight s).
Definition LatencyAdaptive_forget (s : LatencyAdaptive) (id : LinkId) : LatencyAdaptive :=
  mkLatencyAdaptive (delete id (la_scores s)) (la_rng_state s) (la_default_weight s).

Definition LatencyAdaptive_current_weight (s : LatencyAdaptive) (id : LinkId) : f32 :=
  default (la_default_weight s) (composite <$> la_scores s !! id).

Definition adaptive_weight (s : LatencyAdaptive) (l : Link) : f32 :=
  f32_max (LatencyAdaptive_current_weight s (link_id l)) (S754_zero false).

Fixpoint adaptive_walk (pick cumulative : f32) (ws : list (Link * f32)) : option Link :=
  match ws with
  | [] => None
  | (l, w) :: ws' =>
      let cumulative := f32_add cumulative w in
      if SFltb pick cumulative then Some l else adaptive_walk pick cumulative ws'
  end.

Definition LatencyAdaptive_schedule (s : LatencyAdaptive) (_ : PacketMeta) (t : LinkTable)
  : panics (LatencyAdaptive * LinkSelection) :=
  let healthy := LinkTable_healthy t in
  if (length healthy =? 0)%nat then Some (s, SelNone)
  else
    let weights := adaptive_weight s <$> healthy in
    let total := foldl f32_add (S754_zero false) weights in
    let y := xorshift64 (la_rng_state s) in
    let s' := mkLatencyAdaptive (la_scores s) y (la_default_weight s) in
    if SFleb total (S754_zero false)
    then l ← healthy !! Z.to_nat (y mod Z.of_nat (length healthy)); Some (s', One l)
    else
      let rand := f64_div (f64_of_Z y) (f64_of_Z (umax 64)) in
      let pick := f64_as_f32 (f64_mul rand (f32_as_f64 total)) in
      match adaptive_walk pick (S754_zero false) (zip healthy weights) with
      | Some l => Some (s', One l)
      | None => l ← last healthy; Some (s', One l)
      end.

(** *** Redundant *)

Inductive Redundant := mkRedundant.

Definition Redundant_schedule (s : Redundant) (_ : PacketMeta) (t : LinkTable)
  : panics (Redundant * LinkSelection) :=
  let healthy := LinkTable_healthy t in
  if (length healthy =? 0)%nat then Some (s, SelNone) else Some (s, Many healthy).

(** *** The trait implementations *)

#[export] Instance RoundRobin_strategy : BondingStrategy RoundRobin :=
  {| strategy_name _ := "round-robin"%string; strategy_schedule := RoundRobin_schedule |}.
#[export] Instance Weighted_strategy : BondingStrategy Weighted :=
  {| strategy_name _ := "weighted"%string; strategy_schedule := Weighted_schedule |}.
#[export] Instance LatencyAdaptive_strategy : BondingStrategy LatencyAdaptive :=
  {| strategy_name _ := "latency-adaptive"%string; strategy_schedule := LatencyAdaptive_schedule |}.
#[export] Instance Redundant_strategy : BondingStrategy Redundant :=
  {| strategy_name _ := "redundant"%string; strategy_schedule := Redundant_schedule |}.

(** [Arc<dyn BondingStrategy>]. *)
Inductive DynStrategy :=
| DynRoundRobin (s : RoundRobin)
| DynWeighted (s : Weighted)
| DynLatencyAdaptive (s : LatencyAdaptive)
| DynRedundant (s : Redundant).

Definition dyn_name (d : DynStrategy) : string :=
  match d with
  | DynRoundRobin s => strategy_name s
  | DynWeighted s => strategy_name s
  | DynLatencyAdaptive s => strategy_name s
  | DynRedundant s => strategy_name s
  end.

Definition dyn_schedule (d : DynStrategy) (p : PacketMeta) (t : LinkTable)
  : panics (DynStrategy * LinkSelection) :=
  match d with
  | DynRoundRobin s => '(s', sel) ← strategy_schedule s p t; Some (DynRoundRobin s', sel)
  | DynWeighted s => '(s', sel) ← strategy_schedule s p t; Some (DynWeighted s', sel)
  | DynLatencyAdaptive s => '(s', sel) ← strategy_schedule s p t; Some (DynLatencyAdaptive s', sel)
  | DynRedundant s => '(s', sel) ← strategy_schedule s p t; Some (DynRedundant s', sel)
  end.

#[export] Instance DynStrategy_strategy : BondingStrategy DynStrategy :=
  {| strategy_name := dyn_name; strategy_schedule := dyn_schedule |}.

(** ** Lemmas: picks stay in the healthy set *)

(** The law for an outcome that picks one healthy link. *)
Lemma one_lawful {S} (s' : S) (t : LinkTable) l (r : panics (S * LinkSelection)) :
  r = Some (s', One l) → l ∈ LinkTable_healthy t →
  ∃ s'' sel, r = Some (s'', sel) ∧
    Forall (fun l => l ∈ LinkTable_healthy t) (LinkSelection_links sel) ∧
    (LinkTable_healthy t = [] ↔ LinkSelection_links sel = []).
Proof.
  intros -> Hl. do 2 eexists; split; [done|]. split; [by apply Forall_singleton|].
  split; [intros E; rewrite E in Hl; by apply not_elem_of_nil in Hl|done].
Qed.

Lemma none_lawful {S} (s' : S) (t : LinkTable) :
  LinkTable_healthy t = [] →
  ∃ s'' sel, Some (s', SelNone) = Some (s'', sel) ∧
    Forall (fun l => l ∈ LinkTable_healthy t) (LinkSelection_links sel) ∧
    (LinkTable_healthy t = [] ↔ LinkSelection_links sel = []).
Proof. intros E. do 2 eexists; split; [done|]. split; [constructor|done]. Qed.

Lemma mod_index {A} (l : list A) x :
  length l ≠ O → ∃ a, l !! Z.to_nat (x mod Z.of_nat (length l)) = Some a ∧ a ∈ l.
Proof.
  intros Hl. pose proof (Z.mod_pos_bound x (Z.of_nat (length l)) ltac:(lia)).
  destruct (lookup_lt_is_Some_2 l (Z.to_nat (x mod Z.of_nat (length l)))) as [a Ha]; [lia|].
  exists a. split; [done|]. apply list_elem_of_lookup. by eauto.
Qed.

Lemma last_in {A} (l : list A) : length l ≠ O → ∃ a, last l = Some a ∧ a ∈ l.
Proof.
  intros Hl. destruct (last l) as [a|] eqn:E.
  - exists a. split; [done|]. apply last_Some in E as [l' ->]. apply elem_of_app. right. left.
  - apply last_None in E. by subst.
Qed.

Lemma weighted_walk_in pick c ls l : weighted_walk pick c ls = Some l → l ∈ ls.
Proof.
  revert c; induction ls as [|x ls IH]; intros c; simpl; [done|].
  destruct (_ <? _); [intros [= ->]; left|intros H; right; by eapply IH].
Qed.

Lemma adaptive_walk_in pick c (ws : list (Link * f32)) l :
  adaptive_walk pick c ws = Some l → l ∈ ws.*1.
Proof.
  revert c; induction ws as [|[x w] ws IH]; intros c; simpl; [done|].
  destruct (SFltb _ _); [intros [= ->]; left|intros H; right; by eapply IH].
Qed.

#[export] Instance RoundRobin_laws : StrategyLaws RoundRobin.
Proof.
  constructor. intros s p t. simpl. unfold RoundRobin_schedule.
  destruct (Nat.eqb_spec (length (LinkTable_healthy t)) 0) as [E|E].
  - apply none_lawful. by apply nil_length_inv.
  - destruct (mod_index (LinkTable_healthy t) (rr_next s) E) as (l & Hl & Hin). rewrite Hl.
    by eapply one_lawful.
Qed.

#[export] Instance Weighted_laws : StrategyLaws Weighted.
Proof.
  constructor. intros s p t. simpl. unfold Weighted_schedule.
  destruct (Nat.eqb_spec (length (LinkTable_healthy t)) 0) as [E|E].
  - apply none_lawful. by apply nil_length_inv.
  - destruct (_ =? 0).
    + destruct (mod_index (LinkTable_healthy t) (xorshift64 (w_rng_state s)) E) as (l & Hl & Hin).
      rewrite Hl. by eapply one_lawful.
    + destruct (weighted_walk _ _ _) as [l|] eqn:Ew.
      * eapply one_lawful; [done|]. by eapply weighted_walk_in.
      * destruct (last_in _ E) as (l & Hl & Hin). rewrite Hl. by eapply one_lawful.
Qed.

#[export] Instance LatencyAdaptive_laws : StrategyLaws LatencyAdaptive.
Proof.
  constructor. intros s p t. simpl. unfold LatencyAdaptive_schedule.
  destruct (Nat.eqb_spec (length (LinkTable_healthy t)) 0) as [E|E].
  - apply none_lawful. by apply nil_length_inv.
  - destruct (SFleb _ _).
    + destruct (mod_index (LinkTable_healthy t) (xorshift64 (la_rng_state s)) E) as (l & Hl & Hin).
      rewrite Hl. by eapply one_lawful.
    + destruct (adaptive_walk _ _ _) as [l|] eqn:Ew.
      * eapply one_lawful; [done|]. apply adaptive_walk_in in Ew.
        by rewrite fst_zip in Ew by (by rewrite length_fmap).
      * destruct (last_in _ E) as (l & Hl & Hin). rewrite Hl. by eapply one_lawful.
Qed.

#[export] Instance Redundant_laws : StrategyLaws Redundant.
Proof.
  constructor. intros s p t. simpl. unfold Redundant_schedule.
  destruct (Nat.eqb_spec (length (LinkTable_healthy t)) 0) as [E|E].
  - apply none_lawful. by apply nil_length_inv.
  - do 2 eexists; split; [done|]. split; [|done]. by apply Forall_forall.
Qed.

Lemma dyn_lawful {S} `{StrategyLaws S} (f : S → DynStrategy) (s : S) p t :
  ∃ s' sel, ('(s', sel) ← strategy_schedule s p t; Some (f s', sel)) = Some (s', sel) ∧
    Forall (fun l => l ∈ LinkTable_healthy t) (LinkSelection_links sel) ∧
    (LinkTable_healthy t = [] ↔ LinkSelection_links sel = []).
Proof.
  destruct (schedule_laws s p t) as (s' & sel & -> & Hs). cbn [mbind option_bind]. by eauto.
Qed.

#[export] Instance DynStrategy_laws : StrategyLaws DynStrategy.
Proof. constructor. intros [] p t; apply dyn_lawful. Qed.

(** ** The generator never gets stuck at zero *)

Lemma shl_step_nonzero w y k :
  0 <= w → 0 < k → in_width w y → Z.lxor y (wrap w (Z.shiftl y k)) = 0 → y = 0.
Proof.
  intros Hw Hk Hy E. apply (shl_step_inj w k); [done..|by apply in_width_0|].
  by rewrite E, Z.shiftl_0_l, wrap_small by by apply in_width_0.
Qed.

Lemma shr_step_nonzero w y k :
  0 <= w → 0 < k → in_width w y → Z.lxor y (Z.shiftr y k) = 0 → y = 0.
Proof.
  intros Hw Hk Hy E. apply (shr_step_inj w k); [done..|by apply in_width_0|].
  by rewrite E, Z.shiftr_0_l.
Qed.

Lemma xorshift64_ok x : in_width 64 x → in_width 64 (xorshift64 x) ∧ xorshift64 x ≠ 0.
Proof.
  intros Hx. unfold xorshift64.
  set (y0 := if x =? 0 then XORSHIFT_SEED else x).
  assert (in_width 64 y0 ∧ y0 ≠ 0) as [H0 N0].
  { unfold y0. destruct (Z.eqb_spec x 0); [|done].
    unfold XORSHIFT_SEED. zlia. }
  set (y1 := Z.lxor y0 _). assert (in_width 64 y1) as H1.
  { apply in_width_lxor; [lia|done|by apply wrap_range]. }
  assert (y1 ≠ 0) as N1 by (intros E; apply N0; by eapply (shl_step_nonzero 64 _ 13)).
  set (y2 := Z.lxor y1 _). assert (in_width 64 y2) as H2.
  { apply in_width_lxor; [lia|done|by apply in_width_shiftr]. }
  assert (y2 ≠ 0) as N2 by (intros E; apply N1; by eapply (shr_step_nonzero 64 _ 7)).
  split; [apply in_width_lxor; [lia|done|by apply wrap_range]|].
  intros E. apply N2. by eapply (shl_step_nonzero 64 _ 17).
Qed.

(** ** Properties *)

(** The sum of the weights, without wrap-around. *)
Definition weights_sum (ls : list Link) : Z := foldr (fun l acc => link_weight l + acc) 0 ls.

Definition weights_ok (ls : list Link) : Prop :=
  Forall (fun l => in_width 32 (link_weight l)) ls ∧ weights_sum ls < 2 ^ 64.

Lemma weights_sum_pos ls :
  Forall (fun l => in_width 32 (link_weight l)) ls → 0 <= weights_sum ls.
Proof. induction 1; simpl; [lia|]. unfold in_width in *. lia. Qed.

Lemma total_weight_sum_acc acc ls :
  Forall (fun l => in_width 32 (link_weight l)) ls → 0 <= acc → acc + weights_sum ls < 2 ^ 64 →
  foldl (fun acc l => wrapping_add 64 acc (link_weight l)) acc ls = acc + weights_sum ls.
Proof.
  intros Hf. revert acc. induction Hf as [|l ls Hl Hf IH]; intros acc H0 Hb; simpl in *; [lia|].
  pose proof (weights_sum_pos ls Hf). unfold in_width in Hl.
  unfold wrapping_add. rewrite wrap_small by (unfold in_width; lia). rewrite IH; lia.
Qed.

Lemma total_weight_sum ls : weights_ok ls → total_weight ls = weights_sum ls.
Proof. intros [Hf Hb]. apply total_weight_sum_acc; [done|lia|lia]. Qed.

(** The walk from [c] picks the link in whose interval [pick] lies. *)
Lemma weighted_walk_at c pick l1 x l2 :
  weights_ok (l1 ++ x :: l2) → 0 <= c → c + weights_sum (l1 ++ x :: l2) < 2 ^ 64 →
  c + weights_sum l1 <= pick < c + weights_sum l1 + link_weight x →
  weighted_walk pick c (l1 ++ x :: l2) = Some x.
Proof.
  intros [Hf _]. revert c. induction l1 as [|y l1 IH]; intros c H0 Hb Hp; simpl in *.
  - inversion_clear Hf as [|? ? Hx Hf']. pose proof (weights_sum_pos l2 Hf').
    unfold in_width in Hx. unfold wrapping_add. rewrite wrap_small by (unfold in_width; lia).
    by rewrite (proj2 (Z.ltb_lt _ _)) by lia.
  - inversion_clear Hf as [|? ? Hy Hf']. pose proof (weights_sum_pos _ Hf').
    pose proof (weights_sum_pos l1 (proj1 (proj1 (Forall_app _ _ _) Hf'))).
    unfold in_width in Hy. unfold wrapping_add. rewrite wrap_small by (unfold in_width; lia).
    rewrite (proj2 (Z.ltb_ge _ _)) by lia. apply IH; [done|lia|lia|lia].
Qed.

(** The picks of the interval [[c, c + n)] that the walk from [c0] sends to [l]. *)
Definition picks_of (l : Link) (c0 c n : Z) (ls : list Link) : nat :=
  length (filter (fun p => weighted_walk p c0 ls = Some l) (seqZ c n)).

Definition share_of (l : Link) (ls : list Link) : Z :=
  foldr (fun x acc => (if decide (x = l) then link_weight x else 0) + acc) 0 ls.

Lemma filter_all {A} (P : A → Prop) `{∀ x, Decision (P x)} (xs : list A) :
  Forall P xs → filter P xs = xs.
Proof. induction 1; [done|]. by rewrite filter_cons_True, IHForall. Qed.

Lemma filter_none {A} (P : A → Prop) `{∀ x, Decision (P x)} (xs : list A) :
  Forall (fun x => ¬ P x) xs → filter P xs = [].
Proof. induction 1; [done|]. by rewrite filter_cons_False, IHForall. Qed.

Lemma filter_ext {A} (P Q : A → Prop) `{∀ x, Decision (P x), ∀ x, Decision (Q x)} (xs : list A) :
  Forall (fun x => P x ↔ Q x) xs → filter P xs = filter Q xs.
Proof.
  induction 1 as [|x xs Hx _ IH]; [done|]. rewrite !filter_cons.
  destruct (decide (P x)), (decide (Q x)); first [by rewrite IH|tauto].
Qed.

(** Every pick from [c] on is sent past the links whose interval it is not in,
    so each link collects exactly its weight. *)
Lemma picks_share l c ls :
  Forall (fun l => in_width 32 (link_weight l)) ls → 0 <= c → c + weights_sum ls < 2 ^ 64 →
  Z.of_nat (picks_of l c c (weights_sum ls) ls) = share_of l ls.
Proof.
  unfold picks_of. intros Hf. revert c.
  induction Hf as [|x ls Hx Hf IH]; intros c H0 Hb; simpl in *; [done|].
  pose proof (weights_sum_pos ls Hf). unfold in_width in Hx.
  unfold wrapping_add. rewrite wrap_small by (unfold in_width; lia).
  rewrite seqZ_app, filter_app, length_app, Nat2Z.inj_add by lia. f_equal.
  - case_decide as E.
    + rewrite filter_all; [rewrite length_seqZ; lia|].
      apply Forall_forall. intros p Hp%elem_of_seqZ. by rewrite (proj2 (Z.ltb_lt _ _)), E by lia.
    + rewrite filter_none; [done|].
      apply Forall_forall. intros p Hp%elem_of_seqZ.
      rewrite (proj2 (Z.ltb_lt _ _)) by lia. congruence.
  - rewrite <-(IH (c + link_weight x)) by lia. do 2 f_equal.
    apply filter_ext, Forall_forall. intros p Hp%elem_of_seqZ.
    by rewrite (proj2 (Z.ltb_ge _ _)) by lia.
Qed.

Lemma weighted_walk_total c pick ls :
  Forall (fun l => in_width 32 (link_weight l)) ls → 0 <= c → c + weights_sum ls < 2 ^ 64 →
  pick < c + weights_sum ls → c <= pick → is_Some (weighted_walk pick c ls).
Proof.
  intros Hf. revert c. induction Hf as [|x ls Hx Hf IH]; intros c H0 Hb Hp Hc; simpl in *; [lia|].
  pose proof (weights_sum_pos ls Hf). unfold in_width in Hx.
  unfold wrapping_add. rewrite wrap_small by (unfold in_width; lia).
  destruct (Z.ltb_spec pick (c + link_weight x)); [by eauto|]. apply IH; lia.
Qed.

(** [n] consecutive round-robin calls: the final state and the selections. *)
Fixpoint rr_run (n : nat) (s : RoundRobin) (p : PacketMeta) (t : LinkTable)
  : panics (RoundRobin * list LinkSelection) :=
  match n with
  | O => Some (s, [])
  | S n' =>
      '(s1, sel) ← RoundRobin_schedule s p t;
      '(s2, sels) ← rr_run n' s1 p t;
      Some (s2, sel :: sels)
  end.

(** The [n] picks from cursor [c] on a list [h]. *)
Lemma rr_run_picks n c p t :
  LinkTable_healthy t ≠ [] → 0 <= c → c + Z.of_nat n < 2 ^ 64 →
  ∃ sels, rr_run n (mkRoundRobin c) p t = Some (mkRoundRobin (c + Z.of_nat n), sels) ∧
    length sels = n ∧
    ∀ i, (i < n)%nat →
      sels !! i = One <$> LinkTable_healthy t !!
        Z.to_nat ((c + Z.of_nat i) mod Z.of_nat (length (LinkTable_healthy t))).
Proof.
  intros Hne. assert (Hl : length (LinkTable_healthy t) ≠ O)
    by (intros ?%nil_length_inv; done).
  revert c. induction n as [|n IH]; intros c H0 Hb.
  - exists []. split_and!; [simpl; by rewrite Z.add_0_r|done|lia].
  - destruct (mod_index (LinkTable_healthy t) c Hl) as (l & Hlk & _).
    destruct (IH (c + 1)) as (sels & Hr & Hlen & Hs); [lia|lia|].
    exists (One l :: sels). split_and!.
    + cbn [rr_run]. unfold RoundRobin_schedule. rewrite (proj2 (Nat.eqb_neq _ _)) by done.
      cbn [rr_next]. rewrite Hlk. cbn [mbind option_bind]. unfold wrapping_add.
      rewrite wrap_small by (unfold in_width; lia). rewrite Hr. cbn [mbind option_bind].
      by replace (c + 1 + Z.of_nat n) with (c + Z.of_nat (S n)) by lia.
    + simpl. by rewrite Hlen.
    + intros [|i] Hi; cbn [lookup list_lookup]; [by rewrite Z.add_0_r, Hlk|].
      etransitivity; [apply Hs; lia|]. do 3 f_equal. f_equal. lia.
Qed.

(** A full turn starting anywhere is a rotation of the list. *)
Lemma rotation_lookup {A} (h : list A) c i :
  h ≠ [] → 0 <= c → (i < length h)%nat →
  (drop (Z.to_nat (c mod Z.of_nat (length h))) h ++ take (Z.to_nat (c mod Z.of_nat (length h))) h) !! i
  = h !! Z.to_nat ((c + Z.of_nat i) mod Z.of_nat (length h)).
Proof.
  intros Hne H0 Hi. set (n := Z.of_nat (length h)). assert (0 < n) by lia.
  pose proof (Z.mod_pos_bound c n ltac:(lia)) as Hk. set (k := c mod n) in *.
  assert (E : (c + Z.of_nat i) mod n = (k + Z.of_nat i) mod n).
  { unfold k. by rewrite Zplus_mod_idemp_l. }
  rewrite E. destruct (decide (Z.to_nat k + i < length h)%nat).
  - rewrite lookup_app_l by (rewrite length_drop; lia). rewrite lookup_drop.
    rewrite Z.mod_small by lia. f_equal. lia.
  - rewrite lookup_app_r by (rewrite length_drop; lia). rewrite length_drop.
    rewrite lookup_take_lt by lia.
    replace ((k + Z.of_nat i) mod n) with (k + Z.of_nat i - n).
    + f_equal. lia.
    + apply (Z.mod_unique_pos _ _ 1); lia.
Qed.

(** C24: Whatever strategy the engine holds and whatever its internal state, a
    scheduling call returns without panicking, every link it picks is a healthy
    link of the table, and it picks none exactly when no link is healthy: the
    sampling strategies never fall off the end of their walk, and a zero or
    not-a-number total weight does not black-hole traffic. *)
Theorem strategies_lawful (d : DynStrategy) (p : PacketMeta) (t : LinkTable) :
  ∃ d' sel, dyn_schedule d p t = Some (d', sel) ∧
    dyn_name d' = dyn_name d ∧
    (∀ l, l ∈ LinkSelection_links sel → l ∈ t ∧ link_healthy l = true) ∧
    (LinkSelection_count sel = O ↔ ∀ l, l ∈ t → link_healthy l = false).
Proof.
  destruct (schedule_laws d p t) as (d' & sel & E & Hf & Hn). cbn in E.
  exists d', sel. split_and!; [done| | |].
  - destruct d; cbn [dyn_schedule] in E;
      destruct (strategy_schedule s p t) as [[]|]; by simplify_eq/=.
  - intros l Hl. rewrite Forall_forall in Hf. specialize (Hf l Hl).
    apply list_elem_of_filter in Hf as [Hh Ht]. split; [done|]. by apply Is_true_true.
  - assert (LinkSelection_count sel = O ↔ LinkSelection_links sel = []) as ->
      by (destruct sel as [| []|]; done).
    rewrite <-Hn. unfold LinkTable_healthy. split.
    + intros Hnil l Hl. destruct (link_healthy l) eqn:Eh; [|done].
      assert (l ∈ filter (fun l => link_healthy l) t) as Hin
        by (apply list_elem_of_filter; by rewrite Eh).
      rewrite Hnil in Hin. by apply not_elem_of_nil in Hin.
    + intros Hall. apply filter_none, Forall_forall. intros l Hl. simpl. rewrite (Hall l Hl). by intros [].
Qed.

(** Round robin is fair: as long as the cursor does not wrap, any
    [healthy.len()] consecutive calls on an unchanged table use every healthy
    link exactly once, in table order starting at the cursor. *)
Theorem round_robin_fair (c : Z) (p : PacketMeta) (t : LinkTable) :
  let h := LinkTable_healthy t in
  let k := Z.to_nat (c mod Z.of_nat (length h)) in
  h ≠ [] → 0 <= c → c + Z.of_nat (length h) < 2 ^ 64 →
  rr_run (length h) (mkRoundRobin c) p t
  = Some (mkRoundRobin (c + Z.of_nat (length h)), One <$> (drop k h ++ take k h)).
Proof.
  intros h k Hne H0 Hb.
  destruct (rr_run_picks (length h) c p t Hne H0 Hb) as (sels & -> & Hlen & Hs).
  do 2 f_equal. apply list_eq_same_length with (n := length h); [|done|].
  - rewrite length_fmap, length_app, length_drop, length_take. unfold k.
    pose proof (Z.mod_pos_bound c (Z.of_nat (length h))). destruct h; simpl in *; [done|lia].
  - intros i x y Hi Hx Hy. rewrite Hs in Hx by done.
    rewrite list_lookup_fmap in Hy. unfold k, h in Hy. rewrite rotation_lookup in Hy by done.
    congruence.
Qed.

(** The weighted sampler is exact: when the healthy weights do not all
    vanish, the pick [next_xorshift64 % total] always lands on a link in the
    cumulative walk (the [last().unwrap()] fallback is dead code), the new
    generator state is a non-zero [u64], and among the [total] possible picks
    every link receives exactly its configured weight. *)
Theorem weighted_proportional (s : Weighted) (p : PacketMeta) (t : LinkTable) :
  let h := LinkTable_healthy t in
  in_width 64 (w_rng_state s) → weights_ok h → 0 < weights_sum h →
  (∃ y l, Weighted_schedule s p t = Some (mkWeighted y, One l) ∧
     in_width 64 y ∧ y ≠ 0 ∧ weighted_walk (y mod weights_sum h) 0 h = Some l) ∧
  (∀ l, Z.of_nat (picks_of l 0 0 (weights_sum h) h) = share_of l h).
Proof.
  intros h Hs Hw Hp. pose proof Hw as [Hf Hb]. split; [|intros l; apply picks_share; [done|lia|lia]].
  destruct (xorshift64_ok _ Hs) as [Hy Hy0].
  pose proof (Z.mod_pos_bound (xorshift64 (w_rng_state s)) (weights_sum h) Hp).
  destruct (weighted_walk_total 0 (xorshift64 (w_rng_state s) mod weights_sum h) h)
    as [l Hl]; [done|lia|lia|lia|lia|].
  exists (xorshift64 (w_rng_state s)), l. split_and!; [|done|done|done].
  unfold Weighted_schedule. fold h. rewrite (proj2 (Nat.eqb_neq _ _)).
  - rewrite total_weight_sum by done. rewrite (proj2 (Z.eqb_neq _ _)) by lia. by rewrite Hl.
  - intros ?%nil_length_inv. rewrite H0 in Hp. simpl in Hp. lia.
Qed.

Definition witness_link (id weight : Z) : Link :=
  Link_new id (lit "wan") (mkSocketAddr (V4 [10; 0; 0; 1]) 51820) weight.
Definition witness_meta : PacketMeta := PacketMeta_inbound 64 0.
Definition witness_table : LinkTable :=
  [witness_link 0 1; Link_mark_dead (witness_link 1 5); witness_link 2 3; witness_link 3 0].

Example round_robin_fair_witness :
  rr_run 3 (mkRoundRobin 4) witness_meta witness_table
  = Some (mkRoundRobin 7, [One (witness_link 2 3); One (witness_link 3 0); One (witness_link 0 1)]).
Proof. apply (round_robin_fair 4 witness_meta witness_table); vm_compute; congruence. Defined.

Example weighted_proportional_witness :
  Z.of_nat (picks_of (witness_link 2 3) 0 0 4 (LinkTable_healthy witness_table)) = 3.
Proof.
  apply (weighted_proportional Weighted_new witness_meta witness_table).
  - by apply (bool_decide_unpack _).
  - split; [|done]. by apply (bool_decide_unpack _).
  - done.
Defined.
