(* ===== verification/Engine.v ===== *)
(** * The bonding engine and the failover controller

    Models [desmos-core/src/bonding/mod.rs] (the [Engine]) and [failover.rs]
    (the [FailoverController]).  The engine's two [RwLock]s are fields: each
    method takes a lock once, so a call is one atomic step.  The engine is
    proved against [StrategyLaws], so its theorems hold for any lawful
    strategy; [DynStrategy] is the instance the program runs. *)

From stdpp Require Import base list gmap numbers strings.
From Stdlib Require Import ZArith Lia.
From S2P Require Import Prelude Str Wire LinkState Strategy.

(** ** [mod.rs]: the engine *)

Record Engine (S : Type) := mkEngine { e_strategy : S; e_links : LinkTable }.
Arguments mkEngine {S} _ _.
Arguments e_strategy {S} _.
Arguments e_links {S} _.

Definition Engine_new {S} (strategy : S) (links : LinkTable) : Engine S := mkEngine strategy links.

Definition Engine_new_with_round_robin (links : LinkTable) : Engine DynStrategy :=
  Engine_new (DynRoundRobin RoundRobin_new) links.

Section EngineOps.
  Context {S : Type} `{BondingStrategy S}.

Definition Engine_schedule (e : Engine S) (p : PacketMeta) : panics (Engine S * LinkSelection) :=
  '(s, sel) ← strategy_schedule (e_strategy e) p (e_links e);
  Some (mkEngine s (e_links e), sel).

Definition Engine_swap_strategy (e : Engine S) (s : S) : Engine S := mkEngine s (e_links e).

Definition Engine_swap_links (e : Engine S) (t : LinkTable) : Engine S := mkEngine (e_strategy e) t.

Definition Engine_current_strategy_name (e : Engine S) : string := strategy_name (e_strategy e).

Definition Engine_links_snapshot (e : Engine S) : LinkTable := e_links e.

(** The closure [update_link] maps over the table. *)
Definition update_one (name : str) (weight : option Z) (enabled : option bool) (l : Link) : Link :=
  if decide (link_name l = name) then
    let l := match weight with Some w => Link_set_weight w l | None => l end in
    match enabled with
    | Some true => Link_mark_healthy l
    | Some false => Link_mark_dead l
    | None => l
    end
  else l.

Definition Engine_update_link (e : Engine S) (name : str) (weight : option Z)
    (enabled : option bool) : Engine S * bool :=
  let snap := Engine_links_snapshot e in
  let found := existsb (fun l => bool_decide (link_name l = name)) snap in
  let updated := update_one name weight enabled <$> snap in
  (if found then Engine_swap_links e updated else e, found).

End EngineOps.

(** ** [failover.rs] *)

Record LinkTransition := mkLinkTransition {
  lt_link_id : LinkId;
  lt_from : LinkState;
  lt_to : LinkState;
}.

Definition from_transition (id : LinkId) (t : Transition) : LinkTransition :=
  mkLinkTransition id (t_from t) (t_to t).

Definition crosses_bondable_boundary (t : LinkTransition) : bool :=
  xorb (LinkState_is_bondable (lt_from t)) (LinkState_is_bondable (lt_to t)).

Abbreviation FailoverController := (gmap LinkId LinkStateMachine).

Definition FailoverController_new : FailoverController := ∅.

(** [entry(id).or_default()]. *)
Definition machine_of (c : FailoverController) (id : LinkId) : LinkStateMachine :=
  default LinkStateMachine_new (c !! id).

Definition FailoverController_register (c : FailoverController) (id : LinkId) : FailoverController :=
  <[id := machine_of c id]> c.

Definition FailoverController_deregister (c : FailoverController) (id : LinkId) : FailoverController :=
  delete id c.

Definition FailoverController_state_of (c : FailoverController) (id : LinkId) : option LinkState :=
  lsm_state <$> c !! id.

Definition FailoverController_snapshot (c : FailoverController) : gmap LinkId LinkState :=
  lsm_state <$> c.

Definition FailoverController_on_probe (c : FailoverController) (id : LinkId) (sample : ProbeSample)
    (now_ms : Z) : FailoverController * option LinkTransition :=
  let '(m, t) := on_probe (machine_of c id) sample now_ms in
  (<[id := m]> c, from_transition id <$> t).

(** The iteration order of the hash map is unspecified; the transitions are
    listed in the order of [map_to_list]. *)
Definition FailoverController_tick (c : FailoverController) (now_ms : Z)
  : FailoverController * list LinkTransition :=
  ((fun m => (LinkStateMachine_tick m now_ms).1) <$> c,
   omap (fun kv : LinkId * LinkStateMachine =>
           from_transition kv.1 <$> (LinkStateMachine_tick kv.2 now_ms).2) (map_to_list c)).

(** The verdict [apply_to_engine] uses: an untracked link counts as healthy. *)
Definition should_be_healthy (c : FailoverController) (id : LinkId) : bool :=
  LinkState_is_bondable (default Healthy (lsm_state <$> c !! id)).

Definition apply_to_engine {S} (c : FailoverController) (e : Engine S) : Engine S :=
  let current := Engine_links_snapshot e in
  let dirty := existsb (fun l => xorb (link_healthy l) (should_be_healthy c (link_id l))) current in
  let rebuilt := (fun l => mkLink (link_id l) (link_name l) (link_peer l) (link_weight l)
                                  (should_be_healthy c (link_id l))) <$> current in
  if dirty then Engine_swap_links e rebuilt else e.

(** The calls that feed the controller. *)
Inductive failover_call :=
| FRegister (id : LinkId)
| FDeregister (id : LinkId)
| FProbe (id : LinkId) (s : ProbeSample) (now_ms : Z)
| FTick (now_ms : Z).

Definition failover_step (c : FailoverController) (call : failover_call) : FailoverController :=
  match call with
  | FRegister id => FailoverController_register c id
  | FDeregister id => FailoverController_deregister c id
  | FProbe id s now => (FailoverController_on_probe c id s now).1
  | FTick now => (FailoverController_tick c now).1
  end.

Definition failover_run : FailoverController → list failover_call → FailoverController :=
  foldl failover_step.

(** ** Lemmas *)

(** With or without the [dirty] shortcut the table is the rebuilt one. *)
Lemma apply_to_engine_links {S} c (e : Engine S) :
  apply_to_engine c e =
  mkEngine (e_strategy e)
    ((fun l => Link_set_healthy (should_be_healthy c (link_id l)) l) <$> e_links e).
Proof.
  destruct e as [s t]. unfold apply_to_engine, Engine_links_snapshot, Engine_swap_links. simpl.
  destruct (existsb _ t) eqn:E; [done|]. f_equal.
  induction t as [|l t IH]; [done|]. rewrite fmap_cons. simpl in E. apply orb_false_iff in E as [El Et].
  rewrite <-IH by done. f_equal. destruct l as [id nm pr w h]. simpl in *.
  unfold Link_set_healthy. simpl. f_equal. by apply xorb_eq.
Qed.

Lemma should_be_healthy_state c id st :
  FailoverController_state_of c id = Some st → should_be_healthy c id = LinkState_is_bondable st.
Proof. unfold FailoverController_state_of, should_be_healthy. by intros ->. Qed.

(** Every tracked machine is a reachable one. *)
Definition controller_inv (c : FailoverController) : Prop := map_Forall (fun _ => lsm_reachable) c.

Lemma machine_of_reachable c id : controller_inv c → lsm_reachable (machine_of c id).
Proof.
  intros Hc. unfold machine_of. destruct (c !! id) as [m|] eqn:E; simpl; [by apply (Hc id)|].
  apply rtc_refl.
Qed.

Lemma lsm_reachable_step m ev : lsm_reachable m → lsm_reachable (lsm_apply m ev).1.
Proof. intros Hm. eapply rtc_r; [done|]. constructor. Qed.

Lemma on_probe_fst c id s now :
  (FailoverController_on_probe c id s now).1 = <[id := (on_probe (machine_of c id) s now).1]> c.
Proof. unfold FailoverController_on_probe. by destruct (on_probe _ _ _). Qed.

Lemma failover_step_inv c call : controller_inv c → controller_inv (failover_step c call).
Proof.
  intros Hc. destruct call as [id|id|id s now|now]; cbn [failover_step].
  - apply map_Forall_insert_2; [by apply machine_of_reachable|done].
  - by apply map_Forall_delete.
  - rewrite on_probe_fst. apply map_Forall_insert_2; [|done].
    apply (lsm_reachable_step _ (EvProbe s now)). by apply machine_of_reachable.
  - intros id m. cbn [FailoverController_tick fst]. rewrite lookup_fmap.
    intros (m0 & Hm0 & ->)%fmap_Some. apply (lsm_reachable_step _ (EvTick now)). by apply (Hc id).
Qed.

Lemma failover_run_inv c calls : controller_inv c → controller_inv (failover_run c calls).
Proof.
  revert c. induction calls as [|call calls IH]; intros c Hc; [done|].
  by apply IH, failover_step_inv.
Qed.

Lemma controller_inv_new : controller_inv FailoverController_new.
Proof. apply map_Forall_empty. Qed.

(** Feeding silences to one link runs its machine. *)
Lemma silent_calls c id ts :
  machine_of (failover_run c (FProbe id NoResponse <$> ts)) id = silent (machine_of c id) ts.
Proof.
  revert c. induction ts as [|t ts IH]; intros c; [done|].
  cbn [fmap list_fmap]. change (failover_run c (?x :: ?xs)) with (failover_run (failover_step c x) xs).
  rewrite IH. cbn [failover_step]. rewrite on_probe_fst. unfold machine_of at 1.
  by rewrite lookup_insert_eq.
Qed.

Lemma machine_dead_unhealthy c id : lsm_state (machine_of c id) = Dead → should_be_healthy c id = false.
Proof. unfold machine_of, should_be_healthy. destruct (c !! id); simpl; [by intros ->|done]. Qed.

Section LawfulEngine.
  Context {S : Type} `{StrategyLaws S}.

(** What a scheduling call on an engine just brought up to date returns. *)
Lemma schedule_after_apply c (e : Engine S) p :
  ∃ e' sel, Engine_schedule (apply_to_engine c e) p = Some (e', sel) ∧
    e_links e' = e_links (apply_to_engine c e) ∧
    (∀ l, l ∈ LinkSelection_links sel →
       should_be_healthy c (link_id l) = true ∧
       ∃ l0, l0 ∈ e_links e ∧ l = Link_mark_healthy l0) ∧
    (LinkSelection_links sel = [] ↔ ∀ l, l ∈ e_links e → should_be_healthy c (link_id l) = false).
Proof.
  rewrite apply_to_engine_links. set (t := _ <$> _). unfold Engine_schedule. cbn [e_strategy e_links].
  destruct (schedule_laws (e_strategy e) p t) as (s' & sel & -> & Hf & Hn).
  eexists _, sel. split; [done|]. split; [done|]. split.
  - intros l Hl. rewrite Forall_forall in Hf. specialize (Hf l Hl).
    apply list_elem_of_filter in Hf as [Hh Ht]. apply Is_true_eq_true in Hh.
    apply list_elem_of_fmap in Ht as (l0 & -> & Hl0). simpl in Hh. simpl.
    split; [done|]. exists l0. split; [done|]. by rewrite Hh.
  - rewrite <-Hn. split.
    + intros Hnil l Hl. destruct (should_be_healthy c (link_id l)) eqn:Eh; [|done].
      exfalso. apply (not_elem_of_nil (Link_set_healthy true l)). rewrite <-Hnil.
      apply list_elem_of_filter. split; [done|]. apply list_elem_of_fmap. exists l.
      by rewrite Eh.
    + intros Hall. apply filter_none, Forall_forall. intros l Hl.
      apply list_elem_of_fmap in Hl as (l0 & -> & Hl0). simpl. rewrite Hall by done. by intros [].
Qed.

End LawfulEngine.

(** ** Properties *)

(** C25: After the controller brings the engine up to date, a scheduling call
    on any lawful strategy picks only links whose state machine is not dead
    (or that are not tracked), with their identity, peer and weight as
    configured, and picks none exactly when every link of the table is dead:
    traffic keeps flowing as long as one link is bondable. *)
Theorem schedule_respects_link_state {S} `{StrategyLaws S}
    (c : FailoverController) (e : Engine S) (p : PacketMeta) :
  ∃ e' sel, Engine_schedule (apply_to_engine c e) p = Some (e', sel) ∧
    (∀ l, l ∈ LinkSelection_links sel →
       FailoverController_state_of c (link_id l) ≠ Some Dead ∧
       ∃ l0, l0 ∈ e_links e ∧ l = Link_mark_healthy l0) ∧
    (LinkSelection_links sel = [] ↔
       ∀ l, l ∈ e_links e → FailoverController_state_of c (link_id l) = Some Dead).
Proof.
  assert (Hd : ∀ id, should_be_healthy c id = false ↔ FailoverController_state_of c id = Some Dead).
  { intros id. unfold should_be_healthy, FailoverController_state_of.
    destruct (c !! id) as [m|]; simpl; [|done]. by destruct (lsm_state m). }
  destruct (schedule_after_apply c e p) as (e' & sel & He & _ & Hin & Hn).
  exists e', sel. split; [done|]. split.
  - intros l Hl. destruct (Hin l Hl) as [Hh Hl0]. split; [|done].
    rewrite <-Hd. congruence.
  - rewrite Hn. by setoid_rewrite Hd.
Qed.

Example schedule_respects_link_state_witness :
  ∃ e' sel,
    Engine_schedule (apply_to_engine {[1 := mkMachine Dead 0 0 0]}
      (Engine_new Weighted_new [witness_link 1 10; witness_link 2 10])) witness_meta = Some (e', sel) ∧
    (∀ l, l ∈ LinkSelection_links sel →
       FailoverController_state_of {[1 := mkMachine Dead 0 0 0]} (link_id l) ≠ Some Dead).
Proof.
  destruct (schedule_respects_link_state {[1 := mkMachine Dead 0 0 0]}
    (Engine_new Weighted_new [witness_link 1 10; witness_link 2 10]) witness_meta)
    as (e' & sel & He & Hin & _).
  exists e', sel. split; [exact He|]. intros l Hl. apply (Hin l Hl).
Defined.

(** C6: Failover end to end: whatever calls the controller has served, after
    five more unanswered probes of link [id] (at any times) and one
    [apply_to_engine], no strategy schedules a packet on [id], and a packet is
    still scheduled as long as another link of the table is not dead. *)
Theorem failover_end_to_end {S} `{StrategyLaws S} (calls : list failover_call) (id : LinkId)
    (ts : list Z) (e : Engine S) (p : PacketMeta) :
  let c := failover_run FailoverController_new (calls ++ (FProbe id NoResponse <$> ts)) in
  (length ts = 5)%nat →
  ∃ e' sel, Engine_schedule (apply_to_engine c e) p = Some (e', sel) ∧
    (∀ l, l ∈ LinkSelection_links sel → link_id l ≠ id) ∧
    ((∃ l, l ∈ e_links e ∧ should_be_healthy c (link_id l) = true) → LinkSelection_links sel ≠ []).
Proof.
  intros c Hlen. destruct (schedule_after_apply c e p) as (e' & sel & He & _ & Hin & Hn).
  exists e', sel. split; [done|]. split.
  - intros l Hl ->%eq_sym. destruct (Hin l Hl) as [Hh _]. revert Hh.
    rewrite machine_dead_unhealthy; [done|]. subst c. unfold failover_run. rewrite foldl_app.
    rewrite silent_calls. set (c0 := foldl _ _ calls).
    assert (Hr : lsm_inv (machine_of c0 (link_id l))).
    { apply lsm_reachable_inv, machine_of_reachable, (failover_run_inv _ calls), controller_inv_new. }
    pose proof (li_width _ Hr) as (_ & [Hn0 _] & _).
    destruct (silent_any (machine_of c0 (link_id l)) ts Hr) as [?|?]; [lia| |done].
    by apply silent_dead.
  - intros (l & Hl & Hh) Hnil. rewrite Hn in Hnil. rewrite (Hnil l Hl) in Hh. done.
Qed.

(** [apply_to_engine] is idempotent, leaves the strategy alone, and its
    verdict overrides a manual switch: a link the operator disabled through
    [update_link] is enabled again by the next [apply_to_engine], exactly as if
    it had never been disabled. *)
Theorem apply_to_engine_overrides {S} `{BondingStrategy S} (c : FailoverController) (e : Engine S)
    (name : str) :
  apply_to_engine c (apply_to_engine c e) = apply_to_engine c e ∧
  e_strategy (apply_to_engine c e) = e_strategy e ∧
  apply_to_engine c (Engine_update_link e name None (Some false)).1 = apply_to_engine c e.
Proof.
  rewrite !apply_to_engine_links. simpl. split_and!; [|done|].
  - f_equal. rewrite <-list_fmap_compose. by apply list_fmap_ext.
  - unfold Engine_update_link, Engine_swap_links, Engine_links_snapshot.
    destruct (existsb _ _); [|done]. simpl. f_equal. rewrite <-list_fmap_compose.
    apply list_fmap_ext. intros _ l _. simpl. unfold update_one. by case_decide.
Qed.

Definition witness_engine : Engine DynStrategy :=
  Engine_new_with_round_robin [witness_link 1 10; witness_link 2 10].

Example failover_end_to_end_witness :
  ∃ e' sel,
    Engine_schedule (apply_to_engine
      (failover_run FailoverController_new ([FProbe 1 Good 0; FRegister 2] ++
         (FProbe 1 NoResponse <$> [1; 2; 3; 4; 5]))) witness_engine) witness_meta = Some (e', sel) ∧
    (∀ l, l ∈ LinkSelection_links sel → link_id l ≠ 1) ∧ LinkSelection_links sel ≠ [].
Proof.
  destruct (failover_end_to_end [FProbe 1 Good 0; FRegister 2] 1 [1; 2; 3; 4; 5]
              witness_engine witness_meta) as (e' & sel & He & Hid & Hne); [reflexivity|].
  exists e', sel. split; [exact He|]. split; [exact Hid|]. apply Hne.
  exists (witness_link 2 10). split; [right; left|vm_compute; reflexivity].
Defined.
