(* ===== verification/Probe.v ===== *)
(** * The probe scheduler

    Models [desmos-core/src/bonding/probe.rs].  The [BTreeMap] of in-flight
    probes is a finite map whose iteration is in increasing key order. *)

From stdpp Require Import base list gmap numbers sorting.
From Stdlib Require Import ZArith Lia.
From S2P Require Import Prelude.

Definition DEFAULT_INTERVAL_US : Z := 500000.
Definition DEFAULT_TIMEOUT_US : Z := 2000000.

Record ProbeAck := mkProbeAck { ack_seq : Z; ack_rtt_us : Z }.

Record ProbeScheduler := mkProbeScheduler {
  interval_us : Z;
  timeout_us : Z;
  last_send_us : option Z;
  next_seq : Z;
  in_flight : gmap Z Z;
}.

(** The two assertions of [new] panic. *)
Definition ProbeScheduler_new (interval timeout : Z) : panics ProbeScheduler :=
  if negb (0 <? interval) then None
  else if negb (0 <? timeout) then None
  else Some (mkProbeScheduler interval timeout None 0 ∅).

Definition ProbeScheduler_with_defaults : panics ProbeScheduler :=
  ProbeScheduler_new DEFAULT_INTERVAL_US DEFAULT_TIMEOUT_US.

Definition ProbeScheduler_is_due (s : ProbeScheduler) (now_us : Z) : bool :=
  match last_send_us s with
  | None => true
  | Some l => interval_us s <=? saturating_sub now_us l
  end.

Definition ProbeScheduler_issue (s : ProbeScheduler) (now_us : Z) : ProbeScheduler * Z :=
  let seq := next_seq s in
  (mkProbeScheduler (interval_us s) (timeout_us s) (Some now_us) (wrapping_add 64 seq 1)
     (<[seq := now_us]> (in_flight s)), seq).

(** [as u32] truncates. *)
Definition ProbeScheduler_on_ack (s : ProbeScheduler) (seq now_us : Z)
  : ProbeScheduler * option ProbeAck :=
  match in_flight s !! seq with
  | None => (s, None)
  | Some send_us =>
      (mkProbeScheduler (interval_us s) (timeout_us s) (last_send_us s) (next_seq s)
         (delete seq (in_flight s)),
       Some (mkProbeAck seq (wrap 32 (saturating_sub now_us send_us))))
  end.

(** [BTreeMap::iter]: the keys in increasing order. *)
Definition sorted_keys (m : gmap Z Z) : list Z := merge_sort Z.le (map_to_list m).*1.

Definition probe_expired (s : ProbeScheduler) (now_us : Z) (seq : Z) : Prop :=
  timeout_us s <= saturating_sub now_us (default now_us (in_flight s !! seq)).

#[export] Instance probe_expired_dec s now seq : Decision (probe_expired s now seq).
Proof. unfold probe_expired. apply _. Defined.

Definition ProbeScheduler_drain_timeouts (s : ProbeScheduler) (now_us : Z)
  : ProbeScheduler * list Z :=
  let expired := filter (probe_expired s now_us) (sorted_keys (in_flight s)) in
  (mkProbeScheduler (interval_us s) (timeout_us s) (last_send_us s) (next_seq s)
     (foldl (fun m seq => delete seq m) (in_flight s) expired), expired).

Definition in_flight_count (s : ProbeScheduler) : nat := size (in_flight s).

(** ** Histories *)

Inductive probe_call := PIssue (now_us : Z) | PAck (seq now_us : Z) | PDrain (now_us : Z).

(** The ghost record of a history: what was issued, acknowledged and lost. *)
Record probe_log := mkProbeLog { pl_issued : list Z; pl_acked : list Z; pl_lost : list Z }.

Definition probe_step (st : ProbeScheduler * probe_log) (call : probe_call)
  : ProbeScheduler * probe_log :=
  let '(s, lg) := st in
  match call with
  | PIssue now =>
      let '(s', seq) := ProbeScheduler_issue s now in
      (s', mkProbeLog (pl_issued lg ++ [seq]) (pl_acked lg) (pl_lost lg))
  | PAck seq now =>
      let '(s', a) := ProbeScheduler_on_ack s seq now in
      (s', mkProbeLog (pl_issued lg)
             (pl_acked lg ++ match a with Some a => [ack_seq a] | None => [] end) (pl_lost lg))
  | PDrain now =>
      let '(s', out) := ProbeScheduler_drain_timeouts s now in
      (s', mkProbeLog (pl_issued lg) (pl_acked lg) (pl_lost lg ++ out))
  end.

Definition probe_run (s : ProbeScheduler) (calls : list probe_call) : ProbeScheduler * probe_log :=
  foldl probe_step (s, mkProbeLog [] [] []) calls.

Definition keys (m : gmap Z Z) : list Z := (map_to_list m).*1.

(** Every probe issued is acknowledged once, lost once, or still in flight. *)
Record probe_inv (st : ProbeScheduler * probe_log) : Prop := {
  pi_seq : next_seq st.1 = Z.of_nat (length (pl_issued st.2));
  pi_issued : pl_issued st.2 = seqZ 0 (Z.of_nat (length (pl_issued st.2)));
  pi_balance : pl_issued st.2 ≡ₚ pl_acked st.2 ++ pl_lost st.2 ++ keys (in_flight st.1);
}.

(** ** Lemmas *)

Lemma elem_of_keys m k : k ∈ keys m ↔ is_Some (m !! k).
Proof.
  unfold keys. rewrite list_elem_of_fmap. split.
  - intros ([k' v] & -> & H%elem_of_map_to_list). simpl. by eauto.
  - intros [v H]. exists (k, v). split; [done|]. by apply elem_of_map_to_list.
Qed.

Lemma sorted_keys_perm m : sorted_keys m ≡ₚ keys m.
Proof. apply merge_sort_Permutation. Qed.

Lemma sorted_keys_sorted m : StronglySorted Z.le (sorted_keys m).
Proof. apply StronglySorted_merge_sort; apply _. Qed.

Lemma sorted_filter (P : Z → Prop) `{∀ x, Decision (P x)} (l : list Z) :
  StronglySorted Z.le l → StronglySorted Z.le (filter P l).
Proof.
  induction 1 as [|x l Hl IH Hx]; [constructor|]. rewrite filter_cons. case_decide; [|done].
  constructor; [done|]. rewrite Forall_forall in *. intros y [_ Hy]%list_elem_of_filter. by apply Hx.
Qed.

Lemma NoDup_keys m : NoDup (keys m).
Proof. apply NoDup_fst_map_to_list. Qed.

Lemma keys_insert m k v : m !! k = None → keys (<[k := v]> m) ≡ₚ k :: keys m.
Proof. intros H. unfold keys. by rewrite (map_to_list_insert m k v H). Qed.

Lemma keys_delete m k : is_Some (m !! k) → keys m ≡ₚ k :: keys (delete k m).
Proof.
  intros [v Hv]. rewrite <-(keys_insert _ _ v) by apply lookup_delete_eq.
  by rewrite insert_delete_id.
Qed.

Lemma keys_delete_list m ks :
  NoDup ks → Forall (fun k => is_Some (m !! k)) ks →
  keys m ≡ₚ ks ++ keys (foldl (fun m k => delete k m) m ks).
Proof.
  intros Hnd. revert m. induction Hnd as [|k ks Hk Hnd IH]; intros m Hf; [done|].
  inversion_clear Hf as [|? ? Hm Hf']. simpl. rewrite (keys_delete m k) by done. constructor.
  apply IH. rewrite Forall_forall in *. intros k' Hk'.
  rewrite lookup_delete_ne by (intros ->; done). by apply Hf'.
Qed.

Lemma lookup_delete_list (m : gmap Z Z) ks k :
  foldl (fun m k => delete k m) m ks !! k = if decide (k ∈ ks) then None else m !! k.
Proof.
  revert m. induction ks as [|k' ks IH]; intros m; simpl; [done|]. rewrite IH.
  destruct (decide (k ∈ ks)), (decide (k ∈ k' :: ks)) as [Hc|Hc];
    rewrite elem_of_cons in Hc; try done.
  - destruct (decide (k = k')) as [->|]; [tauto|]. tauto.
  - destruct Hc as [->|]; [by rewrite lookup_delete_eq|done].
  - apply lookup_delete_ne. intros ->. tauto.
Qed.

Lemma expired_in_flight s now :
  Forall (fun k => is_Some (in_flight s !! k))
    (filter (probe_expired s now) (sorted_keys (in_flight s))).
Proof.
  apply Forall_forall. intros k [_ Hk]%list_elem_of_filter.
  apply elem_of_keys. by rewrite <-sorted_keys_perm.
Qed.

Lemma expired_NoDup s now :
  NoDup (filter (probe_expired s now) (sorted_keys (in_flight s))).
Proof. apply NoDup_filter. rewrite sorted_keys_perm. apply NoDup_keys. Qed.

(** A sequence number not yet handed out is not in flight. *)
Lemma next_not_in_flight st : probe_inv st → in_flight st.1 !! next_seq st.1 = None.
Proof.
  intros [Hs Hi Hb]. apply eq_None_not_Some. intros Hk%elem_of_keys.
  assert (next_seq st.1 ∈ pl_issued st.2) as Hin by (rewrite Hb; set_solver).
  rewrite Hi in Hin. apply elem_of_seqZ in Hin. lia.
Qed.

Lemma probe_step_inv st call :
  probe_inv st → Z.of_nat (length (pl_issued st.2)) + 1 < 2 ^ 64 → probe_inv (probe_step st call).
Proof.
  intros Hinv Hb. pose proof (next_not_in_flight st Hinv) as Hfresh.
  destruct Hinv as [Hs Hi Hbal], st as [s lg]. simpl in *.
  destruct call as [now|seq now|now]; simpl.
  - constructor; simpl.
    + rewrite length_app. unfold wrapping_add. rewrite wrap_small; simpl; [lia|].
      unfold in_width. lia.
    + rewrite length_app, Nat2Z.inj_add, seqZ_app by lia. rewrite <-Hi. f_equal.
      simpl. rewrite Hs, Z.add_0_l. done.
    + rewrite Hbal, keys_insert by done. solve_Permutation.
  - unfold ProbeScheduler_on_ack. destruct (in_flight s !! seq) eqn:E; simpl.
    + constructor; simpl; [done..|]. rewrite Hbal, (keys_delete _ seq) by by eauto.
      solve_Permutation.
    + constructor; simpl; [done..|]. by rewrite app_nil_r.
  - constructor; simpl; [done..|].
    rewrite Hbal, (keys_delete_list (in_flight s) _ (expired_NoDup s now) (expired_in_flight s now)).
    by rewrite <-!(assoc_L (++)).
Qed.

Lemma probe_step_issued st call :
  (length (pl_issued (probe_step st call).2) <= length (pl_issued st.2) + 1)%nat.
Proof.
  destruct st as [s lg], call as [now|seq now|now]; simpl; [rewrite length_app; simpl; lia| |lia].
  unfold ProbeScheduler_on_ack. destruct (_ !! _); simpl; lia.
Qed.

Lemma probe_run_inv s calls :
  next_seq s = 0 → in_flight s = ∅ → Z.of_nat (length calls) < 2 ^ 64 →
  probe_inv (probe_run s calls) ∧
  (length (pl_issued (probe_run s calls).2) <= length calls)%nat.
Proof.
  intros Hs Hf. unfold probe_run. induction calls as [|call calls IH] using rev_ind; intros Hb.
  - simpl. split; [|lia]. constructor; simpl; [done|done|]. by rewrite Hf.
  - rewrite length_app in *. simpl in Hb. destruct IH as [IH Hl]; [lia|].
    rewrite foldl_app. simpl. set (st := foldl _ _ calls) in *.
    pose proof (probe_step_issued st call). split; [|lia]. apply probe_step_inv; [done|lia].
Qed.

(** ** Properties *)

(** Probe accounting: in any history of fewer than [2^64] calls from a new
    scheduler, the probes issued are [0, 1, 2, ...] without repetition, and
    every one of them is in exactly one of three places: acknowledged once,
    reported lost once, or still in flight.  So no probe feeds both an RTT
    sample and a loss sample, and none is counted twice. *)
Theorem probe_accounting (interval timeout : Z) (s : ProbeScheduler) (calls : list probe_call) :
  ProbeScheduler_new interval timeout = Some s → Z.of_nat (length calls) < 2 ^ 64 →
  let '(s', lg) := probe_run s calls in
  pl_issued lg = seqZ 0 (Z.of_nat (length (pl_issued lg))) ∧
  NoDup (pl_acked lg ++ pl_lost lg ++ keys (in_flight s')) ∧
  pl_issued lg ≡ₚ pl_acked lg ++ pl_lost lg ++ keys (in_flight s').
Proof.
  unfold ProbeScheduler_new. intros Hnew Hb. split_ifs_in Hnew; try discriminate.
  destruct (0 <? interval), (0 <? timeout); simplify_eq/=.
  destruct (probe_run_inv (mkProbeScheduler interval timeout None 0 ∅) calls) as [[_ Hi Hbal] _];
    [done..|].
  destruct (probe_run _ _) as [s' lg]. simpl in *. split_and!; [done| |done].
  rewrite <-Hbal, Hi. apply NoDup_seqZ.
Qed.

Example probe_accounting_witness :
  let '(s', lg) := probe_run (mkProbeScheduler 500000 2000000 None 0 ∅)
    [PIssue 0; PIssue 500000; PAck 0 600000; PDrain 2500000; PAck 1 2600000; PIssue 3000000] in
  pl_issued lg = [0; 1; 2] ∧ pl_acked lg = [0] ∧ pl_lost lg = [1] ∧
  NoDup (pl_acked lg ++ pl_lost lg ++ keys (in_flight s')).
Proof.
  pose proof (probe_accounting 500000 2000000 (mkProbeScheduler 500000 2000000 None 0 ∅)
    [PIssue 0; PIssue 500000; PAck 0 600000; PDrain 2500000; PAck 1 2600000; PIssue 3000000]
    eq_refl ltac:(vm_compute; reflexivity)) as H.
  destruct (probe_run _ _) as [s' lg] eqn:E. destruct H as (_ & H & _).
  vm_compute in E. injection E as <- <-. split_and!; [reflexivity..|exact H].
Defined.

(** [drain_timeouts] reports exactly the probes older than the timeout, in
    sequence order, and forgets exactly those; an acknowledgement that arrives
    for one of them afterwards is ignored, while one for a live probe yields
    the elapsed time (modulo [2^32] microseconds) and forgets it. *)
Theorem probe_drain_exact (s : ProbeScheduler) (now later seq : Z) :
  let '(s', lost) := ProbeScheduler_drain_timeouts s now in
  StronglySorted Z.le lost ∧
  (seq ∈ lost ↔ ∃ send, in_flight s !! seq = Some send ∧ timeout_us s <= saturating_sub now send) ∧
  (seq ∈ lost → ProbeScheduler_on_ack s' seq later = (s', None)) ∧
  (seq ∉ lost → ∀ send, in_flight s !! seq = Some send →
     ∃ s'', ProbeScheduler_on_ack s' seq later
            = (s'', Some (mkProbeAck seq (wrap 32 (saturating_sub later send)))) ∧
            in_flight s'' !! seq = None).
Proof.
  unfold ProbeScheduler_drain_timeouts. cbn zeta. split_and!.
  - apply sorted_filter, sorted_keys_sorted.
  - rewrite list_elem_of_filter, sorted_keys_perm, elem_of_keys. unfold probe_expired. split.
    + intros [Hx [send Hs]]. rewrite Hs in Hx. by eauto.
    + intros (send & -> & Hx). simpl. by eauto.
  - intros Hin. unfold ProbeScheduler_on_ack. cbn [in_flight].
    by rewrite lookup_delete_list, decide_True.
  - intros Hni send Hs. unfold ProbeScheduler_on_ack. cbn [in_flight].
    rewrite lookup_delete_list, decide_False, Hs by done. eexists. split; [done|].
    apply lookup_delete_eq.
Qed.
