(* ===== verification/Crypto.v ===== *)
(** * Crypto wrappers and the handshake cookie

    Models [desmos-proto/src/crypto] ([mod.rs], [aead.rs], [hkdf.rs],
    [x25519.rs]) and [handshake/cookie.rs].  The primitives of the [ring]
    crate are the class [RingCrypto]; the documented behaviour the code relies
    on is the class [RingLaws]. The scalar multiplication of
    [x25519_field.rs] is the class [X25519Ops]. *)

From stdpp Require Import base list gmap numbers strings.
From Stdlib Require Import ZArith Lia.
From S2P Require Import Prelude.

(** ** The [ring] crate *)

(** [aead_seal] and [aead_open] are ChaCha20-Poly1305 on key, nonce,
    associated data and buffer; [None] is ring's [Unspecified]. *)
Class RingCrypto := {
  ring_sha256 : bytes → bytes;
  ring_hmac_sha256 : bytes → bytes → bytes;
  ring_seal : bytes → bytes → bytes → bytes → option bytes;
  ring_open : bytes → bytes → bytes → bytes → option bytes;
}.

(** Documented behaviour: output lengths, ChaCha20-Poly1305 seals any input
    up to its limit, adding a 16-byte tag, and opens what it sealed. *)
Class RingLaws `{RC : RingCrypto} := {
  ring_sha256_len d : length (ring_sha256 d) = 32%nat;
  ring_hmac_len k d : length (ring_hmac_sha256 k d) = 32%nat;
  ring_seal_ok k n a p :
    Z.of_nat (length p) <= (2 ^ 32 - 1) * 64 →
    ∃ c, ring_seal k n a p = Some c ∧ length c = (length p + 16)%nat;
  ring_open_seal k n a p c : ring_seal k n a p = Some c → ring_open k n a c = Some p;
}.

(** ** [crypto/mod.rs] *)

Inductive CryptoError :=
| InvalidKeyLength
| InvalidNonceLength
| InvalidCiphertextLength
| AeadFailed
| X25519Failed
| HkdfFailed
| ShortOutput.

#[export] Instance CryptoError_eq_dec : EqDecision CryptoError.
Proof. solve_decision. Defined.

(** ** [crypto/aead.rs] *)

Definition KEY_LEN : nat := 32.
Definition NONCE_LEN : nat := 12.
Definition TAG_LEN : nat := 16.

Record AeadKey := mkAeadKey { aead_key : bytes }.

Section Wrappers.
  Context {RC : RingCrypto}.

Definition AeadKey_new (key_bytes : bytes) : result AeadKey CryptoError :=
  if negb (length key_bytes =? KEY_LEN)%nat then Err InvalidKeyLength
  else Ok (mkAeadKey key_bytes).

(** The buffer after the call. *)
Definition seal_in_place (k : AeadKey) (nonce aad buf : bytes) : result bytes CryptoError :=
  match ring_seal (aead_key k) nonce aad buf with
  | Some c => Ok c
  | None => Err AeadFailed
  end.

(** The plaintext region. *)
Definition open_in_place (k : AeadKey) (nonce aad buf : bytes) : result bytes CryptoError :=
  if (length buf <? TAG_LEN)%nat then Err InvalidCiphertextLength
  else match ring_open (aead_key k) nonce aad buf with
       | Some p => Ok p
       | None => Err AeadFailed
       end.

(** ** [crypto/hkdf.rs] *)

Definition PRK_LEN : nat := 32.

Definition hkdf_extract (salt ikm : bytes) : bytes :=
  let salt_bytes := if (length salt =? 0)%nat then replicate PRK_LEN 0 else salt in
  ring_hmac_sha256 salt_bytes ikm.

(** The [while] loop of [expand]: [out] holds the bytes written so far,
    [n] bounds the remaining iterations (the counter is a [u8]). *)
Fixpoint expand_loop (n : nat) (prk info : bytes) (out_len : nat) (prev out : bytes) (counter : Z)
  : result bytes CryptoError :=
  if (length out <? out_len)%nat then
    match n with
    | O => Err HkdfFailed
    | S n' =>
        let tb := ring_hmac_sha256 prk (prev ++ info ++ [counter]) in
        let remaining := (out_len - length out)%nat in
        let out := out ++ take (length tb `min` remaining) tb in
        match checked_add 8 counter 1 with
        | None => Err HkdfFailed
        | Some counter => expand_loop n' prk info out_len tb out counter
        end
    end
  else Ok out.

Definition hkdf_expand (prk info : bytes) (out_len : nat) : result bytes CryptoError :=
  if (255 * PRK_LEN <? out_len)%nat then Err HkdfFailed
  else expand_loop 256 prk info out_len [] [] 1.

Definition hkdf_derive (salt ikm info : bytes) (out_len : nat) : result bytes CryptoError :=
  let prk := hkdf_extract salt ikm in
  hkdf_expand prk info out_len.

End Wrappers.

(** ** [crypto/x25519.rs] *)

Definition PUBLIC_KEY_LEN : nat := 32.
Definition PRIVATE_KEY_LEN : nat := 32.

(** [scalarmult(out, scalar, point)] and [scalarmult_base] of
    [x25519_field.rs]. *)
Class X25519Ops := {
  scalarmult : bytes → bytes → bytes;
  scalarmult_base : bytes → bytes;
}.

Record X25519PrivateKey := mkPrivateKey { seed : bytes }.
Record PublicKey := mkPublicKey { pk_bytes : bytes }.

#[export] Instance PublicKey_eq_dec : EqDecision PublicKey.
Proof. solve_decision. Defined.

(** [rng] is what [SystemRandom::fill] yields: [None] when it fails. *)
Definition X25519PrivateKey_generate (rng : option bytes) : result X25519PrivateKey CryptoError :=
  match rng with
  | Some b => Ok (mkPrivateKey b)
  | None => Err X25519Failed
  end.

Section Dh.
  Context {XO : X25519Ops}.

Definition public_key (k : X25519PrivateKey) : PublicKey := mkPublicKey (scalarmult_base (seed k)).

Definition diffie_hellman (k : X25519PrivateKey) (peer : PublicKey) : bytes :=
  scalarmult (seed k) (pk_bytes peer).

(** The two ends compute the same shared secret. *)
Definition dh_agree (a b : X25519PrivateKey) : Prop :=
  diffie_hellman a (public_key b) = diffie_hellman b (public_key a).

Definition key_ok (k : X25519PrivateKey) : Prop := length (pk_bytes (public_key k)) = PUBLIC_KEY_LEN.

End Dh.

(** ** [handshake/cookie.rs] *)

Definition COOKIE_KEY_LEN : nat := 32.
Definition COOKIE_LEN : nat := 16.

Record CookieKey := mkCookieKey { cookie_key : bytes }.

Inductive CookieError := Rng.

Definition CookieKey_generate (rng : option bytes) : result CookieKey CookieError :=
  match rng with Some b => Ok (mkCookieKey b) | None => Err Rng end.

(** The byte string the cookie authenticates: [&ikm[..used]]. *)
Definition source_ikm (src : SocketAddr) : bytes :=
  match sa_ip src with
  | V4 octets => octets ++ to_be_bytes 2 (sa_port src) ++ [4]
  | V6 octets => octets ++ to_be_bytes 2 (sa_port src) ++ [6]
  end.

Section Cookie.
  Context {RC : RingCrypto}.

Definition hmac_over_source (key : CookieKey) (src : SocketAddr) : bytes :=
  hkdf_extract (cookie_key key) (source_ikm src).

Definition compute_cookie (key : CookieKey) (src : SocketAddr) : bytes :=
  take COOKIE_LEN (hmac_over_source key src).

(** The accumulated [diff] of the constant-time comparison. *)
Definition ct_diff (expected candidate : bytes) : Z :=
  foldl (fun diff i => Z.lor diff (Z.lxor (byte_at expected i) (byte_at candidate i))) 0
    (seq 0 COOKIE_LEN).

Definition verify_cookie (keys : list CookieKey) (src : SocketAddr) (candidate : bytes) : bool :=
  if negb (length candidate =? COOKIE_LEN)%nat then false
  else foldl (fun matched key => orb matched (ct_diff (compute_cookie key src) candidate =? 0))
         false keys.

End Cookie.

(** ** The reference definition of HKDF-Expand (RFC 5869) *)

Section HkdfSpec.
  Context {RC : RingCrypto}.

(** [T(i)] with [T(0)] empty. *)
Fixpoint rfc5869_T (prk info : bytes) (i : nat) : bytes :=
  match i with
  | O => []
  | S i' => ring_hmac_sha256 prk (rfc5869_T prk info i' ++ info ++ [Z.of_nat i])
  end.

(** [T(1) | T(2) | ... | T(n)]. *)
Definition rfc5869_okm (prk info : bytes) (n : nat) : bytes :=
  mjoin (rfc5869_T prk info <$> seq 1 n).

Context {RL : RingLaws}.

Lemma rfc5869_okm_S prk info n :
  rfc5869_okm prk info (S n) = rfc5869_okm prk info n ++ rfc5869_T prk info (S n).
Proof.
  unfold rfc5869_okm. rewrite seq_S, fmap_app. rewrite join_app. simpl. by rewrite app_nil_r.
Qed.

Lemma length_T prk info i : length (rfc5869_T prk info (S i)) = 32%nat.
Proof. apply ring_hmac_len. Qed.

Lemma length_okm prk info n : length (rfc5869_okm prk info n) = (32 * n)%nat.
Proof.
  induction n as [|n IH]; [done|]. rewrite rfc5869_okm_S, length_app, IH, length_T. lia.
Qed.

Lemma okm_prefix prk info len n m :
  (len <= 32 * n)%nat → (n <= m)%nat →
  take len (rfc5869_okm prk info m) = take len (rfc5869_okm prk info n).
Proof.
  intros Hl. induction 1 as [|m Hm IH]; [done|].
  by rewrite rfc5869_okm_S, take_app_le by (rewrite length_okm; lia).
Qed.

(** One more block appended to a prefix that holds [i] whole blocks. *)
Lemma okm_append prk info len i :
  (32 * i < len)%nat →
  rfc5869_okm prk info i ++ take (32 `min` (len - 32 * i)) (rfc5869_T prk info (S i))
  = take len (rfc5869_okm prk info (S i)).
Proof.
  intros Hlt. rewrite rfc5869_okm_S, take_app, length_okm.
  rewrite (take_ge (rfc5869_okm prk info i)) by (rewrite length_okm; lia). f_equal.
  destruct (decide (len - 32 * i <= 32)%nat); [by rewrite Nat.min_r by lia|].
  rewrite !take_ge; rewrite ?length_T; lia || done.
Qed.

(** The loop after [i] blocks, with [i + 1] in the counter. *)
Lemma expand_loop_spec fuel prk info len i :
  (fuel + i = 256)%nat → (i <= 254)%nat →
  expand_loop fuel prk info len (rfc5869_T prk info i) (take len (rfc5869_okm prk info i))
    (Z.of_nat (S i))
  = if decide (len <= 32 * 254)%nat then Ok (take len (rfc5869_okm prk info 254))
    else Err HkdfFailed.
Proof.
  revert i. induction fuel as [|fuel IH]; intros i Hfi Hi; [lia|]. cbn [expand_loop].
  rewrite length_take, length_okm.
  destruct (Nat.ltb_spec (len `min` (32 * i)) len) as [Hlt|Hge].
  2:{ rewrite decide_True by lia. by rewrite (okm_prefix _ _ len i 254) by lia. }
  change (ring_hmac_sha256 prk (rfc5869_T prk info i ++ info ++ [Z.of_nat (S i)]))
    with (rfc5869_T prk info (S i)). rewrite length_T.
  rewrite (take_ge (rfc5869_okm prk info i)) by (rewrite length_okm; lia).
  replace (len `min` (32 * i))%nat with (32 * i)%nat by lia. rewrite okm_append by lia.
  unfold checked_add. change (umax 8) with 255.
  destruct (Z.leb_spec (Z.of_nat (S i) + 1) 255).
  - replace (Z.of_nat (S i) + 1) with (Z.of_nat (S (S i))) by lia. apply IH; lia.
  - rewrite decide_False by lia. done.
Qed.

Lemma hkdf_expand_eq prk info len :
  hkdf_expand prk info len =
  if decide (len <= 32 * 254)%nat then Ok (take len (rfc5869_okm prk info 254)) else Err HkdfFailed.
Proof.
  unfold hkdf_expand, PRK_LEN. destruct (Nat.ltb_spec (255 * 32) len).
  - rewrite decide_False by lia. done.
  - rewrite <-(expand_loop_spec 256 prk info len 0) by lia.
    change (rfc5869_okm prk info 0) with (@nil Z). by rewrite take_nil.
Qed.

Lemma hkdf_derive_ok salt ikm info len :
  (len <= 32 * 254)%nat →
  ∃ okm, hkdf_derive salt ikm info len = Ok okm ∧ length okm = len.
Proof.
  intros Hl. unfold hkdf_derive. rewrite hkdf_expand_eq, decide_True by done. eexists. split; [done|].
  rewrite length_take, length_okm. lia.
Qed.

(** HKDF-Expand returns the RFC 5869 output, truncated to the requested
    length, exactly up to [254 * 32] bytes; from [8129] to [8160] bytes, which
    the RFC and the function's documentation allow, the block counter
    overflows after the last block and the call fails. *)
Theorem hkdf_expand_rfc5869 (prk info : bytes) (len : nat) :
  ((len <= 32 * 254)%nat ↔ hkdf_expand prk info len ≠ Err HkdfFailed) ∧
  ((len <= 32 * 254)%nat →
     hkdf_expand prk info len = Ok (take len (rfc5869_okm prk info 255)) ∧
     length (take len (rfc5869_okm prk info 255)) = len).
Proof.
  rewrite hkdf_expand_eq. split.
  { case_decide as Hd; split; [intros _; discriminate|intros _; exact Hd|intros Hd'; by destruct Hd|].
    intros Hne. by destruct Hne. }
  intros Hl. rewrite decide_True by done. rewrite (okm_prefix _ _ len 254 255) by lia.
  split; [done|]. rewrite length_take, length_okm. lia.
Qed.

End HkdfSpec.

(** ** A concrete instance

    A checksum stands for the hash; the laws hold and a changed key, nonce or
    ciphertext is detected when the checksum differs. *)

Definition demo_checksum (d : bytes) : Z := foldl (fun a b => (a * 31 + b) mod 256) 7 d.
Definition demo_hash (d : bytes) : bytes := (fun i => demo_checksum (i :: d)) <$> seqZ 0 32.
Definition demo_tag (k n a p : bytes) : bytes := take 16 (demo_hash (k ++ n ++ a ++ p)).

Lemma length_demo_hash d : length (demo_hash d) = 32%nat.
Proof. unfold demo_hash. by rewrite length_fmap, length_seqZ. Qed.

Lemma length_demo_tag k n a p : length (demo_tag k n a p) = 16%nat.
Proof. unfold demo_tag. rewrite length_take, length_demo_hash. lia. Qed.

#[export] Instance demo_ring : RingCrypto := {|
  ring_sha256 := demo_hash;
  ring_hmac_sha256 k d := demo_hash (k ++ d);
  ring_seal k n a p := Some (p ++ demo_tag k n a p);
  ring_open k n a c :=
    let p := take (length c - 16) c in
    if decide (c = p ++ demo_tag k n a p) then Some p else None;
|}.

#[export] Instance demo_ring_laws : RingLaws (RC := demo_ring).
Proof.
  constructor.
  - exact length_demo_hash.
  - intros k d. exact (length_demo_hash (k ++ d)).
  - intros k n a p _. exists (p ++ demo_tag k n a p). split; [done|].
    by rewrite length_app, length_demo_tag.
  - intros k n a p c [= <-]. cbn [ring_open demo_ring]. cbn zeta. rewrite length_app, length_demo_tag.
    replace (length p + 16 - 16)%nat with (length p) by lia. rewrite take_app_length.
    by rewrite decide_True.
Qed.

(** A commutative stand-in for the scalar multiplication. *)
#[export] Instance demo_x25519 : X25519Ops := {|
  scalarmult s p := zip_with (fun a b => (a * b) mod 256) s p;
  scalarmult_base s := (fun a => (a * 9) mod 256) <$> s;
|}.

Example hkdf_expand_rfc5869_witness :
  hkdf_expand (RC := demo_ring) (demo_hash [1]) [] 40 =
    Ok (take 40 (rfc5869_okm (demo_hash [1]) [] 255)).
Proof.
  apply (hkdf_expand_rfc5869 (RC := demo_ring) (demo_hash [1]) [] 40). lia.
Defined.

(** ** The cookie *)

Section CookieProps.
  Context {RC : RingCrypto} {RL : RingLaws}.

Lemma lor_zero a b : Z.lor a b = 0 ↔ a = 0 ∧ b = 0.
Proof. apply Z.lor_eq_0_iff. Qed.

Lemma ct_fold_zero expected candidate l acc :
  foldl (fun diff i => Z.lor diff (Z.lxor (byte_at expected i) (byte_at candidate i))) acc l = 0 ↔
  acc = 0 ∧ Forall (fun i => byte_at expected i = byte_at candidate i) l.
Proof.
  revert acc. induction l as [|i l IH]; intros acc; simpl.
  - split; [by intros ->|by intros [-> _]].
  - rewrite IH, Z.lor_eq_0_iff, Z.lxor_eq_0_iff, Forall_cons. tauto.
Qed.

(** The constant-time comparison is equality of 16-byte strings. *)
Lemma ct_diff_zero a b :
  length a = COOKIE_LEN → length b = COOKIE_LEN → ct_diff a b = 0 ↔ a = b.
Proof.
  intros Ha Hb. unfold ct_diff. rewrite ct_fold_zero. split; [|intros ->; split; [done|by apply Forall_true]].
  intros [_ Hf]. rewrite Forall_forall in Hf.
  apply list_eq_same_length with (n := COOKIE_LEN); [done..|].
  intros i x y Hi Hx Hy. specialize (Hf i). unfold byte_at in Hf. rewrite Hx, Hy in Hf.
  apply Hf. apply elem_of_seq. lia.
Qed.

Lemma length_cookie key src : length (compute_cookie key src) = COOKIE_LEN.
Proof. unfold compute_cookie, hmac_over_source, hkdf_extract. rewrite length_take, ring_hmac_len. done. Qed.

Lemma fold_orb {A} (f : A → bool) l acc :
  foldl (fun m x => orb m (f x)) acc l = true ↔ acc = true ∨ ∃ x, x ∈ l ∧ f x = true.
Proof.
  revert acc. induction l as [|x l IH]; intros acc; simpl.
  - split; [by left|]. intros [?|(x & Hx & _)]; [done|]. by apply not_elem_of_nil in Hx.
  - rewrite IH, orb_true_iff. split.
    + intros [[?|?]|(y & Hy & Hf)]; [by left| |]; right; eexists; (split; [|done]); set_solver.
    + intros [?|(y & [->|Hy]%elem_of_cons & Hf)]; [by left; left|by left; right|].
      right. by exists y.
Qed.

(** The encoding the cookie authenticates tells two sources apart. *)
Definition addr_ok (src : SocketAddr) : Prop :=
  in_width 16 (sa_port src) ∧
  match sa_ip src with V4 o => length o = 4%nat | V6 o => length o = 16%nat end.

Lemma source_ikm_inj s1 s2 : addr_ok s1 → addr_ok s2 → source_ikm s1 = source_ikm s2 → s1 = s2.
Proof.
  destruct s1 as [[o1|o1] p1], s2 as [[o2|o2] p2]; intros [Hp1 Ho1] [Hp2 Ho2]; simpl in *;
    unfold source_ikm; cbn [sa_ip sa_port]; intros E.
  2,3: apply (f_equal length) in E; rewrite !length_app, !length_to_be_bytes in E; simpl in E; lia.
  all: apply app_inj_1 in E as [-> E]; [|congruence];
    apply app_inj_1 in E as [E _]; [|by rewrite !length_to_be_bytes];
    apply to_be_bytes_inj in E; [by subst|done..].
Qed.

(** A cookie is accepted exactly when it is the 16-byte cookie one of the
    live keys mints for the claimed source address; the accumulating
    constant-time comparison is byte equality, and the authenticated string
    determines the address, family and port, so a cookie minted for one source
    authenticates no other message of the HMAC. *)
Theorem verify_cookie_exact (keys : list CookieKey) (src : SocketAddr) (candidate : bytes) :
  (verify_cookie keys src candidate = true ↔ ∃ key, key ∈ keys ∧ candidate = compute_cookie key src) ∧
  (∀ src', addr_ok src → addr_ok src' → source_ikm src = source_ikm src' → src = src').
Proof.
  split; [|intros src'; apply source_ikm_inj].
  unfold verify_cookie. destruct (Nat.eqb_spec (length candidate) COOKIE_LEN) as [Hl|Hl]; simpl.
  - rewrite fold_orb. setoid_rewrite Z.eqb_eq. split.
    + intros [?|(key & Hk & Hd)]; [done|]. exists key. split; [done|].
      apply ct_diff_zero in Hd; [done|apply length_cookie|done].
    + intros (key & Hk & ->). right. exists key. split; [done|].
      apply ct_diff_zero; [apply length_cookie..|done].
  - split; [done|]. intros (key & _ & ->). by rewrite length_cookie in Hl.
Qed.

End CookieProps.

Example verify_cookie_exact_witness :
  let src := mkSocketAddr (V4 [192; 0; 2; 1]) 51820 in
  let keys := [mkCookieKey (replicate 32 1); mkCookieKey (replicate 32 2)] in
  verify_cookie keys src (compute_cookie (mkCookieKey (replicate 32 2)) src) = true.
Proof.
  intros src keys.
  apply (verify_cookie_exact keys src (compute_cookie (mkCookieKey (replicate 32 2)) src)).
  exists (mkCookieKey (replicate 32 2)). split; [right; left|reflexivity].
Defined.
