(* ===== verification/X25519.v ===== *)
(** * X25519

    [desmos-proto/src/crypto/x25519_field.rs]: scalar multiplication on
    Curve25519 with field elements of sixteen [i64] limbs of 16 bits.  Every
    arithmetic operation is at its width: [i64] is the wrap-around of a signed
    64-bit result.  The theorems evaluate limbs modulo [p = 2^255 - 19] and
    show that [scalarmult] computes the function of RFC 7748, section 5, which
    is written here from the RFC.  They state results of the wrapping
    arithmetic, not that no intermediate value leaves the [i64] range. *)

From stdpp Require Import base numbers list.
From Stdlib Require Import ZArith Lia.
From S2P Require Import Prelude Crypto.

(** ** Signed 64-bit integers *)

(** The value an [i64] operation stores for the exact result [x]: two's
    complement, decided first for the results that fit. *)
Definition i64 (x : Z) : Z :=
  if (-9223372036854775808 <=? x) && (x <=? 9223372036854775807) then x
  else (x + 2 ^ 63) mod 2 ^ 64 - 2 ^ 63.

(** ** Field elements *)

(** [[i64; 16]]: a list of sixteen limbs. *)
Abbreviation Fe := (list Z).

Definition limb (o : Fe) (i : nat) : Z := default 0 (o !! i).

Definition ZERO : Fe := replicate 16 0.

Definition GF_121665 : Fe := <[1%nat := 1]> (<[0%nat := 0xDB41]> (replicate 16 0)).

(** One iteration of the loop of [carry]. *)
Definition carry_step (o : Fe) (i : nat) : Fe :=
  let o := <[i := i64 (limb o i + Z.shiftl 1 16)]> o in
  let c := Z.shiftr (limb o i) 16 in
  let o := if (i <? 15)%nat then <[(i + 1)%nat := i64 (limb o (i + 1) + i64 (c - 1))]> o
           else <[0%nat := i64 (limb o 0 + i64 (38 * i64 (c - 1)))]> o in
  <[i := i64 (limb o i - i64 (Z.shiftl c 16))]> o.

Definition carry (o : Fe) : Fe := foldl carry_step o (seq 0 16).

Definition constant_time_swap (p q : Fe) (b : Z) : Fe * Fe :=
  let c := Z.lnot (i64 (b - 1)) in
  let t := zip_with (fun x y => Z.land c (Z.lxor x y)) p q in
  (zip_with Z.lxor p t, zip_with Z.lxor q t).

(** One iteration of the subtraction of [p] in [pack], for limbs 1 to 14. *)
Definition pack_sub_step (t m : Fe) (i : nat) : Fe :=
  let m := <[i := i64 (i64 (limb t i - 0xffff) - Z.land (Z.shiftr (limb m (i - 1)) 16) 1)]> m in
  <[(i - 1)%nat := Z.land (limb m (i - 1)) 0xffff]> m.

(** [t - p] and the borrow out of the top limb. *)
Definition pack_sub (t : Fe) : Fe * Z :=
  let m := ZERO in
  let m := <[0%nat := i64 (limb t 0 - 0xffed)]> m in
  let m := foldl (pack_sub_step t) m (seq 1 14) in
  let m := <[15%nat := i64 (i64 (limb t 15 - 0x7fff) - Z.land (Z.shiftr (limb m 14) 16) 1)]> m in
  let b := Z.land (Z.shiftr (limb m 15) 16) 1 in
  let m := <[14%nat := Z.land (limb m 14) 0xffff]> m in
  (m, b).

(** One round of the conditional subtraction. *)
Definition pack_round (t : Fe) : Fe :=
  let '(m, b) := pack_sub t in (constant_time_swap t m (1 - b)).1.

Definition pack (n : Fe) : bytes :=
  let t := carry (carry (carry n)) in
  let t := pack_round (pack_round t) in
  flat_map (fun i => [Z.land (limb t i) 0xff; Z.land (Z.shiftr (limb t i) 8) 0xff]) (seq 0 16).

Definition unpack (n : bytes) : Fe :=
  let o := (fun i => byte_at n (2 * i) + Z.shiftl (byte_at n (2 * i + 1)) 8) <$> seq 0 16 in
  <[15%nat := Z.land (limb o 15) 0x7fff]> o.

Definition fadd (a b : Fe) : Fe := zip_with (fun x y => i64 (x + y)) a b.

Definition fsub (a b : Fe) : Fe := zip_with (fun x y => i64 (x - y)) a b.

(** [t[i + j] += a[i] * b[j]]. *)
Definition fmul_step (a b : Fe) (t : list Z) (i j : nat) : list Z :=
  <[(i + j)%nat := i64 (limb t (i + j) + i64 (limb a i * limb b j))]> t.

Definition fmul_product (a b : Fe) : list Z :=
  foldl (fun t i => foldl (fun t j => fmul_step a b t i j) t (seq 0 16)) (replicate 31 0) (seq 0 16).

(** [t[i] += 38 * t[i + 16]]. *)
Definition fmul_fold (t : list Z) : list Z :=
  foldl (fun t i => <[i := i64 (limb t i + i64 (38 * limb t (i + 16)))]> t) t (seq 0 15).

Definition fmul (a b : Fe) : Fe := carry (carry (take 16 (fmul_fold (fmul_product a b)))).

Definition fsqr (a : Fe) : Fe := fmul a a.

Definition finv (i : Fe) : Fe :=
  foldl (fun c a =>
           let c := fsqr c in
           if negb (a =? 2)%nat && negb (a =? 4)%nat then fmul c i else c)
        i (rev (seq 0 254)).

(** ** The ladder *)

Record Ladder := mkLadder { la : Fe; lb : Fe; lc : Fe; ld : Fe }.

(** The arithmetic between the two swaps of an iteration. *)
Definition ladder_arith (x : Fe) (s : Ladder) : Ladder :=
  let '(mkLadder a b c d) := s in
  let e := fadd a c in
  let a := fsub a c in
  let c := fadd b d in
  let b := fsub b d in
  let d := fsqr e in
  let f := fsqr a in
  let a := fmul c a in
  let c := fmul b e in
  let e := fadd a c in
  let a := fsub a c in
  let b := fsqr a in
  let c := fsub d f in
  let a := fmul c GF_121665 in
  let a := fadd a d in
  let c := fmul c a in
  let a := fmul d f in
  let d := fmul b x in
  let b := fsqr e in
  mkLadder a b c d.

Definition ladder_swap (r : Z) (s : Ladder) : Ladder :=
  let '(a, b) := constant_time_swap (la s) (lb s) r in
  let '(c, d) := constant_time_swap (lc s) (ld s) r in
  mkLadder a b c d.

Definition ladder_step (z : bytes) (x : Fe) (s : Ladder) (i : nat) : Ladder :=
  let r := Z.land (Z.shiftr (byte_at z (i / 8)) (Z.of_nat (i mod 8))) 1 in
  ladder_swap r (ladder_arith x (ladder_swap r s)).

(** The clamped scalar. *)
Definition clamp (n : bytes) : bytes :=
  let z := copy_from_slice (replicate 32 0) 0 (take 31 n) in
  let z := <[31%nat := Z.lor (Z.land (byte_at n 31) 127) 64]> z in
  <[0%nat := Z.land (byte_at z 0) 248]> z.

Definition x25519_scalarmult (n p : bytes) : bytes :=
  let z := clamp n in
  let x := unpack p in
  let s := mkLadder (<[0%nat := 1]> ZERO) x ZERO (<[0%nat := 1]> ZERO) in
  let s := foldl (ladder_step z x) s (rev (seq 0 255)) in
  pack (fmul (la s) (finv (lc s))).

Definition x25519_scalarmult_base (n : bytes) : bytes :=
  x25519_scalarmult n (<[0%nat := 9]> (replicate 32 0)).

(** ** The reference: RFC 7748, section 5 *)

Definition P25519 : Z := 2 ^ 255 - 19.

Record RfcState := mkRfc { x_2 : Z; z_2 : Z; x_3 : Z; z_3 : Z; swap : Z }.

Definition cswap (swap : Z) (x y : Z) : Z * Z := if swap =? 1 then (y, x) else (x, y).

(** The body of the RFC's loop for bit [t] of the scalar [k]; arithmetic is
    modulo [P25519]. *)
Definition rfc_step (k x_1 : Z) (s : RfcState) (t : nat) : RfcState :=
  let k_t := Z.land (Z.shiftr k (Z.of_nat t)) 1 in
  let sw := Z.lxor (swap s) k_t in
  let '(x2, x3) := cswap sw (x_2 s) (x_3 s) in
  let '(z2, z3) := cswap sw (z_2 s) (z_3 s) in
  let A := (x2 + z2) mod P25519 in
  let AA := (A * A) mod P25519 in
  let B := (x2 - z2) mod P25519 in
  let BB := (B * B) mod P25519 in
  let E := (AA - BB) mod P25519 in
  let C := (x3 + z3) mod P25519 in
  let D := (x3 - z3) mod P25519 in
  let DA := (D * A) mod P25519 in
  let CB := (C * B) mod P25519 in
  mkRfc ((AA * BB) mod P25519) ((E * (AA + 121665 * E)) mod P25519)
        (((DA + CB) * (DA + CB)) mod P25519) ((x_1 * ((DA - CB) * (DA - CB))) mod P25519) k_t.

(** Modular exponentiation by squaring. *)
Fixpoint pow_mod (b : Z) (e : positive) : Z :=
  match e with
  | xH => b mod P25519
  | xO e => let r := pow_mod b e in (r * r) mod P25519
  | xI e => let r := pow_mod b e in (r * r * b) mod P25519
  end.

Definition rfc_x25519 (k u : Z) : Z :=
  let s := foldl (rfc_step k u) (mkRfc 1 0 u 1 0) (rev (seq 0 255)) in
  let '(x2, _) := cswap (swap s) (x_2 s) (x_3 s) in
  let '(z2, _) := cswap (swap s) (z_2 s) (z_3 s) in
  (x2 * pow_mod z2 (Z.to_pos (P25519 - 2))) mod P25519.

(** Little-endian integers of a byte string. *)
Definition from_le_bytes (bs : bytes) : Z := foldr (fun b acc => b + 256 * acc) 0 bs.

Fixpoint to_le_bytes (n : nat) (x : Z) : bytes :=
  match n with O => [] | S n => x mod 256 :: to_le_bytes n (x / 256) end.

(** [decodeScalar25519] and [decodeUCoordinate] of the RFC. *)
Definition decode_scalar (n : bytes) : Z :=
  let n := <[0%nat := Z.land (byte_at n 0) 248]> n in
  let n := <[31%nat := Z.lor (Z.land (byte_at n 31) 127) 64]> n in
  from_le_bytes n.

Definition decode_u (p : bytes) : Z := from_le_bytes p mod 2 ^ 255.

Definition rfc_scalarmult (n p : bytes) : bytes := to_le_bytes 32 (rfc_x25519 (decode_scalar n) (decode_u p)).

(** ** Lemmas: evaluation of limbs *)

Lemma i64_small x : -2 ^ 63 <= x < 2 ^ 63 → i64 x = x.
Proof.
  intros H. unfold i64. change (2 ^ 63) with 9223372036854775808 in *.
  destruct (Z.leb_spec (-9223372036854775808) x); [|lia].
  by destruct (Z.leb_spec x 9223372036854775807); [|lia].
Qed.

(** [i64] is two's complement reduction. *)
Lemma i64_spec x : i64 x = (x + 2 ^ 63) mod 2 ^ 64 - 2 ^ 63.
Proof.
  unfold i64. destruct ((_ <=? x) && (x <=? _)) eqn:E; [|done].
  apply andb_prop in E as [E1%Z.leb_le E2%Z.leb_le]. rewrite Z.mod_small; lia.
Qed.

Fixpoint eval (l : list Z) : Z := match l with [] => 0 | x :: r => x + 2 ^ 16 * eval r end.

Lemma eval_app l k : eval (l ++ k) = eval l + 2 ^ (16 * Z.of_nat (length l)) * eval k.
Proof.
  induction l as [|x l IH]; cbn [app eval length]; [change (2 ^ (16 * Z.of_nat 0)) with 1; lia|].
  rewrite IH. replace (16 * Z.of_nat (S (length l))) with (16 + 16 * Z.of_nat (length l)) by lia.
  rewrite Z.pow_add_r by lia. lia.
Qed.

Lemma eval_insert l k v :
  (k < length l)%nat → eval (<[k := v]> l) = eval l + (v - limb l k) * 2 ^ (16 * Z.of_nat k).
Proof.
  revert k. induction l as [|x l IH]; intros k Hk; [cbn in Hk; lia|].
  destruct k as [|k].
  - change (eval (<[0%nat := v]> (x :: l))) with (v + 2 ^ 16 * eval l).
    change (limb (x :: l) 0) with x. change (2 ^ (16 * Z.of_nat 0)) with 1. cbn [eval]. lia.
  - change (eval (<[S k := v]> (x :: l))) with (x + 2 ^ 16 * eval (<[k := v]> l)).
    change (limb (x :: l) (S k)) with (limb l k). cbn [eval length] in *. rewrite IH by lia.
    replace (16 * Z.of_nat (S k)) with (16 + 16 * Z.of_nat k) by lia.
    rewrite Z.pow_add_r by lia. lia.
Qed.

Lemma eval_zip f g h a b :
  (∀ x y, h x y = f * x + g * y) → length a = length b →
  eval (zip_with h a b) = f * eval a + g * eval b.
Proof.
  intros Hh. revert b. induction a as [|x a IH]; intros [|y b] Hl; try done; cbn [zip_with eval]; [lia|].
  rewrite Hh, IH by (by injection Hl). lia.
Qed.

(** Limbs of magnitude at most [B]. *)
Definition bounded (B : Z) (l : list Z) : Prop := Forall (fun x => -B <= x <= B) l.

Lemma bounded_mono B B' l : bounded B l → B <= B' → bounded B' l.
Proof. intros H Hb. eapply Forall_impl; [exact H|]. cbn. lia. Qed.

Lemma bounded_limb B l i : bounded B l → 0 <= B → -B <= limb l i <= B.
Proof.
  intros H HB. unfold limb. destruct (l !! i) as [x|] eqn:E; cbn; [|lia].
  by apply (Forall_lookup_1 _ _ _ _ H E).
Qed.

Lemma bounded_insert B l i v : bounded B l → -B <= v <= B → bounded B (<[i := v]> l).
Proof. intros H Hv. by apply Forall_insert. Qed.

(** A limb list of the right shape. *)
Definition fe_ok (B : Z) (a : Fe) : Prop := length a = 16%nat ∧ bounded B a.

(** Congruence modulo the prime. *)
Definition eqp (x y : Z) : Prop := x mod P25519 = y mod P25519.

#[export] Instance eqp_equiv : Equivalence eqp.
Proof. unfold eqp. split; [done|intros ? ? ->; done|intros ? ? ? -> ->; done]. Qed.

#[export] Instance eqp_add : Proper (eqp ==> eqp ==> eqp) Z.add.
Proof. intros a b H c d H'. unfold eqp in *. by rewrite Z.add_mod, H, H', <- Z.add_mod by done. Qed.

#[export] Instance eqp_mul : Proper (eqp ==> eqp ==> eqp) Z.mul.
Proof. intros a b H c d H'. unfold eqp in *. by rewrite Z.mul_mod, H, H', <- Z.mul_mod by done. Qed.

#[export] Instance eqp_sub : Proper (eqp ==> eqp ==> eqp) Z.sub.
Proof. intros a b H c d H'. unfold eqp in *. by rewrite Zminus_mod, H, H', <- Zminus_mod by done. Qed.

Lemma eqp_mod x : eqp (x mod P25519) x.
Proof. unfold eqp. by apply Z.mod_mod. Qed.

Lemma eqp_intro x y k : x = y + k * P25519 → eqp x y.
Proof. intros ->. unfold eqp. by rewrite Z.mod_add. Qed.

(** ** Lemmas: carry *)

Lemma limb_at pre x rest : limb (pre ++ x :: rest) (length pre) = x.
Proof. unfold limb. by rewrite list_lookup_middle. Qed.

Lemma limb_next pre x y rest : limb (pre ++ x :: y :: rest) (length pre + 1) = y.
Proof.
  replace (pre ++ x :: y :: rest) with ((pre ++ [x]) ++ y :: rest) by (by rewrite <- app_assoc).
  replace (length pre + 1)%nat with (length (pre ++ [x])) by (rewrite length_app; cbn; lia).
  apply limb_at.
Qed.

Lemma set_at (pre : list Z) x v rest : <[length pre := v]> (pre ++ x :: rest) = pre ++ v :: rest.
Proof. rewrite <- (Nat.add_0_r (length pre)). by rewrite insert_app_r. Qed.

Lemma set_next (pre : list Z) x y v rest :
  <[(length pre + 1)%nat := v]> (pre ++ x :: y :: rest) = pre ++ x :: v :: rest.
Proof. by rewrite insert_app_r. Qed.

Lemma shiftr16 x : Z.shiftr (x + 2 ^ 16) 16 = x / 2 ^ 16 + 1.
Proof.
  rewrite Z.shiftr_div_pow2 by lia. replace (x + 2 ^ 16) with (x + 1 * 2 ^ 16) by lia.
  by rewrite Z.div_add by lia.
Qed.

Lemma div16_bound B x : 0 <= B → -(B * 2 ^ 16) <= x <= B * 2 ^ 16 → -B <= x / 2 ^ 16 <= B.
Proof.
  intros HB Hx. split.
  - apply Z.div_le_lower_bound; lia.
  - apply Z.div_le_upper_bound; lia.
Qed.

(** One step moves the carry to the next limb. *)
Lemma carry_step_next pre x y rest :
  (length pre < 15)%nat → -2 ^ 62 <= x <= 2 ^ 62 → -2 ^ 62 <= y <= 2 ^ 62 →
  carry_step (pre ++ x :: y :: rest) (length pre) = pre ++ x mod 2 ^ 16 :: y + x / 2 ^ 16 :: rest.
Proof.
  intros Hi Hx Hy. pose proof (div16_bound (2 ^ 46) x ltac:(lia) ltac:(lia)) as Hq.
  unfold carry_step. change (Z.shiftl 1 16) with (2 ^ 16). destruct (Nat.ltb_spec (length pre) 15); [|lia].
  rewrite !limb_at, !set_at, !limb_at, !limb_next, !set_next, !limb_at, !set_at.
  rewrite (i64_small (x + 2 ^ 16)) by lia.
  rewrite shiftr16, Z.shiftl_mul_pow2 by lia. replace (x / 2 ^ 16 + 1 - 1) with (x / 2 ^ 16) by lia.
  rewrite (i64_small (x / 2 ^ 16)), (i64_small (y + _)), (i64_small ((x / 2 ^ 16 + 1) * 2 ^ 16)) by lia.
  replace (x + 2 ^ 16 - (x / 2 ^ 16 + 1) * 2 ^ 16) with (x mod 2 ^ 16).
  2:{ rewrite Z.mod_eq by lia. lia. }
  pose proof (Z.mod_pos_bound x (2 ^ 16) ltac:(lia)). by rewrite i64_small by lia.
Qed.

(** The carry out of the last limb, times 38, goes to limb 0. *)
Definition fixup (l : Fe) (c : Z) : Fe := <[0%nat := limb l 0 + 38 * c]> l.

Lemma carry_step_last pre x :
  length pre = 15%nat → -2 ^ 62 <= x <= 2 ^ 62 → -2 ^ 62 <= limb pre 0 <= 2 ^ 62 →
  carry_step (pre ++ [x]) 15 = fixup (pre ++ [x mod 2 ^ 16]) (x / 2 ^ 16).
Proof.
  intros Hl Hx H0. pose proof (div16_bound (2 ^ 46) x ltac:(lia) ltac:(lia)) as Hq.
  destruct pre as [|p0 pre]; [done|]. change (limb (p0 :: pre) 0) with p0 in H0.
  assert (Hset : ∀ v r, <[0%nat := v]> ((p0 :: pre) ++ r) = (v :: pre) ++ r) by done.
  assert (Hget : ∀ r, limb ((p0 :: pre) ++ r) 0 = p0) by done.
  unfold carry_step, fixup. change (Z.shiftl 1 16) with (2 ^ 16). cbn [Nat.ltb Nat.leb]. rewrite <- Hl.
  rewrite !limb_at, !set_at, !limb_at, !Hget, !Hset.
  rewrite (i64_small (x + 2 ^ 16)) by lia.
  rewrite shiftr16, Z.shiftl_mul_pow2 by lia. replace (x / 2 ^ 16 + 1 - 1) with (x / 2 ^ 16) by lia.
  rewrite (i64_small (x / 2 ^ 16)), (i64_small (38 * _)), (i64_small (p0 + _)), (i64_small ((x / 2 ^ 16 + 1) * 2 ^ 16)) by lia.
  set (h := p0 + 38 * (x / 2 ^ 16)).
  change (length (p0 :: pre)) with (length (h :: pre)). rewrite limb_at, set_at.
  replace (x + 2 ^ 16 - (x / 2 ^ 16 + 1) * 2 ^ 16) with (x mod 2 ^ 16).
  2:{ rewrite Z.mod_eq by lia. lia. }
  pose proof (Z.mod_pos_bound x (2 ^ 16) ltac:(lia)). by rewrite i64_small by lia.
Qed.

(** Carrying through a list, and the carry out of it. *)
Fixpoint chain (l : list Z) (c : Z) : list Z :=
  match l with [] => [] | x :: r => (x + c) mod 2 ^ 16 :: chain r ((x + c) / 2 ^ 16) end.

Fixpoint chain_out (l : list Z) (c : Z) : Z :=
  match l with [] => c | x :: r => chain_out r ((x + c) / 2 ^ 16) end.

Definition digits (l : list Z) : Prop := Forall (fun x => 0 <= x < 2 ^ 16) l.

Lemma length_chain l c : length (chain l c) = length l.
Proof. revert c. induction l as [|x l IH]; intros c; cbn [chain length]; [done|]. by rewrite IH. Qed.

Lemma chain_digits l c : digits (chain l c).
Proof.
  revert c. induction l as [|x l IH]; intros c; constructor; [|apply IH].
  apply Z.mod_pos_bound. lia.
Qed.

Lemma eval_chain l c :
  eval l + c = eval (chain l c) + 2 ^ (16 * Z.of_nat (length l)) * chain_out l c.
Proof.
  revert c. induction l as [|x l IH]; intros c; cbn [eval chain chain_out length].
  - change (2 ^ (16 * Z.of_nat 0)) with 1. lia.
  - specialize (IH ((x + c) / 2 ^ 16)).
    replace (16 * Z.of_nat (S (length l))) with (16 + 16 * Z.of_nat (length l)) by lia.
    rewrite Z.pow_add_r by lia. pose proof (Z.div_mod (x + c) (2 ^ 16) ltac:(lia)).
    set (q := (x + c) / 2 ^ 16) in *. nia.
Qed.

Lemma carry_loop rest pre x :
  (length pre + S (length rest) = 16)%nat → -2 ^ 61 <= x <= 2 ^ 61 → bounded (2 ^ 60) rest →
  -2 ^ 62 <= limb pre 0 <= 2 ^ 62 →
  foldl carry_step (pre ++ x :: rest) (seq (length pre) (S (length rest)))
  = fixup (pre ++ chain (x :: rest) 0) (chain_out (x :: rest) 0).
Proof.
  revert pre x. induction rest as [|y rest IH]; intros pre x Hl Hx Hb H0.
  - cbn [length seq foldl chain chain_out]. cbn [length] in Hl. rewrite !Z.add_0_r.
    replace (length pre) with 15%nat by lia. apply carry_step_last; lia.
  - apply Forall_cons in Hb as [Hy Hb]. cbn [length] in Hl.
    change (seq (length pre) (S (length (y :: rest)))) with (length pre :: seq (S (length pre)) (S (length rest))).
    cbn [foldl]. rewrite carry_step_next by lia.
    pose proof (div16_bound (2 ^ 45) x ltac:(lia) ltac:(lia)) as Hq.
    replace (pre ++ x mod 2 ^ 16 :: y + x / 2 ^ 16 :: rest)
      with ((pre ++ [x mod 2 ^ 16]) ++ y + x / 2 ^ 16 :: rest) by (by rewrite <- app_assoc).
    replace (S (length pre)) with (length (pre ++ [x mod 2 ^ 16])) by (rewrite length_app; cbn; lia).
    rewrite IH; [|rewrite length_app; cbn; lia|lia|done|].
    + cbn [chain chain_out]. rewrite !Z.add_0_r, <- app_assoc. done.
    + destruct pre as [|p0 pre]; [|exact H0]. change (limb ([] ++ [x mod 2 ^ 16]) 0) with (x mod 2 ^ 16).
      pose proof (Z.mod_pos_bound x (2 ^ 16) ltac:(lia)). lia.
Qed.

Lemma carry_eq o :
  length o = 16%nat → bounded (2 ^ 60) o → carry o = fixup (chain o 0) (chain_out o 0).
Proof.
  intros Hl Hb. destruct o as [|x o]; [done|]. apply Forall_cons in Hb as [Hx Hb].
  unfold carry. injection Hl as Hl. rewrite <- Hl at 1.
  apply (carry_loop o [] x); [cbn; lia|lia|done|cbn; lia].
Qed.

Lemma digits_eval l : digits l → 0 <= eval l < 2 ^ (16 * Z.of_nat (length l)).
Proof.
  induction 1 as [|x l Hx _ IH]; cbn [eval length]; [change (2 ^ (16 * Z.of_nat 0)) with 1; lia|].
  replace (16 * Z.of_nat (S (length l))) with (16 + 16 * Z.of_nat (length l)) by lia.
  rewrite Z.pow_add_r by lia. lia.
Qed.

Lemma chain_out_bound l c :
  bounded (2 ^ 60) l → -2 ^ 45 <= c <= 2 ^ 45 → -2 ^ 45 <= chain_out l c <= 2 ^ 45.
Proof.
  intros Hl. revert c. induction Hl as [|x l Hx _ IH]; intros c Hc; cbn [chain_out]; [done|].
  apply IH. apply div16_bound; lia.
Qed.

(** Digits but for limb 0, which is within [lo] and [hi]. *)
Definition almost (lo hi : Z) (l : Fe) : Prop :=
  ∃ x r, l = x :: r ∧ length r = 15%nat ∧ lo <= x < hi ∧ digits r.

(** What [fmul] returns. *)
Definition reduced (l : Fe) : Prop := almost (-38) (2 ^ 16 + 38) l.

Lemma almost_bounded lo hi B l : almost lo hi l → -B <= lo → hi <= B + 1 → 2 ^ 16 <= B → fe_ok B l.
Proof.
  intros (x & r & -> & Hl & Hx & Hr) ? ? ?. split; [cbn; by rewrite Hl|].
  constructor; [lia|]. eapply Forall_impl; [exact Hr|]. cbn. lia.
Qed.

Lemma reduced_ok l : reduced l → fe_ok (2 ^ 17) l.
Proof. intros H. by eapply almost_bounded. Qed.

Lemma carry_shape o B :
  length o = 16%nat → bounded (2 ^ 60) o → -B <= chain_out o 0 <= B →
  almost (-38 * B) (2 ^ 16 + 38 * B) (carry o).
Proof.
  intros Hl Hb Hc. rewrite carry_eq by done. pose proof (chain_digits o 0) as Hd.
  pose proof (length_chain o 0) as Hlc. rewrite Hl in Hlc.
  destruct (chain o 0) as [|x r]; [done|]. apply Forall_cons in Hd as [Hx Hr].
  exists (x + 38 * chain_out o 0), r. split_and!; [done|by injection Hlc|lia|lia|done].
Qed.

Lemma carry_eval o :
  length o = 16%nat → bounded (2 ^ 60) o → eval (carry o) = eval o - (2 * P25519) * chain_out o 0.
Proof.
  intros Hl Hb. rewrite carry_eq by done. unfold fixup.
  rewrite eval_insert by (rewrite length_chain; lia).
  pose proof (eval_chain o 0) as E. rewrite Hl in E. change (2 ^ (16 * Z.of_nat 16)) with (2 * P25519 + 38) in E.
  change (2 ^ (16 * Z.of_nat 0)) with 1. lia.
Qed.

Lemma carry_eqp o : length o = 16%nat → bounded (2 ^ 60) o → eqp (eval (carry o)) (eval o).
Proof. intros. rewrite carry_eval by done. apply (eqp_intro _ _ (-2 * chain_out o 0)). lia. Qed.

Lemma almost_out lo hi l : almost lo hi l → -2 ^ 256 <= lo → hi <= 2 ^ 256 → -1 <= chain_out l 0 <= 1.
Proof.
  intros (x & r & -> & Hl & Hx & Hr) Hlo Hhi.
  pose proof (digits_eval _ Hr) as He. rewrite Hl in He. change (2 ^ (16 * Z.of_nat 15)) with (2 ^ 240) in He.
  pose proof (eval_chain (x :: r) 0) as E. pose proof (digits_eval _ (chain_digits (x :: r) 0)) as Hd.
  rewrite length_chain in Hd. cbn [length] in E, Hd. rewrite Hl in E, Hd.
  change (2 ^ (16 * Z.of_nat 16)) with (2 ^ 256) in E, Hd. cbn [eval] in E.
  set (c := chain_out (x :: r) 0) in *. set (v := eval (chain (x :: r) 0)) in *. clearbody c v.
  change (2 ^ 256) with (2 ^ 16 * 2 ^ 240) in *. nia.
Qed.

(** Two carries reduce any limbs that fit in 61 bits. *)
Lemma carry_twice o :
  length o = 16%nat → bounded (2 ^ 60) o →
  reduced (carry (carry o)) ∧ eqp (eval (carry (carry o))) (eval o).
Proof.
  intros Hl Hb. pose proof (chain_out_bound o 0 Hb ltac:(lia)) as Hc.
  pose proof (carry_shape o (2 ^ 45) Hl Hb Hc) as H1.
  destruct (almost_bounded _ _ (2 ^ 60) _ H1) as [Hl1 Hb1]; [lia..|].
  pose proof (almost_out _ _ _ H1 ltac:(lia) ltac:(lia)) as Hc1.
  split; [exact (carry_shape (carry o) 1 Hl1 Hb1 Hc1)|].
  by rewrite !carry_eqp.
Qed.

(** ** Lemmas: multiplication *)

Lemma eval_take_S b m : eval (take (S m) b) = eval (take m b) + limb b m * 2 ^ (16 * Z.of_nat m).
Proof.
  unfold limb. destruct (b !! m) as [x|] eqn:E; [change (default 0 (Some x)) with x|change (default 0 None) with 0].
  - rewrite (take_S_r _ _ x E), eval_app, length_take.
    apply lookup_lt_Some in E. rewrite Nat.min_l by lia. cbn [eval]. ring.
  - apply lookup_ge_None in E. rewrite !take_ge by lia. lia.
Qed.

(** The products accumulated so far: [n] additions of at most [2^36]. *)
Record acc_ok (n : Z) (t : list Z) : Prop := {
  acc_len : length t = 31%nat;
  acc_bound : bounded (n * 2 ^ 36) t;
}.

Lemma fmul_step_spec a b t i j n :
  bounded (2 ^ 18) a → bounded (2 ^ 18) b → acc_ok n t → 0 <= n <= 256 → (i + j < 31)%nat →
  acc_ok (n + 1) (fmul_step a b t i j) ∧
  eval (fmul_step a b t i j) = eval t + limb a i * limb b j * 2 ^ (16 * Z.of_nat (i + j)).
Proof.
  intros Ha Hb [Hl Ht] Hn Hij. unfold fmul_step.
  pose proof (bounded_limb _ a i Ha ltac:(lia)) as Hai. pose proof (bounded_limb _ b j Hb ltac:(lia)) as Hbj.
  pose proof (bounded_limb _ t (i + j) Ht ltac:(lia)) as Htij.
  assert (Hp : -2 ^ 36 <= limb a i * limb b j <= 2 ^ 36) by (change (2 ^ 36) with (2 ^ 18 * 2 ^ 18); nia).
  rewrite (i64_small (limb a i * limb b j)), (i64_small (limb t (i + j) + _)) by lia.
  split; [split; [by rewrite length_insert|]|rewrite eval_insert by lia; lia].
  apply bounded_insert; [|lia]. eapply bounded_mono; [exact Ht|lia].
Qed.

Lemma fmul_row a b t i n (m : nat) :
  bounded (2 ^ 18) a → bounded (2 ^ 18) b → acc_ok n t → 0 <= n → n + Z.of_nat m <= 256 →
  (i < 16)%nat → (m <= 16)%nat →
  let t' := foldl (fun t j => fmul_step a b t i j) t (seq 0 m) in
  acc_ok (n + Z.of_nat m) t' ∧
  eval t' = eval t + limb a i * 2 ^ (16 * Z.of_nat i) * eval (take m b).
Proof.
  intros Ha Hb Ht Hn0 Hn Hi. induction m as [|m IH]; intros Hm; cbv zeta.
  { rewrite take_0. cbn [seq foldl eval]. split; [by rewrite Z.add_0_r|ring]. }
  rewrite seq_S, foldl_app. cbn [foldl Nat.add]. destruct IH as [IH1 IH2]; [lia|lia|].
  set (t' := foldl _ t (seq 0 m)) in *.
  destruct (fmul_step_spec a b t' i m (n + Z.of_nat m) Ha Hb IH1) as [H1 H2]; [lia|lia|].
  split; [by replace (n + Z.of_nat (S m)) with (n + Z.of_nat m + 1) by lia|].
  rewrite H2, IH2, eval_take_S. replace (16 * Z.of_nat (i + m)) with (16 * Z.of_nat i + 16 * Z.of_nat m) by lia.
  rewrite Z.pow_add_r by lia. ring.
Qed.

Lemma fmul_rows a b (m : nat) :
  bounded (2 ^ 18) a → fe_ok (2 ^ 18) b → (m <= 16)%nat →
  let t' := foldl (fun t i => foldl (fun t j => fmul_step a b t i j) t (seq 0 16)) (replicate 31 0) (seq 0 m) in
  acc_ok (16 * Z.of_nat m) t' ∧ eval t' = eval (take m a) * eval b.
Proof.
  intros Ha [Hlb Hb]. induction m as [|m IH]; intros Hm; cbv zeta.
  { rewrite take_0. cbn [seq foldl eval]. split; [split; [done|]|reflexivity]. by apply Forall_replicate. }
  rewrite (seq_S m), foldl_app. cbn [foldl Nat.add]. destruct IH as [IH1 IH2]; [lia|].
  set (t' := foldl _ (replicate 31 0) (seq 0 m)) in *.
  destruct (fmul_row a b t' m (16 * Z.of_nat m) 16 Ha Hb IH1) as [H1 H2]; [lia..|].
  split; [by replace (16 * Z.of_nat (S m)) with (16 * Z.of_nat m + Z.of_nat 16) by lia|].
  rewrite H2, IH2, (take_ge b), eval_take_S by lia. ring.
Qed.

Lemma fmul_product_spec a b :
  fe_ok (2 ^ 18) a → fe_ok (2 ^ 18) b →
  acc_ok 256 (fmul_product a b) ∧ eval (fmul_product a b) = eval a * eval b.
Proof.
  intros [Hla Ha] Hb. destruct (fmul_rows a b 16 Ha Hb) as [H1 H2]; [done|].
  rewrite take_ge in H2 by lia. done.
Qed.

(** The folding loop, limb by limb. *)
Lemma fmul_fold_lookup t n k :
  acc_ok 256 t → (n <= 15)%nat →
  let t' := foldl (fun t i => <[i := i64 (limb t i + i64 (38 * limb t (i + 16)))]> t) t (seq 0 n) in
  length t' = 31%nat ∧
  limb t' k = if (k <? n)%nat then limb t k + 38 * limb t (k + 16) else limb t k.
Proof.
  intros [Hl Hb]. revert k. induction n as [|n IH]; intros k Hn; cbv zeta; [done|].
  rewrite seq_S, foldl_app. cbn [foldl Nat.add].
  set (t' := foldl _ t (seq 0 n)) in *. cbv zeta in IH.
  destruct (IH k ltac:(lia)) as [Hl' Hk]. destruct (IH n ltac:(lia)) as [_ Hn'].
  destruct (IH (n + 16)%nat ltac:(lia)) as [_ Hn16].
  destruct (Nat.ltb_spec n n); [lia|]. destruct (Nat.ltb_spec (n + 16) n); [lia|].
  pose proof (bounded_limb _ t n Hb ltac:(lia)). pose proof (bounded_limb _ t (n + 16) Hb ltac:(lia)).
  split; [by rewrite length_insert|].
  rewrite Hn', Hn16, (i64_small (38 * _)), i64_small by lia.
  unfold limb at 1. destruct (decide (k = n)) as [->|Hne].
  - rewrite list_lookup_insert_eq by lia. cbn [default]. by destruct (Nat.ltb_spec n (S n)); [|lia].
  - rewrite list_lookup_insert_ne by done. fold (limb t' k). rewrite Hk.
    destruct (Nat.ltb_spec k n), (Nat.ltb_spec k (S n)); done || lia.
Qed.

Lemma limbs_ext (l k : list Z) :
  length l = length k → (∀ i, (i < length l)%nat → limb l i = limb k i) → l = k.
Proof.
  intros Hl H. apply (list_eq_same_length _ _ (length l)); [done|done|].
  intros i x y Hi Hx Hy. specialize (H i Hi). unfold limb in H. by rewrite Hx, Hy in H.
Qed.

Lemma limb_take l n i : (i < n)%nat → limb (take n l) i = limb l i.
Proof. intros Hi. unfold limb. by rewrite lookup_take_lt. Qed.

Lemma fmul_fold_eq t :
  acc_ok 256 t →
  take 16 (fmul_fold t) = zip_with (fun x y => x + 38 * y) (take 16 t) (drop 16 t ++ [0]).
Proof.
  intros Ht. pose proof (acc_len _ _ Ht) as Hl. unfold fmul_fold.
  assert (Hd : length (drop 16 t) = 15%nat) by (rewrite length_drop; lia).
  apply limbs_ext.
  - rewrite length_zip_with, length_app, !length_take, Hd, Hl.
    destruct (fmul_fold_lookup t 15 0 Ht ltac:(lia)) as [-> _]. done.
  - intros i Hi. rewrite length_take in Hi. rewrite limb_take by lia.
    destruct (fmul_fold_lookup t 15 i Ht ltac:(lia)) as [_ ->].
    unfold limb at 4. rewrite lookup_zip_with.
    destruct (lookup_lt_is_Some_2 t i ltac:(lia)) as [x Hx].
    rewrite lookup_take_lt, Hx by lia. cbn [mbind option_bind].
    unfold limb. rewrite Hx. destruct (Nat.ltb_spec i 15).
    + rewrite lookup_app_l by lia. rewrite lookup_drop, Nat.add_comm.
      by destruct (lookup_lt_is_Some_2 t (16 + i) ltac:(lia)) as [y ->].
    + rewrite lookup_app_r, Hd by lia. replace (i - 15)%nat with 0%nat by lia. cbn. lia.
Qed.

Lemma bounded_zip B1 B2 B h a b :
  bounded B1 a → bounded B2 b →
  (∀ x y, -B1 <= x <= B1 → -B2 <= y <= B2 → -B <= h x y <= B) → bounded B (zip_with h a b).
Proof.
  intros Ha Hb Hh. revert b Hb. induction Ha as [|x a Hx _ IH]; intros b Hb; [constructor|].
  destruct Hb as [|y b Hy Hb]; [constructor|]. constructor; [by apply Hh|by apply IH].
Qed.

Lemma fmul_fold_spec t :
  acc_ok 256 t →
  fe_ok (2 ^ 60) (take 16 (fmul_fold t)) ∧ eqp (eval (take 16 (fmul_fold t))) (eval t).
Proof.
  intros Ht. pose proof (acc_len _ _ Ht) as Hl. pose proof (acc_bound _ _ Ht) as Hb.
  rewrite fmul_fold_eq by done.
  assert (H1 : length (take 16 t) = 16%nat) by (rewrite length_take; lia).
  assert (H2 : length (drop 16 t ++ [0]) = 16%nat) by (rewrite length_app, length_drop; cbn; lia).
  split; [split|].
  - by rewrite length_zip_with, H1, H2.
  - apply (bounded_zip (2 ^ 44) (2 ^ 44)); [by apply Forall_take|apply Forall_app; split|intros; lia].
    + by apply Forall_drop.
    + by apply Forall_singleton.
  - rewrite (eval_zip 1 38) by (intros; lia || congruence). rewrite eval_app.
    assert (E : eval t = eval (take 16 t) + 2 ^ (16 * Z.of_nat 16) * eval (drop 16 t)).
    { rewrite <- (take_drop 16 t) at 1. by rewrite eval_app, H1. }
    rewrite E. change (2 ^ (16 * Z.of_nat 16)) with (2 * P25519 + 38). cbn [eval].
    apply (eqp_intro _ _ (-2 * eval (drop 16 t))). ring.
Qed.

(** Multiplication: the product modulo [p], reduced, for limbs of 19 bits. *)
Lemma fmul_spec a b :
  fe_ok (2 ^ 18) a → fe_ok (2 ^ 18) b → reduced (fmul a b) ∧ eqp (eval (fmul a b)) (eval a * eval b).
Proof.
  intros Ha Hb. destruct (fmul_product_spec a b Ha Hb) as [Ht He].
  destruct (fmul_fold_spec _ Ht) as [[Hl Hbd] Hf]. destruct (carry_twice _ Hl Hbd) as [Hr Hc].
  split; [exact Hr|]. unfold fmul. by rewrite Hc, Hf, He.
Qed.

Lemma fadd_spec a b :
  fe_ok (2 ^ 17) a → fe_ok (2 ^ 17) b → fe_ok (2 ^ 18) (fadd a b) ∧ eval (fadd a b) = eval a + eval b.
Proof.
  intros [Hla Ha] [Hlb Hb]. unfold fadd.
  assert (E : zip_with (fun x y => i64 (x + y)) a b = zip_with (fun x y => x + y) a b).
  { clear Hla Hlb. revert b Hb. induction Ha as [|x a Hx _ IH]; intros b Hb; [done|].
    destruct Hb as [|y b Hy Hb]; [done|]. cbn [zip_with]. rewrite i64_small by lia. f_equal. by apply IH. }
  rewrite E. split; [split|].
  - rewrite length_zip_with. lia.
  - by apply (bounded_zip (2 ^ 17) (2 ^ 17)); [done|done|lia].
  - rewrite (eval_zip 1 1) by (intros; lia). lia.
Qed.

Lemma fsub_spec a b :
  fe_ok (2 ^ 17) a → fe_ok (2 ^ 17) b → fe_ok (2 ^ 18) (fsub a b) ∧ eval (fsub a b) = eval a - eval b.
Proof.
  intros [Hla Ha] [Hlb Hb]. unfold fsub.
  assert (E : zip_with (fun x y => i64 (x - y)) a b = zip_with (fun x y => x - y) a b).
  { clear Hla Hlb. revert b Hb. induction Ha as [|x a Hx _ IH]; intros b Hb; [done|].
    destruct Hb as [|y b Hy Hb]; [done|]. cbn [zip_with]. rewrite i64_small by lia. f_equal. by apply IH. }
  rewrite E. split; [split|].
  - rewrite length_zip_with. lia.
  - by apply (bounded_zip (2 ^ 17) (2 ^ 17)); [done|done|lia].
  - rewrite (eval_zip 1 (-1)) by (intros; lia). lia.
Qed.

Lemma swap_spec p q b :
  length p = length q → b = 0 ∨ b = 1 →
  constant_time_swap p q b = if b =? 1 then (q, p) else (p, q).
Proof.
  intros Hl Hb. unfold constant_time_swap.
  assert (Hc : Z.lnot (i64 (b - 1)) = if b =? 1 then -1 else 0) by (by destruct Hb as [-> | ->]).
  rewrite Hc. clear Hc.
  assert (Hx : ∀ x y, Z.lxor x (Z.land (-1) (Z.lxor x y)) = y).
  { intros x y. by rewrite Z.land_m1_l, <- Z.lxor_assoc, Z.lxor_nilpotent, Z.lxor_0_l. }
  revert q Hl. induction p as [|x p IH]; intros [|y q] Hl; try done; [by destruct (b =? 1)|].
  injection Hl as Hl. specialize (IH q Hl). cbn [zip_with].
  destruct Hb as [-> | ->]; [change (0 =? 1) with false in *|change (1 =? 1) with true in *];
    injection IH as IH1 IH2; cbv iota in *.
  - rewrite !Z.land_0_l, !Z.lxor_0_r in *. congruence.
  - rewrite Hx, (Z.lxor_comm x y), Hx. congruence.
Qed.

(** ** Lemmas: canonical form *)

Lemma chain_of_digits l : digits l → chain l 0 = l ∧ chain_out l 0 = 0.
Proof.
  induction 1 as [|x l Hx _ [IH1 IH2]]; [done|]. cbn [chain chain_out].
  rewrite Z.add_0_r, Z.mod_small, Z.div_small by lia. by rewrite IH1, IH2.
Qed.

Lemma carry_of_digits o : length o = 16%nat → digits o → carry o = o.
Proof.
  intros Hl Hd. rewrite carry_eq; [|done|eapply Forall_impl; [exact Hd|cbn; lia]].
  destruct (chain_of_digits o Hd) as [-> ->]. unfold fixup. rewrite Z.mul_0_r, Z.add_0_r.
  destruct o; [done|]. done.
Qed.

(** One carry turns a reduced element into digits. *)
Lemma carry_reduced o :
  reduced o → length (carry o) = 16%nat ∧ digits (carry o) ∧ eqp (eval (carry o)) (eval o).
Proof.
  intros Hr. destruct (reduced_ok _ Hr) as [Hl Hb].
  assert (Hb60 : bounded (2 ^ 60) o) by (by eapply bounded_mono).
  pose proof (almost_out _ _ _ Hr ltac:(lia) ltac:(lia)) as Hc.
  split_and!; [|  |by apply carry_eqp].
  { rewrite carry_eq by done. unfold fixup. by rewrite length_insert, length_chain. }
  rewrite carry_eq by done. unfold fixup.
  pose proof (chain_digits o 0) as Hd. pose proof (length_chain o 0) as Hlc. rewrite Hl in Hlc.
  pose proof (eval_chain o 0) as He. rewrite Hl in He. change (2 ^ (16 * Z.of_nat 16)) with (2 ^ 256) in He.
  destruct (chain o 0) as [|d r]; [done|]. apply Forall_cons in Hd as [Hd Hdr]. injection Hlc as Hlr.
  pose proof (digits_eval _ Hdr) as Her. rewrite Hlr in Her. change (2 ^ (16 * Z.of_nat 15)) with (2 ^ 240) in Her.
  destruct Hr as (x & xs & -> & Hlx & Hx & Hxs).
  pose proof (digits_eval _ Hxs) as Hex. rewrite Hlx in Hex. change (2 ^ (16 * Z.of_nat 15)) with (2 ^ 240) in Hex.
  cbn [eval] in He. change (limb (d :: r) 0) with d. cbn [insert list_insert].
  set (c := chain_out (x :: xs) 0) in *. change (2 ^ 256) with (2 ^ 16 * 2 ^ 240) in He.
  constructor; [|done]. assert (c = -1 ∨ c = 0 ∨ c = 1) as [-> | [-> | ->]] by lia; lia.
Qed.

(** The limbs of the prime. *)
Definition P_LIMBS : list Z := 0xffed :: replicate 14 0xffff ++ [0x7fff].

Definition minus_p (t : Fe) : list Z := zip_with Z.sub t P_LIMBS.

Lemma chain_snoc l x c :
  chain (l ++ [x]) c = chain l c ++ [(x + chain_out l c) mod 2 ^ 16] ∧
  chain_out (l ++ [x]) c = (x + chain_out l c) / 2 ^ 16.
Proof.
  revert c. induction l as [|y l IH]; intros c; [done|]. cbn [app chain chain_out].
  destruct (IH ((y + c) / 2 ^ 16)) as [-> ->]. done.
Qed.

Lemma minus_p_bound t i : digits t → -0xffff <= limb (minus_p t) i <= 0xffff.
Proof.
  intros Ht. apply (bounded_limb 0xffff); [|lia]. unfold minus_p.
  assert (Hp : Forall (fun x => 0 <= x <= 0xffff) P_LIMBS) by (repeat constructor; lia).
  revert Hp. generalize P_LIMBS. induction Ht as [|x t Hx _ IH]; intros P Hp; [constructor|].
  destruct Hp as [|y P Hy Hp]; constructor; [lia|by apply IH].
Qed.

Lemma minus_p_out t k : digits t → -1 <= chain_out (take k (minus_p t)) 0 <= 0.
Proof.
  intros Ht. induction k as [|k IH]; [rewrite take_0; cbn; lia|].
  pose proof (minus_p_bound t k Ht) as Hk. unfold limb in Hk.
  destruct (minus_p t !! k) as [x|] eqn:E.
  - rewrite (take_S_r _ _ x E). destruct (chain_snoc (take k (minus_p t)) x 0) as [_ ->].
    change (default 0 (Some x)) with x in Hk. split.
    + apply Z.div_le_lower_bound; lia.
    + apply Z.lt_succ_r, Z.div_lt_upper_bound; lia.
  - rewrite take_ge in * by (apply lookup_ge_None in E; lia). done.
Qed.

(** The borrow extracted by shifting and masking. *)
Lemma borrow_spec v : -2 ^ 16 <= v < 2 ^ 16 → Z.land (Z.shiftr v 16) 1 = - (v / 2 ^ 16).
Proof.
  intros Hv. rewrite Z.shiftr_div_pow2 by lia. destruct (Z.lt_ge_cases v 0).
  - replace (v / 2 ^ 16) with (-1); [done|]. apply (Z.div_unique _ _ _ (v + 2 ^ 16)); lia.
  - rewrite Z.div_small by lia. done.
Qed.

Lemma mask_spec v : Z.land v 0xffff = v mod 2 ^ 16.
Proof. change 0xffff with (Z.ones 16). by apply Z.land_ones. Qed.

Lemma pack_sub_loop t k :
  length t = 16%nat → digits t → (k <= 14)%nat →
  foldl (pack_sub_step t) (<[0%nat := i64 (limb t 0 - 0xffed)]> ZERO) (seq 1 k)
  = chain (take k (minus_p t)) 0
    ++ (limb (minus_p t) k + chain_out (take k (minus_p t)) 0) :: replicate (15 - k) 0.
Proof.
  intros Hl Ht. assert (Hlm : length (minus_p t) = 16%nat) by (unfold minus_p; rewrite length_zip_with, Hl; done).
  assert (Hlimb : ∀ i p, P_LIMBS !! i = Some p → limb (minus_p t) i = limb t i - p).
  { intros i p Hp. unfold limb, minus_p. rewrite lookup_zip_with, Hp.
    destruct (lookup_lt_is_Some_2 t i) as [x ->]; [apply lookup_lt_Some in Hp; rewrite Hl; exact Hp|done]. }
  assert (Htb : ∀ i, 0 <= limb t i < 2 ^ 16).
  { intros i. unfold limb. destruct (t !! i) as [x|] eqn:E; [|cbn; lia].
    by apply (Forall_lookup_1 _ _ _ _ Ht E). }
  induction k as [|k IH]; intros Hk.
  - rewrite take_0. cbn [seq foldl chain chain_out app Nat.sub].
    rewrite (Hlimb 0%nat 0xffed) by done. specialize (Htb 0%nat). by rewrite Z.add_0_r, i64_small by lia.
  - rewrite seq_S, foldl_app, IH by lia. cbn [foldl]. change (1 + k)%nat with (S k).
    pose proof (minus_p_out t k Ht) as Hout. pose proof (minus_p_bound t k Ht) as Hbk.
    destruct (lookup_lt_is_Some_2 (minus_p t) k ltac:(lia)) as [x Hx].
    assert (Ex : limb (minus_p t) k = x) by (unfold limb; by rewrite Hx).
    rewrite (take_S_r _ _ x Hx). destruct (chain_snoc (take k (minus_p t)) x 0) as [-> ->]. rewrite Ex in *.
    set (pre := chain (take k (minus_p t)) 0). set (v := x + chain_out (take k (minus_p t)) 0).
    assert (Hpre : length pre = k) by (unfold pre; rewrite length_chain, length_take; lia).
    replace (15 - k)%nat with (S (15 - S k)) by lia. cbn [replicate].
    unfold pack_sub_step. replace (S k - 1)%nat with (length pre) by lia.
    replace (S k) with (length pre + 1)%nat by lia.
    rewrite !limb_at, !set_next, !limb_at, !set_at, mask_spec, borrow_spec by lia.
    rewrite Hpre. replace (k + 1)%nat with (S k) by lia.
    rewrite (Hlimb (S k) 0xffff).
    2:{ unfold P_LIMBS. rewrite lookup_cons, lookup_app_l by (rewrite length_replicate; lia).
        apply lookup_replicate_2. lia. }
    specialize (Htb (S k)).
    assert (-1 <= v / 2 ^ 16 <= 0).
    { split; [apply Z.div_le_lower_bound; lia|apply Z.lt_succ_r, Z.div_lt_upper_bound; lia]. }
    rewrite !i64_small by (try rewrite i64_small; lia). rewrite <- app_assoc. cbn [app]. do 3 f_equal. lia.
Qed.

Lemma pack_sub_eq t :
  length t = 16%nat → digits t →
  let top := limb (minus_p t) 15 + chain_out (take 15 (minus_p t)) 0 in
  pack_sub t = (chain (take 15 (minus_p t)) 0 ++ [top], if top <? 0 then 1 else 0) ∧
  -2 ^ 16 <= top < 2 ^ 16.
Proof.
  intros Hl Ht. cbv zeta.
  assert (Hlm : length (minus_p t) = 16%nat) by (unfold minus_p; rewrite length_zip_with, Hl; done).
  pose proof (minus_p_bound t 14 Ht) as Hb14. pose proof (minus_p_bound t 15 Ht) as Hb15.
  pose proof (minus_p_out t 14 Ht) as Ho14. pose proof (minus_p_out t 15 Ht) as Ho15.
  split; [|lia]. unfold pack_sub. rewrite pack_sub_loop by (done || lia).
  destruct (lookup_lt_is_Some_2 (minus_p t) 14 ltac:(lia)) as [x Hx].
  assert (Ex : limb (minus_p t) 14 = x) by (unfold limb; by rewrite Hx).
  rewrite (take_S_r _ _ x Hx) in *. destruct (chain_snoc (take 14 (minus_p t)) x 0) as [Ec Eo].
  rewrite Ec, Eo in *. rewrite Ex in *.
  set (pre := chain (take 14 (minus_p t)) 0). set (v := x + chain_out (take 14 (minus_p t)) 0) in *.
  assert (Hpre : length pre = 14%nat) by (unfold pre; rewrite length_chain, length_take; lia).
  assert (E15 : limb (minus_p t) 15 = limb t 15 - 0x7fff).
  { unfold limb, minus_p. rewrite lookup_zip_with. by destruct (lookup_lt_is_Some_2 t 15 ltac:(lia)) as [y ->]. }
  cbn [Nat.sub replicate].
  replace (limb (pre ++ v :: [0]) 14) with v by (rewrite <- Hpre; by rewrite limb_at).
  rewrite borrow_spec by lia.
  rewrite (i64_small (limb t 15 - _)), i64_small by lia. rewrite <- E15.
  replace (limb (minus_p t) 15 - - (v / 2 ^ 16)) with (limb (minus_p t) 15 + v / 2 ^ 16) by lia.
  set (top := limb (minus_p t) 15 + v / 2 ^ 16) in *.
  replace (<[15%nat := top]> (pre ++ v :: [0])) with (pre ++ v :: [top])
    by (replace 15%nat with (length pre + 1)%nat by lia; by rewrite set_next).
  replace (limb (pre ++ v :: [top]) 15) with top
    by (replace 15%nat with (length pre + 1)%nat by lia; by rewrite limb_next).
  rewrite borrow_spec by lia.
  replace (limb (pre ++ v :: [top]) 14) with v by (rewrite <- Hpre; by rewrite limb_at).
  replace (<[14%nat := Z.land v 0xffff]> (pre ++ v :: [top])) with (pre ++ v mod 2 ^ 16 :: [top])
    by (rewrite <- Hpre; by rewrite set_at, mask_spec).
  rewrite <- app_assoc. f_equal. destruct (Z.ltb_spec top 0).
  - replace (top / 2 ^ 16) with (-1); [done|]. apply (Z.div_unique _ _ _ (top + 2 ^ 16)); lia.
  - by rewrite Z.div_small by lia.
Qed.

Lemma pack_round_spec t :
  length t = 16%nat → digits t →
  length (pack_round t) = 16%nat ∧ digits (pack_round t) ∧
  eval (pack_round t) = if eval t <? P25519 then eval t else eval t - P25519.
Proof.
  intros Hl Ht. destruct (pack_sub_eq t Hl Ht) as [E Htop]. cbv zeta in E, Htop.
  assert (Hlm : length (minus_p t) = 16%nat) by (unfold minus_p; rewrite length_zip_with, Hl; done).
  set (top := limb (minus_p t) 15 + chain_out (take 15 (minus_p t)) 0) in *.
  set (lo := chain (take 15 (minus_p t)) 0) in *.
  assert (Hlo : length lo = 15%nat) by (unfold lo; rewrite length_chain, length_take; lia).
  assert (Hev : eval (lo ++ [top]) = eval t - P25519).
  { rewrite eval_app, Hlo. cbn [eval]. pose proof (eval_chain (take 15 (minus_p t)) 0) as He. fold lo in He.
    replace (length (take 15 (minus_p t))) with 15%nat in He by (rewrite length_take; lia).
    pose proof (eval_take_S (minus_p t) 15) as Hs. rewrite take_ge in Hs by lia.
    assert (Hm : eval (minus_p t) = eval t - P25519).
    { unfold minus_p. rewrite (eval_zip 1 (-1)) by (intros; lia || (rewrite Hl; done)).
      change (eval P_LIMBS) with P25519. lia. }
    unfold top. lia. }
  pose proof (chain_digits (take 15 (minus_p t)) 0) as Hd. fold lo in Hd.
  pose proof (digits_eval _ Hd) as Hdl. rewrite Hlo in Hdl.
  assert (Hev2 := Hev). rewrite eval_app, Hlo in Hev2. cbn [eval] in Hev2.
  change (2 ^ (16 * Z.of_nat 15)) with (2 ^ 240) in *.
  unfold pack_round. rewrite E. rewrite swap_spec.
  2:{ rewrite Hl, length_app, Hlo. done. }
  2:{ destruct (top <? 0); auto. }
  destruct (Z.ltb_spec top 0).
  - change (1 - 1 =? 1) with false. cbn [fst]. split_and!; [done|done|].
    destruct (Z.ltb_spec (eval t) P25519); [done|nia].
  - change (1 - 0 =? 1) with true. cbn [fst]. split_and!.
    + by rewrite length_app, Hlo.
    + apply Forall_app. split; [done|]. apply Forall_singleton. lia.
    + destruct (Z.ltb_spec (eval t) P25519); [nia|done].
Qed.

(** The bytes of sixteen digits. *)
Lemma pack_bytes t :
  digits t →
  flat_map (fun i => [Z.land (limb t i) 0xff; Z.land (Z.shiftr (limb t i) 8) 0xff]) (seq 0 (length t))
  = to_le_bytes (2 * length t) (eval t).
Proof.
  intros Ht. assert (E : flat_map (fun i => [Z.land (limb t i) 0xff; Z.land (Z.shiftr (limb t i) 8) 0xff]) (seq 0 (length t))
    = flat_map (fun x => [Z.land x 0xff; Z.land (Z.shiftr x 8) 0xff]) t).
  { clear Ht. induction t as [|x t IH]; [done|]. cbn [length seq flat_map app]. f_equal. f_equal.
    rewrite <- IH, <- seq_shift. rewrite !flat_map_concat_map, map_map. done. }
  rewrite E. clear E. induction Ht as [|x t Hx _ IH]; [done|].
  cbn [flat_map length]. replace (2 * S (length t))%nat with (S (S (2 * length t))) by lia.
  cbn [to_le_bytes eval app].
  assert (H8 : ∀ z, Z.land z 0xff = z mod 2 ^ 8) by (intros; change 0xff with (Z.ones 8); by apply Z.land_ones).
  rewrite !H8, Z.shiftr_div_pow2 by lia. change (2 ^ 8) with 256. change (2 ^ 16) with 65536 in *.
  replace (x + 65536 * eval t) with (x + 256 * eval t * 256) by lia.
  rewrite Z.mod_add, Z.div_add by lia. f_equal.
  replace (x / 256 + 256 * eval t) with (x / 256 + eval t * 256) by lia.
  rewrite Z.mod_add, Z.div_add, Z.div_div by lia. f_equal.
  rewrite IH. f_equal. rewrite Z.div_small by lia. lia.
Qed.

Lemma pack_spec n : reduced n → pack n = to_le_bytes 32 (eval n mod P25519).
Proof.
  intros Hn. destruct (carry_reduced n Hn) as (Hl & Hd & He). unfold pack.
  rewrite (carry_of_digits (carry n)) by done. rewrite (carry_of_digits (carry n)) by done.
  set (t := carry n) in *.
  destruct (pack_round_spec t Hl Hd) as (Hl1 & Hd1 & He1).
  destruct (pack_round_spec (pack_round t) Hl1 Hd1) as (Hl2 & Hd2 & He2).
  rewrite <- Hl2 at 1. rewrite pack_bytes by done. rewrite Hl2. f_equal.
  pose proof (digits_eval _ Hd) as Hr. rewrite Hl in Hr. change (2 ^ (16 * Z.of_nat 16)) with (2 * P25519 + 38) in Hr.
  unfold eqp in He. rewrite <- He, He2, He1. assert (38 < P25519) by done.
  symmetry. destruct (Z.ltb_spec (eval t) P25519).
  - destruct (Z.ltb_spec (eval t) P25519); [|lia]. apply Z.mod_small. lia.
  - destruct (Z.ltb_spec (eval t - P25519) P25519).
    + symmetry. apply (Z.mod_unique_pos _ _ 1); lia.
    + symmetry. apply (Z.mod_unique_pos _ _ 2); lia.
Qed.

(** ** Lemmas: decoding *)

Lemma shl8 x : Z.shiftl x 8 = x * 256.
Proof. by rewrite Z.shiftl_mul_pow2. Qed.

Lemma unpack_spec p :
  length p = 32%nat → Forall byte_ok p →
  eval (unpack p) = decode_u p ∧ fe_ok (2 ^ 17) (unpack p).
Proof.
  intros Hl Hp. unfold decode_u, unpack.
  set (o := _ <$> seq 0 16). assert (Ho : length o = 16%nat) by done.
  assert (He : eval o = from_le_bytes p ∧ digits o).
  { subst o. do 32 (destruct p as [|? p]; [done|]). destruct p; [|done].
    repeat (apply Forall_cons in Hp as [? Hp]). unfold in_width in *. change (2 ^ 8) with 256 in *.
    cbn [fmap list_fmap seq Nat.mul Nat.add]. unfold byte_at. cbn [lookup list_lookup from_option id].
    rewrite !shl8. unfold from_le_bytes. cbn [eval foldr]. change (2 ^ 16) with 65536. split; [lia|].
    unfold digits. change (2 ^ 16) with 65536. repeat (constructor; [lia|]). constructor. }
  destruct He as [He Hd]. rewrite <- He. clearbody o.
  assert (H15 : 0 <= limb o 15 < 2 ^ 16).
  { unfold limb. destruct (lookup_lt_is_Some_2 o 15 ltac:(lia)) as [x Hx]. rewrite Hx.
    by apply (Forall_lookup_1 _ _ _ _ Hd Hx). }
  assert (Hm : Z.land (limb o 15) 0x7fff = limb o 15 mod 2 ^ 15) by (change 0x7fff with (Z.ones 15); by apply Z.land_ones).
  rewrite Hm. pose proof (Z.mod_pos_bound (limb o 15) (2 ^ 15) ltac:(lia)) as Hb.
  split.
  - rewrite eval_insert by lia. pose proof (eval_take_S o 15) as Hs. rewrite take_ge in Hs by lia.
    assert (Hlo : 0 <= eval (take 15 o) < 2 ^ 240).
    { pose proof (digits_eval (take 15 o) (Forall_take _ _ _ Hd)) as H. rewrite length_take, Ho in H. exact H. }
    change (2 ^ (16 * Z.of_nat 15)) with (2 ^ 240) in *.
    pose proof (Z.div_mod (limb o 15) (2 ^ 15) ltac:(lia)).
    apply (Z.mod_unique_pos _ _ (limb o 15 / 2 ^ 15)); change (2 ^ 255) with (2 ^ 15 * 2 ^ 240); nia.
  - split; [by rewrite length_insert|]. apply bounded_insert; [|lia].
    eapply Forall_impl; [exact Hd|]. cbn. lia.
Qed.

(** *** Bits of a little-endian integer *)

Lemma from_le_bit z i :
  Forall byte_ok z → (i < 8 * length z)%nat →
  Z.land (Z.shiftr (from_le_bytes z) (Z.of_nat i)) 1
  = Z.land (Z.shiftr (byte_at z (i / 8)) (Z.of_nat (i mod 8))) 1.
Proof.
  assert (Hbit : ∀ x n, 0 <= n → Z.land (Z.shiftr x n) 1 = Z.b2z (Z.testbit x n)).
  { intros x n Hn. change 1 with (Z.ones 1). rewrite Z.land_ones, Z.shiftr_div_pow2 by lia. symmetry. by apply Z.testbit_spec'. }
  intros Hz Hi. rewrite !Hbit by lia. f_equal.
  revert i Hi. induction Hz as [|b z Hb _ IH]; intros i Hi; [cbn in Hi; lia|].
  change (from_le_bytes (b :: z)) with (b + 256 * from_le_bytes z).
  unfold in_width in Hb. change (2 ^ 8) with 256 in Hb.
  destruct (Nat.lt_ge_cases i 8) as [Hlt|Hge].
  - rewrite Nat.div_small, Nat.mod_small by done. change (byte_at (b :: z) 0) with b.
    rewrite <- (Z.mod_pow2_bits_low (b + 256 * from_le_bytes z) 8) by lia.
    change (2 ^ 8) with 256. replace (b + 256 * from_le_bytes z) with (b + from_le_bytes z * 256) by lia.
    by rewrite Z.mod_add, Z.mod_small by lia.
  - replace i with (i - 8 + 1 * 8)%nat by lia. rewrite Nat.div_add, Nat.Div0.mod_add by done.
    rewrite Nat.add_1_r. change (byte_at (b :: z) (S ((i - 8) / 8))) with (byte_at z ((i - 8) / 8)).
    cbn [length] in Hi. rewrite <- IH by lia.
    replace (Z.of_nat (i - 8 + 1 * 8)) with (Z.of_nat (i - 8) + 8) by lia.
    rewrite <- Z.shiftr_spec by lia. f_equal. rewrite Z.shiftr_div_pow2 by lia. change (2 ^ 8) with 256.
    replace (b + 256 * from_le_bytes z) with (b + from_le_bytes z * 256) by lia.
    rewrite Z.div_add, Z.div_small by lia. lia.
Qed.

(** ** Lemmas: inversion and the ladder *)

Lemma fe_ok_18 a : fe_ok (2 ^ 17) a → fe_ok (2 ^ 18) a.
Proof. intros [Hl Hb]. split; [done|]. eapply bounded_mono; [exact Hb|lia]. Qed.

(** [a] is reduced and stands for [v]. *)
Definition stands (a : Fe) (v : Z) : Prop := fe_ok (2 ^ 17) a ∧ eqp (eval a) v.

(** [a] is a sum or difference of two reduced elements and stands for [v]. *)
Definition stands2 (a : Fe) (v : Z) : Prop := fe_ok (2 ^ 18) a ∧ eqp (eval a) v.

Lemma stands_2 a v : stands a v → stands2 a v.
Proof. intros [H E]. split; [by apply fe_ok_18|done]. Qed.

Lemma stands_mul a b v w : stands2 a v → stands2 b w → stands (fmul a b) (v * w).
Proof.
  intros [Ha Ea] [Hb Eb]. destruct (fmul_spec a b Ha Hb) as [Hr E].
  split; [by apply reduced_ok|]. by rewrite E, Ea, Eb.
Qed.

Lemma stands_add a b v w : stands a v → stands b w → stands2 (fadd a b) (v + w).
Proof.
  intros [Ha Ea] [Hb Eb]. destruct (fadd_spec a b Ha Hb) as [Hr E]. split; [done|]. by rewrite E, Ea, Eb.
Qed.

Lemma stands_sub a b v w : stands a v → stands b w → stands2 (fsub a b) (v - w).
Proof.
  intros [Ha Ea] [Hb Eb]. destruct (fsub_spec a b Ha Hb) as [Hr E]. split; [done|]. by rewrite E, Ea, Eb.
Qed.

Lemma stands_eqp a v w : stands a v → eqp v w → stands a w.
Proof. intros [Ha Ea] E. split; [done|]. by rewrite Ea. Qed.

Lemma pow_mod_spec b e : eqp (pow_mod b e) (b ^ Zpos e).
Proof.
  induction e as [e IH|e IH|]; cbn [pow_mod]; rewrite eqp_mod.
  - rewrite IH. rewrite Pos2Z.inj_xI, Z.pow_add_r, Z.pow_mul_r, Z.pow_1_r by lia.
    replace (b ^ 2) with (b * b) by (cbn; lia). rewrite Z.pow_mul_l. done.
  - rewrite IH. rewrite Pos2Z.inj_xO, Z.pow_mul_r by lia.
    replace (b ^ 2) with (b * b) by (cbn; lia). rewrite Z.pow_mul_l. done.
  - by rewrite Z.pow_1_r.
Qed.

(** The exponent that [finv] has computed after a prefix of its loop. *)
Definition finv_exp (l : list nat) : Z :=
  foldl (fun e a => if negb (a =? 2)%nat && negb (a =? 4)%nat then 2 * e + 1 else 2 * e) 1 l.

Lemma finv_exp_pos l : 0 < finv_exp l.
Proof.
  unfold finv_exp. induction l as [|x l IH] using rev_ind; [done|].
  rewrite foldl_app. cbn [foldl]. destruct (_ && _); lia.
Qed.

Lemma finv_loop i v l :
  stands i v →
  stands (foldl (fun c a => let c := fsqr c in
                            if negb (a =? 2)%nat && negb (a =? 4)%nat then fmul c i else c) i l)
         (v ^ finv_exp l).
Proof.
  intros Hi. induction l as [|x l IH] using rev_ind; [by rewrite Z.pow_1_r|].
  pose proof (finv_exp_pos l) as Hpos. unfold finv_exp in *. rewrite !foldl_app. cbn [foldl].
  set (e := foldl _ 1 l) in *. set (c := foldl _ i l) in *.
  assert (Hsq : stands (fsqr c) (v ^ (2 * e))).
  { eapply stands_eqp; [exact (stands_mul _ _ _ _ (stands_2 _ _ IH) (stands_2 _ _ IH))|].
    rewrite <- Z.pow_add_r by lia. replace (e + e) with (2 * e) by lia. reflexivity. }
  destruct (_ && _); [|exact Hsq].
  eapply stands_eqp; [exact (stands_mul _ _ _ _ (stands_2 _ _ Hsq) (stands_2 _ _ Hi))|].
  rewrite Z.pow_add_r, Z.pow_1_r by lia. reflexivity.
Qed.

(** Inversion raises to the power [p - 2]. *)
Lemma finv_spec i v : stands i v → stands (finv i) (v ^ (P25519 - 2)).
Proof.
  intros Hi. pose proof (finv_loop i v (rev (seq 0 254)) Hi) as H.
  assert (E : finv_exp (rev (seq 0 254)) = P25519 - 2) by (vm_compute; reflexivity).
  rewrite E in H. exact H.
Qed.

Lemma GF_121665_spec : stands GF_121665 121665.
Proof.
  split; [split; [done|]|done]. unfold GF_121665, bounded. cbn. repeat (constructor; [lia|]). constructor.
Qed.

(** The limbs of a ladder state stand for four numbers. *)
Definition ladder_ok (s : Ladder) (a b c d : Z) : Prop :=
  stands (la s) a ∧ stands (lb s) b ∧ stands (lc s) c ∧ stands (ld s) d.

Lemma ladder_arith_spec x x1 s x2 x3 z2 z3 :
  stands x x1 → ladder_ok s x2 x3 z2 z3 →
  let AA := (x2 + z2) * (x2 + z2) in
  let BB := (x2 - z2) * (x2 - z2) in
  let DA := (x3 - z3) * (x2 + z2) in
  let CB := (x3 + z3) * (x2 - z2) in
  ladder_ok (ladder_arith x s) (AA * BB) ((CB + DA) * (CB + DA))
    ((AA - BB) * ((AA - BB) * 121665 + AA)) ((CB - DA) * (CB - DA) * x1).
Proof.
  intros Hx (Ha & Hb & Hc & Hd). destruct s as [a b c d]. cbn [la lb lc ld] in *. cbv zeta.
  unfold ladder_arith, fsqr.
  pose proof (stands_add _ _ _ _ Ha Hc) as He. pose proof (stands_sub _ _ _ _ Ha Hc) as Ha1.
  pose proof (stands_add _ _ _ _ Hb Hd) as Hc1. pose proof (stands_sub _ _ _ _ Hb Hd) as Hb1.
  pose proof (stands_mul _ _ _ _ He He) as Hd1. pose proof (stands_mul _ _ _ _ Ha1 Ha1) as Hf.
  pose proof (stands_mul _ _ _ _ Hc1 Ha1) as Ha2. pose proof (stands_mul _ _ _ _ Hb1 He) as Hc2.
  pose proof (stands_add _ _ _ _ Ha2 Hc2) as He1. pose proof (stands_sub _ _ _ _ Ha2 Hc2) as Ha3.
  pose proof (stands_mul _ _ _ _ Ha3 Ha3) as Hb2. pose proof (stands_sub _ _ _ _ Hd1 Hf) as Hc3.
  pose proof (stands_mul _ _ _ _ Hc3 (stands_2 _ _ GF_121665_spec)) as Ha4.
  pose proof (stands_add _ _ _ _ Ha4 Hd1) as Ha5.
  pose proof (stands_mul _ _ _ _ Hc3 Ha5) as Hc4.
  pose proof (stands_mul _ _ _ _ (stands_2 _ _ Hd1) (stands_2 _ _ Hf)) as Ha6.
  pose proof (stands_mul _ _ _ _ (stands_2 _ _ Hb2) (stands_2 _ _ Hx)) as Hd2.
  pose proof (stands_mul _ _ _ _ He1 He1) as Hb3.
  split_and!; assumption.
Qed.

Lemma stands_length a v : stands a v → length a = 16%nat.
Proof. intros [[Hl _] _]. done. Qed.

Lemma ladder_swap_spec r s a b c d :
  r = 0 ∨ r = 1 → ladder_ok s a b c d →
  ladder_ok (ladder_swap r s) (cswap r a b).1 (cswap r a b).2 (cswap r c d).1 (cswap r c d).2.
Proof.
  intros Hr (Ha & Hb & Hc & Hd). unfold ladder_swap.
  rewrite !swap_spec by (done || by erewrite !stands_length by eassumption).
  unfold cswap, ladder_ok. by destruct (r =? 1); cbn [fst snd la lb lc ld].
Qed.

Lemma cswap_cswap r r' a b :
  r = 0 ∨ r = 1 → r' = 0 ∨ r' = 1 →
  cswap r (cswap r' a b).1 (cswap r' a b).2 = cswap (Z.lxor r' r) a b.
Proof. intros [-> | ->] [-> | ->]; reflexivity. Qed.

(** The state of the code is the RFC's after its pending swap. *)
Definition refines (s : Ladder) (r : RfcState) : Prop :=
  (swap r = 0 ∨ swap r = 1) ∧
  ladder_ok s (cswap (swap r) (x_2 r) (x_3 r)).1 (cswap (swap r) (x_2 r) (x_3 r)).2
              (cswap (swap r) (z_2 r) (z_3 r)).1 (cswap (swap r) (z_2 r) (z_3 r)).2.

Lemma bit_01 x n : Z.land (Z.shiftr x n) 1 = 0 ∨ Z.land (Z.shiftr x n) 1 = 1.
Proof.
  assert (E : Z.land (Z.shiftr x n) 1 = Z.shiftr x n mod 2) by (by apply (Z.land_ones _ 1)).
  rewrite E. pose proof (Z.mod_pos_bound (Z.shiftr x n) 2 ltac:(lia)). lia.
Qed.

(** The RFC's reductions modulo [p] do not change what a step stands for. *)
Lemma rfc_step_eqp x1 x2 x3 z2 z3 :
  let A := (x2 + z2) mod P25519 in
  let AA := (A * A) mod P25519 in
  let B := (x2 - z2) mod P25519 in
  let BB := (B * B) mod P25519 in
  let E := (AA - BB) mod P25519 in
  let DA := (((x3 - z3) mod P25519) * A) mod P25519 in
  let CB := (((x3 + z3) mod P25519) * B) mod P25519 in
  let AA' := (x2 + z2) * (x2 + z2) in
  let BB' := (x2 - z2) * (x2 - z2) in
  let DA' := (x3 - z3) * (x2 + z2) in
  let CB' := (x3 + z3) * (x2 - z2) in
  eqp (AA' * BB') ((AA * BB) mod P25519) ∧
  eqp ((AA' - BB') * ((AA' - BB') * 121665 + AA')) ((E * (AA + 121665 * E)) mod P25519) ∧
  eqp ((CB' + DA') * (CB' + DA')) (((DA + CB) * (DA + CB)) mod P25519) ∧
  eqp ((CB' - DA') * (CB' - DA') * x1) ((x1 * ((DA - CB) * (DA - CB))) mod P25519).
Proof.
  intros A AA B BB E DA CB AA' BB' DA' CB'.
  assert (HA : eqp A (x2 + z2)) by apply eqp_mod. assert (HB : eqp B (x2 - z2)) by apply eqp_mod.
  assert (HAA : eqp AA AA') by (unfold AA; rewrite eqp_mod, HA; reflexivity).
  assert (HBB : eqp BB BB') by (unfold BB; rewrite eqp_mod, HB; reflexivity).
  assert (HE : eqp E (AA' - BB')) by (unfold E; rewrite eqp_mod, HAA, HBB; reflexivity).
  assert (HDA : eqp DA DA') by (unfold DA; rewrite eqp_mod, eqp_mod, HA; reflexivity).
  assert (HCB : eqp CB CB') by (unfold CB; rewrite eqp_mod, eqp_mod, HB; reflexivity).
  clearbody A AA B BB E DA CB AA' BB' DA' CB'.
  split_and!; rewrite eqp_mod, ?HE, ?HAA, ?HBB, ?HDA, ?HCB; unfold eqp; f_equal; ring.
Qed.

Lemma ladder_step_refines z x x1 s r i :
  stands x x1 → Forall byte_ok z → (i < 8 * length z)%nat → refines s r →
  refines (ladder_step z x s i) (rfc_step (from_le_bytes z) x1 r i).
Proof.
  intros Hx Hz Hi [Hsw Hs]. unfold ladder_step, rfc_step. rewrite <- from_le_bit by done.
  pose proof (bit_01 (from_le_bytes z) (Z.of_nat i)) as Hk.
  set (k := Z.land (Z.shiftr (from_le_bytes z) (Z.of_nat i)) 1) in *. clearbody k.
  apply (ladder_swap_spec k) in Hs; [|exact Hk]. rewrite !cswap_cswap in Hs by assumption.
  destruct (cswap (Z.lxor (swap r) k) (x_2 r) (x_3 r)) as [x2 x3].
  destruct (cswap (Z.lxor (swap r) k) (z_2 r) (z_3 r)) as [z2 z3]. cbn [fst snd] in Hs.
  pose proof (ladder_arith_spec x x1 _ _ _ _ _ Hx Hs) as Ho. cbv zeta in Ho. clear Hs.
  pose proof (rfc_step_eqp x1 x2 x3 z2 z3) as He. cbv zeta in He. destruct He as (E1 & E2 & E3 & E4).
  assert (Ho' : ladder_ok (ladder_arith x (ladder_swap k s)) _ _ _ _)
    by (destruct Ho as (Ha & Hb & Hc & Hd);
        exact (conj (stands_eqp _ _ _ Ha E1) (conj (stands_eqp _ _ _ Hb E3)
              (conj (stands_eqp _ _ _ Hc E2) (stands_eqp _ _ _ Hd E4))))).
  apply (ladder_swap_spec k) in Ho'; [|exact Hk].
  split; [exact Hk|]. exact Ho'.
Qed.

Lemma ladder_refines z x x1 l s r :
  stands x x1 → Forall byte_ok z → Forall (fun i => (i < 8 * length z)%nat) l → refines s r →
  refines (foldl (ladder_step z x) s l) (foldl (rfc_step (from_le_bytes z) x1) r l).
Proof.
  intros Hx Hz Hl. revert s r. induction Hl as [|i l Hi _ IH]; intros s r Hs; [done|].
  cbn [foldl]. apply IH. by apply ladder_step_refines.
Qed.

Lemma in_width_land w x y : 0 <= w → in_width w x → in_width w y → in_width w (Z.land x y).
Proof.
  intros Hw Hx Hy. rewrite <- (wrap_small w x Hx), <- (wrap_small w y Hy).
  replace (Z.land (wrap w x) (wrap w y)) with (wrap w (Z.land x y)); [by apply wrap_range|].
  apply Z.bits_inj'. intros i Hi. rewrite Z.land_spec, !testbit_wrap, Z.land_spec by done. by destruct (i <? w).
Qed.

Lemma in_width_lor w x y : 0 <= w → in_width w x → in_width w y → in_width w (Z.lor x y).
Proof.
  intros Hw Hx Hy. rewrite <- (wrap_small w x Hx), <- (wrap_small w y Hy).
  replace (Z.lor (wrap w x) (wrap w y)) with (wrap w (Z.lor x y)); [by apply wrap_range|].
  apply Z.bits_inj'. intros i Hi. rewrite Z.lor_spec, !testbit_wrap, Z.lor_spec by done. by destruct (i <? w).
Qed.

Lemma clamp_spec n :
  length n = 32%nat → Forall byte_ok n →
  length (clamp n) = 32%nat ∧ Forall byte_ok (clamp n) ∧ from_le_bytes (clamp n) = decode_scalar n.
Proof.
  intros Hl Hn. assert (E : clamp n = <[31%nat := Z.lor (Z.land (byte_at n 31) 127) 64]>
                                       (<[0%nat := Z.land (byte_at n 0) 248]> n)).
  { do 32 (destruct n as [|? n]; [done|]). by destruct n. }
  rewrite E. split_and!; [by rewrite !length_insert| |].
  2:{ do 32 (destruct n as [|? n]; [done|]). by destruct n. }
  assert (Hb : ∀ i, byte_ok (byte_at n i)).
  { intros i. unfold byte_at. destruct (n !! i) as [b|] eqn:Eb; [by apply (Forall_lookup_1 _ _ _ _ Hn Eb)|].
    by apply in_width_0. }
  apply Forall_insert; [apply Forall_insert; [done|]|].
  - apply in_width_land; [done|apply Hb|by vm_compute].
  - apply in_width_lor; [done|apply in_width_land; [done|apply Hb|by vm_compute]|by vm_compute].
Qed.

Lemma stands_const k : fe_ok (2 ^ 17) (<[0%nat := k]> ZERO) → stands (<[0%nat := k]> ZERO) k.
Proof. intros H. split; [done|]. change (eval (<[0%nat := k]> ZERO)) with (k + 0). rewrite Z.add_0_r. reflexivity. Qed.

Lemma scalarmult_rfc n p :
  length n = 32%nat → Forall byte_ok n → length p = 32%nat → Forall byte_ok p →
  x25519_scalarmult n p = rfc_scalarmult n p.
Proof.
  intros Hln Hn Hlp Hp. destruct (clamp_spec n Hln Hn) as (Hlz & Hz & Ez).
  destruct (unpack_spec p Hlp Hp) as [Eu Hu]. set (u := decode_u p) in *.
  assert (Hx : stands (unpack p) u) by (split; [exact Hu|rewrite Eu; reflexivity]).
  assert (H1 : stands (<[0%nat := 1]> ZERO) 1).
  { apply stands_const. split; [reflexivity|]. unfold bounded, ZERO. cbn. repeat (constructor; [lia|]). constructor. }
  assert (H0 : stands ZERO 0).
  { split; [|reflexivity]. split; [reflexivity|]. unfold bounded, ZERO. cbn. repeat (constructor; [lia|]). constructor. }
  unfold x25519_scalarmult, rfc_scalarmult, rfc_x25519. rewrite <- Ez. fold u.
  set (s0 := mkLadder _ _ _ _). set (r0 := mkRfc 1 0 u 1 0).
  assert (Hidx : Forall (fun i => (i < 8 * length (clamp n))%nat) (rev (seq 0 255))).
  { rewrite Hlz. apply Forall_rev, Forall_seq. lia. }
  assert (Href : refines s0 r0) by (split; [left; reflexivity|exact (conj H1 (conj Hx (conj H0 H1)))]).
  pose proof (ladder_refines (clamp n) (unpack p) u _ s0 r0 Hx Hz Hidx Href) as [_ (Ha & _ & Hc & _)].
  set (s := foldl _ s0 _) in *. set (r := foldl _ r0 _) in *. clearbody s r.
  destruct (cswap (swap r) (x_2 r) (x_3 r)) as [x2 x3]. destruct (cswap (swap r) (z_2 r) (z_3 r)) as [z2 z3].
  cbn [fst snd] in *. apply finv_spec in Hc.
  destruct Ha as [Ha Ea], Hc as [Hc Ec].
  destruct (fmul_spec _ _ (fe_ok_18 _ Ha) (fe_ok_18 _ Hc)) as [Hr Em].
  rewrite pack_spec by exact Hr. apply (f_equal (to_le_bytes 32)). change (eqp (eval (fmul (la s) (finv (lc s)))) (x2 * pow_mod z2 (Z.to_pos (P25519 - 2)))).
  rewrite Em, Ea, Ec, pow_mod_spec. reflexivity.
Qed.

Lemma length_to_le_bytes n x : length (to_le_bytes n x) = n.
Proof. revert x. induction n as [|n IH]; intros x; cbn [to_le_bytes length]; [done|]. by rewrite IH. Qed.

Lemma from_to_le_bytes n x : 0 <= x < 256 ^ Z.of_nat n → from_le_bytes (to_le_bytes n x) = x.
Proof.
  revert x. induction n as [|n IH]; intros x Hx; cbn [to_le_bytes].
  - change (256 ^ Z.of_nat 0) with 1 in Hx. cbn. lia.
  - change (from_le_bytes (?a :: ?l)) with (a + 256 * from_le_bytes l).
    rewrite Nat2Z.inj_succ, Z.pow_succ_r in Hx by lia.
    rewrite IH; [pose proof (Z.div_mod x 256 ltac:(lia)); lia|].
    split; [apply Z.div_pos; lia|apply Z.div_lt_upper_bound; lia].
Qed.

Lemma to_le_bytes_inj n x y :
  to_le_bytes n x = to_le_bytes n y → 0 <= x < 256 ^ Z.of_nat n → 0 <= y < 256 ^ Z.of_nat n → x = y.
Proof. intros E Hx Hy. by rewrite <- (from_to_le_bytes n x Hx), E, from_to_le_bytes. Qed.

(** ** The operations of the handshake *)

#[export] Instance x25519_ops : X25519Ops := {|
  scalarmult := x25519_scalarmult;
  scalarmult_base := x25519_scalarmult_base;
|}.

Lemma x25519_key_ok k : key_ok (XO := x25519_ops) k.
Proof. reflexivity. Qed.

(** ** Properties *)

(** C11: the hand-written scalar multiplication is X25519.  For every 32-byte
    scalar and every 32-byte u-coordinate, canonical or not, [scalarmult]
    returns the bytes of the RFC 7748 function: the limb arithmetic at 64-bit
    width, the reductions and the final canonical form are exact, and swapping
    before and after each step agrees with the RFC's deferred swap. *)
Theorem scalarmult_is_rfc7748 (n p : bytes)
  (Hln : length n = 32%nat) (Hn : Forall byte_ok n) (Hlp : length p = 32%nat) (Hp : Forall byte_ok p) :
  x25519_scalarmult n p = rfc_scalarmult n p.
Proof. by apply scalarmult_rfc. Qed.

Lemma scalarmult_is_rfc7748_witness :
  x25519_scalarmult (replicate 32 77) (replicate 32 255) = rfc_scalarmult (replicate 32 77) (replicate 32 255).
Proof.
  apply (scalarmult_is_rfc7748 (replicate 32 77) (replicate 32 255)); try reflexivity;
    apply Forall_replicate; split; (discriminate || reflexivity).
Defined.

(** Field multiplication is exact at 64-bit width.  For limbs of up
    to 18 bits and sign, which sums and differences of products are,
    [fmul] returns the product modulo [2^255 - 19] with limbs 1 to 15 in 16 bits and
    limb 0 within 38 of that range, so that any number of operations of the ladder can follow. *)
Theorem fmul_exact (a b : Fe) (Ha : fe_ok (2 ^ 18) a) (Hb : fe_ok (2 ^ 18) b) :
  reduced (fmul a b) ∧ eval (fmul a b) mod P25519 = (eval a * eval b) mod P25519.
Proof. by apply fmul_spec. Qed.

Lemma fmul_exact_witness :
  eval (fmul (replicate 16 (-262144)) (replicate 16 262143)) mod P25519
  = (eval (replicate 16 (-262144)) * eval (replicate 16 262143)) mod P25519.
Proof.
  apply (fmul_exact (replicate 16 (-262144)) (replicate 16 262143));
    (split; [reflexivity|apply Forall_replicate; split; discriminate]).
Defined.

(** [pack] returns the canonical encoding: the 32 little-endian bytes of
    the value modulo [p], below [p], for every result of a multiplication;
    so equal field elements have equal encodings whatever their limbs. *)
Theorem pack_canonical (a b : Fe) (Ha : reduced a) (Hb : reduced b) :
  pack a = to_le_bytes 32 (eval a mod P25519) ∧ (pack a = pack b ↔ eval a mod P25519 = eval b mod P25519).
Proof.
  rewrite !pack_spec by done. split; [done|]. split; [|congruence].
  intros E. apply (to_le_bytes_inj 32) in E; [done|..];
    match goal with |- context [?x mod P25519] => pose proof (Z.mod_pos_bound x P25519 ltac:(done)) end;
    (split; [lia|]; etrans; [apply H|]; done).
Qed.

Lemma pack_canonical_witness :
  pack (fmul (replicate 16 5) GF_121665) = pack (fmul GF_121665 (replicate 16 5)).
Proof.
  assert (Hok : fe_ok (2 ^ 18) (replicate 16 5) ∧ fe_ok (2 ^ 18) GF_121665).
  { split; (split; [reflexivity|]); cbn; repeat (apply Forall_cons_2; [lia|]); apply Forall_nil_2. }
  apply (proj2 (pack_canonical (fmul (replicate 16 5) GF_121665) (fmul GF_121665 (replicate 16 5))
    (proj1 (fmul_spec _ _ (proj1 Hok) (proj2 Hok))) (proj1 (fmul_spec _ _ (proj2 Hok) (proj1 Hok))))).
  vm_compute; reflexivity.
Defined.
