(* ===== verification/Noise.v ===== *)
(** * The Noise IK handshake

    Models [desmos-proto/src/handshake/mod.rs] (the [SymmetricState]) and
    [noise.rs] (the [Initiator] and the [Responder]).  Methods on [&mut self]
    are in the state-and-error monad [stM]; the random bytes an ephemeral key
    is drawn from are an argument ([None] when the generator fails).  The
    primitives are [RingCrypto] and [X25519Ops]. *)

From stdpp Require Import base list gmap numbers strings.
From Stdlib Require Import ZArith Lia Ascii.
From S2P Require Import Prelude Crypto.

(** ** [handshake/mod.rs] *)

Definition HASH_LEN : nat := 32.

Record SymmetricState := mkSymmetric {
  ss_ck : bytes;
  ss_h : bytes;
  ss_k : option AeadKey;
  ss_n : Z;
}.

(** Four zero bytes, then the counter in big-endian. *)
Definition nonce_bytes (counter : Z) : bytes := replicate 4 0 ++ to_be_bytes 8 counter.

Section Symmetric.
  Context {RC : RingCrypto}.

Definition sha256 (data : bytes) : bytes := ring_sha256 data.

Definition SymmetricState_new (protocol_name : bytes) : SymmetricState :=
  let h := if (length protocol_name <=? HASH_LEN)%nat
           then protocol_name ++ replicate (HASH_LEN - length protocol_name) 0
           else sha256 protocol_name in
  mkSymmetric h h None 0.

Definition mix_key (ikm : bytes) : stM SymmetricState CryptoError () :=
  let! st := st_get in
  let! out := st_lift (hkdf_derive (ss_ck st) ikm [] (HASH_LEN + KEY_LEN)) in
  st_modify (fun st => mkSymmetric (take HASH_LEN out) (ss_h st) (ss_k st) (ss_n st)) ;!
  let! k := st_lift (AeadKey_new (drop HASH_LEN out)) in
  st_modify (fun st => mkSymmetric (ss_ck st) (ss_h st) (Some k) 0).

Definition mix_hash (data : bytes) (st : SymmetricState) : SymmetricState :=
  mkSymmetric (ss_ck st) (sha256 (ss_h st ++ data)) (ss_k st) (ss_n st).

(** [self.n = self.n.checked_add(1).ok_or(AeadFailed)?]. *)
Definition bump_nonce : stM SymmetricState CryptoError () :=
  let! st := st_get in
  match checked_add 64 (ss_n st) 1 with
  | Some n => st_modify (fun st => mkSymmetric (ss_ck st) (ss_h st) (ss_k st) n)
  | None => st_throw AeadFailed
  end.

Definition encrypt_and_hash (plaintext : bytes) : stM SymmetricState CryptoError bytes :=
  let! st := st_get in
  let! out := match ss_k st with
              | Some k =>
                  let! c := st_lift (seal_in_place k (nonce_bytes (ss_n st)) (ss_h st) plaintext) in
                  bump_nonce ;! st_ret c
              | None => st_ret plaintext
              end in
  st_modify (mix_hash out) ;! st_ret out.

Definition decrypt_and_hash (ciphertext : bytes) : stM SymmetricState CryptoError bytes :=
  let! st := st_get in
  let! pt := match ss_k st with
             | Some k =>
                 let! p := st_lift (open_in_place k (nonce_bytes (ss_n st)) (ss_h st) ciphertext) in
                 bump_nonce ;! st_ret p
             | None => st_ret ciphertext
             end in
  st_modify (mix_hash ciphertext) ;! st_ret pt.

Definition split (st : SymmetricState) : result (bytes * bytes) CryptoError :=
  let? out := hkdf_derive (ss_ck st) [] [] (KEY_LEN * 2) in
  Ok (take KEY_LEN out, drop KEY_LEN out).

Definition handshake_hash (st : SymmetricState) : bytes := ss_h st.

End Symmetric.

(** ** [handshake/noise.rs] *)

Definition PROTOCOL_NAME : bytes :=
  (fun c => Z.of_nat (nat_of_ascii c)) <$> String.list_ascii_of_string "Noise_IK_25519_ChaChaPoly_SHA256".

Definition MSG_1_LEN : nat := PUBLIC_KEY_LEN + (PUBLIC_KEY_LEN + TAG_LEN) + TAG_LEN.
Definition MSG_2_LEN : nat := PUBLIC_KEY_LEN + TAG_LEN.

Inductive HandshakeError :=
| HCrypto (e : CryptoError)
| UnknownStatic
| BadMessage
| WrongState.

#[export] Instance HandshakeError_eq_dec : EqDecision HandshakeError.
Proof. solve_decision. Defined.

Record TransportKeys := mkTransportKeys {
  tk_send : bytes;
  tk_recv : bytes;
  tk_handshake_hash : bytes;
}.

Record Initiator := mkInitiator {
  i_symm : SymmetricState;
  i_s : X25519PrivateKey;
  i_e : option X25519PrivateKey;
  i_rs : PublicKey;
}.

Record Responder := mkResponder {
  r_symm : SymmetricState;
  r_s : X25519PrivateKey;
  r_re : option PublicKey;
  r_rs : option PublicKey;
  r_known_initiators : list PublicKey;
}.

(** A call on the symmetric state; [?] converts the error. *)
Definition i_sym {A} (m : stM SymmetricState CryptoError A) : stM Initiator HandshakeError A :=
  st_zoom i_symm (fun t s => mkInitiator t (i_s s) (i_e s) (i_rs s)) HCrypto m.
Definition r_sym {A} (m : stM SymmetricState CryptoError A) : stM Responder HandshakeError A :=
  st_zoom r_symm (fun t s => mkResponder t (r_s s) (r_re s) (r_rs s) (r_known_initiators s)) HCrypto m.

Section Handshake.
  Context {RC : RingCrypto} {XO : X25519Ops}.

Definition Initiator_new (static_key : X25519PrivateKey) (responder_static : PublicKey)
    (prologue : bytes) : Initiator :=
  let symm := SymmetricState_new PROTOCOL_NAME in
  let symm := mix_hash prologue symm in
  let symm := mix_hash (pk_bytes responder_static) symm in
  mkInitiator symm static_key None responder_static.

Definition write_message_1 (rng : option bytes) : stM Initiator HandshakeError bytes :=
  let! self := st_get in
  match i_e self with
  | Some _ => st_throw WrongState
  | None =>
      let! e := st_lift (result_map_err HCrypto (X25519PrivateKey_generate rng)) in
      let e_pub := public_key e in
      i_sym (st_modify (mix_hash (pk_bytes e_pub))) ;!
      i_sym (mix_key (diffie_hellman e (i_rs self))) ;!
      let! enc_s := i_sym (encrypt_and_hash (pk_bytes (public_key (i_s self)))) in
      i_sym (mix_key (diffie_hellman (i_s self) (i_rs self))) ;!
      let! enc_payload := i_sym (encrypt_and_hash []) in
      st_modify (fun s => mkInitiator (i_symm s) (i_s s) (Some e) (i_rs s)) ;!
      st_ret (pk_bytes e_pub ++ enc_s ++ enc_payload)
  end.

(** Consumes the initiator: only the outcome is left. *)
Definition read_message_2 (ini : Initiator) (msg : bytes) : result TransportKeys HandshakeError :=
  if negb (length msg =? MSG_2_LEN)%nat then Err BadMessage
  else match i_e ini with
  | None => Err WrongState
  | Some e =>
      let re := mkPublicKey (take PUBLIC_KEY_LEN msg) in
      let enc_payload := drop PUBLIC_KEY_LEN msg in
      snd ((i_sym (st_modify (mix_hash (pk_bytes re))) ;!
       i_sym (mix_key (diffie_hellman e re)) ;!
       i_sym (mix_key (diffie_hellman (i_s ini) re)) ;!
       let! pt := i_sym (decrypt_and_hash enc_payload) in
       if negb (length pt =? 0)%nat then st_throw BadMessage
       else
         let! self := st_get in
         let! ks := st_lift (result_map_err HCrypto (split (i_symm self))) in
         st_ret (mkTransportKeys (fst ks) (snd ks) (handshake_hash (i_symm self)))) ini)
  end.

Definition Responder_new (static_key : X25519PrivateKey) (known_initiators : list PublicKey)
    (prologue : bytes) : Responder :=
  let symm := SymmetricState_new PROTOCOL_NAME in
  let symm := mix_hash prologue symm in
  let symm := mix_hash (pk_bytes (public_key static_key)) symm in
  mkResponder symm static_key None None known_initiators.

Definition read_message_1 (msg : bytes) : stM Responder HandshakeError () :=
  if negb (length msg =? MSG_1_LEN)%nat then st_throw BadMessage
  else
  let! self := st_get in
  match r_re self with
  | Some _ => st_throw WrongState
  | None =>
      let re := mkPublicKey (take PUBLIC_KEY_LEN msg) in
      let enc_s := slice PUBLIC_KEY_LEN (PUBLIC_KEY_LEN + PUBLIC_KEY_LEN + TAG_LEN) msg in
      let enc_payload := drop (PUBLIC_KEY_LEN + PUBLIC_KEY_LEN + TAG_LEN) msg in
      r_sym (st_modify (mix_hash (pk_bytes re))) ;!
      r_sym (mix_key (diffie_hellman (r_s self) re)) ;!
      let! s_bytes := r_sym (decrypt_and_hash enc_s) in
      if negb (length s_bytes =? PUBLIC_KEY_LEN)%nat then st_throw BadMessage
      else
        let rs := mkPublicKey s_bytes in
        if negb (length (r_known_initiators self) =? 0)%nat &&
           negb (existsb (fun k => bool_decide (pk_bytes k = pk_bytes rs)) (r_known_initiators self))
        then st_throw UnknownStatic
        else
          r_sym (mix_key (diffie_hellman (r_s self) rs)) ;!
          let! pt := r_sym (decrypt_and_hash enc_payload) in
          if negb (length pt =? 0)%nat then st_throw BadMessage
          else st_modify (fun s => mkResponder (r_symm s) (r_s s) (Some re) (Some rs)
                                     (r_known_initiators s))
  end.

Definition write_message_2 (res : Responder) (rng : option bytes)
  : result (bytes * TransportKeys) HandshakeError :=
  match r_re res, r_rs res with
  | Some re, Some rs =>
      snd ((let! e := st_lift (result_map_err HCrypto (X25519PrivateKey_generate rng)) in
       let e_pub := public_key e in
       r_sym (st_modify (mix_hash (pk_bytes e_pub))) ;!
       r_sym (mix_key (diffie_hellman e re)) ;!
       r_sym (mix_key (diffie_hellman e rs)) ;!
       let! enc_payload := r_sym (encrypt_and_hash []) in
       let! self := st_get in
       let! ks := st_lift (result_map_err HCrypto (split (r_symm self))) in
       st_ret (pk_bytes e_pub ++ enc_payload,
               mkTransportKeys (snd ks) (fst ks) (handshake_hash (r_symm self)))) res)
  | _, _ => Err WrongState
  end.

Definition initiator_static (res : Responder) : option PublicKey := r_rs res.

End Handshake.

(** ** Lemmas on the symmetric state *)

Section SymmetricLemmas.
  Context {RC : RingCrypto} {RL : RingLaws}.

(** [MixKey] cannot fail, installs a key and resets the counter. *)
Lemma mix_key_ok ikm st :
  ∃ st', mix_key ikm st = (st', Ok ()) ∧ is_Some (ss_k st') ∧ ss_n st' = 0 ∧ ss_h st' = ss_h st.
Proof.
  unfold mix_key. rewrite (st_bind_ok _ _ _ st st) by done.
  destruct (hkdf_derive_ok (ss_ck st) ikm [] (HASH_LEN + KEY_LEN)) as (okm & -> & Hlen); [vm_compute; lia|].
  rewrite (st_bind_ok _ _ _ st okm) by done.
  erewrite st_bind_ok by done. unfold AeadKey_new.
  rewrite length_drop, Hlen, Nat.add_comm, Nat.add_sub, Nat.eqb_refl. cbn [negb].
  erewrite st_bind_ok by done. eexists. split; [done|]. by eauto.
Qed.

Lemma split_ok st : ∃ k1 k2, split st = Ok (k1, k2) ∧ length k1 = KEY_LEN ∧ length k2 = KEY_LEN.
Proof.
  unfold split. destruct (hkdf_derive_ok (ss_ck st) [] [] (KEY_LEN * 2)) as (okm & -> & Hlen);
    [vm_compute; lia|]. unfold KEY_LEN in *.
  do 2 eexists. split; [done|]. rewrite length_take, length_drop. lia.
Qed.

Definition short (p : bytes) : Prop := (length p <= 1024)%nat.

Lemma short_limit p : short p → Z.of_nat (length p) <= (2 ^ 32 - 1) * 64.
Proof. unfold short. lia. Qed.

Lemma bump_nonce_ok st :
  ss_n st = 0 → bump_nonce st = (mkSymmetric (ss_ck st) (ss_h st) (ss_k st) 1, Ok ()).
Proof. intros Hn. unfold bump_nonce, st_bind, st_get. rewrite Hn. done. Qed.

(** Sealing under a fresh key, and the peer's opening of the result, end in
    the same symmetric state. *)
Lemma encrypt_decrypt st p :
  is_Some (ss_k st) → ss_n st = 0 → short p →
  ∃ st' c, encrypt_and_hash p st = (st', Ok c) ∧ length c = (length p + TAG_LEN)%nat ∧
           decrypt_and_hash c st = (st', Ok p).
Proof.
  intros [k Hk] Hn Hp%short_limit. destruct (ring_seal_ok (aead_key k) (nonce_bytes (ss_n st)) (ss_h st) p Hp)
    as (c & Hc & Hlen). pose proof (ring_open_seal _ _ _ _ _ Hc) as Ho.
  exists (mix_hash c (mkSymmetric (ss_ck st) (ss_h st) (ss_k st) 1)), c. split_and!.
  - unfold encrypt_and_hash. rewrite (st_bind_ok _ _ _ st st) by done. rewrite Hk.
    unfold seal_in_place. rewrite Hc. erewrite st_bind_ok; [done|].
    erewrite st_bind_ok by done. erewrite st_bind_ok by by apply bump_nonce_ok. by rewrite Hk.
  - done.
  - unfold decrypt_and_hash. rewrite (st_bind_ok _ _ _ st st) by done. rewrite Hk.
    unfold open_in_place. rewrite (proj2 (Nat.ltb_ge _ _)) by (unfold TAG_LEN; lia).
    rewrite Ho. erewrite st_bind_ok; [done|].
    erewrite st_bind_ok by done. erewrite st_bind_ok by by apply bump_nonce_ok. by rewrite Hk.
Qed.

End SymmetricLemmas.

(** ** The two exchanges *)

Lemma i_sym_ok {A} (m : stM SymmetricState CryptoError A) ini st' a :
  m (i_symm ini) = (st', Ok a) →
  i_sym m ini = (mkInitiator st' (i_s ini) (i_e ini) (i_rs ini), Ok a).
Proof. intros H. unfold i_sym. by erewrite st_zoom_ok. Qed.

Lemma r_sym_ok {A} (m : stM SymmetricState CryptoError A) res st' a :
  m (r_symm res) = (st', Ok a) →
  r_sym m res = (mkResponder st' (r_s res) (r_re res) (r_rs res) (r_known_initiators res), Ok a).
Proof. intros H. unfold r_sym. by erewrite st_zoom_ok. Qed.

(** Runs the next call of a chain, given what it does on the symmetric state. *)
Ltac ini_step H := erewrite st_bind_ok by (apply i_sym_ok; cbn [i_symm]; exact H); cbn beta.
Ltac res_step H := erewrite st_bind_ok by (apply r_sym_ok; cbn [r_symm]; exact H); cbn beta.

Definition whitelisted (known : list PublicKey) (k : PublicKey) : Prop := known = [] ∨ k ∈ known.

Lemma whitelist_passes known k :
  whitelisted known k →
  negb (length known =? 0)%nat && negb (existsb (fun k' => bool_decide (pk_bytes k' = pk_bytes k)) known)
  = false.
Proof.
  intros [->|Hin]; [done|]. apply andb_false_iff. right. apply negb_false_iff, existsb_exists.
  exists k. split; [by apply list_elem_of_In|]. by apply bool_decide_eq_true.
Qed.

Section Exchange.
  Context {RC : RingCrypto} {RL : RingLaws} {XO : X25519Ops}.

Lemma message_1_exchange (ini : Initiator) (res : Responder) (seed : bytes) :
  i_symm ini = r_symm res → i_e ini = None → r_re res = None →
  i_rs ini = public_key (r_s res) →
  dh_agree (mkPrivateKey seed) (r_s res) → dh_agree (i_s ini) (r_s res) →
  key_ok (mkPrivateKey seed) → key_ok (i_s ini) →
  whitelisted (r_known_initiators res) (public_key (i_s ini)) →
  ∃ msg st', write_message_1 (Some seed) ini
      = (mkInitiator st' (i_s ini) (Some (mkPrivateKey seed)) (i_rs ini), Ok msg) ∧
    length msg = MSG_1_LEN ∧
    read_message_1 msg res
      = (mkResponder st' (r_s res) (Some (public_key (mkPrivateKey seed)))
           (Some (public_key (i_s ini))) (r_known_initiators res), Ok ()).
Proof.
  intros Hsym Hie Hre Hrs Hes Hss Hke Hks Hwl. unfold key_ok, PUBLIC_KEY_LEN in *.
  set (e := mkPrivateKey seed) in *. set (st0 := mix_hash (pk_bytes (public_key e)) (i_symm ini)).
  destruct (mix_key_ok (diffie_hellman e (i_rs ini)) st0) as (st1 & H1 & Hk1 & Hn1 & _).
  destruct (encrypt_decrypt st1 (pk_bytes (public_key (i_s ini))) Hk1 Hn1)
    as (st2 & enc_s & H2 & Hl2 & H2d); [unfold short; lia|].
  destruct (mix_key_ok (diffie_hellman (i_s ini) (i_rs ini)) st2) as (st3 & H3 & Hk3 & Hn3 & _).
  destruct (encrypt_decrypt st3 [] Hk3 Hn3) as (st4 & enc_p & H4 & Hl4 & H4d); [unfold short; simpl; lia|].
  exists (pk_bytes (public_key e) ++ enc_s ++ enc_p), st4. unfold TAG_LEN in *. simpl length in Hl4.
  assert (Hlen : length (pk_bytes (public_key e) ++ enc_s ++ enc_p) = MSG_1_LEN).
  { rewrite !length_app, Hke, Hl2, Hl4, Hks. done. }
  split_and!; [|done|].
  - unfold write_message_1. rewrite (st_bind_ok _ _ _ ini ini) by done. rewrite Hie.
    erewrite st_bind_ok by done. cbn zeta. fold e.
    ini_step (eq_refl (st0, @Ok () CryptoError ())). ini_step H1. ini_step H2. ini_step H3. ini_step H4.
    by erewrite st_bind_ok by done.
  - unfold read_message_1. rewrite Hlen, Nat.eqb_refl. cbn [negb].
    rewrite (st_bind_ok _ _ _ res res) by done. rewrite Hre. cbn zeta.
    unfold PUBLIC_KEY_LEN, slice, TAG_LEN.
    rewrite take_app_length' by done.
    rewrite drop_app_length' by done. rewrite take_app_length' by (rewrite Hl2, Hks; done).
    rewrite app_assoc, drop_app_length' by (rewrite length_app, Hke, Hl2, Hks; done).
    replace (mkPublicKey (pk_bytes (public_key e))) with (public_key e) by done.
    rewrite Hrs in H1, H3. unfold dh_agree in *. rewrite Hes in H1. rewrite Hss in H3.
    res_step (f_equal (fun s => (mix_hash (pk_bytes (public_key e)) s, @Ok () CryptoError ())) (eq_sym Hsym)).
    fold st0. res_step H1. res_step H2d. rewrite Hks, Nat.eqb_refl. cbn [negb].
    rewrite (whitelist_passes _ (mkPublicKey (pk_bytes (public_key (i_s ini))))) by done.
    res_step H3. res_step H4d. done.
Qed.

Lemma message_2_exchange (ini : Initiator) (res : Responder) (ei : X25519PrivateKey) (seed : bytes) :
  i_symm ini = r_symm res → i_e ini = Some ei → r_re res = Some (public_key ei) →
  r_rs res = Some (public_key (i_s ini)) →
  dh_agree ei (mkPrivateKey seed) → dh_agree (i_s ini) (mkPrivateKey seed) →
  key_ok (mkPrivateKey seed) →
  ∃ msg k1 k2 h, write_message_2 res (Some seed) = Ok (msg, mkTransportKeys k2 k1 h) ∧
    length msg = MSG_2_LEN ∧ length k1 = KEY_LEN ∧ length k2 = KEY_LEN ∧
    read_message_2 ini msg = Ok (mkTransportKeys k1 k2 h).
Proof.
  intros Hsym Hie Hre Hrs Hee Hse Hke. unfold key_ok, PUBLIC_KEY_LEN in *.
  set (e := mkPrivateKey seed) in *. set (st0 := mix_hash (pk_bytes (public_key e)) (i_symm ini)).
  destruct (mix_key_ok (diffie_hellman e (public_key ei)) st0) as (st1 & H1 & Hk1 & Hn1 & _).
  destruct (mix_key_ok (diffie_hellman e (public_key (i_s ini))) st1) as (st2 & H2 & Hk2 & Hn2 & _).
  destruct (encrypt_decrypt st2 [] Hk2 Hn2) as (st3 & enc_p & H3 & Hl3 & H3d); [unfold short; simpl; lia|].
  destruct (split_ok st3) as (k1 & k2 & Hs & Hlk1 & Hlk2). unfold TAG_LEN in *. simpl length in Hl3.
  exists (pk_bytes (public_key e) ++ enc_p), k1, k2, (handshake_hash st3).
  assert (Hlen : length (pk_bytes (public_key e) ++ enc_p) = MSG_2_LEN).
  { rewrite length_app, Hke, Hl3. done. }
  split_and!; [|done..|].
  - unfold write_message_2. rewrite Hre, Hrs. erewrite st_bind_ok by done. cbn zeta. fold e.
    res_step (f_equal (fun s => (mix_hash (pk_bytes (public_key e)) s, @Ok () CryptoError ())) (eq_sym Hsym)).
    fold st0. res_step H1. res_step H2. res_step H3. erewrite st_bind_ok by done.
    cbn [r_symm]. rewrite Hs. by erewrite st_bind_ok by done.
  - unfold read_message_2. rewrite Hlen, Nat.eqb_refl. cbn [negb]. rewrite Hie. cbn zeta.
    unfold PUBLIC_KEY_LEN. rewrite take_app_length', drop_app_length' by done.
    replace (mkPublicKey (pk_bytes (public_key e))) with (public_key e) by done.
    unfold dh_agree in *. rewrite <-Hee in H1. rewrite <-Hse in H2.
    ini_step (eq_refl (st0, @Ok () CryptoError ())). ini_step H1. ini_step H2. ini_step H3d.
    cbn [length Nat.eqb negb]. erewrite st_bind_ok by done. cbn [i_symm]. rewrite Hs.
    by erewrite st_bind_ok by done.
Qed.

Lemma initial_states_agree si (sr : X25519PrivateKey) known prologue :
  i_symm (Initiator_new si (public_key sr) prologue) = r_symm (Responder_new sr known prologue).
Proof. done. Qed.

End Exchange.

(** ** Properties *)

Section NoiseProps.
  Context {RC : RingCrypto} {RL : RingLaws} {XO : X25519Ops}.

(** The whole handshake between honest ends, with the bytes on the wire. *)
Definition run_handshake (si sr : X25519PrivateKey) (known : list PublicKey) (prologue : bytes)
    (rng_i rng_r : option bytes)
  : result (bytes * bytes * TransportKeys * TransportKeys * option PublicKey) HandshakeError :=
  let '(ini, r1) := write_message_1 rng_i (Initiator_new si (public_key sr) prologue) in
  let? msg1 := r1 in
  let '(res, r2) := read_message_1 msg1 (Responder_new sr known prologue) in
  let? _ := r2 in
  let? p := write_message_2 res rng_r in
  let? keys_i := read_message_2 ini (fst p) in
  Ok (msg1, fst p, keys_i, snd p, initiator_static res).

(** C3: Handshake agreement: when the four Diffie-Hellman products of the
    pattern agree, the initiator's static key is allowed and the generators
    deliver, the two-message exchange succeeds on both sides; message 1 is 96
    bytes and message 2 is 48; the responder learns the initiator's static
    key; each side's send key is the other's receive key (32 bytes), and both
    hold the same transcript hash. *)
Theorem noise_handshake_agreement (si sr : X25519PrivateKey) (known : list PublicKey)
    (prologue seed_i seed_r : bytes) :
  let ei := mkPrivateKey seed_i in
  let er := mkPrivateKey seed_r in
  dh_agree ei sr → dh_agree si sr → dh_agree ei er → dh_agree si er →
  key_ok ei → key_ok er → key_ok si → whitelisted known (public_key si) →
  ∃ msg1 msg2 k1 k2 h,
    run_handshake si sr known prologue (Some seed_i) (Some seed_r)
    = Ok (msg1, msg2, mkTransportKeys k1 k2 h, mkTransportKeys k2 k1 h, Some (public_key si)) ∧
    length msg1 = 96%nat ∧ length msg2 = 48%nat ∧ length k1 = 32%nat ∧ length k2 = 32%nat.
Proof.
  intros ei er Hes Hss Hee Hse Hkei Hker Hksi Hwl. subst ei er. unfold run_handshake.
  destruct (message_1_exchange (Initiator_new si (public_key sr) prologue)
    (Responder_new sr known prologue) seed_i) as (msg1 & st & Hw1 & Hl1 & Hr1); [done..|].
  rewrite Hw1. cbn [result_bind]. rewrite Hr1. cbn [result_bind].
  destruct (message_2_exchange
    (mkInitiator st si (Some (mkPrivateKey seed_i)) (public_key sr))
    (mkResponder st sr (Some (public_key (mkPrivateKey seed_i))) (Some (public_key si)) known)
    (mkPrivateKey seed_i) seed_r)
    as (msg2 & k1 & k2 & h & Hw2 & Hl2 & Hk1 & Hk2 & Hr2); [done..|].
  cbn [i_s i_rs r_s r_known_initiators Initiator_new Responder_new] in *.
  rewrite Hw2. cbn [result_bind fst snd]. rewrite Hr2. cbn [result_bind].
  exists msg1, msg2, k1, k2, h. done.
Qed.

(** Handshake error paths: a message of the wrong length is refused and
    leaves the responder as it was; so is a second message 1, and a second
    [write_message_1]; message 2 cannot be written before message 1 was read,
    nor read before message 1 was written; a failed generator is reported and
    leaves the initiator as it was; and a responder with a whitelist never
    records an initiator outside it, whatever bytes it reads. *)
Theorem noise_error_paths (ini : Initiator) (res : Responder) (msg : bytes) (rng : option bytes) :
  (length msg ≠ MSG_1_LEN → read_message_1 msg res = (res, Err BadMessage)) ∧
  (length msg = MSG_1_LEN → is_Some (r_re res) → read_message_1 msg res = (res, Err WrongState)) ∧
  (is_Some (i_e ini) → write_message_1 rng ini = (ini, Err WrongState)) ∧
  (i_e ini = None → write_message_1 None ini = (ini, Err (HCrypto X25519Failed))) ∧
  (length msg ≠ MSG_2_LEN → read_message_2 ini msg = Err BadMessage) ∧
  (length msg = MSG_2_LEN → i_e ini = None → read_message_2 ini msg = Err WrongState) ∧
  (r_re res = None → write_message_2 res rng = Err WrongState) ∧
  (∀ res', r_known_initiators res ≠ [] → read_message_1 msg res = (res', Ok ()) →
     ∃ k, initiator_static res' = Some k ∧ k ∈ r_known_initiators res).
Proof.
  split_and!.
  - intros H. unfold read_message_1. by rewrite (proj2 (Nat.eqb_neq _ _) H).
  - intros H [k Hk]. unfold read_message_1. rewrite H, Nat.eqb_refl. cbn [negb].
    rewrite (st_bind_ok _ _ _ res res) by done. by rewrite Hk.
  - intros [k Hk]. unfold write_message_1. rewrite (st_bind_ok _ _ _ ini ini) by done. by rewrite Hk.
  - intros Hk. unfold write_message_1. rewrite (st_bind_ok _ _ _ ini ini) by done. by rewrite Hk.
  - intros H. unfold read_message_2. by rewrite (proj2 (Nat.eqb_neq _ _) H).
  - intros H Hk. unfold read_message_2. by rewrite H, Nat.eqb_refl, Hk.
  - intros Hk. unfold write_message_2. by rewrite Hk.
  - intros res' Hwl. unfold read_message_1. destruct (negb _); [done|].
    rewrite (st_bind_ok _ _ _ res res) by done. destruct (r_re res); [done|]. cbn zeta.
    repeat match goal with
    | |- st_bind ?m ?f ?s = _ → _ =>
        let E := fresh "E" in destruct (m s) as [? [?|?]] eqn:E;
        [rewrite (st_bind_ok _ _ _ _ _ E)|rewrite (st_bind_err _ _ _ _ _ E); done]
    | |- (if negb (length (r_known_initiators res) =? 0)%nat && _ then _ else _) _ = _ → _ =>
        let Hc := fresh "Hc" in
        rewrite (proj2 (Nat.eqb_neq _ _)) by (by intros ?%nil_length_inv); cbn [negb andb];
        destruct (existsb _ _) eqn:Hc; cbn [negb]; [|done]
    | |- (if negb ?b then _ else _) _ = _ → _ => destruct b; cbn [negb]; [|done]
    end.
    intros [= <-]. cbn [initiator_static r_rs]. eexists. split; [done|].
    apply existsb_exists in Hc as (k & Hin%list_elem_of_In & Hk%bool_decide_eq_true).
    destruct k as [kb]. simpl in Hk. by subst.
Qed.

End NoiseProps.

Definition demo_seed (n : Z) : bytes := (fun i => (n * 7 + i) mod 256) <$> seqZ 0 32.

Example noise_handshake_agreement_witness :
  let si := mkPrivateKey (demo_seed 1) in
  let sr := mkPrivateKey (demo_seed 2) in
  ∃ msg1 msg2 k1 k2 h,
    run_handshake si sr [public_key si] [100] (Some (demo_seed 3)) (Some (demo_seed 4))
    = Ok (msg1, msg2, mkTransportKeys k1 k2 h, mkTransportKeys k2 k1 h, Some (public_key si)).
Proof.
  intros si sr.
  destruct (noise_handshake_agreement si sr [public_key si] [100] (demo_seed 3) (demo_seed 4))
    as (msg1 & msg2 & k1 & k2 & h & E & _); try (vm_compute; reflexivity).
  - right. left.
  - exists msg1, msg2, k1, k2, h. exact E.
Defined.

Example noise_error_paths_witness :
  read_message_1 [1; 2; 3] (Responder_new (mkPrivateKey (demo_seed 2)) [] [])
  = (Responder_new (mkPrivateKey (demo_seed 2)) [] [], Err BadMessage).
Proof.
  apply (noise_error_paths
    (Initiator_new (mkPrivateKey (demo_seed 1)) (mkPublicKey (demo_seed 5)) [])
    (Responder_new (mkPrivateKey (demo_seed 2)) [] []) [1; 2; 3] None).
  vm_compute. discriminate.
Defined.
