(* ===== verification/Session.v ===== *)
(** * The session typestate and the session table

    Models [desmos-core/src/session/mod.rs], [rekey.rs], [keepalive.rs] and
    [manager.rs].  The state marker of [Session<S>] is a type parameter, so
    data-plane operations exist only where the code has them.  The atomic
    send counter and the mutex-guarded window are fields a call returns; each
    call touches one of them once.  A [Slot] of the table is a shared
    reference: the table maps session ids to slot addresses, and a heap holds
    their content. *)

From stdpp Require Import base list gmap numbers strings.
From Stdlib Require Import ZArith Lia.
From S2P Require Import Prelude Wire AntiReplay Crypto Noise.

(** ** [rekey.rs] and [keepalive.rs] *)

Definition REKEY_INTERVAL_MS : Z := 120000.
Definition KEEPALIVE_INTERVAL_MS : Z := 15000.

Definition rekey_is_due (established_at_ms now_ms : Z) : bool :=
  default false ((fun age => REKEY_INTERVAL_MS <=? age) <$> checked_sub now_ms established_at_ms).

Definition keepalive_is_due (last_sent_at_ms now_ms : Z) : bool :=
  default false ((fun gap => KEEPALIVE_INTERVAL_MS <=? gap) <$> checked_sub now_ms last_sent_at_ms).

(** ** [mod.rs] *)

Inductive SessionError :=
| SHandshake (e : HandshakeError)
| SCrypto (e : CryptoError)
| SReplay (e : ReplayError)
| CounterOverflow
| WrongStep.

Inductive HandshakeInner :=
| HInitiator (i : Initiator)
| HResponder (r : Responder).

Record Handshaking := mkHandshaking { hs_inner : HandshakeInner }.

Record Established := mkEstablished {
  send_key : AeadKey;
  recv_key : AeadKey;
  send_counter : Z;
  recv_window : AntiReplayWindow;
  established_at_ms : Z;
  est_handshake_hash : bytes;
}.

Record Session (S : Type) := mkSession { s_id : SessionId; s_state : S }.
Arguments mkSession {S} _ _.
Arguments s_id {S} _.
Arguments s_state {S} _.

Record Rekeying := mkRekeying { rk_old : Established; rk_new : Session Handshaking }.

Inductive Closed := mkClosed.

Inductive HandshakeOutcome :=
| NeedsMore (outbound : bytes) (next : Session Handshaking)
| HEstablished (outbound : option bytes) (session : Session Established).

Inductive RekeyOutcome :=
| RekeyNeedsMore (outbound : bytes) (next : Session Rekeying)
| RekeyFinished (session : Session Established).

Definition build_nonce (seq : Z) : bytes := replicate 4 0 ++ to_be_bytes 8 seq.

Definition build_aad (id : SessionId) (seq : Z) : bytes := to_be_bytes 2 id ++ to_be_bytes 8 seq.

Section SessionOps.
  Context {RC : RingCrypto} {XO : X25519Ops}.

Definition new_initiator (id : SessionId) (static_key : X25519PrivateKey)
    (responder_static : PublicKey) (prologue : bytes) : Session Handshaking :=
  mkSession id (mkHandshaking (HInitiator (Initiator_new static_key responder_static prologue))).

Definition new_responder (id : SessionId) (static_key : X25519PrivateKey)
    (known_initiators : list PublicKey) (prologue : bytes) : Session Handshaking :=
  mkSession id (mkHandshaking (HResponder (Responder_new static_key known_initiators prologue))).

Definition established_from_keys (id : SessionId) (keys : TransportKeys) (now_ms : Z)
  : result (Session Established) SessionError :=
  let? sk := result_map_err SCrypto (AeadKey_new (tk_send keys)) in
  let? rk := result_map_err SCrypto (AeadKey_new (tk_recv keys)) in
  Ok (mkSession id (mkEstablished sk rk 0 AntiReplayWindow_new now_ms (tk_handshake_hash keys))).

(** [rng] feeds the ephemeral key the step may draw.  The session is consumed:
    on an error nothing of it is left. *)
Definition advance (self : Session Handshaking) (peer_msg : option bytes) (now_ms : Z)
    (rng : option bytes) : result HandshakeOutcome SessionError :=
  let id := s_id self in
  match hs_inner (s_state self) with
  | HInitiator ini =>
      match peer_msg with
      | None =>
          let '(ini, r) := write_message_1 rng ini in
          let? msg1 := result_map_err SHandshake r in
          Ok (NeedsMore msg1 (mkSession id (mkHandshaking (HInitiator ini))))
      | Some msg2 =>
          let? keys := result_map_err SHandshake (read_message_2 ini msg2) in
          let? session := established_from_keys id keys now_ms in
          Ok (HEstablished None session)
      end
  | HResponder res =>
      match peer_msg with
      | None => Err WrongStep
      | Some msg1 =>
          let '(res, r) := read_message_1 msg1 res in
          let? _ := result_map_err SHandshake r in
          let? p := result_map_err SHandshake (write_message_2 res rng) in
          let? session := established_from_keys id (snd p) now_ms in
          Ok (HEstablished (Some (fst p)) session)
      end
  end.

Definition set_counter (c : Z) (e : Established) : Established :=
  mkEstablished (send_key e) (recv_key e) c (recv_window e) (established_at_ms e) (est_handshake_hash e).
Definition set_window (w : AntiReplayWindow) (e : Established) : Established :=
  mkEstablished (send_key e) (recv_key e) (send_counter e) w (established_at_ms e) (est_handshake_hash e).

(** [fetch_add] returns the old counter and wraps; the overflow test comes
    after it. *)
Definition encrypt_packet (self : Session Established) (plaintext : bytes)
  : Session Established * result (Z * bytes) SessionError :=
  let st := s_state self in
  let seq := send_counter st in
  let self' := mkSession (s_id self) (set_counter (wrapping_add 64 seq 1) st) in
  if seq =? umax 64 then (self', Err CounterOverflow)
  else
    let nonce := build_nonce seq in
    let aad := build_aad (s_id self) seq in
    match seal_in_place (send_key st) nonce aad plaintext with
    | Ok buf => (self', Ok (seq, buf))
    | Err e => (self', Err (SCrypto e))
    end.

Definition encrypt_data (self : Session Established) (plaintext : bytes)
  : Session Established * result bytes SessionError :=
  let '(self', r) := encrypt_packet self plaintext in
  (self', let? p := r in Ok (snd p)).

(** The window check and the opening, shared by [decrypt_data] and
    [decrypt_with_old]. *)
Definition open_checked (id : SessionId) (st : Established) (seq : Z) (ciphertext : bytes)
  : Established * result bytes SessionError :=
  match check_and_update (recv_window st) seq with
  | (w, Err e) => (set_window w st, Err (SReplay e))
  | (w, Ok _) =>
      let nonce := build_nonce seq in
      let aad := build_aad id seq in
      (set_window w st, result_map_err SCrypto (open_in_place (recv_key st) nonce aad ciphertext))
  end.

Definition decrypt_data (self : Session Established) (seq : Z) (ciphertext : bytes)
  : Session Established * result bytes SessionError :=
  let '(st, r) := open_checked (s_id self) (s_state self) seq ciphertext in
  (mkSession (s_id self) st, r).

Definition needs_rekey (self : Session Established) (now_ms : Z) : bool :=
  rekey_is_due (established_at_ms (s_state self)) now_ms.

Definition begin_rekey (self : Session Established) (static_key : X25519PrivateKey)
    (responder_static : PublicKey) (prologue : bytes) : Session Rekeying :=
  let new := new_initiator (s_id self) static_key responder_static prologue in
  mkSession (s_id self) (mkRekeying (s_state self) new).

Definition close (self : Session Established) : Session Closed := mkSession (s_id self) mkClosed.

Definition decrypt_with_old (self : Session Rekeying) (seq : Z) (ciphertext : bytes)
  : Session Rekeying * result bytes SessionError :=
  let '(st, r) := open_checked (s_id self) (rk_old (s_state self)) seq ciphertext in
  (mkSession (s_id self) (mkRekeying st (rk_new (s_state self))), r).

Definition advance_rekey (self : Session Rekeying) (peer_msg : option bytes) (now_ms : Z)
    (rng : option bytes) : result RekeyOutcome SessionError :=
  let? outcome := advance (rk_new (s_state self)) peer_msg now_ms rng in
  match outcome with
  | NeedsMore outbound next =>
      Ok (RekeyNeedsMore outbound (mkSession (s_id self) (mkRekeying (rk_old (s_state self)) next)))
  | HEstablished _ session => Ok (RekeyFinished session)
  end.

End SessionOps.

(** ** [manager.rs] *)

Inductive AnySession :=
| AnyHandshaking (s : Session Handshaking)
| AnyEstablished (s : Session Established)
| AnyRekeying (s : Session Rekeying)
| AnyClosed (s : Session Closed).

Definition AnySession_id (a : AnySession) : SessionId :=
  match a with
  | AnyHandshaking s => s_id s
  | AnyEstablished s => s_id s
  | AnyRekeying s => s_id s
  | AnyClosed s => s_id s
  end.

Definition AnySession_state_name (a : AnySession) : string :=
  match a with
  | AnyHandshaking _ => "handshaking"
  | AnyEstablished _ => "established"
  | AnyRekeying _ => "rekeying"
  | AnyClosed _ => "closed"
  end%string.

(** The address of an [Arc<Mutex<AnySession>>]. *)
Abbreviation Slot := positive.

(** The table and the heap of the slots it has allocated. *)
Record SessionTable := mkSessionTable {
  slots : gmap SessionId Slot;
  heap : gmap Slot AnySession;
}.

Definition SessionTable_new : SessionTable := mkSessionTable ∅ ∅.

Definition SessionTable_len (t : SessionTable) : nat := size (slots t).
Definition SessionTable_is_empty (t : SessionTable) : bool := (SessionTable_len t =? 0)%nat.

Definition SessionTable_insert (t : SessionTable) (any : AnySession) : SessionTable * option Slot :=
  let id := AnySession_id any in
  let slot := fresh (dom (heap t)) in
  (mkSessionTable (<[id := slot]> (slots t)) (<[slot := any]> (heap t)), slots t !! id).

Definition SessionTable_get (t : SessionTable) (id : SessionId) : option Slot := slots t !! id.

Definition SessionTable_remove (t : SessionTable) (id : SessionId) : SessionTable * option Slot :=
  (mkSessionTable (delete id (slots t)) (heap t), slots t !! id).

(** The order of a hash map's keys is unspecified. *)
Definition SessionTable_ids (t : SessionTable) : list SessionId := (map_to_list (slots t)).*1.

Definition SessionTable_contains (t : SessionTable) (id : SessionId) : bool :=
  bool_decide (is_Some (slots t !! id)).

(** Writing through a slot handle: [*slot.lock().unwrap() = any]. *)
Definition slot_write (t : SessionTable) (slot : Slot) (any : AnySession) : SessionTable :=
  mkSessionTable (slots t) (<[slot := any]> (heap t)).

(** ** Lemmas *)

Definition sealable (p : bytes) : Prop := Z.of_nat (length p) <= (2 ^ 32 - 1) * 64.

Lemma build_nonce_inj s1 s2 :
  in_width 64 s1 → in_width 64 s2 → build_nonce s1 = build_nonce s2 → s1 = s2.
Proof. intros H1 H2 E%app_inv_head. by apply to_be_bytes_inj in E. Qed.

Section SessionLemmas.
  Context {RC : RingCrypto} {RL : RingLaws} {XO : X25519Ops}.

(** The receiver [b] opens what [a] seals. *)
Definition linked (a b : Session Established) : Prop :=
  s_id a = s_id b ∧ send_key (s_state a) = recv_key (s_state b).

(** A packet of the sequence number [seq] that carries [p]. *)
Definition genuine (b : Session Established) (seq : Z) (ct p : bytes) : Prop :=
  open_in_place (recv_key (s_state b)) (build_nonce seq) (build_aad (s_id b) seq) ct = Ok p.

Lemma encrypt_packet_ok a p :
  sealable p → 0 <= send_counter (s_state a) < umax 64 →
  ∃ ct, encrypt_packet a p
        = (mkSession (s_id a) (set_counter (send_counter (s_state a) + 1) (s_state a)),
           Ok (send_counter (s_state a), ct)) ∧
    length ct = (length p + TAG_LEN)%nat ∧
    ∀ b, linked a b → genuine b (send_counter (s_state a)) ct p.
Proof.
  intros Hp Hc. unfold encrypt_packet. rewrite (proj2 (Z.eqb_neq _ _)) by lia.
  unfold wrapping_add. rewrite wrap_small by (unfold in_width, umax in *; lia).
  destruct (ring_seal_ok (aead_key (send_key (s_state a))) (build_nonce (send_counter (s_state a)))
    (build_aad (s_id a) (send_counter (s_state a))) p Hp) as (ct & Hct & Hlen).
  exists ct. unfold seal_in_place. rewrite Hct. split_and!; [done|done|].
  intros b [Hid Hk]. unfold genuine, open_in_place. rewrite <-Hid, <-Hk.
  rewrite (proj2 (Nat.ltb_ge _ _)) by (unfold TAG_LEN; lia).
  by rewrite (ring_open_seal _ _ _ _ _ Hct).
Qed.

(** Sealing a list of packets, stopping at the first error. *)
Fixpoint encrypt_all (a : Session Established) (ps : list bytes)
  : Session Established * result (list (Z * bytes)) SessionError :=
  match ps with
  | [] => (a, Ok [])
  | p :: ps' =>
      match encrypt_packet a p with
      | (a1, Err e) => (a1, Err e)
      | (a1, Ok pkt) =>
          match encrypt_all a1 ps' with
          | (a2, Err e) => (a2, Err e)
          | (a2, Ok pkts) => (a2, Ok (pkt :: pkts))
          end
      end
  end.

(** Opening arrivals one by one; each outcome with its sequence number. *)
Fixpoint receive_all (b : Session Established) (pkts : list (Z * bytes))
  : Session Established * list (Z * result bytes SessionError) :=
  match pkts with
  | [] => (b, [])
  | (seq, ct) :: pkts' =>
      let '(b1, r) := decrypt_data b seq ct in
      let '(b2, rs) := receive_all b1 pkts' in
      (b2, (seq, r) :: rs)
  end.

(** The plaintexts handed up, with their sequence numbers. *)
Definition delivered (outs : list (Z * result bytes SessionError)) : list (Z * bytes) :=
  omap (fun o : Z * result bytes SessionError =>
          match snd o with Ok p => Some (fst o, p) | Err _ => None end) outs.

(** [pkt] is [p] sealed by the AEAD under [nonce], the send key of [a] and the
    AAD of its sequence number. *)
Definition sealed_under (a : Session Established) (p nonce : bytes) (pkt : Z * bytes) : Prop :=
  seal_in_place (send_key (s_state a)) nonce (build_aad (s_id a) pkt.1) p = Ok pkt.2.

(** Every packet comes out of the AEAD under the nonce of its own number. *)
Lemma encrypt_all_seals ps : ∀ a a' pkts,
  encrypt_all a ps = (a', Ok pkts) → Forall3 (sealed_under a) ps (build_nonce <$> pkts.*1) pkts.
Proof.
  induction ps as [|p ps IH]; intros a a' pkts; cbn [encrypt_all]; [intros [= <- <-]; constructor|].
  unfold encrypt_packet. destruct (_ =? _); [done|].
  destruct (seal_in_place _ _ _ p) as [ct|] eqn:Es; [|done].
  destruct (encrypt_all _ ps) as [a2 [pkts'|]] eqn:Ea; [|done]. intros [= <- <-].
  constructor; [exact Es|]. exact (IH _ _ _ Ea).
Qed.

Lemma encrypt_all_ok a ps :
  Forall sealable ps → 0 <= send_counter (s_state a) →
  send_counter (s_state a) + Z.of_nat (length ps) <= umax 64 →
  ∃ pkts, encrypt_all a ps
    = (mkSession (s_id a) (set_counter (send_counter (s_state a) + Z.of_nat (length ps)) (s_state a)),
       Ok pkts) ∧
    pkts.*1 = seqZ (send_counter (s_state a)) (Z.of_nat (length ps)) ∧
    ∀ b seq ct, linked a b → (seq, ct) ∈ pkts →
      ∃ p, ps !! Z.to_nat (seq - send_counter (s_state a)) = Some p ∧ genuine b seq ct p.
Proof.
  intros Hf. revert a. induction Hf as [|p ps Hp Hf IH]; intros a H0 Hb.
  - exists []. split_and!.
    + simpl. rewrite Z.add_0_r. by destruct a as [? []].
    + done.
    + intros b seq ct _ Hin. by apply not_elem_of_nil in Hin.
  - simpl length in *. destruct (encrypt_packet_ok a p Hp) as (ct & Hct & _ & Hgen); [lia|].
    destruct (IH (mkSession (s_id a) (set_counter (send_counter (s_state a) + 1) (s_state a))))
      as (pkts & Hall & Hseq & Hpk); [simpl; lia|simpl; lia|].
    exists ((send_counter (s_state a), ct) :: pkts). split_and!.
    + cbn [encrypt_all]. rewrite Hct, Hall. cbn [s_state s_id send_counter set_counter].
      by replace (send_counter (s_state a) + 1 + Z.of_nat (length ps))
        with (send_counter (s_state a) + Z.of_nat (S (length ps))) by lia.
    + rewrite fmap_cons, Hseq. simpl. rewrite (seqZ_cons _ (Z.of_nat (S (length ps)))) by lia.
      f_equal. f_equal; lia.
    + intros b seq ct' Hl [[= -> ->]|Hin]%elem_of_cons.
      * exists p. rewrite Z.sub_diag. by auto.
      * pose proof (list_elem_of_fmap_2 fst _ _ Hin) as Hs. rewrite Hseq, elem_of_seqZ in Hs. simpl in Hs.
        destruct (Hpk b seq ct' Hl Hin) as (p' & Hlk & Hg). exists p'. split; [|done].
        simpl in Hlk. replace (Z.to_nat (seq - send_counter (s_state a)))
          with (S (Z.to_nat (seq - (send_counter (s_state a) + 1)))) by lia. done.
Qed.

(** What the receiver hands up on genuine packets is what its window accepts. *)
Lemma receive_all_genuine b pkts (content : Z → option bytes) :
  (∀ seq ct, (seq, ct) ∈ pkts → ∃ p, content seq = Some p ∧ genuine b seq ct p) →
  let outs := (receive_all b pkts).2 in
  (delivered outs).*1 = (run (recv_window (s_state b)) pkts.*1).2 ∧
  (∀ seq p, (seq, p) ∈ delivered outs → content seq = Some p) ∧
  (∀ seq e, (seq, Err e) ∈ outs → ∃ re, e = SReplay re).
Proof.
  revert b. induction pkts as [|[seq ct] pkts IH]; intros b Hg.
  { split_and!; [done|intros s p Hin|intros s e Hin]; by apply not_elem_of_nil in Hin. }
  cbn [receive_all]. unfold decrypt_data, open_checked. rewrite fmap_cons. cbn [fst run].
  destruct (check_and_update (recv_window (s_state b)) seq) as [w [[]|re]] eqn:Ew; cbn beta iota.
  - destruct (Hg seq ct) as (p & Hc & Hop); [left|]. unfold genuine in Hop. rewrite Hop.
    destruct (IH (mkSession (s_id b) (set_window w (s_state b)))) as (H1 & H2 & H3).
    { intros s c Hin. apply (Hg s c). by right. }
    destruct (receive_all _ pkts) as [b2 rs]. cbn [snd] in *. cbn [s_state set_window recv_window] in H1.
    destruct (run w pkts.*1) as [w'' acc]. cbn [snd] in *. split_and!.
    + cbn. f_equal. exact H1.
    + intros s p'. cbn. intros [[= -> ->]|Hin]%elem_of_cons; [done|by apply H2].
    + intros s e [[=]|Hin]%elem_of_cons; by eapply H3.
  - destruct (IH (mkSession (s_id b) (set_window w (s_state b)))) as (H1 & H2 & H3).
    { intros s c Hin. apply (Hg s c). by right. }
    destruct (receive_all _ pkts) as [b2 rs]. cbn [snd] in *. cbn [s_state set_window recv_window] in H1.
    destruct (run w pkts.*1) as [w'' acc]. cbn [snd] in *. split_and!.
    + exact H1.
    + exact H2.
    + intros s e [[= -> ->]|Hin]%elem_of_cons; [by eexists|by eapply H3].
Qed.

End SessionLemmas.

(** ** Properties of sessions *)

Section SessionProps.
  Context {RC : RingCrypto} {RL : RingLaws} {XO : X25519Ops}.

Lemma established_ok id k1 k2 h now :
  length k1 = KEY_LEN → length k2 = KEY_LEN →
  established_from_keys id (mkTransportKeys k1 k2 h) now
  = Ok (mkSession id (mkEstablished (mkAeadKey k1) (mkAeadKey k2) 0 AntiReplayWindow_new now h)).
Proof.
  intros H1 H2. unfold established_from_keys, AeadKey_new. cbn [tk_send tk_recv tk_handshake_hash].
  by rewrite H1, H2.
Qed.

(** A fresh pair: linked both ways, same hash, nothing sent or received. *)
Definition fresh_pair (a b : Session Established) : Prop :=
  linked a b ∧ linked b a ∧
  est_handshake_hash (s_state a) = est_handshake_hash (s_state b) ∧
  send_counter (s_state a) = 0 ∧ send_counter (s_state b) = 0 ∧
  recv_window (s_state a) = AntiReplayWindow_new ∧ recv_window (s_state b) = AntiReplayWindow_new.

(** Everything the three [advance] calls of a handshake need. *)
Definition honest_keys (si sr : X25519PrivateKey) (known : list PublicKey) (seed_i seed_r : bytes)
  : Prop :=
  dh_agree (mkPrivateKey seed_i) sr ∧ dh_agree si sr ∧
  dh_agree (mkPrivateKey seed_i) (mkPrivateKey seed_r) ∧ dh_agree si (mkPrivateKey seed_r) ∧
  key_ok (mkPrivateKey seed_i) ∧ key_ok (mkPrivateKey seed_r) ∧ key_ok si ∧
  whitelisted known (public_key si).

(** The keys of a fresh pair, whatever the ids: crosswise, same hash, nothing sent or
    received. *)
Definition fresh_keys (a b : Session Established) : Prop :=
  send_key (s_state a) = recv_key (s_state b) ∧ send_key (s_state b) = recv_key (s_state a) ∧
  est_handshake_hash (s_state a) = est_handshake_hash (s_state b) ∧
  send_counter (s_state a) = 0 ∧ send_counter (s_state b) = 0 ∧
  recv_window (s_state a) = AntiReplayWindow_new ∧ recv_window (s_state b) = AntiReplayWindow_new.

Lemma fresh_pair_keys a b : fresh_pair a b ↔ fresh_keys a b ∧ s_id a = s_id b.
Proof. unfold fresh_pair, fresh_keys, linked. naive_solver. Qed.

(** The handshake does not depend on the ids of the two sessions. *)
Lemma advance_handshake_ids id_i id_r si sr known prologue seed_i seed_r t0 t1 t2 rng :
  honest_keys si sr known seed_i seed_r →
  ∃ msg1 msg2 ini a b,
    advance (new_initiator id_i si (public_key sr) prologue) None t0 (Some seed_i)
      = Ok (NeedsMore msg1 ini) ∧
    advance (new_responder id_r sr known prologue) (Some msg1) t1 (Some seed_r)
      = Ok (HEstablished (Some msg2) b) ∧
    advance ini (Some msg2) t2 rng = Ok (HEstablished None a) ∧
    fresh_keys a b ∧ s_id a = id_i ∧ s_id b = id_r ∧ s_id ini = id_i ∧
    established_at_ms (s_state a) = t2 ∧ established_at_ms (s_state b) = t1.
Proof.
  intros (Hes & Hss & Hee & Hse & Hkei & Hker & Hksi & Hwl).
  destruct (message_1_exchange (Initiator_new si (public_key sr) prologue)
    (Responder_new sr known prologue) seed_i) as (msg1 & st & Hw1 & _ & Hr1); [done..|].
  cbn [i_s i_rs r_s r_known_initiators Initiator_new Responder_new] in *.
  set (ini := mkInitiator _ _ _ _) in Hw1. set (res := mkResponder _ _ _ _ _) in Hr1.
  destruct (message_2_exchange ini res (mkPrivateKey seed_i) seed_r)
    as (msg2 & k1 & k2 & h & Hw2 & _ & Hk1 & Hk2 & Hr2); [done..|].
  exists msg1, msg2, (mkSession id_i (mkHandshaking (HInitiator ini))),
    (mkSession id_i (mkEstablished (mkAeadKey k1) (mkAeadKey k2) 0 AntiReplayWindow_new t2 h)),
    (mkSession id_r (mkEstablished (mkAeadKey k2) (mkAeadKey k1) 0 AntiReplayWindow_new t1 h)).
  unfold advance, new_initiator, new_responder. cbn [hs_inner s_state s_id].
  split_and!; try done.
  - by rewrite Hw1.
  - rewrite Hr1. cbn [result_map_err result_bind]. rewrite Hw2.
    cbn [result_map_err result_bind fst snd]. by rewrite established_ok.
  - rewrite Hr2. cbn [result_map_err result_bind]. by rewrite established_ok.
Qed.

Lemma advance_handshake id si sr known prologue seed_i seed_r t0 t1 t2 rng :
  honest_keys si sr known seed_i seed_r →
  ∃ msg1 msg2 ini a b,
    advance (new_initiator id si (public_key sr) prologue) None t0 (Some seed_i)
      = Ok (NeedsMore msg1 ini) ∧
    advance (new_responder id sr known prologue) (Some msg1) t1 (Some seed_r)
      = Ok (HEstablished (Some msg2) b) ∧
    advance ini (Some msg2) t2 rng = Ok (HEstablished None a) ∧
    fresh_pair a b ∧ s_id a = id ∧ s_id ini = id ∧
    established_at_ms (s_state a) = t2 ∧ established_at_ms (s_state b) = t1.
Proof.
  intros Hk. destruct (advance_handshake_ids id id si sr known prologue seed_i seed_r t0 t1 t2 rng Hk)
    as (msg1 & msg2 & ini & a & b & H1 & H2 & H3 & Hf & Ha & Hb & H4).
  exists msg1, msg2, ini, a, b. split_and!; try done; [|apply H4..]. apply fresh_pair_keys. split; [done|congruence].
Qed.

(** C9: Session establishment: the three [advance] calls of a handshake
    between honest ends succeed, and leave two established sessions of the
    same id whose keys match crosswise, with the same transcript hash, send
    counters at zero and empty replay windows. *)
Theorem session_establishment (id : SessionId) (si sr : X25519PrivateKey) (known : list PublicKey)
    (prologue seed_i seed_r : bytes) (t0 t1 t2 : Z) :
  honest_keys si sr known seed_i seed_r →
  ∃ msg1 msg2 ini a b,
    advance (new_initiator id si (public_key sr) prologue) None t0 (Some seed_i)
      = Ok (NeedsMore msg1 ini) ∧
    advance (new_responder id sr known prologue) (Some msg1) t1 (Some seed_r)
      = Ok (HEstablished (Some msg2) b) ∧
    advance ini (Some msg2) t2 None = Ok (HEstablished None a) ∧
    fresh_pair a b ∧ s_id a = id.
Proof.
  intros Hk. destruct (advance_handshake id si sr known prologue seed_i seed_r t0 t1 t2 None Hk)
    as (msg1 & msg2 & ini & a & b & H1 & H2 & H3 & H4 & H5 & _). by exists msg1, msg2, ini, a, b.
Qed.

(** C2: The data plane delivers what was sent, at most once: when [a] seals a
    list of packets and [b] opens any arrivals drawn from them, in any order
    and with any loss and repetition, [b] hands up exactly the arrivals its
    replay window accepts, each with the plaintext sealed under that sequence
    number and no sequence number twice; every other arrival is refused as a
    replay, never as a crypto failure. *)
Theorem transport_exact (a b : Session Established) (ps : list bytes) :
  linked a b → recv_window (s_state b) = AntiReplayWindow_new →
  Forall sealable ps → 0 <= send_counter (s_state a) →
  send_counter (s_state a) + Z.of_nat (length ps) <= umax 64 →
  ∃ a' pkts, encrypt_all a ps = (a', Ok pkts) ∧ length pkts = length ps ∧
    ∀ arrivals, Forall (fun pkt => pkt ∈ pkts) arrivals →
      let outs := (receive_all b arrivals).2 in
      (delivered outs).*1 = (run AntiReplayWindow_new arrivals.*1).2 ∧
      NoDup (delivered outs).*1 ∧
      (∀ seq p, (seq, p) ∈ delivered outs →
         ps !! Z.to_nat (seq - send_counter (s_state a)) = Some p) ∧
      (∀ seq e, (seq, Err e) ∈ outs → ∃ re, e = SReplay re).
Proof.
  intros Hl Hw Hf H0 Hb. destruct (encrypt_all_ok a ps Hf H0 Hb) as (pkts & Hall & Hseq & Hg).
  eexists _, pkts. split; [done|]. split.
  { apply (f_equal length) in Hseq. rewrite length_fmap, length_seqZ in Hseq. lia. }
  intros arrivals Harr outs.
  destruct (receive_all_genuine b arrivals (fun seq => ps !! Z.to_nat (seq - send_counter (s_state a))))
    as (H1 & H2 & H3).
  { intros seq ct Hin. rewrite Forall_forall in Harr. by apply Hg, Harr. }
  rewrite Hw in H1. split_and!; [done| |done|done].
  fold outs in H1. rewrite H1. apply (run_accepts_fresh _ _ _ window_rel_init).
Qed.

(** C29: Nonces are unique for the life of a key: up to the [2^64 - 1] packets
    the counter allows, a session numbers its packets consecutively from its
    counter, and the nonces under which the AEAD really sealed them are pairwise
    different: packet number [i] is what sealing the [i]-th plaintext under the
    session's send key, the [i]-th nonce of a list without repeats and the AAD
    of its sequence number returned. *)
Theorem nonces_unique (a : Session Established) (ps : list bytes) :
  Forall sealable ps → 0 <= send_counter (s_state a) →
  send_counter (s_state a) + Z.of_nat (length ps) <= umax 64 →
  ∃ a' pkts nonces, encrypt_all a ps = (a', Ok pkts) ∧
    pkts.*1 = seqZ (send_counter (s_state a)) (Z.of_nat (length ps)) ∧
    Forall3 (sealed_under a) ps nonces pkts ∧ NoDup nonces ∧
    send_key (s_state a') = send_key (s_state a) ∧
    send_counter (s_state a') = send_counter (s_state a) + Z.of_nat (length ps).
Proof.
  intros Hf H0 Hb. destruct (encrypt_all_ok a ps Hf H0 Hb) as (pkts & Hall & Hseq & _).
  eexists _, pkts, (build_nonce <$> pkts.*1). split; [done|]. split; [done|].
  split; [by eapply encrypt_all_seals|]. split; [|done].
  rewrite Hseq. apply NoDup_fmap_2_strong; [|apply NoDup_seqZ].
  intros x y Hx%elem_of_seqZ Hy%elem_of_seqZ. unfold umax in Hb.
  apply build_nonce_inj; unfold in_width; lia.
Qed.

(** The counter limit is not sticky: at [u64::MAX] one call is refused
    with [CounterOverflow], but the counter has wrapped by then and the next
    call seals its packet under sequence number 0, reusing the first nonce of
    the same key (the error's documentation says "we refuse rather than
    wrap"). *)
Theorem counter_overflow_wraps (a : Session Established) (p q : bytes) :
  sealable q → send_counter (s_state a) = umax 64 →
  ∃ a' ct a'', encrypt_packet a p = (a', Err CounterOverflow) ∧
    encrypt_packet a' q = (a'', Ok (0, ct)) ∧
    send_key (s_state a') = send_key (s_state a).
Proof.
  intros Hq Hc. set (a' := mkSession (s_id a) (set_counter 0 (s_state a))).
  destruct (encrypt_packet_ok a' q Hq) as (ct & Hct & _); [by vm_compute|].
  eexists a', ct, _. split_and!; [|exact Hct|done].
  unfold encrypt_packet. rewrite Hc, Z.eqb_refl. done.
Qed.

(** C22: The replay window moves before authentication: an arrival with an
    acceptable sequence number that fails to authenticate is refused as a
    crypto failure, yet the genuine packet of that number is then refused as a
    duplicate; and one forged arrival numbered [u64::MAX] makes every genuine
    packet numbered below [2^64 - 128] refused from then on (the method's
    documentation says "successful opens update the window"). *)
Theorem forged_packet_poisons_window (b : Session Established) (seq : Z) (forged ct : bytes) (e : CryptoError) :
  would_accept (recv_window (s_state b)) seq = true →
  open_in_place (recv_key (s_state b)) (build_nonce seq) (build_aad (s_id b) seq) forged = Err e →
  (decrypt_data b seq forged).2 = Err (SCrypto e) ∧
  (decrypt_data (decrypt_data b seq forged).1 seq ct).2 = Err (SReplay Duplicate) ∧
  (seq = umax 64 → ∀ s ct', 0 <= s < 2 ^ 64 - 128 →
     (decrypt_data (decrypt_data b seq forged).1 s ct').2 = Err (SReplay OutOfWindow)).
Proof.
  intros Hacc Hop. unfold decrypt_data, open_checked.
  destruct (accept_marks _ _ Hacc) as (w & -> & Hi & Hle & Hlt & Hbit). rewrite Hop.
  cbn [fst snd s_state s_id set_window recv_window result_map_err]. split; [done|]. split.
  - by rewrite marked_duplicate.
  - intros -> s ct' Hs. rewrite below_window; [done|done|]. unfold umax in Hle. lia.
Qed.

(** C28: Rekey: from an established session, [begin_rekey] and the two
    [advance_rekey] calls around an honest responder's answer end in a new
    established session of the same id, freshly linked to the responder's; in
    between, packets sealed under the old key are opened exactly as before,
    against the old replay window. *)
Theorem rekey_cycle (a : Session Established) (si sr : X25519PrivateKey) (known : list PublicKey)
    (prologue seed_i seed_r : bytes) (t0 t1 t2 seq : Z) (ct : bytes) :
  honest_keys si sr known seed_i seed_r →
  let rk0 := begin_rekey a si (public_key sr) prologue in
  ∃ msg1 msg2 rk1 b a',
    advance_rekey rk0 None t0 (Some seed_i) = Ok (RekeyNeedsMore msg1 rk1) ∧
    advance (new_responder (s_id a) sr known prologue) (Some msg1) t1 (Some seed_r)
      = Ok (HEstablished (Some msg2) b) ∧
    advance_rekey rk1 (Some msg2) t2 None = Ok (RekeyFinished a') ∧
    fresh_pair a' b ∧ s_id a' = s_id a ∧ needs_rekey a' t2 = false ∧
    (decrypt_with_old rk1 seq ct).2 = (decrypt_data a seq ct).2 ∧
    rk_old (s_state (decrypt_with_old rk1 seq ct).1) = s_state (decrypt_data a seq ct).1.
Proof.
  intros Hk rk0. destruct (advance_handshake (s_id a) si sr known prologue seed_i seed_r t0 t1 t2 None Hk)
    as (msg1 & msg2 & ini & a' & b & H1 & H2 & H3 & H4 & H5 & _ & H6 & _).
  exists msg1, msg2, (mkSession (s_id a) (mkRekeying (s_state a) ini)), b, a'.
  split_and!; [| |by unfold advance_rekey; cbn [s_state rk_new]; rewrite H3|done|done|..].
  - unfold rk0, begin_rekey, advance_rekey. cbn [s_state rk_new s_id rk_old]. by rewrite H1.
  - done.
  - unfold needs_rekey, rekey_is_due, checked_sub. rewrite H6, Z.ltb_irrefl, Z.sub_diag. done.
  - unfold decrypt_with_old, decrypt_data. cbn [s_id s_state rk_old]. by destruct (open_checked _ _ _ _).
  - unfold decrypt_with_old, decrypt_data. cbn [s_id s_state rk_old]. by destruct (open_checked _ _ _ _).
Qed.

End SessionProps.

(** ** The session table *)

(** What a lookup by id followed by a lock reads. *)
Definition table_lookup (t : SessionTable) (id : SessionId) : option AnySession :=
  slots t !! id ≫= fun slot => heap t !! slot.

(** Every registered slot is allocated, holds a session of its own id, and is
    registered once. *)
Record table_inv (t : SessionTable) : Prop := {
  ti_alloc id slot : slots t !! id = Some slot → ∃ any, heap t !! slot = Some any ∧ AnySession_id any = id;
}.

(** The calls on the table and through a handle it has returned. *)
Inductive table_call :=
| TInsert (any : AnySession)
| TRemove (id : SessionId)
| TWrite (id : SessionId) (any : AnySession).

(** [TWrite] is the daemon's transition: look the slot up, lock it, and write
    the new state of the same session back. *)
Definition table_step (t : SessionTable) (c : table_call) : SessionTable :=
  match c with
  | TInsert any => (SessionTable_insert t any).1
  | TRemove id => (SessionTable_remove t id).1
  | TWrite id any =>
      match SessionTable_get t id with
      | Some slot => if decide (AnySession_id any = id) then slot_write t slot any else t
      | None => t
      end
  end.

Lemma slot_fresh (t : SessionTable) : heap t !! fresh (dom (heap t)) = None.
Proof. apply not_elem_of_dom, is_fresh. Qed.

Lemma table_inv_new : table_inv SessionTable_new.
Proof. constructor. intros id slot H. cbn [SessionTable_new slots] in H. by rewrite lookup_empty in H. Qed.

Lemma table_step_inv t c : table_inv t → table_inv (table_step t c).
Proof.
  intros [Ha]. destruct c as [any|id|id any]; cbn [table_step].
  - constructor. cbn [SessionTable_insert fst slots heap]. intros id slot.
    destruct (decide (id = AnySession_id any)) as [->|Hne].
    + rewrite lookup_insert_eq. intros [= <-]. rewrite lookup_insert_eq. by eauto.
    + rewrite lookup_insert_ne by done. intros Hs. destruct (Ha _ _ Hs) as (a & Hh & Hid).
      exists a. split; [|done]. rewrite lookup_insert_ne; [done|].
      intros <-. by rewrite slot_fresh in Hh.
  - constructor. cbn [SessionTable_remove fst slots heap]. intros id' slot Hs.
    apply lookup_delete_Some in Hs as [_ Hs]. by apply Ha.
  - unfold SessionTable_get. destruct (slots t !! id) as [slot|] eqn:Es; [|done].
    case_decide as Hid; [|done]. constructor. cbn [slot_write slots heap]. intros id' slot' Hs.
    destruct (decide (slot' = slot)) as [->|Hne].
    + exists any. rewrite lookup_insert_eq. split; [done|].
      destruct (Ha _ _ Hs) as (x & Hx & Hxid), (Ha _ _ Es) as (y & Hy & Hyid). congruence.
    + rewrite lookup_insert_ne by done. by apply Ha.
Qed.

(** Two ids never share a slot. *)
Lemma slots_distinct t id1 id2 slot :
  table_inv t → slots t !! id1 = Some slot → slots t !! id2 = Some slot → id1 = id2.
Proof. intros [Ha] H1 H2. destruct (Ha _ _ H1) as (x & Hx & <-), (Ha _ _ H2) as (y & Hy & <-). congruence. Qed.

(** The session table is a map from ids to sessions: on every table
    reached by inserts, removals and write-backs, [insert] makes exactly its
    own id resolve to the new session and returns the displaced slot,
    [remove] makes exactly its id unresolved, a write-back through a handle
    changes exactly its own session, and a handle obtained before an insert or
    a removal still reads the session it was obtained for. *)
Theorem session_table_map (calls : list table_call) (any : AnySession) (id : SessionId) :
  let t := foldl table_step SessionTable_new calls in
  table_lookup (SessionTable_insert t any).1 id
    = (if decide (id = AnySession_id any) then Some any else table_lookup t id) ∧
  (SessionTable_insert t any).2 = SessionTable_get t (AnySession_id any) ∧
  table_lookup (SessionTable_remove t (AnySession_id any)).1 id
    = (if decide (id = AnySession_id any) then None else table_lookup t id) ∧
  table_lookup (table_step t (TWrite (AnySession_id any) any)) id
    = (if decide (id = AnySession_id any ∧ is_Some (SessionTable_get t id)) then Some any
       else table_lookup t id) ∧
  (∀ slot, SessionTable_get t id = Some slot →
     heap (SessionTable_insert t any).1 !! slot = heap t !! slot ∧
     heap (SessionTable_remove t (AnySession_id any)).1 !! slot = heap t !! slot).
Proof.
  intros t. assert (Hinv : table_inv t).
  { subst t. generalize table_inv_new. generalize SessionTable_new.
    induction calls as [|c calls IH]; intros t0 H0; [done|]. by apply IH, table_step_inv. }
  pose proof (ti_alloc t Hinv) as Ha. unfold table_lookup, SessionTable_get.
  assert (Hold : ∀ i slot, slots t !! i = Some slot →
    <[fresh (dom (heap t)) := any]> (heap t) !! slot = heap t !! slot).
  { intros i slot Hs. destruct (Ha _ _ Hs) as (x & Hx & _). apply lookup_insert_ne.
    intros <-. by rewrite slot_fresh in Hx. }
  split_and!.
  - cbn [SessionTable_insert fst slots heap]. case_decide as E.
    + subst id. rewrite lookup_insert_eq. simpl. by rewrite lookup_insert_eq.
    + rewrite lookup_insert_ne by done. destruct (slots t !! id) as [slot|] eqn:Es; [|done].
      simpl. by eapply Hold.
  - done.
  - cbn [SessionTable_remove fst slots heap]. case_decide as E.
    + subst id. by rewrite lookup_delete_eq.
    + by rewrite lookup_delete_ne by done.
  - cbn [table_step]. unfold SessionTable_get.
    destruct (slots t !! AnySession_id any) as [slot|] eqn:Es.
    + rewrite decide_True by done. cbn [slot_write slots heap].
      destruct (decide (id = AnySession_id any)) as [->|Hne].
      * rewrite Es. simpl. rewrite lookup_insert_eq. by rewrite decide_True by eauto.
      * rewrite decide_False by tauto. destruct (slots t !! id) as [slot'|] eqn:Es'; [|done]. simpl.
        apply lookup_insert_ne. intros <-. apply Hne. by eapply slots_distinct.
    + rewrite decide_False; [done|]. intros [-> [? ?]]. congruence.
  - intros slot Hs. split; [by eapply Hold|done].
Qed.

(** ** Witnesses *)

Definition demo_honest : honest_keys (mkPrivateKey (demo_seed 1)) (mkPrivateKey (demo_seed 2)) []
    (demo_seed 3) (demo_seed 4).
Proof. split_and!; try (vm_compute; reflexivity). by left. Defined.

Example session_establishment_witness :
  ∃ msg1 ini,
    advance (new_initiator 7 (mkPrivateKey (demo_seed 1)) (public_key (mkPrivateKey (demo_seed 2))) [])
      None 0 (Some (demo_seed 3)) = Ok (NeedsMore msg1 ini).
Proof.
  destruct (session_establishment 7 (mkPrivateKey (demo_seed 1)) (mkPrivateKey (demo_seed 2)) [] []
    (demo_seed 3) (demo_seed 4) 0 0 0 demo_honest) as (msg1 & msg2 & ini & a & b & H & _).
  exists msg1, ini. exact H.
Defined.

Definition demo_session (send recv : Z) (counter : Z) : Session Established :=
  mkSession 7 (mkEstablished (mkAeadKey (replicate 32 send)) (mkAeadKey (replicate 32 recv)) counter
                 AntiReplayWindow_new 0 []).

Definition demo_sealable (p : bytes) : (length p <= 16)%nat → sealable p.
Proof. unfold sealable. lia. Qed.

Example transport_exact_witness :
  ∃ a' pkts, encrypt_all (demo_session 1 2 0) [[10]; [20]; [30]] = (a', Ok pkts) ∧
    ∀ p0 p1, pkts !! 0%nat = Some p0 → pkts !! 1%nat = Some p1 →
      NoDup (delivered (receive_all (demo_session 2 1 0) [p1; p0; p1]).2).*1.
Proof.
  destruct (transport_exact (demo_session 1 2 0) (demo_session 2 1 0) [[10]; [20]; [30]])
    as (a' & pkts & E & _ & H); try done.
  - repeat constructor; apply demo_sealable; simpl; lia.
  - exists a', pkts. split; [exact E|]. intros p0 p1 H0 H1.
    apply (H [p1; p0; p1]). repeat constructor; eapply list_elem_of_lookup_2; eassumption.
Defined.

Example nonces_unique_witness :
  ∃ a' pkts nonces, encrypt_all (demo_session 1 2 5) [[10]; [20]] = (a', Ok pkts) ∧ pkts.*1 = [5; 6] ∧
    Forall3 (sealed_under (demo_session 1 2 5)) [[10]; [20]] nonces pkts ∧ NoDup nonces.
Proof.
  destruct (nonces_unique (demo_session 1 2 5) [[10]; [20]]) as (a' & pkts & nonces & E & H & H3 & Hn & _); try done.
  - repeat constructor; apply demo_sealable; simpl; lia.
  - exists a', pkts, nonces. split; [exact E|]. split; [exact H|]. split; [exact H3|exact Hn].
Defined.

Example counter_overflow_wraps_witness :
  ∃ a' ct a'', encrypt_packet (demo_session 1 2 (umax 64)) [1] = (a', Err CounterOverflow) ∧
    encrypt_packet a' [2] = (a'', Ok (0, ct)).
Proof.
  destruct (counter_overflow_wraps (demo_session 1 2 (umax 64)) [1] [2]) as (a' & ct & a'' & H1 & H2 & _).
  - apply demo_sealable. simpl. lia.
  - reflexivity.
  - exists a', ct, a''. split; [exact H1|exact H2].
Defined.

Example forged_packet_poisons_window_witness :
  (decrypt_data (decrypt_data (demo_session 2 1 0) (umax 64) (replicate 20 0)).1 3 [1; 2]).2
  = Err (SReplay OutOfWindow).
Proof.
  apply (forged_packet_poisons_window (demo_session 2 1 0) (umax 64) (replicate 20 0) [] AeadFailed);
    [reflexivity|vm_compute; reflexivity|reflexivity|lia].
Defined.

Example rekey_cycle_witness :
  ∃ msg1 rk1, advance_rekey (begin_rekey (demo_session 1 2 9) (mkPrivateKey (demo_seed 1))
      (public_key (mkPrivateKey (demo_seed 2))) []) None 0 (Some (demo_seed 3))
    = Ok (RekeyNeedsMore msg1 rk1).
Proof.
  destruct (rekey_cycle (demo_session 1 2 9) (mkPrivateKey (demo_seed 1)) (mkPrivateKey (demo_seed 2))
    [] [] (demo_seed 3) (demo_seed 4) 0 0 0 0 [] demo_honest)
    as (msg1 & msg2 & rk1 & b & a' & H & _).
  exists msg1, rk1. exact H.
Defined.
