(* ===== verification/RateLimit.v ===== *)
(** * The per-source token bucket

    Models [desmos-core/src/server/ratelimit.rs].  Tokens are fixed-point
    milli-tokens; the mutex makes every call one atomic step. *)

From stdpp Require Import base list gmap numbers.
From Stdlib Require Import ZArith Lia.
From S2P Require Import Prelude.

Definition DEFAULT_MAX_TOKENS : Z := 5.
Definition DEFAULT_REFILL_MILLI_PER_SEC : Z := 500.

Record Bucket := mkBucket { tokens_milli : Z; last_refill_ms : Z }.

Record RateLimiter := mkRateLimiter {
  max_tokens_milli : Z;
  refill_milli_per_sec : Z;
  rl_inner : gmap IpAddr Bucket;
}.

(** The assertion panics. *)
Definition RateLimiter_new (max_tokens refill : Z) : panics RateLimiter :=
  if negb (0 <? max_tokens) then None
  else Some (mkRateLimiter (saturating_mul 32 max_tokens 1000) refill ∅).

Definition RateLimiter_with_default_policy : panics RateLimiter :=
  RateLimiter_new DEFAULT_MAX_TOKENS DEFAULT_REFILL_MILLI_PER_SEC.

(** The refill step on one bucket. *)
Definition bucket_refill (r : RateLimiter) (b : Bucket) (now_ms : Z) : Bucket :=
  if last_refill_ms b <? now_ms then
    let dt_ms := now_ms - last_refill_ms b in
    let added := saturating_mul 64 (refill_milli_per_sec r) dt_ms / 1000 in
    let new_tokens := saturating_add 64 (tokens_milli b) added in
    mkBucket (wrap 32 (Z.min new_tokens (max_tokens_milli r))) now_ms
  else b.

Definition bucket_take (b : Bucket) : Bucket * bool :=
  if 1000 <=? tokens_milli b
  then (mkBucket (tokens_milli b - 1000) (last_refill_ms b), true)
  else (b, false).

Definition try_admit (r : RateLimiter) (source : IpAddr) (now_ms : Z) : RateLimiter * bool :=
  let bucket := default (mkBucket (max_tokens_milli r) now_ms) (rl_inner r !! source) in
  let bucket := bucket_refill r bucket now_ms in
  let '(bucket, admitted) := bucket_take bucket in
  (mkRateLimiter (max_tokens_milli r) (refill_milli_per_sec r) (<[source := bucket]> (rl_inner r)),
   admitted).

Definition evict_stale (r : RateLimiter) (now_ms max_idle_ms : Z) : RateLimiter * nat :=
  let cutoff := saturating_sub now_ms max_idle_ms in
  let kept := filter (fun kv : IpAddr * Bucket => cutoff <= last_refill_ms kv.2) (rl_inner r) in
  (mkRateLimiter (max_tokens_milli r) (refill_milli_per_sec r) kept,
   (size (rl_inner r) - size kept)%nat).

Definition tracked (r : RateLimiter) : nat := size (rl_inner r).

(** ** Histories of one source *)

(** Calls from [source] at the times [ts]: the limiter and the verdicts. *)
Fixpoint admit_all (r : RateLimiter) (source : IpAddr) (ts : list Z) : RateLimiter * list bool :=
  match ts with
  | [] => (r, [])
  | t :: ts' =>
      let '(r1, a) := try_admit r source t in
      let '(r2, rest) := admit_all r1 source ts' in
      (r2, a :: rest)
  end.

Definition admitted (l : list bool) : Z := Z.of_nat (length (filter (fun b => b = true) l)).

(** ** Invariant *)

Definition policy_ok (r : RateLimiter) : Prop :=
  in_width 32 (max_tokens_milli r) ∧ in_width 32 (refill_milli_per_sec r).

Definition bucket_ok (r : RateLimiter) (b : Bucket) : Prop :=
  0 <= tokens_milli b <= max_tokens_milli r ∧ in_width 64 (last_refill_ms b).

Definition limiter_ok (r : RateLimiter) : Prop :=
  policy_ok r ∧ map_Forall (fun _ => bucket_ok r) (rl_inner r).

(** ** Lemmas *)

(** What a refill does, without the machine arithmetic. *)
Lemma bucket_refill_eq r b now :
  policy_ok r → bucket_ok r b → in_width 64 now →
  let b' := bucket_refill r b now in
  last_refill_ms b' = Z.max (last_refill_ms b) now ∧
  tokens_milli b <= tokens_milli b' <= max_tokens_milli r ∧
  1000 * tokens_milli b' <= 1000 * tokens_milli b
    + refill_milli_per_sec r * (last_refill_ms b' - last_refill_ms b).
Proof.
  intros [Hm Hr] [Ht Hl] Hn. unfold bucket_refill, saturating_mul, saturating_add. cbn zeta.
  destruct (Z.ltb_spec (last_refill_ms b) now); cbn [last_refill_ms tokens_milli]; [|lia].
  set (dt := now - last_refill_ms b). set (p := Z.min (refill_milli_per_sec r * dt) (umax 64)).
  assert (0 <= refill_milli_per_sec r * dt) by (unfold in_width in Hr; nia).
  assert (0 <= p <= refill_milli_per_sec r * dt) by (unfold p; zlia).
  pose proof (Z.div_pos p 1000 ltac:(lia) ltac:(lia)). pose proof (Z.mul_div_le p 1000 ltac:(lia)).
  rewrite wrap_small by zlia. pow2. lia.
Qed.

Lemma try_admit_bucket r source now :
  (try_admit r source now).1 =
    mkRateLimiter (max_tokens_milli r) (refill_milli_per_sec r)
      (<[source := (bucket_take (bucket_refill r
          (default (mkBucket (max_tokens_milli r) now) (rl_inner r !! source)) now)).1]> (rl_inner r)) ∧
  (try_admit r source now).2 = (bucket_take (bucket_refill r
          (default (mkBucket (max_tokens_milli r) now) (rl_inner r !! source)) now)).2.
Proof. unfold try_admit. by destruct (bucket_take _). Qed.

Lemma bucket_take_ok r b : bucket_ok r b → bucket_ok r (bucket_take b).1.
Proof.
  unfold bucket_ok, bucket_take. intros [Ht Hl]. destruct (Z.leb_spec 1000 (tokens_milli b)); simpl; [split; [lia|done]|done].
Qed.

Lemma current_bucket_ok r source now :
  limiter_ok r → in_width 64 now →
  bucket_ok r (default (mkBucket (max_tokens_milli r) now) (rl_inner r !! source)).
Proof.
  intros [[Hm Hr] Hb] Hn. destruct (rl_inner r !! source) as [b|] eqn:E; simpl; [by apply (Hb source)|].
  split; [|done]. simpl. unfold in_width in Hm. lia.
Qed.

Lemma refilled_ok r source now :
  limiter_ok r → in_width 64 now →
  bucket_ok r (bucket_refill r (default (mkBucket (max_tokens_milli r) now) (rl_inner r !! source)) now).
Proof.
  intros Hok Hn. pose proof (current_bucket_ok r source now Hok Hn) as Hb.
  destruct (bucket_refill_eq r _ now (proj1 Hok) Hb Hn) as (Hl & Ht & _). cbn zeta in *.
  destruct Hb as [? ?]. split; [lia|]. rewrite Hl. unfold in_width in *. lia.
Qed.

Lemma try_admit_ok r source now :
  limiter_ok r → in_width 64 now → limiter_ok (try_admit r source now).1.
Proof.
  intros Hok Hn. rewrite (proj1 (try_admit_bucket r source now)). pose proof Hok as [Hp Hb].
  split; [done|]. apply map_Forall_insert_2; [|done].
  exact (bucket_take_ok r _ (refilled_ok r source now Hok Hn)).
Qed.

(** The budget of one source: what it holds plus what it has used is bounded
    by the burst plus the refill since the bucket was created. *)
Definition budget (r : RateLimiter) (source : IpAddr) (t0 used : Z) : Prop :=
  ∃ b, rl_inner r !! source = Some b ∧
    1000 * tokens_milli b + 1000000 * used
    <= 1000 * max_tokens_milli r + refill_milli_per_sec r * (last_refill_ms b - t0).

Lemma try_admit_budget r source t0 used now :
  limiter_ok r → in_width 64 now → budget r source t0 used →
  budget (try_admit r source now).1 source t0
    (used + if (try_admit r source now).2 then 1 else 0).
Proof.
  intros Hok Hn (b & Hb & Hle). destruct (try_admit_bucket r source now) as [-> ->].
  rewrite Hb. cbn [default from_option id].
  destruct (bucket_refill_eq r b now (proj1 Hok) (proj2 Hok source b Hb) Hn) as (Hl & Ht & Hc).
  cbn zeta in *. unfold budget. cbn [rl_inner max_tokens_milli refill_milli_per_sec].
  rewrite lookup_insert_eq. eexists. split; [done|]. unfold bucket_take.
  set (b' := bucket_refill r b now) in *. clearbody b'.
  assert (E : refill_milli_per_sec r * (last_refill_ms b' - t0)
              = refill_milli_per_sec r * (last_refill_ms b - t0)
                + refill_milli_per_sec r * (last_refill_ms b' - last_refill_ms b)) by ring.
  destruct (1000 <=? tokens_milli b'); cbn [fst snd tokens_milli last_refill_ms]; rewrite E; lia.
Qed.

Lemma admit_all_cons r source t ts :
  admit_all r source (t :: ts) =
  ((admit_all (try_admit r source t).1 source ts).1,
   (try_admit r source t).2 :: (admit_all (try_admit r source t).1 source ts).2).
Proof.
  simpl. destruct (try_admit r source t) as [r1 a]. simpl. by destruct (admit_all r1 source ts).
Qed.

Lemma admitted_cons b l : admitted (b :: l) = (if b then 1 else 0) + admitted l.
Proof. unfold admitted. rewrite filter_cons. destruct b; case_decide; try done. simpl length. lia. Qed.

Lemma admit_all_budget r source t0 used ts :
  limiter_ok r → Forall (in_width 64) ts → budget r source t0 used →
  let '(r', vs) := admit_all r source ts in
  limiter_ok r' ∧ budget r' source t0 (used + admitted vs).
Proof.
  intros Hok Hts. revert r used Hok. induction Hts as [|t ts Ht Hts IH]; intros r used Hok Hb.
  - simpl. unfold admitted. simpl. by rewrite Z.add_0_r.
  - rewrite admit_all_cons. pose proof (try_admit_budget r source t0 used t Hok Ht Hb) as Hb1.
    specialize (IH _ _ (try_admit_ok r source t Hok Ht) Hb1).
    destruct (admit_all (try_admit r source t).1 source ts) as [r2 vs]. destruct IH as [H1 H2].
    split; [done|]. simpl fst. simpl snd. rewrite admitted_cons.
    by rewrite Z.add_assoc.
Qed.

(** The last refill time of a source never passes the latest call. *)
Lemma last_refill_bound r source ts t0 hi :
  limiter_ok r → Forall (in_width 64) ts → Forall (fun t => t <= hi) ts →
  (∀ b, rl_inner r !! source = Some b → last_refill_ms b <= hi) → t0 <= hi →
  ∀ b, rl_inner (admit_all r source ts).1 !! source = Some b → last_refill_ms b <= hi.
Proof.
  intros Hok Hts. revert r Hok. induction Hts as [|t ts Ht Hts IH]; intros r Hok Hhi Hl H0; [done|].
  inversion_clear Hhi as [|? ? Hthi Hhi']. rewrite admit_all_cons. cbn [fst].
  apply IH; [by apply try_admit_ok|done| |done].
  rewrite (proj1 (try_admit_bucket r source t)). cbn [rl_inner]. rewrite lookup_insert_eq.
  intros b [= <-]. pose proof (current_bucket_ok r source t Hok Ht) as Hcb.
  destruct (bucket_refill_eq r _ t (proj1 Hok) Hcb Ht) as (Hlr & _). cbn zeta in Hlr.
  assert (last_refill_ms (default (mkBucket (max_tokens_milli r) t) (rl_inner r !! source)) <= hi).
  { destruct (rl_inner r !! source) as [b'|] eqn:E; simpl; [by apply Hl|done]. }
  unfold bucket_take. destruct (_ <=? _); cbn [fst last_refill_ms]; lia.
Qed.

(** ** Properties *)

(** C32: The rate bound: whatever the order of the calls of a new source, and
    whatever other sources do, the number of admissions up to any time is at
    most the burst plus the refill rate times the elapsed time since its first
    call. *)
Theorem rate_limit_bound (r : RateLimiter) (source : IpAddr) (t0 hi : Z) (ts : list Z) :
  limiter_ok r → rl_inner r !! source = None → in_width 64 t0 → Forall (in_width 64) ts →
  t0 <= hi → Forall (fun t => t <= hi) ts →
  1000000 * admitted (admit_all r source (t0 :: ts)).2
  <= 1000 * max_tokens_milli r + refill_milli_per_sec r * (hi - t0).
Proof.
  intros Hok Hnew Ht0 Hts Hhi Hall.
  rewrite admit_all_cons. cbn [snd]. rewrite admitted_cons.
  destruct (try_admit_bucket r source t0) as [E1 E2]. rewrite Hnew in E1, E2.
  cbn [default from_option] in E1, E2.
  set (r1 := (try_admit r source t0).1) in *. set (a := (try_admit r source t0).2) in *.
  assert (Hok1 : limiter_ok r1) by (by apply try_admit_ok).
  assert (Hfresh : bucket_refill r (mkBucket (max_tokens_milli r) t0) t0 = mkBucket (max_tokens_milli r) t0).
  { unfold bucket_refill. simpl. by rewrite Z.ltb_irrefl. }
  rewrite Hfresh in E1, E2.
  assert (Hb1 : budget r1 source t0 (if a then 1 else 0)).
  { rewrite E1, E2. unfold budget. cbn [rl_inner max_tokens_milli refill_milli_per_sec].
    rewrite lookup_insert_eq. eexists. split; [done|]. unfold bucket_take. cbn [tokens_milli last_refill_ms].
    destruct (Z.leb_spec 1000 (max_tokens_milli r)); cbn [fst snd tokens_milli last_refill_ms];
      rewrite Z.sub_diag, Z.mul_0_r; lia. }
  pose proof (admit_all_budget r1 source t0 _ ts Hok1 Hts Hb1) as Hfin.
  assert (Hlast : ∀ b, rl_inner (admit_all r1 source ts).1 !! source = Some b → last_refill_ms b <= hi).
  { apply (last_refill_bound r1 source ts t0); try done. rewrite E1. cbn [rl_inner].
    rewrite lookup_insert_eq. intros b [= <-]. unfold bucket_take. by destruct (_ <=? _). }
  assert (Hpol : ∀ ts r0, max_tokens_milli (admit_all r0 source ts).1 = max_tokens_milli r0 ∧
                       refill_milli_per_sec (admit_all r0 source ts).1 = refill_milli_per_sec r0).
  { clear. intros ts. induction ts as [|t ts IH]; intros r0; [done|]. rewrite admit_all_cons. cbn [fst].
    destruct (IH (try_admit r0 source t).1) as [-> ->].
    by rewrite (proj1 (try_admit_bucket r0 source t)). }
  destruct (Hpol ts r1) as [Hm Hr]. destruct (admit_all r1 source ts) as [r2 vs]. cbn [fst snd] in *.
  destruct Hfin as [Hok2 (b & Hb & Hle)]. specialize (Hlast b Hb).
  destruct (proj2 Hok2 source b Hb) as [[Hpos _] _]. rewrite Hm, Hr in Hle. rewrite E1 in Hle.
  cbn [max_tokens_milli refill_milli_per_sec] in Hle.
  destruct Hok as [[_ [Hrw _]] _].
  pose proof (Z.mul_le_mono_nonneg_l (last_refill_ms b - t0) (hi - t0) _ Hrw ltac:(lia)). lia.
Qed.

Example rate_limit_bound_witness :
  1000000 * admitted (admit_all (mkRateLimiter 5000 500 ∅) (V4 [192; 0; 2; 9])
     (0 :: [1; 2; 3; 4; 5; 2000; 2001])).2 <= 1000 * 5000 + 500 * (2001 - 0).
Proof.
  apply (rate_limit_bound (mkRateLimiter 5000 500 ∅) (V4 [192; 0; 2; 9]) 0 2001
           [1; 2; 3; 4; 5; 2000; 2001]).
  - split; [split; vm_compute; split; congruence|]. apply map_Forall_empty.
  - reflexivity.
  - vm_compute. split; congruence.
  - repeat constructor; vm_compute; congruence.
  - lia.
  - repeat constructor; lia.
Defined.

(** Frequent callers starve: because each call truncates the refill to
    whole milli-tokens and still moves [last_refill_ms], a source whose bucket
    is empty and that retries every millisecond is refused every time, for as
    long as it keeps retrying, under any rate below one token per second (the
    default is half a token per second, documented as five tokens per ten
    seconds). *)
Theorem frequent_calls_starve (r : RateLimiter) (source : IpAddr) (b : Bucket) (n : nat) :
  policy_ok r → refill_milli_per_sec r < 1000 →
  rl_inner r !! source = Some b → bucket_ok r b → tokens_milli b < 1000 →
  last_refill_ms b + Z.of_nat n < 2 ^ 64 →
  (admit_all r source (seqZ (last_refill_ms b + 1) (Z.of_nat n))).2 = replicate n false.
Proof.
  revert r b. induction n as [|n IH]; intros r b Hp Hrate Hb Hok Hlow Hmax; [done|].
  rewrite (seqZ_cons (last_refill_ms b + 1) (Z.of_nat (S n))) by lia.
  rewrite admit_all_cons. cbn [snd replicate].
  set (t := last_refill_ms b + 1). destruct (try_admit_bucket r source t) as [E1 E2].
  rewrite Hb in E1, E2. cbn [default from_option id] in E1, E2.
  assert (Hre : bucket_refill r b t = mkBucket (tokens_milli b) t).
  { unfold bucket_refill, t, saturating_mul, saturating_add. rewrite (proj2 (Z.ltb_lt _ _)) by lia.
    replace (last_refill_ms b + 1 - last_refill_ms b) with 1 by lia. rewrite Z.mul_1_r.
    destruct Hp as [Hm Hr], Hok as [Ht Hl].
    rewrite (Z.min_l (refill_milli_per_sec r)), Z.div_small, Z.add_0_r by zlia.
    rewrite (Z.min_l (tokens_milli b) (umax 64)), Z.min_l by zlia. by rewrite wrap_small by zlia. }
  assert (Htake : bucket_take (mkBucket (tokens_milli b) t) = (mkBucket (tokens_milli b) t, false)).
  { unfold bucket_take. simpl. by rewrite (proj2 (Z.leb_gt _ _)) by lia. }
  rewrite Hre, Htake in E1, E2. cbn [fst snd] in E1, E2. rewrite E1, E2. f_equal.
  replace (Z.pred (Z.of_nat (S n))) with (Z.of_nat n) by lia. replace (Z.succ t) with (t + 1) by lia.
  apply (IH (mkRateLimiter _ _ _) (mkBucket (tokens_milli b) t)); cbn [refill_milli_per_sec rl_inner
    last_refill_ms tokens_milli]; [done|done|apply lookup_insert_eq| |done|subst t; lia].
  destruct Hok as [Ht Hl]. split; [done|]. unfold in_width in *. subst t. simpl. lia.
Qed.

Example frequent_calls_starve_witness :
  (admit_all (mkRateLimiter 5000 500 {[V4 [192; 0; 2; 9] := mkBucket 0 10]}) (V4 [192; 0; 2; 9])
     (seqZ 11 60)).2 = replicate 60 false.
Proof.
  apply (frequent_calls_starve (mkRateLimiter 5000 500 {[V4 [192; 0; 2; 9] := mkBucket 0 10]})
    (V4 [192; 0; 2; 9]) (mkBucket 0 10) 60).
  - split; vm_compute; split; congruence.
  - reflexivity.
  - reflexivity.
  - split; vm_compute; split; congruence.
  - reflexivity.
  - reflexivity.
Defined.

(** Sources are isolated and eviction is exact: a call of one source
    leaves every other bucket as it was and keeps all counters within their
    width and capacity; [evict_stale] removes exactly the buckets idle past
    the cutoff and returns their number. *)
Theorem rate_limiter_isolation (r : RateLimiter) (source other : IpAddr) (now idle : Z) :
  limiter_ok r → in_width 64 now →
  limiter_ok (try_admit r source now).1 ∧
  (other ≠ source → rl_inner (try_admit r source now).1 !! other = rl_inner r !! other) ∧
  (∀ b, rl_inner (evict_stale r now idle).1 !! other = Some b ↔
        rl_inner r !! other = Some b ∧ saturating_sub now idle <= last_refill_ms b) ∧
  (tracked (evict_stale r now idle).1 + (evict_stale r now idle).2 = tracked r)%nat.
Proof.
  intros Hok Hn. split_and!.
  - by apply try_admit_ok.
  - intros Hne. rewrite (proj1 (try_admit_bucket r source now)). by apply lookup_insert_ne.
  - intros b. cbn [evict_stale fst rl_inner]. apply map_lookup_filter_Some.
  - unfold tracked. cbn [evict_stale fst snd rl_inner].
    pose proof (map_size_filter (fun kv : IpAddr * Bucket => saturating_sub now idle <= last_refill_ms kv.2)
      (rl_inner r)). lia.
Qed.

Example rate_limiter_isolation_witness :
  limiter_ok (try_admit (mkRateLimiter 5000 500 ∅) (V4 [1; 1; 1; 1]) 7).1.
Proof.
  apply (rate_limiter_isolation (mkRateLimiter 5000 500 ∅) (V4 [1; 1; 1; 1]) (V4 [2; 2; 2; 2]) 7 0).
  - split; [split; vm_compute; split; congruence|]. apply map_Forall_empty.
  - vm_compute. split; congruence.
Defined.
