(* ===== verification/Clients.v ===== *)
(** * The server's client registry

    Models [desmos-core/src/server/clients.rs]: admission, session-id
    allocation and the responder handshake that installs a session in the
    table.  A registry call is one step; the atomic id cursor and the table
    are fields.  The registry uses the session layer through [advance] and the
    table operations only. *)

From stdpp Require Import base gmap numbers strings list.
From Stdlib Require Import ZArith Lia.
From S2P Require Import Prelude Wire Crypto Noise AntiReplay Session.

Inductive ServerError :=
| MaxClientsReached
| ServerHandshake (e : HandshakeError)
| ServerSession (e : SessionError)
| IdSpaceExhausted.

(** [From<SessionError>]. *)
Definition ServerError_from_session (e : SessionError) : ServerError :=
  match e with
  | SHandshake h => ServerHandshake h
  | other => ServerSession other
  end.

Record ClientRegistry := mkRegistry {
  cr_static_key : X25519PrivateKey;
  cr_known_clients : list PublicKey;
  cr_prologue : bytes;
  cr_max_clients : Z;
  cr_next_id : Z;
  cr_table : SessionTable;
}.

Definition ClientRegistry_new (static_key : X25519PrivateKey) (known : list PublicKey)
    (prologue : bytes) (max_clients : Z) : ClientRegistry :=
  mkRegistry static_key known prologue max_clients 1 SessionTable_new.

(** [len() as u32]. *)
Definition active_clients (r : ClientRegistry) : Z := wrap 32 (Z.of_nat (SessionTable_len (cr_table r))).

Definition set_next_id (n : Z) (r : ClientRegistry) : ClientRegistry :=
  mkRegistry (cr_static_key r) (cr_known_clients r) (cr_prologue r) (cr_max_clients r) n (cr_table r).
Definition set_table (t : SessionTable) (r : ClientRegistry) : ClientRegistry :=
  mkRegistry (cr_static_key r) (cr_known_clients r) (cr_prologue r) (cr_max_clients r) (cr_next_id r) t.

(** [n] iterations of the [for] loop. *)
Fixpoint allocate_loop (n : nat) (r : ClientRegistry) : ClientRegistry * result SessionId ServerError :=
  match n with
  | O => (r, Err IdSpaceExhausted)
  | S n' =>
      let candidate := cr_next_id r in
      let r := set_next_id (wrapping_add 16 candidate 1) r in
      if candidate =? 0 then allocate_loop n' r
      else if negb (SessionTable_contains (cr_table r) candidate) then (r, Ok candidate)
      else allocate_loop n' r
  end.

Definition allocate_id (r : ClientRegistry) : ClientRegistry * result SessionId ServerError :=
  allocate_loop (Z.to_nat (umax 16 + 1)) r.

Section Accept.
  Context {RC : RingCrypto} {XO : X25519Ops}.

Definition accept_client_msg1 (r : ClientRegistry) (msg1 : bytes) (now_ms : Z) (rng : option bytes)
  : ClientRegistry * result (SessionId * bytes) ServerError :=
  if cr_max_clients r <=? active_clients r then (r, Err MaxClientsReached)
  else
    match allocate_id r with
    | (r, Err e) => (r, Err e)
    | (r, Ok id) =>
        let handshaking := new_responder id (cr_static_key r) (cr_known_clients r) (cr_prologue r) in
        match advance handshaking (Some msg1) now_ms rng with
        | Err e => (r, Err (ServerError_from_session e))
        | Ok (HEstablished (Some msg2) session) =>
            (set_table (SessionTable_insert (cr_table r) (AnyEstablished session)).1 r, Ok (id, msg2))
        | Ok (HEstablished None _) => (r, Err (ServerSession WrongStep))
        | Ok (NeedsMore _ _) => (r, Err (ServerSession WrongStep))
        end
    end.

End Accept.

Definition remove_client (r : ClientRegistry) (id : SessionId) : ClientRegistry * option Slot :=
  let '(t, s) := SessionTable_remove (cr_table r) id in (set_table t r, s).

(** [filter_map] over the snapshot of ids, removing each. *)
Fixpoint shutdown_loop (ids : list SessionId) (r : ClientRegistry) : ClientRegistry * list Slot :=
  match ids with
  | [] => (r, [])
  | id :: ids' =>
      let '(r1, s) := remove_client r id in
      let '(r2, rest) := shutdown_loop ids' r1 in
      (r2, match s with Some slot => slot :: rest | None => rest end)
  end.

Definition shutdown (r : ClientRegistry) : ClientRegistry * list Slot :=
  shutdown_loop (SessionTable_ids (cr_table r)) r.

(** ** Lemmas *)

(** The ids the loop looks at: the [n] values from the cursor, modulo [2^16]. *)
Lemma allocate_loop_spec n r :
  in_width 16 (cr_next_id r) →
  let '(r', res) := allocate_loop n r in
  cr_table r' = cr_table r ∧ cr_max_clients r' = cr_max_clients r ∧ in_width 16 (cr_next_id r') ∧
  cr_static_key r' = cr_static_key r ∧ cr_known_clients r' = cr_known_clients r ∧
  cr_prologue r' = cr_prologue r ∧
  match res with
  | Ok id => id ≠ 0 ∧ in_width 16 id ∧ slots (cr_table r) !! id = None
  | Err e => e = IdSpaceExhausted ∧
      ∀ i, (i < n)%nat → wrap 16 (cr_next_id r + Z.of_nat i) ≠ 0 →
        is_Some (slots (cr_table r) !! wrap 16 (cr_next_id r + Z.of_nat i))
  end.
Proof.
  revert r. induction n as [|n IH]; intros r Hc; cbn [allocate_loop].
  { split_and!; [done..| |done|]; [done|lia]. }
  set (c := cr_next_id r) in *. set (r1 := set_next_id (wrapping_add 16 c 1) r).
  assert (Hc1 : in_width 16 (cr_next_id r1)) by (apply wrap_range; lia).
  assert (Hwrap : ∀ i, wrap 16 (cr_next_id r1 + Z.of_nat i) = wrap 16 (c + Z.of_nat (S i))).
  { intros i. unfold r1, set_next_id, wrapping_add, wrap. cbn [cr_next_id].
    rewrite Zplus_mod_idemp_l. f_equal. lia. }
  assert (Hstep : (c ≠ 0 → is_Some (slots (cr_table r) !! c)) →
    let '(r', res) := allocate_loop n r1 in
    cr_table r' = cr_table r ∧ cr_max_clients r' = cr_max_clients r ∧ in_width 16 (cr_next_id r') ∧
    cr_static_key r' = cr_static_key r ∧ cr_known_clients r' = cr_known_clients r ∧
    cr_prologue r' = cr_prologue r ∧
    match res with
    | Ok id => id ≠ 0 ∧ in_width 16 id ∧ slots (cr_table r) !! id = None
    | Err e => e = IdSpaceExhausted ∧
        ∀ i, (i < S n)%nat → wrap 16 (c + Z.of_nat i) ≠ 0 →
          is_Some (slots (cr_table r) !! wrap 16 (c + Z.of_nat i))
    end).
  { intros Hhere. specialize (IH r1 Hc1). destruct (allocate_loop n r1) as [r' res].
    destruct IH as (H1 & H2 & H3 & H4 & H5 & H6 & H7). split_and!; [done..|].
    destruct res as [id|e]; [done|]. destruct H7 as [He Hi]. split; [done|].
    intros [|i] Hlt.
    - rewrite Z.add_0_r, (wrap_small 16 c) by done. done.
    - rewrite <-Hwrap. apply Hi. lia. }
  destruct (Z.eqb_spec c 0) as [H0|H0]; [by apply Hstep|].
  unfold SessionTable_contains. change (cr_table r1) with (cr_table r).
  case_bool_decide as Hin; cbn [negb]; [by apply Hstep|].
  split_and!; try done. by apply eq_None_not_Some.
Qed.

Lemma u16_size : Z.of_nat (Z.to_nat (umax 16 + 1)) = 65536.
Proof. rewrite Z2Nat.id; [done|]. unfold umax. lia. Qed.

(** The loop bound covers the whole id space. *)
Lemma allocate_id_spec r :
  in_width 16 (cr_next_id r) →
  let '(r', res) := allocate_id r in
  cr_table r' = cr_table r ∧ cr_max_clients r' = cr_max_clients r ∧ in_width 16 (cr_next_id r') ∧
  cr_static_key r' = cr_static_key r ∧ cr_known_clients r' = cr_known_clients r ∧
  cr_prologue r' = cr_prologue r ∧
  match res with
  | Ok id => 0 < id < 65536 ∧ slots (cr_table r) !! id = None
  | Err e => e = IdSpaceExhausted ∧ ∀ id, 0 < id < 65536 → is_Some (slots (cr_table r) !! id)
  end.
Proof.
  intros Hc. unfold allocate_id. pose proof u16_size as Hn. set (n := Z.to_nat (umax 16 + 1)) in *.
  clearbody n. pose proof (allocate_loop_spec n r Hc) as H. destruct (allocate_loop n r) as [r' res].
  destruct H as (H1 & H2 & H3 & H4 & H5 & H6 & H7). split_and!; [done..|].
  destruct res as [id|e].
  - destruct H7 as (Hne & Hw & Hnone). split; [|done]. zlia.
  - destruct H7 as [He Hi]. split; [done|]. intros id Hid.
    pose proof (Z.mod_pos_bound (id - cr_next_id r) 65536 ltac:(lia)) as Hm.
    set (i := (id - cr_next_id r) mod 65536) in *.
    assert (E : wrap 16 (cr_next_id r + Z.of_nat (Z.to_nat i)) = id).
    { rewrite Z2Nat.id by lia. unfold wrap, i. change (2 ^ 16) with 65536.
      rewrite Zplus_mod_idemp_r. replace (cr_next_id r + (id - cr_next_id r)) with id by lia.
      apply Z.mod_small. lia. }
    rewrite <-E. apply Hi; [lia|]. rewrite E. lia.
Qed.

(** Well-formed registries: the table's slots hold sessions of their id, the
    reserved id is never used, and the cap is respected. *)
Record registry_inv (r : ClientRegistry) : Prop := {
  ri_table : table_inv (cr_table r);
  ri_next : in_width 16 (cr_next_id r);
  ri_cap : Z.of_nat (SessionTable_len (cr_table r)) <= cr_max_clients r;
  ri_width : in_width 32 (cr_max_clients r);
  ri_ids id : is_Some (slots (cr_table r) !! id) → 0 < id < 65536;
}.

Lemma active_clients_exact r :
  registry_inv r → active_clients r = Z.of_nat (SessionTable_len (cr_table r)).
Proof. intros [_ _ Hcap Hw _]. unfold active_clients. apply wrap_small. unfold in_width in *. lia. Qed.

Lemma registry_inv_new k known prologue max :
  in_width 32 max → registry_inv (ClientRegistry_new k known prologue max).
Proof.
  intros Hm. constructor; cbn [ClientRegistry_new cr_table cr_next_id cr_max_clients].
  - apply table_inv_new.
  - unfold in_width. lia.
  - unfold SessionTable_len. cbn. rewrite map_size_empty. unfold in_width in Hm. lia.
  - done.
  - intros id [slot Hs]. cbn in Hs. by rewrite lookup_empty in Hs.
Qed.

Section AcceptLemmas.
  Context {RC : RingCrypto} {XO : X25519Ops}.

(** A responder never asks for more, and its session carries its id. *)
Lemma advance_responder id k known prologue msg1 now rng outcome :
  advance (new_responder id k known prologue) (Some msg1) now rng = Ok outcome →
  ∃ msg2 s, outcome = HEstablished (Some msg2) s ∧ s_id s = id ∧
    send_counter (s_state s) = 0 ∧ recv_window (s_state s) = AntiReplayWindow_new ∧
    established_at_ms (s_state s) = now.
Proof.
  unfold advance, new_responder. cbn [hs_inner s_state s_id].
  destruct (read_message_1 msg1 _) as [res [u|e]]; [|done]. cbn [result_map_err result_bind].
  destruct (write_message_2 res rng) as [[m k']|e]; [|done]. cbn [result_map_err result_bind fst snd].
  unfold established_from_keys.
  destruct (AeadKey_new (tk_send k')) as [sk|e]; [|done]. cbn [result_map_err result_bind].
  destruct (AeadKey_new (tk_recv k')) as [rk|e]; [|done]. cbn [result_map_err result_bind].
  intros [= <-]. by do 2 eexists.
Qed.

Lemma insert_inv r any :
  registry_inv r → Z.of_nat (SessionTable_len (cr_table r)) < cr_max_clients r →
  0 < AnySession_id any < 65536 → slots (cr_table r) !! AnySession_id any = None →
  registry_inv (set_table (SessionTable_insert (cr_table r) any).1 r) ∧
  SessionTable_len (SessionTable_insert (cr_table r) any).1 = S (SessionTable_len (cr_table r)).
Proof.
  intros [Ht Hn Hc Hw Hi] Hlt Hid Hnew.
  assert (Hlen : SessionTable_len (SessionTable_insert (cr_table r) any).1
                 = S (SessionTable_len (cr_table r))).
  { unfold SessionTable_len. cbn [SessionTable_insert fst slots]. by rewrite map_size_insert_None. }
  split; [|done]. constructor; cbn [set_table cr_table cr_next_id cr_max_clients].
  - by apply (table_step_inv _ (TInsert any)).
  - done.
  - rewrite Hlen. lia.
  - done.
  - intros id. cbn [SessionTable_insert fst slots]. destruct (decide (id = AnySession_id any)) as [->|].
    + done.
    + rewrite lookup_insert_ne by done. apply Hi.
Qed.

(** What a call leaves when it installs nothing. *)
Lemma allocate_id_inv r r' res :
  registry_inv r → allocate_id r = (r', res) →
  registry_inv r' ∧ cr_table r' = cr_table r ∧
  match res with
  | Ok id => 0 < id < 65536 ∧ slots (cr_table r) !! id = None
  | Err e => e = IdSpaceExhausted ∧ ∀ id, 0 < id < 65536 → is_Some (slots (cr_table r) !! id)
  end.
Proof.
  intros Hinv E. pose proof (allocate_id_spec r (ri_next r Hinv)) as H. rewrite E in H.
  destruct H as (H1 & H2 & H3 & _ & _ & _ & H7). split_and!; [|done|done].
  destruct Hinv. constructor; rewrite ?H1, ?H2; done.
Qed.

(** C10: Admission: from a well-formed registry, [accept_client_msg1] refuses at
    the cap without touching anything; on success it returns an id that was
    free and is not the reserved 0, the table resolves that id to a fresh
    established session of that id and every other id as before, and exactly
    one client more is active, within the cap; on any other outcome the table
    is as before.  The registry stays well formed in every case. *)
Theorem accept_client_exact (r : ClientRegistry) (msg1 : bytes) (now : Z) (rng : option bytes) :
  registry_inv r →
  let '(r', res) := accept_client_msg1 r msg1 now rng in
  registry_inv r' ∧
  (active_clients r >= cr_max_clients r → r' = r ∧ res = Err MaxClientsReached) ∧
  match res with
  | Ok (id, msg2) =>
      0 < id < 65536 ∧ SessionTable_get (cr_table r) id = None ∧
      active_clients r' = active_clients r + 1 ∧ active_clients r' <= cr_max_clients r ∧
      (∃ s, table_lookup (cr_table r') id = Some (AnyEstablished s) ∧ s_id s = id ∧
            send_counter (s_state s) = 0 ∧ recv_window (s_state s) = AntiReplayWindow_new) ∧
      (∀ other, other ≠ id → table_lookup (cr_table r') other = table_lookup (cr_table r) other)
  | Err _ => cr_table r' = cr_table r
  end.
Proof.
  intros Hinv. unfold accept_client_msg1. pose proof (active_clients_exact r Hinv) as Hact.
  destruct (Z.leb_spec (cr_max_clients r) (active_clients r)) as [Hfull|Hroom]; [by split_and!|].
  destruct (allocate_id r) as [r1 [id|e]] eqn:Ea.
  2:{ destruct (allocate_id_inv r r1 _ Hinv Ea) as (Hinv1 & Ht & _). split_and!; [done|lia|done]. }
  destruct (allocate_id_inv r r1 _ Hinv Ea) as (Hinv1 & Ht & Hid & Hnone).
  destruct (advance _ (Some msg1) now rng) as [outcome|e] eqn:Ead; [|by split_and!; [done|lia|]].
  destruct (advance_responder _ _ _ _ _ _ _ _ Ead) as (msg2 & s & -> & Hsid & Hsc & Hsw & _).
  assert (Hcap : cr_max_clients r1 = cr_max_clients r).
  { pose proof (allocate_id_spec r (ri_next r Hinv)) as Hs. rewrite Ea in Hs. apply Hs. }
  destruct (insert_inv r1 (AnyEstablished s) Hinv1) as [Hinv2 Hlen]; cbn [AnySession_id];
    [rewrite Ht, Hcap; lia|by rewrite Hsid|by rewrite Hsid, Ht|].
  split; [done|]. split; [lia|]. rewrite (active_clients_exact _ Hinv2). cbn [set_table cr_table].
  rewrite Hlen, Ht. split_and!; [lia|lia|done|lia|lia| |].
  - exists s. unfold table_lookup. cbn [SessionTable_insert fst slots heap AnySession_id].
    rewrite Hsid, lookup_insert_eq. simpl. by rewrite lookup_insert_eq.
  - intros other Hne. unfold table_lookup. cbn [SessionTable_insert fst slots heap AnySession_id].
    rewrite lookup_insert_ne by congruence. destruct (slots (cr_table r) !! other) as [slot|] eqn:Es; [|done].
    simpl. apply lookup_insert_ne. intros <-.
    destruct (ti_alloc _ (ri_table r Hinv) _ _ Es) as (x & Hx & _). by rewrite slot_fresh in Hx.
Qed.

End AcceptLemmas.

(** Id allocation is complete: the loop of [2^16] iterations returns a
    session id that is not the reserved 0 and not in the table, whatever the
    cursor, and gives up only when all 65535 ids are taken; the table is left
    alone. *)
Theorem allocate_id_complete (r : ClientRegistry) :
  in_width 16 (cr_next_id r) →
  cr_table (allocate_id r).1 = cr_table r ∧
  ((allocate_id r).2 = Err IdSpaceExhausted ↔ ∀ id, 0 < id < 65536 → is_Some (slots (cr_table r) !! id)) ∧
  (∀ id, (allocate_id r).2 = Ok id → 0 < id < 65536 ∧ SessionTable_contains (cr_table r) id = false).
Proof.
  intros Hc. pose proof (allocate_id_spec r Hc) as H. destruct (allocate_id r) as [r' res]. cbn [fst snd].
  destruct H as (H1 & _ & _ & _ & _ & _ & H7). split; [done|]. destruct res as [id|e].
  - destruct H7 as [Hid Hnone]. split.
    + split; [done|]. intros Hall. destruct (Hall id Hid). congruence.
    + intros id' [= <-]. split; [done|]. apply bool_decide_eq_false. rewrite Hnone. by intros [].
  - destruct H7 as [-> Hall]. split; [done|]. intros id [=].
Qed.

(** Removing the ids one by one. *)
Lemma shutdown_loop_spec ids r :
  NoDup ids → Forall (fun id => is_Some (slots (cr_table r) !! id)) ids →
  let '(r', out) := shutdown_loop ids r in
  heap (cr_table r') = heap (cr_table r) ∧
  (∀ id, slots (cr_table r') !! id = if decide (id ∈ ids) then None else slots (cr_table r) !! id) ∧
  Some <$> out = (fun id => slots (cr_table r) !! id) <$> ids.
Proof.
  intros Hnd. revert r. induction Hnd as [|id ids Hni Hnd IH]; intros r Hf.
  { split_and!; [done| |done]. intros id. by rewrite decide_False by apply not_elem_of_nil. }
  inversion_clear Hf as [|? ? [slot Hs] Hf']. cbn [shutdown_loop remove_client SessionTable_remove].
  set (r1 := set_table _ r). specialize (IH r1).
  assert (Hr1 : ∀ i, i ∈ ids → slots (cr_table r1) !! i = slots (cr_table r) !! i).
  { intros i Hi. cbn. apply lookup_delete_ne. by intros ->. }
  destruct (shutdown_loop ids r1) as [r2 rest]. destruct IH as (H1 & H2 & H3).
  { rewrite Forall_forall in Hf'. apply Forall_forall. intros i Hi. rewrite (Hr1 i Hi). by apply Hf'. }
  rewrite Hs. split_and!; [done| |].
  - intros i. rewrite H2. destruct (decide (i = id)) as [->|Hne].
    + rewrite (decide_True (P := id ∈ id :: ids)) by left.
      case_decide; [done|]. cbn. apply lookup_delete_eq.
    + destruct (decide (i ∈ ids)); [by rewrite decide_True by by right|].
      rewrite decide_False by (by intros [?|?]%elem_of_cons). cbn. by apply lookup_delete_ne.
  - rewrite !fmap_cons, H3, Hs. f_equal. apply list_fmap_ext. intros k i Hi.
    apply Hr1. by eapply list_elem_of_lookup_2.
Qed.

(** Shutdown removes every client: the table is empty afterwards, each
    registered slot is handed back once, and the sessions behind the handles
    are untouched, so a goodbye can still be sent on each. *)
Theorem shutdown_drains (r : ClientRegistry) :
  let '(r', out) := shutdown r in
  slots (cr_table r') = ∅ ∧ heap (cr_table r') = heap (cr_table r) ∧
  out ≡ₚ (map_to_list (slots (cr_table r))).*2.
Proof.
  unfold shutdown, SessionTable_ids. set (l := map_to_list (slots (cr_table r))).
  assert (Hl : ∀ id slot, (id, slot) ∈ l ↔ slots (cr_table r) !! id = Some slot)
    by (intros; apply elem_of_map_to_list).
  pose proof (shutdown_loop_spec l.*1 r) as H. destruct (shutdown_loop l.*1 r) as [r' out].
  destruct H as (H1 & H2 & H3).
  { apply NoDup_fst_map_to_list. }
  { apply Forall_forall. intros id ([id' slot] & -> & Hin)%list_elem_of_fmap. apply Hl in Hin. by eauto. }
  split_and!; [|done|].
  - apply map_eq. intros id. rewrite H2, lookup_empty. case_decide as Hni; [done|].
    destruct (slots (cr_table r) !! id) as [slot|] eqn:Es; [|done]. destruct Hni.
    apply list_elem_of_fmap. exists (id, slot). split; [done|]. by apply Hl.
  - assert (E : Some <$> out = Some <$> l.*2).
    { rewrite H3, <-!list_fmap_compose. apply list_fmap_ext. intros i [id slot] Hi.
      apply Hl. by eapply list_elem_of_lookup_2. }
    apply (inj (fmap Some)) in E. by rewrite E.
Qed.

Example accept_client_exact_witness :
  registry_inv (ClientRegistry_new (mkPrivateKey (demo_seed 2)) [] [] 0) ∧
  (accept_client_msg1 (ClientRegistry_new (mkPrivateKey (demo_seed 2)) [] [] 0) [1] 0 None).2
  = Err MaxClientsReached.
Proof.
  assert (Hinv : registry_inv (ClientRegistry_new (mkPrivateKey (demo_seed 2)) [] [] 0))
    by (apply registry_inv_new; vm_compute; split; congruence).
  split; [exact Hinv|].
  pose proof (accept_client_exact _ [1] 0 None Hinv) as H.
  destruct (accept_client_msg1 _ [1] 0 None) as [r' res]. destruct H as (_ & H & _).
  apply H. vm_compute. congruence.
Defined.

Example allocate_id_complete_witness :
  cr_table (allocate_id (ClientRegistry_new (mkPrivateKey []) [] [] 3)).1 = SessionTable_new.
Proof.
  apply (allocate_id_complete (ClientRegistry_new (mkPrivateKey []) [] [] 3)).
  vm_compute. split; congruence.
Defined.
