(* ===== verification/Pipeline.v ===== *)
(** * The packet pipeline

    Models [desmos-core/src/pipeline/metrics.rs], [outbound.rs] and
    [inbound.rs].  A stage call is a function from the tunnel's state (session,
    engine, metrics, scratch buffer) and what the operating system hands it
    (the packet read, the outcome of each send) to the new state, the datagrams
    sent or the packet written to the TUN, and the [io::Result]. *)

From stdpp Require Import base gmap numbers strings list.
From Stdlib Require Import ZArith Lia.
From S2P Require Import Prelude Wire AntiReplay Crypto Noise Strategy Engine Session.

(** ** [metrics.rs]: relaxed atomic counters, wrapping at 64 bits *)

Record PipelineMetrics := mkMetrics {
  packets_sent : Z;
  packets_received : Z;
  bytes_sent : Z;
  bytes_received : Z;
  bad_header : Z;
  decrypt_failures : Z;
  replay_drops : Z;
}.

Definition PipelineMetrics_new : PipelineMetrics := mkMetrics 0 0 0 0 0 0 0.

Definition record_sent (m : PipelineMetrics) (n : nat) : PipelineMetrics :=
  mkMetrics (wrapping_add 64 (packets_sent m) 1) (packets_received m)
    (wrapping_add 64 (bytes_sent m) (Z.of_nat n)) (bytes_received m) (bad_header m)
    (decrypt_failures m) (replay_drops m).
Definition record_received (m : PipelineMetrics) (n : nat) : PipelineMetrics :=
  mkMetrics (packets_sent m) (wrapping_add 64 (packets_received m) 1) (bytes_sent m)
    (wrapping_add 64 (bytes_received m) (Z.of_nat n)) (bad_header m) (decrypt_failures m) (replay_drops m).
Definition record_bad_header (m : PipelineMetrics) : PipelineMetrics :=
  mkMetrics (packets_sent m) (packets_received m) (bytes_sent m) (bytes_received m)
    (wrapping_add 64 (bad_header m) 1) (decrypt_failures m) (replay_drops m).
Definition record_decrypt_failure (m : PipelineMetrics) : PipelineMetrics :=
  mkMetrics (packets_sent m) (packets_received m) (bytes_sent m) (bytes_received m) (bad_header m)
    (wrapping_add 64 (decrypt_failures m) 1) (replay_drops m).
Definition record_replay_drop (m : PipelineMetrics) : PipelineMetrics :=
  mkMetrics (packets_sent m) (packets_received m) (bytes_sent m) (bytes_received m) (bad_header m)
    (decrypt_failures m) (wrapping_add 64 (replay_drops m) 1).

(** ** The operating system's side *)

Inductive IoError := InvalidInput | InvalidData | TimedOut | NotFound | Unsupported | OtherError | OsError (code : Z).

(** A read of [r] into a buffer of [cap] bytes: at most [cap] of them. *)
Definition read_into (cap : nat) (r : result bytes IoError) : result bytes IoError :=
  match r with Ok p => Ok (take cap p) | Err e => Err e end.

Abbreviation Datagram := (SocketAddr * bytes)%type.

(** ** [outbound.rs] *)

Definition data_header (sid : SessionId) (seq : Z) (len : nat) : Header :=
  {| version := WIRE_VERSION; packet_type := Data; flags := Flags_EMPTY; session_id := sid;
     sequence := wrap 32 seq; timestamp_us := 0; payload_len := wrap 16 (Z.of_nat len);
     interface_id := 0 |}.

(** [header.encode(&mut scratch[..HEADER_LEN])]. *)
Definition encode_into (h : Header) (scratch : bytes) : result bytes IoError :=
  match Header_encode h (take HEADER_LEN scratch) with
  | Ok (_, hd) => Ok (hd ++ drop HEADER_LEN scratch)
  | Err _ => Err OtherError
  end.

(** Plaintext stage: the new sequence number, scratch, datagrams, result. *)
Definition forward_tun_to_udp (tun : result bytes IoError)
    (send : Datagram → result () IoError) (peer : SocketAddr) (sid : SessionId) (seq : Seq)
    (scratch : bytes) : Seq * bytes * list Datagram * result nat IoError :=
  if (length scratch <? HEADER_LEN + 1)%nat then (seq, scratch, [], Err InvalidInput)
  else
  match read_into (length scratch - HEADER_LEN) tun with
  | Err e => (seq, scratch, [], Err e)
  | Ok p =>
      let scratch := copy_from_slice scratch HEADER_LEN p in
      let payload_len := length p in
      if (payload_len =? 0)%nat then (seq, scratch, [], Ok 0%nat)
      else if (Z.to_nat (umax 16) <? payload_len)%nat then (seq, scratch, [], Err InvalidData)
      else
        match encode_into (data_header sid seq payload_len) scratch with
        | Err e => (seq, scratch, [], Err e)
        | Ok scratch =>
            let seq := Seq_next seq in
            let total := (HEADER_LEN + payload_len)%nat in
            let d := (peer, take total scratch) in
            match send d with
            | Err e => (seq, scratch, [], Err e)
            | Ok _ => (seq, scratch, [d], Ok total)
            end
        end
  end.

Section Encrypted.
  Context {RC : RingCrypto}.

(** The guards and the sealing that the two encrypted stages share: the frame
    that goes on the wire, or the stage's early result. *)
Inductive sealed :=
| SealedEmpty
| SealedErr (e : IoError)
| SealedPacket (seq : Z) (ciphertext : bytes).

Definition read_and_seal (tun : result bytes IoError) (session : Session Established)
    (scratch : bytes) : Session Established * bytes * sealed :=
  if (length scratch <? HEADER_LEN + 1)%nat then (session, scratch, SealedErr InvalidInput)
  else
  match read_into (length scratch - HEADER_LEN) tun with
  | Err e => (session, scratch, SealedErr e)
  | Ok p =>
      let scratch := copy_from_slice scratch HEADER_LEN p in
      if (length p =? 0)%nat then (session, scratch, SealedEmpty)
      else
        let plaintext := slice HEADER_LEN (HEADER_LEN + length p) scratch in
        match encrypt_packet session plaintext with
        | (session, Err _) => (session, scratch, SealedErr OtherError)
        | (session, Ok (seq, ciphertext)) =>
            let ct_len := length ciphertext in
            if (Z.to_nat (umax 16) <? ct_len)%nat then (session, scratch, SealedErr InvalidData)
            else if (length scratch <? HEADER_LEN + ct_len)%nat
            then (session, scratch, SealedErr InvalidInput)
            else if umax 32 <? seq then (session, scratch, SealedErr OtherError)
            else (session, scratch, SealedPacket seq ciphertext)
        end
  end.

(** Header and ciphertext written into the scratch buffer. *)
Definition write_frame (sid : SessionId) (seq : Z) (ciphertext scratch : bytes) : result bytes IoError :=
  match encode_into (data_header sid seq (length ciphertext)) scratch with
  | Err e => Err e
  | Ok scratch => Ok (copy_from_slice scratch HEADER_LEN ciphertext)
  end.

Definition forward_tun_to_udp_encrypted (tun : result bytes IoError)
    (send : Datagram → result () IoError) (peer : SocketAddr) (session : Session Established)
    (scratch : bytes) (metrics : PipelineMetrics)
  : Session Established * PipelineMetrics * bytes * list Datagram * result nat IoError :=
  match read_and_seal tun session scratch with
  | (session, scratch, SealedErr e) => (session, metrics, scratch, [], Err e)
  | (session, scratch, SealedEmpty) => (session, metrics, scratch, [], Ok 0%nat)
  | (session, scratch, SealedPacket seq ciphertext) =>
      match write_frame (s_id session) seq ciphertext scratch with
      | Err e => (session, metrics, scratch, [], Err e)
      | Ok scratch =>
          let total := (HEADER_LEN + length ciphertext)%nat in
          let d := (peer, take total scratch) in
          match send d with
          | Err e => (session, metrics, scratch, [], Err e)
          | Ok _ => (session, record_sent metrics total, scratch, [d], Ok total)
          end
      end
  end.

(** The send loop of the bonded stage, from [total_bytes]; [get_sock id] is
    the send function of the socket bound on link [id]. *)
Fixpoint send_loop (get_sock : LinkId → option (Datagram → result () IoError)) (frame : bytes)
    (links : list Link) (metrics : PipelineMetrics) (total_bytes : nat)
  : PipelineMetrics * list Datagram * result nat IoError :=
  match links with
  | [] => (metrics, [], Ok total_bytes)
  | link :: links' =>
      match get_sock (link_id link) with
      | None => send_loop get_sock frame links' metrics total_bytes
      | Some send =>
          let d := (link_peer link, frame) in
          match send d with
          | Err e => (metrics, [], Err e)
          | Ok _ =>
              let metrics := record_sent metrics (length frame) in
              let '(metrics, ds, r) :=
                send_loop get_sock frame links' metrics (total_bytes + length frame)%nat in
              (metrics, d :: ds, r)
          end
      end
  end.

Definition forward_tun_to_udp_bonded {S} `{BondingStrategy S} (tun : result bytes IoError)
    (engine : Engine S) (get_sock : LinkId → option (Datagram → result () IoError))
    (session : Session Established) (scratch : bytes) (metrics : PipelineMetrics)
  : panics (Engine S * Session Established * PipelineMetrics * bytes * list Datagram
            * result nat IoError) :=
  match read_and_seal tun session scratch with
  | (session, scratch, SealedErr e) => Some (engine, session, metrics, scratch, [], Err e)
  | (session, scratch, SealedEmpty) => Some (engine, session, metrics, scratch, [], Ok 0%nat)
  | (session, scratch, SealedPacket seq ciphertext) =>
      let meta := PacketMeta_outbound 0 0 in
      '(engine, selection) ← Engine_schedule engine meta;
      match selection with
      | SelNone => Some (engine, session, metrics, scratch, [], Ok 0%nat)
      | _ =>
          match write_frame (s_id session) seq ciphertext scratch with
          | Err e => Some (engine, session, metrics, scratch, [], Err e)
          | Ok scratch =>
              let frame := take (HEADER_LEN + length ciphertext) scratch in
              let '(metrics, ds, r) :=
                send_loop get_sock frame (LinkSelection_links selection) metrics 0 in
              Some (engine, session, metrics, scratch, ds, r)
          end
      end
  end.

End Encrypted.

(** ** [inbound.rs] *)

(** [tun.send] of the stage: the packet written to the TUN. *)
Definition forward_udp_to_tun (udp : result bytes IoError) (tun_send : bytes → result () IoError)
    (scratch_len : nat) : option bytes * result nat IoError :=
  if (scratch_len <? HEADER_LEN)%nat then (None, Err InvalidInput)
  else
  match read_into scratch_len udp with
  | Err e => (None, Err e)
  | Ok data =>
      let n := length data in
      if (n <? HEADER_LEN)%nat then (None, Err InvalidData)
      else
        match Header_decode (take HEADER_LEN data) with
        | Err _ => (None, Err InvalidData)
        | Ok header =>
            if negb (bool_decide (packet_type header = Data)) then (None, Ok 0%nat)
            else
              let declared := Z.to_nat (payload_len header) in
              let available := (n - HEADER_LEN)%nat in
              if (available <? declared)%nat then (None, Err InvalidData)
              else
                let payload := slice HEADER_LEN (HEADER_LEN + declared) data in
                match tun_send payload with
                | Err e => (None, Err e)
                | Ok _ => (Some payload, Ok declared)
                end
        end
  end.

Section InboundEncrypted.
  Context {RC : RingCrypto}.

Definition forward_udp_to_tun_encrypted (udp : result bytes IoError)
    (tun_send : bytes → result () IoError) (session : Session Established) (scratch_len : nat)
    (metrics : PipelineMetrics)
  : Session Established * PipelineMetrics * option bytes * result nat IoError :=
  if (scratch_len <? HEADER_LEN)%nat then (session, metrics, None, Err InvalidInput)
  else
  match read_into scratch_len udp with
  | Err e => (session, metrics, None, Err e)
  | Ok data =>
      let n := length data in
      let metrics := record_received metrics n in
      if (n <? HEADER_LEN)%nat then (session, record_bad_header metrics, None, Err InvalidData)
      else
        match Header_decode (take HEADER_LEN data) with
        | Err _ => (session, record_bad_header metrics, None, Err InvalidData)
        | Ok header =>
            if negb (bool_decide (packet_type header = Data)) then (session, metrics, None, Ok 0%nat)
            else
              let declared := Z.to_nat (payload_len header) in
              let available := (n - HEADER_LEN)%nat in
              if (available <? declared)%nat
              then (session, record_bad_header metrics, None, Err InvalidData)
              else
                let seq := sequence header in
                match decrypt_data session seq (slice HEADER_LEN (HEADER_LEN + declared) data) with
                | (session, Err (SReplay _)) => (session, record_replay_drop metrics, None, Ok 0%nat)
                | (session, Err (SCrypto _)) => (session, record_decrypt_failure metrics, None, Ok 0%nat)
                | (session, Err _) => (session, metrics, None, Err OtherError)
                | (session, Ok plaintext) =>
                    match tun_send plaintext with
                    | Err e => (session, metrics, None, Err e)
                    | Ok _ => (session, metrics, Some plaintext, Ok (length plaintext))
                    end
                end
        end
  end.

End InboundEncrypted.

(** ** Lemmas *)

Lemma slice_inserted (scratch p : bytes) :
  (HEADER_LEN + length p <= length scratch)%nat →
  slice HEADER_LEN (HEADER_LEN + length p) (copy_from_slice scratch HEADER_LEN p) = p.
Proof.
  intros Hl. rewrite copy_from_slice_eq by done. unfold slice.
  replace (HEADER_LEN + length p - HEADER_LEN)%nat with (length p) by lia.
  rewrite drop_app_length' by (rewrite length_take; lia). apply take_app_length.
Qed.

Section PipelineLemmas.
  Context {RC : RingCrypto} {RL : RingLaws}.

(** A packet the stages accept: not empty, and the frame fits a [u16] length
    and the scratch buffer. *)
Definition packet_fits (p scratch : bytes) : Prop :=
  p ≠ [] ∧ Z.of_nat (length p + TAG_LEN) <= 65535 ∧ (HEADER_LEN + length p + TAG_LEN <= length scratch)%nat.

Lemma umax16_nat : Z.of_nat (Z.to_nat (umax 16)) = 65535.
Proof. rewrite Z2Nat.id; [done|]. unfold umax. lia. Qed.

Lemma read_and_seal_ok p scratch (a : Session Established) :
  packet_fits p scratch → 0 <= send_counter (s_state a) <= umax 32 →
  ∃ ct, read_and_seal (Ok p) a scratch
    = (mkSession (s_id a) (set_counter (send_counter (s_state a) + 1) (s_state a)),
       copy_from_slice scratch HEADER_LEN p, SealedPacket (send_counter (s_state a)) ct) ∧
    length ct = (length p + TAG_LEN)%nat ∧
    ∀ b, linked a b → genuine b (send_counter (s_state a)) ct p.
Proof.
  intros (Hne & Hlen & Hfit) Hc. unfold HEADER_LEN, TAG_LEN in *.
  assert (Hp0 : length p ≠ O) by (by intros ?%nil_length_inv).
  destruct (encrypt_packet_ok a p) as (ct & He & Hct & Hg).
  { unfold sealable. lia. }
  { pow2. lia. }
  exists ct. split; [|done]. unfold read_and_seal, read_into, HEADER_LEN.
  rewrite (proj2 (Nat.ltb_ge _ _)) by lia. rewrite take_ge by lia.
  rewrite (proj2 (Nat.eqb_neq _ _)) by done.
  pose proof (slice_inserted scratch p) as Hs. unfold HEADER_LEN in Hs. rewrite Hs by lia.
  rewrite He, Hct. pose proof umax16_nat. unfold TAG_LEN.
  rewrite (proj2 (Nat.ltb_ge _ _)) by lia. rewrite length_inserts.
  rewrite (proj2 (Nat.ltb_ge _ _)) by lia. rewrite (proj2 (Z.ltb_ge _ _)) by lia. done.
Qed.

Lemma write_frame_ok sid seq ct scratch :
  (HEADER_LEN + length ct <= length scratch)%nat →
  ∃ scratch', write_frame sid seq ct scratch = Ok scratch' ∧
    take (HEADER_LEN + length ct) scratch' = Header_layout (data_header sid seq (length ct)) ++ ct ∧
    length scratch' = length scratch.
Proof.
  intros Hl. unfold write_frame, encode_into. set (h := data_header sid seq (length ct)).
  rewrite Header_encode_spec by (rewrite length_take; lia). eexists. split; [done|].
  rewrite drop_ge, app_nil_r by (rewrite length_take; lia).
  rewrite copy_from_slice_eq by (rewrite length_app, length_Header_layout, length_drop; lia).
  replace (take HEADER_LEN (Header_layout h ++ drop HEADER_LEN scratch)) with (Header_layout h) by done.
  split.
  - rewrite app_assoc. apply take_app_length'. by rewrite length_app, length_Header_layout.
  - rewrite !length_app, length_Header_layout, !length_drop, length_app, length_Header_layout, length_drop. lia.
Qed.

Lemma data_header_wf sid seq len :
  in_width 16 sid → Header_wf (data_header sid seq len).
Proof.
  intros Hs. constructor; simpl; try done; try apply wrap_range; try lia; apply in_width_0; lia.
Qed.

(** The inbound stage on a frame an outbound stage wrote. *)
Lemma inbound_frame (b : Session Established) tun_send seq ct n metrics :
  in_width 16 (s_id b) → in_width 32 seq → Z.of_nat (length ct) <= 65535 →
  (HEADER_LEN + length ct <= n)%nat →
  forward_udp_to_tun_encrypted
    (Ok (Header_layout (data_header (s_id b) seq (length ct)) ++ ct)) tun_send b n metrics =
  let metrics := record_received metrics (HEADER_LEN + length ct) in
  match decrypt_data b seq ct with
  | (b', Err (SReplay _)) => (b', record_replay_drop metrics, None, Ok 0%nat)
  | (b', Err (SCrypto _)) => (b', record_decrypt_failure metrics, None, Ok 0%nat)
  | (b', Err _) => (b', metrics, None, Err OtherError)
  | (b', Ok plaintext) =>
      match tun_send plaintext with
      | Err e => (b', metrics, None, Err e)
      | Ok _ => (b', metrics, Some plaintext, Ok (length plaintext))
      end
  end.
Proof.
  intros Hid Hseq Hct Hn. unfold forward_udp_to_tun_encrypted, read_into.
  set (h := data_header (s_id b) seq (length ct)).
  rewrite (proj2 (Nat.ltb_ge _ _)) by lia.
  rewrite take_ge by (rewrite length_app, length_Header_layout; lia).
  rewrite length_app, length_Header_layout. rewrite (proj2 (Nat.ltb_ge _ _)) by lia.
  rewrite take_app_length' by done.
  pose proof (Header_decode_layout h [] (data_header_wf (s_id b) seq (length ct) Hid)) as Hd.
  rewrite app_nil_r in Hd. rewrite Hd.
  replace (Z.to_nat (payload_len h)) with (length ct).
  2:{ simpl. rewrite wrap_small by (pow2; lia). lia. }
  replace (sequence h) with seq by (symmetry; by apply wrap_small).
  cbn [packet_type h data_header]. rewrite bool_decide_true by done. cbn [negb].
  rewrite (proj2 (Nat.ltb_ge _ _)) by lia.
  replace (slice HEADER_LEN (HEADER_LEN + length ct) (Header_layout h ++ ct)) with ct; [done|].
  unfold slice. rewrite drop_app_length' by done. rewrite take_ge; [done|lia].
Qed.

(** Opening a genuine packet the window takes, and any packet it does not. *)
Lemma decrypt_accepted (b : Session Established) seq ct p :
  would_accept (recv_window (s_state b)) seq = true → genuine b seq ct p →
  ∃ b', decrypt_data b seq ct = (b', Ok p) ∧ s_id b' = s_id b ∧
        check_and_update (recv_window (s_state b')) seq = (recv_window (s_state b'), Err Duplicate).
Proof.
  intros Hacc Hg. destruct (accept_marks _ _ Hacc) as (w & Hw & Hi & Hle & Hlt & Hbit).
  unfold decrypt_data, open_checked. rewrite Hw. unfold genuine in Hg. rewrite Hg.
  eexists. split; [done|]. split; [done|]. by apply marked_duplicate.
Qed.

Lemma decrypt_duplicate (b : Session Established) seq ct :
  check_and_update (recv_window (s_state b)) seq = (recv_window (s_state b), Err Duplicate) →
  decrypt_data b seq ct = (b, Err (SReplay Duplicate)).
Proof.
  intros Hd. unfold decrypt_data, open_checked. rewrite Hd. by destruct b as [? []].
Qed.

End PipelineLemmas.

(** Datagrams through the inbound stage, in order: what reaches the TUN. *)
Fixpoint inbound_all `{RingCrypto} (tun_send : bytes → result () IoError) (n : nat)
    (b : Session Established) (metrics : PipelineMetrics) (frames : list bytes)
  : Session Established * PipelineMetrics * list bytes :=
  match frames with
  | [] => (b, metrics, [])
  | f :: frames' =>
      let '(b1, m1, out, _) := forward_udp_to_tun_encrypted (Ok f) tun_send b n metrics in
      let '(b2, m2, outs) := inbound_all tun_send n b1 m1 frames' in
      (b2, m2, match out with Some p => p :: outs | None => outs end)
  end.

Section PipelineProps.
  Context {RC : RingCrypto} {RL : RingLaws}.

(** Copies of a frame whose packet has been taken are dropped as replays. *)
Lemma inbound_all_duplicates tun_send n (b : Session Established) metrics seq ct k :
  in_width 16 (s_id b) → in_width 32 seq → Z.of_nat (length ct) <= 65535 →
  (HEADER_LEN + length ct <= n)%nat →
  check_and_update (recv_window (s_state b)) seq = (recv_window (s_state b), Err Duplicate) →
  in_width 64 (replay_drops metrics) →
  ∃ m, inbound_all tun_send n b metrics
         (replicate k (Header_layout (data_header (s_id b) seq (length ct)) ++ ct)) = (b, m, []) ∧
    replay_drops m = wrap 64 (replay_drops metrics + Z.of_nat k).
Proof.
  intros Hid Hseq Hct Hn Hdup. revert metrics. induction k as [|k IH]; intros metrics Hm.
  { exists metrics. split; [done|]. by rewrite Z.add_0_r, wrap_small. }
  cbn [replicate inbound_all]. rewrite inbound_frame by done. cbn zeta.
  rewrite decrypt_duplicate by done.
  set (m1 := record_replay_drop _). destruct (IH m1) as (m & Hall & Hr); [by apply wrap_range|].
  exists m. rewrite Hall. split; [done|]. rewrite Hr. subst m1.
  cbn [record_replay_drop record_received replay_drops]. unfold wrapping_add, wrap.
  rewrite Zplus_mod_idemp_l. f_equal. lia.
Qed.

(** The first of several copies is delivered, the others are replays. *)
Lemma inbound_copies tun_send n (b : Session Established) metrics seq ct p k :
  in_width 16 (s_id b) → in_width 32 seq → Z.of_nat (length ct) <= 65535 →
  (HEADER_LEN + length ct <= n)%nat → in_width 64 (replay_drops metrics) →
  would_accept (recv_window (s_state b)) seq = true → genuine b seq ct p → tun_send p = Ok () →
  ∃ b' m, inbound_all tun_send n b metrics
      (replicate (S k) (Header_layout (data_header (s_id b) seq (length ct)) ++ ct)) = (b', m, [p]) ∧
    replay_drops m = wrap 64 (replay_drops metrics + Z.of_nat k).
Proof.
  intros Hid Hseq Hct Hn Hm Hacc Hg Htun.
  destruct (decrypt_accepted b seq ct p Hacc Hg) as (b' & Hd & Hb' & Hdup).
  cbn [replicate inbound_all]. rewrite inbound_frame by done. cbn zeta. rewrite Hd, Htun, <-Hb'.
  rewrite <-Hb' in Hid.
  destruct (inbound_all_duplicates tun_send n b' (record_received metrics (HEADER_LEN + length ct))
    seq ct k) as (m & -> & Hr); [done..|]. by exists b', m.
Qed.

(** The send loop when every socket works. *)
Lemma send_loop_ok (get_sock : LinkId → option (Datagram → result () IoError)) frame links m total :
  (∀ id send d, get_sock id = Some send → send d = Ok ()) →
  ∃ m' ds, send_loop get_sock frame links m total = (m', ds, Ok (total + length ds * length frame)%nat) ∧
    ds = (fun l => (link_peer l, frame)) <$> filter (fun l => is_Some (get_sock (link_id l))) links.
Proof.
  intros Hok. revert m total. induction links as [|l links IH]; intros m total; cbn [send_loop].
  { exists m, []. by rewrite Nat.add_0_r. }
  destruct (get_sock (link_id l)) as [send|] eqn:Es.
  - rewrite (Hok _ _ _ Es), filter_cons_True by by rewrite Es.
    destruct (IH (record_sent m (length frame)) (total + length frame)%nat) as (m' & ds & -> & Hds).
    exists m', ((link_peer l, frame) :: ds). split; [|by rewrite fmap_cons, Hds]. cbn [length].
    by replace (total + Datatypes.S (length ds) * length frame)%nat
      with (total + length frame + length ds * length frame)%nat by lia.
  - rewrite filter_cons_False by (rewrite Es; by intros [? ?]). apply IH.
Qed.

(** The frame of packet number [seq]. *)
Definition data_frame (sid : SessionId) (seq : Z) (ct : bytes) : bytes :=
  Header_layout (data_header sid seq (length ct)) ++ ct.

(** The selected links that have a socket, in the order of the selection. *)
Definition links_with_socket (get_sock : LinkId → option (Datagram → result () IoError))
    (sel : LinkSelection) : list Link :=
  filter (fun l => is_Some (get_sock (link_id l))) (LinkSelection_links sel).

(** One packet through the bonded stage: sealed once under the next sequence
    number, the same frame on every selected link that has a socket. *)
Lemma bonded_step {S} `{StrategyLaws S} (engine : Engine S) (a : Session Established) (p scratch : bytes)
    (get_sock : LinkId → option (Datagram → result () IoError)) (m1 : PipelineMetrics) :
  packet_fits p scratch → 0 <= send_counter (s_state a) <= umax 32 →
  (∀ id send d, get_sock id = Some send → send d = Ok ()) →
  ∃ engine' sel m' scratch' ds ct,
    Engine_schedule engine (PacketMeta_outbound 0 0) = Some (engine', sel) ∧
    forward_tun_to_udp_bonded (Ok p) engine get_sock a scratch m1
      = Some (engine', mkSession (s_id a) (set_counter (send_counter (s_state a) + 1) (s_state a)), m', scratch', ds,
              Ok (length ds * (HEADER_LEN + length p + TAG_LEN))%nat) ∧
    e_links engine' = e_links engine ∧ length scratch' = length scratch ∧ length ct = (length p + TAG_LEN)%nat ∧
    (∀ b, linked a b → genuine b (send_counter (s_state a)) ct p) ∧
    ds = (fun l => (link_peer l, data_frame (s_id a) (send_counter (s_state a)) ct))
           <$> links_with_socket get_sock sel ∧
    Forall (fun l => l ∈ LinkTable_healthy (e_links engine)) (LinkSelection_links sel) ∧
    (LinkTable_healthy (e_links engine) = [] ↔ LinkSelection_links sel = []).
Proof.
  intros Hfit Hc Hsock. destruct (read_and_seal_ok p scratch a Hfit Hc) as (ct & Hrs & Hct & Hg).
  destruct Hfit as (_ & Hlen & Hscr).
  destruct (write_frame_ok (s_id a) (send_counter (s_state a)) ct (copy_from_slice scratch HEADER_LEN p))
    as (scratch' & Hwf & Hframe & Hsl'); [rewrite length_inserts, Hct; lia|].
  fold (data_frame (s_id a) (send_counter (s_state a)) ct) in Hframe.
  set (frame := data_frame (s_id a) (send_counter (s_state a)) ct) in *.
  assert (Hfl : length frame = (HEADER_LEN + length p + TAG_LEN)%nat).
  { unfold frame, data_frame. rewrite length_app, length_Header_layout, Hct. lia. }
  destruct (schedule_laws (e_strategy engine) (PacketMeta_outbound 0 0) (e_links engine))
    as (s' & sel & Hsched & Hf & Hnone).
  unfold forward_tun_to_udp_bonded. rewrite Hrs. unfold Engine_schedule. rewrite Hsched.
  cbn [mbind option_bind s_id]. rewrite Hwf, Hframe. rewrite length_inserts in Hsl'.
  destruct (send_loop_ok get_sock frame (LinkSelection_links sel) m1 0 Hsock)
    as (m' & ds & Hsl & Hds). rewrite Hfl in Hsl. cbn [Nat.add] in Hsl.
  destruct sel as [l|ls|]; try (rewrite Hsl; by eexists _, _, m', scratch', ds, ct).
  cbn in Hsl. injection Hsl as <- <-. eexists _, SelNone, m1, _, [], ct. rewrite length_inserts. by split_and!.
Qed.

(** With a socket on every healthy link and a healthy link, something is sent. *)
Lemma links_with_socket_nonempty t (get_sock : LinkId → option (Datagram → result () IoError)) sel :
  Forall (fun l => l ∈ LinkTable_healthy t) (LinkSelection_links sel) →
  (LinkTable_healthy t = [] ↔ LinkSelection_links sel = []) →
  LinkTable_healthy t ≠ [] → (∀ l, l ∈ LinkTable_healthy t → is_Some (get_sock (link_id l))) →
  links_with_socket get_sock sel = LinkSelection_links sel ∧ LinkSelection_links sel ≠ [].
Proof.
  intros Hf Hnone Hh Hall. split; [|by rewrite <-Hnone]. unfold links_with_socket. clear Hnone.
  induction Hf as [|l ls Hl _ IH]; [done|]. rewrite filter_cons_True by by apply Hall. by rewrite IH.
Qed.

(** C5: The encrypted tunnel round trip: a packet read from the TUN is sealed
    and framed by the outbound stage into one datagram of header, ciphertext
    and tag, and the inbound stage of the linked peer, on that datagram, writes
    exactly that packet to its TUN, as long as the peer's replay window takes
    the sequence number and the buffers are large enough; the send counter
    moves by one and the metrics count one packet out and one in. *)
Theorem encrypted_roundtrip (a b : Session Established) (p scratch : bytes) (peer : SocketAddr)
    (send : Datagram → result () IoError) (tun_send : bytes → result () IoError)
    (m1 m2 : PipelineMetrics) (n : nat) :
  linked a b → in_width 16 (s_id a) → packet_fits p scratch →
  0 <= send_counter (s_state a) <= umax 32 →
  would_accept (recv_window (s_state b)) (send_counter (s_state a)) = true →
  (HEADER_LEN + length p + TAG_LEN <= n)%nat →
  (∀ d, send d = Ok ()) → tun_send p = Ok () →
  let total := (HEADER_LEN + length p + TAG_LEN)%nat in
  ∃ a' scratch' frame,
    forward_tun_to_udp_encrypted (Ok p) send peer a scratch m1
      = (a', record_sent m1 total, scratch', [(peer, frame)], Ok total) ∧
    length frame = total ∧
    send_counter (s_state a') = send_counter (s_state a) + 1 ∧
    ∃ b', forward_udp_to_tun_encrypted (Ok frame) tun_send b n m2
      = (b', record_received m2 total, Some p, Ok (length p)).
Proof.
  intros Hl Hid Hfit Hc Hacc Hn Hsend Htun total.
  destruct (read_and_seal_ok p scratch a Hfit Hc) as (ct & Hrs & Hct & Hg).
  destruct Hfit as (_ & Hlen & Hscr).
  destruct (write_frame_ok (s_id a) (send_counter (s_state a)) ct (copy_from_slice scratch HEADER_LEN p))
    as (scratch' & Hwf & Hframe & _); [rewrite length_inserts, Hct; lia|].
  assert (Htot : total = (HEADER_LEN + length ct)%nat) by (rewrite Hct; unfold total; lia).
  eexists _, scratch', _. split.
  { unfold forward_tun_to_udp_encrypted. rewrite Hrs. cbn [s_id]. rewrite Hwf, Hframe, Hsend.
    by rewrite Htot. }
  split; [by rewrite length_app, length_Header_layout, Htot|]. split; [done|].
  destruct Hl as [Hids Hk]. rewrite Hids.
  destruct (decrypt_accepted b (send_counter (s_state a)) ct p Hacc (Hg b (conj Hids Hk)))
    as (b' & Hd & _).
  exists b'. rewrite inbound_frame; [|by rewrite <-Hids|pow2; lia|rewrite Hct; lia|lia].
  cbn zeta. by rewrite Hd, Htun, Htot.
Qed.

(** C27: Bonded sending: the packet is sealed exactly once, under the next
    sequence number, whatever the strategy; what leaves is that one frame once
    per link the strategy selects and that has a socket, in the order of the
    selection and to that link's peer, and the result is the total number of
    bytes sent.  The selection has only healthy links and is empty only when no
    link is healthy, so with a healthy link and a socket on every healthy one
    the frame goes out on every selected link and at least once; then, however
    many copies arrive, the linked peer writes the packet to its TUN exactly
    once and counts the others as replays. *)
Theorem bonded_sends_once {S} `{StrategyLaws S} (engine : Engine S) (a b : Session Established)
    (p scratch : bytes) (get_sock : LinkId → option (Datagram → result () IoError))
    (tun_send : bytes → result () IoError) (m1 m2 : PipelineMetrics) (n : nat) :
  linked a b → in_width 16 (s_id a) → packet_fits p scratch →
  0 <= send_counter (s_state a) <= umax 32 →
  would_accept (recv_window (s_state b)) (send_counter (s_state a)) = true →
  (HEADER_LEN + length p + TAG_LEN <= n)%nat →
  (∀ id send d, get_sock id = Some send → send d = Ok ()) → tun_send p = Ok () →
  in_width 64 (replay_drops m2) →
  ∃ engine' sel a' m' scratch' frame,
    Engine_schedule engine (PacketMeta_outbound 0 0) = Some (engine', sel) ∧
    Forall (fun l => l ∈ LinkTable_healthy (e_links engine)) (LinkSelection_links sel) ∧
    (LinkTable_healthy (e_links engine) = [] ↔ LinkSelection_links sel = []) ∧
    let targets := links_with_socket get_sock sel in
    let ds := (fun l => (link_peer l, frame)) <$> targets in
    forward_tun_to_udp_bonded (Ok p) engine get_sock a scratch m1
      = Some (engine', a', m', scratch', ds,
              Ok (length targets * (HEADER_LEN + length p + TAG_LEN))%nat) ∧
    send_counter (s_state a') = send_counter (s_state a) + 1 ∧
    (LinkTable_healthy (e_links engine) ≠ [] →
     (∀ l, l ∈ LinkTable_healthy (e_links engine) → is_Some (get_sock (link_id l))) →
     targets = LinkSelection_links sel ∧ targets ≠ []) ∧
    (targets ≠ [] → ∃ b' m, inbound_all tun_send n b m2 ds.*2 = (b', m, [p]) ∧
       replay_drops m = wrap 64 (replay_drops m2 + Z.of_nat (length targets - 1))).
Proof.
  intros Hl Hid Hfit Hc Hacc Hn Hsock Htun Hm2. pose proof Hfit as (_ & Hlen & Hscr).
  destruct (bonded_step engine a p scratch get_sock m1 Hfit Hc Hsock)
    as (engine' & sel & m' & scratch' & ds & ct & Hs & Hf & _ & _ & Hct & Hg & Hds & Hsel & Hnone).
  eexists engine', sel, _, m', scratch', _. split; [exact Hs|]. split; [exact Hsel|]. split; [exact Hnone|].
  cbn zeta. rewrite <-Hds. split; [rewrite Hf, Hds, length_fmap; done|]. split; [done|]. split.
  { intros Hh Hall. destruct (links_with_socket_nonempty _ get_sock sel Hsel Hnone Hh Hall) as [-> ?]. done. }
  intros Hne. replace ds.*2 with (replicate (length (links_with_socket get_sock sel))
    (data_frame (s_id a) (send_counter (s_state a)) ct)).
  2: { by rewrite Hds, <-list_fmap_compose,
         const_fmap with (y := data_frame (s_id a) (send_counter (s_state a)) ct). }
  destruct (links_with_socket get_sock sel) as [|l ls]; [done|].
  cbn [length]. replace (Datatypes.S (length ls) - 1)%nat with (length ls) by lia.
  unfold data_frame. rewrite (proj1 Hl).
  apply inbound_copies; try done; [by rewrite <-(proj1 Hl)|pow2; lia|rewrite Hct; lia|lia|by apply Hg].
Qed.

(** Inbound accounting: every datagram of at least one header moves exactly
    one of the outcomes: it is delivered (and then it is a Data frame that
    authenticates under a fresh sequence number), or it is not a Data frame,
    or one of the three drop counters moves by one; only a Data frame whose
    declared length fits reaches the session, so the session is untouched by
    every malformed or non-Data datagram. *)
Theorem inbound_accounting (b : Session Established) (data : bytes) (n : nat) (m : PipelineMetrics)
    (tun_send : bytes → result () IoError) :
  (HEADER_LEN <= n)%nat → (length data <= n)%nat → (∀ p, tun_send p = Ok ()) →
  let '(b', m', out, r) := forward_udp_to_tun_encrypted (Ok data) tun_send b n m in
  let m0 := record_received m (length data) in
  match out with
  | Some p => r = Ok (length p) ∧ m' = m0 ∧ ∃ h, Header_decode data = Ok h ∧ packet_type h = Data ∧
      would_accept (recv_window (s_state b)) (sequence h) = true ∧
      genuine b (sequence h) (slice HEADER_LEN (HEADER_LEN + Z.to_nat (payload_len h)) data) p
  | None =>
      (m' = record_bad_header m0 ∧ b' = b ∧ r = Err InvalidData) ∨
      (m' = m0 ∧ b' = b ∧ r = Ok 0%nat) ∨
      (m' = record_replay_drop m0 ∧ b' = b ∧ r = Ok 0%nat) ∨
      (m' = record_decrypt_failure m0 ∧ r = Ok 0%nat)
  end.
Proof.
  intros Hn Hdata Htun. unfold forward_udp_to_tun_encrypted, read_into.
  rewrite (proj2 (Nat.ltb_ge _ _)) by done. rewrite take_ge by done.
  destruct (Nat.ltb_spec (length data) HEADER_LEN); [by left|].
  destruct (Header_decode (take HEADER_LEN data)) as [h|e] eqn:Eh; [|by left].
  destruct (bool_decide (packet_type h = Data)) eqn:Et; cbn [negb]; [|by right; left].
  apply bool_decide_eq_true in Et.
  destruct (Nat.ltb_spec (length data - HEADER_LEN) (Z.to_nat (payload_len h))); [by left|].
  unfold decrypt_data, open_checked.
  destruct (check_and_update (recv_window (s_state b)) (sequence h)) as [w [u|re]] eqn:Ew.
  - destruct (open_in_place _ _ _ _) as [p|ce] eqn:Eo; cbn [result_map_err].
    + rewrite Htun. split_and!; [done|done|]. exists h. split_and!; [|done| |done].
      * by rewrite <-Eh, Header_decode_take.
      * destruct (would_accept (recv_window (s_state b)) (sequence h)) eqn:Ewa; [done|].
        pose proof (rejected_unchanged _ _ Ewa) as [? Hrej]. rewrite Ew in Hrej. done.
    + by right; right; right.
  - right; right; left. split_and!; [done| |done].
    assert (w = recv_window (s_state b)) as -> by by eapply err_unchanged.
    by destruct b as [? []].
Qed.

End PipelineProps.

(** ** Witnesses *)

Definition demo_peer : SocketAddr := mkSocketAddr (V4 [192; 0; 2; 1]) 51820.

Example encrypted_roundtrip_witness :
  ∃ a' scratch' frame,
    forward_tun_to_udp_encrypted (Ok [69; 0; 1]) (fun _ => Ok ()) demo_peer (demo_session 1 2 0)
      (replicate 64 0) PipelineMetrics_new
      = (a', record_sent PipelineMetrics_new 35, scratch', [(demo_peer, frame)], Ok 35%nat) ∧
    ∃ b', forward_udp_to_tun_encrypted (Ok frame) (fun _ => Ok ()) (demo_session 2 1 0) 64
        PipelineMetrics_new
      = (b', record_received PipelineMetrics_new 35, Some [69; 0; 1], Ok 3%nat).
Proof.
  destruct (encrypted_roundtrip (demo_session 1 2 0) (demo_session 2 1 0) [69; 0; 1] (replicate 64 0)
    demo_peer (fun _ => Ok ()) (fun _ => Ok ()) PipelineMetrics_new PipelineMetrics_new 64)
    as (a' & scratch' & frame & H1 & _ & _ & H2).
  - split; reflexivity.
  - vm_compute. split; congruence.
  - split; [discriminate|]. split; [vm_compute; congruence|]. vm_compute. lia.
  - vm_compute. split; congruence.
  - reflexivity.
  - vm_compute. lia.
  - reflexivity.
  - reflexivity.
  - exists a', scratch', frame. split; [exact H1|exact H2].
Defined.

Example bonded_sends_once_witness :
  ∃ engine' a' m' scratch' frame b' m,
    forward_tun_to_udp_bonded (Ok [69; 0; 1])
      (Engine_new mkRedundant [witness_link 1 10; witness_link 2 10])
      (fun _ => Some (fun _ => Ok ())) (demo_session 1 2 0) (replicate 64 0) PipelineMetrics_new
      = Some (engine', a', m', scratch', [(link_peer (witness_link 1 10), frame); (link_peer (witness_link 2 10), frame)], Ok 70%nat) ∧
    inbound_all (fun _ => Ok ()) 64 (demo_session 2 1 0) PipelineMetrics_new [frame; frame]
      = (b', m, [[69; 0; 1]]) ∧ replay_drops m = 1.
Proof.
  destruct (bonded_sends_once (Engine_new mkRedundant [witness_link 1 10; witness_link 2 10])
    (demo_session 1 2 0) (demo_session 2 1 0) [69; 0; 1] (replicate 64 0)
    (fun _ => Some (fun _ => Ok ())) (fun _ => Ok ()) PipelineMetrics_new PipelineMetrics_new 64)
    as (engine' & sel & a' & m' & scratch' & frame & Hs & _ & _ & H1 & _ & _ & H2).
  - split; reflexivity.
  - vm_compute. split; congruence.
  - split; [discriminate|]. split; [vm_compute; congruence|]. vm_compute. lia.
  - vm_compute. split; congruence.
  - reflexivity.
  - vm_compute. lia.
  - intros id send d [= <-]. reflexivity.
  - reflexivity.
  - vm_compute. split; congruence.
  - vm_compute in Hs. injection Hs as _ Hsel. subst sel.
    destruct H2 as (b' & m & H2 & H3); [intros Hn; vm_compute in Hn; discriminate|].
    exists engine', a', m', scratch', frame, b', m. split; [exact H1|]. split; [exact H2|exact H3].
Defined.

Example inbound_accounting_witness :
  let '(b', m', out, r) := forward_udp_to_tun_encrypted (Ok [1; 2; 3]) (fun _ => Ok ())
      (demo_session 2 1 0) 64 PipelineMetrics_new in
  out = None.
Proof.
  pose proof (inbound_accounting (demo_session 2 1 0) [1; 2; 3] 64 PipelineMetrics_new (fun _ => Ok ())
    ltac:(vm_compute; lia) ltac:(simpl; lia) ltac:(reflexivity)) as H.
  destruct (forward_udp_to_tun_encrypted _ _ _ _ _) as [[[b' m'] out] r].
  destruct out as [p|]; [|reflexivity].
  destruct H as (_ & _ & h & Hd & _). vm_compute in Hd. discriminate.
Defined.
