(* ===== verification/ServerLoop.v ===== *)
(** * The daemon's handshake and server loop

    Models the packet logic of [desmos-core/src/daemon/server_loop.rs]
    ([handle_incoming]) and [daemon/handshake.rs] ([client_handshake] and the
    key parsing).  The server's state is the registry, the rate limiter, the
    address map and the metrics; a call returns the new state with what was
    sent on UDP and written to the TUN, whose send results the code ignores. *)

From stdpp Require Import base gmap numbers strings list.
From Stdlib Require Import ZArith Lia.
From S2P Require Import Prelude Str Wire AntiReplay Crypto Noise Session RateLimit Clients Strategy Engine Pipeline.

(** ** [handshake.rs]: key parsing *)

Definition hex_byte (c : Z) : result Z IoError :=
  if (48 <=? c) && (c <=? 57) then Ok (c - 48)
  else if (97 <=? c) && (c <=? 102) then Ok (c - 97 + 10)
  else if (65 <=? c) && (c <=? 70) then Ok (c - 65 + 10)
  else Err InvalidData.

(** [chunks(2)] over the text; an odd last chunk is an error. *)
Fixpoint decode_hex (hex : bytes) : result bytes IoError :=
  match hex with
  | [] => Ok []
  | [_] => Err InvalidData
  | a :: b :: rest =>
      let? hi := hex_byte a in
      let? lo := hex_byte b in
      let? tl := decode_hex rest in
      Ok (Z.lor (wrap 8 (Z.shiftl hi 4)) lo :: tl)
  end.

(** The callers pass 64 bytes, so all 32 places are written. *)
Definition decode_hex_32 (hex : str) : result bytes IoError := decode_hex (as_bytes hex).

Definition parse_public_key_hex (s : str) : result PublicKey IoError :=
  let hex_str := trim s in
  if negb (str_len hex_str =? 64)%nat then Err InvalidData
  else let? b := decode_hex_32 hex_str in Ok (mkPublicKey b).

(** [file] is what [fs::read] returns. *)
Definition load_private_key (file : result bytes IoError) : result X25519PrivateKey IoError :=
  let? data := file in
  if (length data =? 32)%nat then Ok (mkPrivateKey data)
  else
    match from_utf8 data with
    | None => Err InvalidData
    | Some s =>
        let hex_str := trim s in
        if negb (str_len hex_str =? 64)%nat then Err InvalidData
        else let? bs := decode_hex_32 hex_str in Ok (mkPrivateKey bs)
    end.

(** ** [handshake.rs]: the client *)

Section Client.
  Context {RC : RingCrypto} {XO : X25519Ops}.

(** The receive loop over what the socket yields: the first datagram from the
    server decides; the deadline passes when there is none. *)
Fixpoint client_wait (server : SocketAddr) (ini : Session Handshaking) (now_ms : Z)
    (inbox : list Datagram) : result (Session Established) IoError :=
  match inbox with
  | [] => Err TimedOut
  | (from, data) :: inbox' =>
      if negb (bool_decide (from = server)) then client_wait server ini now_ms inbox'
      else
        match advance ini (Some data) now_ms None with
        | Err _ => Err OtherError
        | Ok (HEstablished _ session) => Ok session
        | Ok (NeedsMore _ _) => Err OtherError
        end
  end.

(** The datagram sent and the continuation that waits for the answer. *)
Definition client_handshake (server : SocketAddr) (private_key : X25519PrivateKey)
    (server_pub : PublicKey) (sid : SessionId) (prologue : bytes) (now_ms : Z) (rng : option bytes)
  : result (Datagram * (list Datagram → result (Session Established) IoError)) IoError :=
  let ini := new_initiator sid private_key server_pub prologue in
  match advance ini None now_ms rng with
  | Err _ => Err OtherError
  | Ok (HEstablished _ _) => Err OtherError
  | Ok (NeedsMore msg1 ini) => Ok ((server, msg1), client_wait server ini now_ms)
  end.

End Client.

(** The session id every client is given in [client.rs]. *)
Definition CLIENT_SESSION_ID : SessionId := 1.

(** ** [server_loop.rs] *)

Record Server := mkServer {
  srv_registry : ClientRegistry;
  srv_limiter : RateLimiter;
  srv_addr_map : gmap SocketAddr SessionId;
  srv_metrics : PipelineMetrics;
}.

Record ServerOut := mkServerOut { out_udp : list Datagram; out_tun : list bytes }.

Definition no_out : ServerOut := mkServerOut [] [].

Section Serve.
  Context {RC : RingCrypto} {XO : X25519Ops}.

(** The [Handshake] branch. *)
Definition handle_handshake (srv : Server) (data : bytes) (from : SocketAddr) (now_ms : Z)
    (rng : option bytes) : Server * ServerOut :=
  let '(limiter, admitted) := try_admit (srv_limiter srv) (sa_ip from) now_ms in
  let srv := mkServer (srv_registry srv) limiter (srv_addr_map srv) (srv_metrics srv) in
  if negb admitted then (srv, no_out)
  else
    match accept_client_msg1 (srv_registry srv) (drop HEADER_LEN data) now_ms rng with
    | (registry, Ok (sid, msg2)) =>
        (mkServer registry (srv_limiter srv) (<[from := sid]> (srv_addr_map srv)) (srv_metrics srv),
         mkServerOut [(from, msg2)] [])
    | (registry, Err _) =>
        (mkServer registry (srv_limiter srv) (srv_addr_map srv) (srv_metrics srv), no_out)
    end.

(** Every other packet type: the datagram of a known address is opened with
    its session, in the slot. *)
Definition handle_data (srv : Server) (header : Header) (data : bytes) (from : SocketAddr)
  : Server * ServerOut :=
  match srv_addr_map srv !! from with
  | None => (srv, no_out)
  | Some sid =>
      let table := cr_table (srv_registry srv) in
      match SessionTable_get table sid with
      | None => (srv, no_out)
      | Some slot =>
          match heap table !! slot with
          | Some (AnyEstablished session) =>
              let '(session, r) := decrypt_data session (sequence header) (drop HEADER_LEN data) in
              let registry := set_table (slot_write table slot (AnyEstablished session)) (srv_registry srv) in
              match r with
              | Ok plaintext =>
                  (mkServer registry (srv_limiter srv) (srv_addr_map srv) (srv_metrics srv),
                   mkServerOut [] [plaintext])
              | Err _ =>
                  (mkServer registry (srv_limiter srv) (srv_addr_map srv)
                     (record_decrypt_failure (srv_metrics srv)), no_out)
              end
          | _ => (srv, no_out)
          end
      end
  end.

Definition handle_incoming (srv : Server) (data : bytes) (from : SocketAddr) (now_ms : Z)
    (rng : option bytes) : Server * ServerOut :=
  let metrics := record_received (srv_metrics srv) (length data) in
  let with_metrics m := mkServer (srv_registry srv) (srv_limiter srv) (srv_addr_map srv) m in
  if (length data <? HEADER_LEN)%nat then (with_metrics (record_bad_header metrics), no_out)
  else
    match Header_decode (take HEADER_LEN data) with
    | Err _ => (with_metrics (record_bad_header metrics), no_out)
    | Ok header =>
        if bool_decide (packet_type header = Handshake)
        then handle_handshake (with_metrics metrics) data from now_ms rng
        else handle_data (with_metrics metrics) header data from
    end.

End Serve.

(** ** Lemmas *)

Section ServerLemmas.
  Context {RC : RingCrypto} {XO : X25519Ops}.

(** A message 1 of the wrong length installs nothing. *)
Lemma accept_wrong_length r msg1 now rng :
  registry_inv r → length msg1 ≠ MSG_1_LEN →
  ∃ r' e, accept_client_msg1 r msg1 now rng = (r', Err e) ∧ cr_table r' = cr_table r.
Proof.
  intros Hinv Hlen. unfold accept_client_msg1.
  destruct (cr_max_clients r <=? active_clients r); [by eauto|].
  destruct (allocate_id r) as [r1 [id|e]] eqn:Ea;
    destruct (allocate_id_inv r r1 _ Hinv Ea) as (_ & Ht & _); [|by eauto].
  unfold advance, new_responder. cbn [hs_inner s_state s_id]. unfold read_message_1.
  rewrite (proj2 (Nat.eqb_neq _ _) Hlen). cbn [negb st_throw result_map_err result_bind]. by eauto.
Qed.

Lemma handle_handshake_short srv data from now rng :
  registry_inv (srv_registry srv) → length (drop HEADER_LEN data) ≠ MSG_1_LEN →
  out_udp (handle_handshake srv data from now rng).2 = [] ∧
  cr_table (srv_registry (handle_handshake srv data from now rng).1) = cr_table (srv_registry srv) ∧
  srv_addr_map (handle_handshake srv data from now rng).1 = srv_addr_map srv.
Proof.
  intros Hinv Hlen. unfold handle_handshake.
  destruct (try_admit _ _ _) as [limiter [|]]; cbn [negb srv_registry]; [|done].
  destruct (accept_wrong_length (srv_registry srv) _ now rng Hinv Hlen) as (r' & e & -> & Ht). done.
Qed.

Lemma handle_data_slots srv header data from :
  out_udp (handle_data srv header data from).2 = [] ∧
  slots (cr_table (srv_registry (handle_data srv header data from).1))
    = slots (cr_table (srv_registry srv)) ∧
  srv_addr_map (handle_data srv header data from).1 = srv_addr_map srv.
Proof.
  unfold handle_data. destruct (srv_addr_map srv !! from) as [sid|]; [|done].
  destruct (SessionTable_get _ sid) as [slot|]; [|done].
  destruct (heap _ !! slot) as [[s|s|s|s]|]; try done.
  destruct (decrypt_data s _ _) as [s' [p|e]]; done.
Qed.

(** The message an initiator sends is exactly [MSG_1_LEN] bytes. *)
Lemma initiator_msg1_length {RL : RingLaws} id k rs prologue now seed msg1 ini :
  key_ok k → key_ok (mkPrivateKey seed) →
  advance (new_initiator id k rs prologue) None now (Some seed) = Ok (NeedsMore msg1 ini) →
  length msg1 = MSG_1_LEN.
Proof.
  intros Hk Hke. unfold advance, new_initiator. cbn [hs_inner s_state s_id].
  set (i0 := Initiator_new k rs prologue). set (e := mkPrivateKey seed).
  set (st0 := mix_hash (pk_bytes (public_key e)) (i_symm i0)).
  destruct (mix_key_ok (diffie_hellman e rs) st0) as (st1 & H1 & Hk1 & Hn1 & _).
  destruct (encrypt_decrypt st1 (pk_bytes (public_key k)) Hk1 Hn1)
    as (st2 & enc_s & H2 & Hl2 & _); [unfold short; rewrite Hk; vm_compute; lia|].
  destruct (mix_key_ok (diffie_hellman k rs) st2) as (st3 & H3 & Hk3 & Hn3 & _).
  destruct (encrypt_decrypt st3 [] Hk3 Hn3) as (st4 & enc_p & H4 & Hl4 & _); [unfold short; simpl; lia|].
  unfold write_message_1. rewrite (st_bind_ok _ _ _ i0 i0) by done. cbn [i_e i0 Initiator_new].
  erewrite st_bind_ok by done. cbn zeta. fold e.
  ini_step (eq_refl (st0, @Ok () CryptoError ())). cbn [i_s i_rs] in *.
  ini_step H1. ini_step H2. ini_step H3. ini_step H4.
  erewrite st_bind_ok by done. cbn [st_ret result_map_err result_bind]. intros [= <- _].
  rewrite !length_app, Hl2, Hl4, Hk, Hke. done.
Qed.

(** A message 2 that is written is exactly [MSG_2_LEN] bytes. *)
Lemma write_message_2_length {RL : RingLaws} res seed msg keys :
  key_ok (mkPrivateKey seed) → write_message_2 res (Some seed) = Ok (msg, keys) →
  length msg = MSG_2_LEN.
Proof.
  intros Hke. unfold write_message_2. set (e := mkPrivateKey seed).
  destruct (r_re res) as [re|]; [|done]. destruct (r_rs res) as [rs|]; [|done].
  set (st0 := mix_hash (pk_bytes (public_key e)) (r_symm res)).
  destruct (mix_key_ok (diffie_hellman e re) st0) as (st1 & H1 & Hk1 & Hn1 & _).
  destruct (mix_key_ok (diffie_hellman e rs) st1) as (st2 & H2 & Hk2 & Hn2 & _).
  destruct (encrypt_decrypt st2 [] Hk2 Hn2) as (st3 & enc_p & H3 & Hl3 & _); [unfold short; simpl; lia|].
  destruct (split_ok st3) as (k1 & k2 & Hs & _).
  erewrite st_bind_ok by done. cbn zeta. fold e.
  res_step (eq_refl (st0, @Ok () CryptoError ())). res_step H1. res_step H2. res_step H3.
  erewrite st_bind_ok by done. cbn [r_symm]. rewrite Hs. erewrite st_bind_ok by done.
  intros [= <- _]. rewrite length_app, Hl3, Hke. done.
Qed.

(** A successful admission comes from a 96-byte message 1 and answers with a
    48-byte message 2. *)
Lemma accept_lengths {RL : RingLaws} r msg1 now seed r' id msg2 :
  key_ok (mkPrivateKey seed) →
  accept_client_msg1 r msg1 now (Some seed) = (r', Ok (id, msg2)) →
  length msg1 = MSG_1_LEN ∧ length msg2 = MSG_2_LEN.
Proof.
  intros Hke. unfold accept_client_msg1. destruct (_ <=? _); [done|].
  destruct (allocate_id r) as [r1 [i|e]]; [|done].
  unfold advance, new_responder. cbn [hs_inner s_state s_id].
  destruct (decide (length msg1 = MSG_1_LEN)) as [Hl|Hl].
  2:{ unfold read_message_1. rewrite (proj2 (Nat.eqb_neq _ _) Hl). done. }
  destruct (read_message_1 msg1 _) as [res [u|e]]; [|done]. cbn [result_map_err result_bind].
  destruct (write_message_2 res (Some seed)) as [[m k]|e] eqn:Ew; [|done].
  cbn [result_map_err result_bind fst snd].
  destruct (established_from_keys i k now) as [s|e]; [|done]. cbn [result_bind].
  intros [= _ _ <-]. split; [done|]. by eapply write_message_2_length.
Qed.

(** What a client that has sent its message 1 holds. *)
Lemma client_handshake_inv server si server_pub sid prologue t0 rng d wait :
  client_handshake server si server_pub sid prologue t0 rng = Ok (d, wait) →
  ∃ msg1 ini, advance (new_initiator sid si server_pub prologue) None t0 rng = Ok (NeedsMore msg1 ini) ∧
    d = (server, msg1) ∧ wait = client_wait server ini t0.
Proof.
  unfold client_handshake. cbn zeta.
  destruct (advance (new_initiator sid si server_pub prologue) None t0 rng) as [[m ini|o se]|e]; try done.
  intros [= <- <-]. by exists m, ini.
Qed.

Lemma allocate_id_here r :
  cr_next_id r ≠ 0 → slots (cr_table r) !! cr_next_id r = None →
  allocate_id r = (set_next_id (wrapping_add 16 (cr_next_id r) 1) r, Ok (cr_next_id r)).
Proof.
  intros Hne Hfree. unfold allocate_id.
  destruct (Z.to_nat (umax 16 + 1)) as [|k] eqn:Ek; [pose proof u16_size as Hs; rewrite Ek in Hs; simpl in Hs; lia|].
  cbn [allocate_loop]. rewrite (proj2 (Z.eqb_neq _ _)) by done.
  unfold SessionTable_contains. cbn [set_next_id cr_table].
  rewrite bool_decide_false; [done|]. rewrite Hfree. by intros [].
Qed.

End ServerLemmas.

(** ** Properties *)

(** The header a handshake datagram has to carry. *)
Definition handshake_header (len : Z) : Header :=
  {| version := WIRE_VERSION; packet_type := Handshake; flags := 0; session_id := 0; sequence := 0;
     timestamp_us := 0; payload_len := len; interface_id := 0 |}.

Section ServerProps.
  Context {RC : RingCrypto} {RL : RingLaws} {XO : X25519Ops}.

(** The client's own first datagram never gets through: [client_handshake]
    sends message 1 bare, while [handle_incoming] expects it behind a 16-byte
    header; whatever the server's state, that datagram installs no session,
    binds no address and gets no answer, so the handshake of an unmodified
    client times out. *)
Theorem bare_message_1_ignored (srv : Server) (server_addr from : SocketAddr) (si : X25519PrivateKey)
    (server_pub : PublicKey) (sid : SessionId) (prologue seed_i msg1 : bytes)
    (wait : list Datagram → result (Session Established) IoError) (t0 t1 : Z) (rng : option bytes) :
  registry_inv (srv_registry srv) → key_ok si → key_ok (mkPrivateKey seed_i) →
  client_handshake server_addr si server_pub sid prologue t0 (Some seed_i)
    = Ok ((server_addr, msg1), wait) →
  let '(srv', out) := handle_incoming srv msg1 from t1 rng in
  out_udp out = [] ∧ srv_addr_map srv' = srv_addr_map srv ∧
  slots (cr_table (srv_registry srv')) = slots (cr_table (srv_registry srv)) ∧
  wait [] = Err TimedOut.
Proof.
  intros Hinv Hk Hke Hc.
  apply client_handshake_inv in Hc as (m & ini & Ea & [= <-] & ->). pose proof (initiator_msg1_length _ _ _ _ _ _ _ _ Hk Hke Ea) as Hlen.
  unfold handle_incoming. destruct (Nat.ltb_spec (length msg1) HEADER_LEN); [done|].
  destruct (Header_decode (take HEADER_LEN msg1)) as [h|e]; [|done].
  cbn zeta beta. set (srv0 := mkServer _ _ _ _).
  assert (Hinv0 : registry_inv (srv_registry srv0)) by exact Hinv.
  assert (Hslots : slots (cr_table (srv_registry srv0)) = slots (cr_table (srv_registry srv))) by done.
  assert (Hmap : srv_addr_map srv0 = srv_addr_map srv) by done. clearbody srv0.
  rewrite <-Hslots, <-Hmap. case_bool_decide.
  - destruct (handle_handshake_short srv0 msg1 from t1 rng Hinv0) as (H1 & H2 & H3).
    { rewrite length_drop, Hlen. vm_compute. lia. }
    destruct (handle_handshake srv0 msg1 from t1 rng) as [srv' out]. cbn [fst snd] in *.
    rewrite H2. done.
  - destruct (handle_data_slots srv0 h msg1 from) as (H1 & H2 & H3).
    destruct (handle_data srv0 h msg1 from) as [srv' out]. done.
Qed.

(** C23: What a handshake comes to, for a client that uses any session id [sid] and a
    server that has room under its cap and a free id ([allocate_id] returns [id]), from a
    source the rate limiter admits.  Message 1 is what [client_handshake] produces.
    Behind a DWP header of type [Handshake], which no client code puts there, it makes the
    server answer with message 2, install a session under [id] and bind the source address
    to it, and the waiting client ends up established under [sid] whatever arrives from
    other addresses first; the two sessions have matching keys, the same transcript hash
    and fresh counters and windows, and they are a pair that can exchange packets exactly
    when [sid] is [id] (the shipped client always uses 1, so only a client that is given
    id 1).  Sent bare, as [client_handshake] sends it, the same message installs nothing,
    binds nothing and gets no answer. *)
Theorem framed_handshake_establishes (srv : Server) (from server_addr : SocketAddr)
    (si : X25519PrivateKey) (seed_i seed_r : bytes) (noise_before : list Datagram) (len t0 t1 : Z)
    (sid id : SessionId) (r1 : ClientRegistry) :
  let r := srv_registry srv in
  registry_inv r → active_clients r < cr_max_clients r → allocate_id r = (r1, Ok id) →
  (try_admit (srv_limiter srv) (sa_ip from) t1).2 = true →
  honest_keys si (cr_static_key r) (cr_known_clients r) seed_i seed_r →
  in_width 16 len → Forall (fun d => d.1 ≠ server_addr) noise_before →
  ∃ msg1 wait msg2 srv' a b,
    client_handshake server_addr si (public_key (cr_static_key r)) sid (cr_prologue r) t0
      (Some seed_i) = Ok ((server_addr, msg1), wait) ∧
    handle_incoming srv (Header_layout (handshake_header len) ++ msg1) from t1 (Some seed_r)
      = (srv', mkServerOut [(from, msg2)] []) ∧
    wait (noise_before ++ [(server_addr, msg2)]) = Ok a ∧
    table_lookup (cr_table (srv_registry srv')) id = Some (AnyEstablished b) ∧
    srv_addr_map srv' !! from = Some id ∧
    s_id a = sid ∧ s_id b = id ∧ fresh_keys a b ∧ (fresh_pair a b ↔ sid = id) ∧
    (∀ rng, let '(srv0, out) := handle_incoming srv msg1 from t1 rng in
       out_udp out = [] ∧ srv_addr_map srv0 = srv_addr_map srv ∧
       slots (cr_table (srv_registry srv0)) = slots (cr_table r)).
Proof.
  intros r Hinv Hroom Hal Hadm Hk Hlen Hnoise.
  destruct (advance_handshake_ids sid id si (cr_static_key r) (cr_known_clients r) (cr_prologue r)
    seed_i seed_r t0 t1 t0 None Hk) as (msg1 & msg2 & ini & a & b & H1 & H2 & H3 & Hf & Hida & Hidb & _).
  assert (Hdec : Header_decode (Header_layout (handshake_header len)) = Ok (handshake_header len)).
  { rewrite <-(app_nil_r (Header_layout _)). apply Header_decode_layout.
    constructor; simpl; try done; apply in_width_0; lia. }
  assert (Hch : client_handshake server_addr si (public_key (cr_static_key r)) sid (cr_prologue r) t0 (Some seed_i)
    = Ok ((server_addr, msg1), client_wait server_addr ini t0)) by (unfold client_handshake; by rewrite H1).
  pose proof (allocate_id_spec r (ri_next r Hinv)) as Hsp. rewrite Hal in Hsp. destruct Hsp as (_ & _ & _ & Hk1 & Hk2 & Hk3 & _).
  destruct (try_admit (srv_limiter srv) (sa_ip from) t1) as [lim adm] eqn:Et. cbn [snd] in Hadm. subst adm.
  eexists msg1, _, msg2, _, a, b. split; [exact Hch|]. split.
  { unfold handle_incoming. rewrite length_app, length_Header_layout.
    rewrite (proj2 (Nat.ltb_ge _ _)) by lia. rewrite take_app_length', Hdec by done.
    rewrite bool_decide_true by done. unfold handle_handshake. cbn [srv_limiter srv_registry].
    rewrite Et. cbn [negb]. rewrite drop_app_length' by done. fold r.
    unfold accept_client_msg1. rewrite (proj2 (Z.leb_gt _ _)) by lia.
    rewrite Hal, Hk1, Hk2, Hk3, H2. reflexivity. }
  split_and!; try done.
  - induction Hnoise as [|[f d] noise Hfr Hn IH]; cbn [app client_wait].
    + rewrite bool_decide_true by done. cbn [negb]. by rewrite H3.
    + rewrite bool_decide_false by done. exact IH.
  - cbn [srv_registry set_table set_next_id cr_table]. unfold table_lookup.
    cbn [SessionTable_insert fst slots heap AnySession_id].
    rewrite Hidb, lookup_insert_eq. simpl. by rewrite lookup_insert_eq.
  - apply lookup_insert_eq.
  - rewrite fresh_pair_keys, Hida, Hidb. naive_solver.
  - intros rng. destruct Hk as (_ & _ & _ & _ & Hke & _ & Hks & _).
    pose proof (bare_message_1_ignored srv server_addr from si _ sid _ seed_i msg1 _ t0 t1 rng Hinv Hks Hke Hch) as Hb.
    destruct (handle_incoming srv msg1 from t1 rng) as [srv0 out]. by destruct Hb as (? & ? & ? & _).
Qed.

(** No amplification: the server sends at most one datagram per datagram
    received, to the address it came from, and only in answer to a handshake
    of 112 bytes (header and message 1) that the rate limiter admitted; the
    answer is the 48 bytes of message 2. *)
Theorem server_never_amplifies (srv : Server) (data : bytes) (from : SocketAddr) (now : Z) (seed : bytes) :
  key_ok (mkPrivateKey seed) →
  let out := (handle_incoming srv data from now (Some seed)).2 in
  out_udp out = [] ∨
  ∃ msg2, out_udp out = [(from, msg2)] ∧ length data = 112%nat ∧ length msg2 = 48%nat ∧
    (try_admit (srv_limiter srv) (sa_ip from) now).2 = true.
Proof.
  intros Hke. unfold handle_incoming. destruct (Nat.ltb_spec (length data) HEADER_LEN); [by left|].
  destruct (Header_decode (take HEADER_LEN data)) as [h|e]; [|by left].
  case_bool_decide; [|left; by apply handle_data_slots].
  unfold handle_handshake. cbn [srv_limiter srv_registry].
  destruct (try_admit (srv_limiter srv) (sa_ip from) now) as [lim [|]]; cbn [negb]; [|by left].
  destruct (accept_client_msg1 (srv_registry srv) (drop HEADER_LEN data) now (Some seed))
    as [r' [[sid msg2]|e]] eqn:Ea; [|by left].
  destruct (accept_lengths _ _ _ _ _ _ _ Hke Ea) as [Hl1 Hl2]. right. exists msg2.
  rewrite length_drop in Hl1. unfold MSG_1_LEN, MSG_2_LEN, PUBLIC_KEY_LEN, TAG_LEN, HEADER_LEN in *.
  split_and!; [done|lia|done|done].
Qed.

(** Only one client can use the hard-coded id: when a session of id 1 is in
    the table, an admitted client gets another id, and the associated data its
    packets are sealed under (the client keeps id 1) differs from what the
    server opens them under, for every sequence number. *)
Theorem second_client_aad_differs (r : ClientRegistry) (msg1 : bytes) (now : Z) (rng : option bytes)
    (r' : ClientRegistry) (id : SessionId) (msg2 : bytes) (seq : Z) :
  registry_inv r → is_Some (SessionTable_get (cr_table r) CLIENT_SESSION_ID) →
  accept_client_msg1 r msg1 now rng = (r', Ok (id, msg2)) →
  build_aad CLIENT_SESSION_ID seq ≠ build_aad id seq.
Proof.
  intros Hinv Hone Hacc. unfold accept_client_msg1 in Hacc.
  destruct (_ <=? _); [done|]. destruct (allocate_id r) as [r1 [i|e]] eqn:Ea; [|done].
  destruct (allocate_id_inv r r1 _ Hinv Ea) as (_ & _ & Hid & Hnone).
  destruct (advance _ _ _ _) as [[|[m|] s]|]; try done. simplify_eq.
  unfold build_aad. intros E. apply app_inj_1 in E as [E _]; [|by rewrite !length_to_be_bytes].
  apply to_be_bytes_inj in E; [|vm_compute; split; congruence|zlia].
  subst id. unfold SessionTable_get in Hone. rewrite Hnone in Hone. by destruct Hone.
Qed.

End ServerProps.

(** ** Witnesses *)

Definition demo_server (r : ClientRegistry) : Server :=
  mkServer r (mkRateLimiter 5000 500 ∅) ∅ PipelineMetrics_new.
Definition demo_registry : ClientRegistry := ClientRegistry_new (mkPrivateKey (demo_seed 2)) [] [] 8.

Definition demo_registry_inv : registry_inv demo_registry.
Proof. apply registry_inv_new. vm_compute. split; congruence. Defined.

Example framed_handshake_establishes_witness :
  ∃ msg1 wait msg2 srv' a b,
    client_handshake demo_peer (mkPrivateKey (demo_seed 1)) (public_key (mkPrivateKey (demo_seed 2)))
      1 [] 0 (Some (demo_seed 3)) = Ok ((demo_peer, msg1), wait) ∧
    handle_incoming (demo_server demo_registry) (Header_layout (handshake_header 96) ++ msg1)
      demo_peer 0 (Some (demo_seed 4)) = (srv', mkServerOut [(demo_peer, msg2)] []) ∧ fresh_pair a b.
Proof.
  destruct (framed_handshake_establishes (demo_server demo_registry) demo_peer demo_peer
    (mkPrivateKey (demo_seed 1)) (demo_seed 3) (demo_seed 4) [] 96 0 0 1 1
    (set_next_id 2 demo_registry))
    as (msg1 & wait & msg2 & srv' & a & b & H1 & H2 & _ & _ & _ & _ & _ & _ & Hp & _).
  - exact demo_registry_inv.
  - vm_compute. reflexivity.
  - rewrite allocate_id_here by (reflexivity || discriminate). reflexivity.
  - vm_compute. reflexivity.
  - exact demo_honest.
  - vm_compute. split; congruence.
  - constructor.
  - exists msg1, wait, msg2, srv', a, b. split; [exact H1|]. split; [exact H2|]. apply Hp. reflexivity.
Defined.

Example bare_message_1_ignored_witness :
  ∃ msg1 wait,
    client_handshake demo_peer (mkPrivateKey (demo_seed 1)) (public_key (mkPrivateKey (demo_seed 2)))
      1 [] 0 (Some (demo_seed 3)) = Ok ((demo_peer, msg1), wait) ∧
    out_udp (handle_incoming (demo_server demo_registry) msg1 demo_peer 0 None).2 = [].
Proof.
  destruct (advance_handshake 1 (mkPrivateKey (demo_seed 1)) (mkPrivateKey (demo_seed 2)) [] []
    (demo_seed 3) (demo_seed 4) 0 0 0 None demo_honest) as (msg1 & _ & ini & _ & _ & H1 & _).
  assert (Hc : client_handshake demo_peer (mkPrivateKey (demo_seed 1))
    (public_key (mkPrivateKey (demo_seed 2))) 1 [] 0 (Some (demo_seed 3))
    = Ok ((demo_peer, msg1), client_wait demo_peer ini 0)).
  { unfold client_handshake. rewrite H1. reflexivity. }
  assert (K1 : key_ok (mkPrivateKey (demo_seed 1))) by (vm_compute; reflexivity).
  assert (K3 : key_ok (mkPrivateKey (demo_seed 3))) by (vm_compute; reflexivity).
  exists msg1, (client_wait demo_peer ini 0). split; [exact Hc|].
  pose proof (bare_message_1_ignored (demo_server demo_registry) demo_peer demo_peer
    (mkPrivateKey (demo_seed 1)) (public_key (mkPrivateKey (demo_seed 2))) 1 [] (demo_seed 3) msg1
    (client_wait demo_peer ini 0) 0 0 None demo_registry_inv K1 K3 Hc) as H.
  destruct (handle_incoming (demo_server demo_registry) msg1 demo_peer 0 None) as [srv' out].
  destruct H as [H _]. exact H.
Defined.

Example server_never_amplifies_witness :
  out_udp (handle_incoming (demo_server demo_registry) [16; 0] demo_peer 0 (Some (demo_seed 4))).2 = [].
Proof.
  destruct (server_never_amplifies (demo_server demo_registry) [16; 0] demo_peer 0 (demo_seed 4))
    as [H|(msg2 & _ & H & _)].
  - vm_compute. reflexivity.
  - exact H.
  - discriminate H.
Defined.

(** A registry in which id 1 is taken and the cursor is past it. *)
Definition demo_busy : ClientRegistry :=
  set_next_id 2 (set_table (SessionTable_insert SessionTable_new
    (AnyEstablished (mkSession 1 (s_state (demo_session 1 2 0))))).1 demo_registry).

Definition demo_busy_inv : registry_inv demo_busy.
Proof.
  destruct (insert_inv demo_registry (AnyEstablished (mkSession 1 (s_state (demo_session 1 2 0))))
    demo_registry_inv) as [[H1 H2 H3 H4 H5] _].
  - vm_compute. reflexivity.
  - vm_compute. split; reflexivity.
  - reflexivity.
  - constructor; [exact H1|vm_compute; split; congruence|exact H3|exact H4|exact H5].
Defined.

Example second_client_aad_differs_witness : build_aad CLIENT_SESSION_ID 5 ≠ build_aad 2 5.
Proof.
  destruct (advance_handshake 2 (mkPrivateKey (demo_seed 1)) (mkPrivateKey (demo_seed 2)) [] []
    (demo_seed 3) (demo_seed 4) 0 0 0 None demo_honest) as (msg1 & msg2 & _ & _ & b & _ & H2 & _).
  assert (Hacc : ∃ r', accept_client_msg1 demo_busy msg1 0 (Some (demo_seed 4)) = (r', Ok (2, msg2))).
  { unfold accept_client_msg1. rewrite (proj2 (Z.leb_gt _ _)) by (vm_compute; reflexivity).
    rewrite allocate_id_here by (reflexivity || discriminate).
    cbn [set_next_id cr_static_key cr_known_clients cr_prologue cr_next_id demo_busy set_table demo_registry
         ClientRegistry_new]. rewrite H2. eexists. reflexivity. }
  destruct Hacc as [r' Hacc].
  apply (second_client_aad_differs demo_busy msg1 0 (Some (demo_seed 4)) r' 2 msg2 5 demo_busy_inv);
    [vm_compute; eexists; reflexivity|exact Hacc].
Defined.
