(* ===== verification/Dns.v ===== *)
(** * DNS: the leak-protected resolver

    [crates/desmos-core/src/net/dns.rs]: the A-record query builder, the response
    parser and the blocking lookup.  Indexing carries its bounds check, so that
    the absence of panics is a theorem.  The parser is compared with an abstract
    syntax of messages (names, questions, records) and their wire encoding: it
    accepts exactly the encodings, and reads the same answer from them. *)

From stdpp Require Import base numbers list strings.
From Stdlib Require Import ZArith Lia.
From S2P Require Import Prelude Str Wire Pipeline.

Inductive DnsError :=
| NameTooLong
| LabelTooLong
| TruncatedResponse
| IdMismatch
| ServerError (code : Z)
| NoAnswer
| DnsIo (e : IoError).

Definition TYPE_A : Z := 1.
Definition CLASS_IN : Z := 1.
Definition DNS_HEADER_LEN : nat := 12.
Definition MAX_DNS_PACKET : nat := 512.

(** ** Query *)

(** The [for label in name.split('.')] loop. *)
Fixpoint push_labels (labels : list str) (buf : bytes) : result bytes DnsError :=
  match labels with
  | [] => Ok buf
  | label :: labels =>
      let len := str_len label in
      if (63 <? len)%nat then Err LabelTooLong
      else push_labels labels ((buf ++ [wrap 8 (Z.of_nat len)]) ++ as_bytes label)
  end.

Definition build_query (name : str) (tx_id : Z) : result bytes DnsError :=
  if (253 <? str_len name)%nat then Err NameTooLong
  else
    let buf := to_be_bytes 2 tx_id ++ [0x01; 0x00] ++ [0x00; 0x01] ++ [0x00; 0x00]
               ++ [0x00; 0x00] ++ [0x00; 0x00] in
    let? buf := push_labels (split (lit ".") name) buf in
    let buf := buf ++ [0x00] in
    Ok (buf ++ to_be_bytes 2 TYPE_A ++ to_be_bytes 2 CLASS_IN).

(** ** Response *)

Record DnsAnswer := mkDnsAnswer {
  da_tx_id : Z;
  da_addresses : list bytes;
  da_ttl : Z;
}.

(** The [loop] of [skip_name].  Running out of fuel is [Panic]; every round
    consumes a byte, so the length of the packet is enough. *)
Fixpoint skip_name_loop (fuel : nat) (packet : bytes) (pos : nat) : outcome nat DnsError :=
  match fuel with
  | O => Panic
  | S fuel =>
      if (length packet <=? pos)%nat then Fail TruncatedResponse
      else
        let% len := out_panics (packet !! pos) in
        if len =? 0 then Ret (pos + 1)%nat
        else if Z.land len 0xC0 =? 0xC0 then
          if (length packet <=? pos + 1)%nat then Fail TruncatedResponse else Ret (pos + 2)%nat
        else skip_name_loop fuel packet (pos + (1 + Z.to_nat len))%nat
  end.

Definition skip_name (packet : bytes) (pos : nat) : outcome nat DnsError :=
  skip_name_loop (S (length packet)) packet pos.

(** [for _ in 0..qdcount]. *)
Fixpoint skip_questions (qdcount : nat) (packet : bytes) (pos : nat) : outcome nat DnsError :=
  match qdcount with
  | O => Ret pos
  | S qdcount =>
      let% pos := skip_name packet pos in
      if (length packet <? pos + 4)%nat then Fail TruncatedResponse
      else skip_questions qdcount packet (pos + 4)%nat
  end.

Definition u32_at (bs : bytes) (i : nat) : panics Z :=
  a ← bs !! i; b ← bs !! (i + 1)%nat; c ← bs !! (i + 2)%nat; d ← bs !! (i + 3)%nat;
  Some (from_be_bytes [a; b; c; d]).

(** [for _ in 0..ancount]. *)
Fixpoint read_answers (ancount : nat) (packet : bytes) (pos : nat) (addresses : list bytes)
    (first_ttl : Z) : outcome (list bytes * Z) DnsError :=
  match ancount with
  | O => Ret (addresses, first_ttl)
  | S ancount =>
      let% pos := skip_name packet pos in
      if (length packet <? pos + 10)%nat then Fail TruncatedResponse
      else
        let% rtype := out_panics (u16_at packet pos) in
        let% _rclass := out_panics (u16_at packet (pos + 2)) in
        let% ttl := out_panics (u32_at packet (pos + 4)) in
        let% rdlength16 := out_panics (u16_at packet (pos + 8)) in
        let rdlength := Z.to_nat rdlength16 in
        let pos := (pos + 10)%nat in
        if (length packet <? pos + rdlength)%nat then Fail TruncatedResponse
        else if (rtype =? TYPE_A) && (rdlength =? 4)%nat then
          let% addr := out_panics (slice_checked pos (pos + 4) packet) in
          let first_ttl := if (length addresses =? 0)%nat then ttl else first_ttl in
          read_answers ancount packet (pos + rdlength)%nat (addresses ++ [addr]) first_ttl
        else read_answers ancount packet (pos + rdlength)%nat addresses first_ttl
  end.

Definition parse_response (packet : bytes) (expected_id : Z) : outcome DnsAnswer DnsError :=
  if (length packet <? DNS_HEADER_LEN)%nat then Fail TruncatedResponse
  else
    let% tx_id := out_panics (u16_at packet 0) in
    if negb (tx_id =? expected_id) then Fail IdMismatch
    else
      let% b3 := out_panics (packet !! 3%nat) in
      let rcode := Z.land b3 0x0F in
      if negb (rcode =? 0) then Fail (ServerError rcode)
      else
        let% qdcount := out_panics (u16_at packet 4) in
        let% ancount := out_panics (u16_at packet 6) in
        let% pos := skip_questions (Z.to_nat qdcount) packet DNS_HEADER_LEN in
        let% (addresses, first_ttl) := read_answers (Z.to_nat ancount) packet pos [] 0 in
        if (length addresses =? 0)%nat then Fail NoAnswer
        else Ret (mkDnsAnswer tx_id addresses first_ttl).

(** ** Lookup *)

(** The outcomes of the socket calls of [resolve]; what is received depends on
    the query that was sent. *)
Record DnsSocket := mkDnsSocket {
  ds_bind : result () IoError;
  ds_set_timeout : result () IoError;
  ds_send : bytes → result () IoError;
  ds_recv : bytes → result (bytes * SocketAddr) IoError;
}.

(** [resolve], given the socket's behaviour: the datagram is cut at the receive
    buffer and its source is not looked at. *)
Definition resolve (name : str) (tx_id : Z) (sock : DnsSocket) : outcome DnsAnswer DnsError :=
  match build_query name tx_id with
  | Err e => Fail e
  | Ok query =>
      match ds_bind sock with Err e => Fail (DnsIo e) | Ok _ =>
      match ds_set_timeout sock with Err e => Fail (DnsIo e) | Ok _ =>
      match ds_send sock query with Err e => Fail (DnsIo e) | Ok _ =>
      match ds_recv sock query with
      | Err e => Fail (DnsIo e)
      | Ok (data, _) => parse_response (take MAX_DNS_PACKET data) tx_id
      end end end end
  end.

(** ** Abstract messages *)

(** A name on the wire: labels, then the root or a compression pointer. *)
Inductive name_end := Root | Pointer (hi lo : Z).
Record wire_name := mkName { wn_labels : list bytes; wn_end : name_end }.

Record question := mkQuestion { q_name : wire_name; q_type_class : bytes }.

Record resource := mkResource {
  rr_name : wire_name;
  rr_type : Z;
  rr_class : Z;
  rr_ttl : Z;
  rr_data : bytes;
}.

Record message := mkMessage {
  m_id : Z;
  m_flags : Z * Z;
  m_questions : list question;
  m_answers : list resource;
  m_counts : Z * Z;
}.

Definition enc_label (l : bytes) : bytes := Z.of_nat (length l) :: l.
Definition enc_end (e : name_end) : bytes := match e with Root => [0] | Pointer hi lo => [hi; lo] end.
Definition enc_name (n : wire_name) : bytes := (wn_labels n ≫= enc_label) ++ enc_end (wn_end n).
Definition enc_question (q : question) : bytes := enc_name (q_name q) ++ q_type_class q.
Definition enc_resource (r : resource) : bytes :=
  enc_name (rr_name r) ++ to_be_bytes 2 (rr_type r) ++ to_be_bytes 2 (rr_class r)
  ++ to_be_bytes 4 (rr_ttl r) ++ to_be_bytes 2 (Z.of_nat (length (rr_data r))) ++ rr_data r.

Definition enc_header (m : message) : bytes :=
  to_be_bytes 2 (m_id m) ++ [(m_flags m).1; (m_flags m).2]
  ++ to_be_bytes 2 (Z.of_nat (length (m_questions m))) ++ to_be_bytes 2 (Z.of_nat (length (m_answers m)))
  ++ to_be_bytes 2 (m_counts m).1 ++ to_be_bytes 2 (m_counts m).2.
Definition enc_message (m : message) : bytes :=
  enc_header m ++ (m_questions m ≫= enc_question) ++ (m_answers m ≫= enc_resource).

(** What the parser takes for a label: up to 191 bytes, where the RFC allows
    63: the two reserved length forms [0x40] and [0x80] are read as lengths. *)
Definition label_ok (l : bytes) : Prop := (1 <= length l < 0xC0)%nat.
Definition end_ok (e : name_end) : Prop :=
  match e with Root => True | Pointer hi lo => 0xC0 <= hi < 256 ∧ byte_ok lo end.
Definition name_ok (n : wire_name) : Prop := Forall label_ok (wn_labels n) ∧ end_ok (wn_end n).
Definition question_ok (q : question) : Prop := name_ok (q_name q) ∧ length (q_type_class q) = 4%nat.
Definition resource_ok (r : resource) : Prop :=
  name_ok (rr_name r) ∧ in_width 16 (rr_type r) ∧ in_width 16 (rr_class r) ∧ in_width 32 (rr_ttl r) ∧
  in_width 16 (Z.of_nat (length (rr_data r))).
Definition message_ok (m : message) : Prop :=
  in_width 16 (m_id m) ∧ byte_ok (m_flags m).1 ∧ byte_ok (m_flags m).2 ∧
  in_width 16 (Z.of_nat (length (m_questions m))) ∧ in_width 16 (Z.of_nat (length (m_answers m))) ∧
  in_width 16 (m_counts m).1 ∧ in_width 16 (m_counts m).2 ∧
  Forall question_ok (m_questions m) ∧ Forall resource_ok (m_answers m).

#[export] Instance end_ok_dec e : Decision (end_ok e).
Proof. destruct e; cbn [end_ok]; apply _. Defined.
#[export] Instance question_ok_dec q : Decision (question_ok q).
Proof. unfold question_ok, name_ok, label_ok. apply _. Defined.
#[export] Instance resource_ok_dec r : Decision (resource_ok r).
Proof. unfold resource_ok, name_ok, label_ok. apply _. Defined.
#[export] Instance message_ok_dec m : Decision (message_ok m).
Proof. unfold message_ok. apply _. Defined.

Definition is_a_record (r : resource) : Prop := rr_type r = TYPE_A ∧ length (rr_data r) = 4%nat.
#[export] Instance is_a_record_dec r : Decision (is_a_record r).
Proof. unfold is_a_record. apply _. Defined.

Definition a_records (m : message) : list resource := filter is_a_record (m_answers m).

(** The answer a message carries: the data of its A records and the TTL of the
    first. *)
Definition answer_of (m : message) : option DnsAnswer :=
  match a_records m with
  | [] => None
  | r :: rs => Some (mkDnsAnswer (m_id m) (rr_data <$> r :: rs) (rr_ttl r))
  end.

(** The parser's verdict on a message. *)
Definition verdict (m : message) (expected_id : Z) : outcome DnsAnswer DnsError :=
  if negb (m_id m =? expected_id) then Fail IdMismatch
  else if negb (Z.land (m_flags m).2 0x0F =? 0) then Fail (ServerError (Z.land (m_flags m).2 0x0F))
  else match answer_of m with Some a => Ret a | None => Fail NoAnswer end.

(** ** Lemmas *)

Lemma lookup_drop' (packet : bytes) pos i : packet !! (pos + i)%nat = drop pos packet !! i.
Proof. by rewrite lookup_drop. Qed.

Lemma u16_at_drop packet pos x rest :
  in_width 16 x → drop pos packet = to_be_bytes 2 x ++ rest → u16_at packet pos = Some x.
Proof.
  intros Hx Hd. unfold u16_at. replace pos with (pos + 0)%nat by lia.
  replace (S (pos + 0)) with (pos + 1)%nat by lia. rewrite !lookup_drop', Hd.
  change (to_be_bytes 2 x ++ rest) with ((x / 256) mod 256 :: x mod 256 :: rest). cbn [lookup list_lookup mbind option_bind].
  f_equal. by apply (from_to_be_bytes 2 x).
Qed.

Lemma u32_at_drop packet pos x rest :
  in_width 32 x → drop pos packet = to_be_bytes 4 x ++ rest → u32_at packet pos = Some x.
Proof.
  intros Hx Hd. unfold u32_at. replace (packet !! pos) with (packet !! (pos + 0)%nat) by (f_equal; lia).
  rewrite !lookup_drop', Hd.
  change (to_be_bytes 4 x ++ rest)
    with ((x / 256 / 256 / 256) mod 256 :: (x / 256 / 256) mod 256 :: (x / 256) mod 256 :: x mod 256 :: rest).
  cbn [lookup list_lookup mbind option_bind]. f_equal. by apply (from_to_be_bytes 4 x).
Qed.

Lemma pointer_bits x : byte_ok x → (Z.land x 0xC0 =? 0xC0) = (0xC0 <=? x).
Proof.
  intros Hx.
  assert (Hall : forallb (fun i => bool_decide ((Z.land (Z.of_nat i) 0xC0 =? 0xC0) = (0xC0 <=? Z.of_nat i)))
    (seq 0 256) = true) by (vm_compute; reflexivity).
  rewrite forallb_forall in Hall. specialize (Hall (Z.to_nat x)). rewrite Z2Nat.id in Hall by zlia.
  apply bool_decide_eq_true in Hall; [done|]. apply in_seq. zlia.
Qed.

Lemma enc_name_cons l ls e : enc_name (mkName (l :: ls) e) = enc_label l ++ enc_name (mkName ls e).
Proof. unfold enc_name. cbn [wn_labels wn_end]. by rewrite bind_cons, <-app_assoc. Qed.

Lemma enc_name_nonempty n : enc_name n ≠ [].
Proof. destruct n as [[|l ls] []]; done. Qed.

Lemma length_enc_name ls e : (length ls < length (enc_name (mkName ls e)))%nat.
Proof.
  induction ls as [|l ls IH]; [destruct e; simpl; lia|].
  rewrite enc_name_cons, length_app. simpl. lia.
Qed.

(** [skip_name] steps over an encoded name. *)
Lemma skip_name_loop_enc ls e packet rest : ∀ fuel pos,
  name_ok (mkName ls e) → drop pos packet = enc_name (mkName ls e) ++ rest → (length ls < fuel)%nat →
  skip_name_loop fuel packet pos = Ret (pos + length (enc_name (mkName ls e)))%nat.
Proof.
  induction ls as [|l ls IH]; intros [|fuel] pos [Hl He] Hd Hf; [simpl in Hf; lia| |simpl in Hf; lia|];
    cbn [wn_labels wn_end] in *;
    pose proof (drop_length_le _ _ _ _ Hd (enc_name_nonempty _)) as Hlen;
    assert (Hb : packet !! pos = (enc_name (mkName _ e) ++ rest) !! 0%nat)
      by (rewrite <-Hd, lookup_drop; f_equal; lia);
    cbn [skip_name_loop].
  - destruct e as [|hi lo]; cbn [enc_name wn_labels wn_end mbind list_bind app enc_end length] in *;
      rewrite (proj2 (Nat.leb_gt _ _)) by lia; rewrite Hb; cbn [lookup list_lookup out_panics out_bind].
    + done.
    + destruct He as [Hhi Hlo]. rewrite (proj2 (Z.eqb_neq _ _)) by lia.
      rewrite pointer_bits by zlia. rewrite (proj2 (Z.leb_le _ _)) by lia.
      by rewrite (proj2 (Nat.leb_gt _ _)) by lia.
  - rewrite enc_name_cons in *. apply Forall_cons in Hl as [Hl Hls]. unfold label_ok in Hl.
    rewrite length_app in *. cbn [enc_label length] in *.
    rewrite (proj2 (Nat.leb_gt _ _)) by lia. rewrite Hb. cbn [enc_label app lookup list_lookup out_panics out_bind].
    rewrite (proj2 (Z.eqb_neq _ _)) by lia. rewrite pointer_bits by zlia.
    rewrite (proj2 (Z.leb_gt _ _)) by lia. rewrite Nat2Z.id. rewrite IH; [f_equal; lia|done| |lia].
    rewrite <-app_assoc in Hd. by apply drop_pos in Hd.
Qed.

Lemma skip_name_enc n packet rest pos :
  name_ok n → drop pos packet = enc_name n ++ rest → skip_name packet pos = Ret (pos + length (enc_name n))%nat.
Proof.
  destruct n as [ls e]. intros Hn Hd. eapply skip_name_loop_enc; [done|done|].
  pose proof (drop_length_le _ _ _ _ Hd (enc_name_nonempty _)).
  pose proof (length_enc_name ls e). lia.
Qed.

(** Conversely, what [skip_name] steps over is an encoded name; it never
    panics nor runs out of fuel. *)
Definition parsed {A} (enc : A → bytes) (ok : A → Prop) (packet : bytes) (pos pos' : nat) (a : A) : Prop :=
  ok a ∧ drop pos packet = enc a ++ drop pos' packet ∧ pos' = (pos + length (enc a))%nat ∧ (pos' <= length packet)%nat.

Lemma skip_name_loop_inv packet : Forall byte_ok packet → ∀ fuel pos, (length packet < fuel + pos)%nat →
  (0 < fuel)%nat →
  holds (fun pos' => ∃ n, parsed enc_name name_ok packet pos pos' n) (skip_name_loop fuel packet pos).
Proof.
  intros Hb fuel. induction fuel as [|fuel IH]; intros pos Hf Hpos; [lia|]. cbn [skip_name_loop].
  destruct (Nat.leb_spec (length packet) pos) as [|Hlt]; [done|].
  destruct (lookup_lt_is_Some_2 packet pos Hlt) as [len Hlen]. rewrite Hlen. cbn [out_panics out_bind].
  pose proof (Forall_lookup_1 _ _ _ _ Hb Hlen) as Hbyte.
  pose proof (drop_S _ _ _ Hlen) as Hd.
  destruct (Z.eqb_spec len 0) as [->|Hne].
  { exists (mkName [] Root). split; [by split|]. replace (pos + 1)%nat with (S pos) by lia.
    split_and!; [done|simpl; lia|lia]. }
  rewrite pointer_bits by done. destruct (Z.leb_spec 0xC0 len) as [Hptr|Hlab].
  { destruct (Nat.leb_spec (length packet) (pos + 1)) as [|Hlt2]; [done|].
    destruct (lookup_lt_is_Some_2 packet (S pos)) as [lo Hlo]; [lia|].
    pose proof (Forall_lookup_1 _ _ _ _ Hb Hlo) as Hlob. pose proof (drop_S _ _ _ Hlo) as Hd2.
    exists (mkName [] (Pointer len lo)). split; [split; [done|]; split; zlia|].
    replace (pos + 2)%nat with (S (S pos)) by lia. rewrite Hd, Hd2. split_and!; [done|simpl; lia|lia]. }
  set (k := Z.to_nat len). destruct (Nat.le_gt_cases (length packet) (pos + (1 + k))) as [Hover|Hin].
  { destruct fuel; [lia|]. cbn [skip_name_loop]. by rewrite (proj2 (Nat.leb_le _ _)) by lia. }
  pose proof (IH (pos + (1 + k))%nat ltac:(lia) ltac:(lia)) as IH'.
  destruct (skip_name_loop fuel packet (pos + (1 + k))) as [pos'|e|]; [|done|done].
  destruct IH' as ([ls e] & [Hls He] & Hd' & -> & Hle). cbn [wn_labels wn_end] in *.
  set (l := take k (drop (S pos) packet)).
  assert (Hl : length l = k) by (unfold l; rewrite length_take, length_drop; lia).
  exists (mkName (l :: ls) e). unfold parsed. rewrite enc_name_cons.
  split; [split; [constructor; [|done]|done]; unfold label_ok; zlia|].
  split_and!; [|rewrite length_app; cbn [enc_label length]; lia|done].
  rewrite Hd. unfold enc_label. rewrite Hl. unfold k at 1. rewrite Z2Nat.id by zlia.
  cbn [app]. f_equal. rewrite <-(take_drop k (drop (S pos) packet)) at 1. fold l.
  rewrite <-app_assoc, drop_drop. f_equal. replace (S pos + k)%nat with (pos + (1 + k))%nat by lia. exact Hd'.
Qed.

Lemma skip_name_inv packet pos : Forall byte_ok packet →
  holds (fun pos' => ∃ n, parsed enc_name name_ok packet pos pos' n) (skip_name packet pos).
Proof. intros Hb. apply skip_name_loop_inv; [done|lia|lia]. Qed.

Lemma bind_of_ret {A B E} (a : A) (k : A → outcome B E) : out_bind (Ret a) k = k a.
Proof. done. Qed.

Lemma skip_questions_enc qs packet rest : ∀ pos,
  Forall question_ok qs → drop pos packet = (qs ≫= enc_question) ++ rest → (pos <= length packet)%nat →
  skip_questions (length qs) packet pos = Ret (pos + length (qs ≫= enc_question))%nat.
Proof.
  induction qs as [|q qs IH]; intros pos Hq Hd Hp; [simpl; f_equal; lia|].
  apply Forall_cons in Hq as [[Hn Htc] Hqs]. rewrite bind_cons in *. rewrite <-app_assoc in Hd.
  unfold enc_question at 1 in Hd. rewrite <-app_assoc in Hd.
  cbn [length skip_questions]. rewrite (skip_name_enc _ _ _ _ Hn Hd), bind_of_ret.
  apply drop_pos in Hd. pose proof Hd as Hd2. apply drop_pos in Hd2.
  pose proof (drop_length_le _ _ _ _ Hd) as Hle. rewrite Htc in *.
  assert (q_type_class q ≠ []) by (by intros E; rewrite E in Htc). specialize (Hle H).
  rewrite (proj2 (Nat.ltb_ge _ _)) by lia. rewrite IH by (done || lia).
  unfold enc_question at 2. rewrite !length_app, Htc. f_equal. lia.
Qed.

Lemma skip_questions_inv packet : Forall byte_ok packet → ∀ k pos, (pos <= length packet)%nat →
  holds (fun pos' => ∃ qs, length qs = k ∧ parsed (mbind enc_question) (Forall question_ok) packet pos pos' qs)
    (skip_questions k packet pos).
Proof.
  intros Hb k. induction k as [|k IH]; intros pos Hp; cbn [skip_questions].
  { exists []. split; [done|]. split_and!; [done|done|simpl; lia|done]. }
  eapply holds_then; [by apply skip_name_inv|].
  intros pos1 (n & Hn & Hd & E1 & Hle). destruct (Nat.ltb_spec (length packet) (pos1 + 4)) as [|H4]; [done|].
  specialize (IH (pos1 + 4)%nat H4). destruct (skip_questions k packet (pos1 + 4)) as [pos'|e|]; [|done|done].
  destruct IH as (qs & Hk & Hqs & Hd' & -> & Hle').
  set (tc := take 4 (drop pos1 packet)).
  assert (Htc : length tc = 4%nat) by (unfold tc; rewrite length_take, length_drop; lia).
  exists (mkQuestion n tc :: qs). split; [by cbn [length]; f_equal|].
  unfold parsed. rewrite bind_cons. change (enc_question (mkQuestion n tc)) with (enc_name n ++ tc).
  rewrite !length_app, Htc. split_and!; [by constructor|..|lia|done].
  rewrite Hd, <-!app_assoc. f_equal. rewrite <-(take_drop 4 (drop pos1 packet)). fold tc.
  f_equal. rewrite drop_drop. exact Hd'.
Qed.

(** The accumulators after the answers [rs]. *)
Definition collect (rs : list resource) (addresses : list bytes) (first_ttl : Z) : list bytes * Z :=
  let found := filter is_a_record rs in
  (addresses ++ (rr_data <$> found),
   match addresses, found with [], r :: _ => rr_ttl r | _, _ => first_ttl end).

Lemma collect_cons_a r rs addresses ttl : is_a_record r →
  collect (r :: rs) addresses ttl
  = collect rs (addresses ++ [rr_data r]) (if (length addresses =? 0)%nat then rr_ttl r else ttl).
Proof.
  intros Ha. unfold collect. rewrite filter_cons_True by done. rewrite fmap_cons, <-app_assoc. cbn [app].
  f_equal. by destruct addresses.
Qed.

Lemma collect_cons_other r rs addresses ttl : ¬ is_a_record r → collect (r :: rs) addresses ttl = collect rs addresses ttl.
Proof. intros Ha. unfold collect. by rewrite filter_cons_False. Qed.

(** One round of the answer loop, on an encoded record. *)
Lemma read_answers_step k packet pos r rest addresses ttl :
  resource_ok r → drop pos packet = enc_resource r ++ rest →
  read_answers (S k) packet pos addresses ttl
  = let pos' := (pos + length (enc_resource r))%nat in
    if decide (is_a_record r)
    then read_answers k packet pos' (addresses ++ [rr_data r]) (if (length addresses =? 0)%nat then rr_ttl r else ttl)
    else read_answers k packet pos' addresses ttl.
Proof.
  intros (Hn & Ht & Hc & Httl & Hlen) Hd. unfold enc_resource in *. cbn zeta.
  rewrite <-!app_assoc in Hd. cbn [read_answers]. rewrite (skip_name_enc _ _ _ _ Hn Hd), bind_of_ret.
  apply drop_pos in Hd as Hd0. set (p := (pos + length (enc_name (rr_name r)))%nat) in *.
  apply drop_pos in Hd0 as Hd2. rewrite length_to_be_bytes in Hd2.
  apply drop_pos in Hd2 as Hd4. rewrite length_to_be_bytes in Hd4. rewrite <-Nat.add_assoc in Hd4. cbn [Nat.add] in Hd4.
  apply drop_pos in Hd4 as Hd8. rewrite length_to_be_bytes in Hd8. rewrite <-Nat.add_assoc in Hd8. cbn [Nat.add] in Hd8.
  apply drop_pos in Hd8 as Hd10. rewrite length_to_be_bytes in Hd10. rewrite <-Nat.add_assoc in Hd10. cbn [Nat.add] in Hd10.
  pose proof (drop_length_le _ _ _ _ Hd8 ltac:(done)) as Hl10. rewrite length_to_be_bytes in Hl10.
  assert (Hl : (p + 10 + length (rr_data r) <= length packet)%nat).
  { apply (f_equal length) in Hd10. rewrite length_drop, length_app in Hd10. lia. }
  rewrite (proj2 (Nat.ltb_ge _ _)) by lia.
  rewrite (u16_at_drop _ _ _ _ Ht Hd0), (u16_at_drop _ _ _ _ Hc Hd2), (u32_at_drop _ _ _ _ Httl Hd4),
    (u16_at_drop _ _ _ _ Hlen Hd8). cbn [out_panics out_bind]. rewrite Nat2Z.id.
  rewrite (proj2 (Nat.ltb_ge _ _)) by lia.
  replace (pos + length (enc_name (rr_name r) ++ _))%nat with (p + 10 + length (rr_data r))%nat
    by (rewrite !length_app, !length_to_be_bytes; lia).
  unfold is_a_record. destruct (Z.eqb_spec (rr_type r) TYPE_A) as [Ea|Ea]; cbn [andb].
  2:{ by rewrite decide_False by tauto. }
  destruct (Nat.eqb_spec (length (rr_data r)) 4) as [E4|E4]; [|by rewrite decide_False by tauto].
  rewrite decide_True by done. unfold slice_checked.
  rewrite (proj2 (Nat.leb_le _ _)), (proj2 (Nat.leb_le _ _)) by lia. cbn [andb out_panics out_bind].
  unfold slice. rewrite Hd10. replace (p + 10 + 4 - (p + 10))%nat with (length (rr_data r)) by lia.
  by rewrite take_app_length.
Qed.

Lemma read_answers_enc packet rs rest : ∀ pos addresses ttl,
  Forall resource_ok rs → drop pos packet = (rs ≫= enc_resource) ++ rest →
  read_answers (length rs) packet pos addresses ttl = Ret (collect rs addresses ttl).
Proof.
  induction rs as [|r rs IH]; intros pos addresses ttl Hok Hd.
  { cbn [length read_answers]. unfold collect. cbn. rewrite app_nil_r. by destruct addresses. }
  apply Forall_cons in Hok as [Hr Hrs]. rewrite bind_cons, <-app_assoc in Hd.
  cbn [length]. rewrite (read_answers_step _ _ _ _ _ _ _ Hr Hd). cbn zeta.
  apply drop_pos in Hd. case_decide as Ha.
  - rewrite collect_cons_a by done. by apply IH.
  - rewrite collect_cons_other by done. by apply IH.
Qed.

Lemma to_from_2 a b : byte_ok a → byte_ok b → to_be_bytes 2 (from_be_bytes [a; b]) = [a; b].
Proof. intros Ha Hb. apply (to_from_be_bytes [a; b]). solve_bytes. Qed.

Lemma to_from_4 a b c d : byte_ok a → byte_ok b → byte_ok c → byte_ok d →
  to_be_bytes 4 (from_be_bytes [a; b; c; d]) = [a; b; c; d].
Proof. intros Ha Hb Hc Hd. apply (to_from_be_bytes [a; b; c; d]). solve_bytes. Qed.

Lemma from_be_width (bs : bytes) w : Forall byte_ok bs → w = 8 * Z.of_nat (length bs) → in_width w (from_be_bytes bs).
Proof. intros Hb ->. by apply from_be_bytes_range. Qed.

(** The ten fixed bytes of a record and its data, from the raw bytes. *)
Lemma record_bytes (n : wire_name) (rest : bytes) :
  name_ok n → Forall byte_ok rest → (10 <= length rest)%nat →
  ∃ d8 d9, u16_at rest 8 = Some (from_be_bytes [d8; d9]) ∧
    ((10 + Z.to_nat (from_be_bytes [d8; d9]) <= length rest)%nat →
     ∃ r rest', resource_ok r ∧ enc_name n ++ rest = enc_resource r ++ rest').
Proof.
  intros Hn Hb Hl. do 10 (destruct rest as [|? rest]; [simpl in Hl; lia|]).
  repeat match goal with H : Forall _ (_ :: _) |- _ => apply Forall_cons in H as [? H] end.
  eexists _, _. split; [done|]. cbn [length]. intros Hfit.
  set (k := Z.to_nat (from_be_bytes [z7; z8])) in *.
  assert (Hw : in_width 16 (from_be_bytes [z7; z8])) by (apply from_be_width; [solve_bytes|done]).
  exists (mkResource n (from_be_bytes [z; z0]) (from_be_bytes [z1; z2]) (from_be_bytes [z3; z4; z5; z6]) (take k rest)),
    (drop k rest).
  assert (Hk : length (take k rest) = k) by (rewrite length_take; lia).
  unfold resource_ok, enc_resource. cbn [rr_name rr_type rr_class rr_ttl rr_data]. rewrite Hk.
  unfold k at 1 2. rewrite Z2Nat.id by zlia. split.
  - split_and!; [done|apply from_be_width; [solve_bytes|done]..|done].
  - rewrite !to_from_2, to_from_4 by done. rewrite <-!app_assoc. f_equal. cbn [app]. do 10 f_equal.
    by rewrite take_drop.
Qed.

Lemma Forall_drop_ok (packet : bytes) pos : Forall byte_ok packet → Forall byte_ok (drop pos packet).
Proof. apply Forall_drop. Qed.

(** A round of the answer loop fails, or is on an encoded record. *)
Lemma read_answers_round k packet pos addresses ttl : Forall byte_ok packet →
  read_answers (S k) packet pos addresses ttl = Fail TruncatedResponse ∨
  ∃ r rest, resource_ok r ∧ drop pos packet = enc_resource r ++ rest.
Proof.
  intros Hb. cbn [read_answers]. pose proof (skip_name_inv packet pos Hb) as Hs.
  destruct (skip_name packet pos) as [p|e|] eqn:Es; [|left|done].
  2:{ cbn [out_bind]. f_equal. revert Es. unfold skip_name. generalize (S (length packet)). clear Hs. intros fuel.
      revert pos. induction fuel as [|fuel IH]; intros pos; cbn [skip_name_loop]; [done|].
      destruct (length packet <=? pos)%nat; [congruence|]. destruct (packet !! pos) as [len|]; cbn [out_panics out_bind]; [|done].
      split_ifs; try congruence. apply IH. }
  destruct Hs as (n & Hn & Hd & -> & Hle). rewrite bind_of_ret.
  set (p := (pos + length (enc_name n))%nat) in *.
  destruct (Nat.ltb_spec (length packet) (p + 10)) as [|H10]; [by left|].
  destruct (record_bytes n (drop p packet) Hn) as (d8 & d9 & Hlen & Hrec);
    [by apply Forall_drop|rewrite length_drop; lia|].
  destruct (Nat.le_gt_cases (p + 10 + Z.to_nat (from_be_bytes [d8; d9])) (length packet)) as [Hfit|Hover].
  { right. destruct Hrec as (r & rest & Hr & He); [rewrite length_drop; lia|]. exists r, rest. by rewrite Hd. }
  left. assert (H16 : ∀ i, (i + 1 < 10)%nat → ∃ x, u16_at packet (p + i) = Some x).
  { intros i Hi. unfold u16_at. destruct (lookup_lt_is_Some_2 packet (p + i)) as [x ->]; [lia|].
    destruct (lookup_lt_is_Some_2 packet (S (p + i))) as [y ->]; [lia|]. by eexists. }
  destruct (H16 0%nat) as [t Ht]; [lia|]. rewrite Nat.add_0_r in Ht. destruct (H16 2%nat) as [c Hc]; [lia|].
  rewrite Ht, Hc. cbn [out_panics out_bind].
  assert (∃ x, u32_at packet (p + 4) = Some x) as [x ->].
  { unfold u32_at. destruct (lookup_lt_is_Some_2 packet (p + 4)) as [? ->]; [lia|].
    destruct (lookup_lt_is_Some_2 packet (p + 4 + 1)) as [? ->]; [lia|].
    destruct (lookup_lt_is_Some_2 packet (p + 4 + 2)) as [? ->]; [lia|].
    destruct (lookup_lt_is_Some_2 packet (p + 4 + 3)) as [? ->]; [lia|]. by eexists. }
  cbn [out_panics out_bind].
  assert (Hd89 : u16_at packet (p + 8) = Some (from_be_bytes [d8; d9])).
  { rewrite <-Hlen. unfold u16_at. rewrite !lookup_drop. by replace (p + 9)%nat with (S (p + 8)) by lia. }
  rewrite Hd89. cbn [out_panics out_bind]. by rewrite (proj2 (Nat.ltb_lt _ _)) by lia.
Qed.

Lemma read_answers_inv packet : Forall byte_ok packet → ∀ k pos addresses ttl,
  holds (fun res => ∃ rs rest, length rs = k ∧ Forall resource_ok rs ∧
    drop pos packet = (rs ≫= enc_resource) ++ rest ∧ res = collect rs addresses ttl)
    (read_answers k packet pos addresses ttl).
Proof.
  intros Hb k. induction k as [|k IH]; intros pos addresses ttl.
  { cbn [read_answers holds]. exists [], (drop pos packet). split_and!; [done..|].
    unfold collect. cbn. rewrite app_nil_r. by destruct addresses. }
  destruct (read_answers_round k packet pos addresses ttl Hb) as [->|(r & rest & Hr & Hd)]; [done|].
  rewrite (read_answers_step _ _ _ _ _ _ _ Hr Hd). cbn zeta.
  assert (Hstep : ∀ m (acc : list resource → list bytes * Z),
    holds (fun res => ∃ rs rest', length rs = k ∧ Forall resource_ok rs ∧
      drop (pos + length (enc_resource r)) packet = (rs ≫= enc_resource) ++ rest' ∧ res = acc rs) m →
    (∀ rs, acc rs = collect (r :: rs) addresses ttl) →
    holds (fun res => ∃ rs rest', length rs = S k ∧ Forall resource_ok rs ∧
      drop pos packet = (rs ≫= enc_resource) ++ rest' ∧ res = collect rs addresses ttl) (m : outcome _ DnsError)).
  { intros [res|e|] acc; [|done|done]. intros (rs & rest' & Hk & Hrs & Hd' & ->) Hacc.
    exists (r :: rs), rest'. split_and!; [by cbn; f_equal|by constructor| |by rewrite Hacc].
    rewrite bind_cons, <-app_assoc, Hd. f_equal. apply drop_pos in Hd. congruence. }
  case_decide as Ha.
  - apply (Hstep _ (fun rs => collect rs (addresses ++ [rr_data r]) (if (length addresses =? 0)%nat then rr_ttl r else ttl)));
      [apply IH|]. intros rs. by rewrite collect_cons_a.
  - apply (Hstep _ (fun rs => collect rs addresses ttl)); [apply IH|]. intros rs. by rewrite collect_cons_other.
Qed.

Lemma dns_header_fields (m : message) (rest : bytes) :
  message_ok m → let packet := enc_header m ++ rest in
  (12 <= length packet)%nat ∧ u16_at packet 0 = Some (m_id m) ∧ packet !! 3%nat = Some (m_flags m).2 ∧
  u16_at packet 4 = Some (Z.of_nat (length (m_questions m))) ∧
  u16_at packet 6 = Some (Z.of_nat (length (m_answers m))) ∧ drop 12 packet = rest.
Proof.
  intros (Hid & _ & _ & Hq & Ha & _). cbn zeta. split_and!.
  - rewrite length_app. unfold enc_header. rewrite !length_app, !length_to_be_bytes. cbn [length]. lia.
  - eapply u16_at_drop; [done|]. rewrite drop_0. unfold enc_header. by rewrite <-!app_assoc.
  - done.
  - eapply u16_at_drop; [done|]. unfold enc_header. cbn [to_be_bytes app drop]. reflexivity.
  - eapply u16_at_drop; [done|]. unfold enc_header. cbn [to_be_bytes app drop]. reflexivity.
  - done.
Qed.

Lemma verdict_collect m id :
  m_id m = id → Z.land (m_flags m).2 0x0F = 0 →
  verdict m id = let '(addresses, ttl) := collect (m_answers m) [] 0 in
    if (length addresses =? 0)%nat then Fail NoAnswer else Ret (mkDnsAnswer (m_id m) addresses ttl).
Proof.
  intros <- Hr. unfold verdict. rewrite Z.eqb_refl, Hr. cbn [negb Z.eqb]. unfold answer_of, collect, a_records.
  by destruct (filter is_a_record (m_answers m)).
Qed.

(** The parser returns the verdict on what was encoded. *)
Lemma parse_response_enc m rest id : message_ok m → parse_response (enc_message m ++ rest) id = verdict m id.
Proof.
  intros Hm. unfold enc_message. rewrite <-app_assoc.
  destruct (dns_header_fields m (((m_questions m ≫= enc_question) ++ (m_answers m ≫= enc_resource)) ++ rest) Hm)
    as (Hl & H0 & H3 & H4 & H6 & Hd). cbn zeta in *. revert Hl H0 H3 H4 H6 Hd.
  set (packet := enc_header m ++ _). intros.
  unfold parse_response, DNS_HEADER_LEN. rewrite (proj2 (Nat.ltb_ge _ _)) by lia. rewrite H0. cbn [out_panics out_bind].
  destruct (Z.eqb_spec (m_id m) id) as [Hid|Hid]; cbn [negb].
  2:{ unfold verdict. by rewrite (proj2 (Z.eqb_neq _ _)). }
  rewrite H3. cbn [out_panics out_bind]. destruct (Z.eqb_spec (Z.land (m_flags m).2 0x0F) 0) as [Hr|Hr]; cbn [negb].
  2:{ unfold verdict. rewrite (proj2 (Z.eqb_eq _ _)) by done. cbn [negb]. by rewrite (proj2 (Z.eqb_neq _ _)). }
  rewrite H4, H6. cbn [out_panics out_bind]. rewrite !Nat2Z.id.
  destruct Hm as (_ & _ & _ & _ & _ & _ & _ & Hq & Ha). rewrite <-app_assoc in Hd.
  rewrite (skip_questions_enc _ _ _ _ Hq Hd) by lia. rewrite bind_of_ret.
  apply drop_pos in Hd. rewrite (read_answers_enc _ _ _ _ _ _ Ha Hd), bind_of_ret.
  rewrite verdict_collect by done. by destruct (collect _ _ _).
Qed.

(** What it accepts is an encoded message; it never panics. *)
Lemma parse_response_inv packet id : Forall byte_ok packet →
  holds (fun a => ∃ m rest, message_ok m ∧ packet = enc_message m ++ rest ∧ verdict m id = Ret a)
    (parse_response packet id).
Proof.
  intros Hb. unfold parse_response, DNS_HEADER_LEN. destruct (Nat.ltb_spec (length packet) 12) as [|Hl]; [done|].
  destruct packet as [|i0 [|i1 [|f0 [|f1 [|q0 [|q1 [|a0 [|a1 [|n0 [|n1 [|r0 [|r1 body]]]]]]]]]]]]; try (simpl in Hl; lia).
  set (packet := i0 :: _).
  repeat match goal with H : Forall _ (_ :: _) |- _ => apply Forall_cons in H as [? H] end.
  assert (Hbp : Forall byte_ok packet) by (unfold packet; solve_bytes).
  change (u16_at packet 0) with (Some (from_be_bytes [i0; i1])). change (u16_at packet 4) with (Some (from_be_bytes [q0; q1])).
  change (u16_at packet 6) with (Some (from_be_bytes [a0; a1])). change (packet !! 3%nat) with (Some f1).
  cbn [out_panics out_bind]. destruct (Z.eqb_spec (from_be_bytes [i0; i1]) id) as [Hid|]; [|done]. cbn [negb].
  destruct (Z.eqb_spec (Z.land f1 0x0F) 0) as [Hr|]; [|done]. cbn [negb].
  assert (Hpair : ∀ a b, byte_ok a → byte_ok b → in_width 16 (from_be_bytes [a; b]))
    by (intros; apply from_be_width; [solve_bytes|reflexivity]).
  eapply holds_then; [apply skip_questions_inv; [done|exact Hl]|].
  intros pos (qs & Hqk & Hqs & Hd & -> & Hle). eapply holds_then; [by apply read_answers_inv|].
  intros res (rs & rest & Hak & Hrs & Hd' & ->). destruct (collect rs [] 0) as [addresses ttl] eqn:Ec.
  destruct (Nat.eqb_spec (length addresses) 0) as [|Hne]; [done|].
  set (m := mkMessage (from_be_bytes [i0; i1]) (f0, f1) qs rs (from_be_bytes [n0; n1], from_be_bytes [r0; r1])).
  exists m, rest. assert (Hcq := Hpair q0 q1 ltac:(done) ltac:(done)). assert (Hca := Hpair a0 a1 ltac:(done) ltac:(done)).
  split_and!.
  - unfold message_ok, m. cbn [m_id m_flags m_questions m_answers m_counts fst snd].
    rewrite Hqk, Hak, !Z2Nat.id by zlia. split_and!; try done; by apply Hpair.
  - unfold enc_message, enc_header, m. cbn [m_id m_flags m_questions m_answers m_counts fst snd].
    rewrite Hqk, Hak, !Z2Nat.id by zlia. rewrite !to_from_2 by done. rewrite <-!app_assoc. cbn [app].
    unfold packet. do 12 f_equal. change body with (drop 12 packet). by rewrite Hd, Hd'.
  - rewrite verdict_collect by done. unfold m. cbn [m_answers m_id]. rewrite Ec.
    by rewrite (proj2 (Nat.eqb_neq _ _)).
Qed.

(** The message a query encodes. *)
Definition query_message (name : str) (tx_id : Z) : message :=
  mkMessage tx_id (0x01, 0x00)
    [mkQuestion (mkName (as_bytes <$> split (lit ".") name) Root) [0; 1; 0; 1]] [] (0, 0).

(** A host name: at most 253 bytes, labels of 1 to 63 bytes. *)
Definition host_name (name : str) : Prop :=
  (str_len name <= 253)%nat ∧ Forall (fun l => (1 <= str_len l <= 63)%nat) (split (lit ".") name).
#[export] Instance host_name_dec name : Decision (host_name name).
Proof. unfold host_name. apply _. Defined.

(** The reply of a server to [q]: the question echoed, one A record per
    address, owned by a pointer to the question. *)
Definition reply_message (q : message) (addrs : list bytes) (ttl : Z) : message :=
  mkMessage (m_id q) (0x81, 0x80) (m_questions q)
    ((fun a => mkResource (mkName [] (Pointer 0xC0 0x0C)) TYPE_A CLASS_IN ttl a) <$> addrs) (0, 0).

Lemma push_labels_ok labels : ∀ buf, Forall (fun l => (1 <= str_len l <= 63)%nat) labels →
  push_labels labels buf = Ok (buf ++ ((as_bytes <$> labels) ≫= enc_label)).
Proof.
  induction labels as [|l labels IH]; intros buf Hl; [cbn; by rewrite app_nil_r|].
  apply Forall_cons in Hl as [Hl Hls]. cbn [push_labels].
  rewrite (proj2 (Nat.ltb_ge _ _)) by lia. rewrite IH by done. rewrite fmap_cons, bind_cons.
  unfold str_len in *. rewrite wrap_small by zlia. rewrite <-!app_assoc. done.
Qed.

Lemma build_query_enc name tx_id : host_name name → build_query name tx_id = Ok (enc_message (query_message name tx_id)).
Proof.
  intros [Hl Hls]. unfold build_query. rewrite (proj2 (Nat.ltb_ge _ _)) by lia.
  rewrite push_labels_ok by done. cbn [result_bind]. f_equal.
  unfold enc_message, enc_header, query_message, TYPE_A, CLASS_IN.
  cbn [m_id m_flags m_questions m_answers m_counts fst snd]. rewrite bind_cons. cbn [mbind list_bind].
  rewrite !app_nil_r. unfold enc_question, enc_name. cbn [q_name q_type_class wn_labels wn_end enc_end].
  rewrite <-!app_assoc. done.
Qed.

Lemma query_message_ok name tx_id : host_name name → in_width 16 tx_id → message_ok (query_message name tx_id).
Proof.
  intros [Hl Hls] Hid. unfold message_ok, query_message. cbn [m_id m_flags m_questions m_answers m_counts fst snd length].
  split_and!; try (done || zlia). constructor; [|done]. split; [|done]. split; [|done]. cbn [q_name wn_labels].
  apply Forall_fmap. eapply Forall_impl; [exact Hls|]. unfold label_ok, str_len, compose. intros. lia.
Qed.

Lemma reply_message_ok q addrs ttl : message_ok q → in_width 32 ttl → in_width 16 (Z.of_nat (length addrs)) →
  Forall (fun a => length a = 4%nat) addrs → message_ok (reply_message q addrs ttl).
Proof.
  intros (Hid & _ & _ & Hq & _ & _ & _ & Hqs & _) Httl Hn Ha. unfold message_ok, reply_message.
  cbn [m_id m_flags m_questions m_answers m_counts fst snd]. rewrite length_fmap.
  split_and!; try (done || zlia). apply Forall_fmap. eapply Forall_impl; [exact Ha|].
  intros a E. unfold compose, resource_ok. cbn [rr_name rr_type rr_class rr_ttl rr_data]. rewrite E.
  split_and!; try done; unfold TYPE_A, CLASS_IN; zlia.
Qed.

Lemma reply_answer q addrs ttl : addrs ≠ [] → Forall (fun a => length a = 4%nat) addrs →
  answer_of (reply_message q addrs ttl) = Some (mkDnsAnswer (m_id q) addrs ttl).
Proof.
  intros Hne Ha. unfold answer_of, a_records, reply_message. cbn [m_answers m_id].
  set (f := fun a : bytes => _). assert (Hf : filter is_a_record (f <$> addrs) = f <$> addrs).
  { clear Hne. induction Ha as [|a l Ea Hl IH]; [done|]. rewrite fmap_cons, filter_cons_True by done. by rewrite IH. }
  rewrite Hf. destruct addrs as [|a addrs]; [done|]. rewrite fmap_cons. cbn [f rr_ttl]. repeat f_equal.
  rewrite <-fmap_cons, <-list_fmap_compose. rewrite <-(list_fmap_id (a :: addrs)) at 2. by apply list_fmap_ext.
Qed.

Lemma length_records rs : (length rs <= length (rs ≫= enc_resource))%nat.
Proof.
  induction rs as [|r rs IH]; [done|]. rewrite bind_cons, length_app. cbn [length].
  unfold enc_resource at 1. rewrite length_app. pose proof (length_enc_name (wn_labels (rr_name r)) (wn_end (rr_name r))).
  destruct (rr_name r). cbn [wn_labels wn_end] in *. lia.
Qed.

(** ** Properties *)

(** C36: The response parser is exact.  On every packet that starts with an
    encoded message it returns the verdict on that message (identifier, response
    code, A records and the first TTL); it never panics, whatever the bytes; and
    whatever it accepts is an encoded message with that verdict. *)
Theorem dns_parse_exact (packet : bytes) (id : Z) :
  Forall byte_ok packet →
  (∀ m rest, message_ok m → packet = enc_message m ++ rest → parse_response packet id = verdict m id) ∧
  parse_response packet id ≠ Panic ∧
  (∀ a, parse_response packet id = Ret a →
     ∃ m rest, message_ok m ∧ packet = enc_message m ++ rest ∧ verdict m id = Ret a).
Proof.
  intros Hb. pose proof (parse_response_inv packet id Hb) as Hinv. split_and!.
  - intros m rest Hm ->. by apply parse_response_enc.
  - by eapply holds_safe.
  - intros a E. by rewrite E in Hinv.
Qed.

(** A lookup of a host name sends a well-formed A query, and when the server
    echoes the question with up to 512 bytes of A records, returns exactly the
    addresses in order, with their TTL. *)
Theorem dns_lookup_roundtrip (name : str) (tx_id ttl : Z) (addrs : list bytes) (peer : SocketAddr) (sock : DnsSocket) :
  let q := query_message name tx_id in let r := reply_message q addrs ttl in
  host_name name → in_width 16 tx_id → in_width 32 ttl → addrs ≠ [] →
  Forall (fun a => length a = 4%nat) addrs → (length (enc_message r) <= MAX_DNS_PACKET)%nat →
  ds_bind sock = Ok () → ds_set_timeout sock = Ok () → ds_send sock (enc_message q) = Ok () →
  ds_recv sock (enc_message q) = Ok (enc_message r, peer) →
  message_ok q ∧ resolve name tx_id sock = Ret (mkDnsAnswer tx_id addrs ttl).
Proof.
  intros q r Hn Hid Httl Hne Ha Hlen Hb Ht Hs Hr. assert (Hq : message_ok q) by by apply query_message_ok.
  split; [done|]. unfold resolve. rewrite build_query_enc by done. fold q. rewrite Hb, Ht, Hs, Hr.
  rewrite take_ge by done. rewrite <-(app_nil_r (enc_message r)).
  assert (Hcount : in_width 16 (Z.of_nat (length addrs))).
  { pose proof (length_records (m_answers r)) as Hrs. revert Hlen. unfold enc_message, MAX_DNS_PACKET.
    rewrite !length_app. unfold r, reply_message in Hrs |- *. cbn [m_answers] in Hrs |- *. rewrite length_fmap in Hrs. zlia. }
  rewrite parse_response_enc by by apply reply_message_ok. unfold verdict.
  unfold r. rewrite reply_answer by done. cbn [m_id reply_message m_flags snd q query_message].
  by rewrite Z.eqb_refl.
Qed.

(** Neither the question, nor the owner and class of a record, nor the bit that
    marks a response is looked at: two messages with the same identifier,
    response code and record types, lifetimes and data get the same verdict. *)
Theorem dns_owner_unchecked (m m' : message) (rest rest' : bytes) (id : Z) :
  message_ok m → message_ok m' → m_id m = m_id m' →
  Z.land (m_flags m).2 0x0F = Z.land (m_flags m').2 0x0F →
  (fun r => (rr_type r, rr_ttl r, rr_data r)) <$> m_answers m
    = (fun r => (rr_type r, rr_ttl r, rr_data r)) <$> m_answers m' →
  parse_response (enc_message m ++ rest) id = parse_response (enc_message m' ++ rest') id.
Proof.
  intros Hm Hm' Hid Hrc Hrs. rewrite !parse_response_enc by done. unfold verdict. rewrite Hid, Hrc.
  assert (answer_of m = answer_of m') as ->; [|done]. unfold answer_of, a_records. rewrite Hid.
  generalize dependent (m_answers m'). intros rs'. generalize (m_answers m). intros rs Hrs.
  assert (Hf : (fun r => (rr_ttl r, rr_data r)) <$> filter is_a_record rs
             = (fun r => (rr_ttl r, rr_data r)) <$> filter is_a_record rs').
  { revert rs' Hrs. induction rs as [|r rs IH]; intros [|r' rs'] Hrs; try done.
    rewrite !fmap_cons in Hrs. injection Hrs as E1 E2 E3 Hrs. specialize (IH rs' Hrs).
    destruct (decide (is_a_record r)) as [Ha|Ha]; pose proof Ha as Ha'; unfold is_a_record in Ha'; rewrite E1, E3 in Ha'.
    - rewrite !filter_cons_True by done. rewrite !fmap_cons. congruence.
    - by rewrite !filter_cons_False by done. }
  destruct (filter is_a_record rs) as [|a l], (filter is_a_record rs') as [|a' l']; try done.
  rewrite !fmap_cons in *. injection Hf as E1 E2 Hl. rewrite E1, E2.
  apply (f_equal (fmap snd)) in Hl. rewrite <-!list_fmap_compose in Hl.
  assert (rr_data <$> l = rr_data <$> l') as -> by exact Hl. done.
Qed.

(** A trailing dot, the usual way to write a fully qualified name, makes a
    malformed query: the empty last label ends the name, and the server reads
    type 0 and class 256 with a byte left over. *)
Example trailing_dot_malformed :
  build_query (lit "example.com.") 7
  = Ok (enc_message (mkMessage 7 (1, 0)
          [mkQuestion (mkName [lit "example"; lit "com"] Root) [0; 0; 1; 0]] [] (0, 0)) ++ [1]).
Proof. vm_compute. reflexivity. Qed.

(** ** Witnesses *)

Definition demo_query : message := query_message (lit "vpn.example.com") 0x1234.
Definition demo_reply : message := reply_message demo_query [[192; 0; 2; 1]; [192; 0; 2; 2]] 300.

Lemma dns_parse_exact_witness :
  parse_response (enc_message demo_reply ++ [0]) 0x1234
  = Ret (mkDnsAnswer 0x1234 [[192; 0; 2; 1]; [192; 0; 2; 2]] 300).
Proof.
  assert (Hb : Forall byte_ok (enc_message demo_reply ++ [0])) by (apply (bool_decide_unpack _); vm_compute; exact I).
  rewrite (proj1 (dns_parse_exact _ 0x1234 Hb) demo_reply [0]); [vm_compute; reflexivity| |reflexivity].
  apply (bool_decide_unpack _); vm_compute; exact I.
Defined.

Definition demo_sock : DnsSocket :=
  mkDnsSocket (Ok ()) (Ok ()) (fun _ => Ok ()) (fun _ => Ok (enc_message demo_reply, mkSocketAddr (V4 [1; 1; 1; 1]) 53)).

Lemma dns_lookup_roundtrip_witness :
  resolve (lit "vpn.example.com") 0x1234 demo_sock
  = Ret (mkDnsAnswer 0x1234 [[192; 0; 2; 1]; [192; 0; 2; 2]] 300).
Proof.
  apply (dns_lookup_roundtrip (lit "vpn.example.com") 0x1234 300 [[192; 0; 2; 1]; [192; 0; 2; 2]]
    (mkSocketAddr (V4 [1; 1; 1; 1]) 53) demo_sock);
    try (apply (bool_decide_unpack _); vm_compute; exact I); try (vm_compute; reflexivity); try done.
Defined.

(** A spoofed packet: not a response, about another name, in class CHAOS. *)
Definition demo_spoof : message :=
  mkMessage 0x1234 (0, 0) [] [mkResource (mkName [lit "evil"] Root) TYPE_A 3 300 [192; 0; 2; 1];
                              mkResource (mkName [] Root) TYPE_A 3 300 [192; 0; 2; 2]] (0, 0).

Lemma dns_owner_unchecked_witness :
  parse_response (enc_message demo_reply ++ []) 0x1234 = parse_response (enc_message demo_spoof ++ []) 0x1234.
Proof.
  apply dns_owner_unchecked; try reflexivity; apply (bool_decide_unpack _); vm_compute; exact I.
Defined.
