(* ===== verification/DnsOverride.v ===== *)
(** * DNS resolver override

    [crates/desmos-core/src/net/resolver_hook.rs]: pointing the system resolver at
    the tunnel's servers, undoing it, and the guard that undoes it on drop.  The
    operating system is a world of files, of commands run so far and of the
    outcomes the calls to come will have; a file operation that fails may leave
    anything in its destination. *)

From stdpp Require Import base gmap numbers list strings.
From Stdlib Require Import ZArith Lia.
From S2P Require Import Prelude Str Wire Pipeline.

Inductive DnsOverrideError :=
| OverrideIo (e : IoError)
| Unsupported
| CommandFailed (msg : str).

Inductive DnsStateInner :=
| ResolvConf (backup_path : string)
| Scutil (service_name : str)
| Netsh (adapter_name : str).

(** The [cfg] the code is built for; Linux and FreeBSD share theirs. *)
Inductive Platform := LinuxOrFreeBsd | MacOs | Windows | OtherPlatform.

(** ** The operating system *)

(** A file operation succeeds, or fails with its destination left in any state. *)
Inductive fs_outcome := FsDone | FsFailed (e : IoError) (leftover : option bytes).

Record Output := mkOutput { out_success : bool; out_stdout : str; out_stderr : str }.
Record Invocation := mkInvocation { inv_argv : list str; inv_stdin : str }.

Record World := mkWorld {
  files : gmap string bytes;
  fs_script : list fs_outcome;
  ran : list Invocation;
  cmd_script : list (result Output IoError);
}.

Definition set_files (f : gmap string bytes) (w : World) : World := mkWorld f (fs_script w) (ran w) (cmd_script w).

(** The outcome of the next file operation; past the script they succeed. *)
Definition next_fs (w : World) : fs_outcome * World :=
  match fs_script w with
  | [] => (FsDone, w)
  | o :: s => (o, mkWorld (files w) s (ran w) (cmd_script w))
  end.

(** [fs::write]. *)
Definition fs_write (path : string) (content : bytes) (w : World) : World * result () IoError :=
  let '(o, w) := next_fs w in
  match o with
  | FsDone => (set_files (<[path := content]> (files w)) w, Ok ())
  | FsFailed e leftover => (set_files (partial_alter (fun _ => leftover) path (files w)) w, Err e)
  end.

(** [fs::copy]; a missing source is [ENOENT]. *)
Definition fs_copy (src dst : string) (w : World) : World * result () IoError :=
  match files w !! src with
  | None => (w, Err (OsError 2))
  | Some content => fs_write dst content w
  end.

(** [fs::remove_file]. *)
Definition fs_remove_file (path : string) (w : World) : World * result () IoError :=
  let '(o, w) := next_fs w in
  match o with
  | FsDone => (set_files (delete path (files w)) w, Ok ())
  | FsFailed e _ => (w, Err e)
  end.

Definition path_exists (path : string) (w : World) : bool := bool_decide (is_Some (files w !! path)).

(** Running a command to its end; past the script it succeeds silently. *)
Definition run_command (argv : list str) (stdin : str) (w : World) : World * result Output IoError :=
  let '(r, s) := match cmd_script w with [] => (Ok (mkOutput true [] []), []) | r :: s => (r, s) end in
  (mkWorld (files w) (fs_script w) (ran w ++ [mkInvocation argv stdin]) s, r).

(** ** Linux and FreeBSD *)

Definition RESOLV_CONF : string := "/etc/resolv.conf".
Definition RESOLV_BACKUP : string := "/etc/resolv.conf.desmos-backup".

Definition resolv_content (servers : list str) : bytes :=
  as_bytes (lit "# Generated by desmos " ++ [0x2014] ++ lit " dns_leak_protection" ++ [10]
            ++ (servers ≫= (fun server => lit "nameserver " ++ server ++ [10]))).

Definition apply_resolv_conf (servers : list str) (w : World) : World * result DnsStateInner DnsOverrideError :=
  let backup_path := RESOLV_BACKUP in
  let '(w, r) := if path_exists RESOLV_CONF w then fs_copy RESOLV_CONF backup_path w else (w, Ok ()) in
  match r with
  | Err e => (w, Err (OverrideIo e))
  | Ok _ =>
      match fs_write RESOLV_CONF (resolv_content servers) w with
      | (w, Err e) => (w, Err (OverrideIo e))
      | (w, Ok _) => (w, Ok (ResolvConf backup_path))
      end
  end.

Definition restore_resolv_conf (backup_path : string) (w : World) : World * result () DnsOverrideError :=
  if path_exists backup_path w then
    match fs_copy backup_path RESOLV_CONF w with
    | (w, Err e) => (w, Err (OverrideIo e))
    | (w, Ok _) => let '(w, _) := fs_remove_file backup_path w in (w, Ok ())
    end
  else (w, Ok ()).

(** ** macOS *)

(** [str::lines]. *)
Definition strip_cr (l : str) : str := match rev l with 13 :: r => rev r | _ => l end.
Definition str_lines (s : str) : list str :=
  match rev (split [10] s) with
  | [] :: ls => strip_cr <$> rev ls
  | last :: ls => (strip_cr <$> rev ls) ++ [last]
  | [] => []
  end.

Fixpoint first_service (ls : list str) : option str :=
  match ls with
  | [] => None
  | line :: ls =>
      let trimmed := trim line in
      if negb (length trimmed =? 0)%nat && negb (starts_with (lit "*") trimmed) then Some trimmed
      else first_service ls
  end.

Definition get_primary_service (w : World) : World * result str DnsOverrideError :=
  match run_command [lit "scutil"; lit "--dns"] [] w with
  | (w, Err e) => (w, Err (OverrideIo e))
  | (w, Ok _) =>
      match run_command [lit "networksetup"; lit "-listallnetworkservices"] [] w with
      | (w, Err e) => (w, Err (OverrideIo e))
      | (w, Ok output) =>
          match first_service (drop 1 (str_lines (out_stdout output))) with
          | Some name => (w, Ok name)
          | None => (w, Err (CommandFailed (lit "could not find primary network service")))
          end
      end
  end.

(** The two flush commands, whose outcome is ignored. *)
Definition flush_macos (w : World) : World :=
  let '(w, _) := run_command [lit "dscacheutil"; lit "-flushcache"] [] w in
  (run_command [lit "killall"; lit "-HUP"; lit "mDNSResponder"] [] w).1.

(** A [scutil] session fed with [script]. *)
Definition run_scutil (script failed : str) (w : World) : World * result () DnsOverrideError :=
  match run_command [lit "scutil"] script w with
  | (w, Err e) => (w, Err (OverrideIo e))
  | (w, Ok output) =>
      if negb (out_success output) then (w, Err (CommandFailed (failed ++ out_stderr output)))
      else (flush_macos w, Ok ())
  end.

Definition apply_scutil (servers : list str) (w : World) : World * result DnsStateInner DnsOverrideError :=
  match get_primary_service w with
  | (w, Err e) => (w, Err e)
  | (w, Ok service_name) =>
      let script := lit "d.init" ++ [10] ++ lit "d.add ServerAddresses * " ++ separated (lit " ") servers ++ [10]
                    ++ lit "set State:/Network/Service/" ++ service_name ++ lit "/DNS" ++ [10] in
      match run_scutil script (lit "scutil set DNS failed: ") w with
      | (w, Err e) => (w, Err e)
      | (w, Ok _) => (w, Ok (Scutil service_name))
      end
  end.

Definition restore_scutil (service_name : str) (w : World) : World * result () DnsOverrideError :=
  let script := lit "d.init" ++ [10] ++ lit "remove State:/Network/Service/" ++ service_name ++ lit "/DNS" ++ [10] in
  run_scutil script (lit "scutil restore DNS failed: ") w.

(** ** Windows *)

Definition netsh_name (adapter_name : str) : str := lit "name=" ++ [34] ++ adapter_name ++ [34].
Definition flush_windows (w : World) : World := (run_command [lit "ipconfig"; lit "/flushdns"] [] w).1.

(** The secondary servers: a failed command does not stop the loop, a command
    that cannot be started does. *)
Fixpoint add_secondary (adapter_name : str) (servers : list str) (w : World) : World * result () DnsOverrideError :=
  match servers with
  | [] => (w, Ok ())
  | server :: servers =>
      match run_command [lit "netsh"; lit "interface"; lit "ip"; lit "add"; lit "dns"; netsh_name adapter_name;
                         server; lit "index=2"] [] w with
      | (w, Err e) => (w, Err (OverrideIo e))
      | (w, Ok _) => add_secondary adapter_name servers w
      end
  end.

Definition apply_netsh (servers : list str) (adapter_name : str) (w : World)
    : World * result DnsStateInner DnsOverrideError :=
  let '(w, r) :=
    match servers with
    | [] => (w, Ok ())
    | primary :: _ =>
        match run_command [lit "netsh"; lit "interface"; lit "ip"; lit "set"; lit "dns"; netsh_name adapter_name;
                           lit "static"; primary; lit "primary"] [] w with
        | (w, Err e) => (w, Err (OverrideIo e))
        | (w, Ok output) =>
            if negb (out_success output)
            then (w, Err (CommandFailed (lit "netsh set primary DNS failed: " ++ out_stderr output)))
            else (w, Ok ())
        end
    end in
  match r with
  | Err e => (w, Err e)
  | Ok _ =>
      match add_secondary adapter_name (drop 1 servers) w with
      | (w, Err e) => (w, Err e)
      | (w, Ok _) => (flush_windows w, Ok (Netsh adapter_name))
      end
  end.

Definition restore_netsh (adapter_name : str) (w : World) : World * result () DnsOverrideError :=
  match run_command [lit "netsh"; lit "interface"; lit "ip"; lit "set"; lit "dns"; netsh_name adapter_name; lit "dhcp"]
          [] w with
  | (w, Err e) => (w, Err (OverrideIo e))
  | (w, Ok output) =>
      if negb (out_success output)
      then (w, Err (CommandFailed (lit "netsh restore DNS failed: " ++ out_stderr output)))
      else (flush_windows w, Ok ())
  end.

(** ** The entry points and the guard *)

Definition apply_override (platform : Platform) (servers : list str) (tunnel_iface : str) (w : World)
    : World * result DnsStateInner DnsOverrideError :=
  match servers with
  | [] => (w, Err (CommandFailed (lit "no DNS servers specified")))
  | _ =>
      match platform with
      | LinuxOrFreeBsd => apply_resolv_conf servers w
      | MacOs => apply_scutil servers w
      | Windows => apply_netsh servers tunnel_iface w
      | OtherPlatform => (w, Err Unsupported)
      end
  end.

Definition restore (state : DnsStateInner) (w : World) : World * result () DnsOverrideError :=
  match state with
  | ResolvConf backup_path => restore_resolv_conf backup_path w
  | Scutil service_name => restore_scutil service_name w
  | Netsh adapter_name => restore_netsh adapter_name w
  end.

Record DnsGuard := mkDnsGuard { guard_state : option DnsStateInner }.

Definition DnsGuard_new (state : DnsStateInner) : DnsGuard := mkDnsGuard (Some state).
Definition DnsGuard_disarm (g : DnsGuard) : DnsGuard := mkDnsGuard None.

(** [Drop]: the guard is gone afterwards, its state taken. *)
Definition DnsGuard_drop (g : DnsGuard) (w : World) : World :=
  match guard_state g with
  | Some state => (restore state w).1
  | None => w
  end.

(** [restore(mut self)]: takes the state, and the emptied guard is dropped. *)
Definition DnsGuard_restore (g : DnsGuard) (w : World) : World * result () DnsOverrideError :=
  let '(w, r) := match guard_state g with Some s => restore s w | None => (w, Ok ()) end in
  (DnsGuard_drop (mkDnsGuard None) w, r).

(** ** Lemmas *)

(** The next [n] file operations succeed. *)
Definition fs_healthy (n : nat) (w : World) : Prop := take n (fs_script w) = replicate (Nat.min n (length (fs_script w))) FsDone.

Lemma fs_healthy_next n w : fs_healthy (S n) w → ∃ w', next_fs w = (FsDone, w') ∧ files w' = files w ∧ fs_healthy n w'.
Proof.
  unfold fs_healthy, next_fs. destruct (fs_script w) as [|o s] eqn:E.
  - intros _. exists w. rewrite E. split_and!; [done|done|by destruct n].
  - cbn [take length Nat.min replicate]. intros [= -> H]. eexists. split_and!; [done|done|exact H].
Qed.

Lemma fs_write_healthy n path content w : fs_healthy (S n) w →
  ∃ w', fs_write path content w = (w', Ok ()) ∧ files w' = <[path := content]> (files w) ∧ fs_healthy n w'.
Proof.
  intros (w' & E & Hf & Hn)%fs_healthy_next. unfold fs_write. rewrite E. eexists. split_and!; [done|cbn; by rewrite Hf|exact Hn].
Qed.

Lemma fs_copy_healthy n src dst content w : fs_healthy (S n) w → files w !! src = Some content →
  ∃ w', fs_copy src dst w = (w', Ok ()) ∧ files w' = <[dst := content]> (files w) ∧ fs_healthy n w'.
Proof. intros Hn Hs. unfold fs_copy. rewrite Hs. by apply fs_write_healthy. Qed.

Lemma path_exists_some path w c : files w !! path = Some c → path_exists path w = true.
Proof. intros E. unfold path_exists. rewrite E. apply bool_decide_true. by eexists. Qed.

Lemma path_exists_none path w : files w !! path = None → path_exists path w = false.
Proof. intros E. unfold path_exists. rewrite E. apply bool_decide_false. by intros []. Qed.

Lemma conf_ne_backup : RESOLV_CONF ≠ RESOLV_BACKUP.
Proof. done. Qed.

(** [apply] where the file exists and no operation fails. *)
Lemma apply_linux_ok n servers iface w content : servers ≠ [] → fs_healthy (S (S n)) w → files w !! RESOLV_CONF = Some content →
  ∃ w', apply_override LinuxOrFreeBsd servers iface w = (w', Ok (ResolvConf RESOLV_BACKUP)) ∧
    files w' = <[RESOLV_CONF := resolv_content servers]> (<[RESOLV_BACKUP := content]> (files w)) ∧ fs_healthy n w'.
Proof.
  intros Hs Hn Hc. unfold apply_override. destruct servers as [|s0 servers]; [done|]. unfold apply_resolv_conf.
  rewrite (path_exists_some _ _ _ Hc). destruct (fs_copy_healthy _ _ RESOLV_BACKUP _ _ Hn Hc) as (w1 & -> & Hf1 & Hn1).
  destruct (fs_write_healthy _ RESOLV_CONF (resolv_content (s0 :: servers)) w1 Hn1) as (w2 & -> & Hf2 & Hn2).
  exists w2. rewrite Hf2, Hf1. done.
Qed.

(** [restore] where the backup exists and the copy succeeds. *)
Lemma restore_linux_ok n w content : fs_healthy (S (S n)) w → files w !! RESOLV_BACKUP = Some content →
  ∃ w', restore (ResolvConf RESOLV_BACKUP) w = (w', Ok ()) ∧
    files w' = delete RESOLV_BACKUP (<[RESOLV_CONF := content]> (files w)) ∧ fs_healthy n w'.
Proof.
  intros Hn Hb. cbn [restore]. unfold restore_resolv_conf. rewrite (path_exists_some _ _ _ Hb).
  destruct (fs_copy_healthy _ _ RESOLV_CONF _ _ Hn Hb) as (w1 & -> & Hf1 & Hn1).
  apply fs_healthy_next in Hn1 as (w2 & E & Hf2 & Hn2). unfold fs_remove_file. rewrite E.
  eexists. split_and!; [done|cbn; by rewrite Hf2, Hf1|exact Hn2].
Qed.

Lemma guard_drop_restore g w : DnsGuard_drop g w = (DnsGuard_restore g w).1.
Proof. unfold DnsGuard_drop, DnsGuard_restore. destruct (guard_state g) as [s|]; [|done]. by destruct (restore s w). Qed.

(** ** Properties *)

(** The override is undone exactly, on Linux and FreeBSD: while it is active
    the resolver configuration names the given servers in order; dropping the
    guard, or restoring through it, gives back the files as they were, and a
    disarmed guard leaves the override in place. *)
Theorem dns_override_restores (servers : list str) (iface : str) (w : World) (content : bytes) :
  servers ≠ [] → fs_healthy 4 w → files w !! RESOLV_CONF = Some content → files w !! RESOLV_BACKUP = None →
  ∃ w' st, apply_override LinuxOrFreeBsd servers iface w = (w', Ok st) ∧
    files w' !! RESOLV_CONF = Some (resolv_content servers) ∧
    files (DnsGuard_drop (DnsGuard_new st) w') = files w ∧
    (∃ w'', DnsGuard_restore (DnsGuard_new st) w' = (w'', Ok ()) ∧ files w'' = files w) ∧
    DnsGuard_drop (DnsGuard_disarm (DnsGuard_new st)) w' = w'.
Proof.
  intros Hs Hn Hc Hb. destruct (apply_linux_ok 2 servers iface w content Hs Hn Hc) as (w1 & E & Hf & Hn1).
  exists w1, (ResolvConf RESOLV_BACKUP). pose proof conf_ne_backup as Hne.
  destruct (restore_linux_ok 0 w1 content Hn1) as (w2 & Er & Hf2 & _).
  { by rewrite Hf, lookup_insert_ne, lookup_insert_eq. }
  assert (Hback : files w2 = files w).
  { rewrite Hf2, Hf. rewrite insert_insert_eq, delete_insert_ne, delete_insert_id by done. by apply insert_id. }
  split_and!; [done|by rewrite Hf, lookup_insert_eq| | |done].
  - rewrite guard_drop_restore. unfold DnsGuard_restore. cbn [DnsGuard_new guard_state]. by rewrite Er.
  - exists w2. unfold DnsGuard_restore. cbn [DnsGuard_new guard_state]. by rewrite Er.
Qed.

(** A second override without a restore in between, as after a crash, copies the
    generated file over the backup: the restore then reinstates the first
    override's servers, and the original configuration is in no file any more. *)
Theorem reapplied_override_loses_original (servers1 servers2 : list str) (iface : str) (w : World) (content : bytes) :
  servers1 ≠ [] → servers2 ≠ [] → fs_healthy 6 w → files w !! RESOLV_CONF = Some content →
  ∃ w1 st1 w2 st2, apply_override LinuxOrFreeBsd servers1 iface w = (w1, Ok st1) ∧
    apply_override LinuxOrFreeBsd servers2 iface w1 = (w2, Ok st2) ∧
    files (DnsGuard_drop (DnsGuard_new st2) w2)
      = delete RESOLV_BACKUP (<[RESOLV_CONF := resolv_content servers1]> (files w)).
Proof.
  intros H1 H2 Hn Hc. destruct (apply_linux_ok 4 servers1 iface w content H1 Hn Hc) as (w1 & E1 & Hf1 & Hn1).
  assert (Hc1 : files w1 !! RESOLV_CONF = Some (resolv_content servers1)) by by rewrite Hf1, lookup_insert_eq.
  destruct (apply_linux_ok 2 servers2 iface w1 _ H2 Hn1 Hc1) as (w2 & E2 & Hf2 & Hn2).
  pose proof conf_ne_backup as Hne.
  destruct (restore_linux_ok 0 w2 (resolv_content servers1) Hn2) as (w3 & Er & Hf3 & _).
  { by rewrite Hf2, lookup_insert_ne, lookup_insert_eq. }
  exists w1, (ResolvConf RESOLV_BACKUP), w2, (ResolvConf RESOLV_BACKUP). split_and!; [done|done|]. rewrite guard_drop_restore. unfold DnsGuard_restore.
  cbn [DnsGuard_new guard_state]. rewrite Er. cbn [fst DnsGuard_drop guard_state].
  rewrite Hf3, Hf2, Hf1. apply map_eq. intros i.
  destruct (decide (i = RESOLV_BACKUP)) as [->|]; [by rewrite !lookup_delete_eq|].
  rewrite !lookup_delete_ne by done.
  destruct (decide (i = RESOLV_CONF)) as [->|]; [by rewrite !lookup_insert_eq|]. by rewrite !lookup_insert_ne.
Qed.

(** When the new configuration cannot be written, [apply] fails and hands out no
    state: the broken file stays, with the original only in the backup that no
    guard will restore. *)
Theorem failed_override_not_rolled_back (servers : list str) (iface : str) (w : World) (content : bytes)
    (e : IoError) (leftover : option bytes) (later : list fs_outcome) :
  servers ≠ [] → files w !! RESOLV_CONF = Some content → fs_script w = FsDone :: FsFailed e leftover :: later →
  ∃ w', apply_override LinuxOrFreeBsd servers iface w = (w', Err (OverrideIo e)) ∧
    files w' !! RESOLV_CONF = leftover ∧ files w' !! RESOLV_BACKUP = Some content.
Proof.
  intros Hs Hc Hscript. unfold apply_override. destruct servers as [|s0 servers]; [done|]. unfold apply_resolv_conf.
  rewrite (path_exists_some _ _ _ Hc). unfold fs_copy. rewrite Hc. unfold fs_write at 1, next_fs at 1. rewrite Hscript.
  unfold fs_write, next_fs. cbn [fs_script set_files files]. eexists. split_and!; [done|..]; cbn [files set_files].
  - by rewrite lookup_partial_alter_eq.
  - rewrite lookup_partial_alter_ne by done. by rewrite lookup_insert_eq.
Qed.

(** Where there was no resolver configuration, the override is never undone. *)
Theorem override_without_original_stays (servers : list str) (iface : str) (w : World) :
  servers ≠ [] → fs_healthy 1 w → files w !! RESOLV_CONF = None → files w !! RESOLV_BACKUP = None →
  ∃ w' st, apply_override LinuxOrFreeBsd servers iface w = (w', Ok st) ∧
    DnsGuard_drop (DnsGuard_new st) w' = w' ∧ files w' !! RESOLV_CONF = Some (resolv_content servers).
Proof.
  intros Hs Hn Hc Hb. unfold apply_override. destruct servers as [|s0 servers]; [done|]. unfold apply_resolv_conf.
  rewrite (path_exists_none _ _ Hc).
  destruct (fs_write_healthy _ RESOLV_CONF (resolv_content (s0 :: servers)) w Hn) as (w1 & -> & Hf & _).
  eexists _, _. split_and!; [done| |by rewrite Hf, lookup_insert_eq].
  unfold DnsGuard_drop. cbn [DnsGuard_new guard_state restore]. unfold restore_resolv_conf.
  rewrite path_exists_none; [done|]. rewrite Hf. by rewrite lookup_insert_ne.
Qed.

(** The macOS and Windows commands, in the order they are run. *)
Example netsh_commands :
  (fun i => inv_argv i) <$> ran (apply_override Windows [lit "10.0.0.1"; lit "10.0.0.2"] (lit "Desmos") (mkWorld ∅ [] [] [])).1
  = [[lit "netsh"; lit "interface"; lit "ip"; lit "set"; lit "dns"; netsh_name (lit "Desmos"); lit "static"; lit "10.0.0.1"; lit "primary"];
     [lit "netsh"; lit "interface"; lit "ip"; lit "add"; lit "dns"; netsh_name (lit "Desmos"); lit "10.0.0.2"; lit "index=2"];
     [lit "ipconfig"; lit "/flushdns"]].
Proof. vm_compute. reflexivity. Qed.

Example scutil_service :
  (get_primary_service (mkWorld ∅ [] []
     [Ok (mkOutput true [] []); Ok (mkOutput true (lit "header" ++ [10] ++ lit "*Off" ++ [13; 10] ++ lit "Wi-Fi" ++ [10]) [])])).2
  = Ok (lit "Wi-Fi").
Proof. vm_compute. reflexivity. Qed.

(** ** Witnesses *)

Definition demo_world : World := mkWorld {[ RESOLV_CONF := lit "nameserver 9.9.9.9" ]} [] [] [].

Lemma dns_override_restores_witness :
  ∃ w' st, apply_override LinuxOrFreeBsd [lit "10.8.0.1"] (lit "desmos0") demo_world = (w', Ok st) ∧
    files (DnsGuard_drop (DnsGuard_new st) w') = files demo_world.
Proof.
  destruct (dns_override_restores [lit "10.8.0.1"] (lit "desmos0") demo_world (lit "nameserver 9.9.9.9"))
    as (w' & st & E & _ & Hd & _); [done|reflexivity|reflexivity|reflexivity|]. by exists w', st.
Defined.

Lemma reapplied_override_loses_original_witness :
  ∃ w1 st1 w2 st2, apply_override LinuxOrFreeBsd [lit "10.8.0.1"] [] demo_world = (w1, Ok st1) ∧
    apply_override LinuxOrFreeBsd [lit "10.8.0.2"] [] w1 = (w2, Ok st2) ∧
    files (DnsGuard_drop (DnsGuard_new st2) w2)
      = delete RESOLV_BACKUP (<[RESOLV_CONF := resolv_content [lit "10.8.0.1"]]> (files demo_world)).
Proof. apply (reapplied_override_loses_original _ _ _ demo_world (lit "nameserver 9.9.9.9")); done. Defined.

Lemma failed_override_not_rolled_back_witness :
  ∃ w', apply_override LinuxOrFreeBsd [lit "10.8.0.1"] []
          (mkWorld (files demo_world) [FsDone; FsFailed (OsError 28) (Some [])] [] []) = (w', Err (OverrideIo (OsError 28))) ∧
    files w' !! RESOLV_CONF = Some [] ∧ files w' !! RESOLV_BACKUP = Some (lit "nameserver 9.9.9.9").
Proof. by apply (failed_override_not_rolled_back _ _ _ _ (OsError 28) (Some []) []). Defined.

Lemma override_without_original_stays_witness :
  ∃ w' st, apply_override LinuxOrFreeBsd [lit "10.8.0.1"] [] (mkWorld ∅ [] [] []) = (w', Ok st) ∧
    DnsGuard_drop (DnsGuard_new st) w' = w' ∧ files w' !! RESOLV_CONF = Some (resolv_content [lit "10.8.0.1"]).
Proof. by apply override_without_original_stays. Defined.
