(* ===== verification/Pmtud.v ===== *)
(** * Path MTU discovery

    [crates/desmos-core/src/net/pmtud.rs]: the per-link state machine that
    shrinks the probe size until a probe is acknowledged.  A path is described
    by the largest packet it carries; a round sends the probe the machine asks
    for and reports what the path did with it.  The theorems give the state in
    which discovery ends, the number of rounds it needs, and the bounds every
    interleaving of acknowledgements, timeouts and resets keeps. *)

From stdpp Require Import base numbers list relations.
From Stdlib Require Import ZArith Lia.
From S2P Require Import Prelude.

Definition MIN_MTU : Z := 1280.
Definition STEP : Z := 64.
Definition DEFAULT_MAX_ATTEMPTS : Z := 5.

Inductive PmtudState := Probing | Converged (size : Z) | PmtudFailed.

#[export] Instance PmtudState_eq_dec : EqDecision PmtudState.
Proof. solve_decision. Defined.

Record Pmtud := mkPmtud {
  pm_state : PmtudState;
  current_probe : Z;
  attempts : Z;
  max_attempts : Z;
}.

Definition Pmtud_with_max_attempts (initial_mtu max_attempts : Z) : Pmtud :=
  mkPmtud Probing (Z.max initial_mtu MIN_MTU) 0 max_attempts.

Definition Pmtud_new (initial_mtu : Z) : Pmtud :=
  mkPmtud Probing (Z.max initial_mtu MIN_MTU) 0 DEFAULT_MAX_ATTEMPTS.

Definition Pmtud_default : Pmtud := Pmtud_new 1500.

Definition current_probe_size (s : Pmtud) : Z :=
  match pm_state s with
  | Probing => current_probe s
  | Converged size => size
  | PmtudFailed => MIN_MTU
  end.

Definition mtu (s : Pmtud) : Z :=
  match pm_state s with
  | Probing => current_probe s
  | Converged size => size
  | PmtudFailed => MIN_MTU
  end.

Definition is_done (s : Pmtud) : bool :=
  match pm_state s with Probing => false | _ => true end.

Definition Pmtud_on_success (probed_size : Z) (s : Pmtud) : Pmtud :=
  match pm_state s with
  | PmtudFailed => s
  | _ => mkPmtud (Converged probed_size) (current_probe s) 0 (max_attempts s)
  end.

Definition Pmtud_on_timeout (probed_size : Z) (s : Pmtud) : Pmtud :=
  if is_done s then s
  else if negb (probed_size =? current_probe s) then s
  else
    let attempts' := saturating_add 8 (attempts s) 1 in
    if current_probe s <=? MIN_MTU then
      mkPmtud (if max_attempts s <=? attempts' then PmtudFailed else pm_state s)
              (current_probe s) attempts' (max_attempts s)
    else
      let next := saturating_sub (current_probe s) STEP in
      mkPmtud (pm_state s) (Z.max next MIN_MTU) attempts' (max_attempts s).

Definition Pmtud_reset (initial_mtu : Z) (s : Pmtud) : Pmtud :=
  mkPmtud Probing (Z.max initial_mtu MIN_MTU) 0 (max_attempts s).

(** ** Discovery on a path

    [path_round p] is one probe on a path that carries packets of up to [p]
    bytes and silently drops larger ones. *)

Definition path_round (p : Z) (s : Pmtud) : Pmtud :=
  if is_done s then s
  else
    let size := current_probe_size s in
    if size <=? p then Pmtud_on_success size s else Pmtud_on_timeout size s.

(** The number of steps from [start] down to the floor. *)
Definition ladder (start : Z) : Z := (start - MIN_MTU + STEP - 1) / STEP.

(** The rounds a path below the floor needs before the machine gives up. *)
Definition rounds_to_fail (start max : Z) : Z := Z.max (ladder start + 1) max.

(** The size after [k] silent probes. *)
Definition rung (start k : Z) : Z := Z.max (start - STEP * k) MIN_MTU.

Lemma ladder_bounds start :
  MIN_MTU <= start → 0 <= ladder start ∧ start - MIN_MTU <= STEP * ladder start < start - MIN_MTU + STEP.
Proof.
  unfold ladder, STEP, MIN_MTU. intros H.
  pose proof (Z.div_mod (start - 1280 + 64 - 1) 64 ltac:(lia)).
  pose proof (Z.mod_pos_bound (start - 1280 + 64 - 1) 64 ltac:(lia)). lia.
Qed.

(** A machine that has seen [k] timeouts and is still probing. *)
Definition after_timeouts (start max k : Z) : Pmtud :=
  mkPmtud Probing (rung start k) (Z.min k (umax 8)) max.

Lemma round_shrinks start max p k :
  MIN_MTU <= start → 0 <= k → 0 <= max <= umax 8 → p < rung start k →
  k + 1 < rounds_to_fail start max →
  path_round p (after_timeouts start max k) = after_timeouts start max (k + 1).
Proof.
  intros Hs Hk Hm Hp Hr. pose proof (ladder_bounds start Hs) as [Hl0 Hl].
  unfold path_round, after_timeouts, current_probe_size; cbn [is_done pm_state current_probe].
  destruct (Z.leb_spec (rung start k) p); [lia|].
  unfold Pmtud_on_timeout; cbn [is_done pm_state current_probe attempts max_attempts].
  rewrite Z.eqb_refl; cbn [negb].
  unfold rounds_to_fail, rung, saturating_sub, saturating_add, umax, MIN_MTU, STEP in *.
  change (2 ^ 8) with 256 in *.
  split_ifs; f_equal; try lia.
Qed.

Lemma round_converges start max p k :
  rung start k <= p →
  pm_state (path_round p (after_timeouts start max k)) = Converged (rung start k).
Proof.
  intros Hp. unfold path_round, after_timeouts, current_probe_size; cbn [is_done pm_state current_probe].
  by destruct (Z.leb_spec (rung start k) p); [|lia].
Qed.

Lemma round_fails start max p k :
  MIN_MTU <= start → 0 <= k → 0 <= max <= umax 8 → p < MIN_MTU →
  k + 1 = rounds_to_fail start max →
  pm_state (path_round p (after_timeouts start max k)) = PmtudFailed.
Proof.
  intros Hs Hk Hm Hp Hr. pose proof (ladder_bounds start Hs) as [Hl0 Hl].
  unfold path_round, after_timeouts, current_probe_size; cbn [is_done pm_state current_probe].
  unfold rounds_to_fail, rung, umax, MIN_MTU, STEP in *. change (2 ^ 8) with 256 in *.
  destruct (Z.leb_spec (Z.max (start - 64 * k) 1280) p); [lia|].
  unfold Pmtud_on_timeout, saturating_add, umax, MIN_MTU; cbn [is_done pm_state current_probe attempts max_attempts].
  change (2 ^ 8) with 256. rewrite Z.eqb_refl; cbn [negb].
  split_ifs; cbn [pm_state]; try done; lia.
Qed.

(** Until the first rung the path carries, every round is one step down. *)
Lemma rounds_shrink start max p (k : nat) :
  MIN_MTU <= start → 0 <= max <= umax 8 →
  (∀ j : nat, (j < k)%nat → p < rung start (Z.of_nat j)) →
  Z.of_nat k < rounds_to_fail start max →
  Nat.iter k (path_round p) (after_timeouts start max 0) = after_timeouts start max (Z.of_nat k).
Proof.
  intros Hs Hm. induction k as [|k IH]; intros Hp Hr; [done|].
  rewrite Nat.iter_succ. rewrite IH by (try (intros; apply Hp); lia).
  rewrite round_shrinks; [f_equal; lia|lia|lia|lia|apply Hp; lia|lia].
Qed.

Lemma done_stays p k s : is_done s = true → Nat.iter k (path_round p) s = s.
Proof.
  intros Hd. induction k as [|k IH]; [done|]. rewrite Nat.iter_succ.
  rewrite IH. unfold path_round. by rewrite Hd.
Qed.

Lemma with_max_attempts_start initial max :
  Pmtud_with_max_attempts initial max = after_timeouts (Z.max initial MIN_MTU) max 0.
Proof. unfold Pmtud_with_max_attempts, after_timeouts, rung, MIN_MTU. f_equal; lia. Qed.

(** The silent probes before the first one that passes. *)
Definition misses (start p : Z) : Z :=
  if start <=? p then 0 else Z.min ((start - p + STEP - 1) / STEP) (ladder start).

Lemma misses_spec start p :
  MIN_MTU <= start → MIN_MTU <= p →
  0 <= misses start p <= ladder start ∧ rung start (misses start p) <= p ∧
  (∀ j, 0 <= j < misses start p → p < rung start j) ∧
  (rung start (misses start p) = start ∨ p < rung start (misses start p) + STEP).
Proof.
  intros Hs Hp. pose proof (ladder_bounds start Hs) as [Hl0 Hl].
  unfold misses, rung, STEP, MIN_MTU in *. destruct (Z.leb_spec start p).
  - split_and!; [lia|lia|lia|lia|left; lia].
  - pose proof (Z.div_mod (start - p + 64 - 1) 64 ltac:(lia)).
    pose proof (Z.mod_pos_bound (start - p + 64 - 1) 64 ltac:(lia)).
    set (q := (start - p + 64 - 1) / 64) in *. clearbody q.
    split_and!; [lia|lia|lia|intros j Hj; lia|right; lia].
Qed.

Lemma discovers_converged initial max p :
  0 <= max <= umax 8 → MIN_MTU <= p →
  let start := Z.max initial MIN_MTU in
  let n := Z.to_nat (misses start p + 1) in
  pm_state (Nat.iter n (path_round p) (Pmtud_with_max_attempts initial max))
    = Converged (rung start (misses start p)).
Proof.
  intros Hm Hp start n. rewrite with_max_attempts_start. fold start.
  assert (Hs : MIN_MTU <= start) by (unfold start; lia).
  destruct (misses_spec start p Hs Hp) as (Hk & Hle & Hlt & _).
  subst n. replace (Z.to_nat (misses start p + 1)) with (S (Z.to_nat (misses start p))) by lia.
  rewrite Nat.iter_succ. rewrite rounds_shrink; [|lia|lia| |].
  - rewrite Z2Nat.id by lia. by apply round_converges.
  - intros j Hj. apply Hlt. lia.
  - unfold rounds_to_fail. lia.
Qed.

Lemma discovers_failed initial max p :
  0 <= max <= umax 8 → p < MIN_MTU →
  let start := Z.max initial MIN_MTU in
  let s n := Nat.iter n (path_round p) (Pmtud_with_max_attempts initial max) in
  (∀ n : nat, Z.of_nat n < rounds_to_fail start max → is_done (s n) = false) ∧
  pm_state (s (Z.to_nat (rounds_to_fail start max))) = PmtudFailed.
Proof.
  intros Hm Hp start s. assert (Hs : MIN_MTU <= start) by (unfold start; lia).
  pose proof (ladder_bounds start Hs) as [Hl0 _].
  assert (Hlow : ∀ j, p < rung start j) by (intros; unfold rung; lia).
  assert (Hn : ∀ n : nat, Z.of_nat n < rounds_to_fail start max →
                 s n = after_timeouts start max (Z.of_nat n)).
  { intros n Hn. unfold s. rewrite with_max_attempts_start. apply rounds_shrink; auto. }
  assert (0 < rounds_to_fail start max) by (unfold rounds_to_fail; lia).
  split; [intros n Hlt; by rewrite Hn|].
  replace (Z.to_nat (rounds_to_fail start max)) with (S (Z.to_nat (rounds_to_fail start max - 1))) by lia.
  unfold s; rewrite Nat.iter_succ. fold (s (Z.to_nat (rounds_to_fail start max - 1))).
  rewrite Hn by lia. apply round_fails; lia.
Qed.

(** path MTU discovery terminates with the right answer on every path.
    On a path that carries [p >= 1280] bytes the machine converges, within
    [misses + 1] probes (at most one per 64-byte step down to the floor), on a size
    the path carries that is the initial size or less than one [STEP] below
    [p].  On a path below the floor it ends [Failed] after exactly
    [max (ladder + 1) max_attempts] silent probes, and not before, and then
    reports 1280. *)
Theorem pmtud_discovers (initial max p : Z) (Hmax : 0 <= max <= umax 8) :
  let start := Z.max initial MIN_MTU in
  let s n := Nat.iter n (path_round p) (Pmtud_with_max_attempts initial max) in
  (MIN_MTU <= p →
     ∃ m, let n := Z.to_nat (misses start p + 1) in
          (n <= Z.to_nat (ladder start + 1))%nat ∧
          (∀ k, pm_state (s (k + n)%nat) = Converged m) ∧ mtu (s n) = m ∧
          MIN_MTU <= m <= p ∧ (m = start ∨ p < m + STEP)) ∧
  (p < MIN_MTU →
     (∀ n : nat, is_done (s n) = true ↔ rounds_to_fail start max <= Z.of_nat n) ∧
     ∀ n : nat, rounds_to_fail start max <= Z.of_nat n → mtu (s n) = MIN_MTU).
Proof.
  intros start s. assert (Hs : MIN_MTU <= start) by (unfold start; lia). split; intros Hp.
  - destruct (misses_spec start p Hs Hp) as (Hk & Hle & _ & Hor).
    exists (rung start (misses start p)). cbv zeta.
    pose proof (discovers_converged initial max p Hmax Hp) as Hc. cbv zeta in Hc. fold start in Hc.
    split_and!; [lia| | |unfold rung; lia|done|done].
    + intros k. unfold s. rewrite Nat.iter_add, done_stays; [done|]. unfold is_done. by rewrite Hc.
    + unfold mtu, s. by rewrite Hc.
  - destruct (discovers_failed initial max p Hmax Hp) as [Hbusy Hfail]. cbv zeta in *. fold start in Hbusy, Hfail.
    assert (Hend : ∀ n : nat, rounds_to_fail start max <= Z.of_nat n → pm_state (s n) = PmtudFailed).
    { intros n Hn. replace n with ((n - Z.to_nat (rounds_to_fail start max)) +
        Z.to_nat (rounds_to_fail start max))%nat by lia.
      unfold s. rewrite Nat.iter_add, done_stays; [done|]. unfold is_done. by rewrite Hfail. }
    split; [intros n; split|].
    + intros Hd. destruct (Z.lt_ge_cases (Z.of_nat n) (rounds_to_fail start max)) as [Hlt|]; [|done].
      specialize (Hbusy n Hlt). unfold s in Hd. congruence.
    + intros Hn. unfold is_done. by rewrite Hend.
    + intros n Hn. unfold mtu. by rewrite Hend.
Qed.

Lemma pmtud_discovers_witness :
  (∃ m, pm_state (Nat.iter 3 (path_round 1400) (Pmtud_with_max_attempts 1500 5)) = Converged m ∧
        1336 < m <= 1400) ∧
  is_done (Nat.iter 5 (path_round 1000) (Pmtud_with_max_attempts 1500 5)) = true.
Proof.
  split.
  - destruct (proj1 (pmtud_discovers 1500 5 1400 ltac:(vm_compute; split; discriminate)) ltac:(vm_compute; discriminate))
      as (m & _ & Hk & _ & Hm & Ho).
    exists m. split; [exact (Hk O)|]. unfold MIN_MTU, STEP in *. lia.
  - apply (proj2 (pmtud_discovers 1500 5 1000 ltac:(vm_compute; split; discriminate)) ltac:(vm_compute; reflexivity)).
    vm_compute; discriminate.
Defined.

(** ** Bounds under every interleaving

    Acknowledgements and timeouts arrive late and out of order.  The probe
    loop acknowledges only sizes it has sent; [sent] collects them. *)

Inductive pmtud_step : Pmtud * list Z → Pmtud * list Z → Prop :=
| pm_send s sent : pmtud_step (s, sent) (s, current_probe_size s :: sent)
| pm_ack s sent size : size ∈ sent → pmtud_step (s, sent) (Pmtud_on_success size s, sent)
| pm_timeout s sent size : pmtud_step (s, sent) (Pmtud_on_timeout size s, sent)
| pm_reset s sent initial :
    in_width 16 initial → pmtud_step (s, sent) (Pmtud_reset initial s, sent).

Definition mtu_ok (z : Z) : Prop := MIN_MTU <= z <= umax 16.

Definition pmtud_inv (c : Pmtud * list Z) : Prop :=
  mtu_ok (mtu c.1) ∧ mtu_ok (current_probe c.1) ∧ in_width 8 (attempts c.1) ∧ Forall mtu_ok c.2.

Lemma start_ok initial : in_width 16 initial → mtu_ok (Z.max initial MIN_MTU).
Proof. unfold mtu_ok, MIN_MTU. zlia. Qed.

Lemma pmtud_step_inv c c' : pmtud_step c c' → pmtud_inv c → pmtud_inv c'.
Proof.
  intros Hstep (Hm & Hc & Ha & Hs). destruct Hstep as [s sent|s sent size Hin|s sent size|s sent initial Hi]; cbn [fst snd] in *.
  - unfold pmtud_inv; cbn [fst snd]. split_and!; [done..|]. by constructor.
  - rewrite Forall_forall in Hs. unfold Pmtud_on_success, pmtud_inv; cbn [fst snd]. rewrite <- Forall_forall in Hs.
    destruct (pm_state s) eqn:E; cbn [mtu pm_state current_probe attempts];
      split_and!; try done; try (by apply in_width_0); apply (proj1 (Forall_forall _ _) Hs); done.
  - unfold Pmtud_on_timeout, pmtud_inv; cbn [fst snd].
    destruct (is_done s) eqn:Ed; [done|]. destruct (negb _); [done|].
    assert (in_width 8 (saturating_add 8 (attempts s) 1)) by (apply saturating_add_range; zlia).
    unfold is_done in Ed. destruct (pm_state s) eqn:E; try done.
    unfold mtu_ok, mtu, saturating_sub, STEP, MIN_MTU in *.
    split_ifs; cbn [pm_state current_probe attempts]; split_and!; try done; lia.
  - pose proof (start_ok _ Hi). unfold Pmtud_reset, pmtud_inv; cbn [fst snd mtu pm_state current_probe attempts].
    by split_and!.
Qed.

(** whatever the order of acknowledgements of sizes that were sent, late
    or stale timeouts and resets, the effective MTU, the next probe and every
    size on the wire stay between the RFC 8201 floor of 1280 and the largest
    [u16], and the failure counter stays in a [u8]. *)
Theorem pmtud_mtu_bounds (initial max : Z) (c : Pmtud * list Z)
  (Hi : in_width 16 initial) (Hr : rtc pmtud_step (Pmtud_with_max_attempts initial max, []) c) :
  pmtud_inv c.
Proof.
  remember (Pmtud_with_max_attempts initial max, []) as c0 eqn:E.
  assert (Hinv : pmtud_inv c0).
  { subst c0. pose proof (start_ok _ Hi). unfold pmtud_inv; cbn [fst snd mtu pm_state current_probe attempts Pmtud_with_max_attempts].
    by split_and!. }
  clear E. induction Hr; eauto using pmtud_step_inv.
Qed.

Lemma pmtud_mtu_bounds_witness :
  pmtud_inv (Pmtud_on_success 1500 (Pmtud_on_timeout 1500 (Pmtud_with_max_attempts 1500 5)), [1500]).
Proof.
  apply (pmtud_mtu_bounds 1500 5); [vm_compute; split; [discriminate|reflexivity]|].
  eapply rtc_l; [apply pm_send|]. eapply rtc_l; [apply (pm_timeout _ _ 1500)|].
  eapply rtc_l; [apply (pm_ack _ _ 1500); vm_compute; apply list_elem_of_here|]. apply rtc_refl.
Defined.

(** Once [Failed], only [reset] changes anything: late acknowledgements and
    timeouts are ignored. *)
Theorem pmtud_failed_final size s :
  pm_state s = PmtudFailed → Pmtud_on_success size s = s ∧ Pmtud_on_timeout size s = s.
Proof. intros E. unfold Pmtud_on_success, Pmtud_on_timeout, is_done. by rewrite E. Qed.
