(* ===== verification/Stun.v ===== *)
(** * STUN client

    [crates/desmos-core/src/net/stun.rs]: the Binding request and response
    codec (RFC 5389), its transaction identifiers and the blocking query.
    Indexing and slicing carry their bounds checks, so that the absence of
    panics is a theorem.  The attribute walk is compared with a walk over the
    decoded list of attributes, and the address decoders with encoders that
    follow the wire format of the RFC. *)

From stdpp Require Import base numbers list strings.
From Stdlib Require Import ZArith Lia.
From S2P Require Import Prelude.

Definition MAGIC_COOKIE : Z := 0x2112A442.
Definition STUN_HEADER_LEN : nat := 20.
Definition TRANSACTION_ID_LEN : nat := 12.
Definition MSG_TYPE_BINDING_REQUEST : Z := 0x0001.
Definition MSG_TYPE_BINDING_SUCCESS : Z := 0x0101.
Definition MSG_TYPE_BINDING_ERROR : Z := 0x0111.
Definition ATTR_MAPPED_ADDRESS : Z := 0x0001.
Definition ATTR_XOR_MAPPED_ADDRESS : Z := 0x0020.
Definition FAMILY_IPV4 : Z := 0x01.
Definition FAMILY_IPV6 : Z := 0x02.

Inductive StunError :=
| Truncated
| BadMagic
| TransactionMismatch
| NotBinding
| ErrorResponse
| BadFamily
| BadAttribute
| NoMappedAddress
| StunTimeout
| StunIo (e : string).

#[export] Instance StunError_eq_dec : EqDecision StunError.
Proof. solve_decision. Defined.

(** ** Transaction identifiers *)

(** [next_xorshift64]: the new state, which is also the output. *)
Definition next_xorshift64 (state : Z) : Z :=
  let s := state in
  let s := Z.lxor s (wrap 64 (Z.shiftl s 13)) in
  let s := Z.lxor s (Z.shiftr s 7) in
  Z.lxor s (wrap 64 (Z.shiftl s 17)).

(** The seed of one draw: the clock mixed with the process-wide counter. *)
Definition xorshift_seed (fallback nanos seq : Z) : Z :=
  let state := Z.lxor nanos (wrap 64 (seq * 0x9E3779B97F4A7C15)) in
  if state =? 0 then fallback else state.

(** [TransactionId::generate]: the clock reading, and the counter before and
    after. *)
Definition TransactionId_generate (nanos SEQ : Z) : Z * bytes :=
  let state := xorshift_seed 0xDEADBEEF12345678 nanos SEQ in
  let a := next_xorshift64 state in
  let b := next_xorshift64 a in
  let out := replicate TRANSACTION_ID_LEN 0 in
  let out := copy_from_slice out 0 (to_be_bytes 8 a) in
  let out := copy_from_slice out 8 (take 4 (to_be_bytes 8 b)) in
  (wrapping_add 64 SEQ 1, out).

(** ** Codec *)

Definition build_binding_request (tx : bytes) : bytes :=
  let h := replicate STUN_HEADER_LEN 0 in
  let h := copy_from_slice h 0 (to_be_bytes 2 MSG_TYPE_BINDING_REQUEST) in
  let h := copy_from_slice h 2 (to_be_bytes 2 0) in
  let h := copy_from_slice h 4 (to_be_bytes 4 MAGIC_COOKIE) in
  copy_from_slice h 8 tx.

Definition decode_mapped_address (value : bytes) : panics (result SocketAddr StunError) :=
  if (length value <? 4)%nat then Some (Err BadAttribute) else
  v0 ← value !! 0%nat;
  if negb (v0 =? 0) then Some (Err BadAttribute) else
  family ← value !! 1%nat;
  port ← u16_at value 2;
  if family =? FAMILY_IPV4 then
    if negb (length value =? 8)%nat then Some (Err BadAttribute) else
    ip ← slice_checked 4 8 value;
    Some (Ok (mkSocketAddr (V4 ip) port))
  else if family =? FAMILY_IPV6 then
    if negb (length value =? 20)%nat then Some (Err BadAttribute) else
    octets ← slice_checked 4 20 value;
    Some (Ok (mkSocketAddr (V6 octets) port))
  else Some (Err BadFamily).

Definition decode_xor_mapped_address (value cookie_and_txid : bytes)
    : panics (result SocketAddr StunError) :=
  if (length value <? 4)%nat then Some (Err BadAttribute) else
  v0 ← value !! 0%nat;
  if negb (v0 =? 0) then Some (Err BadAttribute) else
  family ← value !! 1%nat;
  x_port ← u16_at value 2;
  let port := Z.lxor x_port (wrap 16 (Z.shiftr MAGIC_COOKIE 16)) in
  if family =? FAMILY_IPV4 then
    if negb (length value =? 8)%nat then Some (Err BadAttribute) else
    x ← slice_checked 4 8 value;
    let addr := Z.lxor (from_be_bytes x) MAGIC_COOKIE in
    Some (Ok (mkSocketAddr (V4 (to_be_bytes 4 addr)) port))
  else if family =? FAMILY_IPV6 then
    if negb (length value =? 20)%nat then Some (Err BadAttribute) else
    octets ← mapM (fun i => v ← value !! (4 + i)%nat; c ← cookie_and_txid !! i; Some (Z.lxor v c))
                  (seq 0 16);
    Some (Ok (mkSocketAddr (V6 octets) port))
  else Some (Err BadFamily).

(** [(alen + 3) & !3usize]. *)
Definition padded_len (alen : nat) : nat :=
  Z.to_nat (Z.land (Z.of_nat alen + 3) (umax 64 - 3)).

(** The two addresses the attribute walk collects. *)
Record Mapped := mkMapped { xor_addr : option SocketAddr; plain_addr : option SocketAddr }.

(** The [match atype] of the walk. *)
Definition take_attr (atype : Z) (value cookie_and_txid : bytes) (acc : Mapped)
    : panics (result Mapped StunError) :=
  if atype =? ATTR_XOR_MAPPED_ADDRESS then
    r ← decode_xor_mapped_address value cookie_and_txid;
    Some (let? a := r in Ok (mkMapped (Some a) (plain_addr acc)))
  else if atype =? ATTR_MAPPED_ADDRESS then
    r ← decode_mapped_address value;
    Some (let? a := r in Ok (mkMapped (xor_addr acc) (Some a)))
  else Some (Ok acc).

(** The [while] loop.  [None] is a failed bounds check or exhausted fuel;
    [attr_walk_total] shows that neither happens. *)
Fixpoint attr_walk (fuel : nat) (attrs cookie_and_txid : bytes) (acc : Mapped) (cursor : nat)
    : panics (result Mapped StunError) :=
  match fuel with
  | O => None
  | S fuel =>
      if (cursor + 4 <=? length attrs)%nat then
        atype ← u16_at attrs cursor;
        alen16 ← u16_at attrs (cursor + 2);
        let alen := Z.to_nat alen16 in
        let padded := padded_len alen in
        if ((length attrs <? cursor + 4 + padded) && (length attrs <? cursor + 4 + alen))%nat
        then Some (Err Truncated)
        else
          let value_end := Nat.min (cursor + 4 + alen) (length attrs) in
          value ← slice_checked (cursor + 4) value_end attrs;
          r ← take_attr atype value cookie_and_txid acc;
          match r with
          | Ok acc' => attr_walk fuel attrs cookie_and_txid acc' (cursor + (4 + padded))
          | Err e => Some (Err e)
          end
      else Some (Ok acc)
  end.

Definition parse_binding_response (bs expected : bytes) : panics (result SocketAddr StunError) :=
  if (length bs <? STUN_HEADER_LEN)%nat then Some (Err Truncated) else
  msg_type ← u16_at bs 0;
  body_len16 ← u16_at bs 2;
  let body_len := Z.to_nat body_len16 in
  magic ← slice_checked 4 8 bs;
  if negb (from_be_bytes magic =? MAGIC_COOKIE) then Some (Err BadMagic) else
  txid ← slice_checked 8 20 bs;
  if negb (bool_decide (txid = expected)) then Some (Err TransactionMismatch) else
  if (length bs <? STUN_HEADER_LEN + body_len)%nat then Some (Err Truncated) else
  if msg_type =? MSG_TYPE_BINDING_ERROR then Some (Err ErrorResponse) else
  if negb (msg_type =? MSG_TYPE_BINDING_SUCCESS) then Some (Err NotBinding) else
  attrs ← slice_checked STUN_HEADER_LEN (STUN_HEADER_LEN + body_len) bs;
  cookie_and_txid ← slice_checked 4 20 bs;
  r ← attr_walk (S (length attrs)) attrs cookie_and_txid (mkMapped None None) 0;
  Some (let? m := r in
        match (match xor_addr m with Some a => Some a | None => plain_addr m end) with
        | Some a => Ok a
        | None => Err NoMappedAddress
        end).

(** ** The blocking query

    One attempt of the retry loop sees the outcome of [send_to], of
    [set_read_timeout] and of [recv_from]; [WouldBlock] and [TimedOut] are one
    kind here, as the code treats them. *)

Inductive RecvError := RecvTimedOut | RecvOther (e : string).

Record Attempt := mkAttempt {
  at_send : result () string;
  at_set_timeout : result () string;
  at_recv : result bytes RecvError;
}.

Definition TIMEOUTS_MS : list Z := [500; 1000; 2000].

(** The loop over [TIMEOUTS_MS]: the datagrams sent and the result.  [net] gives
    what the network does in each attempt. *)
Fixpoint query_loop (timeouts : list Z) (net : Z → Attempt) (tx : bytes)
    : list bytes * panics (result SocketAddr StunError) :=
  match timeouts with
  | [] => ([], Some (Err StunTimeout))
  | timeout_ms :: rest =>
      let req := build_binding_request tx in
      let a := net timeout_ms in
      match at_send a with
      | Err e => ([req], Some (Err (StunIo e)))
      | Ok _ =>
          match at_set_timeout a with
          | Err e => ([req], Some (Err (StunIo e)))
          | Ok _ =>
              let continue := let '(sent, r) := query_loop rest net tx in (req :: sent, r) in
              match at_recv a with
              | Ok datagram =>
                  match parse_binding_response (take 1500 datagram) tx with
                  | None => ([req], None)
                  | Some (Ok addr) => ([req], Some (Ok addr))
                  | Some (Err TransactionMismatch) => continue
                  | Some (Err e) => ([req], Some (Err e))
                  end
              | Err RecvTimedOut => continue
              | Err (RecvOther e) => ([req], Some (Err (StunIo e)))
              end
          end
      end
  end.

Definition query_binding (nanos SEQ : Z) (net : Z → Attempt)
    : Z * (list bytes * panics (result SocketAddr StunError)) :=
  let '(SEQ', tx) := TransactionId_generate nanos SEQ in
  (SEQ', query_loop TIMEOUTS_MS net tx).

(** ** Lemmas *)

(** *** The generator is injective *)

Lemma shl_xor_width x k : in_width 64 x → in_width 64 (Z.lxor x (wrap 64 (Z.shiftl x k))).
Proof. intros Hx. apply in_width_lxor; [lia|done|]. by apply wrap_range. Qed.

Lemma xorshift_width x : in_width 64 x → in_width 64 (next_xorshift64 x).
Proof.
  intros Hx. unfold next_xorshift64. cbv zeta.
  apply shl_xor_width, in_width_lxor; [lia|by apply shl_xor_width|].
  apply in_width_shiftr; [lia|by apply shl_xor_width].
Qed.

Lemma xorshift_inj x y :
  in_width 64 x → in_width 64 y → next_xorshift64 x = next_xorshift64 y → x = y.
Proof.
  intros Hx Hy E. unfold next_xorshift64 in E. cbv zeta in E.
  assert (∀ z, in_width 64 z → in_width 64 (Z.lxor z (Z.shiftr z 7))) as Hw.
  { intros z Hz. apply in_width_lxor; [lia|done|]. by apply in_width_shiftr. }
  apply (shl_step_inj 64) in E; [|lia|lia|by apply Hw, shl_xor_width..].
  apply (shr_step_inj 64) in E; [|lia|lia|by apply shl_xor_width..].
  by apply (shl_step_inj 64) in E.
Qed.

(** The multiplier is odd, hence invertible modulo [2^64]. *)
Lemma golden_inj a b : in_width 64 a → in_width 64 b →
  wrap 64 (a * 0x9E3779B97F4A7C15) = wrap 64 (b * 0x9E3779B97F4A7C15) → a = b.
Proof.
  assert (Hinv : ∀ z, in_width 64 z → wrap 64 (wrap 64 (z * 0x9E3779B97F4A7C15) * 0xF1DE83E19937733D) = z).
  { intros z Hz. unfold wrap. rewrite Z.mul_mod_idemp_l by done.
    rewrite <- Z.mul_assoc, <- Z.mul_mod_idemp_r by done.
    replace (0x9E3779B97F4A7C15 * 0xF1DE83E19937733D mod 2 ^ 64) with 1 by reflexivity.
    rewrite Z.mul_1_r. by apply Z.mod_small. }
  intros Ha Hb E. by rewrite <- (Hinv a), <- (Hinv b), E.
Qed.

Lemma seed_inj fallback nanos s t :
  in_width 64 s → in_width 64 t →
  xorshift_seed fallback nanos s = xorshift_seed fallback nanos t →
  wrap 64 (s * 0x9E3779B97F4A7C15) ≠ nanos → wrap 64 (t * 0x9E3779B97F4A7C15) ≠ nanos → s = t.
Proof.
  intros Hs Ht E Ns Nt. unfold xorshift_seed in E.
  destruct (Z.eqb_spec (Z.lxor nanos (wrap 64 (s * 0x9E3779B97F4A7C15))) 0) as [E0|_].
  { apply Z.lxor_eq in E0. congruence. }
  destruct (Z.eqb_spec (Z.lxor nanos (wrap 64 (t * 0x9E3779B97F4A7C15))) 0) as [E0|_].
  { apply Z.lxor_eq in E0. congruence. }
  apply golden_inj; [done..|].
  rewrite !(Z.lxor_comm nanos) in E.
  by rewrite <- (lxor_cancel (wrap 64 (s * _)) nanos), E, lxor_cancel.
Qed.

Lemma seed_width fallback nanos s :
  in_width 64 fallback → in_width 64 nanos → in_width 64 (xorshift_seed fallback nanos s).
Proof.
  intros Hf Hn. unfold xorshift_seed. destruct (_ =? 0); [done|].
  apply in_width_lxor; [lia|done|by apply wrap_range].
Qed.

Lemma generate_eq nanos SEQ :
  let a := next_xorshift64 (xorshift_seed 0xDEADBEEF12345678 nanos SEQ) in
  TransactionId_generate nanos SEQ =
    (wrapping_add 64 SEQ 1, to_be_bytes 8 a ++ take 4 (to_be_bytes 8 (next_xorshift64 a))).
Proof.
  reflexivity.
Qed.

(** transaction identifiers drawn at the same clock reading differ
    whenever the process-wide counter differs, unless one of the two draws
    hits the all-zero seed that the generator replaces by a constant.  The
    generator is injective on its 64-bit state. *)
Theorem transaction_ids_distinct (nanos s t : Z)
  (Hn : in_width 64 nanos) (Hs : in_width 64 s) (Ht : in_width 64 t) (Hst : s ≠ t)
  (Ns : wrap 64 (s * 0x9E3779B97F4A7C15) ≠ nanos) (Nt : wrap 64 (t * 0x9E3779B97F4A7C15) ≠ nanos) :
  (TransactionId_generate nanos s).2 ≠ (TransactionId_generate nanos t).2.
Proof.
  rewrite !generate_eq; cbn [snd]. intros E. apply Hst.
  assert (Hseed : ∀ x, in_width 64 (xorshift_seed 0xDEADBEEF12345678 nanos x)).
  { intros x. apply seed_width; [vm_compute; split; [discriminate|reflexivity]|done]. }
  apply app_inj_1 in E as [E _]; [|by rewrite !length_to_be_bytes].
  apply to_be_bytes_inj in E; [|by apply xorshift_width..].
  apply xorshift_inj in E; [|by apply Hseed..].
  by apply seed_inj in E.
Qed.

Lemma transaction_ids_distinct_witness :
  (TransactionId_generate 1700000000000000000 7).2 ≠ (TransactionId_generate 1700000000000000000 8).2.
Proof.
  apply (transaction_ids_distinct 1700000000000000000 7 8);
    vm_compute; try (split; [discriminate|reflexivity]); discriminate.
Defined.

(** *** Bounds checks *)

Lemma u16_at_some bs i : (S i < length bs)%nat → is_Some (u16_at bs i).
Proof.
  intros Hi. unfold u16_at.
  destruct (lookup_lt_is_Some_2 bs i ltac:(lia)) as [a ->].
  by destruct (lookup_lt_is_Some_2 bs (S i) Hi) as [b ->].
Qed.

Lemma slice_checked_some {A} lo hi (bs : list A) :
  (lo <= hi)%nat → (hi <= length bs)%nat → slice_checked lo hi bs = Some (slice lo hi bs).
Proof.
  intros Hl Hh. unfold slice_checked.
  by rewrite (proj2 (Nat.leb_le lo hi) Hl), (proj2 (Nat.leb_le _ _) Hh).
Qed.

Lemma land_pad x : 0 <= x < 2 ^ 64 → Z.land x (umax 64 - 3) = x - x mod 4.
Proof.
  intros Hx. change (umax 64 - 3) with (Z.shiftl (Z.ones 62) 2).
  replace (x - x mod 4) with (Z.shiftl (Z.shiftr x 2) 2).
  2:{ rewrite Z.shiftl_mul_pow2, Z.shiftr_div_pow2 by lia. change (2 ^ 2) with 4.
      pose proof (Z.div_mod x 4). lia. }
  apply Z.bits_inj'. intros n Hn. rewrite Z.land_spec, !Z.shiftl_spec by lia.
  destruct (Z.lt_ge_cases n 2).
  { by rewrite !(Z.testbit_neg_r _ (n - 2)), andb_false_r by lia. }
  rewrite Z.shiftr_spec, Z.testbit_ones by lia. replace (n - 2 + 2) with n by lia.
  destruct (Z.leb_spec 0 (n - 2)); [|lia]. destruct (Z.ltb_spec (n - 2) 62); [apply andb_true_r|].
  by rewrite (in_width_testbit 64 x n) by (done || lia).
Qed.

Lemma padded_len_spec alen :
  Z.of_nat alen < 2 ^ 16 →
  (alen <= padded_len alen <= alen + 3)%nat.
Proof.
  intros Ha. unfold padded_len. rewrite land_pad by lia.
  pose proof (Z.mod_pos_bound (Z.of_nat alen + 3) 4). lia.
Qed.

Lemma value_checked (value : bytes) i : (i < length value)%nat → ∃ v, value !! i = Some v.
Proof. intros Hi. destruct (lookup_lt_is_Some_2 value i Hi) as [v ->]. eauto. Qed.

Lemma decode_mapped_total value : is_Some (decode_mapped_address value).
Proof.
  unfold decode_mapped_address. destruct (Nat.ltb_spec (length value) 4); [done|].
  destruct (value_checked value 0 ltac:(lia)) as [v0 ->]. cbn [mbind option_bind].
  destruct (negb (v0 =? 0)); [done|].
  destruct (value_checked value 1 ltac:(lia)) as [v1 ->]. cbn [mbind option_bind].
  destruct (u16_at_some value 2 ltac:(lia)) as [p ->]. cbn [mbind option_bind].
  destruct (v1 =? FAMILY_IPV4).
  { destruct (Nat.eqb_spec (length value) 8); [|done]. cbn [negb].
    by rewrite slice_checked_some by lia. }
  destruct (v1 =? FAMILY_IPV6); [|done].
  destruct (Nat.eqb_spec (length value) 20); [|done]. cbn [negb].
  by rewrite slice_checked_some by lia.
Qed.

Lemma decode_xor_total value cat : (16 <= length cat)%nat → is_Some (decode_xor_mapped_address value cat).
Proof.
  intros Hc. unfold decode_xor_mapped_address. destruct (Nat.ltb_spec (length value) 4); [done|].
  destruct (value_checked value 0 ltac:(lia)) as [v0 ->]. cbn [mbind option_bind].
  destruct (negb (v0 =? 0)); [done|].
  destruct (value_checked value 1 ltac:(lia)) as [v1 ->]. cbn [mbind option_bind].
  destruct (u16_at_some value 2 ltac:(lia)) as [p ->]. cbn [mbind option_bind].
  destruct (v1 =? FAMILY_IPV4).
  { destruct (Nat.eqb_spec (length value) 8); [|done]. cbn [negb].
    by rewrite slice_checked_some by lia. }
  destruct (v1 =? FAMILY_IPV6); [|done].
  destruct (Nat.eqb_spec (length value) 20); [|done]. cbn [negb].
  match goal with |- context [mapM ?f ?l] => destruct (mapM_is_Some_2 f l) as [o ->]; [|done] end.
  apply Forall_seq. intros i Hi.
  destruct (value_checked value (4 + i) ltac:(lia)) as [a Ha], (value_checked cat i ltac:(lia)) as [b Hb].
  exists (Z.lxor a b). cbn beta. by setoid_rewrite Ha; cbn [mbind option_bind]; rewrite Hb.
Qed.

Lemma take_attr_total t v cat acc : (16 <= length cat)%nat → is_Some (take_attr t v cat acc).
Proof.
  intros Hc. unfold take_attr. destruct (t =? _); [by destruct (decode_xor_total v cat Hc) as [r ->]|].
  destruct (t =? _); [by destruct (decode_mapped_total v) as [r ->]|done].
Qed.

Lemma attr_walk_total fuel attrs cat acc cursor :
  (16 <= length cat)%nat → (0 < fuel)%nat → (length attrs < cursor + fuel)%nat →
  is_Some (attr_walk fuel attrs cat acc cursor).
Proof.
  intros Hc. revert acc cursor. induction fuel as [|fuel IH]; intros acc cursor H0 Hf; [lia|].
  cbn [attr_walk]. destruct (Nat.leb_spec (cursor + 4) (length attrs)); [|done].
  destruct (u16_at_some attrs cursor ltac:(lia)) as [t ->]. cbn [mbind option_bind].
  destruct (u16_at_some attrs (cursor + 2) ltac:(lia)) as [a ->]. cbn [mbind option_bind].
  destruct (_ && _); [done|]. rewrite slice_checked_some by lia. cbn [mbind option_bind].
  destruct (take_attr_total t (slice (cursor + 4) (Nat.min (cursor + 4 + Z.to_nat a) (length attrs)) attrs) cat acc Hc)
    as [[acc'|e] ->]; [|done].
  cbn [mbind option_bind]. apply IH; lia.
Qed.

(** *** Accepted responses *)

(** The guards of the parser, as a predicate on the datagram. *)
Definition answers (bs expected : bytes) : Prop :=
  (STUN_HEADER_LEN <= length bs)%nat ∧
  u16_at bs 0 = Some MSG_TYPE_BINDING_SUCCESS ∧
  from_be_bytes (slice 4 8 bs) = MAGIC_COOKIE ∧
  slice 8 20 bs = expected ∧
  ∃ body_len, u16_at bs 2 = Some body_len ∧ (STUN_HEADER_LEN + Z.to_nat body_len <= length bs)%nat.

(** A branch of the parser that returns an error. *)
Ltac err_branch := eexists; split; [reflexivity|intros ? [=]].

Lemma stun_parse_spec (bs expected : bytes) :
  ∃ r, parse_binding_response bs expected = Some r ∧
       (∀ a, r = Ok a → answers bs expected).
Proof.
  unfold parse_binding_response, STUN_HEADER_LEN.
  destruct (Nat.ltb_spec (length bs) 20); [err_branch|].
  destruct (u16_at_some bs 0 ltac:(lia)) as [t Et]; rewrite Et; cbn [mbind option_bind].
  destruct (u16_at_some bs 2 ltac:(lia)) as [l El]; rewrite El; cbn [mbind option_bind].
  rewrite (slice_checked_some 4 8) by lia; cbn [mbind option_bind].
  destruct (Z.eqb_spec (from_be_bytes (slice 4 8 bs)) MAGIC_COOKIE) as [Em|]; [|err_branch].
  rewrite (slice_checked_some 8 20) by lia; cbn [mbind option_bind negb].
  case_bool_decide as Ex; [|err_branch]. cbn [negb].
  destruct (Nat.ltb_spec (length bs) (20 + Z.to_nat l)); [err_branch|].
  destruct (t =? MSG_TYPE_BINDING_ERROR); [err_branch|].
  destruct (Z.eqb_spec t MSG_TYPE_BINDING_SUCCESS) as [->|]; [|err_branch]. cbn [negb].
  rewrite !slice_checked_some by lia; cbn [mbind option_bind].
  match goal with |- context [attr_walk ?f ?a ?c ?m 0] =>
    destruct (attr_walk_total f a c m 0) as [r ->]; [rewrite length_slice; lia|lia|lia|] end.
  eexists. split; [done|]. intros a Ha. unfold answers, STUN_HEADER_LEN. split_and!; eauto.
Qed.

(** the parser is total on arbitrary input from the network: no index or
    slice is out of bounds, the attribute walk terminates, and an address is
    returned only from a Binding success response that carries the magic
    cookie, the transaction identifier of the request and as many bytes as it
    declares. *)
Theorem stun_parse_total (bs expected : bytes) :
  ∃ r, parse_binding_response bs expected = Some r ∧
       (∀ a, r = Ok a → answers bs expected).
Proof. apply stun_parse_spec. Qed.

(** ** Responses built by a server

    The wire format of RFC 5389, sections 6 and 15: attributes are type,
    length, value and padding to a multiple of four bytes. *)

Definition encode_attr (a : Z * bytes) : bytes :=
  to_be_bytes 2 a.1 ++ to_be_bytes 2 (Z.of_nat (length a.2)) ++ a.2
  ++ replicate (padded_len (length a.2) - length a.2) 0.

Definition encode_attrs (l : list (Z * bytes)) : bytes := mjoin (encode_attr <$> l).

Definition success_response (tx : bytes) (l : list (Z * bytes)) : bytes :=
  to_be_bytes 2 MSG_TYPE_BINDING_SUCCESS ++ to_be_bytes 2 (Z.of_nat (length (encode_attrs l)))
  ++ to_be_bytes 4 MAGIC_COOKIE ++ tx ++ encode_attrs l.

Definition attr_ok (a : Z * bytes) : Prop := in_width 16 a.1 ∧ Z.of_nat (length a.2) < 2 ^ 16.

Definition family_of (ip : IpAddr) : Z := match ip with V4 _ => FAMILY_IPV4 | V6 _ => FAMILY_IPV6 end.

Definition octets_of (ip : IpAddr) : bytes := match ip with V4 o => o | V6 o => o end.

Definition addr_ok (a : SocketAddr) : Prop :=
  in_width 16 (sa_port a) ∧ Forall byte_ok (octets_of (sa_ip a)) ∧
  length (octets_of (sa_ip a)) = match sa_ip a with V4 _ => 4%nat | V6 _ => 16%nat end.

Definition encode_mapped (a : SocketAddr) : bytes :=
  0 :: family_of (sa_ip a) :: to_be_bytes 2 (sa_port a) ++ octets_of (sa_ip a).

Definition encode_xor_mapped (a : SocketAddr) (cat : bytes) : bytes :=
  0 :: family_of (sa_ip a) :: to_be_bytes 2 (Z.lxor (sa_port a) 0x2112)
  ++ match sa_ip a with
     | V4 o => to_be_bytes 4 (Z.lxor (from_be_bytes o) MAGIC_COOKIE)
     | V6 o => zip_with Z.lxor o cat
     end.

(** The walk over the decoded attributes. *)
Fixpoint walk_list (l : list (Z * bytes)) (cat : bytes) (acc : Mapped) : panics (result Mapped StunError) :=
  match l with
  | [] => Some (Ok acc)
  | (t, v) :: l =>
      r ← take_attr t v cat acc;
      match r with Ok acc' => walk_list l cat acc' | Err e => Some (Err e) end
  end.

Lemma u16_at_app pre z post n :
  n = length pre → in_width 16 z → u16_at (pre ++ to_be_bytes 2 z ++ post) n = Some z.
Proof.
  intros -> Hz. unfold u16_at.
  rewrite (lookup_app_r _ _ (length pre)), (lookup_app_r _ _ (S (length pre))), Nat.sub_diag by lia.
  replace (S (length pre) - length pre)%nat with 1%nat by lia.
  transitivity (Some (from_be_bytes (to_be_bytes 2 z))); [done|].
  by rewrite from_to_be_bytes.
Qed.

Lemma slice_checked_app {A} (pre v post : list A) n m :
  n = length pre → m = (length pre + length v)%nat → slice_checked n m (pre ++ v ++ post) = Some v.
Proof.
  intros -> ->. rewrite slice_checked_some by (rewrite ?length_app; lia).
  unfold slice. rewrite drop_app_length.
  replace (length pre + length v - length pre)%nat with (length v) by lia.
  by rewrite take_app_length.
Qed.

Lemma length_encode_attr a :
  Z.of_nat (length a.2) < 2 ^ 16 → length (encode_attr a) = (4 + padded_len (length a.2))%nat.
Proof.
  intros Ha. pose proof (padded_len_spec _ Ha). unfold encode_attr.
  rewrite !length_app, !length_to_be_bytes, length_replicate. lia.
Qed.

(** The cursor walk over the encoded body is the walk over the attributes. *)
Lemma attr_walk_encoded fuel pre l cat acc :
  Forall attr_ok l → (length (pre ++ encode_attrs l) < length pre + fuel)%nat →
  attr_walk fuel (pre ++ encode_attrs l) cat acc (length pre) = walk_list l cat acc.
Proof.
  revert fuel pre acc. induction l as [|[t v] l IH]; intros fuel pre acc Hl Hf.
  { unfold encode_attrs in *. cbn in *. rewrite app_nil_r in *. destruct fuel; [lia|]. cbn [attr_walk].
    by destruct (Nat.leb_spec (length pre + 4) (length pre)); [lia|]. }
  apply Forall_cons in Hl as [[Ht Hv] Hl]. cbn [fst snd] in *.
  pose proof (length_encode_attr (t, v) Hv) as Hla. pose proof (padded_len_spec _ Hv) as Hp.
  change (encode_attrs ((t, v) :: l)) with (encode_attr (t, v) ++ encode_attrs l) in *.
  rewrite !length_app, Hla in Hf. cbn [snd] in Hf, Hla.
  destruct fuel as [|fuel]; [lia|]. cbn [attr_walk].
  rewrite !length_app, Hla. destruct (Nat.leb_spec (length pre + 4) (length pre + (4 + padded_len (length v) + length (encode_attrs l)))); [|lia].
  assert (u16_at (pre ++ encode_attr (t, v) ++ encode_attrs l) (length pre) = Some t) as ->.
  { unfold encode_attr. rewrite <- !app_assoc. by apply u16_at_app. }
  assert (u16_at (pre ++ encode_attr (t, v) ++ encode_attrs l) (length pre + 2) = Some (Z.of_nat (length v))) as ->.
  { unfold encode_attr. rewrite <- !app_assoc, (app_assoc pre).
    apply u16_at_app; [by rewrite length_app, length_to_be_bytes|]. cbn [snd]. unfold in_width. lia. }
  cbn [mbind option_bind]. rewrite Nat2Z.id.
  destruct (Nat.ltb_spec (length pre + (4 + padded_len (length v) + length (encode_attrs l))) (length pre + 4 + padded_len (length v))); [lia|].
  cbn [andb]. rewrite Nat.min_l by lia.
  assert (slice_checked (length pre + 4) (length pre + 4 + length v) (pre ++ encode_attr (t, v) ++ encode_attrs l) = Some v) as ->.
  { unfold encode_attr. rewrite <- !app_assoc, (app_assoc pre), (app_assoc (pre ++ _)).
    apply slice_checked_app; rewrite !length_app, !length_to_be_bytes; lia. }
  cbn [mbind option_bind walk_list]. destruct (take_attr t v cat acc) as [[acc'|e]|]; cbn [mbind option_bind]; [|done..].
  rewrite (app_assoc pre). replace (length pre + (4 + padded_len (length v)))%nat with (length (pre ++ encode_attr (t, v)))
    by (rewrite length_app, Hla; lia).
  apply IH; [done|]. rewrite !length_app, Hla. lia.
Qed.

Definition cookie_and_txid_of (tx : bytes) : bytes := to_be_bytes 4 MAGIC_COOKIE ++ tx.

Lemma parse_success tx l :
  length tx = TRANSACTION_ID_LEN → Forall attr_ok l → Z.of_nat (length (encode_attrs l)) < 2 ^ 16 →
  parse_binding_response (success_response tx l) tx =
    (r ← walk_list l (cookie_and_txid_of tx) (mkMapped None None);
     Some (let? m := r in
           match (match xor_addr m with Some a => Some a | None => plain_addr m end) with
           | Some a => Ok a
           | None => Err NoMappedAddress
           end)).
Proof.
  unfold TRANSACTION_ID_LEN. intros Htx Hl Hlen. set (body := encode_attrs l) in *.
  assert (Hn : length (success_response tx l) = (20 + length body)%nat).
  { unfold success_response. rewrite !length_app, !length_to_be_bytes, Htx. fold body. lia. }
  unfold parse_binding_response, STUN_HEADER_LEN. rewrite Hn.
  destruct (Nat.ltb_spec (20 + length body) 20); [lia|].
  unfold success_response in *. fold body in Hn |- *.
  rewrite (u16_at_app [] _ _ 0 : _ → _ → u16_at (to_be_bytes 2 _ ++ _) 0 = _) by done. cbn [mbind option_bind].
  assert (Hw : in_width 16 (Z.of_nat (length body))) by (unfold in_width; lia).
  rewrite (u16_at_app (to_be_bytes 2 MSG_TYPE_BINDING_SUCCESS) _ _ 2) by done.
  cbn [mbind option_bind]. rewrite Nat2Z.id.
  set (hd := to_be_bytes 2 MSG_TYPE_BINDING_SUCCESS ++ to_be_bytes 2 (Z.of_nat (length body))).
  assert (Hhd : length hd = 4%nat) by (unfold hd; by rewrite length_app, !length_to_be_bytes).
  rewrite !(app_assoc (to_be_bytes 2 MSG_TYPE_BINDING_SUCCESS)). fold hd.
  rewrite (slice_checked_app hd (to_be_bytes 4 MAGIC_COOKIE) _ 4 8) by (by rewrite ?Hhd, ?length_to_be_bytes).
  cbn [mbind option_bind]. rewrite from_to_be_bytes, Z.eqb_refl by done. cbn [negb].
  rewrite (app_assoc hd), (slice_checked_app (hd ++ _) tx _ 8 20)
    by (rewrite ?length_app, ?Hhd, ?length_to_be_bytes, ?Htx; done).
  cbn [mbind option_bind]. rewrite bool_decide_eq_true_2 by done. cbn [negb].
  destruct (Nat.ltb_spec (20 + length body) (20 + length body)); [lia|]. cbn [Z.eqb negb Pos.eqb].
  change (MSG_TYPE_BINDING_SUCCESS =? MSG_TYPE_BINDING_ERROR) with false.
  change (MSG_TYPE_BINDING_SUCCESS =? MSG_TYPE_BINDING_SUCCESS) with true. cbn [negb].
  rewrite (app_assoc (hd ++ _)). rewrite <- (app_nil_r ((_ ++ tx) ++ body)), <- (app_assoc _ body []).
  rewrite (slice_checked_app ((hd ++ _) ++ tx) body [] 20 (20 + length body))
    by (rewrite !length_app, ?Hhd, ?length_to_be_bytes, ?Htx; done).
  cbn [mbind option_bind]. rewrite <- (app_assoc hd), <- (app_assoc hd).
  rewrite (slice_checked_app hd (cookie_and_txid_of tx) _ 4 20)
    by (unfold cookie_and_txid_of; rewrite ?length_app, ?Hhd, ?length_to_be_bytes, ?Htx; done).
  cbn [mbind option_bind]. unfold body.
  rewrite (attr_walk_encoded _ [] l) by (done || (cbn; lia)). done.
Qed.

Lemma in_width_lxor_port p : in_width 16 p → in_width 16 (Z.lxor p 0x2112).
Proof. intros Hp. apply in_width_lxor; [lia|done|]. zlia. Qed.

Lemma decode_encode_mapped a : addr_ok a → decode_mapped_address (encode_mapped a) = Some (Ok a).
Proof.
  destruct a as [ip port]. intros (Hp & Hb & Hl). cbn [sa_port sa_ip] in *.
  unfold decode_mapped_address, encode_mapped. cbn [sa_port sa_ip].
  rewrite !length_cons, length_app, length_to_be_bytes.
  destruct (Nat.ltb_spec (S (S (2 + length (octets_of ip)))) 4); [lia|].
  cbn [lookup list_lookup mbind option_bind Z.eqb negb].
  rewrite (u16_at_app [0; family_of ip] port _ 2 eq_refl Hp : u16_at (0 :: family_of ip :: _ ++ _) 2 = _). cbn [mbind option_bind].
  assert (Hs : ∀ m, m = (4 + length (octets_of ip))%nat →
            slice_checked 4 m (0 :: family_of ip :: to_be_bytes 2 port ++ octets_of ip) = Some (octets_of ip)).
  { intros m ->. pose proof (slice_checked_app (0 :: family_of ip :: to_be_bytes 2 port) (octets_of ip) []
      4 (4 + length (octets_of ip))) as E. rewrite app_nil_r in E. apply E; done. }
  destruct ip as [o|o]; cbn [family_of octets_of] in *; rewrite Hl.
  - change (FAMILY_IPV4 =? FAMILY_IPV4) with true. cbn [Nat.add Nat.eqb negb].
    by rewrite Hs by (by rewrite Hl).
  - change (FAMILY_IPV6 =? FAMILY_IPV4) with false. change (FAMILY_IPV6 =? FAMILY_IPV6) with true.
    cbn [Nat.add Nat.eqb negb]. by rewrite Hs by (by rewrite Hl).
Qed.

Lemma xor_octets hd o cat :
  length hd = 4%nat → length o = 16%nat → (16 <= length cat)%nat →
  mapM (fun i => v ← (hd ++ zip_with Z.lxor o cat) !! (4 + i)%nat; c ← cat !! i; Some (Z.lxor v c)) (seq 0 16)
  = Some o.
Proof.
  intros Hh Ho Hc. apply mapM_Some, Forall2_same_length_lookup. split; [by rewrite length_seq|].
  intros i j x Hj Hx. apply lookup_seq in Hj as [-> Hi]. rewrite Nat.add_0_l.
  rewrite lookup_app_r by lia. replace (4 + i - length hd)%nat with i by lia.
  destruct (lookup_lt_is_Some_2 cat i ltac:(lia)) as [c Hci].
  rewrite lookup_zip_with, Hx, Hci. cbn. by rewrite lxor_cancel.
Qed.

Lemma decode_encode_xor a tx :
  addr_ok a → length tx = TRANSACTION_ID_LEN →
  decode_xor_mapped_address (encode_xor_mapped a (cookie_and_txid_of tx)) (cookie_and_txid_of tx) = Some (Ok a).
Proof.
  destruct a as [ip port]. intros (Hp & Hb & Hl) Htx. cbn [sa_port sa_ip] in *.
  assert (Hcat : length (cookie_and_txid_of tx) = 16%nat).
  { unfold cookie_and_txid_of. by rewrite length_app, length_to_be_bytes, Htx. }
  unfold decode_xor_mapped_address, encode_xor_mapped. cbn [sa_port sa_ip].
  set (enc := match ip with V4 _ => _ | V6 _ => _ end).
  assert (He : length enc = length (octets_of ip)).
  { subst enc. destruct ip; cbn [octets_of] in *; [by rewrite length_to_be_bytes|].
    rewrite length_zip_with, Hcat, Hl. done. }
  rewrite !length_cons, length_app, length_to_be_bytes.
  destruct (Nat.ltb_spec (S (S (2 + length enc))) 4); [lia|].
  cbn [lookup list_lookup mbind option_bind Z.eqb negb].
  rewrite (u16_at_app [0; family_of ip] _ enc 2 eq_refl (in_width_lxor_port _ Hp)
            : u16_at (0 :: family_of ip :: _ ++ _) 2 = _). cbn [mbind option_bind].
  change (wrap 16 (Z.shiftr MAGIC_COOKIE 16)) with 0x2112. rewrite lxor_cancel.
  destruct ip as [o|o]; cbn [family_of octets_of] in *; rewrite He, Hl.
  - change (FAMILY_IPV4 =? FAMILY_IPV4) with true. cbn [Nat.add Nat.eqb negb].
    pose proof (slice_checked_app (0 :: FAMILY_IPV4 :: to_be_bytes 2 (Z.lxor port 8466)) enc [] 4 8) as E.
    rewrite app_nil_r in E. cbn [app] in E. rewrite E by (rewrite ?He, ?Hl; done). cbn [mbind option_bind].
    pose proof (from_be_bytes_range o Hb) as Hr. rewrite Hl in Hr.
    subst enc. rewrite from_to_be_bytes by (apply in_width_lxor; [done|done|by vm_compute]).
    rewrite lxor_cancel. repeat f_equal. rewrite <- Hl. by apply to_from_be_bytes.
  - change (FAMILY_IPV6 =? FAMILY_IPV4) with false. change (FAMILY_IPV6 =? FAMILY_IPV6) with true.
    cbn [Nat.add Nat.eqb negb]. subst enc.
    pose proof (xor_octets (0 :: FAMILY_IPV6 :: to_be_bytes 2 (Z.lxor port 8466)) o (cookie_and_txid_of tx)
      eq_refl Hl ltac:(lia)) as E. cbn [app] in E. setoid_rewrite E. done.
Qed.

(** An attribute that may accompany the XOR-MAPPED-ADDRESS: not another one,
    and a MAPPED-ADDRESS only if it is well formed. *)
Definition bystander (a : Z * bytes) : Prop :=
  attr_ok a ∧ a.1 ≠ ATTR_XOR_MAPPED_ADDRESS ∧
  (a.1 = ATTR_MAPPED_ADDRESS → ∃ b, addr_ok b ∧ a.2 = encode_mapped b).

Lemma walk_bystanders l l' cat acc :
  Forall bystander l →
  ∃ acc', xor_addr acc' = xor_addr acc ∧ walk_list (l ++ l') cat acc = walk_list l' cat acc'.
Proof.
  revert acc. induction l as [|[t v] l IH]; intros acc Hl; [by exists acc|].
  apply Forall_cons in Hl as [(_ & Hx & Hm) Hl]. cbn [fst snd] in *.
  cbn [app walk_list]. unfold take_attr. destruct (Z.eqb_spec t ATTR_XOR_MAPPED_ADDRESS); [done|].
  destruct (Z.eqb_spec t ATTR_MAPPED_ADDRESS) as [->|].
  - destruct (Hm eq_refl) as (b & Hb & ->). rewrite decode_encode_mapped by done. cbn [mbind option_bind result_bind].
    destruct (IH (mkMapped (xor_addr acc) (Some b)) Hl) as (acc' & E & ->). by exists acc'.
  - cbn [mbind option_bind]. by apply IH.
Qed.

(** a client recovers its public address from every well-formed answer.
    A Binding success response with the request's transaction identifier
    that carries the XOR-MAPPED-ADDRESS of [addr] (IPv4 or IPv6), before or after
    any unknown attributes and any plain MAPPED-ADDRESS, parses to [addr]: the
    XOR form wins whatever the order. *)
Theorem stun_address_roundtrip (tx : bytes) (addr : SocketAddr) (before after : list (Z * bytes))
  (Htx : length tx = TRANSACTION_ID_LEN) (Ha : addr_ok addr)
  (Hb : Forall bystander before) (Hc : Forall bystander after)
  (Hlen : Z.of_nat (length (encode_attrs (before ++
            (ATTR_XOR_MAPPED_ADDRESS, encode_xor_mapped addr (cookie_and_txid_of tx)) :: after))) < 2 ^ 16) :
  parse_binding_response
    (success_response tx (before ++
       (ATTR_XOR_MAPPED_ADDRESS, encode_xor_mapped addr (cookie_and_txid_of tx)) :: after)) tx
  = Some (Ok addr).
Proof.
  set (xa := (ATTR_XOR_MAPPED_ADDRESS, _)) in *.
  rewrite parse_success; [|done| |done].
  - destruct (walk_bystanders before (xa :: after) (cookie_and_txid_of tx) (mkMapped None None) Hb) as (m1 & _ & ->).
    unfold xa; cbn [walk_list]. unfold take_attr. rewrite Z.eqb_refl, decode_encode_xor by done.
    cbn [mbind option_bind result_bind].
    destruct (walk_bystanders after [] (cookie_and_txid_of tx) (mkMapped (Some addr) (plain_addr m1)) Hc) as (m2 & E & E2).
    rewrite app_nil_r in E2. rewrite E2. cbn [walk_list mbind option_bind result_bind]. by rewrite E.
  - apply Forall_app. split; [|apply Forall_cons; split].
    1,3: eapply Forall_impl; [eassumption|intros ? H; apply H].
    split; [by vm_compute|]. unfold xa; cbn [snd]. unfold encode_xor_mapped.
    rewrite !length_cons, length_app, length_to_be_bytes. destruct Ha as (_ & _ & Hl).
    destruct (sa_ip addr); cbn [octets_of] in Hl; rewrite ?length_to_be_bytes, ?length_zip_with; lia.
Qed.

Lemma stun_address_roundtrip_witness :
  parse_binding_response
    (success_response (replicate 12 7) ([(0x8022, [1; 2; 3])] ++
       (ATTR_XOR_MAPPED_ADDRESS, encode_xor_mapped (mkSocketAddr (V4 [203; 0; 113; 9]) 51820)
          (cookie_and_txid_of (replicate 12 7)))
       :: [(ATTR_MAPPED_ADDRESS, encode_mapped (mkSocketAddr (V4 [10; 0; 0; 1]) 9))])) (replicate 12 7)
  = Some (Ok (mkSocketAddr (V4 [203; 0; 113; 9]) 51820)).
Proof.
  apply (stun_address_roundtrip (replicate 12 7) (mkSocketAddr (V4 [203; 0; 113; 9]) 51820)
           [(0x8022, [1; 2; 3])] [(ATTR_MAPPED_ADDRESS, encode_mapped (mkSocketAddr (V4 [10; 0; 0; 1]) 9))]).
  - reflexivity.
  - split; [by vm_compute|split; [solve_bytes; by vm_compute|reflexivity]].
  - solve_bytes. split; [split; by vm_compute|split; [discriminate|discriminate]].
  - solve_bytes. split; [split; by vm_compute|split; [discriminate|intros _]].
    exists (mkSocketAddr (V4 [10; 0; 0; 1]) 9). split; [|reflexivity].
    split; [by vm_compute|split; [solve_bytes; by vm_compute|reflexivity]].
  - vm_compute; reflexivity.
Defined.

Lemma query_loop_spec timeouts net tx :
  let '(sent, r) := query_loop timeouts net tx in
  (length sent <= length timeouts)%nat ∧ Forall (.= build_binding_request tx) sent ∧
  ∃ res, r = Some res ∧
    ∀ a, res = Ok a → ∃ t d, t ∈ timeouts ∧ at_recv (net t) = Ok d ∧ answers (take 1500 d) tx.
Proof.
  induction timeouts as [|t rest IH]; cbn [query_loop].
  { split_and!; [done|constructor|]. eexists. by split. }
  destruct (query_loop rest net tx) as [sent r]. destruct IH as (Hl & Hs & res & -> & Hres).
  assert (Hstop : ∀ e : result SocketAddr StunError,
    (∀ a, e = Ok a → ∃ d, at_recv (net t) = Ok d ∧ answers (take 1500 d) tx) →
    (length [build_binding_request tx] <= length (t :: rest))%nat ∧
    Forall (.= build_binding_request tx) [build_binding_request tx] ∧
    ∃ res, Some e = Some res ∧
      ∀ a, res = Ok a → ∃ t' d, t' ∈ t :: rest ∧ at_recv (net t') = Ok d ∧ answers (take 1500 d) tx).
  { intros e He. split_and!; [cbn; lia|by repeat constructor|]. exists e. split; [done|].
    intros a Ea. destruct (He a Ea) as (d & ? & ?). exists t, d. split_and!; [apply list_elem_of_here|done|done]. }
  assert (Hnext : (length (build_binding_request tx :: sent) <= length (t :: rest))%nat ∧
    Forall (.= build_binding_request tx) (build_binding_request tx :: sent) ∧
    ∃ res', Some res = Some res' ∧
      ∀ a, res' = Ok a → ∃ t' d, t' ∈ t :: rest ∧ at_recv (net t') = Ok d ∧ answers (take 1500 d) tx).
  { split_and!; [cbn; lia|by constructor|]. exists res. split; [done|].
    intros a Ea. destruct (Hres a Ea) as (t' & d & Ht & ?). exists t', d. split; [by apply list_elem_of_further|done]. }
  destruct (at_send (net t)); [|by apply Hstop].
  destruct (at_set_timeout (net t)); [|by apply Hstop].
  destruct (at_recv (net t)) as [d|[|e]]; [|done|by apply Hstop].
  destruct (stun_parse_spec (take 1500 d) tx) as (pr & Ep & Hp). rewrite Ep.
  destruct pr as [addr|[]]; try done; apply Hstop; try done. intros ? [= <-]. eauto.
Qed.

(** the blocking query is bounded and sound.  It sends the same request
    at most three times, always returns a result, and returns an address only
    when a datagram it received is a success response to its own
    transaction. *)
Theorem query_binding_sound (nanos SEQ : Z) (net : Z → Attempt) :
  let tx := (TransactionId_generate nanos SEQ).2 in
  let '(_, (sent, r)) := query_binding nanos SEQ net in
  (length sent <= 3)%nat ∧ Forall (.= build_binding_request tx) sent ∧
  ∃ res, r = Some res ∧
    ∀ a, res = Ok a → ∃ t d, t ∈ TIMEOUTS_MS ∧ at_recv (net t) = Ok d ∧ answers (take 1500 d) tx.
Proof.
  intros tx. unfold query_binding. destruct (TransactionId_generate nanos SEQ) as [SEQ' tx'] eqn:E.
  pose proof (query_loop_spec TIMEOUTS_MS net tx') as H. subst tx. cbn [snd].
  by destruct (query_loop TIMEOUTS_MS net tx') as [sent r].
Qed.
