(* ===== verification/Netlink.v ===== *)
(** * Netlink link-state events

    [crates/desmos-core/src/net/watcher.rs]: the parser of [RTM_NEWLINK] and
    [RTM_DELLINK] datagrams on a little-endian host, and draining the socket.  The
    parser reads through raw pointers; a read or slice past the end of the buffer
    is [None], so that memory safety on any datagram is a theorem.  It is compared
    with an abstract syntax of link messages and their wire encoding. *)

From stdpp Require Import base numbers list strings.
From Stdlib Require Import ZArith Lia.
From S2P Require Import Prelude Str Wire Pipeline Stun.

Inductive InterfaceEvent :=
| LinkUp (name : str) (ifindex : Z)
| LinkDown (name : str) (ifindex : Z).

Definition event_name (e : InterfaceEvent) : str := match e with LinkUp n _ | LinkDown n _ => n end.
Definition event_is_up (e : InterfaceEvent) : bool := match e with LinkUp _ _ => true | LinkDown _ _ => false end.

(** ** The kernel's structures *)

Definition RTM_NEWLINK : Z := 16.
Definition RTM_DELLINK : Z := 17.
Definition IFLA_IFNAME : Z := 3.
Definition IFF_UP : Z := 1.

Definition NLMSG_SIZE : nat := 16.
Definition IFINFO_SIZE : nat := 16.
Definition RTATTR_SIZE : nat := 4.

(** An integer of [n] bytes at [off], the byte order of the host. *)
Definition le_at (n : nat) (bs : bytes) (off : nat) : panics Z :=
  b ← slice_checked off (off + n) bs; Some (from_be_bytes (rev b)).

(** The two's complement reading of a 32-bit pattern. *)
Definition as_i32 (x : Z) : Z := if x <? 2 ^ 31 then x else x - 2 ^ 32.

Record Nlmsghdr := mkNlmsghdr { nlmsg_len : Z; nlmsg_type : Z }.
Record Ifinfomsg := mkIfinfomsg { ifi_index : Z; ifi_flags : Z }.
Record Rtattr := mkRtattr { rta_len : Z; rta_type : Z }.

(** [ptr::read_unaligned] of each structure: the whole of it must be in the
    buffer; the fields the parser uses. *)
Definition read_nlmsghdr (bs : bytes) (off : nat) : panics Nlmsghdr :=
  _ ← slice_checked off (off + NLMSG_SIZE) bs;
  len ← le_at 4 bs off; ty ← le_at 2 bs (off + 4); Some (mkNlmsghdr len ty).
Definition read_ifinfomsg (bs : bytes) (off : nat) : panics Ifinfomsg :=
  _ ← slice_checked off (off + IFINFO_SIZE) bs;
  index ← le_at 4 bs (off + 4); flags ← le_at 4 bs (off + 8); Some (mkIfinfomsg (as_i32 index) flags).
Definition read_rtattr (bs : bytes) (off : nat) : panics Rtattr :=
  _ ← slice_checked off (off + RTATTR_SIZE) bs;
  len ← le_at 2 bs off; ty ← le_at 2 bs (off + 2); Some (mkRtattr len ty).

(** [(n + 3) & !3]. *)
Definition align4 (n : nat) : nat := Z.to_nat (Z.land (Z.of_nat n + 3) (umax 64 - 3)).

(** ** Strings of the kernel *)

(** [CStr::from_bytes_until_nul]: the bytes before the first zero. *)
Fixpoint until_nul (bs : bytes) : option bytes :=
  match bs with
  | [] => None
  | b :: bs => if b =? 0 then Some [] else r ← until_nul bs; Some (b :: r)
  end.

(** [to_string_lossy]: each maximal ill-formed subsequence becomes U+FFFD. *)
Definition second_ok (b0 b1 : Z) : bool :=
  if b0 =? 0xE0 then (0xA0 <=? b1) && (b1 <? 0xC0)
  else if b0 =? 0xED then (0x80 <=? b1) && (b1 <? 0xA0)
  else if b0 =? 0xF0 then (0x90 <=? b1) && (b1 <? 0xC0)
  else if b0 =? 0xF4 then (0x80 <=? b1) && (b1 <? 0x90)
  else is_cont b1.

Fixpoint from_utf8_lossy (bs : bytes) : str :=
  match bs with
  | [] => []
  | b0 :: r0 =>
      if b0 <? 0x80 then b0 :: from_utf8_lossy r0
      else if (b0 <? 0xC2) || (0xF5 <=? b0) then 0xFFFD :: from_utf8_lossy r0
      else
        match r0 with
        | [] => [0xFFFD]
        | b1 :: r1 =>
            if negb (second_ok b0 b1) then 0xFFFD :: from_utf8_lossy r0
            else if b0 <? 0xE0 then (b0 - 0xC0) * 64 + (b1 - 0x80) :: from_utf8_lossy r1
            else
              match r1 with
              | [] => [0xFFFD]
              | b2 :: r2 =>
                  if negb (is_cont b2) then 0xFFFD :: from_utf8_lossy r1
                  else if b0 <? 0xF0 then
                    (b0 - 0xE0) * 4096 + (b1 - 0x80) * 64 + (b2 - 0x80) :: from_utf8_lossy r2
                  else
                    match r2 with
                    | [] => [0xFFFD]
                    | b3 :: r3 =>
                        if negb (is_cont b3) then 0xFFFD :: from_utf8_lossy r2
                        else (b0 - 0xF0) * 262144 + (b1 - 0x80) * 4096 + (b2 - 0x80) * 64 + (b3 - 0x80)
                             :: from_utf8_lossy r3
                    end
              end
        end
  end.

(** ** The parser *)

(** The attribute loop: the interface name, empty when there is none.  [None] is
    an access out of bounds or exhausted fuel. *)
Fixpoint find_ifname (fuel : nat) (bs : bytes) (attrs_end ao : nat) : panics str :=
  match fuel with
  | O => None
  | S fuel =>
      if (ao + RTATTR_SIZE <=? attrs_end)%nat then
        rta ← read_rtattr bs ao;
        let rta_len := Z.to_nat (rta_len rta) in
        if ((rta_len <? RTATTR_SIZE) || (attrs_end <? ao + rta_len))%nat then Some []
        else if rta_type rta =? IFLA_IFNAME then
          data ← slice_checked (ao + RTATTR_SIZE) (ao + rta_len) bs;
          match until_nul data with
          | Some cstr => Some (from_utf8_lossy cstr)
          | None => Some []
          end
        else find_ifname fuel bs attrs_end (ao + align4 rta_len)
      else Some []
  end.

(** One link message at [off], of [msg_len] bytes: its event, if any. *)
Definition link_event (bs : bytes) (off msg_len : nat) (msg_type : Z) : panics (list InterfaceEvent) :=
  if ((msg_type =? RTM_NEWLINK) || (msg_type =? RTM_DELLINK)) && (NLMSG_SIZE + IFINFO_SIZE <=? msg_len)%nat then
    ifinfo ← read_ifinfomsg bs (off + NLMSG_SIZE);
    let attrs_start := (off + NLMSG_SIZE + IFINFO_SIZE)%nat in
    let attrs_end := (off + msg_len)%nat in
    ifname ← find_ifname (S (length bs)) bs attrs_end attrs_start;
    if negb (length ifname =? 0)%nat then
      let is_up := negb (Z.land (ifi_flags ifinfo) IFF_UP =? 0) && (msg_type =? RTM_NEWLINK) in
      let ifindex := ifi_index ifinfo in
      Some [if is_up then LinkUp ifname ifindex else LinkDown ifname ifindex]
    else Some []
  else Some [].

Fixpoint parse_events_loop (fuel : nat) (bs : bytes) (off : nat) (out : list InterfaceEvent)
    : panics (list InterfaceEvent) :=
  match fuel with
  | O => None
  | S fuel =>
      if (off + NLMSG_SIZE <=? length bs)%nat then
        hdr ← read_nlmsghdr bs off;
        let msg_len := Z.to_nat (nlmsg_len hdr) in
        if ((msg_len <? NLMSG_SIZE) || (length bs <? off + msg_len))%nat then Some out
        else
          ev ← link_event bs off msg_len (nlmsg_type hdr);
          parse_events_loop fuel bs (off + align4 msg_len) (out ++ ev)
      else Some out
  end.

Definition parse_events (bs : bytes) : panics (list InterfaceEvent) :=
  parse_events_loop (S (length bs)) bs 0 [].

Definition NL_BUF_LEN : nat := 8192.

(** [drain_once]: what [recv] returned; [EAGAIN] is an empty list. *)
Definition EWOULDBLOCK : Z := 11.
Definition drain_once (recv : result bytes IoError) : panics (result (list InterfaceEvent) IoError) :=
  match read_into NL_BUF_LEN recv with
  | Err (OsError code) => Some (if code =? EWOULDBLOCK then Ok [] else Err (OsError code))
  | Err e => Some (Err e)
  | Ok bs => events ← parse_events bs; Some (Ok events)
  end.

(** ** Abstract messages *)

(** A link message carries an [ifinfomsg] (its first four bytes, the index, the
    flags and the change mask) and attributes; other messages any payload. *)
Inductive nl_body :=
| LinkBody (head : bytes) (index flags : Z) (change : bytes) (attrs : list (Z * bytes))
| OtherBody (payload : bytes).

(** The type, then the ten bytes of flags, sequence number and port. *)
Record nl_message := mkNlMessage { nl_type : Z; nl_rest : bytes; nl_payload : nl_body }.

Definition enc_le (n : nat) (x : Z) : bytes := rev (to_be_bytes n x).
Definition padding (n : nat) : bytes := replicate (align4 n - n) 0.

(** An attribute, padded to four bytes. *)
Definition enc_attr (a : Z * bytes) : bytes :=
  enc_le 2 (Z.of_nat (4 + length a.2)) ++ enc_le 2 a.1 ++ a.2 ++ padding (4 + length a.2).

Definition enc_body (b : nl_body) : bytes :=
  match b with
  | LinkBody head index flags change attrs =>
      head ++ enc_le 4 (index mod 2 ^ 32) ++ enc_le 4 flags ++ change ++ (attrs ≫= enc_attr)
  | OtherBody payload => payload
  end.

Definition nlmsg_bytes (m : nl_message) : nat := (16 + length (enc_body (nl_payload m)))%nat.

Definition enc_nlmsg (m : nl_message) : bytes :=
  enc_le 4 (Z.of_nat (nlmsg_bytes m)) ++ enc_le 2 (nl_type m) ++ nl_rest m ++ enc_body (nl_payload m)
  ++ padding (nlmsg_bytes m).

Definition is_link_type (ty : Z) : bool := (ty =? RTM_NEWLINK) || (ty =? RTM_DELLINK).

Definition nl_attr_ok (a : Z * bytes) : Prop := in_width 16 a.1 ∧ in_width 16 (Z.of_nat (4 + length a.2)).
Definition body_ok (ty : Z) (b : nl_body) : Prop :=
  match b with
  | LinkBody head index flags change attrs =>
      length head = 4%nat ∧ length change = 4%nat ∧ - 2 ^ 31 <= index < 2 ^ 31 ∧ in_width 32 flags ∧ Forall nl_attr_ok attrs
  | OtherBody _ => is_link_type ty = false
  end.
Definition nlmsg_ok (m : nl_message) : Prop :=
  in_width 16 (nl_type m) ∧ length (nl_rest m) = 10%nat ∧ body_ok (nl_type m) (nl_payload m) ∧
  in_width 32 (Z.of_nat (nlmsg_bytes m)).

(** The name a message carries: that of its first [IFLA_IFNAME] attribute. *)
Fixpoint ifname_of (attrs : list (Z * bytes)) : str :=
  match attrs with
  | [] => []
  | (ty, data) :: attrs =>
      if ty =? IFLA_IFNAME then match until_nul data with Some c => from_utf8_lossy c | None => [] end
      else ifname_of attrs
  end.

(** The event a message stands for. *)
Definition event_of (m : nl_message) : list InterfaceEvent :=
  match nl_payload m with
  | LinkBody _ index flags _ attrs =>
      if is_link_type (nl_type m) then
        match ifname_of attrs with
        | [] => []
        | name =>
            [if negb (Z.land flags IFF_UP =? 0) && (nl_type m =? RTM_NEWLINK) then LinkUp name index
             else LinkDown name index]
        end
      else []
  | OtherBody _ => []
  end.

(** ** Lemmas *)

Lemma align4_spec n : Z.of_nat n + 3 < 2 ^ 64 → (n <= align4 n <= n + 3)%nat ∧ (align4 n mod 4 = 0)%nat.
Proof.
  intros Hn. unfold align4. rewrite land_pad by lia. set (x := Z.of_nat n + 3).
  pose proof (Z.mod_pos_bound x 4). pose proof (Z.div_mod x 4). split; [lia|].
  replace (x - x mod 4) with (4 * (x / 4)) by lia. assert (0 <= x / 4) by (apply Z.div_pos; lia).
  rewrite Z2Nat.inj_mul by lia. change (Z.to_nat 4) with 4%nat. rewrite Nat.mul_comm. apply Nat.Div0.mod_mul.
Qed.

Lemma align4_aligned n : Z.of_nat n + 3 < 2 ^ 64 → (n mod 4 = 0)%nat → align4 n = n.
Proof.
  intros Hn Hm. unfold align4. rewrite land_pad by lia.
  apply Nat.Div0.mod_divides in Hm as [k ->]. rewrite Nat2Z.inj_mul.
  replace (Z.of_nat 4 * Z.of_nat k + 3) with (3 + Z.of_nat k * 4) by lia. rewrite Z.mod_add by lia.
  change (3 mod 4) with 3. lia.
Qed.

Lemma length_enc_le n x : length (enc_le n x) = n.
Proof. unfold enc_le. by rewrite length_rev, length_to_be_bytes. Qed.

Lemma le_at_drop n bs off x rest : n ≠ O → in_width (8 * Z.of_nat n) x →
  drop off bs = enc_le n x ++ rest → le_at n bs off = Some x.
Proof.
  intros Hn Hx Hd. unfold le_at. rewrite <-(length_enc_le n x).
  rewrite (slice_checked_drop _ _ _ _ Hd) by (intros E; apply (f_equal length) in E; rewrite length_enc_le in E; done).
  cbn [mbind option_bind]. unfold enc_le. rewrite rev_involutive. by rewrite from_to_be_bytes.
Qed.

Lemma in_bounds (bs : bytes) off n : (off + n <= length bs)%nat → slice_checked off (off + n) bs = Some (slice off (off + n) bs).
Proof. intros H. apply slice_checked_some; lia. Qed.

Lemma le_at_bounded n bs off : Forall byte_ok bs → (off + n <= length bs)%nat →
  ∃ x, le_at n bs off = Some x ∧ in_width (8 * Z.of_nat n) x.
Proof.
  intros Hb Hl. unfold le_at. rewrite in_bounds by done. eexists. split; [done|].
  assert (Hlen : length (rev (slice off (off + n) bs)) = n) by (rewrite length_rev, length_slice; lia).
  rewrite <-Hlen at 1. apply from_be_bytes_range. apply Forall_rev. unfold slice. by apply Forall_take, Forall_drop.
Qed.

Lemma read_rtattr_bounded bs off : Forall byte_ok bs → (off + 4 <= length bs)%nat →
  ∃ r, read_rtattr bs off = Some r ∧ in_width 16 (rta_len r).
Proof.
  intros Hb Hl. unfold read_rtattr, RTATTR_SIZE. rewrite in_bounds by done. cbn [mbind option_bind].
  destruct (le_at_bounded 2 bs off Hb) as (x & -> & Hx); [lia|].
  destruct (le_at_bounded 2 bs (off + 2) Hb) as (y & -> & _); [lia|]. by eexists.
Qed.

Lemma find_ifname_safe bs attrs_end : Forall byte_ok bs → (attrs_end <= length bs)%nat → ∀ fuel ao,
  (attrs_end < fuel + ao)%nat → (0 < fuel)%nat → is_Some (find_ifname fuel bs attrs_end ao).
Proof.
  intros Hb He fuel. induction fuel as [|fuel IH]; intros ao Hf H0; [lia|]. cbn [find_ifname].
  unfold RTATTR_SIZE. destruct (Nat.leb_spec (ao + 4) attrs_end) as [Hin|]; [|done].
  destruct (read_rtattr_bounded bs ao Hb) as (r & -> & Hr); [lia|]. cbn [mbind option_bind].
  set (n := Z.to_nat (rta_len r)). destruct (Nat.ltb_spec n 4) as [|Hn]; [done|].
  destruct (Nat.ltb_spec attrs_end (ao + n)) as [|Hle]; [done|]. cbn [orb].
  destruct (rta_type r =? IFLA_IFNAME).
  - unfold slice_checked. rewrite (proj2 (Nat.leb_le _ _)), (proj2 (Nat.leb_le _ _)) by lia.
    cbn [andb mbind option_bind]. by destruct (until_nul _).
  - destruct (align4_spec n) as [Ha _]; [zlia|]. apply IH; lia.
Qed.

Lemma link_event_safe bs off n ty : Forall byte_ok bs → (off + n <= length bs)%nat → is_Some (link_event bs off n ty).
Proof.
  intros Hb Hl. unfold link_event, NLMSG_SIZE, IFINFO_SIZE. destruct (_ || _); [|done]. cbn [andb].
  destruct (Nat.leb_spec (16 + 16) n); [|done]. unfold read_ifinfomsg, IFINFO_SIZE. rewrite in_bounds by lia.
  cbn [mbind option_bind].
  destruct (le_at_bounded 4 bs (off + 16 + 4) Hb) as (x & -> & _); [lia|].
  destruct (le_at_bounded 4 bs (off + 16 + 8) Hb) as (y & -> & _); [lia|]. cbn [mbind option_bind].
  destruct (find_ifname_safe bs (off + n) Hb Hl (S (length bs)) (off + 16 + 16)) as [name ->]; [lia|lia|].
  cbn [mbind option_bind]. by destruct (negb _).
Qed.

Lemma read_nlmsghdr_bounded bs off : Forall byte_ok bs → (off + 16 <= length bs)%nat →
  ∃ h, read_nlmsghdr bs off = Some h ∧ in_width 32 (nlmsg_len h).
Proof.
  intros Hb Hl. unfold read_nlmsghdr, NLMSG_SIZE. rewrite in_bounds by done. cbn [mbind option_bind].
  destruct (le_at_bounded 4 bs off Hb) as (x & -> & Hx); [lia|].
  destruct (le_at_bounded 2 bs (off + 4) Hb) as (y & -> & _); [lia|]. by eexists.
Qed.

Lemma parse_events_loop_safe bs : Forall byte_ok bs → ∀ fuel off out,
  (length bs < fuel + off)%nat → (0 < fuel)%nat → is_Some (parse_events_loop fuel bs off out).
Proof.
  intros Hb fuel. induction fuel as [|fuel IH]; intros off out Hf H0; [lia|]. cbn [parse_events_loop].
  unfold NLMSG_SIZE. destruct (Nat.leb_spec (off + 16) (length bs)) as [Hin|]; [|done].
  destruct (read_nlmsghdr_bounded bs off Hb Hin) as (h & -> & Hh). cbn [mbind option_bind].
  set (n := Z.to_nat (nlmsg_len h)). destruct (Nat.ltb_spec n 16) as [|Hn]; [done|].
  destruct (Nat.ltb_spec (length bs) (off + n)) as [|Hle]; [done|]. cbn [orb].
  destruct (link_event_safe bs off n (nlmsg_type h) Hb Hle) as [ev ->]. cbn [mbind option_bind].
  destruct (align4_spec n) as [Ha _]; [zlia|]. apply IH; lia.
Qed.

Lemma parse_events_safe bs : Forall byte_ok bs → is_Some (parse_events bs).
Proof. intros Hb. apply parse_events_loop_safe; [done|lia|lia]. Qed.

Lemma slice_checked_drop' {A} (bs front rest : list A) pos n :
  drop pos bs = front ++ rest → (pos + length front <= length bs)%nat → n = (pos + length front)%nat →
  slice_checked pos n bs = Some front.
Proof.
  intros Hd Hl ->. unfold slice_checked, slice.
  rewrite (proj2 (Nat.leb_le _ _)), (proj2 (Nat.leb_le _ _)) by lia. cbn [andb].
  replace (pos + length front - pos)%nat with (length front) by lia. by rewrite Hd, take_app_length.
Qed.

Lemma drop_pos' {A} (packet front rest : list A) pos pos' :
  drop pos packet = front ++ rest → pos' = (pos + length front)%nat → drop pos' packet = rest.
Proof. intros Hd ->. by apply drop_pos. Qed.

Lemma length_padding n : Z.of_nat n + 3 < 2 ^ 64 → (n + length (padding n))%nat = align4 n.
Proof. intros Hn. unfold padding. rewrite length_replicate. destruct (align4_spec n Hn). lia. Qed.

Lemma length_enc_attr a : nl_attr_ok a → length (enc_attr a) = align4 (4 + length a.2).
Proof.
  intros [_ Ha]. unfold enc_attr. rewrite !length_app, !length_enc_le.
  pose proof (length_padding (4 + length a.2) ltac:(zlia)). lia.
Qed.

Lemma read_rtattr_enc bs ao a rest : nl_attr_ok a → drop ao bs = enc_attr a ++ rest →
  read_rtattr bs ao = Some (mkRtattr (Z.of_nat (4 + length a.2)) a.1) ∧
  (ao + 4 + length a.2 <= length bs)%nat ∧
  drop (ao + 4) bs = a.2 ++ padding (4 + length a.2) ++ rest.
Proof.
  intros [Ht Hl] Hd. unfold enc_attr in Hd. rewrite <-!app_assoc in Hd.
  pose proof (drop_pos' _ _ _ _ (ao + 2) Hd ltac:(by rewrite length_enc_le)) as Hd2.
  pose proof (drop_pos' _ _ _ _ (ao + 4) Hd2 ltac:(rewrite length_enc_le; lia)) as Hd4.
  assert (Hlen : (ao + 4 + length a.2 <= length bs)%nat).
  { apply (f_equal length) in Hd. rewrite length_drop, !length_app, !length_enc_le in Hd. lia. }
  split; [|done]. unfold read_rtattr, RTATTR_SIZE. rewrite in_bounds by lia. cbn [mbind option_bind].
  rewrite (le_at_drop 2 bs ao _ _ ltac:(done) Hl Hd), (le_at_drop 2 bs (ao + 2) _ _ ltac:(done) Ht Hd2). done.
Qed.

Lemma find_ifname_enc bs rest attrs : ∀ fuel ao, Forall nl_attr_ok attrs →
  drop ao bs = (attrs ≫= enc_attr) ++ rest → (ao <= length bs)%nat → (length attrs < fuel)%nat →
  find_ifname fuel bs (ao + length (attrs ≫= enc_attr)) ao = Some (ifname_of attrs).
Proof.
  induction attrs as [|[ty data] attrs IH]; intros [|fuel] ao Hok Hd Hle Hf; try (simpl in Hf; lia);
    cbn [find_ifname]; unfold RTATTR_SIZE.
  { by rewrite (proj2 (Nat.leb_gt _ _)) by (simpl; lia). }
  apply Forall_cons in Hok as [Ha Hok]. rewrite bind_cons in *. rewrite <-app_assoc in Hd.
  destruct (read_rtattr_enc _ _ _ _ Ha Hd) as (Hr & Hlen & Hd4). rewrite Hr. cbn [mbind option_bind rta_len rta_type fst snd] in *.
  rewrite Nat2Z.id. pose proof (length_enc_attr _ Ha) as Hea. cbn [snd] in Hea.
  destruct (align4_spec (4 + length data)) as [Hal _]; [destruct Ha as [_ Ha]; cbn [snd] in Ha; zlia|].
  rewrite length_app, Hea. rewrite (proj2 (Nat.leb_le _ _)), !(proj2 (Nat.ltb_ge _ _)) by lia. cbn [orb].
  cbn [ifname_of]. destruct (ty =? IFLA_IFNAME).
  - rewrite (slice_checked_drop' _ _ _ _ _ Hd4) by lia. cbn [mbind option_bind]. by destruct (until_nul data).
  - pose proof (drop_pos' _ _ _ _ (ao + align4 (4 + length data)) Hd ltac:(by rewrite Hea)) as Hd'.
    rewrite Nat.add_assoc. apply IH; [done|done| |simpl in Hf; lia].
    apply (f_equal length) in Hd. rewrite length_drop, length_app, Hea in Hd. lia.
Qed.

Lemma as_i32_mod index : - 2 ^ 31 <= index < 2 ^ 31 → as_i32 (index mod 2 ^ 32) = index.
Proof.
  intros Hi. unfold as_i32. destruct (Z.lt_ge_cases index 0) as [Hn|Hp].
  - rewrite <-(Z.mod_add index 1), Z.mod_small by lia. rewrite (proj2 (Z.ltb_ge _ _)) by lia. lia.
  - rewrite Z.mod_small by lia. by rewrite (proj2 (Z.ltb_lt _ _)) by lia.
Qed.

Lemma attrs_count attrs : Forall nl_attr_ok attrs → (length attrs <= length (attrs ≫= enc_attr))%nat.
Proof.
  induction 1 as [|a attrs Ha Hok IH]; [done|]. rewrite bind_cons, length_app, length_enc_attr by done. cbn [length].
  destruct (align4_spec (4 + length a.2)) as [? _]; [destruct Ha; zlia|]. lia.
Qed.

(** The message at [off] gives its event. *)
Lemma link_event_enc bs off m rest : nlmsg_ok m →
  drop (off + 16) bs = enc_body (nl_payload m) ++ rest → (off + nlmsg_bytes m <= length bs)%nat →
  link_event bs off (nlmsg_bytes m) (nl_type m) = Some (event_of m).
Proof.
  intros (Ht & _ & Hb & Hl) Hd Hlen. unfold link_event, event_of. fold (is_link_type (nl_type m)).
  unfold NLMSG_SIZE, IFINFO_SIZE. unfold nlmsg_bytes in *.
  destruct (nl_payload m) as [head index flags change attrs|payload]; cbn [enc_body body_ok] in *; [|by rewrite Hb].
  destruct (is_link_type (nl_type m)); [|done]. cbn [andb].
  destruct Hb as (Hh & Hc & Hi & Hfl & Hat). rewrite !length_app, !length_enc_le, Hh, Hc in *.
  rewrite (proj2 (Nat.leb_le _ _)) by lia. rewrite <-!app_assoc in Hd.
  pose proof (drop_pos' _ _ _ _ (off + 16 + 4) Hd ltac:(lia)) as Hd4.
  pose proof (drop_pos' _ _ _ _ (off + 16 + 8) Hd4 ltac:(rewrite length_enc_le; lia)) as Hd8.
  pose proof (drop_pos' _ _ _ _ (off + 16 + 12) Hd8 ltac:(rewrite length_enc_le; lia)) as Hd12.
  pose proof (drop_pos' _ _ _ _ (off + 16 + 16) Hd12 ltac:(lia)) as Hd16.
  unfold read_ifinfomsg, IFINFO_SIZE. rewrite in_bounds by lia. cbn [mbind option_bind].
  rewrite (le_at_drop 4 bs _ _ _ ltac:(done) (Z.mod_pos_bound index (2 ^ 32) eq_refl) Hd4).
  rewrite (le_at_drop 4 bs _ _ _ ltac:(done) Hfl Hd8). cbn [mbind option_bind ifi_flags ifi_index].
  replace (off + (16 + (4 + (4 + (4 + (4 + length (attrs ≫= enc_attr)))))))%nat
    with (off + 16 + 16 + length (attrs ≫= enc_attr))%nat by lia.
  pose proof (attrs_count attrs Hat).
  rewrite (find_ifname_enc bs rest attrs (S (length bs)) (off + 16 + 16) Hat Hd16) by lia. cbn [mbind option_bind].
  rewrite as_i32_mod by done. by destruct (ifname_of attrs).
Qed.

Lemma length_enc_nlmsg m : nlmsg_ok m → length (enc_nlmsg m) = align4 (nlmsg_bytes m).
Proof.
  intros (_ & Hr & _ & Hl). unfold enc_nlmsg. rewrite !length_app, !length_enc_le, Hr.
  pose proof (length_padding (nlmsg_bytes m) ltac:(zlia)). unfold nlmsg_bytes in *. lia.
Qed.

Lemma parse_events_loop_enc bs rest msgs : ∀ fuel off out, Forall nlmsg_ok msgs →
  drop off bs = (msgs ≫= enc_nlmsg) ++ rest → (length rest < 16)%nat → (length msgs < fuel)%nat →
  (off <= length bs)%nat → parse_events_loop fuel bs off out = Some (out ++ (msgs ≫= event_of)).
Proof.
  induction msgs as [|m msgs IH]; intros [|fuel] off out Hok Hd Hrest Hf Hoff; try (simpl in Hf; lia);
    cbn [parse_events_loop]; unfold NLMSG_SIZE.
  { apply (f_equal length) in Hd. rewrite length_drop in Hd. cbn [mbind list_bind app] in Hd.
    rewrite (proj2 (Nat.leb_gt _ _)) by lia. by rewrite app_nil_r. }
  apply Forall_cons in Hok as [Hm Hok]. rewrite (bind_cons enc_nlmsg), <-app_assoc in Hd. rewrite (bind_cons event_of).
  pose proof (length_enc_nlmsg m Hm) as Hlm. pose proof Hm as (Ht & Hr & Hb & Hw).
  destruct (align4_spec (nlmsg_bytes m)) as [Hal _]; [zlia|].
  pose proof (drop_pos' _ _ _ _ (off + align4 (nlmsg_bytes m)) Hd ltac:(by rewrite Hlm)) as Hnext.
  assert (Hlen : (off + align4 (nlmsg_bytes m) <= length bs)%nat).
  { pose proof (f_equal length Hd) as E. rewrite length_drop, length_app, Hlm in E. unfold nlmsg_bytes in *. lia. }
  unfold enc_nlmsg in Hd. rewrite <-!app_assoc in Hd.
  pose proof (drop_pos' _ _ _ _ (off + 4) Hd ltac:(by rewrite length_enc_le)) as Hd4.
  pose proof (drop_pos' _ _ _ _ (off + 6) Hd4 ltac:(rewrite length_enc_le; lia)) as Hd6.
  pose proof (drop_pos' _ _ _ _ (off + 16) Hd6 ltac:(lia)) as Hd16.
  assert (H16 : (16 <= nlmsg_bytes m)%nat) by (unfold nlmsg_bytes; lia).
  rewrite (proj2 (Nat.leb_le _ _)) by lia. unfold read_nlmsghdr, NLMSG_SIZE. rewrite in_bounds by lia. cbn [mbind option_bind].
  rewrite (le_at_drop 4 bs _ _ _ ltac:(done) Hw Hd), (le_at_drop 2 bs _ _ _ ltac:(done) Ht Hd4).
  cbn [mbind option_bind nlmsg_len nlmsg_type]. rewrite Nat2Z.id. rewrite !(proj2 (Nat.ltb_ge _ _)) by lia. cbn [orb].
  rewrite (link_event_enc bs off m _ Hm Hd16) by lia. cbn [mbind option_bind].
  rewrite (IH fuel _ _ Hok Hnext Hrest) by (simpl in Hf; lia). by rewrite <-app_assoc.
Qed.

Lemma from_utf8_lossy_ascii s : is_ascii s → from_utf8_lossy s = s.
Proof.
  induction 1 as [|c s Hc Hs IH]; [done|]. cbn [from_utf8_lossy]. rewrite (proj2 (Z.ltb_lt _ _)) by lia. by rewrite IH.
Qed.

Lemma until_nul_app name rest : Forall (fun b => b ≠ 0) name → until_nul (name ++ 0 :: rest) = Some name.
Proof.
  induction 1 as [|b name Hb Hn IH]; [done|]. cbn [app until_nul]. rewrite (proj2 (Z.eqb_neq _ _)) by done. by rewrite IH.
Qed.

(** ** Properties *)

(** C37: The netlink parser is memory safe and exact.  On any datagram the raw
    reads and the slices stay inside the buffer and both loops end; and a datagram
    made of well-formed messages (and less than a header of trailing bytes) gives
    exactly their events, in order: up for a new-link message with the flag set,
    down otherwise, nothing without a name or for other message types. *)
Theorem netlink_exact (bs : bytes) :
  Forall byte_ok bs →
  is_Some (parse_events bs) ∧
  ∀ msgs rest, Forall nlmsg_ok msgs → (length rest < NLMSG_SIZE)%nat → bs = (msgs ≫= enc_nlmsg) ++ rest →
    parse_events bs = Some (msgs ≫= event_of).
Proof.
  intros Hb. split; [by apply parse_events_safe|]. intros msgs rest Hok Hrest E.
  unfold parse_events. rewrite (parse_events_loop_enc bs rest msgs (S (length bs)) 0 []); [done|done|by rewrite drop_0|done| |lia].
  rewrite E, length_app. assert (length msgs <= length (msgs ≫= enc_nlmsg))%nat; [|lia].
  clear - Hok. induction Hok as [|m msgs Hm Hok IH]; [done|]. rewrite bind_cons, length_app, length_enc_nlmsg by done.
  destruct (align4_spec (nlmsg_bytes m)) as [? _]; [destruct Hm as (_ & _ & _ & ?); zlia|]. unfold nlmsg_bytes in *. cbn [length]. lia.
Qed.

(** The watcher never fails on a datagram or an empty socket; [EAGAIN] is an
    empty list and any other error is passed on. *)
Theorem drain_once_total (recv : result bytes IoError) :
  match recv with Ok bs => Forall byte_ok bs | Err _ => True end →
  match recv with
  | Ok bs => ∃ events, drain_once recv = Some (Ok events) ∧ parse_events (take NL_BUF_LEN bs) = Some events
  | Err (OsError code) => drain_once recv = Some (if code =? EWOULDBLOCK then Ok [] else Err (OsError code))
  | Err e => drain_once recv = Some (Err e)
  end.
Proof.
  destruct recv as [bs|[]]; intros Hb; try done. unfold drain_once. cbn [read_into].
  destruct (parse_events_safe (take NL_BUF_LEN bs)) as [events E]; [by apply Forall_take|].
  exists events. by rewrite E.
Qed.

(** ** Witnesses *)

Definition demo_link (ty flags : Z) : nl_message :=
  mkNlMessage ty (replicate 10 0) (LinkBody [0; 0; 1; 0] 3 flags [255; 255; 255; 255] [(13, [1]); (IFLA_IFNAME, lit "eth0" ++ [0])]).
Definition demo_datagram : bytes :=
  enc_nlmsg (demo_link RTM_NEWLINK 0x1043) ++ enc_nlmsg (mkNlMessage 3 (replicate 10 0) (OtherBody [7; 7; 7]))
  ++ enc_nlmsg (demo_link RTM_DELLINK 0x1043).

Lemma netlink_exact_witness : parse_events demo_datagram = Some [LinkUp (lit "eth0") 3; LinkDown (lit "eth0") 3].
Proof.
  assert (Hb : Forall byte_ok demo_datagram) by (apply (bool_decide_unpack _); vm_compute; exact I).
  apply (proj2 (netlink_exact demo_datagram Hb)
    [demo_link RTM_NEWLINK 0x1043; mkNlMessage 3 (replicate 10 0) (OtherBody [7; 7; 7]); demo_link RTM_DELLINK 0x1043] []);
    [|apply Nat.ltb_lt; reflexivity|vm_compute; reflexivity].
  repeat constructor; vm_compute; (split; congruence) || congruence || done.
Defined.

Lemma drain_once_total_witness : drain_once (Err (OsError 11)) = Some (Ok []).
Proof. exact (drain_once_total (Err (OsError 11)) I). Defined.
