(* ===== verification/HolePunch.v ===== *)
(** * Hole punching

    [crates/desmos-core/src/p2p/holepunch.rs].  The peer-to-peer loops block on
    one UDP socket, so they are modelled on a socket with a clock: [inbox] holds
    what the network will deliver and when, a receive blocks until the next
    arrival or until the read timeout, and [Instant::now] reads the clock.
    Sending takes no time.  Times are in nanoseconds.  The theorems give the
    exactness of the probe codec, termination, soundness and completeness of
    the punching loop, and the flood that makes it overrun its deadline. *)

From stdpp Require Import base numbers list strings.
From Stdlib Require Import ZArith Lia Ascii.
From S2P Require Import Prelude Stun.

Definition bytes_of_string (s : string) : bytes :=
  (fun a => Z.of_N (N_of_ascii a)) <$> String.list_ascii_of_string s.

(** ** The socket *)

Inductive Incoming :=
| Arrives (datagram : bytes) (from : SocketAddr)
| RecvFails (e : string).

Record Socket := mkSocket {
  clock : Z;
  inbox : list (Z * Incoming);
  sent : list (SocketAddr * bytes);
  read_timeout : Z;
  (** destinations [send_to] fails for, and the failures of the other calls *)
  send_fails : SocketAddr → option string;
  timeout_fails : option string;
  connreset_fails : option string;
}.

Definition set_clock (t : Z) (w : Socket) : Socket :=
  mkSocket t (inbox w) (sent w) (read_timeout w) (send_fails w) (timeout_fails w) (connreset_fails w).

Definition pop_inbox (w : Socket) : Socket :=
  mkSocket (clock w) (tail (inbox w)) (sent w) (read_timeout w) (send_fails w) (timeout_fails w)
    (connreset_fails w).

Definition send_to (data : bytes) (dst : SocketAddr) (w : Socket) : Socket * result () string :=
  match send_fails w dst with
  | Some e => (w, Err e)
  | None => (mkSocket (clock w) (inbox w) (sent w ++ [(dst, data)]) (read_timeout w) (send_fails w)
               (timeout_fails w) (connreset_fails w), Ok ())
  end.

Definition set_read_timeout (d : Z) (w : Socket) : Socket * result () string :=
  match timeout_fails w with
  | Some e => (w, Err e)
  | None => (mkSocket (clock w) (inbox w) (sent w) d (send_fails w) (timeout_fails w)
               (connreset_fails w), Ok ())
  end.

Definition disable_udp_connreset (w : Socket) : result () string :=
  match connreset_fails w with Some e => Err e | None => Ok () end.

(** [recv_from] into a buffer of [cap] bytes: the excess is discarded. *)
Definition recv_from (cap : Z) (w : Socket) : Socket * result (bytes * SocketAddr) RecvError :=
  let expired := (set_clock (clock w + read_timeout w) w, Err RecvTimedOut) in
  match inbox w with
  | [] => expired
  | (t, ev) :: _ =>
      if t <=? clock w + read_timeout w then
        let w' := pop_inbox (set_clock (Z.max (clock w) t) w) in
        match ev with
        | Arrives d from => (w', Ok (take (Z.to_nat cap) d, from))
        | RecvFails e => (w', Err (RecvOther e))
        end
      else expired
  end.

Definition from_millis (ms : Z) : Z := ms * 1000000.

(** ** Hole punching *)

Module HolePunch.

Definition PROBE_LEN : nat := 20.
Definition PING_MAGIC : bytes := bytes_of_string "DESMOS-PING" ++ [0].
Definition PONG_MAGIC : bytes := bytes_of_string "DESMOS-PONG" ++ [0].

Inductive ProbeKind := Ping | Pong.

Inductive P2pError :=
| P2pTimeout
| BadConfig (reason : string)
| P2pIo (e : string).

Record HolePunchConfig := mkHolePunchConfig {
  peer_primary : SocketAddr;
  peer_alt_ports : list Z;
  deadline_ms : Z;
  interval_ms : Z;
}.

Definition HolePunchConfig_cone (peer : SocketAddr) (deadline_ms interval_ms : Z) : HolePunchConfig :=
  mkHolePunchConfig peer [] deadline_ms interval_ms.

Definition encode_probe (kind : ProbeKind) (nonce : bytes) : bytes :=
  let out := replicate PROBE_LEN 0 in
  let magic := match kind with Ping => PING_MAGIC | Pong => PONG_MAGIC end in
  let out := copy_from_slice out 0 magic in
  copy_from_slice out 12 nonce.

Definition decode_probe (bs : bytes) : option (ProbeKind * bytes) :=
  if negb (length bs =? PROBE_LEN)%nat then None else
  let magic := slice 0 12 bs in
  let nonce := slice 12 (length bs) bs in
  if bool_decide (magic = PING_MAGIC) then Some (Ping, nonce)
  else if bool_decide (magic = PONG_MAGIC) then Some (Pong, nonce)
  else None.

(** [random_nonce]: the clock reading, and the counter before and after. *)
Definition random_nonce (nanos SEQ : Z) : Z * bytes :=
  let state := xorshift_seed 0xBADC0FFEE0DDF00D nanos SEQ in
  let state := Z.lxor state (wrap 64 (Z.shiftl state 13)) in
  let state := Z.lxor state (Z.shiftr state 7) in
  let state := Z.lxor state (wrap 64 (Z.shiftl state 17)) in
  (wrapping_add 64 SEQ 1, to_be_bytes 8 state).

(** The sprayed pings: failures are ignored, the primary is not repeated. *)
Definition send_alts (config : HolePunchConfig) (ping : bytes) (w : Socket) : Socket :=
  foldl (fun w alt =>
           let alt_addr := mkSocketAddr (sa_ip (peer_primary config)) alt in
           if bool_decide (alt_addr = peer_primary config) then w else (send_to ping alt_addr w).1)
        w (peer_alt_ports config).

Definition send_burst (config : HolePunchConfig) (nonce : bytes) (w : Socket) : Socket * result () string :=
  let ping := encode_probe Ping nonce in
  match send_to ping (peer_primary config) w with
  | (w', Err e) => (w', Err e)
  | (w', Ok _) => (send_alts config ping w', Ok ())
  end.

(** How the inner receive loop ends. *)
Inductive Drained := Confirmed (from : SocketAddr) | Quiet | Broken (e : string).

(** The inner loop.  Every iteration consumes an arrival or ends the loop:
    [None] (no fuel) is excluded by [drain_total]. *)
Fixpoint drain (fuel : nat) (my_nonce : bytes) (w : Socket) : Socket * option Drained :=
  match fuel with
  | O => (w, None)
  | S fuel =>
      match recv_from (Z.of_nat PROBE_LEN) w with
      | (w', Ok (d, from)) =>
          match decode_probe d with
          | None => drain fuel my_nonce w'
          | Some (Pong, nonce) =>
              if bool_decide (nonce = my_nonce) then (w', Some (Confirmed from))
              else drain fuel my_nonce w'
          | Some (Ping, nonce) =>
              drain fuel my_nonce (send_to (encode_probe Pong nonce) from w').1
          end
      | (w', Err RecvTimedOut) => (w', Some Quiet)
      | (w', Err (RecvOther e)) => (w', Some (Broken e))
      end
  end.

(** The outer loop: the socket, the bursts fired and the result. *)
Fixpoint punch_loop (fuel : nat) (config : HolePunchConfig) (my_nonce : bytes) (deadline : Z)
    (w : Socket) (bursts : nat) : Socket * nat * option (result SocketAddr P2pError) :=
  match fuel with
  | O => (w, bursts, None)
  | S fuel =>
      match send_burst config my_nonce w with
      | (w, Err e) => (w, bursts, Some (Err (P2pIo e)))
      | (w, Ok _) =>
          let bursts := S bursts in
          let now := clock w in
          if deadline <=? now then (w, bursts, Some (Err P2pTimeout)) else
          let remaining := saturating_sub deadline now in
          let wait := Z.min remaining (from_millis (interval_ms config)) in
          match set_read_timeout wait w with
          | (w, Err e) => (w, bursts, Some (Err (P2pIo e)))
          | (w, Ok _) =>
              match drain (S (length (inbox w))) my_nonce w with
              | (w, None) => (w, bursts, None)
              | (w, Some (Confirmed from)) => (w, bursts, Some (Ok from))
              | (w, Some (Broken e)) => (w, bursts, Some (Err (P2pIo e)))
              | (w, Some Quiet) =>
                  if deadline <=? clock w then (w, bursts, Some (Err P2pTimeout))
                  else punch_loop fuel config my_nonce deadline w bursts
              end
          end
      end
  end.

(** [hole_punch] with the nonce [random_nonce] has drawn. *)
Definition hole_punch (fuel : nat) (config : HolePunchConfig) (my_nonce : bytes) (w : Socket)
    : Socket * nat * option (result SocketAddr P2pError) :=
  if deadline_ms config =? 0 then (w, O, Some (Err (BadConfig "deadline_ms must be > 0"))) else
  if interval_ms config =? 0 then (w, O, Some (Err (BadConfig "interval_ms must be > 0"))) else
  match disable_udp_connreset w with
  | Err e => (w, O, Some (Err (P2pIo e)))
  | Ok _ =>
      let deadline := clock w + from_millis (deadline_ms config) in
      punch_loop fuel config my_nonce deadline w 0
  end.

(** The bursts that fit before the deadline. *)
Definition max_bursts (config : HolePunchConfig) : nat :=
  Z.to_nat ((deadline_ms config + interval_ms config - 1) / interval_ms config).

(** ** Lemmas on the socket *)

(** [w'] is [w] after some arrivals were consumed and some packets sent. *)
Record later (w w' : Socket) : Prop := {
  later_inbox : inbox w' `suffix_of` inbox w;
  later_timeout : read_timeout w' = read_timeout w;
  later_sends : send_fails w' = send_fails w;
  later_set : timeout_fails w' = timeout_fails w;
}.

#[export] Instance later_preorder : PreOrder later.
Proof.
  split; [by intros w; split|].
  intros a b c [] []. split; [by etrans|congruence..].
Qed.

Lemma suffix_elem {A} (l k : list A) x : l `suffix_of` k → x ∈ l → x ∈ k.
Proof. intros [m ->] Hx. apply elem_of_app. by right. Qed.

Lemma later_elem w w' e : later w w' → e ∈ inbox w' → e ∈ inbox w.
Proof. intros [] He. by eapply suffix_elem. Qed.

Lemma later_length w w' : later w w' → (length (inbox w') <= length (inbox w))%nat.
Proof. intros [Hs _ _ _]. by apply suffix_length. Qed.

Lemma send_to_later d a w : later w (send_to d a w).1 ∧ clock (send_to d a w).1 = clock w ∧
  inbox (send_to d a w).1 = inbox w.
Proof. unfold send_to. destruct (send_fails w a); by split. Qed.

Lemma recv_spec cap w w' r :
  recv_from cap w = (w', r) →
  later w w' ∧ (0 <= read_timeout w → clock w <= clock w' <= clock w + read_timeout w) ∧
  match r with
  | Ok (d, from) => ∃ t d0, inbox w = (t, Arrives d0 from) :: inbox w' ∧ d = take (Z.to_nat cap) d0 ∧
                            clock w' = Z.max (clock w) t
  | Err RecvTimedOut => clock w' = clock w + read_timeout w ∧ inbox w' = inbox w ∧
                        ∀ t e rest, inbox w = (t, e) :: rest → clock w + read_timeout w < t
  | Err (RecvOther e) => ∃ t, inbox w = (t, RecvFails e) :: inbox w'
  end.
Proof.
  unfold recv_from. destruct (inbox w) as [|[t ev] rest] eqn:E.
  { intros [= <- <-]. cbn. split_and!; [split; cbn; by rewrite ?E|lia|done|done|done]. }
  destruct (Z.leb_spec t (clock w + read_timeout w)).
  - assert (later w (pop_inbox (set_clock (Z.max (clock w) t) w))).
    { split; cbn; rewrite ?E; try done. by exists [(t, ev)]. }
    destruct ev as [d from|e]; intros [= <- <-]; (split; [done|]); cbn; rewrite E; cbn;
      (split; [lia|]); eauto.
  - intros [= <- <-]. cbn. split_and!; [split; cbn; by rewrite ?E|lia|done|done|].
    intros t' e' rest' [= -> -> ->]. lia.
Qed.

(** ** Hole punching: termination and soundness *)

Definition confirms (my_nonce d : bytes) : Prop :=
  decode_probe (take PROBE_LEN d) = Some (Pong, my_nonce).

Lemma drain_total fuel my_nonce w :
  (length (inbox w) < fuel)%nat → 0 <= read_timeout w →
  ∃ w' o, drain fuel my_nonce w = (w', Some o) ∧ later w w' ∧
    (o = Quiet → clock w + read_timeout w <= clock w') ∧
    (∀ from, o = Confirmed from → ∃ t d, (t, Arrives d from) ∈ inbox w ∧ confirms my_nonce d).
Proof.
  revert w. induction fuel as [|fuel IH]; intros w Hf Hr; [lia|]. cbn [drain].
  destruct (recv_from (Z.of_nat PROBE_LEN) w) as [w1 r] eqn:E.
  apply recv_spec in E as (Hlater & Hclk & Hr1).
  assert (Hrec : ∀ w2, later w1 w2 → clock w2 = clock w1 → inbox w2 = inbox w1 →
    (length (inbox w1) < length (inbox w))%nat →
    ∃ w' o, drain fuel my_nonce w2 = (w', Some o) ∧ later w w' ∧
      (o = Quiet → clock w + read_timeout w <= clock w') ∧
      (∀ from, o = Confirmed from → ∃ t d, (t, Arrives d from) ∈ inbox w ∧ confirms my_nonce d)).
  { intros w2 H12 Hc Hi Hlt. assert (Hw2 : later w w2) by by etrans.
    assert (Ert : read_timeout w2 = read_timeout w) by apply Hw2.
    destruct (IH w2) as (w' & o & -> & H2' & Hq & Hcf); [rewrite Hi; lia|lia|].
    exists w', o. split_and!; [done|by etrans| |].
    - intros ->. specialize (Hq eq_refl). rewrite Ert in Hq. specialize (Hclk Hr). lia.
    - intros from ->. destruct (Hcf from eq_refl) as (t & d & Hin & ?).
      exists t, d. split; [by eapply later_elem|done]. }
  destruct r as [[d from]|[|e]].
  - destruct Hr1 as (t & d0 & Ei & -> & Hct).
    assert (length (inbox w1) < length (inbox w))%nat by (rewrite Ei; cbn; lia).
    destruct (decode_probe _) as [[[] nonce]|] eqn:Ed.
    + destruct (send_to_later (encode_probe Pong nonce) from w1) as (? & ? & ?). by apply Hrec.
    + case_bool_decide as En; [|by apply Hrec]. subst nonce.
      exists w1, (Confirmed from). split_and!; [done|done|done|]. intros ? [= <-].
      exists t, d0. split; [rewrite Ei; apply list_elem_of_here|done].
    + by apply Hrec.
  - exists w1, Quiet. split_and!; [done|done|lia|done].
  - exists w1, (Broken e). by split_and!.
Qed.

Lemma send_alts_later config ping w :
  later w (send_alts config ping w) ∧ clock (send_alts config ping w) = clock w ∧
  inbox (send_alts config ping w) = inbox w.
Proof.
  unfold send_alts. revert w. induction (peer_alt_ports config) as [|a l IH]; intros w; [done|].
  cbn [foldl]. case_bool_decide; [apply IH|].
  destruct (send_to_later ping (mkSocketAddr (sa_ip (peer_primary config)) a) w) as (H1 & H2 & H3).
  destruct (IH (send_to ping (mkSocketAddr (sa_ip (peer_primary config)) a) w).1) as (H4 & H5 & H6).
  split_and!; [by etrans|congruence|congruence].
Qed.

Lemma send_burst_later config nonce w :
  later w (send_burst config nonce w).1 ∧ clock (send_burst config nonce w).1 = clock w ∧
  inbox (send_burst config nonce w).1 = inbox w.
Proof.
  unfold send_burst.
  destruct (send_to_later (encode_probe Ping nonce) (peer_primary config) w) as (H1 & H2 & H3).
  destruct (send_to _ _ w) as [w1 [[]|e]]; cbn [fst] in *; [|done].
  destruct (send_alts_later config (encode_probe Ping nonce) w1) as (H4 & H5 & H6).
  split_and!; [by etrans|congruence|congruence].
Qed.

Lemma set_read_timeout_spec d w w' r :
  set_read_timeout d w = (w', r) →
  inbox w' = inbox w ∧ clock w' = clock w ∧ send_fails w' = send_fails w ∧
  timeout_fails w' = timeout_fails w ∧ (∀ u, r = Ok u → read_timeout w' = d).
Proof. unfold set_read_timeout. destruct (timeout_fails w) eqn:E; intros [= <- <-]; by rewrite ?E. Qed.

(** What a run of the outer loop guarantees. *)
Definition punch_post (my_nonce : bytes) (inbox0 : list (Z * Incoming)) (limit : nat)
    (out : Socket * nat * option (result SocketAddr P2pError)) : Prop :=
  ∃ w b r, out = (w, b, Some r) ∧ (b <= limit)%nat ∧ inbox w `suffix_of` inbox0 ∧
    ∀ from, r = Ok from → ∃ t d, (t, Arrives d from) ∈ inbox0 ∧ confirms my_nonce d.

Lemma punch_loop_total fuel config my_nonce deadline w b inbox0 :
  0 < interval_ms config → (0 < fuel)%nat →
  deadline - clock w <= Z.of_nat fuel * from_millis (interval_ms config) →
  inbox w `suffix_of` inbox0 →
  punch_post my_nonce inbox0 (b + fuel) (punch_loop fuel config my_nonce deadline w b).
Proof.
  intros Hi. revert w b. induction fuel as [|fuel IH]; intros w b H0 Hd Hin; [lia|]. cbn [punch_loop].
  destruct (send_burst_later config my_nonce w) as (Hl1 & Hc1 & Hi1).
  destruct (send_burst config my_nonce w) as [w1 [u|e]]; cbn [fst] in *.
  all: assert (Hin1 : inbox w1 `suffix_of` inbox0) by (by rewrite Hi1).
  2:{ eexists _, _, _. split_and!; [done|lia|done|done]. }
  destruct (Z.leb_spec deadline (clock w1)); [eexists _, _, _; split_and!; [done|lia|done|done]|].
  set (wait := Z.min _ _).
  destruct (set_read_timeout wait w1) as [w2 [u2|e]] eqn:E2.
  all: apply set_read_timeout_spec in E2 as (Hi2 & Hc2 & _ & _ & Hrt).
  2:{ eexists _, _, _. split_and!; [done|lia|by rewrite Hi2|done]. }
  specialize (Hrt u2 eq_refl).
  assert (Hw : 0 < wait ∧ (wait = deadline - clock w1 ∨ wait = from_millis (interval_ms config))).
  { unfold wait, saturating_sub, from_millis. lia. }
  destruct (drain_total (S (length (inbox w2))) my_nonce w2) as (w3 & o & -> & Hl3 & Hq & Hcf); [lia|lia|].
  assert (Hin3 : inbox w3 `suffix_of` inbox0).
  { etrans; [apply Hl3|]. by rewrite Hi2, Hi1. }
  destruct o as [from| |e].
  - eexists _, _, _. split_and!; [done|lia|done|]. intros ? [= <-].
    destruct (Hcf from eq_refl) as (t & d & Ht & ?). exists t, d. split; [|done].
    eapply suffix_elem; [exact Hin|]. by rewrite <- Hi1, <- Hi2.
  - specialize (Hq eq_refl).
    destruct (Z.leb_spec deadline (clock w3)); [eexists _, _, _; split_and!; [done|lia|done|done]|].
    destruct (IH w3 (S b)) as (w' & b' & r & -> & Hb & Hr); [nia|nia|done|].
    exists w', b', r. split_and!; [done|lia|apply Hr|apply Hr].
  - eexists _, _, _. split_and!; [done|lia|done|done].
Qed.

Lemma max_bursts_spec config :
  0 < deadline_ms config → 0 < interval_ms config →
  (0 < max_bursts config)%nat ∧
  deadline_ms config <= Z.of_nat (max_bursts config) * interval_ms config.
Proof.
  intros Hd Hi. unfold max_bursts.
  pose proof (Z.div_mod (deadline_ms config + interval_ms config - 1) (interval_ms config) ltac:(lia)).
  pose proof (Z.mod_pos_bound (deadline_ms config + interval_ms config - 1) (interval_ms config) Hi).
  set (q := _ / _) in *. assert (0 < q) by nia. rewrite Z2Nat.id by lia. split; [lia|nia].
Qed.

Lemma hole_punch_total (config : HolePunchConfig) (my_nonce : bytes) (w : Socket)
  (Hd : in_width 64 (deadline_ms config)) (Hi : in_width 64 (interval_ms config)) :
  punch_post my_nonce (inbox w) (max_bursts config)
    (hole_punch (max_bursts config) config my_nonce w).
Proof.
  unfold hole_punch. destruct (Z.eqb_spec (deadline_ms config) 0).
  { eexists _, _, _. split_and!; [done|lia|done|done]. }
  destruct (Z.eqb_spec (interval_ms config) 0).
  { eexists _, _, _. split_and!; [done|lia|done|done]. }
  destruct (disable_udp_connreset w); [|eexists _, _, _; split_and!; [done|lia|done|done]].
  unfold in_width in *. destruct (max_bursts_spec config) as [Hp Hm]; [lia|lia|].
  rewrite <- (Nat.add_0_l (max_bursts config)) at 1.
  apply punch_loop_total; [lia|done|unfold from_millis; nia|done].
Qed.

(** *** The time a run takes, and what it has seen *)

(** An arrival that is no confirmation. *)
Definition unconfirmed (my_nonce : bytes) (e : Z * Incoming) : Prop :=
  ∀ d from, e.2 = Arrives d from → ¬ confirms my_nonce d.

(** Nothing arrives after [T]. *)
Definition quiet_after (T : Z) (l : list (Z * Incoming)) : Prop := Forall (fun e => e.1 <= T) l.

Lemma drain_timely fuel my_nonce : ∀ w w' o,
  drain fuel my_nonce w = (w', Some o) → 0 <= read_timeout w →
  (∀ T, quiet_after T (inbox w) → clock w' <= Z.max (clock w) T + read_timeout w) ∧
  ((∀ from, o ≠ Confirmed from) → ∃ seen, inbox w = seen ++ inbox w' ∧ Forall (unconfirmed my_nonce) seen).
Proof.
  induction fuel as [|fuel IH]; intros w w' o; cbn [drain]; [done|].
  destruct (recv_from (Z.of_nat PROBE_LEN) w) as [w1 r] eqn:E. apply recv_spec in E as (Hl & Hclk & Hr1).
  intros Hd H0. specialize (Hclk H0).
  assert (Hrec : ∀ w2 t d0 from, later w1 w2 → clock w2 = clock w1 → inbox w2 = inbox w1 → drain fuel my_nonce w2 = (w', Some o) →
    inbox w = (t, Arrives d0 from) :: inbox w1 → clock w1 = Z.max (clock w) t → ¬ confirms my_nonce d0 →
    (∀ T, quiet_after T (inbox w) → clock w' <= Z.max (clock w) T + read_timeout w) ∧
    ((∀ from, o ≠ Confirmed from) → ∃ seen, inbox w = seen ++ inbox w' ∧ Forall (unconfirmed my_nonce) seen)).
  { intros w2 t d0 from H12 Hc2 Hi2 Hdr Ei Hc1 Hnc.
    assert (Ert : read_timeout w2 = read_timeout w) by (destruct H12, Hl; congruence).
    destruct (IH w2 w' o Hdr ltac:(lia)) as [Ht Hs]. split.
    - intros T HT. rewrite Ei in HT. apply Forall_cons in HT as [Ht1 HT]. cbn in Ht1. rewrite Hi2 in Ht. specialize (Ht T HT). lia.
    - intros Ho. destruct (Hs Ho) as (seen & Es & Hf). exists ((t, Arrives d0 from) :: seen). rewrite Ei, <-Hi2, Es. split; [done|].
      constructor; [|done]. intros d f [= <- <-]. done. }
  destruct r as [[d from]|[|e]].
  - destruct Hr1 as (t & d0 & Ei & -> & Hct). change (Z.to_nat (Z.of_nat PROBE_LEN)) with PROBE_LEN in Hd.
    unfold confirms in Hrec. destruct (decode_probe (take PROBE_LEN d0)) as [[[] nonce]|] eqn:Ed.
    + destruct (send_to_later (encode_probe Pong nonce) from w1) as (? & ? & ?).
      eapply Hrec; [eassumption..|]. by rewrite Ed.
    + case_bool_decide as En; [|eapply (Hrec w1); [done..|eassumption|eassumption|]; rewrite Ed; congruence].
      injection Hd as <- <-. split; [|intros Ho; by destruct (Ho from)]. intros T HT. rewrite Ei in HT.
      apply Forall_cons in HT as [HT _]. cbn in HT. lia.
    + eapply (Hrec w1); [done..|eassumption|eassumption|]. by rewrite Ed.
  - injection Hd as <- <-. destruct Hr1 as (Hc & Hi & _). split; [intros; lia|]. intros _. exists []. by rewrite Hi.
  - injection Hd as <- <-. destruct Hr1 as (t & Ei). split; [intros; lia|]. intros _. exists [(t, RecvFails e)]. rewrite Ei.
    split; [done|]. constructor; [by intros d f|constructor].
Qed.

(** A run of the outer loop, by the time it returns. *)
Definition punch_timely (my_nonce : bytes) (deadline interval : Z) (w w' : Socket) (r : result SocketAddr P2pError) : Prop :=
  (∀ T, quiet_after T (inbox w) → clock w' <= Z.max (clock w) (Z.max deadline (T + interval))) ∧
  (r = Err P2pTimeout → deadline <= clock w') ∧
  (∀ e, r = Err e → ∃ seen, inbox w = seen ++ inbox w' ∧ Forall (unconfirmed my_nonce) seen).

Lemma punch_loop_timely fuel config my_nonce deadline : ∀ w b w' b' r,
  0 < interval_ms config → punch_loop fuel config my_nonce deadline w b = (w', b', Some r) →
  punch_timely my_nonce deadline (from_millis (interval_ms config)) w w' r.
Proof.
  induction fuel as [|fuel IH]; intros w b w' b' r Hi; cbn [punch_loop]; [done|].
  destruct (send_burst_later config my_nonce w) as (Hl1 & Hc1 & Hi1).
  destruct (send_burst config my_nonce w) as [w1 [u|e]]; cbn [fst] in *.
  2:{ intros [= <- _ <-]. split_and!; [intros; lia|done|]. intros _ _. exists []. by rewrite Hi1. }
  destruct (Z.leb_spec deadline (clock w1)).
  { intros [= <- _ <-]. split_and!; [intros; lia|done|]. intros _ _. exists []. by rewrite Hi1. }
  set (wait := Z.min _ _). destruct (set_read_timeout wait w1) as [w2 [u2|e]] eqn:E2.
  all: apply set_read_timeout_spec in E2 as (Hi2 & Hc2 & _ & _ & Hrt).
  2:{ intros [= <- _ <-]. split_and!; [intros; lia|done|]. intros _ _. exists []. by rewrite Hi2, Hi1. }
  specialize (Hrt u2 eq_refl).
  assert (Hw : 0 < wait ∧ wait <= deadline - clock w1 ∧ wait <= from_millis (interval_ms config)).
  { unfold wait, saturating_sub, from_millis. lia. }
  destruct (drain (S (length (inbox w2))) my_nonce w2) as [w3 [o|]] eqn:Edr; [|done].
  destruct (drain_timely _ _ _ _ _ Edr) as [Ht Hs]; [lia|]. rewrite Hi2, Hi1 in Ht, Hs.
  assert (Hclk : ∀ T, quiet_after T (inbox w) → clock w3 <= Z.max deadline (T + from_millis (interval_ms config))).
  { intros T HT. specialize (Ht T HT). lia. }
  destruct o as [from| |e].
  - intros [= <- _ <-]. split_and!; [intros T HT; specialize (Hclk T HT); lia|done|done].
  - destruct (Hs ltac:(done)) as (seen & Es & Hf). destruct (Z.leb_spec deadline (clock w3)).
    { intros [= <- _ <-]. split_and!; [intros T HT; specialize (Hclk T HT); lia|done|by eauto]. }
    intros (Ht' & Htm & Hs')%(IH _ _ _ _ _ Hi). split_and!; [|done|].
    + intros T HT. specialize (Hclk T HT). rewrite Es in HT. apply Forall_app in HT as [_ HT]. specialize (Ht' T HT). lia.
    + intros e ->. destruct (Hs' e eq_refl) as (seen' & Es' & Hf'). exists (seen ++ seen'). rewrite Es, Es', <-app_assoc.
      split; [done|]. by apply Forall_app.
  - intros [= <- _ <-]. split_and!; [intros T HT; specialize (Hclk T HT); lia|done|]. intros _ _. by apply Hs.
Qed.

(** C34: hole punching on finitely many arrivals.  For every configuration and
    every finite sequence of arrivals the call returns, after at most
    [ceil(deadline / interval)] bursts and at the latest at the deadline or one
    interval after the last arrival, whichever is later (a source that keeps
    sending does delay it past the deadline, see [hole_punch_overshoots]).  It
    confirms a peer only if a datagram from that very address carried a [Pong]
    with the nonce of this attempt; it gives up with [Timeout] only at or after
    the deadline, and whenever it fails no datagram it has read was such a
    [Pong]. *)
Theorem hole_punch_terminates_sound (config : HolePunchConfig) (my_nonce : bytes) (w : Socket)
  (Hd : in_width 64 (deadline_ms config)) (Hi : in_width 64 (interval_ms config)) :
  ∃ w' b r, hole_punch (max_bursts config) config my_nonce w = (w', b, Some r) ∧
    (b <= max_bursts config)%nat ∧ inbox w' `suffix_of` inbox w ∧
    (∀ from, r = Ok from → ∃ t d, (t, Arrives d from) ∈ inbox w ∧ confirms my_nonce d) ∧
    punch_timely my_nonce (clock w + from_millis (deadline_ms config)) (from_millis (interval_ms config)) w w' r.
Proof.
  destruct (hole_punch_total config my_nonce w Hd Hi) as (w' & b & r & E & Hb & Hs & Hr).
  exists w', b, r. split_and!; [done..|]. revert E. unfold hole_punch.
  assert (Hearly : ∀ e, e ≠ P2pTimeout → punch_timely my_nonce (clock w + from_millis (deadline_ms config))
    (from_millis (interval_ms config)) w w (Err e)).
  { intros e He. split_and!; [intros; lia|congruence|]. intros _ _. by exists []. }
  destruct (Z.eqb_spec (deadline_ms config) 0); [intros [= <- _ <-]; by apply Hearly|].
  destruct (Z.eqb_spec (interval_ms config) 0); [intros [= <- _ <-]; by apply Hearly|].
  destruct (disable_udp_connreset w); [|intros [= <- _ <-]; by apply Hearly].
  apply punch_loop_timely. unfold in_width in Hi. lia.
Qed.

(** A stray datagram, a ping of the peer and its [Pong] in the third interval. *)
Definition demo_punch_peer : SocketAddr := mkSocketAddr (V4 [192; 0; 2; 1]) 4000.
Definition demo_punch_inbox : list (Z * Incoming) :=
  [(5000000, Arrives [1; 2; 3] (mkSocketAddr (V4 [198; 51; 100; 7]) 53));
   (10000000, Arrives (encode_probe Ping (replicate 8 9)) demo_punch_peer);
   (600000000, Arrives (encode_probe Pong (replicate 8 1)) demo_punch_peer)].

Lemma hole_punch_terminates_sound_witness :
  let config := HolePunchConfig_cone demo_punch_peer 3000 250 in
  let w := mkSocket 0 demo_punch_inbox [] 0 (fun _ => None) None None in
  ∃ w' b, hole_punch 12 config (replicate 8 1) w = (w', b, Some (Ok demo_punch_peer)) ∧ (b <= 12)%nat ∧
    clock w' <= 3000000000 ∧
    ∃ t d, (t, Arrives d demo_punch_peer) ∈ demo_punch_inbox ∧ confirms (replicate 8 1) d.
Proof.
  cbv zeta.
  destruct (hole_punch_terminates_sound
           (HolePunchConfig_cone demo_punch_peer 3000 250) (replicate 8 1)
           (mkSocket 0 demo_punch_inbox [] 0 (fun _ => None) None None)) as (w' & b & r & E & Hb & _ & Hr & Ht & _).
  1,2: vm_compute; split; [discriminate|reflexivity].
  assert (r = Ok demo_punch_peer) as -> by (vm_compute in E; injection E as _ _ <-; reflexivity).
  exists w', b. split; [exact E|]. split; [exact Hb|]. split; [|apply Hr; reflexivity].
  specialize (Ht 600000000). cbn [clock inbox deadline_ms interval_ms HolePunchConfig_cone from_millis] in Ht.
  unfold from_millis in Ht. assert (Hq : quiet_after 600000000 demo_punch_inbox) by (repeat constructor; cbn; lia).
  specialize (Ht Hq). lia.
Defined.

(** ** Hole punching: the codec *)

Lemma encode_probe_eq kind nonce :
  length nonce = 8%nat →
  encode_probe kind nonce = (match kind with Ping => PING_MAGIC | Pong => PONG_MAGIC end) ++ nonce.
Proof.
  intros Hn. unfold encode_probe, PROBE_LEN. do 8 (destruct nonce as [|? nonce]; [done|]).
  destruct nonce; [|done]. by destruct kind.
Qed.

(** the probe codec is exact.  A datagram decodes to a probe kind and
    nonce if and only if it is the 20-byte encoding of that probe. *)
Theorem probe_codec_exact (bs nonce : bytes) (kind : ProbeKind) :
  decode_probe bs = Some (kind, nonce) ↔ length nonce = 8%nat ∧ bs = encode_probe kind nonce.
Proof.
  split.
  - unfold decode_probe, PROBE_LEN. destruct (Nat.eqb_spec (length bs) 20) as [Hl|]; [|done].
    cbn [negb]. intros Hd.
    assert (Hs : bs = slice 0 12 bs ++ slice 12 (length bs) bs).
    { unfold slice. rewrite (take_ge (drop 12 bs)) by (rewrite length_drop; lia).
      cbn [Nat.sub drop]. by rewrite take_drop. }
    assert (Hn : length (slice 12 (length bs) bs) = 8%nat) by (rewrite length_slice; lia).
    case_bool_decide as E1; [|case_bool_decide as E2; [|done]]; injection Hd as <- <-;
      (split; [done|]); rewrite encode_probe_eq by done; congruence.
  - intros [Hn ->]. rewrite encode_probe_eq by done.
    do 8 (destruct nonce as [|? nonce]; [done|]). destruct nonce; [|done]. by destruct kind.
Qed.

Lemma pong_confirms my_nonce : length my_nonce = 8%nat → confirms my_nonce (encode_probe Pong my_nonce).
Proof.
  intros Hn. unfold confirms. rewrite encode_probe_eq by done.
  do 8 (destruct my_nonce as [|? my_nonce]; [done|]). by destruct my_nonce.
Qed.

(** Nonces drawn at one clock reading differ when the counter differs, unless
    a draw hits the all-zero seed. *)
Theorem random_nonces_distinct nanos s t :
  in_width 64 nanos → in_width 64 s → in_width 64 t → s ≠ t →
  wrap 64 (s * 0x9E3779B97F4A7C15) ≠ nanos → wrap 64 (t * 0x9E3779B97F4A7C15) ≠ nanos →
  (random_nonce nanos s).2 ≠ (random_nonce nanos t).2.
Proof.
  intros Hn Hs Ht Hst Ns Nt E. apply Hst.
  assert (Hseed : ∀ x, in_width 64 (xorshift_seed 0xBADC0FFEE0DDF00D nanos x)).
  { intros x. apply seed_width; [vm_compute; split; [discriminate|reflexivity]|done]. }
  assert (Hx : ∀ x, (random_nonce nanos x).2
            = to_be_bytes 8 (next_xorshift64 (xorshift_seed 0xBADC0FFEE0DDF00D nanos x))) by reflexivity.
  rewrite !Hx in E. apply to_be_bytes_inj in E; [|by apply xorshift_width..].
  apply xorshift_inj in E; [|by apply Hseed..]. by apply seed_inj in E.
Qed.

(** ** Hole punching: completeness *)

(** A datagram that arrives before the deadline and does not confirm. *)
Definition stray (my_nonce : bytes) (deadline : Z) (e : Z * Incoming) : Prop :=
  e.1 < deadline ∧ ∃ d from, e.2 = Arrives d from ∧ ¬ confirms my_nonce d.

Lemma drain_finds fuel my_nonce w deadline junk t from d rest :
  inbox w = junk ++ (t, Arrives d from) :: rest → Forall (stray my_nonce deadline) junk →
  confirms my_nonce d → t < deadline → (length (inbox w) < fuel)%nat →
  (∃ w', drain fuel my_nonce w = (w', Some (Confirmed from))) ∨
  (∃ w' junk', drain fuel my_nonce w = (w', Some Quiet) ∧ later w w' ∧ clock w' < deadline ∧
     inbox w' = junk' ++ (t, Arrives d from) :: rest ∧ Forall (stray my_nonce deadline) junk').
Proof.
  intros Hin Hj Hd Ht. revert w junk Hin Hj. induction fuel as [|fuel IH]; intros w junk Hin Hj Hf; [lia|].
  cbn [drain]. destruct (recv_from (Z.of_nat PROBE_LEN) w) as [w1 r] eqn:E.
  apply recv_spec in E as (Hl & _ & Hr).
  assert (Hquiet : ∀ junk', inbox w1 = junk' ++ (t, Arrives d from) :: rest →
    Forall (stray my_nonce deadline) junk' → (length (inbox w1) < length (inbox w))%nat →
    ∀ w2, later w1 w2 → inbox w2 = inbox w1 →
    (∃ w', drain fuel my_nonce w2 = (w', Some (Confirmed from))) ∨
    (∃ w' junk', drain fuel my_nonce w2 = (w', Some Quiet) ∧ later w w' ∧ clock w' < deadline ∧
       inbox w' = junk' ++ (t, Arrives d from) :: rest ∧ Forall (stray my_nonce deadline) junk')).
  { intros junk' Hi1 Hj1 Hlt w2 H12 Hi2. destruct (IH w2 junk') as [?|(w' & j' & ? & ? & ?)];
      [congruence|done|rewrite Hi2; lia|by left|right].
    exists w', j'. split; [done|]. split; [by repeat (etrans; [eassumption|])|done]. }
  destruct r as [[d1 from1]|[|e]].
  - destruct Hr as (t1 & d0 & Ei & -> & _). change (Z.to_nat (Z.of_nat PROBE_LEN)) with PROBE_LEN.
    assert (Hlt : (length (inbox w1) < length (inbox w))%nat) by (rewrite Ei; cbn; lia).
    destruct junk as [|e junk]; rewrite Hin in Ei.
    + injection Ei as -> -> -> _. unfold confirms in Hd. rewrite Hd, bool_decide_eq_true_2 by done. left. eauto.
    + injection Ei as He Ei. apply Forall_cons in Hj as [(_ & d2 & from2 & He2 & Hnc) Hj].
      rewrite He in He2. cbn in He2. injection He2 as -> ->. unfold confirms in Hnc.
      destruct (decode_probe (take PROBE_LEN d2)) as [[[] nonce]|].
      * destruct (send_to_later (encode_probe Pong nonce) from2 w1) as (? & ? & ?). by eapply Hquiet.
      * rewrite bool_decide_eq_false_2 by congruence. by eapply Hquiet.
      * by eapply Hquiet.
  - destruct Hr as (Hc & Hi & Hlate). right. exists w1, junk. split_and!; [done|done| |congruence|done].
    destruct junk as [|[t1 e1] junk]; rewrite Hin in Hlate; specialize (Hlate _ _ _ eq_refl); [lia|].
    apply Forall_cons in Hj as [[Ht1 _] _]. cbn [fst] in Ht1. lia.
  - destruct Hr as [t1 Ei]. rewrite Hin in Ei.
    destruct junk as [|[t2 e2] junk]; injection Ei as ? ?; [done|].
    apply Forall_cons in Hj as [(_ & ? & ? & ? & _) _]. cbn [snd] in *. congruence.
Qed.

Lemma send_to_ok data dst w : send_fails w dst = None → (send_to data dst w).2 = Ok ().
Proof. intros E. unfold send_to. by rewrite E. Qed.

Lemma send_burst_ok config nonce w :
  send_fails w (peer_primary config) = None → (send_burst config nonce w).2 = Ok ().
Proof. intros E. unfold send_burst, send_to. by rewrite E. Qed.

Lemma punch_loop_finds fuel config my_nonce deadline w b junk t from d rest :
  0 < interval_ms config → (0 < fuel)%nat → clock w < deadline →
  deadline - clock w <= Z.of_nat fuel * from_millis (interval_ms config) →
  inbox w = junk ++ (t, Arrives d from) :: rest → Forall (stray my_nonce deadline) junk →
  confirms my_nonce d → t < deadline →
  send_fails w (peer_primary config) = None → timeout_fails w = None →
  ∃ w' b', punch_loop fuel config my_nonce deadline w b = (w', b', Some (Ok from)).
Proof.
  intros Hi. revert w b junk.
  induction fuel as [|fuel IH]; intros w b junk H0 Hclk Hd Hin Hj Hcf Ht Hs Hset; [lia|]. cbn [punch_loop].
  destruct (send_burst_later config my_nonce w) as (Hl1 & Hc1 & Hi1).
  pose proof (send_burst_ok config my_nonce w Hs) as Hok.
  destruct (send_burst config my_nonce w) as [w1 r1]; cbn [fst snd] in *. subst r1.
  destruct (Z.leb_spec deadline (clock w1)); [lia|].
  set (wait := Z.min _ _).
  assert (Hset1 : timeout_fails w1 = None) by (destruct Hl1; congruence).
  destruct (set_read_timeout wait w1) as [w2 r2] eqn:E2.
  assert (r2 = Ok ()) as -> by (unfold set_read_timeout in E2; rewrite Hset1 in E2; by injection E2).
  apply set_read_timeout_spec in E2 as (Hi2 & Hc2 & Hs2 & Ht2 & Hrt). specialize (Hrt () eq_refl).
  assert (Hw : 0 < wait ∧ (wait = deadline - clock w1 ∨ wait = from_millis (interval_ms config))).
  { unfold wait, saturating_sub, from_millis. lia. }
  destruct (drain_finds (S (length (inbox w2))) my_nonce w2 deadline junk t from d rest)
    as [[w' ->]|(w3 & junk' & Edr & Hl3 & Hc3 & Hin3 & Hj3)]; [congruence|done..|lia|by eauto|].
  destruct (drain_total (S (length (inbox w2))) my_nonce w2) as (w4 & o & Edr' & _ & Hq & _); [lia|lia|].
  rewrite Edr in Edr' |- *. injection Edr' as <- <-. specialize (Hq eq_refl).
  destruct (Z.leb_spec deadline (clock w3)); [lia|].
  apply (IH w3 (S b) junk'); try done; [nia|nia|destruct Hl3, Hl1; congruence..].
Qed.

(** hole punching succeeds whenever it can.  If the peer's [Pong] with
    our nonce arrives before the deadline, and everything that arrives earlier
    is a datagram that does not confirm (strays, the peer's own pings, pongs of
    other attempts), the loop returns the address the [Pong] came from. *)
Theorem hole_punch_confirms (config : HolePunchConfig) (my_nonce : bytes) (w : Socket)
  (junk rest : list (Z * Incoming)) (t : Z) (from : SocketAddr)
  (Hd : 0 < deadline_ms config) (Hi : 0 < interval_ms config) (Hn : length my_nonce = 8%nat)
  (Hs : send_fails w (peer_primary config) = None) (Ht : timeout_fails w = None)
  (Hc : connreset_fails w = None)
  (Hin : inbox w = junk ++ (t, Arrives (encode_probe Pong my_nonce) from) :: rest)
  (Hj : Forall (stray my_nonce (clock w + from_millis (deadline_ms config))) junk)
  (Hdl : t < clock w + from_millis (deadline_ms config)) :
  ∃ w' b, hole_punch (max_bursts config) config my_nonce w = (w', b, Some (Ok from)).
Proof.
  unfold hole_punch, disable_udp_connreset. rewrite Hc.
  destruct (Z.eqb_spec (deadline_ms config) 0); [lia|].
  destruct (Z.eqb_spec (interval_ms config) 0); [lia|].
  destruct (max_bursts_spec config Hd Hi) as [Hp Hm].
  eapply punch_loop_finds; eauto using pong_confirms; unfold from_millis; nia.
Qed.

Lemma hole_punch_confirms_witness :
  let peer := mkSocketAddr (V4 [192; 0; 2; 1]) 4000 in
  let config := HolePunchConfig_cone peer 3000 250 in
  let inbox := [(10000000, Arrives (encode_probe Ping (replicate 8 9)) peer);
                (600000000, Arrives (encode_probe Pong (replicate 8 1)) peer)] in
  ∃ w' b, hole_punch 12 config (replicate 8 1) (mkSocket 0 inbox [] 0 (fun _ => None) None None)
          = (w', b, Some (Ok peer)).
Proof.
  cbv zeta.
  refine (hole_punch_confirms (HolePunchConfig_cone (mkSocketAddr (V4 [192; 0; 2; 1]) 4000) 3000 250)
    (replicate 8 1) (mkSocket 0 _ [] 0 (fun _ => None) None None) [_] [] 600000000 _ _ _ _ _ _ _ _ _ _);
    try reflexivity.
  apply Forall_singleton. split; [reflexivity|]. eexists _, _. split; [reflexivity|]. discriminate.
Defined.

(** ** Hole punching: the deadline

    Arrivals that follow one another within the read timeout. *)

Definition flood (c step : Z) (src : SocketAddr) (k n : nat) : list (Z * Incoming) :=
  (fun i => (c + Z.of_nat i * step, Arrives [] src)) <$> seq k n.

Lemma drain_flood fuel my_nonce w c src peer (k n : nat) :
  0 < read_timeout w → length my_nonce = 8%nat →
  clock w = c + Z.of_nat k * read_timeout w →
  inbox w = flood c (read_timeout w) src (S k) n ++
            [(c + Z.of_nat (S k + n) * read_timeout w, Arrives (encode_probe Pong my_nonce) peer)] →
  (n < fuel)%nat →
  ∃ w', drain fuel my_nonce w = (w', Some (Confirmed peer)) ∧
        clock w' = c + Z.of_nat (S k + n) * read_timeout w.
Proof.
  intros Hrt Hn. revert w k n Hrt. induction fuel as [|fuel IH]; intros w k n Hrt Hclk Hin Hf; [lia|].
  cbn [drain]. unfold recv_from. rewrite Hin. destruct n as [|n].
  - cbn [flood seq fmap list_fmap app].
    destruct (Z.leb_spec (c + Z.of_nat (S k + 0) * read_timeout w) (clock w + read_timeout w)); [|nia].
    pose proof (pong_confirms my_nonce Hn) as Hc. unfold confirms in Hc.
    change (Z.to_nat (Z.of_nat PROBE_LEN)) with PROBE_LEN. rewrite Hc, bool_decide_eq_true_2 by done.
    eexists. split; [done|]. cbn. nia.
  - cbn [flood seq fmap list_fmap app].
    destruct (Z.leb_spec (c + Z.of_nat (S k) * read_timeout w) (clock w + read_timeout w)); [|nia].
    rewrite take_nil. cbn [decode_probe length Nat.eqb negb PROBE_LEN].
    set (w1 := pop_inbox _).
    destruct (IH w1 (S k) n) as (w' & -> & Hw'); [done|unfold w1; cbn; nia| |lia|].
    + unfold w1, pop_inbox, set_clock; cbn [inbox read_timeout]. rewrite Hin. cbn [flood seq fmap list_fmap app tail].
      unfold flood. do 3 f_equal. nia.
    + exists w'. split; [done|]. rewrite Hw'. unfold w1; cbn [read_timeout pop_inbox set_clock]. nia.
Qed.

(** the deadline does not bound hole punching.  The receive loop re-checks
    it only after a quiet interval, so a source that sends one stray datagram
    per interval keeps the loop running: for every [n] there are arrivals for
    which the call returns [n + 1] intervals after it started, whatever the
    deadline, and even then confirms a peer that answered after it. *)
Theorem hole_punch_overshoots (config : HolePunchConfig) (my_nonce : bytes) (w : Socket)
  (src peer : SocketAddr) (n : nat)
  (Hi : 0 < interval_ms config <= deadline_ms config) (Hn : length my_nonce = 8%nat)
  (Hs : send_fails w (peer_primary config) = None) (Ht : timeout_fails w = None)
  (Hc : connreset_fails w = None)
  (Hin : let step := from_millis (interval_ms config) in
         inbox w = flood (clock w) step src 1 n ++
                   [(clock w + Z.of_nat (S n) * step, Arrives (encode_probe Pong my_nonce) peer)]) :
  ∃ w', hole_punch 1 config my_nonce w = (w', 1%nat, Some (Ok peer)) ∧
        clock w' = clock w + Z.of_nat (S n) * from_millis (interval_ms config).
Proof.
  cbv zeta in Hin. unfold hole_punch, disable_udp_connreset. rewrite Hc.
  destruct (Z.eqb_spec (deadline_ms config) 0); [lia|].
  destruct (Z.eqb_spec (interval_ms config) 0); [lia|]. cbn [punch_loop].
  destruct (send_burst_later config my_nonce w) as (Hl1 & Hc1 & Hi1).
  pose proof (send_burst_ok config my_nonce w Hs) as Hok.
  destruct (send_burst config my_nonce w) as [w1 r1]; cbn [fst snd] in *. subst r1.
  assert (Htf : timeout_fails w1 = None) by (destruct Hl1; congruence).
  unfold set_read_timeout. rewrite Htf, Hc1.
  destruct (Z.leb_spec (clock w + from_millis (deadline_ms config)) (clock w)); [unfold from_millis in *; lia|].
  replace (Z.min _ _) with (from_millis (interval_ms config))
    by (unfold saturating_sub, from_millis; lia).
  set (w2 := mkSocket _ _ _ _ _ _ _).
  destruct (drain_flood (S (length (inbox w2))) my_nonce w2 (clock w) src peer 0 n) as (w' & -> & Hw');
    [unfold w2, from_millis; cbn; lia|done|unfold w2; cbn; lia| | |eauto].
  - unfold w2; cbn [inbox read_timeout]. by rewrite Hi1.
  - unfold w2; cbn [inbox]. rewrite Hi1, Hin, length_app. unfold flood. rewrite length_fmap, length_seq. lia.
Qed.

Lemma hole_punch_overshoots_witness :
  let peer := mkSocketAddr (V4 [192; 0; 2; 1]) 4000 in
  let src := mkSocketAddr (V4 [198; 51; 100; 7]) 53 in
  let config := HolePunchConfig_cone peer 3000 250 in
  let inbox := flood 0 (from_millis 250) src 1 99 ++
               [(from_millis 25000, Arrives (encode_probe Pong (replicate 8 1)) peer)] in
  ∃ w', hole_punch 1 config (replicate 8 1) (mkSocket 0 inbox [] 0 (fun _ => None) None None)
        = (w', 1%nat, Some (Ok peer)) ∧ clock w' = from_millis 25000.
Proof.
  cbv zeta.
  refine (hole_punch_overshoots (HolePunchConfig_cone (mkSocketAddr (V4 [192; 0; 2; 1]) 4000) 3000 250)
    (replicate 8 1) (mkSocket 0 _ [] 0 (fun _ => None) None None)
    (mkSocketAddr (V4 [198; 51; 100; 7]) 53) _ 99 _ _ _ _ _ _); try reflexivity.
  vm_compute; split; [reflexivity|discriminate].
Defined.

End HolePunch.
