(* ===== verification/Relay.v ===== *)
(** * Relay fallback

    [crates/desmos-core/src/p2p/relay.rs]: the relay frame codec, the relay
    session, registration with one or several candidates, and the combined
    direct-then-relay attempt, on the socket of [HolePunch].  The theorems give
    the round trip of the codec, the end-to-end transfer of a payload, the
    deadlines of registration, the outcomes of the combined attempt, and the
    independence of source addresses. *)

From stdpp Require Import base numbers list strings.
From Stdlib Require Import ZArith Lia Ascii.
From S2P Require Import Prelude Stun HolePunch.

(** ** Relay *)

Module Relay.

Import HolePunch.

Definition RELAY_MAGIC : bytes := bytes_of_string "DESMOS-RELAY".
Definition RELAY_HEADER_LEN : nat := 16.
Definition MAX_RELAY_PAYLOAD : Z := 65519.
Definition RECV_BUF_LEN : Z := 65535.

Inductive RelayCmd := Register | Registered | Data | PeerJoined | Error.

#[export] Instance RelayCmd_eq_dec : EqDecision RelayCmd.
Proof. solve_decision. Defined.

(** [cmd as u8]. *)
Definition RelayCmd_to_byte (c : RelayCmd) : Z :=
  match c with Register => 0 | Registered => 1 | Data => 2 | PeerJoined => 3 | Error => 4 end.

Definition RelayCmd_from_byte (b : Z) : option RelayCmd :=
  if b =? 0 then Some Register else if b =? 1 then Some Registered else if b =? 2 then Some Data
  else if b =? 3 then Some PeerJoined else if b =? 4 then Some Error else None.

Inductive RelayError :=
| RelayHolePunch (e : P2pError)
| NoRelay
| RelayRejected (message : bytes)
| BadFrame (reason : string)
| NoRelayServers
| RelayIo (e : string)
| RelayTimeout.

(** The new buffer and the number of bytes written. *)
Definition encode_relay_frame (buf : bytes) (cmd : RelayCmd) (payload : bytes) : option (bytes * nat) :=
  let total := (RELAY_HEADER_LEN + length payload)%nat in
  if (MAX_RELAY_PAYLOAD <? Z.of_nat (length payload)) || (length buf <? total)%nat then None
  else
    let buf := copy_from_slice buf 0 RELAY_MAGIC in
    let buf := <[12%nat := RelayCmd_to_byte cmd]> buf in
    let buf := <[13%nat := 0]> buf in
    let len_be := to_be_bytes 2 (wrap 16 (Z.of_nat (length payload))) in
    let buf := <[14%nat := byte_at len_be 0]> buf in
    let buf := <[15%nat := byte_at len_be 1]> buf in
    let buf := match payload with [] => buf | _ => copy_from_slice buf RELAY_HEADER_LEN payload end in
    Some (buf, total).

Record RelayFrame := mkRelayFrame { fr_cmd : RelayCmd; fr_payload : bytes }.

Definition decode_relay_frame (bs : bytes) : option RelayFrame :=
  if (length bs <? RELAY_HEADER_LEN)%nat then None
  else if negb (bool_decide (slice 0 12 bs = RELAY_MAGIC)) then None
  else
    cmd ← RelayCmd_from_byte (byte_at bs 12);
    let payload_len := Z.to_nat (from_be_bytes [byte_at bs 14; byte_at bs 15]) in
    let total := (RELAY_HEADER_LEN + payload_len)%nat in
    if (length bs <? total)%nat then None
    else Some (mkRelayFrame cmd (slice RELAY_HEADER_LEN total bs)).

(** [std::str::from_utf8(..).is_ok()]: the well-formed sequences of the
    Unicode standard, table 3-7. *)
Fixpoint utf8_valid (bs : bytes) : bool :=
  let within lo hi b := (lo <=? b) && (b <=? hi) in
  match bs with
  | [] => true
  | b0 :: r =>
      if b0 <? 0x80 then utf8_valid r
      else match r with
      | [] => false
      | b1 :: r =>
          if within 0xC2 0xDF b0 then within 0x80 0xBF b1 && utf8_valid r
          else match r with
          | [] => false
          | b2 :: r =>
              if within 0xE0 0xEF b0 then
                within (if b0 =? 0xE0 then 0xA0 else 0x80) (if b0 =? 0xED then 0x9F else 0xBF) b1
                && within 0x80 0xBF b2 && utf8_valid r
              else match r with
              | [] => false
              | b3 :: r =>
                  within 0xF0 0xF4 b0
                  && within (if b0 =? 0xF0 then 0x90 else 0x80) (if b0 =? 0xF4 then 0x8F else 0xBF) b1
                  && within 0x80 0xBF b2 && within 0x80 0xBF b3 && utf8_valid r
              end
          end
      end
  end.

(** [from_utf8(payload).unwrap_or("(invalid utf-8)")]. *)
Definition reject_message (payload : bytes) : bytes :=
  if utf8_valid payload then payload else bytes_of_string "(invalid utf-8)".

Record RelaySession := mkRelaySession { relay_addr : SocketAddr; send_buf : bytes }.

Definition RelaySession_new (relay_addr : SocketAddr) : RelaySession :=
  mkRelaySession relay_addr (replicate (Z.to_nat RECV_BUF_LEN) 0).

Definition RelaySession_send (s : RelaySession) (payload : bytes) (w : Socket)
    : RelaySession * Socket * result () RelayError :=
  match encode_relay_frame (send_buf s) Data payload with
  | None => (s, w, Err (BadFrame "payload too large for relay frame"))
  | Some (buf, n) =>
      let s := mkRelaySession (relay_addr s) buf in
      let '(w, r) := send_to (take n buf) (relay_addr s) w in
      (s, w, result_map_err RelayIo r)
  end.

(** [RelaySession::recv] into [buf]: the socket, the buffer and the payload.
    Every iteration consumes an arrival or returns. *)
Fixpoint RelaySession_recv (fuel : nat) (buf : bytes) (w : Socket)
    : Socket * bytes * option (result bytes RelayError) :=
  match fuel with
  | O => (w, buf, None)
  | S fuel =>
      match recv_from (Z.of_nat (length buf)) w with
      | (w, Err RecvTimedOut) => (w, buf, Some (Err RelayTimeout))
      | (w, Err (RecvOther e)) => (w, buf, Some (Err (RelayIo e)))
      | (w, Ok (d, _from)) =>
          let n := length d in
          let buf := copy_from_slice buf 0 d in
          match decode_relay_frame (take n buf) with
          | None => RelaySession_recv fuel buf w
          | Some frame =>
              match fr_cmd frame with
              | Data =>
                  let plen := length (fr_payload frame) in
                  let buf := copy_from_slice buf 0 (slice RELAY_HEADER_LEN (RELAY_HEADER_LEN + plen) buf) in
                  (w, buf, Some (Ok (take plen buf)))
              | Error => (w, buf, Some (Err (RelayRejected (reject_message (fr_payload frame)))))
              | _ => RelaySession_recv fuel buf w
              end
          end
      end
  end.

(** The wait for [PeerJoined] in [relay_connect]. *)
Fixpoint connect_loop (fuel : nat) (addr : SocketAddr) (deadline : Z) (got_registered : bool) (w : Socket)
    : Socket * option (result RelaySession RelayError) :=
  match fuel with
  | O => (w, None)
  | S fuel =>
      let now := clock w in
      if deadline <=? now then (w, Some (Err RelayTimeout)) else
      let remaining := saturating_sub deadline now in
      match set_read_timeout remaining w with
      | (w, Err e) => (w, Some (Err (RelayIo e)))
      | (w, Ok _) =>
          match recv_from RECV_BUF_LEN w with
          | (w, Ok (d, _from)) =>
              match decode_relay_frame d with
              | None => connect_loop fuel addr deadline got_registered w
              | Some frame =>
                  match fr_cmd frame with
                  | Registered => connect_loop fuel addr deadline true w
                  | PeerJoined => (w, Some (Ok (RelaySession_new addr)))
                  | Error => (w, Some (Err (RelayRejected (reject_message (fr_payload frame)))))
                  | _ => connect_loop fuel addr deadline got_registered w
                  end
              end
          | (w, Err RecvTimedOut) => (w, Some (Err RelayTimeout))
          | (w, Err (RecvOther e)) => (w, Some (Err (RelayIo e)))
          end
      end
  end.

Definition relay_connect (addr : SocketAddr) (peer_public_key : bytes) (deadline : Z) (w : Socket)
    : Socket * option (result RelaySession RelayError) :=
  match disable_udp_connreset w with
  | Err e => (w, Some (Err (RelayIo e)))
  | Ok _ =>
      match encode_relay_frame (replicate (RELAY_HEADER_LEN + 32) 0) Register peer_public_key with
      | None => (w, Some (Err (BadFrame "register encode failed")))
      | Some (buf, n) =>
          match send_to (take n buf) addr w with
          | (w, Err e) => (w, Some (Err (RelayIo e)))
          | (w, Ok _) => connect_loop (S (length (inbox w))) addr deadline false w
          end
      end
  end.

(** The [for] loop over the candidates. *)
Fixpoint try_servers (servers : list SocketAddr) (peer_public_key : bytes) (per_server deadline : Z)
    (w : Socket) : Socket * option (result RelaySession RelayError) :=
  match servers with
  | [] => (w, Some (Err NoRelay))
  | addr :: rest =>
      let now := clock w in
      if deadline <=? now then (w, Some (Err NoRelay)) else
      let attempt_deadline := Z.min (now + per_server) deadline in
      match relay_connect addr peer_public_key attempt_deadline w with
      | (w, None) => (w, None)
      | (w, Some (Ok session)) => (w, Some (Ok session))
      | (w, Some (Err _)) => try_servers rest peer_public_key per_server deadline w
      end
  end.

(** [total_budget.checked_div(count as u32).unwrap_or(500 ms).max(500 ms)]. *)
Definition per_server_budget (total_budget : Z) (count : nat) : Z :=
  let count := wrap 32 (Z.of_nat count) in
  Z.max (if count =? 0 then from_millis 500 else total_budget / count) (from_millis 500).

Definition relay_connect_any (relay_servers : list SocketAddr) (peer_public_key : bytes) (deadline : Z)
    (w : Socket) : Socket * option (result RelaySession RelayError) :=
  match relay_servers with
  | [] => (w, Some (Err NoRelayServers))
  | _ =>
      let total_budget := saturating_sub deadline (clock w) in
      let per_server := per_server_budget total_budget (length relay_servers) in
      try_servers relay_servers peer_public_key per_server deadline w
  end.

Inductive P2pOutcome := Direct (addr : SocketAddr) | Relayed (session : RelaySession).

Record P2pConnectConfig := mkP2pConnectConfig {
  punch : HolePunchConfig;
  relay_servers : list SocketAddr;
  peer_public_key : bytes;
  total_deadline_ms : Z;
}.

Definition try_direct_then_relay (config : P2pConnectConfig) (my_nonce : bytes) (w : Socket)
    : Socket * option (result P2pOutcome RelayError) :=
  let total_deadline := clock w + from_millis (total_deadline_ms config) in
  let fallback w :=
    if total_deadline <=? clock w then (w, Some (Err RelayTimeout))
    else
      let '(w, r) := relay_connect_any (relay_servers config) (peer_public_key config) total_deadline w in
      (w, option_map (fun r => match r with Ok s => Ok (Relayed s) | Err e => Err e end) r) in
  match hole_punch (max_bursts (punch config)) (punch config) my_nonce w with
  | (w, _, None) => (w, None)
  | (w, _, Some (Ok addr)) => (w, Some (Ok (Direct addr)))
  | (w, _, Some (Err (BadConfig r))) => (w, Some (Err (RelayHolePunch (BadConfig r))))
  | (w, _, Some (Err _)) => fallback w
  end.

(** ** Relay: the frame codec *)

Definition relay_frame (cmd : RelayCmd) (payload : bytes) : bytes :=
  RELAY_MAGIC ++ [RelayCmd_to_byte cmd; 0] ++ to_be_bytes 2 (Z.of_nat (length payload)) ++ payload.

Lemma length_relay_frame cmd payload : length (relay_frame cmd payload) = (16 + length payload)%nat.
Proof. unfold relay_frame. by rewrite !length_app, length_to_be_bytes. Qed.

Lemma encode_relay_fits buf cmd payload :
  Z.of_nat (length payload) <= MAX_RELAY_PAYLOAD → (16 + length payload <= length buf)%nat →
  encode_relay_frame buf cmd payload
  = Some (relay_frame cmd payload ++ drop (16 + length payload) buf, (16 + length payload)%nat).
Proof.
  unfold MAX_RELAY_PAYLOAD. intros Hp Hb. unfold encode_relay_frame, RELAY_HEADER_LEN, MAX_RELAY_PAYLOAD.
  destruct (Z.ltb_spec 65519 (Z.of_nat (length payload))); [lia|].
  destruct (Nat.ltb_spec (length buf) (16 + length payload)); [lia|]. cbn [orb].
  rewrite wrap_small by zlia. unfold relay_frame.
  set (n := Z.of_nat (length payload)). clearbody n.
  do 16 (destruct buf as [|? buf]; [cbn in Hb; lia|]). cbn in Hb.
  assert (E : ∀ b : bytes, match payload with [] => b | _ => copy_from_slice b 16 payload end
                           = copy_from_slice b 16 payload) by (by destruct payload).
  rewrite E, (copy_from_slice_eq _ payload 16) by (cbn; lia). do 2 f_equal.
Qed.

Lemma decode_relay_frame_app cmd payload tl :
  Z.of_nat (length payload) < 2 ^ 16 →
  decode_relay_frame (relay_frame cmd payload ++ tl) = Some (mkRelayFrame cmd payload).
Proof.
  intros Hp. unfold decode_relay_frame, RELAY_HEADER_LEN.
  rewrite length_app, length_relay_frame.
  destruct (Nat.ltb_spec (16 + length payload + length tl) 16); [lia|].
  rewrite bool_decide_eq_true_2 by reflexivity. cbn [negb].
  assert (byte_at (relay_frame cmd payload ++ tl) 12 = RelayCmd_to_byte cmd) as -> by done.
  assert (from_be_bytes [byte_at (relay_frame cmd payload ++ tl) 14; byte_at (relay_frame cmd payload ++ tl) 15]
          = Z.of_nat (length payload)) as ->.
  { transitivity (from_be_bytes (to_be_bytes 2 (Z.of_nat (length payload)))); [done|].
    apply from_to_be_bytes. unfold in_width. change (2 ^ (8 * Z.of_nat 2)) with (2 ^ 16). lia. }
  assert (RelayCmd_from_byte (RelayCmd_to_byte cmd) = Some cmd) as -> by (by destruct cmd).
  cbn [mbind option_bind]. rewrite Nat2Z.id.
  destruct (Nat.ltb_spec (16 + length payload + length tl) (16 + length payload)); [lia|].
  do 2 f_equal. unfold slice. replace (16 + length payload - 16)%nat with (length payload) by lia.
  unfold relay_frame. rewrite <- !app_assoc. change 16%nat with (12 + (2 + (2 + 0)))%nat.
  rewrite !app_assoc, <- (app_assoc _ payload tl).
  rewrite drop_app_length' by (by rewrite !length_app, length_to_be_bytes).
  by rewrite take_app_length.
Qed.

(** the relay frame codec.  Encoding fails exactly when the payload
    exceeds 65519 bytes or the buffer is too small; otherwise it writes
    header and payload, leaves the rest of the buffer alone, and what it wrote
    decodes to the same command and payload, also when the datagram carries
    trailing bytes. *)
Theorem relay_frame_roundtrip (buf payload tl : bytes) (cmd : RelayCmd) :
  let total := (RELAY_HEADER_LEN + length payload)%nat in
  match encode_relay_frame buf cmd payload with
  | None => MAX_RELAY_PAYLOAD < Z.of_nat (length payload) ∨ (length buf < total)%nat
  | Some (buf', n) =>
      Z.of_nat (length payload) <= MAX_RELAY_PAYLOAD ∧ n = total ∧ length buf' = length buf ∧
      drop n buf' = drop n buf ∧
      decode_relay_frame (take n buf' ++ tl) = Some (mkRelayFrame cmd payload)
  end.
Proof.
  cbv zeta. unfold RELAY_HEADER_LEN.
  destruct (Z.lt_ge_cases MAX_RELAY_PAYLOAD (Z.of_nat (length payload))) as [Hp|Hp].
  { unfold encode_relay_frame. by rewrite (proj2 (Z.ltb_lt _ _) Hp); left. }
  destruct (Nat.lt_ge_cases (length buf) (16 + length payload)) as [Hb|Hb].
  { unfold encode_relay_frame, RELAY_HEADER_LEN. rewrite (proj2 (Nat.ltb_lt _ _) Hb), orb_true_r. by right. }
  rewrite encode_relay_fits by done. split_and!; [done|done| | |].
  - rewrite length_app, length_relay_frame, length_drop. lia.
  - by rewrite drop_app_length' by (by rewrite length_relay_frame).
  - rewrite take_app_length' by (by rewrite length_relay_frame).
    apply decode_relay_frame_app. unfold MAX_RELAY_PAYLOAD in Hp. lia.
Qed.

(** ** Relay: registration *)

Definition joined (d : bytes) : Prop :=
  ∃ p, decode_relay_frame (take (Z.to_nat RECV_BUF_LEN) d) = Some (mkRelayFrame PeerJoined p).

(** What registration with one candidate guarantees. *)
Definition connect_post (addrs : list SocketAddr) (deadline : Z) (w w' : Socket)
    (r : result RelaySession RelayError) : Prop :=
  inbox w' `suffix_of` inbox w ∧ clock w <= clock w' <= Z.max (clock w) deadline ∧
  ∀ s, r = Ok s → relay_addr s ∈ addrs ∧ length (send_buf s) = Z.to_nat RECV_BUF_LEN ∧
    ∃ t d from, (t, Arrives d from) ∈ inbox w ∧ joined d.

Lemma connect_post_trans addrs deadline deadline' w w1 w' r :
  inbox w1 `suffix_of` inbox w → clock w <= clock w1 <= Z.max (clock w) deadline → deadline' <= deadline →
  connect_post addrs deadline' w1 w' r → connect_post addrs deadline w w' r.
Proof.
  intros Hi Hc Hd (Hi' & Hc' & Hr). split_and!; [by etrans|lia|lia|].
  intros s Es. destruct (Hr s Es) as (? & ? & t & d & from & Hin & ?). split_and!; [done|done|].
  exists t, d, from. split; [by eapply suffix_elem|done].
Qed.

Lemma connect_err addrs deadline w w' e :
  inbox w' `suffix_of` inbox w → clock w <= clock w' <= Z.max (clock w) deadline →
  connect_post addrs deadline w w' (Err e).
Proof. intros Hi Hc. split; [exact Hi|split; [exact Hc|discriminate]]. Qed.

Lemma connect_loop_total fuel addr deadline got w :
  (length (inbox w) < fuel)%nat →
  ∃ w' r, connect_loop fuel addr deadline got w = (w', Some r) ∧ connect_post [addr] deadline w w' r.
Proof.
  revert got w. induction fuel as [|fuel IH]; intros got w Hf; [lia|]. cbn [connect_loop].
  destruct (Z.leb_spec deadline (clock w)).
  { eexists _, _. split; [done|]. apply connect_err; [done|lia]. }
  set (remaining := saturating_sub deadline (clock w)).
  destruct (set_read_timeout remaining w) as [w1 [u|e]] eqn:E1;
    apply set_read_timeout_spec in E1 as (Hi1 & Hc1 & _ & _ & Hrt).
  2:{ eexists _, _. split; [done|]. apply connect_err; [by rewrite Hi1|lia]. }
  specialize (Hrt u eq_refl). destruct (recv_from RECV_BUF_LEN w1) as [w2 r] eqn:E2.
  apply recv_spec in E2 as ([Hi2 _ _ _] & Hc2 & Hr). rewrite Hi1 in Hi2.
  assert (Hclk : clock w <= clock w2 <= deadline).
  { rewrite Hrt, Hc1 in Hc2. unfold remaining, saturating_sub in Hc2. lia. }
  assert (Hrec : (length (inbox w2) < length (inbox w))%nat → ∀ g,
    ∃ w' r, connect_loop fuel addr deadline g w2 = (w', Some r) ∧ connect_post [addr] deadline w w' r).
  { intros Hlt g. destruct (IH g w2) as (w' & r' & -> & Hpost); [lia|]. eexists _, _. split; [done|].
    eapply connect_post_trans; [exact Hi2|lia|reflexivity|done]. }
  assert (Hstop : ∀ e, connect_post [addr] deadline w w2 (Err e)) by (intros; apply connect_err; [done|lia]).
  destruct r as [[d from]|[|e]]; [|by eauto..].
  destruct Hr as (t & d0 & Ei & -> & _). rewrite Hi1 in Ei.
  assert (Hlt : (length (inbox w2) < length (inbox w))%nat) by (rewrite Ei; cbn; lia).
  destruct (decode_relay_frame _) as [[[] p]|] eqn:Ed; cbn [fr_cmd fr_payload]; eauto.
  eexists _, _. split; [done|]. split_and!; [done|lia|lia|]. intros s [= <-].
  split_and!; [apply list_elem_of_here|exact (length_replicate _ 0)|].
  exists t, d0, from. split; [rewrite Ei; apply list_elem_of_here|]. by exists p.
Qed.

Lemma relay_connect_total addr key deadline w :
  ∃ w' r, relay_connect addr key deadline w = (w', Some r) ∧ connect_post [addr] deadline w w' r.
Proof.
  unfold relay_connect. assert (Hnow : ∀ e, connect_post [addr] deadline w w (Err e))
    by (intros; apply connect_err; [done|lia]).
  destruct (disable_udp_connreset w); [|by eauto].
  destruct (encode_relay_frame _ _ _) as [[buf n]|]; [|by eauto].
  destruct (send_to_later (take n buf) addr w) as (_ & Hc & Hi).
  destruct (send_to (take n buf) addr w) as [w1 [u|e]]; cbn [fst] in *.
  - destruct (connect_loop_total (S (length (inbox w1))) addr deadline false w1) as (w' & r & -> & Hp); [lia|].
    eexists _, _. split; [done|]. eapply connect_post_trans; [by rewrite Hi|lia|reflexivity|done].
  - eexists _, _. split; [done|]. apply connect_err; [by rewrite Hi|lia].
Qed.

Lemma try_servers_total servers key per deadline w :
  ∃ w' r, try_servers servers key per deadline w = (w', Some r) ∧ connect_post servers deadline w w' r.
Proof.
  revert w. induction servers as [|a servers IH]; intros w; cbn [try_servers].
  { eexists _, _. split; [done|]. apply connect_err; [done|lia]. }
  destruct (Z.leb_spec deadline (clock w)).
  { eexists _, _. split; [done|]. apply connect_err; [done|lia]. }
  set (dl := Z.min _ _).
  destruct (relay_connect_total a key dl w) as (w1 & r1 & -> & Hp). destruct Hp as (Hi & Hc & Hr).
  destruct r1 as [s|e].
  - eexists _, _. split; [done|]. split_and!; [done|lia|lia|]. intros s' [= <-].
    destruct (Hr s eq_refl) as (Ha & Hrest). split; [|done].
    apply list_elem_of_singleton in Ha as ->. apply list_elem_of_here.
  - destruct (IH w1) as (w' & r & -> & Hi2 & Hc2 & Hr2). eexists _, _. split; [done|].
    split_and!; [by etrans|lia|lia|]. intros s Es.
    destruct (Hr2 s Es) as (Ha & Hb & t & d & from & Hin & ?). split_and!; [by apply list_elem_of_further|done|].
    exists t, d, from. split; [by eapply suffix_elem|done].
Qed.

Lemma relay_connect_any_total (servers : list SocketAddr) (key : bytes) (deadline : Z) (w : Socket) :
  ∃ w' r, relay_connect_any servers key deadline w = (w', Some r) ∧
    connect_post servers deadline w w' r ∧ (r = Err NoRelayServers ↔ servers = []).
Proof.
  unfold relay_connect_any. destruct servers as [|a servers].
  { eexists _, _. split; [done|]. split; [|done]. apply connect_err; [done|lia]. }
  generalize (per_server_budget (saturating_sub deadline (clock w)) (length (a :: servers))). intros per.
  destruct (try_servers_total (a :: servers) key per deadline w) as (w' & r & E & Hp).
  exists w', r. split_and!; [done|done|]. split; [|done]. intros ->. exfalso. revert E. clear.
  generalize (a :: servers). intros l. revert w. induction l as [|b l IH]; intros w; cbn [try_servers]; [done|].
  destruct (_ <=? _); [done|]. destruct (relay_connect_total b key (Z.min (clock w + per) deadline) w) as (w1 & r1 & -> & _).
  destruct r1 as [s|e]; [done|apply IH].
Qed.

(** the relay fallback respects its deadline.  For every candidate list
    and every finite set of arrivals, registration returns, never later than
    the absolute deadline (or at once when that has passed), and a session it
    returns is with one of the configured relays, after a [PeerJoined] frame
    arrived, with a send buffer that holds the largest frame. *)
Theorem relay_connect_any_deadline (servers : list SocketAddr) (key : bytes) (deadline : Z) (w : Socket) :
  ∃ w' r, relay_connect_any servers key deadline w = (w', Some r) ∧
    connect_post servers deadline w w' r ∧ (r = Err NoRelayServers ↔ servers = []).
Proof. apply relay_connect_any_total. Qed.

(** ** Relay: the whole attempt *)

Definition bad_config (c : HolePunchConfig) : Prop := deadline_ms c = 0 ∨ interval_ms c = 0.

Lemma punch_loop_no_bad_config fuel config my_nonce deadline w b w' b' e :
  punch_loop fuel config my_nonce deadline w b = (w', b', Some (Err (BadConfig e))) → False.
Proof.
  revert w b. induction fuel as [|fuel IH]; intros w b; cbn [punch_loop]; [done|].
  destruct (send_burst _ _ _) as [w1 [|]]; [|done]. destruct (_ <=? _); [done|].
  destruct (set_read_timeout _ _) as [w2 [|]]; [|done].
  destruct (drain _ _ _) as [w3 [[| |]|]]; try done. destruct (_ <=? _); [done|apply IH].
Qed.

Lemma hole_punch_bad_config fuel config my_nonce w w' b e :
  hole_punch fuel config my_nonce w = (w', b, Some (Err (BadConfig e))) → w' = w ∧ bad_config config.
Proof.
  unfold hole_punch, bad_config. destruct (Z.eqb_spec (deadline_ms config) 0); [intros [= <- <- <-]; auto|].
  destruct (Z.eqb_spec (interval_ms config) 0); [intros [= <- <- <-]; auto|].
  destruct (disable_udp_connreset w); [|done]. by intros ?%punch_loop_no_bad_config.
Qed.

Lemma hole_punch_bad_config_fails fuel config my_nonce w :
  bad_config config → ∃ e, hole_punch fuel config my_nonce w = (w, O, Some (Err (BadConfig e))).
Proof.
  unfold hole_punch. intros [E|E]; [rewrite E; eauto|].
  destruct (deadline_ms config =? 0); [eauto|]. rewrite E. eauto.
Qed.

(** What the combined attempt promises for each outcome. *)
Definition p2p_post (config : P2pConnectConfig) (my_nonce : bytes) (w w' : Socket)
    (r : result P2pOutcome RelayError) : Prop :=
  match r with
  | Ok (Direct from) => ∃ t d, (t, Arrives d from) ∈ inbox w ∧ confirms my_nonce d
  | Ok (Relayed s) =>
      relay_addr s ∈ relay_servers config ∧
      clock w' <= clock w + from_millis (total_deadline_ms config) ∧
      ∃ t d from, (t, Arrives d from) ∈ inbox w ∧ joined d
  | Err (RelayHolePunch _) => w' = w ∧ bad_config (punch config)
  | Err _ => ¬ bad_config (punch config)
  end.

Lemma relay_any_no_hole_punch servers key deadline w w' e :
  relay_connect_any servers key deadline w = (w', Some (Err e)) →
  match e with RelayHolePunch _ => False | _ => True end.
Proof.
  unfold relay_connect_any. destruct servers as [|a servers]; [by intros [= _ <-]|].
  generalize (per_server_budget (saturating_sub deadline (clock w)) (length (a :: servers))). intros per.
  generalize (a :: servers). intros l. revert w. induction l as [|b l IH]; intros w; cbn [try_servers]; [by intros [= _ <-]|].
  destruct (_ <=? _); [by intros [= _ <-]|].
  destruct (relay_connect_total b key (Z.min (clock w + per) deadline) w) as (w1 & r1 & -> & _).
  destruct r1; [done|apply IH].
Qed.

(** the combined attempt.  It always returns; a direct outcome means the
    peer confirmed our nonce from that address; a relayed outcome means a
    configured relay announced the peer before the total deadline; a
    hole-punch error is returned exactly for an unusable configuration, before
    anything is sent, without trying any relay. *)
Theorem p2p_connect_outcomes (config : P2pConnectConfig) (my_nonce : bytes) (w : Socket)
  (Hd : in_width 64 (deadline_ms (punch config))) (Hi : in_width 64 (interval_ms (punch config))) :
  ∃ w' r, try_direct_then_relay config my_nonce w = (w', Some r) ∧ p2p_post config my_nonce w w' r.
Proof.
  unfold try_direct_then_relay.
  destruct (hole_punch_total (punch config) my_nonce w Hd Hi) as (w1 & b & r1 & E & _ & Hin & Hr). rewrite E.
  assert (Hgood : ∀ e, r1 = Err e → (∀ m, e ≠ BadConfig m) → ¬ bad_config (punch config)).
  { intros e -> Hne Hbad.
    destruct (hole_punch_bad_config_fails (max_bursts (punch config)) (punch config) my_nonce w Hbad) as [m Em].
    rewrite E in Em. injection Em as _ _ Em. by eapply Hne. }
  assert (Hfall : ¬ bad_config (punch config) →
    ∃ w' r, (if clock w + from_millis (total_deadline_ms config) <=? clock w1 then (w1, Some (Err RelayTimeout))
             else let '(w, r) := relay_connect_any (relay_servers config) (peer_public_key config)
                        (clock w + from_millis (total_deadline_ms config)) w1 in
                  (w, option_map (fun r => match r with Ok s => Ok (Relayed s) | Err e => Err e end) r))
            = (w', Some r) ∧ p2p_post config my_nonce w w' r).
  { intros Hok. destruct (Z.leb_spec (clock w + from_millis (total_deadline_ms config)) (clock w1)); [by eexists _, _|].
    destruct (relay_connect_any_total (relay_servers config) (peer_public_key config)
      (clock w + from_millis (total_deadline_ms config)) w1) as (w' & r & Er & (_ & Hc & Hs) & _).
    rewrite Er. cbn [option_map]. eexists _, _. split; [done|]. destruct r as [s|e].
    - destruct (Hs s eq_refl) as (Ha & _ & t & d & from & Hin' & ?). split_and!; [done|lia|].
      exists t, d, from. split; [by eapply suffix_elem|done].
    - apply relay_any_no_hole_punch in Er. by destruct e. }
  destruct r1 as [from|[|m|e]].
  - eexists _, _. split; [done|]. by apply Hr.
  - apply Hfall. by eapply Hgood.
  - eexists _, _. split; [done|]. by eapply hole_punch_bad_config.
  - apply Hfall. by eapply Hgood.
Qed.

Lemma p2p_connect_outcomes_witness :
  let relay := mkSocketAddr (V4 [203; 0; 113; 5]) 7000 in
  let config := mkP2pConnectConfig
    (HolePunchConfig_cone (mkSocketAddr (V4 [192; 0; 2; 1]) 4000) 0 250) [relay] (replicate 32 3) 6000 in
  let w := mkSocket 0 [] [] 0 (fun _ => None) None None in
  ∃ w' r, try_direct_then_relay config (replicate 8 1) w = (w', Some r) ∧
          p2p_post config (replicate 8 1) w w' r.
Proof.
  cbv zeta.
  apply (p2p_connect_outcomes (mkP2pConnectConfig
    (HolePunchConfig_cone (mkSocketAddr (V4 [192; 0; 2; 1]) 4000) 0 250)
    [mkSocketAddr (V4 [203; 0; 113; 5]) 7000] (replicate 32 3) 6000) (replicate 8 1)
    (mkSocket 0 [] [] 0 (fun _ => None) None None));
    vm_compute; split; (discriminate || reflexivity).
Defined.

(** ** Relay: the session *)

(** A datagram that [recv] skips, into a buffer of [cap] bytes. *)
Definition skipped (cap : nat) (d : bytes) : Prop :=
  match decode_relay_frame (take cap d) with
  | None => True
  | Some f => fr_cmd f ≠ Data ∧ fr_cmd f ≠ Error
  end.

Lemma received_prefix (buf d : bytes) :
  (length d <= length buf)%nat →
  take (length d) (copy_from_slice buf 0 d) = d ∧ length (copy_from_slice buf 0 d) = length buf.
Proof.
  intros Hl. rewrite copy_from_slice_eq, take_0, app_nil_l, Nat.add_0_l by lia.
  split; [by rewrite take_app_length|]. rewrite length_app, length_drop. lia.
Qed.

Lemma recv_delivers fuel (buf : bytes) w junk t payload from rest :
  inbox w = junk ++ (t, Arrives (relay_frame Data payload) from) :: rest →
  Forall (fun e => e.1 <= clock w + read_timeout w ∧ ∃ d a, e.2 = Arrives d a ∧ skipped (length buf) d) junk →
  t <= clock w + read_timeout w → (16 + length payload <= length buf)%nat →
  Z.of_nat (length payload) < 2 ^ 16 → (length junk < fuel)%nat →
  ∃ w' buf', RelaySession_recv fuel buf w = (w', buf', Some (Ok payload)) ∧ inbox w' = rest.
Proof.
  intros Hin Hj Ht Hb Hp. revert w buf junk Hin Hj Ht Hb.
  induction fuel as [|fuel IH]; intros w buf junk Hin Hj Ht Hb Hf; [lia|].
  cbn [RelaySession_recv]. unfold recv_from. rewrite Hin, Nat2Z.id. destruct junk as [|e junk]; cbn [app].
  - destruct (Z.leb_spec t (clock w + read_timeout w)); [|lia].
    rewrite (take_ge (relay_frame Data payload)) by (rewrite length_relay_frame; lia).
    destruct (received_prefix buf (relay_frame Data payload)) as [-> Hlen]; [by rewrite length_relay_frame|].
    pose proof (decode_relay_frame_app Data payload [] Hp) as Hdec. rewrite app_nil_r in Hdec. rewrite Hdec.
    cbn [fr_cmd fr_payload]. rewrite (copy_from_slice_eq buf) by (rewrite length_relay_frame; lia).
    rewrite take_0, app_nil_l, Nat.add_0_l. unfold slice, RELAY_HEADER_LEN.
    replace (16 + length payload - 16)%nat with (length payload) by lia.
    assert (Hd : drop 16 (relay_frame Data payload ++ drop (length (relay_frame Data payload)) buf)
              = payload ++ drop (length (relay_frame Data payload)) buf) by reflexivity.
    rewrite Hd, take_app_length.
    set (buf1 := relay_frame Data payload ++ _).
    destruct (received_prefix buf1 payload) as [-> _].
    { unfold buf1. rewrite length_app, length_relay_frame. lia. }
    eexists _, _. split; [done|]. cbn. by rewrite Hin.
  - apply Forall_cons in Hj as [(He & d & a & Ed & Hsk) Hj]. destruct e as [t1 ev]. cbn [fst snd] in *. subst ev.
    destruct (Z.leb_spec t1 (clock w + read_timeout w)); [|lia].
    assert (Hlen : (length (take (length buf) d) <= length buf)%nat) by (rewrite length_take; lia).
    destruct (received_prefix buf _ Hlen) as [-> Hlb].
    assert (Hnext : ∃ w' buf', RelaySession_recv fuel (copy_from_slice buf 0 (take (length buf) d))
        (pop_inbox (set_clock (Z.max (clock w) t1) w)) = (w', buf', Some (Ok payload)) ∧ inbox w' = rest).
    { apply (IH _ _ junk); [cbn; by rewrite Hin| |cbn; lia|lia|cbn in Hf; lia].
      rewrite Hlb. eapply Forall_impl; [exact Hj|]. intros [t2 e2] [? ?]. cbn [fst snd clock read_timeout pop_inbox set_clock] in *.
      split; [lia|done]. }
    unfold skipped in Hsk. destruct (decode_relay_frame _) as [[[] p]|]; cbn [fr_cmd] in *; naive_solver.
Qed.

(** a relayed payload arrives unchanged.  For a payload of up to 65519
    bytes a session's [send] puts one datagram on the wire towards its relay,
    and when the relay forwards that datagram, [recv] at the other end returns
    exactly the payload, skipping stray datagrams and control frames that
    arrive before it. *)
Theorem relay_transfer (s : RelaySession) (payload buf : bytes) (w1 w2 : Socket)
  (junk rest : list (Z * Incoming)) (t : Z) (from : SocketAddr)
  (Hs : length (send_buf s) = Z.to_nat RECV_BUF_LEN) (Hok : send_fails w1 (relay_addr s) = None)
  (Hp : Z.of_nat (length payload) <= MAX_RELAY_PAYLOAD) (Hb : (16 + length payload <= length buf)%nat) :
  ∃ s' w1' datagram,
    RelaySession_send s payload w1 = (s', w1', Ok ()) ∧
    sent w1' = sent w1 ++ [(relay_addr s, datagram)] ∧
    length (send_buf s') = length (send_buf s) ∧
    (inbox w2 = junk ++ (t, Arrives datagram from) :: rest →
     Forall (fun e => e.1 <= clock w2 + read_timeout w2 ∧
                      ∃ d a, e.2 = Arrives d a ∧ skipped (length buf) d) junk →
     t <= clock w2 + read_timeout w2 →
     ∃ w2' buf', RelaySession_recv (S (length junk)) buf w2 = (w2', buf', Some (Ok payload)) ∧
                 inbox w2' = rest).
Proof.
  unfold RelaySession_send.
  assert (Hfit : (16 + length payload <= length (send_buf s))%nat).
  { rewrite Hs. unfold RECV_BUF_LEN, MAX_RELAY_PAYLOAD in *. lia. }
  rewrite encode_relay_fits by done. unfold send_to. cbn [relay_addr]. rewrite Hok.
  rewrite take_app_length' by (by rewrite length_relay_frame).
  eexists _, _, _. split_and!; [done|done| |].
  - cbn [send_buf]. rewrite length_app, length_relay_frame, length_drop. lia.
  - intros. eapply recv_delivers; try done; unfold MAX_RELAY_PAYLOAD in Hp; lia.
Qed.

Lemma relay_transfer_witness :
  let relay := mkSocketAddr (V4 [203; 0; 113; 5]) 7000 in
  let w := mkSocket 0 [] [] 1000 (fun _ => None) None None in
  ∃ s' w1' datagram,
    RelaySession_send (RelaySession_new relay) [1; 2; 3] w = (s', w1', Ok ()) ∧
    sent w1' = [(relay, datagram)].
Proof.
  cbv zeta.
  destruct (relay_transfer (RelaySession_new (mkSocketAddr (V4 [203; 0; 113; 5]) 7000)) [1; 2; 3]
    (replicate 100 0) (mkSocket 0 [] [] 1000 (fun _ => None) None None)
    (mkSocket 0 [] [] 1000 (fun _ => None) None None) [] [] 0 (mkSocketAddr (V4 [203; 0; 113; 5]) 7000))
    as (s' & w1' & dg & Hsend & Hsent & _).
  - exact (length_replicate _ 0).
  - reflexivity.
  - vm_compute; discriminate.
  - cbn; lia.
  - exists s', w1', dg. split; [exact Hsend|exact Hsent].
Defined.

(** ** Relay: the source address

    [relabel f] makes every arrival come from another address. *)

Definition relabel_event (f : SocketAddr → SocketAddr) (e : Z * Incoming) : Z * Incoming :=
  match e.2 with Arrives d from => (e.1, Arrives d (f from)) | RecvFails _ => e end.

Definition relabel (f : SocketAddr → SocketAddr) (w : Socket) : Socket :=
  mkSocket (clock w) (relabel_event f <$> inbox w) (sent w) (read_timeout w) (send_fails w)
    (timeout_fails w) (connreset_fails w).

Lemma recv_relabel f cap w :
  recv_from cap (relabel f w) =
    let '(w', r) := recv_from cap w in
    (relabel f w', match r with Ok (d, from) => Ok (d, f from) | Err e => Err e end).
Proof.
  unfold recv_from, relabel. cbn [inbox clock read_timeout].
  destruct (inbox w) as [|[t [d from|e]] rest] eqn:E; cbn [fmap list_fmap relabel_event fst snd];
    [unfold set_clock; cbn; by rewrite E|..];
    (destruct (t <=? _); [unfold pop_inbox, set_clock; cbn; by rewrite ?E|unfold set_clock; cbn; by rewrite ?E]).
Qed.

Lemma recv_session_relabel f fuel buf w :
  RelaySession_recv fuel buf (relabel f w) =
    let '(w', buf', r) := RelaySession_recv fuel buf w in (relabel f w', buf', r).
Proof.
  revert buf w. induction fuel as [|fuel IH]; intros buf w; [done|]. cbn [RelaySession_recv].
  rewrite recv_relabel. destruct (recv_from _ w) as [w' [[d from]|[|e]]]; [|done..].
  destruct (decode_relay_frame _) as [[[] p]|]; cbn [fr_cmd]; [apply IH|apply IH|done|apply IH|done|apply IH].
Qed.

Lemma connect_loop_relabel f fuel addr deadline got w :
  connect_loop fuel addr deadline got (relabel f w) =
    let '(w', r) := connect_loop fuel addr deadline got w in (relabel f w', r).
Proof.
  revert got w. induction fuel as [|fuel IH]; intros got w; [done|]. cbn [connect_loop].
  change (clock (relabel f w)) with (clock w). destruct (_ <=? _); [done|].
  set (rem := saturating_sub _ _).
  assert (set_read_timeout rem (relabel f w) = let '(w', r) := set_read_timeout rem w in (relabel f w', r)) as ->.
  { unfold set_read_timeout, relabel; cbn. destruct (timeout_fails w) eqn:E; cbn; by rewrite ?E. }
  destruct (set_read_timeout rem w) as [w1 [u|e]]; [|done]. rewrite recv_relabel.
  destruct (recv_from _ w1) as [w' [[d from]|[|e]]]; [|done..].
  destruct (decode_relay_frame d) as [[[] p]|]; cbn [fr_cmd]; [apply IH|apply IH|apply IH|done|done|apply IH].
Qed.

(** the relay client does not look at source addresses.  Registration
    and [recv] give the same result whatever hosts the frames come from: a
    [PeerJoined], an [Error] or a [Data] frame from any host that can reach the
    socket counts as the relay's. *)
Theorem relay_ignores_source (f : SocketAddr → SocketAddr) (addr : SocketAddr) (key buf : bytes)
  (deadline : Z) (fuel : nat) (w : Socket) :
  (relay_connect addr key deadline (relabel f w)).2 = (relay_connect addr key deadline w).2 ∧
  (RelaySession_recv fuel buf (relabel f w)).2 = (RelaySession_recv fuel buf w).2.
Proof.
  split.
  - unfold relay_connect. change (disable_udp_connreset (relabel f w)) with (disable_udp_connreset w).
    destruct (disable_udp_connreset w); [|done]. destruct (encode_relay_frame _ _ _) as [[b n]|]; [|done].
    assert (send_to (take n b) addr (relabel f w) = let '(w', r) := send_to (take n b) addr w in (relabel f w', r)) as ->.
    { unfold send_to, relabel; cbn. by destruct (send_fails w addr) eqn:E. }
    destruct (send_to (take n b) addr w) as [w1 [u|e]]; [|done].
    rewrite connect_loop_relabel. unfold relabel; cbn [inbox]. rewrite length_fmap.
    by destruct (connect_loop _ _ _ _ w1).
  - rewrite recv_session_relabel. by destruct (RelaySession_recv fuel buf w) as [[w' b'] r].
Qed.

End Relay.
