(* ===== verification/NatRules.v ===== *)
(** * Server NAT rules

    [crates/desmos-core/src/server/nat.rs]: the controller that installs the
    masquerade and forward rules and removes them again.  The [Runner] that
    executes [iptables] is a parameter; [RunnerLaws] states what iptables
    documents of appending and deleting a rule.  The order of rules of other
    owners in the kernel's chains is not observed: states are compared up to
    permutation.  The theorems show that installation is all-or-nothing and that
    removal restores the kernel's rules. *)

From stdpp Require Import base list strings.
From Stdlib Require Import Ascii.
From S2P Require Import Prelude.

Record NatConfig := mkNatConfig {
  tunnel_iface : string;
  egress_iface : string;
  tunnel_cidr : string;
}.

Inductive NatError :=
| InvalidConfig (reason : string)
| Iptables (e : string)
| AlreadyInstalled
| NotInstalled.

(** [str::contains(char)]. *)
Fixpoint contains_char (c : ascii) (s : string) : bool :=
  match s with
  | EmptyString => false
  | String d s => bool_decide (c = d) || contains_char c s
  end.

Definition NatConfig_validate (c : NatConfig) : result () NatError :=
  if bool_decide (tunnel_iface c = ""%string) then Err (InvalidConfig "tunnel_iface is empty")
  else if bool_decide (egress_iface c = ""%string) then Err (InvalidConfig "egress_iface is empty")
  else if negb (contains_char "/" (tunnel_cidr c)) then Err (InvalidConfig "tunnel_cidr missing '/'")
  else Ok ().

Record Rule := mkRule { table : string; chain : string; body : list string }.

#[export] Instance Rule_eq_dec : EqDecision Rule.
Proof. solve_decision. Defined.

Definition install_argv (r : Rule) : list string :=
  ["-t"; table r] ++ ["-A"] ++ [chain r] ++ body r.

Definition remove_argv (r : Rule) : list string :=
  ["-t"; table r] ++ ["-D"] ++ [chain r] ++ body r.

Definition NatController_rules (c : NatConfig) : list Rule :=
  [ mkRule "nat" "POSTROUTING" ["-s"; tunnel_cidr c; "-o"; egress_iface c; "-j"; "MASQUERADE"];
    mkRule "filter" "FORWARD" ["-i"; tunnel_iface c; "-o"; egress_iface c; "-j"; "ACCEPT"];
    mkRule "filter" "FORWARD" ["-i"; egress_iface c; "-o"; tunnel_iface c;
      "-m"; "state"; "--state"; "RELATED,ESTABLISHED"; "-j"; "ACCEPT"] ].

(** The [Runner] trait: one invocation changes the kernel's state. *)
Class Runner (K : Type) := run : list string → K → K * result () string.

Record NatController := mkNatController {
  config : NatConfig;
  installed : option (list Rule);
}.

Definition NatController_new (c : NatConfig) : NatController := mkNatController c None.

Definition is_installed (n : NatController) : bool := bool_decide (is_Some (installed n)).

Section Controller.
Context {K : Type} `{Runner K}.

(** The removal of [rules] in the given order, errors dropped. *)
Definition roll_back (rules : list Rule) (k : K) : K :=
  foldl (fun k r => (run (remove_argv r) k).1) k rules.

(** The installation loop; [committed] in the order of installation. *)
Fixpoint install_loop (rules committed : list Rule) (k : K) : K * result (list Rule) NatError :=
  match rules with
  | [] => (k, Ok committed)
  | r :: rest =>
      match run (install_argv r) k with
      | (k', Err e) => (roll_back (rev committed) k', Err (Iptables e))
      | (k', Ok _) => install_loop rest (committed ++ [r]) k'
      end
  end.

Definition NatController_install (n : NatController) (k : K) : NatController * K * result () NatError :=
  match installed n with
  | Some _ => (n, k, Err AlreadyInstalled)
  | None =>
      match NatConfig_validate (config n) with
      | Err e => (n, k, Err e)
      | Ok _ =>
          match install_loop (NatController_rules (config n)) [] k with
          | (k', Ok committed) => (mkNatController (config n) (Some committed), k', Ok ())
          | (k', Err e) => (n, k', Err e)
          end
      end
  end.

(** The removal loop keeps the last error. *)
Definition remove_loop (rules : list Rule) (k : K) : K * option string :=
  foldl (fun st r => match run (remove_argv r) st.1 with
                     | (k', Ok _) => (k', st.2)
                     | (k', Err e) => (k', Some e)
                     end) (k, None) rules.

Definition NatController_remove (n : NatController) (k : K) : NatController * K * result () NatError :=
  match installed n with
  | None => (n, k, Err NotInstalled)
  | Some rules =>
      let n' := mkNatController (config n) None in
      match remove_loop (rev rules) k with
      | (k', Some e) => (n', k', Err (Iptables e))
      | (k', None) => (n', k', Ok ())
      end
  end.

End Controller.

(** What [iptables -A] and [iptables -D] do to the rules in the kernel. *)
Class RunnerLaws (K : Type) `{Runner K} (rules_of : K → list Rule) : Prop := {
  append_ok r k k' : run (install_argv r) k = (k', Ok ()) → rules_of k' ≡ₚ r :: rules_of k;
  append_err r k k' e : run (install_argv r) k = (k', Err e) → rules_of k' ≡ₚ rules_of k;
  delete_ok r k k' : run (remove_argv r) k = (k', Ok ()) → r :: rules_of k' ≡ₚ rules_of k;
  delete_err r k k' e : run (remove_argv r) k = (k', Err e) → rules_of k' ≡ₚ rules_of k;
  delete_present r k : r ∈ rules_of k → ∃ k', run (remove_argv r) k = (k', Ok ());
}.

(** ** Lemmas *)

Section Laws.
Context {K : Type} `{HR : Runner K} {rules_of : K → list Rule} `{!RunnerLaws K rules_of}.

Lemma delete_one r k l :
  rules_of k ≡ₚ r :: l → ∃ k', run (remove_argv r) k = (k', Ok ()) ∧ rules_of k' ≡ₚ l.
Proof.
  intros Hk. destruct (delete_present r k) as [k' E].
  { rewrite Hk. apply list_elem_of_here. }
  exists k'. split; [done|]. apply (Permutation_cons_inv (a := r)). rewrite <- Hk. by apply delete_ok.
Qed.

Lemma roll_back_restores rules k l :
  rules_of k ≡ₚ rules ++ l → rules_of (roll_back rules k) ≡ₚ l.
Proof.
  revert k. induction rules as [|r rules IH]; intros k Hk; [done|].
  destruct (delete_one r k (rules ++ l) Hk) as (k' & E & Hk'). unfold roll_back; cbn [foldl]. rewrite E.
  by apply IH.
Qed.

Lemma remove_loop_restores rules k l :
  rules_of k ≡ₚ rules ++ l → ∃ k', remove_loop rules k = (k', None) ∧ rules_of k' ≡ₚ l.
Proof.
  revert k. induction rules as [|r rules IH]; intros k Hk; [by exists k|].
  destruct (delete_one r k (rules ++ l) Hk) as (k' & E & Hk').
  destruct (IH k' Hk') as (k'' & E2 & Hk''). exists k''. split; [|done].
  rewrite <- E2. unfold remove_loop; cbn [foldl fst snd]. by rewrite E.
Qed.

Lemma install_loop_atomic rules committed k l :
  rules_of k ≡ₚ committed ++ l →
  match install_loop rules committed k with
  | (k', Ok done) => done = committed ++ rules ∧ rules_of k' ≡ₚ done ++ l
  | (k', Err e) => rules_of k' ≡ₚ l ∧ ∃ m, e = Iptables m
  end.
Proof.
  revert committed k. induction rules as [|r rules IH]; intros committed k Hk; cbn [install_loop].
  { by rewrite app_nil_r. }
  destruct (run (install_argv r) k) as [k' [[]|e]] eqn:E.
  - specialize (IH (committed ++ [r]) k'). rewrite <- !app_assoc in IH. cbn [app] in IH. apply IH.
    rewrite (append_ok _ _ _ E), Hk. apply Permutation_middle.
  - split; [|by eexists]. apply roll_back_restores.
    by rewrite (append_err _ _ _ _ E), Hk, <- (Permutation_rev committed).
Qed.

End Laws.

(** ** A kernel that keeps its rules in a list

    [limit] is the number of rules it accepts, so that failing installations
    exist too. *)

Record Kernel := mkKernel { kernel_rules : list Rule; limit : nat }.

(** The rule named by an argument vector of the controller. *)
Definition parse_argv (argv : list string) : option (string * Rule) :=
  match argv with
  | _ :: t :: op :: c :: b => Some (op, mkRule t c b)
  | _ => None
  end.

Fixpoint delete_first (r : Rule) (l : list Rule) : option (list Rule) :=
  match l with
  | [] => None
  | x :: l => if decide (x = r) then Some l else (x ::.) <$> delete_first r l
  end.

#[export] Instance list_runner : Runner Kernel := fun argv k =>
  match parse_argv argv with
  | None => (k, Err "bad argument"%string)
  | Some (op, r) =>
      if bool_decide (op = "-A"%string) then
        if (length (kernel_rules k) <? limit k)%nat
        then (mkKernel (kernel_rules k ++ [r]) (limit k), Ok ())
        else (k, Err "no space"%string)
      else
        match delete_first r (kernel_rules k) with
        | Some l => (mkKernel l (limit k), Ok ())
        | None => (k, Err "does a matching rule exist in that chain?"%string)
        end
  end.

Lemma delete_first_some r l l' : delete_first r l = Some l' → r :: l' ≡ₚ l.
Proof.
  revert l'. induction l as [|x l IH]; intros l'; cbn; [done|].
  destruct (decide (x = r)) as [->|]; [by intros [= ->]|].
  destruct (delete_first r l) as [m|] eqn:E; [|done]. intros [= <-].
  rewrite <- (IH m eq_refl). constructor.
Qed.

Lemma delete_first_present r l : r ∈ l → is_Some (delete_first r l).
Proof.
  induction l as [|x l IH]; intros Hin; [by apply not_elem_of_nil in Hin|]. cbn.
  destruct (decide (x = r)); [done|]. apply elem_of_cons in Hin as [->|Hin]; [done|].
  by destruct (IH Hin) as [m ->].
Qed.

Lemma run_install r k :
  run (install_argv r) k =
    if (length (kernel_rules k) <? limit k)%nat
    then (mkKernel (kernel_rules k ++ [r]) (limit k), Ok ()) else (k, Err "no space"%string).
Proof. by destruct r. Qed.

Lemma run_remove r k :
  run (remove_argv r) k =
    match delete_first r (kernel_rules k) with
    | Some l => (mkKernel l (limit k), Ok ())
    | None => (k, Err "does a matching rule exist in that chain?"%string)
    end.
Proof. by destruct r. Qed.

#[export] Instance list_runner_laws : RunnerLaws Kernel kernel_rules.
Proof.
  split; intros r k.
  - intros k'. rewrite run_install. destruct (_ <? _)%nat; intros [= <-]. cbn.
    symmetry. apply Permutation_cons_append.
  - intros k' e. rewrite run_install. by destruct (_ <? _)%nat; intros [= <-].
  - intros k'. rewrite run_remove. destruct (delete_first _ _) eqn:E; intros [= <-]. by apply delete_first_some.
  - intros k' e. rewrite run_remove. by destruct (delete_first _ _); intros [= <-].
  - intros Hin. rewrite run_remove. destruct (delete_first_present _ _ Hin) as [l ->]. eauto.
Qed.

(** ** Properties *)

(** installing the NAT rules is all-or-nothing, for every runner that
    behaves as iptables documents.  Either the call succeeds, the kernel has
    exactly the three rules more and the controller remembers them; or it fails
    and the kernel's rules and the controller are what they were, whichever of
    the three invocations failed. *)
Theorem nat_install_atomic (K : Type) (HR : Runner K) (rules_of : K → list Rule)
  (Hlaws : RunnerLaws K rules_of) (n : NatController) (k : K) :
  let '(n', k', r) := NatController_install n k in
  match r with
  | Ok _ => installed n = None ∧ NatConfig_validate (config n) = Ok () ∧
            installed n' = Some (NatController_rules (config n)) ∧
            rules_of k' ≡ₚ NatController_rules (config n) ++ rules_of k
  | Err e => n' = n ∧ rules_of k' ≡ₚ rules_of k ∧
             (e = AlreadyInstalled ↔ is_Some (installed n))
  end.
Proof.
  unfold NatController_install. destruct (installed n) eqn:En; [by split_and!; [..|split; eauto]|].
  destruct (NatConfig_validate (config n)) as [[]|e] eqn:Ev.
  - pose proof (install_loop_atomic (NatController_rules (config n)) [] k (rules_of k)) as Ha.
    destruct (install_loop _ [] k) as [k' [committed|e]]; specialize (Ha ltac:(done)).
    + destruct Ha as [-> Ha]. cbn [installed app] in *. split_and!; [done|done|done|exact Ha].
    + destruct Ha as [Ha [m ->]]. split_and!; [done|done|]. split; [done|by intros []].
  - split_and!; [done|done|]. unfold NatConfig_validate in Ev.
    repeat case_bool_decide; try (injection Ev as <-; split; [done|by intros []]).
    destruct (negb _); [injection Ev as <-|done]. split; [done|by intros []].
Qed.

Lemma nat_install_atomic_witness :
  let c := mkNatConfig "desmos0" "eth0" "10.200.0.0/24" in
  kernel_rules (NatController_install (NatController_new c) (mkKernel [] 2)).1.2 ≡ₚ [].
Proof.
  exact (proj1 (proj2 (nat_install_atomic Kernel list_runner kernel_rules list_runner_laws
    (NatController_new (mkNatConfig "desmos0" "eth0" "10.200.0.0/24")) (mkKernel [] 2)))).
Defined.

(** removing the rules undoes installing them.  After a successful
    install, and any changes other owners make to their own rules, [remove]
    succeeds, leaves exactly the other owners' rules and makes the controller
    ready for another install. *)
Theorem nat_install_remove (K : Type) (HR : Runner K) (rules_of : K → list Rule)
  (Hlaws : RunnerLaws K rules_of) (n n' : NatController) (k k1 k2 : K) (others : list Rule)
  (Hi : NatController_install n k = (n', k1, Ok ()))
  (Hk2 : rules_of k2 ≡ₚ NatController_rules (config n) ++ others) :
  ∃ k3, NatController_remove n' k2 = (n, k3, Ok ()) ∧ rules_of k3 ≡ₚ others.
Proof.
  unfold NatController_install in Hi. destruct n as [c [rs|]]; cbn [installed config] in *; [done|].
  destruct (NatConfig_validate c) as [[]|]; [|done].
  pose proof (install_loop_atomic (NatController_rules c) [] k (rules_of k)) as Ha.
  destruct (install_loop _ [] k) as [k' [committed|e]]; specialize (Ha ltac:(done)); [|done].
  destruct Ha as [-> _]. injection Hi as <- _.
  unfold NatController_remove. cbn [installed config].
  destruct (remove_loop_restores (rev ([] ++ NatController_rules c)) k2 others) as (k3 & E & Hk3).
  { by rewrite Hk2, <- (Permutation_rev ([] ++ NatController_rules c)). }
  exists k3. split; [|done]. cbn [app] in E. by rewrite E.
Qed.

Lemma nat_install_remove_witness :
  let c := mkNatConfig "desmos0" "eth0" "10.200.0.0/24" in
  let k := mkKernel (NatController_rules c ++ [mkRule "filter" "INPUT" ["-j"; "DROP"]]) 9 in
  ∃ k3, NatController_remove (mkNatController c (Some (NatController_rules c))) k
        = (NatController_new c, k3, Ok ()) ∧
        kernel_rules k3 ≡ₚ [mkRule "filter" "INPUT" ["-j"; "DROP"]].
Proof.
  cbv zeta.
  refine (nat_install_remove Kernel list_runner kernel_rules list_runner_laws
    (NatController_new (mkNatConfig "desmos0" "eth0" "10.200.0.0/24")) _ (mkKernel [] 9)
    (mkKernel (NatController_rules (mkNatConfig "desmos0" "eth0" "10.200.0.0/24")) 9) _ _ _ _);
    reflexivity.
Defined.
