(* ===== verification/Timer.v ===== *)
(** * The timer wheel

    [desmos-rt/src/timer.rs]: four levels of 32 slots; a timer sits in the
    level of its remaining delay and cascades down as its time comes.  The
    abstract specification is a multiset of pending timers of which [poll] fires
    those that are due; [timer_wheel_exact] is the refinement. *)

From stdpp Require Import base numbers list sorting.
From Stdlib Require Import ZArith Lia.
From S2P Require Import Prelude.

Definition NUM_LEVELS : nat := 4.
Definition SLOTS : nat := 32.
Definition SLOT_MASK : Z := Z.of_nat SLOTS - 1.
Definition BITS_PER_LEVEL : Z := 5.
Definition WHEEL_RANGE_MS : Z := Z.shiftl 1 (BITS_PER_LEVEL * Z.of_nat NUM_LEVELS).

(** [Entry], and [FiredTimer], which has the same fields. *)
Record Entry := mkEntry { en_id : Z; expires_at_ms : Z }.

Record TimerWheel := mkWheel {
  levels : list (list (list Entry));
  current_ms : Z;
  next_id : Z;
}.

Definition TimerWheel_new (start_ms : Z) : TimerWheel :=
  mkWheel (replicate NUM_LEVELS (replicate SLOTS [])) start_ms 0.

(** [levels[lvl][slot]]. *)
Definition get_slot (w : TimerWheel) (lvl slot : nat) : list Entry :=
  default [] (row ← levels w !! lvl; row !! slot).

Definition set_slot (lvl slot : nat) (v : list Entry) (w : TimerWheel) : TimerWheel :=
  mkWheel (alter (fun row => <[slot := v]> row) lvl (levels w)) (current_ms w) (next_id w).

Definition level_for_delta (delta : Z) : nat :=
  if delta <? Z.shiftl 1 BITS_PER_LEVEL then 0
  else if delta <? Z.shiftl 1 (2 * BITS_PER_LEVEL) then 1
  else if delta <? Z.shiftl 1 (3 * BITS_PER_LEVEL) then 2
  else 3.

(** [((t >> (lvl * BITS_PER_LEVEL)) & SLOT_MASK) as usize]. *)
Definition slot_index (lvl : nat) (t : Z) : nat :=
  Z.to_nat (Z.land (Z.shiftr t (Z.of_nat lvl * BITS_PER_LEVEL)) SLOT_MASK).

Definition insert_entry (e : Entry) (w : TimerWheel) : TimerWheel :=
  let delta := saturating_sub (expires_at_ms e) (current_ms w) in
  let lvl := level_for_delta delta in
  let slot_idx := slot_index lvl (expires_at_ms e) in
  set_slot lvl slot_idx (get_slot w lvl slot_idx ++ [e]) w.

Definition TimerWheel_schedule (after_ms : Z) (w : TimerWheel) : TimerWheel * Z :=
  let id := next_id w in
  let w := mkWheel (levels w) (current_ms w) (wrapping_add 64 (next_id w) 1) in
  let expires := saturating_add 64 (current_ms w) after_ms in
  (insert_entry (mkEntry id expires) w, id).

Definition cascade_level (lvl : nat) (w : TimerWheel) : TimerWheel :=
  if (NUM_LEVELS <=? lvl)%nat then w
  else
    let slot_idx := slot_index lvl (current_ms w) in
    let entries := get_slot w lvl slot_idx in
    foldl (fun w e => insert_entry e w) (set_slot lvl slot_idx [] w) entries.

Definition cascade_if_needed (w : TimerWheel) : TimerWheel :=
  let w := if Z.land (current_ms w) (Z.shiftl 1 (3 * BITS_PER_LEVEL) - 1) =? 0 then cascade_level 3 w else w in
  let w := if Z.land (current_ms w) (Z.shiftl 1 (2 * BITS_PER_LEVEL) - 1) =? 0 then cascade_level 2 w else w in
  if Z.land (current_ms w) SLOT_MASK =? 0 then cascade_level 1 w else w.

(** The [while] loop of [poll]: one iteration per millisecond. *)
Fixpoint poll_loop (fuel : nat) (now_ms : Z) (w : TimerWheel) (out : list Entry) : TimerWheel * list Entry :=
  match fuel with
  | O => (w, out)
  | S fuel =>
      if current_ms w <=? now_ms then
        let w := cascade_if_needed w in
        let l0_idx := Z.to_nat (Z.land (current_ms w) SLOT_MASK) in
        let slot := get_slot w 0 l0_idx in
        let w := set_slot 0 l0_idx [] w in
        let out := out ++ slot in
        match checked_add 64 (current_ms w) 1 with
        | Some v => poll_loop fuel now_ms (mkWheel (levels w) v (next_id w)) out
        | None => (w, out)
        end
      else (w, out)
  end.

(** [now_ms - current_ms + 1] iterations are enough: [poll_advances]. *)
Definition TimerWheel_poll (now_ms : Z) (w : TimerWheel) (out : list Entry) : TimerWheel * list Entry :=
  poll_loop (Z.to_nat (now_ms - current_ms w + 1)) now_ms w out.

(** ** Slots as arrays *)

Definition wheel_shape (w : TimerWheel) : Prop :=
  length (levels w) = NUM_LEVELS ∧ Forall (fun row => length row = SLOTS) (levels w).

(** All pending timers. *)
Definition pending (w : TimerWheel) : list Entry := mjoin (mjoin (levels w)).

Lemma get_slot_lookup w lvl slot :
  wheel_shape w → (lvl < NUM_LEVELS)%nat → (slot < SLOTS)%nat →
  ∃ row, levels w !! lvl = Some row ∧ length row = SLOTS ∧ row !! slot = Some (get_slot w lvl slot).
Proof.
  intros [Hl Hr] Hlvl Hslot. destruct (lookup_lt_is_Some_2 (levels w) lvl ltac:(lia)) as [row Erow].
  exists row. pose proof (Forall_lookup_1 _ _ _ _ Hr Erow) as Hlen. cbn in Hlen. split_and!; [done|done|].
  unfold get_slot. rewrite Erow. cbn [mbind option_bind].
  destruct (lookup_lt_is_Some_2 row slot ltac:(lia)) as [v ->]. done.
Qed.

Lemma set_slot_shape lvl slot v w : wheel_shape w → wheel_shape (set_slot lvl slot v w).
Proof.
  intros [Hl Hr]. split; cbn [levels set_slot]; [by rewrite length_alter|].
  apply Forall_alter; [done|]. intros row Erow _. rewrite length_insert.
  exact (Forall_lookup_1 _ _ _ _ Hr Erow).
Qed.

Lemma get_set_slot lvl slot v w l s :
  wheel_shape w → (lvl < NUM_LEVELS)%nat → (slot < SLOTS)%nat →
  get_slot (set_slot lvl slot v w) l s = if decide (l = lvl ∧ s = slot) then v else get_slot w l s.
Proof.
  intros Hw Hlvl Hslot. destruct (get_slot_lookup w lvl slot Hw Hlvl Hslot) as (row & Erow & Hlen & _).
  unfold get_slot; cbn [levels set_slot]. destruct (decide (l = lvl)) as [->|Hne].
  - rewrite list_lookup_alter_eq, Erow. simpl.
    destruct (decide (s = slot)) as [->|Hs].
    + rewrite list_lookup_insert_eq by lia. by rewrite decide_True.
    + rewrite list_lookup_insert_ne by done. rewrite decide_False by naive_solver. done.
  - rewrite list_lookup_alter_ne by done. by rewrite decide_False by naive_solver.
Qed.

Lemma join_insert {A} (l : list (list A)) i old v :
  l !! i = Some old → old ++ mjoin (<[i := v]> l) ≡ₚ v ++ mjoin l.
Proof.
  intros E. rewrite <- (take_drop_middle l i old E) at 2. 
  rewrite insert_take_drop by (by eapply lookup_lt_Some). rewrite !join_app. cbn [mjoin list_join].
  rewrite !app_assoc. apply Permutation_app_tail.
  rewrite (Permutation_app_comm (old ++ mjoin (take i l)) v), (Permutation_app_comm (v ++ mjoin (take i l)) old).
  rewrite !app_assoc. apply Permutation_app_tail, Permutation_app_comm.
Qed.

(** Replacing a slot exchanges its entries in the multiset of pending timers. *)
Lemma set_slot_pending lvl slot v w :
  wheel_shape w → (lvl < NUM_LEVELS)%nat → (slot < SLOTS)%nat →
  get_slot w lvl slot ++ pending (set_slot lvl slot v w) ≡ₚ v ++ pending w.
Proof.
  intros Hw Hlvl Hslot. destruct (get_slot_lookup w lvl slot Hw Hlvl Hslot) as (row & Erow & _ & Eslot).
  unfold pending. cbn [levels set_slot].
  assert (Hset : alter (fun row => <[slot := v]> row) lvl (levels w) = <[lvl := <[slot := v]> row]> (levels w)).
  { apply list_eq. intros i. destruct (decide (i = lvl)) as [->|].
    - rewrite list_lookup_alter_eq, Erow, list_lookup_insert_eq by (by eapply lookup_lt_Some). done.
    - by rewrite list_lookup_alter_ne, list_lookup_insert_ne. }
  rewrite Hset. pose proof (join_insert _ _ _ (<[slot := v]> row) Erow) as H1.
  assert (H2 : mjoin row ++ mjoin (mjoin (<[lvl := <[slot := v]> row]> (levels w)))
               ≡ₚ mjoin (<[slot := v]> row) ++ mjoin (mjoin (levels w))).
  { rewrite <- !join_app. clear -H1. 
    assert (Hp : ∀ a b : list (list Entry), a ≡ₚ b → mjoin a ≡ₚ mjoin b).
    { induction 1; cbn [mjoin list_join]; [done|by f_equiv|rewrite !app_assoc; f_equiv; apply Permutation_app_comm|by etrans]. }
    by apply Hp. }
  pose proof (join_insert _ _ _ v Eslot) as H3.
  apply (Permutation_app_inv_l (mjoin row)).
  rewrite (Permutation_app_comm (mjoin row) (get_slot w lvl slot ++ _)), <- app_assoc.
  rewrite (Permutation_app_comm _ (mjoin row)), H2, app_assoc, H3, <- app_assoc.
  rewrite !app_assoc. apply Permutation_app_tail, Permutation_app_comm.
Qed.

(** ** Blocks

    At level [l] time is cut into blocks of [32^l] ms. *)

Definition width (l : nat) : Z := 2 ^ (5 * Z.of_nat l).
Definition block (l : nat) (t : Z) : Z := t / width l.

(** The first block that starts at or after [t]. *)
Definition next_block (l : nat) (t : Z) : Z := (t + width l - 1) / width l.

Definition aligned (l : nat) (t : Z) : Prop := t mod width l = 0.

#[export] Instance aligned_dec l t : Decision (aligned l t).
Proof. unfold aligned. apply _. Defined.

Lemma width_pos l : 0 < width l.
Proof. unfold width. lia. Qed.

Lemma slot_index_eq l t : slot_index l t = Z.to_nat (block l t mod 32).
Proof.
  unfold slot_index, SLOT_MASK, SLOTS, BITS_PER_LEVEL, block, width.
  change (Z.of_nat 32 - 1) with (Z.ones 5). rewrite Z.land_ones, Z.shiftr_div_pow2 by lia.
  by replace (Z.of_nat l * 5) with (5 * Z.of_nat l) by lia.
Qed.

Lemma slot_index_lt l t : (slot_index l t < SLOTS)%nat.
Proof. rewrite slot_index_eq. pose proof (Z.mod_pos_bound (block l t) 32). unfold SLOTS. lia. Qed.

Lemma next_block_aligned l t : aligned l t → next_block l t = block l t.
Proof.
  intros Ha. pose proof (width_pos l) as Hw. unfold next_block, block, aligned in *.
  pose proof (Z.div_mod t (width l) ltac:(lia)). symmetry.
  apply (Z.div_unique _ _ _ (width l - 1)); lia.
Qed.

Lemma next_block_unaligned l t : ¬ aligned l t → next_block l t = block l t + 1.
Proof.
  intros Ha. pose proof (width_pos l) as Hw. unfold next_block, block, aligned in *.
  pose proof (Z.div_mod t (width l) ltac:(lia)). pose proof (Z.mod_pos_bound t (width l) Hw).
  symmetry. apply (Z.div_unique _ _ _ (t mod width l - 1)); lia.
Qed.

Lemma next_block_succ l t : next_block l (t + 1) = block l t + 1.
Proof.
  pose proof (width_pos l) as Hw. unfold next_block, block.
  replace (t + 1 + width l - 1) with (t + 1 * width l) by lia. by rewrite Z.div_add by lia.
Qed.

Lemma mask_aligned l t : (Z.land t (Z.shiftl 1 (Z.of_nat l * BITS_PER_LEVEL) - 1) =? 0) = true ↔ aligned l t.
Proof.
  unfold aligned, width, BITS_PER_LEVEL. rewrite Z.eqb_eq, Z.shiftl_1_l.
  replace (Z.of_nat l * 5) with (5 * Z.of_nat l) by lia.
  rewrite Z.sub_1_r, <- Z.ones_equiv, Z.land_ones by lia. done.
Qed.

Lemma level_for_delta_spec delta :
  0 <= delta →
  let l := level_for_delta delta in
  (l < NUM_LEVELS)%nat ∧ ((1 <= l)%nat → width l <= delta) ∧ ((l < 3)%nat → delta < width (S l)).
Proof.
  intros Hd. cbv zeta. unfold level_for_delta, BITS_PER_LEVEL, NUM_LEVELS. rewrite !Z.shiftl_1_l.
  change (2 ^ 5) with (width 1). change (2 ^ (2 * 5)) with (width 2). change (2 ^ (3 * 5)) with (width 3).
  split_ifs; split_and!; intros; lia.
Qed.

Lemma width_succ l : width (S l) = 32 * width l.
Proof. unfold width. replace (5 * Z.of_nat (S l)) with (5 + 5 * Z.of_nat l) by lia. by rewrite Z.pow_add_r by lia. Qed.

(** Where [insert_entry] puts a timer. *)
Lemma insert_level cur t :
  cur <= t →
  let l := level_for_delta (t - cur) in
  next_block l cur <= block l t ∧
  ((1 <= l)%nat → aligned l cur → next_block l cur + 1 <= block l t) ∧
  ((l < 3)%nat → block l t < next_block l cur + 32).
Proof.
  intros Ht. cbv zeta. destruct (level_for_delta_spec (t - cur)) as (_ & Hlo & Hhi); [lia|].
  set (l := level_for_delta (t - cur)) in *. clearbody l. pose proof (width_pos l) as Hw.
  assert (Hge : (1 <= l)%nat → block l cur + 1 <= block l t).
  { intros Hl. unfold block. replace (cur / width l + 1) with ((cur + 1 * width l) / width l) by (by rewrite Z.div_add by lia).
    apply Z.div_le_mono; [done|]. specialize (Hlo Hl). lia. }
  split_and!.
  - destruct l as [|l]; [unfold next_block, block; change (width 0) with 1; rewrite !Z.div_1_r; lia|].
    destruct (decide (aligned (S l) cur)) as [Ha|Ha].
    + rewrite next_block_aligned by done. specialize (Hge ltac:(lia)). lia.
    + rewrite next_block_unaligned by done. apply Hge. lia.
  - intros Hl Ha. rewrite next_block_aligned by done. by apply Hge.
  - intros Hl. specialize (Hhi Hl). rewrite width_succ in Hhi. unfold next_block, block.
    replace ((cur + width l - 1) / width l + 32) with ((cur + width l - 1 + 32 * width l) / width l)
      by (by rewrite Z.div_add by lia).
    enough (t / width l * width l < (cur + width l - 1 + 32 * width l) / width l * width l) by nia.
    pose proof (Z.mul_div_le t (width l) Hw).
    pose proof (Z.div_mod (cur + width l - 1 + 32 * width l) (width l) ltac:(lia)).
    pose proof (Z.mod_pos_bound (cur + width l - 1 + 32 * width l) (width l) Hw). lia.
Qed.

(** ** The invariant

    [lo l] is the first block of level [l] that can still hold timers. *)

Definition placed (lo : nat → Z) (cur : Z) (l s : nat) (e : Entry) : Prop :=
  s = slot_index l (expires_at_ms e) ∧ lo l <= block l (expires_at_ms e) ∧
  ((l < 3)%nat → block l (expires_at_ms e) < next_block l cur + 32).

Definition wheel_inv (lo : nat → Z) (w : TimerWheel) : Prop :=
  wheel_shape w ∧
  ∀ l s e, (l < NUM_LEVELS)%nat → e ∈ get_slot w l s → placed lo (current_ms w) l s e.

(** The invariant between calls. *)
Definition wheel_ok (w : TimerWheel) : Prop := wheel_inv (fun l => next_block l (current_ms w)) w.

(** Bounds an insertion respects: the next block, or the one after when the
    level has just been cascaded. *)
Definition lo_ok (cur : Z) (lo : nat → Z) : Prop :=
  ∀ l, lo l = next_block l cur ∨ ((1 <= l)%nat ∧ aligned l cur ∧ lo l = next_block l cur + 1).

Lemma insert_entry_spec lo e w :
  wheel_inv lo w → lo_ok (current_ms w) lo → current_ms w <= expires_at_ms e →
  wheel_inv lo (insert_entry e w) ∧ pending (insert_entry e w) ≡ₚ e :: pending w ∧
  current_ms (insert_entry e w) = current_ms w ∧ next_id (insert_entry e w) = next_id w.
Proof.
  intros [Hshape Hin] Hlo He. unfold insert_entry.
  replace (saturating_sub (expires_at_ms e) (current_ms w)) with (expires_at_ms e - current_ms w)
    by (unfold saturating_sub; lia).
  destruct (insert_level (current_ms w) (expires_at_ms e) He) as (H1 & H2 & H3). cbv zeta in *.
  destruct (level_for_delta_spec (expires_at_ms e - current_ms w)) as (Hl & _ & _); [lia|].
  set (l := level_for_delta _) in *. clearbody l. pose proof (slot_index_lt l (expires_at_ms e)) as Hs.
  set (s := slot_index l (expires_at_ms e)) in *.
  split_and!; [split; [by apply set_slot_shape|]| |done|done].
  - intros l' s' e' Hl' He'. rewrite get_set_slot in He' by done. cbn [current_ms set_slot].
    destruct (decide (l' = l ∧ s' = s)) as [[-> ->]|]; [|by apply Hin].
    apply elem_of_app in He' as [He'|He']; [by apply Hin|].
    apply list_elem_of_singleton in He' as ->. split_and!; [done| |done].
    destruct (Hlo l) as [->|(? & ? & ->)]; auto.
  - pose proof (set_slot_pending l s (get_slot w l s ++ [e]) w Hshape Hl Hs) as Hp.
    apply (Permutation_app_inv_l (get_slot w l s)). rewrite Hp, <- app_assoc. done.
Qed.

Lemma insert_all_spec lo es w :
  wheel_inv lo w → lo_ok (current_ms w) lo → Forall (fun e => current_ms w <= expires_at_ms e) es →
  let w' := foldl (fun w e => insert_entry e w) w es in
  wheel_inv lo w' ∧ pending w' ≡ₚ es ++ pending w ∧ current_ms w' = current_ms w ∧ next_id w' = next_id w.
Proof.
  intros Hw Hlo He. cbv zeta. revert w Hw Hlo He. induction es as [|e es IH]; intros w Hw Hlo He; [done|].
  apply Forall_cons in He as [He Hes].
  destruct (insert_entry_spec lo e w Hw Hlo He) as (H1 & H2 & H3 & H4). cbn [foldl].
  destruct (IH (insert_entry e w)) as (I1 & I2 & I3 & I4); [done|by rewrite H3|by rewrite H3|].
  split_and!; [done| |congruence|congruence]. rewrite I2, H2. symmetry. apply Permutation_middle.
Qed.

(** One level's cascade at a block boundary empties the block that starts now. *)
Definition bump (lo : nat → Z) (lvl : nat) (cur : Z) : nat → Z :=
  fun l => if decide (l = lvl) then next_block l cur + 1 else lo l.

Lemma cascade_level_spec lo L w :
  wheel_inv lo w → lo_ok (current_ms w) lo → (1 <= L < NUM_LEVELS)%nat →
  aligned L (current_ms w) → lo L = next_block L (current_ms w) →
  let w' := cascade_level L w in
  wheel_inv (bump lo L (current_ms w)) w' ∧ lo_ok (current_ms w) (bump lo L (current_ms w)) ∧
  pending w' ≡ₚ pending w ∧ current_ms w' = current_ms w ∧ next_id w' = next_id w.
Proof.
  intros [Hshape Hin] Hlo HL Ha HloL. cbv zeta. unfold cascade_level.
  rewrite (proj2 (Nat.leb_gt _ _)) by lia. set (c := current_ms w) in *.
  set (s := slot_index L c). pose proof (slot_index_lt L c) as Hs. fold s in Hs.
  assert (Hlo' : lo_ok c (bump lo L c)).
  { intros l. unfold bump. destruct (decide (l = L)) as [->|]; [right; split_and!; [lia|done|done]|apply Hlo]. }
  destruct (insert_all_spec (bump lo L c) (get_slot w L s) (set_slot L s [] w)) as (I1 & I2 & I3 & I4).
  - split; [by apply set_slot_shape|]. intros l s' e Hl He. rewrite get_set_slot in He by (done || lia).
    destruct (decide (l = L ∧ s' = s)) as [|Hne]; [by apply elem_of_nil in He|].
    destruct (Hin l s' e Hl He) as (P1 & P2 & P3). split_and!; [done| |done]. unfold bump.
    destruct (decide (l = L)) as [->|]; [|done].
    destruct (decide (block L (expires_at_ms e) = next_block L c)) as [Heq|]; [|lia].
    exfalso. apply Hne. split; [done|]. subst s. rewrite P1, !slot_index_eq, Heq, next_block_aligned by done. done.
  - done.
  - apply Forall_forall. intros e He. cbn [current_ms set_slot].
    destruct (Hin L s e ltac:(lia) He) as (_ & P2 & _). rewrite HloL, next_block_aligned in P2 by done.
    fold c. unfold block, aligned in *. pose proof (width_pos L).
    pose proof (Z.div_mod c (width L) ltac:(lia)). pose proof (Z.mul_div_le (expires_at_ms e) (width L)). nia.
  - split_and!; [done|done| |done|done]. rewrite I2.
    by rewrite (set_slot_pending L s [] w Hshape ltac:(lia) Hs).
Qed.

Lemma cascade_step lo L w (b : bool) :
  wheel_inv lo w → lo_ok (current_ms w) lo → (1 <= L < NUM_LEVELS)%nat →
  (b = true ↔ aligned L (current_ms w)) → lo L = next_block L (current_ms w) →
  let w' := if b then cascade_level L w else w in
  ∃ lo', wheel_inv lo' w' ∧ lo_ok (current_ms w) lo' ∧
    lo' L = next_block L (current_ms w + 1) ∧ (∀ l, l ≠ L → lo' l = lo l) ∧
    pending w' ≡ₚ pending w ∧ current_ms w' = current_ms w ∧ next_id w' = next_id w.
Proof.
  intros Hw Hlo HL Hb HloL. cbv zeta. rewrite next_block_succ. destruct b.
  - destruct (cascade_level_spec lo L w) as (A1 & A2 & A3 & A4 & A5); [done|done|done|by apply Hb|done|].
    exists (bump lo L (current_ms w)). split_and!; [done|done| | |done|done|done].
    + unfold bump. rewrite decide_True, next_block_aligned by (done || by apply Hb). done.
    + intros l Hl. unfold bump. by rewrite decide_False.
  - exists lo. split_and!; [done|done| |done|done|done|done].
    rewrite HloL. apply next_block_unaligned. intros Ha. by apply Hb in Ha.
Qed.

Lemma cascade_if_needed_spec w :
  wheel_ok w →
  let w' := cascade_if_needed w in
  ∃ lo, wheel_inv lo w' ∧ lo 0%nat = current_ms w ∧
    (∀ l, (1 <= l < NUM_LEVELS)%nat → lo l = next_block l (current_ms w + 1)) ∧
    pending w' ≡ₚ pending w ∧ current_ms w' = current_ms w ∧ next_id w' = next_id w.
Proof.
  intros Hw. cbv zeta. unfold cascade_if_needed.
  destruct (cascade_step (fun l => next_block l (current_ms w)) 3 w (Z.land (current_ms w) (Z.shiftl 1 (3 * BITS_PER_LEVEL) - 1) =? 0) Hw (fun l : nat => or_introl eq_refl) ltac:(unfold NUM_LEVELS; lia)
    (mask_aligned 3 (current_ms w)) eq_refl) as (lo3 & A1 & A2 & A3 & A4 & A5 & A6 & A7).
  set (w3 := if (Z.land (current_ms w) (Z.shiftl 1 (3 * BITS_PER_LEVEL) - 1) =? 0) then cascade_level 3 w else w) in *.
  destruct (cascade_step lo3 2 w3 (Z.land (current_ms w3) (Z.shiftl 1 (2 * BITS_PER_LEVEL) - 1) =? 0) A1 ltac:(by rewrite A6) ltac:(unfold NUM_LEVELS; lia)
    (mask_aligned 2 (current_ms w3)) ltac:(by rewrite A4, A6)) as (lo2 & B1 & B2 & B3 & B4 & B5 & B6 & B7).
  set (w2 := if (Z.land (current_ms w3) (Z.shiftl 1 (2 * BITS_PER_LEVEL) - 1) =? 0) then cascade_level 2 w3 else w3) in *.
  destruct (cascade_step lo2 1 w2 (Z.land (current_ms w2) SLOT_MASK =? 0) B1 ltac:(by rewrite B6) ltac:(unfold NUM_LEVELS; lia)
    (mask_aligned 1 (current_ms w2)) ltac:(by rewrite B4, A4, B6, A6)) as (lo1 & C1 & C2 & C3 & C4 & C5 & C6 & C7).
  exists lo1. split_and!; [exact C1| | |by rewrite C5, B5|congruence|congruence].
  - rewrite C4, B4, A4 by done. unfold next_block. change (width 0) with 1. rewrite Z.div_1_r. lia.
  - intros l Hl. unfold NUM_LEVELS in Hl. assert (l = 1 ∨ l = 2 ∨ l = 3)%nat as [->|[->| ->]] by lia.
    + by rewrite C3, B6, A6.
    + by rewrite C4, B3, A6.
    + by rewrite C4, B4, A3.
Qed.

(** One iteration of [poll]: exactly the timers due at [current_ms] fire. *)
Definition tick (w : TimerWheel) : TimerWheel * list Entry :=
  let w := cascade_if_needed w in
  let l0_idx := Z.to_nat (Z.land (current_ms w) SLOT_MASK) in
  (mkWheel (levels (set_slot 0 l0_idx [] w)) (current_ms w + 1) (next_id w), get_slot w 0 l0_idx).

Lemma level_0_slot t : Z.to_nat (Z.land t SLOT_MASK) = slot_index 0 t.
Proof. reflexivity. Qed.

Lemma width_0_block t : block 0 t = t ∧ next_block 0 t = t.
Proof. unfold block, next_block. change (width 0) with 1. rewrite !Z.div_1_r. lia. Qed.

Lemma wheel_ok_expires w e : wheel_ok w → e ∈ pending w → current_ms w <= expires_at_ms e.
Proof.
  intros [Hshape Hin] He. unfold pending in He.
  apply list_elem_of_join in He as (slot & He & Hslot). apply list_elem_of_join in Hslot as (row & Hslot & Hrow).
  apply list_elem_of_lookup in Hrow as [l Hl]. apply list_elem_of_lookup in Hslot as [s Hs].
  assert (l < NUM_LEVELS)%nat by (rewrite <- (proj1 Hshape); by eapply lookup_lt_Some).
  destruct (Hin l s e) as (_ & P & _); [done| |].
  { unfold get_slot. rewrite Hl. cbn [mbind option_bind]. by rewrite Hs. }
  pose proof (width_pos l) as Hw. unfold next_block, block in P.
  pose proof (Z.mul_div_le (expires_at_ms e) (width l) Hw).
  pose proof (Z.div_mod (current_ms w + width l - 1) (width l) ltac:(lia)).
  pose proof (Z.mod_pos_bound (current_ms w + width l - 1) (width l) Hw). nia.
Qed.

Lemma tick_spec w :
  wheel_ok w →
  let '(w', fired) := tick w in
  wheel_ok w' ∧ fired ++ pending w' ≡ₚ pending w ∧
  Forall (fun e => expires_at_ms e = current_ms w) fired ∧
  current_ms w' = current_ms w + 1 ∧ next_id w' = next_id w.
Proof.
  intros Hw. destruct (cascade_if_needed_spec w Hw) as (lo & [Hshape Hin] & Hlo0 & Hlo & Hp & Hc & Hn).
  unfold tick. cbv zeta in *. set (w1 := cascade_if_needed w) in *. rewrite level_0_slot.
  set (s := slot_index 0 (current_ms w1)). pose proof (slot_index_lt 0 (current_ms w1)) as Hs. fold s in Hs.
  assert (H0 : (0 < NUM_LEVELS)%nat) by (unfold NUM_LEVELS; lia).
  assert (Hfire : ∀ s' e, e ∈ get_slot w1 0 s' →
    s' = slot_index 0 (expires_at_ms e) ∧ current_ms w <= expires_at_ms e < current_ms w + 32).
  { intros s' e He. destruct (Hin 0%nat s' e H0 He) as (P1 & P2 & P3). specialize (P3 ltac:(lia)).
    rewrite (proj1 (width_0_block _)) in P2, P3. rewrite (proj2 (width_0_block _)) in P3. split; [done|lia]. }
  assert (Hslot : ∀ t, slot_index 0 t = Z.to_nat (t mod 32))
    by (intros t; by rewrite slot_index_eq, (proj1 (width_0_block t))).
  split_and!.
  - split; [apply (set_slot_shape 0 s [] w1 Hshape)|]. intros l s' e Hl He.
    change (get_slot _ l s') with (get_slot (set_slot 0 s [] w1) l s') in He.
    rewrite get_set_slot in He by done. destruct (decide (l = 0%nat ∧ s' = s)) as [|Hne]; [by apply elem_of_nil in He|].
    destruct (Hin l s' e Hl He) as (P1 & P2 & P3). cbn [current_ms]. rewrite Hc in *.
    split_and!; [done| |].
    + destruct l as [|l]; [|rewrite <- Hlo by lia; done].
      destruct (Hfire s' e He) as [Hs' Hr]. rewrite (proj1 (width_0_block _)), (proj2 (width_0_block _)).
      enough (expires_at_ms e ≠ current_ms w) by lia. intros Heq. apply Hne. split; [done|]. subst s. congruence.
    + intros Hl3. specialize (P3 Hl3). pose proof (width_pos l).
      enough (next_block l (current_ms w) <= next_block l (current_ms w + 1)) by lia.
      apply Z.div_le_mono; lia.
  - change (pending _) with (pending (set_slot 0 s [] w1)) at 1. rewrite <- Hp.
    apply (set_slot_pending 0 s [] w1 Hshape H0 Hs).
  - apply Forall_forall. intros e He. destruct (Hfire s e He) as [Hs' Hr]. subst s. rewrite !Hslot, Hc in Hs'.
    pose proof (Z.mod_pos_bound (current_ms w) 32). pose proof (Z.mod_pos_bound (expires_at_ms e) 32).
    assert (current_ms w mod 32 = expires_at_ms e mod 32) as Hm by lia.
    pose proof (Z.div_mod (current_ms w) 32). pose proof (Z.div_mod (expires_at_ms e) 32). lia.
  - cbn [current_ms]. lia.
  - done.
Qed.

Lemma poll_loop_step fuel now w out :
  current_ms w <= now → 0 <= current_ms w → now < 2 ^ 64 - 1 → wheel_ok w →
  poll_loop (S fuel) now w out = let '(w', fired) := tick w in poll_loop fuel now w' (out ++ fired).
Proof.
  intros Hc H0 Hn Hw. cbn [poll_loop]. rewrite (proj2 (Z.leb_le _ _)) by lia.
  destruct (cascade_if_needed_spec w Hw) as (lo & _ & _ & _ & _ & Hcur & _). cbv zeta in Hcur.
  unfold tick. cbv zeta. cbn [current_ms set_slot]. rewrite Hcur.
  unfold checked_add, umax. rewrite (proj2 (Z.leb_le _ _)) by lia. done.
Qed.

(** The abstract timer queue: what a poll up to [now] leaves and fires. *)
Definition expiry_le (a b : Entry) : Prop := expires_at_ms a <= expires_at_ms b.

Lemma poll_loop_spec fuel now w out :
  wheel_ok w → 0 <= current_ms w → now < 2 ^ 64 - 1 → Z.of_nat fuel = Z.max 0 (now - current_ms w + 1) →
  ∃ w' fired, poll_loop fuel now w out = (w', out ++ fired) ∧
    wheel_ok w' ∧ pending w ≡ₚ fired ++ pending w' ∧
    Forall (fun e => current_ms w <= expires_at_ms e <= now) fired ∧ StronglySorted expiry_le fired ∧
    current_ms w' = Z.max (current_ms w) (now + 1) ∧ next_id w' = next_id w.
Proof.
  revert w out. induction fuel as [|fuel IH]; intros w out Hw H0 Hn Hf.
  - exists w, []. rewrite app_nil_r. split_and!; [done|done|done|constructor|constructor|lia|done].
  - rewrite poll_loop_step by (done || lia). pose proof (tick_spec w Hw) as Ht.
    destruct (tick w) as [w1 f1]. destruct Ht as (T1 & T2 & T3 & T4 & T5).
    destruct (IH w1 (out ++ f1)) as (w' & f2 & -> & I1 & I2 & I3 & I4 & I5 & I6); [done|lia|done|lia|].
    exists w', (f1 ++ f2). rewrite <- app_assoc. split_and!; [done|done| | | |lia|congruence].
    + rewrite <- T2, I2, app_assoc. done.
    + apply Forall_app. split; eapply Forall_impl; [exact T3| |exact I3|]; cbn; intros; lia.
    + apply StronglySorted_app. split_and!; [ |clear -T3|done].
      * intros x1 x2 Hx1 Hx2. rewrite Forall_forall in T3, I3. specialize (T3 _ Hx1). specialize (I3 _ Hx2).
        unfold expiry_le. cbn in *. lia.
      * induction T3 as [|x l Hx Hl IHl]; constructor; [done|]. eapply Forall_impl; [exact Hl|].
        intros y Hy. unfold expiry_le. cbn in *. lia.
Qed.

(** ** The abstract queue and its refinement *)

Inductive TimerOp := OpSchedule (after_ms : Z) | OpPoll (now_ms : Z).

Definition op_in_range (op : TimerOp) : Prop :=
  match op with OpSchedule a => in_width 64 a | OpPoll now => 0 <= now < 2 ^ 64 - 1 end.

(** The wheel's answer to an operation: the fresh id or the fired timers. *)
Definition wheel_step (op : TimerOp) (w : TimerWheel) : TimerWheel * (Z + list Entry) :=
  match op with
  | OpSchedule a => let '(w, id) := TimerWheel_schedule a w in (w, inl id)
  | OpPoll now => let '(w, fired) := TimerWheel_poll now w [] in (w, inr fired)
  end.

Fixpoint wheel_run (ops : list TimerOp) (w : TimerWheel) : TimerWheel * list (Z + list Entry) :=
  match ops with
  | [] => (w, [])
  | op :: ops =>
      let '(w, r) := wheel_step op w in
      let '(w, rs) := wheel_run ops w in (w, r :: rs)
  end.

(** The queue: a list of pending timers, a clock and the next id. *)
Record Queue := mkQueue { q_pending : list Entry; q_now : Z; q_next : Z }.

Definition due (now : Z) (e : Entry) : Prop := expires_at_ms e <= now.
#[export] Instance due_dec now e : Decision (due now e).
Proof. unfold due. apply _. Defined.

Definition queue_step (op : TimerOp) (q : Queue) : Queue * (Z + list Entry) :=
  match op with
  | OpSchedule a =>
      (mkQueue (mkEntry (q_next q) (Z.min (2 ^ 64 - 1) (q_now q + a)) :: q_pending q) (q_now q)
         ((q_next q + 1) mod 2 ^ 64), inl (q_next q))
  | OpPoll now =>
      (mkQueue (filter (fun e => ¬ due now e) (q_pending q)) (Z.max (q_now q) (now + 1)) (q_next q),
       inr (filter (due now) (q_pending q)))
  end.

Fixpoint queue_run (ops : list TimerOp) (q : Queue) : Queue * list (Z + list Entry) :=
  match ops with
  | [] => (q, [])
  | op :: ops =>
      let '(q, r) := queue_step op q in
      let '(q, rs) := queue_run ops q in (q, r :: rs)
  end.

Definition represents (w : TimerWheel) (q : Queue) : Prop :=
  wheel_ok w ∧ pending w ≡ₚ q_pending q ∧ current_ms w = q_now q ∧ next_id w = q_next q ∧ in_width 64 (q_now q).

(** The wheel's answer is the queue's, fired timers in the order of expiry. *)
Definition same_answer (r rq : Z + list Entry) : Prop :=
  match r, rq with
  | inl id, inl id' => id = id'
  | inr fired, inr fired' => fired ≡ₚ fired' ∧ StronglySorted expiry_le fired
  | _, _ => False
  end.

Lemma filter_split_due now fired rest :
  Forall (due now) fired → Forall (fun e => ¬ due now e) rest →
  filter (due now) (fired ++ rest) = fired ∧ filter (fun e => ¬ due now e) (fired ++ rest) = rest.
Proof.
  intros Hf Hr. rewrite !filter_app.
  assert (Hf' : filter (due now) fired = fired ∧ filter (fun e => ¬ due now e) fired = []).
  { induction Hf as [|e l He _ [IH1 IH2]]; [done|]. rewrite !filter_cons, decide_True, decide_False by tauto.
    by rewrite IH1, IH2. }
  assert (Hr' : filter (due now) rest = [] ∧ filter (fun e => ¬ due now e) rest = rest).
  { clear -Hr. induction Hr as [|e l He _ [IH1 IH2]]; [done|].
    rewrite !filter_cons, decide_False, decide_True by tauto. by rewrite IH1, IH2. }
  destruct Hf' as [-> ->], Hr' as [-> ->]. by rewrite app_nil_r.
Qed.

Lemma wheel_step_refines op w q :
  represents w q → op_in_range op →
  let '(w', r) := wheel_step op w in
  let '(q', rq) := queue_step op q in
  represents w' q' ∧ same_answer r rq.
Proof.
  intros (Hw & Hp & Hc & Hn & Hr) Hop. destruct op as [a|now]; cbn [op_in_range wheel_step queue_step] in *.
  - unfold TimerWheel_schedule. cbv zeta. cbn [current_ms].
    set (e := mkEntry (next_id w) (saturating_add 64 (current_ms w) a)).
    assert (Ee : e = mkEntry (q_next q) (Z.min (2 ^ 64 - 1) (q_now q + a))).
    { subst e. unfold saturating_add, umax. by rewrite Hn, Hc, Z.min_comm. }
    destruct (insert_entry_spec (fun l => next_block l (current_ms w)) e
      (mkWheel (levels w) (current_ms w) (wrapping_add 64 (next_id w) 1))) as (I1 & I2 & I3 & I4);
      [exact Hw|intros l; by left| |].
    { rewrite Ee. cbn [current_ms expires_at_ms]. unfold in_width in *. lia. }
    cbn [current_ms next_id] in *. split; [|exact Hn]. split_and!; cbn [q_pending q_now q_next].
    + unfold wheel_ok. by rewrite I3.
    + rewrite I2, Ee. change (pending (mkWheel _ _ _)) with (pending w). by rewrite Hp.
    + by rewrite I3.
    + rewrite I4, Hn. done.
    + done.
  - unfold TimerWheel_poll.
    destruct (poll_loop_spec (Z.to_nat (now - current_ms w + 1)) now w [])
      as (w' & fired & -> & P1 & P2 & P3 & P4 & P5 & P6); [done|unfold in_width in *; lia|lia|lia|].
    assert (Hf : Forall (due now) fired) by (eapply Forall_impl; [exact P3|]; unfold due; cbn; lia).
    assert (Hrest : Forall (fun e => ¬ due now e) (pending w')).
    { apply Forall_forall. intros e He. pose proof (wheel_ok_expires w' e P1 He). unfold due. lia. }
    destruct (filter_split_due now fired (pending w') Hf Hrest) as [F1 F2].
    rewrite app_nil_l. split.
    + split_and!; cbn [q_pending q_now q_next]; [done| |lia|congruence|unfold in_width in *; lia].
      rewrite <- Hp, P2, F2. done.
    + split; [|done]. rewrite <- Hp, P2, F1. done.
Qed.

Lemma new_represents start : in_width 64 start → represents (TimerWheel_new start) (mkQueue [] start 0).
Proof.
  intros Hs. split_and!; try done. split.
  - split; [done|]. by repeat constructor.
  - intros l s e _ He. exfalso. revert He. unfold get_slot, TimerWheel_new. cbn [levels].
    destruct (replicate NUM_LEVELS (replicate SLOTS []) !! l) as [row|] eqn:E; [|apply not_elem_of_nil].
    apply lookup_replicate in E as [-> _]. cbn [mbind option_bind].
    destruct (replicate SLOTS [] !! s) as [v|] eqn:E; [|apply not_elem_of_nil].
    apply lookup_replicate in E as [-> _]. apply not_elem_of_nil.
Qed.

Lemma wheel_run_refines ops w q :
  represents w q → Forall op_in_range ops →
  represents (wheel_run ops w).1 (queue_run ops q).1 ∧
  Forall2 same_answer (wheel_run ops w).2 (queue_run ops q).2.
Proof.
  intros Hr Hops. revert w q Hr. induction Hops as [|op ops Hop _ IH]; intros w q Hr; [split; [done|constructor]|].
  cbn [wheel_run queue_run]. pose proof (wheel_step_refines op w q Hr Hop) as Hstep.
  destruct (wheel_step op w) as [w1 r], (queue_step op q) as [q1 rq]. destruct Hstep as [H1 H2].
  destruct (IH w1 q1 H1) as [I1 I2]. destruct (wheel_run ops w1), (queue_run ops q1). split; [done|by constructor].
Qed.

(** C20: The hierarchical wheel is a timer queue.  For every sequence of [schedule]
    and [poll] calls on a new wheel (any clock, any 64-bit delays, delays past
    the wheel's range and saturating ones included), each [schedule] returns
    the queue's next id, and each [poll] fires exactly the pending timers whose
    expiry is at or before [now_ms], none early, none late, none twice, in the
    order of their expiry; polling into the past fires nothing. *)
Theorem timer_wheel_exact start ops :
  in_width 64 start → Forall op_in_range ops →
  let '(w, answers) := wheel_run ops (TimerWheel_new start) in
  let '(q, expected) := queue_run ops (mkQueue [] start 0) in
  Forall2 same_answer answers expected ∧ pending w ≡ₚ q_pending q ∧ current_ms w = q_now q.
Proof.
  intros Hs Hops. destruct (wheel_run_refines ops _ _ (new_represents start Hs) Hops) as [(_ & H1 & H2 & _) H3].
  destruct (wheel_run ops _), (queue_run ops _). done.
Qed.

Definition demo_ops : list TimerOp := [OpSchedule 40; OpSchedule 5; OpSchedule 1100; OpPoll 1050; OpPoll 3; OpSchedule 0; OpPoll 2200].

Lemma timer_wheel_exact_witness :
  let '(w, answers) := wheel_run demo_ops (TimerWheel_new 1000) in
  let '(q, expected) := queue_run demo_ops (mkQueue [] 1000 0) in
  Forall2 same_answer answers expected ∧ pending w ≡ₚ q_pending q ∧ current_ms w = q_now q.
Proof.
  apply (timer_wheel_exact 1000 demo_ops); [unfold in_width; lia|].
  unfold demo_ops. repeat constructor; cbn; unfold in_width; lia.
Defined.

Example demo_ops_run :
  queue_run demo_ops (mkQueue [] 1000 0) =
    (mkQueue [] 2201 4,
     [inl 0; inl 1; inl 2; inr [mkEntry 1 1005; mkEntry 0 1040]; inr []; inl 3; inr [mkEntry 3 1051; mkEntry 2 2100]]).
Proof. reflexivity. Qed.
