(* ===== verification/Ring.v ===== *)
(** * The SPSC ring and the buffer pool

    [desmos-rt/src/ring.rs]: the lock-free ring between pipeline stages, as a
    step relation of the producer's and the consumer's loads, slot accesses and
    stores, with stale loads; and as the functions [try_push] and [try_pop] of
    an undisturbed call.  [desmos-rt/src/pool.rs]: the packet buffer pool. *)

From stdpp Require Import base numbers list relations.
From Stdlib Require Import ZArith Lia.
From S2P Require Import Prelude Wire.

Module Ring.

(** An [AtomicUsize] is its modification order: every value stored so far, the
    last one the current value.  A [Relaxed] load of a location the thread alone
    writes gives the last value; an [Acquire] load of the other side's location
    gives any value not older than the last one this thread saw. *)
Abbreviation AtomicUsize := (list Z).
Definition current (a : AtomicUsize) : Z := default 0 (last a).
Definition store (v : Z) (a : AtomicUsize) : AtomicUsize := a ++ [v].

Section ring.
Context {T : Type}.

(** A slot is [MaybeUninit<T>]: [None] is uninitialised or moved out. *)
Record SpscRing := mkRing {
  buffer : list (option T);
  mask : Z;
  head : AtomicUsize;
  tail : AtomicUsize;
}.

Definition is_power_of_two (n : Z) : bool := (0 <? n) && (Z.land n (n - 1) =? 0).

(** The two asserts, then a ring with both counters at zero. *)
Definition new_split (capacity : Z) : panics SpscRing :=
  if negb (0 <? capacity) then None
  else if negb (is_power_of_two capacity) then None
  else Some (mkRing (replicate (Z.to_nat capacity) None) (capacity - 1) [0] [0]).

Definition capacity (r : SpscRing) : Z := mask r + 1.
Definition wrapping_sub (a b : Z) : Z := wrap 64 (a - b).
Definition slot_of (r : SpscRing) (counter : Z) : nat := Z.to_nat (Z.land counter (mask r)).

Definition with_buffer (b : list (option T)) (r : SpscRing) : SpscRing := mkRing b (mask r) (head r) (tail r).
Definition with_head (h : AtomicUsize) (r : SpscRing) : SpscRing := mkRing (buffer r) (mask r) h (tail r).
Definition with_tail (t : AtomicUsize) (r : SpscRing) : SpscRing := mkRing (buffer r) (mask r) (head r) t.

(** *** Undisturbed calls *)

Definition try_push (value : T) (r : SpscRing) : SpscRing * result () T :=
  let t := current (tail r) in
  let h := current (head r) in
  if wrapping_sub t h =? capacity r then (r, Err value)
  else
    let r := with_buffer (<[slot_of r t := Some value]> (buffer r)) r in
    (with_tail (store (wrapping_add 64 t 1) (tail r)) r, Ok ()).

(** [None]: a read of an uninitialised slot, undefined behaviour. *)
Definition try_pop (r : SpscRing) : option (SpscRing * option T) :=
  let h := current (head r) in
  let t := current (tail r) in
  if h =? t then Some (r, None)
  else
    match buffer r !! slot_of r h with
    | Some (Some value) =>
        let r := with_buffer (<[slot_of r h := None]> (buffer r)) r in
        Some (with_head (store (wrapping_add 64 h 1) (head r)) r, Some value)
    | _ => None
    end.

Definition ring_len (r : SpscRing) : Z := wrapping_sub (current (tail r)) (current (head r)).
Definition ring_is_empty (r : SpscRing) : bool := ring_len r =? 0.

(** [Drop]: walk [[head, tail)]; [None] is the drop of an uninitialised slot, or
    the walk not reaching [tail] within the fuel. *)
Fixpoint drop_loop (fuel : nat) (r : SpscRing) (cur : Z) : option (list T) :=
  if cur =? current (tail r) then Some []
  else
    match fuel with
    | O => None
    | S fuel =>
        match buffer r !! slot_of r cur with
        | Some (Some value) =>
            rest ← drop_loop fuel (with_buffer (<[slot_of r cur := None]> (buffer r)) r) (wrapping_add 64 cur 1);
            Some (value :: rest)
        | _ => None
        end
    end.

Definition SpscRing_drop (r : SpscRing) : option (list T) :=
  drop_loop (Z.to_nat (capacity r)) r (current (head r)).

(** *** The two threads

    The points between the shared accesses of [try_push] and of [try_pop]. *)

Inductive PState :=
| PIdle                              (* outside [try_push] *)
| PLoadHead (v : T) (t : Z)          (* [tail] loaded *)
| PWrite (v : T) (t : Z)             (* not full: about to write the slot *)
| PPublish (v : T) (t : Z).          (* slot written: about to store [tail] *)

Inductive CState :=
| CIdle
| CLoadTail (h : Z)
| CRead (h : Z)
| CPublish (v : T) (h : Z)
| CUndefined.                        (* read an uninitialised slot *)

(** [p_view], [c_view]: the position in the other side's modification order the
    thread last loaded from.  [pushed], [popped]: values in the order of the
    publishing stores. *)
Record Config := mkConfig {
  ring : SpscRing;
  prod : PState;
  cons : CState;
  p_view : nat;
  c_view : nat;
  pushed : list T;
  popped : list T;
}.

Inductive ring_step : Config → Config → Prop :=
| step_push_begin v r c pv cv ps qs :
    ring_step (mkConfig r PIdle c pv cv ps qs)
         (mkConfig r (PLoadHead v (current (tail r))) c pv cv ps qs)
| step_push_full v t r c pv cv ps qs i h :
    (pv <= i)%nat → head r !! i = Some h → wrapping_sub t h = capacity r →
    ring_step (mkConfig r (PLoadHead v t) c pv cv ps qs)
         (mkConfig r PIdle c i cv ps qs)
| step_push_room v t r c pv cv ps qs i h :
    (pv <= i)%nat → head r !! i = Some h → wrapping_sub t h ≠ capacity r →
    ring_step (mkConfig r (PLoadHead v t) c pv cv ps qs)
         (mkConfig r (PWrite v t) c i cv ps qs)
| step_push_write v t r c pv cv ps qs :
    ring_step (mkConfig r (PWrite v t) c pv cv ps qs)
         (mkConfig (with_buffer (<[slot_of r t := Some v]> (buffer r)) r) (PPublish v t) c pv cv ps qs)
| step_push_publish v t r c pv cv ps qs :
    ring_step (mkConfig r (PPublish v t) c pv cv ps qs)
         (mkConfig (with_tail (store (wrapping_add 64 t 1) (tail r)) r) PIdle c pv cv (ps ++ [v]) qs)
| step_pop_begin r p pv cv ps qs :
    ring_step (mkConfig r p CIdle pv cv ps qs)
         (mkConfig r p (CLoadTail (current (head r))) pv cv ps qs)
| step_pop_empty h r p pv cv ps qs i t :
    (cv <= i)%nat → tail r !! i = Some t → h = t →
    ring_step (mkConfig r p (CLoadTail h) pv cv ps qs)
         (mkConfig r p CIdle pv i ps qs)
| step_pop_some h r p pv cv ps qs i t :
    (cv <= i)%nat → tail r !! i = Some t → h ≠ t →
    ring_step (mkConfig r p (CLoadTail h) pv cv ps qs)
         (mkConfig r p (CRead h) pv i ps qs)
| step_pop_read v h r p pv cv ps qs :
    buffer r !! slot_of r h = Some (Some v) →
    ring_step (mkConfig r p (CRead h) pv cv ps qs)
         (mkConfig (with_buffer (<[slot_of r h := None]> (buffer r)) r) p (CPublish v h) pv cv ps qs)
| step_pop_undefined h r p pv cv ps qs :
    (¬ ∃ v, buffer r !! slot_of r h = Some (Some v)) →
    ring_step (mkConfig r p (CRead h) pv cv ps qs)
         (mkConfig r p CUndefined pv cv ps qs)
| step_pop_publish v h r p pv cv ps qs :
    ring_step (mkConfig r p (CPublish v h) pv cv ps qs)
         (mkConfig (with_head (store (wrapping_add 64 h 1) (head r)) r) p CIdle pv cv ps (qs ++ [v])).

Definition start (r : SpscRing) : Config := mkConfig r PIdle CIdle 0 0 [] [].

(** ** Counters *)

Definition counters (n : nat) : AtomicUsize := (fun k => wrap 64 (Z.of_nat k)) <$> seq 0 (S n).

Lemma counters_lookup n i v : counters n !! i = Some v ↔ v = wrap 64 (Z.of_nat i) ∧ (i <= n)%nat.
Proof.
  unfold counters. rewrite list_lookup_fmap, fmap_Some. split.
  - intros (k & Hk & ->). apply lookup_seq in Hk as [-> ?]. rewrite Nat.add_0_l. split; [done|lia].
  - intros [-> Hi]. exists i. split; [|done]. apply lookup_seq. lia.
Qed.

Lemma counters_current n : current (counters n) = wrap 64 (Z.of_nat n).
Proof. unfold current, counters. rewrite seq_S, fmap_app. cbn [fmap list_fmap]. by rewrite last_snoc. Qed.

Lemma wrap_succ n : wrapping_add 64 (wrap 64 (Z.of_nat n)) 1 = wrap 64 (Z.of_nat (S n)).
Proof. unfold wrapping_add, wrap. rewrite Z.add_mod_idemp_l by lia. f_equal. lia. Qed.

Lemma counters_store n : store (wrapping_add 64 (wrap 64 (Z.of_nat n)) 1) (counters n) = counters (S n).
Proof. rewrite wrap_succ. unfold store, counters. rewrite (seq_S (S n)), fmap_app. done. Qed.

Lemma wrapping_sub_counters a b :
  (b <= a)%nat → Z.of_nat a - Z.of_nat b < 2 ^ 64 →
  wrapping_sub (wrap 64 (Z.of_nat a)) (wrap 64 (Z.of_nat b)) = Z.of_nat a - Z.of_nat b.
Proof.
  intros. unfold wrapping_sub, wrap. rewrite Zminus_mod_idemp_l, Zminus_mod_idemp_r. apply Z.mod_small. lia.
Qed.

Lemma counters_eq a b :
  (b <= a)%nat → Z.of_nat a - Z.of_nat b < 2 ^ 64 → wrap 64 (Z.of_nat b) = wrap 64 (Z.of_nat a) → a = b.
Proof.
  intros H1 H2 He. pose proof (wrapping_sub_counters a b H1 H2) as Hs. rewrite He in Hs.
  unfold wrapping_sub in Hs. rewrite Z.sub_diag in Hs. change (wrap 64 0) with 0 in Hs. lia.
Qed.

(** ** Slots

    [slots_hold cap lo hi vals buf]: the slots of the counters in [[lo, hi)] hold
    the values of those positions, every other slot is empty. *)

Definition slots_hold (cap lo hi : nat) (vals : list T) (buf : list (option T)) : Prop :=
  length buf = cap ∧
  (∀ k v, (lo <= k < hi)%nat → vals !! k = Some v → buf !! (k mod cap)%nat = Some (Some v)) ∧
  (∀ j, (j < cap)%nat → (∀ k, (lo <= k < hi)%nat → (k mod cap)%nat ≠ j) → buf !! j = Some None).

Lemma mod_distinct cap a b : (a < b < a + cap)%nat → (a mod cap ≠ b mod cap)%nat.
Proof.
  intros H E. pose proof (Nat.div_mod_eq a cap). pose proof (Nat.div_mod_eq b cap).
  assert (b - a = cap * (b / cap - a / cap))%nat as Hd by nia. assert (0 < b / cap - a / cap)%nat by nia. nia.
Qed.

Lemma slots_write cap lo hi vals buf v :
  slots_hold cap lo hi vals buf → length vals = hi → (lo <= hi)%nat → (hi < lo + cap)%nat →
  buf !! (hi mod cap)%nat = Some None ∧
  slots_hold cap lo (S hi) (vals ++ [v]) (<[(hi mod cap)%nat := Some v]> buf).
Proof.
  intros (Hlen & Hv & He) Hvals Hle Hlt. pose proof (Nat.mod_upper_bound hi cap ltac:(lia)).
  split; [apply He; [done|]; intros k Hk; apply mod_distinct; lia|].
  split_and!; [by rewrite length_insert| |].
  - intros k w Hk Hw. destruct (decide (k = hi)) as [->|].
    + rewrite list_lookup_insert_eq by lia. rewrite lookup_app_r, Hvals, Nat.sub_diag in Hw by lia. by simplify_eq/=.
    + rewrite lookup_app_l in Hw by lia. rewrite list_lookup_insert_ne; [apply Hv; [lia|done]|].
      apply not_eq_sym, mod_distinct. lia.
  - intros j Hj Hk. rewrite list_lookup_insert_ne by (apply Hk; lia). apply He; [done|].
    intros k ?. apply Hk. lia.
Qed.

Lemma slots_read cap lo hi vals buf :
  slots_hold cap lo hi vals buf → (lo < hi)%nat → (hi <= lo + cap)%nat →
  slots_hold cap (S lo) hi vals (<[(lo mod cap)%nat := None]> buf).
Proof.
  intros (Hlen & Hv & He) Hlt Hle. pose proof (Nat.mod_upper_bound lo cap ltac:(lia)).
  split_and!; [by rewrite length_insert| |].
  - intros k w Hk Hw. rewrite list_lookup_insert_ne by (apply mod_distinct; lia). apply Hv; [lia|done].
  - intros j Hj Hk. destruct (decide (lo mod cap = j)%nat) as [<-|]; [apply list_lookup_insert_eq; lia|].
    rewrite list_lookup_insert_ne by done. apply He; [done|]. intros k ?.
    destruct (decide (k = lo)) as [->|]; [done|]. apply Hk. lia.
Qed.

Lemma slot_of_counter r bits n :
  0 <= bits <= 63 → mask r = 2 ^ bits - 1 →
  slot_of r (wrap 64 (Z.of_nat n)) = (n mod Z.to_nat (2 ^ bits))%nat.
Proof.
  intros Hb Hm. unfold slot_of, wrap. rewrite Hm, Z.sub_1_r, <- Z.ones_equiv, Z.land_ones by lia.
  replace (2 ^ 64) with (2 ^ bits * 2 ^ (64 - bits)) by (rewrite <- Z.pow_add_r by lia; f_equal; lia).
  rewrite Z.rem_mul_r, Z.mul_comm, Z.mod_add, Z.mod_mod by lia.
  rewrite <- (Z2Nat.id (2 ^ bits)) at 1 by lia. rewrite <- Nat2Z.inj_mod. apply Nat2Z.id.
Qed.

(** ** The invariant *)

(** Counters whose slot is already moved out or not yet published. *)
Definition moved_out (c : CState) : nat := match c with CPublish _ _ => 1 | _ => 0 end.
Definition written (p : PState) : list T := match p with PPublish v _ => [v] | _ => [] end.

Definition prod_ok (cap nt pv : nat) (p : PState) : Prop :=
  match p with
  | PIdle => True
  | PLoadHead _ t => t = wrap 64 (Z.of_nat nt)
  | PWrite _ t | PPublish _ t => t = wrap 64 (Z.of_nat nt) ∧ (nt < pv + cap)%nat
  end.

Definition cons_ok (nh cv : nat) (ps : list T) (c : CState) : Prop :=
  match c with
  | CIdle => True
  | CLoadTail h => h = wrap 64 (Z.of_nat nh)
  | CRead h => h = wrap 64 (Z.of_nat nh) ∧ (nh < cv)%nat
  | CPublish v h => h = wrap 64 (Z.of_nat nh) ∧ (nh < cv)%nat ∧ ps !! nh = Some v
  | CUndefined => False
  end.

Definition ring_inv (bits : Z) (c : Config) : Prop :=
  let cap := Z.to_nat (2 ^ bits) in
  let nt := length (pushed c) in
  let nh := length (popped c) in
  0 <= bits <= 63 ∧
  mask (ring c) = 2 ^ bits - 1 ∧ head (ring c) = counters nh ∧ tail (ring c) = counters nt ∧
  (p_view c <= nh)%nat ∧ (nt <= p_view c + cap)%nat ∧ (nh <= c_view c <= nt)%nat ∧
  popped c = take nh (pushed c) ∧
  slots_hold cap (nh + moved_out (cons c)) (nt + length (written (prod c)))
    (pushed c ++ written (prod c)) (buffer (ring c)) ∧
  prod_ok cap nt (p_view c) (prod c) ∧ cons_ok nh (c_view c) (pushed c) (cons c).

Lemma cap_bounds bits : 0 <= bits <= 63 → 0 < 2 ^ bits < 2 ^ 64 ∧ Z.of_nat (Z.to_nat (2 ^ bits)) = 2 ^ bits.
Proof.
  intros Hb. assert (0 < 2 ^ bits) by lia. pose proof (Z.pow_lt_mono_r 2 bits 64). lia.
Qed.

(** The consumer's next slot holds the value pushed at its position. *)
Lemma read_slot bits c h :
  ring_inv bits c → cons c = CRead h →
  ∃ v, pushed c !! length (popped c) = Some v ∧ buffer (ring c) !! slot_of (ring c) h = Some (Some v).
Proof.
  intros (Hb & Hm & _ & _ & _ & _ & Hv & _ & (_ & Hs & _) & _ & Hc) Ec. rewrite Ec in *. destruct Hc as [-> Hlt].
  destruct (lookup_lt_is_Some_2 (pushed c) (length (popped c)) ltac:(lia)) as [v Ev]. exists v. split; [done|].
  rewrite (slot_of_counter _ bits) by done. apply Hs; [cbn; lia|]. rewrite lookup_app_l by lia. done.
Qed.

Ltac ring_inv_intro H :=
  destruct H as (Hb & Hm & Hh & Ht & Hpv & Hcap & Hcv & Hpop & Hs & Hp & Hc);
  cbn [ring prod cons p_view c_view pushed popped buffer mask head tail with_buffer with_head with_tail
       moved_out written prod_ok cons_ok] in *.

Ltac ring_inv_split :=
  unfold ring_inv; cbv zeta;
  cbn [ring prod cons p_view c_view pushed popped buffer mask head tail with_buffer with_head with_tail
       moved_out written prod_ok cons_ok];
  split_and!.

Lemma producer_write_inv bits v t r c pv cv ps qs :
  ring_inv bits (mkConfig r (PWrite v t) c pv cv ps qs) →
  buffer r !! slot_of r t = Some None ∧
  ring_inv bits (mkConfig (with_buffer (<[slot_of r t := Some v]> (buffer r)) r) (PPublish v t) c pv cv ps qs).
Proof.
  intros H. ring_inv_intro H. destruct Hp as [-> Hp]. rewrite (slot_of_counter r bits) by done.
  assert (length qs + moved_out c <= length ps)%nat by (destruct c; cbn in *; lia).
  rewrite app_nil_r, Nat.add_0_r in Hs. destruct (slots_write _ _ _ _ _ v Hs) as [Hfree Hs']; [done|done|lia|].
  split; [done|]. ring_inv_split; try done; try lia. cbn [length]. by rewrite Nat.add_1_r.
Qed.

Lemma consumer_read_inv bits v h r p pv cv ps qs :
  ring_inv bits (mkConfig r p (CRead h) pv cv ps qs) → buffer r !! slot_of r h = Some (Some v) →
  ring_inv bits (mkConfig (with_buffer (<[slot_of r h := None]> (buffer r)) r) p (CPublish v h) pv cv ps qs).
Proof.
  intros Hinv Hv. destruct (read_slot bits _ h Hinv eq_refl) as (w & Hw & Hslot). cbn in Hw, Hslot.
  assert (w = v) as -> by congruence. ring_inv_intro Hinv. destruct Hc as [-> Hc].
  assert (length ps + length (written p) <= length qs + Z.to_nat (2 ^ bits))%nat by (destruct p; cbn in *; lia).
  rewrite (slot_of_counter r bits) in * by done. rewrite Nat.add_0_r in Hs.
  apply slots_read in Hs; [|lia|lia]. ring_inv_split; try done; try lia. by rewrite Nat.add_1_r.
Qed.

Lemma step_inv bits c c' : ring_inv bits c → ring_step c c' → ring_inv bits c'.
Proof.
  intros H Hstep. destruct (cap_bounds bits) as [Hc1 Hc2]; [apply H|]. destruct Hstep.
  - ring_inv_intro H. ring_inv_split; try done; try lia. by rewrite Ht, counters_current.
  - ring_inv_intro H. rewrite Hh in *. match goal with Hl : counters _ !! _ = Some _ |- _ => apply counters_lookup in Hl as [-> ?] end.
    ring_inv_split; try done; try lia.
  - ring_inv_intro H. rewrite Hh in *. match goal with Hl : counters _ !! _ = Some _ |- _ => apply counters_lookup in Hl as [-> ?] end.
    ring_inv_split; try done; try lia. subst t. unfold capacity in *.
    rewrite wrapping_sub_counters in * by lia. lia.
  - by apply producer_write_inv.
  - ring_inv_intro H. destruct Hp as [-> Hp]. assert (length qs <= length ps)%nat by lia.
    ring_inv_split; rewrite ?length_app; try done; cbn [length] in *; try lia.
    + rewrite Ht, counters_store. f_equal. lia.
    + rewrite take_app_le by lia. done.
    + by rewrite app_nil_r, Nat.add_0_r.
    + destruct c; cbn in *; try done. destruct Hc as (? & ? & ?). split_and!; try done. by apply lookup_app_l_Some.
  - ring_inv_intro H. ring_inv_split; try done; try lia. by rewrite Hh, counters_current.
  - ring_inv_intro H. rewrite Ht in *. match goal with Hl : counters _ !! _ = Some _ |- _ => apply counters_lookup in Hl as [-> ?] end.
    ring_inv_split; try done; try lia.
  - ring_inv_intro H. rewrite Ht in *. match goal with Hl : counters _ !! _ = Some _ |- _ => apply counters_lookup in Hl as [-> ?] end.
    ring_inv_split; try done; try lia. subst h. destruct (decide (i = length qs)) as [->|]; [done|lia].
  - by apply consumer_read_inv.
  - exfalso. destruct (read_slot bits _ h H eq_refl) as (v & _ & Hv). eauto.
  - ring_inv_intro H. destruct Hc as (-> & Hc & Hv).
    ring_inv_split; rewrite ?length_app; try done; cbn [length] in *; try lia.
    + rewrite Hh, counters_store. f_equal. lia.
    + rewrite Nat.add_1_r. erewrite take_S_r by done. by rewrite <- Hpop.
    + by rewrite Nat.add_0_r.
Qed.

Lemma power_of_two_bits n :
  is_power_of_two n = true → n < 2 ^ 64 → ∃ bits, 0 <= bits <= 63 ∧ n = 2 ^ bits.
Proof.
  unfold is_power_of_two. intros [Hn Hl]%andb_prop Hlt. apply Z.ltb_lt in Hn. apply Z.eqb_eq in Hl.
  pose proof (Z.log2_spec n Hn) as [Hlo Hhi]. pose proof (Z.log2_nonneg n).
  assert (Z.log2 n < 64) by (apply Z.log2_lt_pow2; lia).
  exists (Z.log2 n). split; [lia|]. destruct (decide (n = 2 ^ Z.log2 n)) as [|Hne]; [done|exfalso].
  assert (Z.log2 (n - 1) = Z.log2 n) as Hlog by (apply Z.log2_unique; lia).
  assert (Z.testbit (Z.land n (n - 1)) (Z.log2 n) = true) as Hbit.
  { rewrite Z.land_spec, Z.bit_log2 by lia. rewrite <- Hlog. apply Z.bit_log2. lia. }
  rewrite Hl, Z.bits_0 in Hbit. done.
Qed.

Lemma new_split_inv capacity r :
  capacity < 2 ^ 64 → new_split capacity = Some r → ∃ bits, capacity = 2 ^ bits ∧ ring_inv bits (start r).
Proof.
  intros Hlt. unfold new_split. destruct (0 <? capacity) eqn:H0; cbn [negb]; [|done].
  destruct (is_power_of_two capacity) eqn:Hp; cbn [negb]; [|done]. intros [= <-].
  destruct (power_of_two_bits capacity Hp Hlt) as (bits & Hb & ->). exists bits. split; [done|].
  unfold start. ring_inv_split; try done; try lia.
  1: cbn; lia.
  split_and!; [by rewrite length_replicate| |].
  - intros k v Hk. cbn in Hk. lia.
  - intros j Hj _. by apply lookup_replicate.
Qed.

Lemma reachable_inv bits c c' : ring_inv bits c → rtc ring_step c c' → ring_inv bits c'.
Proof. intros H Hs. induction Hs; [done|]. eauto using step_inv. Qed.

(** The values published and not yet popped. *)
Definition in_flight (c : Config) : list T := drop (length (popped c)) (pushed c).

(** C21: The lock-free ring is a first-in first-out queue under every interleaving
    of its producer and consumer, also when each side's loads of the other's
    counter are stale and when the 64-bit counters wrap around.  From a new
    ring of any accepted capacity, in every reachable state the values pushed
    are the values popped, in that order, followed by at most [capacity] values
    in flight; the consumer never reads an uninitialised slot; the producer
    never overwrites a value; and the two never touch the same slot at once. *)
Theorem ring_fifo_under_interleaving capacity r c :
  capacity < 2 ^ 64 → new_split capacity = Some r → rtc ring_step (start r) c →
  pushed c = popped c ++ in_flight c ∧ Z.of_nat (length (in_flight c)) <= capacity ∧
  cons c ≠ CUndefined ∧
  (∀ v t, prod c = PWrite v t → buffer (ring c) !! slot_of (ring c) t = Some None) ∧
  (∀ h, cons c = CRead h →
     ∃ v, in_flight c !! 0%nat = Some v ∧ buffer (ring c) !! slot_of (ring c) h = Some (Some v)) ∧
  (∀ v t h, prod c = PWrite v t → cons c = CRead h → slot_of (ring c) t ≠ slot_of (ring c) h).
Proof.
  intros Hlt Hnew Hr. destruct (new_split_inv capacity r Hlt Hnew) as (bits & -> & H0).
  pose proof (reachable_inv bits _ _ H0 Hr) as H. clear H0 Hr Hnew.
  assert (Hread : ∀ h, cons c = CRead h →
     ∃ v, in_flight c !! 0%nat = Some v ∧ buffer (ring c) !! slot_of (ring c) h = Some (Some v)).
  { intros h Eh. destruct (read_slot bits c h H Eh) as (v & Hv & Hs). exists v. split; [|done].
    unfold in_flight. by rewrite lookup_drop, Nat.add_0_r. }
  assert (Hwrite : ∀ v t, prod c = PWrite v t → buffer (ring c) !! slot_of (ring c) t = Some None).
  { intros v t Ep. destruct c. cbn in Ep. subst. exact (proj1 (producer_write_inv bits _ _ _ _ _ _ _ _ H)). }
  destruct (cap_bounds bits) as [Hc1 Hc2]; [apply H|].
  destruct c as [rr pp cc pv cv ps qs]. ring_inv_intro H. unfold in_flight. cbn [pushed popped].
  split_and!; [by rewrite Hpop, length_take, Nat.min_l, take_drop by lia| | |done|done|].
  - rewrite length_drop. lia.
  - by intros ->.
  - intros v t h -> ->. specialize (Hwrite v t eq_refl). destruct (Hread h eq_refl) as (w & _ & Hw). congruence.
Qed.

(** ** Undisturbed calls are paths of the step relation *)

Definition idle (r : SpscRing) (pv cv : nat) (ps qs : list T) : Config := mkConfig r PIdle CIdle pv cv ps qs.

Lemma try_push_steps bits v r pv cv ps qs :
  ring_inv bits (idle r pv cv ps qs) →
  let '(r', res) := try_push v r in
  let full := (length ps =? length qs + Z.to_nat (2 ^ bits))%nat in
  rtc ring_step (idle r pv cv ps qs) (idle r' (length qs) cv (if full then ps else ps ++ [v]) qs) ∧
  res = if full then Err v else Ok ().
Proof.
  intros H. destruct (cap_bounds bits) as [Hc1 Hc2]; [apply H|]. unfold idle in *. ring_inv_intro H.
  unfold try_push. rewrite Hh, Ht, !counters_current, wrapping_sub_counters by lia. unfold capacity. rewrite Hm.
  assert (Hload : head r !! length qs = Some (wrap 64 (Z.of_nat (length qs)))) by (rewrite Hh; by apply counters_lookup).
  assert (Hbegin : ∀ r, tail r = counters (length ps) →
     ring_step (mkConfig r PIdle CIdle pv cv ps qs)
          (mkConfig r (PLoadHead v (wrap 64 (Z.of_nat (length ps)))) CIdle pv cv ps qs)).
  { intros r0 E0. rewrite <- counters_current, <- E0. constructor. }
  destruct (Nat.eqb_spec (length ps) (length qs + Z.to_nat (2 ^ bits))) as [Hfull|Hroom].
  - rewrite (proj2 (Z.eqb_eq _ _)) by lia. split; [|done].
    eapply rtc_l; [by apply Hbegin|]. apply rtc_once. eapply step_push_full; [exact Hpv|exact Hload|].
    rewrite wrapping_sub_counters by lia. unfold capacity. lia.
  - rewrite (proj2 (Z.eqb_neq _ _)) by lia. split; [|done].
    eapply rtc_l; [by apply Hbegin|]. eapply rtc_l.
    { eapply step_push_room; [exact Hpv|exact Hload|]. rewrite wrapping_sub_counters by lia. unfold capacity. lia. }
    eapply rtc_l; [apply step_push_write|]. apply rtc_once. apply step_push_publish.
Qed.

Lemma try_pop_steps bits r pv cv ps qs :
  ring_inv bits (idle r pv cv ps qs) →
  ∃ r' qs', try_pop r = Some (r', ps !! length qs) ∧
    rtc ring_step (idle r pv cv ps qs) (idle r' pv (length ps) ps qs') ∧
    qs' = qs ++ option_list (ps !! length qs).
Proof.
  intros H. destruct (cap_bounds bits) as [Hc1 Hc2]; [apply H|]. pose proof H as Hinv. unfold idle in *. ring_inv_intro H.
  unfold try_pop. rewrite Hh, Ht, !counters_current.
  assert (Hload : tail r !! length ps = Some (wrap 64 (Z.of_nat (length ps)))) by (rewrite Ht; by apply counters_lookup).
  assert (Hbegin : ring_step (mkConfig r PIdle CIdle pv cv ps qs)
          (mkConfig r PIdle (CLoadTail (wrap 64 (Z.of_nat (length qs)))) pv cv ps qs)).
  { rewrite <- counters_current, <- Hh. constructor. }
  destruct (decide (length ps = length qs)) as [Heq|Hne].
  - rewrite Heq, Z.eqb_refl, lookup_ge_None_2 by lia. exists r, qs. split_and!; [done| |by rewrite app_nil_r].
    eapply rtc_l; [exact Hbegin|]. apply rtc_once. rewrite <- Heq. eapply step_pop_empty; [|exact Hload|]; [lia|].
    by rewrite Heq.
  - assert (Hw : wrap 64 (Z.of_nat (length qs)) ≠ wrap 64 (Z.of_nat (length ps))).
    { intros E. apply counters_eq in E; lia. }
    rewrite (proj2 (Z.eqb_neq _ _) Hw).
    assert (Hp2 : rtc ring_step (mkConfig r PIdle CIdle pv cv ps qs)
       (mkConfig r PIdle (CRead (wrap 64 (Z.of_nat (length qs)))) pv (length ps) ps qs)).
    { eapply rtc_l; [exact Hbegin|]. apply rtc_once. eapply step_pop_some; [|exact Hload|done]. lia. }
    destruct (read_slot bits _ _ (reachable_inv bits _ _ Hinv Hp2) eq_refl) as (v & Hv & Hslot). cbn in Hv, Hslot.
    rewrite Hslot, Hv. eexists _, _. split_and!; [done| |done].
    etrans; [exact Hp2|]. eapply rtc_l; [by apply step_pop_read|]. apply rtc_once. apply step_pop_publish.
Qed.

(** *** The abstract bounded queue *)

Inductive RingOp := OpPush (v : T) | OpPop.

Definition ring_op (op : RingOp) (r : SpscRing) : option (SpscRing * (result () T + option T)) :=
  match op with
  | OpPush v => let '(r, res) := try_push v r in Some (r, inl res)
  | OpPop => '(r, res) ← try_pop r; Some (r, inr res)
  end.

Definition queue_op (cap : Z) (op : RingOp) (q : list T) : list T * (result () T + option T) :=
  match op, q with
  | OpPush v, _ => if Z.of_nat (length q) =? cap then (q, inl (Err v)) else (q ++ [v], inl (Ok ()))
  | OpPop, [] => ([], inr None)
  | OpPop, v :: q => (q, inr (Some v))
  end.

Fixpoint ring_ops (ops : list RingOp) (r : SpscRing) : option (SpscRing * list (result () T + option T)) :=
  match ops with
  | [] => Some (r, [])
  | op :: ops => '(r, a) ← ring_op op r; '(r, rest) ← ring_ops ops r; Some (r, a :: rest)
  end.

Fixpoint queue_ops (cap : Z) (ops : list RingOp) (q : list T) : list T * list (result () T + option T) :=
  match ops with
  | [] => (q, [])
  | op :: ops =>
      let '(q, a) := queue_op cap op q in
      let '(q, rest) := queue_ops cap ops q in (q, a :: rest)
  end.

(** The ring holds the queue [q]. *)
Definition ring_holds (bits : Z) (r : SpscRing) (q : list T) : Prop :=
  ∃ pv cv ps qs, ring_inv bits (idle r pv cv ps qs) ∧ q = drop (length qs) ps.

Lemma ring_op_refines bits op r q :
  ring_holds bits r q →
  ∃ r', ring_op op r = Some (r', (queue_op (2 ^ bits) op q).2) ∧ ring_holds bits r' (queue_op (2 ^ bits) op q).1.
Proof.
  intros (pv & cv & ps & qs & H & ->). destruct (cap_bounds bits) as [Hc1 Hc2]; [apply H|].
  pose proof H as (_ & _ & _ & _ & _ & _ & Hle & _). cbn in Hle. destruct op as [v|]; cbn [ring_op queue_op].
  - pose proof (try_push_steps bits v r pv cv ps qs H) as Hs. destruct (try_push v r) as [r' res]. exists r'.
    destruct Hs as [Hs ->]. apply (reachable_inv bits) in Hs; [|done]. rewrite length_drop.
    destruct (Nat.eqb_spec (length ps) (length qs + Z.to_nat (2 ^ bits))) as [Hf|Hf].
    + rewrite (proj2 (Z.eqb_eq _ _)) by lia. split; [done|]. by eexists _, _, _, _.
    + rewrite (proj2 (Z.eqb_neq _ _)) by lia. split; [done|]. eexists _, _, _, _. split; [exact Hs|].
      rewrite drop_app_le by lia. done.
  - destruct (try_pop_steps bits r pv cv ps qs H) as (r' & qs' & -> & Hs & ->). exists r'.
    apply (reachable_inv bits) in Hs; [|done]. cbn [mbind option_bind].
    destruct (ps !! length qs) as [v|] eqn:E.
    + rewrite (drop_S _ _ _ E). split; [done|]. eexists _, _, _, _. split; [exact Hs|].
      cbn [option_list]. rewrite length_app, Nat.add_1_r. done.
    + apply lookup_ge_None in E. rewrite drop_ge by done. split; [done|].
      eexists _, _, _, _. split; [exact Hs|]. cbn [option_list]. rewrite app_nil_r, drop_ge by done. done.
Qed.

Lemma ring_ops_refine bits ops r q :
  ring_holds bits r q →
  ∃ r', ring_ops ops r = Some (r', (queue_ops (2 ^ bits) ops q).2) ∧ ring_holds bits r' (queue_ops (2 ^ bits) ops q).1.
Proof.
  revert r q. induction ops as [|op ops IH]; intros r q H; [by exists r|]. cbn [ring_ops queue_ops].
  destruct (ring_op_refines bits op r q H) as (r1 & -> & H1). cbn [mbind option_bind].
  destruct (queue_op (2 ^ bits) op q) as [q1 a]. destruct (IH r1 q1 H1) as (r2 & -> & H2). cbn [mbind option_bind].
  destruct (queue_ops (2 ^ bits) ops q1) as [q2 rest]. by exists r2.
Qed.

Lemma drop_loop_head fuel b m h1 h2 t cur :
  drop_loop fuel (mkRing b m h1 t) cur = drop_loop fuel (mkRing b m h2 t) cur.
Proof.
  revert b cur. induction fuel as [|fuel IH]; intros b cur; [done|]. cbn [drop_loop tail buffer].
  unfold with_buffer, slot_of; cbn [buffer mask head tail].
  destruct (cur =? current t); [done|]. destruct (b !! _) as [[v|]|]; [|done|done]. by rewrite IH.
Qed.

Lemma drop_loop_spec bits fuel r pv cv ps qs :
  ring_inv bits (idle r pv cv ps qs) → (length ps <= length qs + fuel)%nat →
  drop_loop fuel r (current (head r)) = Some (drop (length qs) ps).
Proof.
  revert r pv cv qs. induction fuel as [|fuel IH]; intros r pv cv qs H Hf.
  all: pose proof H as Hinv; unfold idle in H; ring_inv_intro H; destruct (cap_bounds bits Hb) as [Hc1 Hc2].
  all: cbn [drop_loop]; rewrite Ht, counters_current, Hh, counters_current.
  - assert (length ps = length qs) as Heq by lia. rewrite Heq, Z.eqb_refl, drop_ge by lia. done.
  - destruct (Z.eqb_spec (wrap 64 (Z.of_nat (length qs))) (wrap 64 (Z.of_nat (length ps)))) as [E|E].
    { apply counters_eq in E; [|lia|lia]. rewrite drop_ge by lia. done. }
    assert (Hne : length ps ≠ length qs) by (intros Heq; by rewrite Heq in E).
    destruct (try_pop_steps bits r pv cv ps qs Hinv) as (r' & qs' & Hpop' & Hpath & ->).
    apply (reachable_inv bits) in Hpath; [|done].
    destruct (lookup_lt_is_Some_2 ps (length qs) ltac:(lia)) as [v Ev]. rewrite Ev in *.
    unfold try_pop in Hpop'. rewrite Hh, Ht, !counters_current, (proj2 (Z.eqb_neq _ _) E) in Hpop'.
    destruct (buffer r !! slot_of r _) as [[w|]|]; try done. injection Hpop' as <- <-.
    specialize (IH _ _ _ _ Hpath ltac:(rewrite length_app; cbn; lia)).
    cbn [option_list] in IH. rewrite length_app, Nat.add_1_r in IH.
    unfold with_head, with_buffer, store, current in IH. cbn [buffer mask head tail] in IH.
    rewrite last_snoc in IH. cbn [default from_option id] in IH.
    rewrite (drop_loop_head _ _ _ _ (head r)) in IH. unfold with_buffer. rewrite IH. cbn [mbind option_bind].
    by rewrite (drop_S _ _ _ Ev).
Qed.

(** A ring used by one call at a time is a bounded queue.  On a new ring of
    any accepted capacity, every sequence of [try_push] and [try_pop] calls
    gives the answers of a queue of that capacity ([Err(value)] exactly when it
    is full, [None] exactly when it is empty), never reads an uninitialised
    slot, and dropping the ring then drops exactly the values left in it. *)
Theorem ring_refines_queue capacity r ops :
  capacity < 2 ^ 64 → new_split capacity = Some r →
  let '(q, answers) := queue_ops capacity ops [] in
  ∃ r', ring_ops ops r = Some (r', answers) ∧ SpscRing_drop r' = Some q ∧ ring_len r' = Z.of_nat (length q).
Proof.
  intros Hlt Hnew. destruct (new_split_inv capacity r Hlt Hnew) as (bits & -> & H0).
  destruct (ring_ops_refine bits ops r []) as (r' & Hr & Hq).
  { exists 0%nat, 0%nat, [], []. split; [exact H0|done]. }
  destruct (queue_ops (2 ^ bits) ops []) as [q answers]. exists r'. split; [done|].
  destruct Hq as (pv & cv & ps & qs & Hinv & Hq). cbn [fst] in Hq. subst q. split.
  - unfold SpscRing_drop. eapply drop_loop_spec; [exact Hinv|]. destruct (cap_bounds bits) as [Hc1 Hc2]; [apply Hinv|].
    unfold idle in Hinv. ring_inv_intro Hinv. unfold capacity. lia.
  - destruct (cap_bounds bits) as [Hc1 Hc2]; [apply Hinv|]. unfold idle in Hinv. ring_inv_intro Hinv.
    unfold ring_len. rewrite Hh, Ht, !counters_current, wrapping_sub_counters, length_drop by lia. lia.
Qed.

End ring.

Arguments RingOp : clear implicits.

(** A stale view: the producer fills a ring of two and finds it full although the
    consumer has already popped; the value is handed back, not lost. *)
Definition demo_ring : SpscRing (T := Z) := mkRing [None; None] 1 [0] [0].

Lemma ring_fifo_under_interleaving_witness :
  new_split (T := Z) 2 = Some demo_ring ∧
  rtc ring_step (start demo_ring)
    (mkConfig (mkRing [Some 7; None] 1 [0] [0; 1]) PIdle (CRead 0) 0 1 [7] []) ∧
  ∃ v, [7] !! 0%nat = Some v ∧ ([Some 7; None] : list (option Z)) !! 0%nat = Some (Some v).
Proof.
  assert (Hp : rtc ring_step (start demo_ring)
    (mkConfig (mkRing [Some 7; None] 1 [0] [0; 1]) PIdle (CRead 0) 0 1 [7] [])).
  { eapply rtc_l; [apply (step_push_begin 7)|]. eapply rtc_l; [apply (step_push_room _ _ _ _ _ _ _ _ 0 0); [lia|done|done]|].
    eapply rtc_l; [apply step_push_write|]. eapply rtc_l; [apply step_push_publish|].
    eapply rtc_l; [apply step_pop_begin|]. apply rtc_once.
    apply (step_pop_some _ _ _ _ _ _ _ 1 1); [lia|done|done]. }
  split_and!; [done|done|].
  destruct (ring_fifo_under_interleaving 2 demo_ring _ ltac:(lia) eq_refl Hp) as (_ & _ & _ & _ & Hr & _).
  exact (Hr 0 eq_refl).
Defined.

Definition demo_ring_ops : list (RingOp Z) := [OpPush 1; OpPush 2; OpPush 3; OpPop; OpPush 4; OpPop; OpPop; OpPop; OpPush 5].

Lemma ring_refines_queue_witness :
  ∃ r', ring_ops demo_ring_ops demo_ring
    = Some (r', [inl (Ok ()); inl (Ok ()); inl (Err 3); inr (Some 1); inl (Ok ()); inr (Some 2); inr (Some 4); inr None; inl (Ok ())])
    ∧ SpscRing_drop r' = Some [5] ∧ ring_len r' = 1.
Proof. exact (ring_refines_queue 2 demo_ring demo_ring_ops ltac:(lia) eq_refl). Defined.

End Ring.

(** ** The buffer pool *)

Module Pool.

Record PoolStats := mkPoolStats { acquires : Z; hits : Z; releases : Z; allocations : Z }.

Record PacketPool := mkPool { pool_mtu : nat; free : list PacketBuf; stats : PoolStats }.

Definition fetch_add (c : Z) : Z := wrapping_add 64 c 1.

Definition PacketPool_new (mtu prefill : nat) : PacketPool :=
  mkPool mtu (replicate prefill (PacketBuf_new mtu)) (mkPoolStats 0 0 0 (Nat.iter prefill fetch_add 0)).

(** [Vec::pop] takes from the end, [Vec::push] appends there. *)
Definition acquire (p : PacketPool) : PacketPool * PacketBuf :=
  let s := stats p in
  let acq := fetch_add (acquires s) in
  match last (free p) with
  | Some buf =>
      (mkPool (pool_mtu p) (removelast (free p)) (mkPoolStats acq (fetch_add (hits s)) (releases s) (allocations s)),
       PacketBuf_reset buf)
  | None =>
      (mkPool (pool_mtu p) (free p) (mkPoolStats acq (hits s) (releases s) (fetch_add (allocations s))),
       PacketBuf_new (pool_mtu p))
  end.

Definition release (buf : PacketBuf) (p : PacketPool) : PacketPool :=
  let s := stats p in
  mkPool (pool_mtu p) (free p ++ [PacketBuf_reset buf])
    (mkPoolStats (acquires s) (hits s) (fetch_add (releases s)) (allocations s)).

Definition pool_idle (p : PacketPool) : nat := length (free p).

(** A client that acquires buffers, fills them and gives them back: filling is any
    change that keeps the size of the boxed slice. *)
Inductive pool_step : PacketPool * list PacketBuf → PacketPool * list PacketBuf → Prop :=
| pool_acquire p held p' buf : acquire p = (p', buf) → pool_step (p, held) (p', held ++ [buf])
| pool_fill p held i old b :
    held !! i = Some old → PacketBuf_capacity b = PacketBuf_capacity old →
    pool_step (p, held) (p, <[i := b]> held)
| pool_release p held i b :
    held !! i = Some b → pool_step (p, held) (release b p, delete i held).

Definition sized (mtu : nat) (b : PacketBuf) : Prop := PacketBuf_capacity b = PacketBuf_capacity (PacketBuf_new mtu).
Definition fresh (b : PacketBuf) : Prop := pb_len b = 0%nat.

(** The counters are the exact counts [A], [H], [R], [L] modulo [2^64]. *)
Definition counts (s : PoolStats) (A H R L : nat) : Prop :=
  s = mkPoolStats (wrap 64 (Z.of_nat A)) (wrap 64 (Z.of_nat H)) (wrap 64 (Z.of_nat R)) (wrap 64 (Z.of_nat L)).

Definition pool_inv (mtu prefill : nat) (s : PacketPool * list PacketBuf) : Prop :=
  let '(p, held) := s in
  pool_mtu p = mtu ∧ Forall (sized mtu) (free p) ∧ Forall (sized mtu) held ∧ Forall fresh (free p) ∧
  ∃ A H R L, counts (stats p) A H R L ∧
    L = (pool_idle p + length held)%nat ∧ (A + prefill = H + L)%nat ∧ A = (R + length held)%nat.

Lemma last_removelast {A} (l : list A) x : last l = Some x → l = removelast l ++ [x].
Proof.
  intros H. apply last_Some in H as [l' ->]. by rewrite removelast_last.
Qed.

Lemma acquire_spec mtu p p' buf :
  pool_mtu p = mtu → Forall (sized mtu) (free p) → acquire p = (p', buf) →
  sized mtu buf ∧ fresh buf ∧ pool_mtu p' = mtu ∧
  ((∃ old, free p = free p' ++ [old] ∧ buf = PacketBuf_reset old) ∧
   stats p' = mkPoolStats (fetch_add (acquires (stats p))) (fetch_add (hits (stats p))) (releases (stats p)) (allocations (stats p))
   ∨ free p = [] ∧ free p' = [] ∧
   stats p' = mkPoolStats (fetch_add (acquires (stats p))) (hits (stats p)) (releases (stats p)) (fetch_add (allocations (stats p)))).
Proof.
  intros Hm Hs. unfold acquire. destruct (last (free p)) as [b|] eqn:E; intros [= <- <-].
  - apply last_removelast in E. assert (sized mtu b) as Hb.
    { rewrite E in Hs. apply Forall_app in Hs as [_ Hs]. by apply Forall_cons in Hs as [? _]. }
    split_and!; [exact Hb|done|done|]. left. split; [|done]. exists b. done.
  - apply last_None in E. split_and!; [by rewrite <- Hm|done|done|]. right. cbn. by rewrite E.
Qed.

Lemma pool_step_inv mtu prefill s s' : pool_inv mtu prefill s → pool_step s s' → pool_inv mtu prefill s'.
Proof.
  intros H Hstep. destruct Hstep as [p held p' buf E|p held i old b Hi Hc|p held i b Hi].
  - destruct H as (Hm & Hf & Hh & Hfresh & A & Hn & R & L & Hc & H1 & H2 & H3).
    destruct (acquire_spec mtu p p' buf Hm Hf E) as (B1 & B2 & B3 & B4).
    unfold counts, pool_idle, fetch_add in *. rewrite Hc in B4. cbn [acquires hits releases allocations] in B4.
    rewrite !Ring.wrap_succ in B4.
    assert (Forall (sized mtu) (held ++ [buf])) by (apply Forall_app; split; [done|by constructor]).
    destruct B4 as [[(x & Hx & _) Hst]|(Hfree & Hfree' & Hst)].
    + rewrite Hx, Forall_app in Hf, Hfresh. rewrite Hx, length_app in H1. cbn [length] in H1.
      split_and!; [done|apply Hf|done|apply Hfresh|].
      exists (S A), (S Hn), R, L. unfold counts, pool_idle. rewrite length_app. cbn [length]. split_and!; [done|lia|lia|lia].
    + rewrite Hfree in *. cbn [length] in *. unfold pool_inv. rewrite Hfree'. split_and!; try done.
      exists (S A), Hn, R, (S L). unfold counts, pool_idle. rewrite length_app, Hfree'. cbn [length].
      split_and!; [done|lia|lia|lia].
  - destruct H as (Hm & Hf & Hh & Hfresh & Hrest). split_and!; [done|done| |done|by rewrite length_insert].
    apply Forall_insert; [done|]. unfold sized in *. rewrite Hc. exact (Forall_lookup_1 _ _ _ _ Hh Hi).
  - destruct H as (Hm & Hf & Hh & Hfresh & A & Hn & R & L & Hc & H1 & H2 & H3).
    assert (sized mtu b) by exact (Forall_lookup_1 _ _ _ _ Hh Hi).
    pose proof (length_delete held i (mk_is_Some _ _ Hi)) as Hlen. apply lookup_lt_Some in Hi.
    split_and!; cbn [release pool_mtu free stats].
    + done.
    + apply Forall_app. split; [done|]. by constructor.
    + by apply Forall_delete.
    + apply Forall_app. split; [done|]. by constructor.
    + exists A, Hn, (S R), L. unfold counts, pool_idle in *. cbn [free stats release]. rewrite Hc. cbn [acquires hits releases allocations].
      unfold fetch_add. rewrite Ring.wrap_succ, length_app. cbn [length]. split_and!; [done|lia|lia|lia].
Qed.

Lemma pool_new_inv mtu prefill : pool_inv mtu prefill (PacketPool_new mtu prefill, []).
Proof.
  split_and!; cbn [PacketPool_new pool_mtu free stats].
  - done.
  - by apply Forall_replicate.
  - constructor.
  - by apply Forall_replicate.
  - exists 0%nat, 0%nat, 0%nat, prefill. unfold counts, pool_idle. cbn [PacketPool_new free stats length].
    rewrite length_replicate. split_and!; [|lia|lia|lia]. f_equal.
    induction prefill as [|n IH]; [done|]. change (Nat.iter (S n) fetch_add 0) with (fetch_add (Nat.iter n fetch_add 0)). rewrite IH. apply Ring.wrap_succ.
Qed.

(** The pool neither loses nor duplicates buffers.  Whatever a client does with
    the buffers it holds, every buffer ever allocated is idle or held; the
    allocation counter is their number, [acquires] is [hits] plus the
    allocations beyond the prefill and [releases] plus the buffers held (all
    modulo [2^64], the width of the counters); and a buffer handed out is empty
    and of the size for the pool's MTU. *)
Theorem pool_accounting mtu prefill p held :
  rtc pool_step (PacketPool_new mtu prefill, []) (p, held) →
  (∃ A H R L, counts (stats p) A H R L ∧
     L = (pool_idle p + length held)%nat ∧ (A + prefill = H + L)%nat ∧ A = (R + length held)%nat) ∧
  (∀ p' buf, acquire p = (p', buf) →
     pb_len buf = 0%nat ∧ PacketBuf_capacity buf = PacketBuf_capacity (PacketBuf_new mtu)).
Proof.
  intros Hr. assert (H : pool_inv mtu prefill (p, held)).
  { pose proof (pool_new_inv mtu prefill) as H0. revert H0.
    generalize dependent (PacketPool_new mtu prefill, @nil PacketBuf). intros s0 Hr H0.
    remember (p, held) as s1. clear Heqs1. induction Hr; eauto using pool_step_inv. }
  destruct H as (Hm & Hf & _ & _ & Hc). split; [done|]. intros p' buf E.
  destruct (acquire_spec mtu p p' buf Hm Hf E) as (H1 & H2 & _). done.
Qed.

Lemma pool_accounting_witness :
  let '(p, b) := acquire (PacketPool_new 4 0) in
  pb_len (acquire (release (mkPacketBuf (pb_data b) 9) p)).2 = 0%nat.
Proof.
  set (p0 := PacketPool_new 4 0). destruct (acquire p0) as [p b] eqn:E.
  set (b' := mkPacketBuf (pb_data b) 9).
  assert (Hr : rtc pool_step (p0, []) (release b' p, [])).
  { eapply rtc_l; [apply (pool_acquire _ _ _ _ E)|].
    eapply rtc_l; [apply (pool_fill p [b] 0 b b'); done|]. apply rtc_once. apply (pool_release p [b'] 0 b'). done. }
  destruct (acquire (release b' p)) as [p2 b2] eqn:E2.
  exact (proj1 (proj2 (pool_accounting 4 0 _ _ Hr) p2 b2 E2)).
Defined.

End Pool.
