(* ===== verification/Reactor.v ===== *)
(** * Readiness reactors

    [crates/desmos-rt/src]: the event types of [event.rs], the [Reactor] trait of
    [reactor.rs] as a class, and its implementations on epoll ([linux/reactor.rs]) and
    kqueue ([bsd/reactor.rs]).  The kernels are interfaces with the documented laws of
    their calls.  The contract of the trait is a simulation relation with an abstract
    machine, the map of the watched sources; both implementations are proved to be
    instances of it, and clients are proved against it. *)

From stdpp Require Import base gmap numbers strings list.
From Stdlib Require Import ZArith Lia.
From S2P Require Import Prelude Str Wire Crypto Session Pipeline.

(** ** [event.rs] *)

(** A [Token] is its [u64]; an [Interest] its [u8]; a [RawSource] is a descriptor. *)
Abbreviation Token := Z.
Abbreviation RawSource := Z.
Abbreviation Interest := Z.

Inductive Tag := TagUdp | TagTun | TagTimer | TagSignal | TagOther.
Definition Tag_as_u8 (t : Tag) : Z :=
  match t with TagUdp => 0 | TagTun => 1 | TagTimer => 2 | TagSignal => 3 | TagOther => 255 end.

Definition EMPTY : Interest := 0.
Definition READABLE : Interest := Z.shiftl 1 0.
Definition WRITABLE : Interest := Z.shiftl 1 1.

Definition Interest_contains (i other : Interest) : bool := Z.land i other =? other.
Definition is_readable (i : Interest) : bool := Interest_contains i READABLE.
Definition is_writable (i : Interest) : bool := Interest_contains i WRITABLE.

Record Event := mkEvent { ev_token : Token; ev_readiness : Interest }.

(** [std::time::Duration]. *)
Record Duration := mkDuration { d_secs : Z; d_nanos : Z }.
Definition as_millis (d : Duration) : Z := d_secs d * 1000 + d_nanos d / 1000000.

(** ** The trait *)

(** [poll] fills the vector it is given. *)
Class Reactor (R : Type) := {
  register : R → RawSource → Token → Interest → R * result () IoError;
  reregister : R → RawSource → Token → Interest → R * result () IoError;
  deregister : R → RawSource → R * result () IoError;
  poll : R → list Event → option Duration → R * list Event * result nat IoError;
}.

(** [as i64] of a [u64]. *)
Definition as_i64 (x : Z) : Z := if x <? 2 ^ 63 then x else x - 2 ^ 64.

(** [EINTR], which [std] reports as [Interrupted]. *)
Definition EINTR : IoError := OsError 4.
Definition is_interrupted (e : IoError) : bool := match e with OsError 4 => true | _ => false end.

(** ** [linux/reactor.rs] *)

Definition EPOLLIN : Z := 0x001.
Definition EPOLLOUT : Z := 0x004.
Definition EPOLLERR : Z := 0x008.
Definition EPOLLHUP : Z := 0x010.
Definition EPOLLRDHUP : Z := 0x2000.

Inductive EpollOp := EPOLL_CTL_ADD | EPOLL_CTL_DEL | EPOLL_CTL_MOD.

Record EpollEvent := mkEpollEvent { ee_events : Z; ee_data : Z }.

Definition interest_to_epoll_mask (i : Interest) : Z :=
  let m := if is_readable i then Z.lor 0 (Z.lor EPOLLIN EPOLLRDHUP) else 0 in
  if is_writable i then Z.lor m EPOLLOUT else m.

Definition epoll_mask_to_interest (mask : Z) : Interest :=
  let i := if negb (Z.land mask (Z.lor EPOLLIN EPOLLRDHUP) =? 0) then Z.lor EMPTY READABLE else EMPTY in
  let i := if negb (Z.land mask EPOLLOUT =? 0) then Z.lor i WRITABLE else i in
  if negb (Z.land mask (Z.lor EPOLLERR EPOLLHUP) =? 0) then Z.lor i READABLE else i.

(** The epoll calls on an instance. *)
Class EpollKernel := {
  ep_state : Type;
  epoll_ctl : ep_state → EpollOp → RawSource → EpollEvent → ep_state * result () IoError;
  epoll_wait : ep_state → Z → Z → ep_state * result (list EpollEvent) IoError;
}.

(** The capacity of a vector after [reserve(64)] where it is below 64. *)
Definition reserve_64 (len cap : Z) : Z := if cap <? 64 then Z.max cap (len + 64) else cap.

Section Epoll.
  Context {EK : EpollKernel}.

Record EpollReactor := mkEpoll { er_epfd : ep_state; er_len : Z; er_cap : Z }.

Definition ctl (self : EpollReactor) (op : EpollOp) (fd : RawSource) (token : Token) (interest : Interest)
    : EpollReactor * result () IoError :=
  let '(k, r) := epoll_ctl (er_epfd self) op fd (mkEpollEvent (interest_to_epoll_mask interest) token) in
  (mkEpoll k (er_len self) (er_cap self), r).

Definition epoll_deregister (self : EpollReactor) (source : RawSource) : EpollReactor * result () IoError :=
  let '(k, r) := epoll_ctl (er_epfd self) EPOLL_CTL_DEL source (mkEpollEvent 0 0) in
  (mkEpoll k (er_len self) (er_cap self), r).

Definition epoll_timeout (timeout : option Duration) : Z :=
  match timeout with None => -1 | Some d => Z.min (as_millis d) (2 ^ 31 - 1) end.

Definition epoll_poll (self : EpollReactor) (events : list Event) (timeout : option Duration)
    : EpollReactor * list Event * result nat IoError :=
  let cap := reserve_64 (er_len self) (er_cap self) in
  match epoll_wait (er_epfd self) cap (epoll_timeout timeout) with
  | (k, Err e) => (mkEpoll k (er_len self) cap, events, if is_interrupted e then Ok 0%nat else Err e)
  | (k, Ok buf) =>
      let events := (fun ev => mkEvent (ee_data ev) (epoll_mask_to_interest (ee_events ev))) <$> buf in
      (mkEpoll k (Z.of_nat (length buf)) cap, events, Ok (length events))
  end.

#[export] Instance EpollReactor_Reactor : Reactor EpollReactor := {
  register self := ctl self EPOLL_CTL_ADD;
  reregister self := ctl self EPOLL_CTL_MOD;
  deregister := epoll_deregister;
  poll := epoll_poll;
}.

End Epoll.

Arguments EpollReactor {EK}.

(** ** [bsd/reactor.rs] *)

Definition EVFILT_READ : Z := -1.
Definition EVFILT_WRITE : Z := -2.
Definition EV_ADD : Z := 0x0001.
Definition EV_DELETE : Z := 0x0002.
Definition EV_ENABLE : Z := 0x0004.
Definition EV_EOF : Z := 0x8000.
Definition EV_ERROR : Z := 0x4000.

Record Kevent := mkKevent {
  ke_ident : Z; ke_filter : Z; ke_flags : Z; ke_fflags : Z; ke_data : Z; ke_udata : Z }.
Definition Kevent_new (ident filter flags : Z) (token : Token) : Kevent := mkKevent ident filter flags 0 0 token.

Definition kevent_to_interest (ev : Kevent) : Interest :=
  let i := if ke_filter ev =? EVFILT_READ then Z.lor EMPTY READABLE
           else if ke_filter ev =? EVFILT_WRITE then Z.lor EMPTY WRITABLE else EMPTY in
  if negb (Z.land (ke_flags ev) EV_EOF =? 0) then Z.lor i READABLE else i.

(** [kevent] with a changelist, or with an event list and a timeout. *)
Class KqueueKernel := {
  kq_state : Type;
  kevent_change : kq_state → list Kevent → kq_state * result () IoError;
  kevent_wait : kq_state → Z → option (Z * Z) → kq_state * result (list Kevent) IoError;
}.

(** [iter_mut().find(|e| e.token == token)] and the update or the push. *)
Fixpoint coalesce (token : Token) (readiness : Interest) (events : list Event) : list Event :=
  match events with
  | [] => [mkEvent token readiness]
  | e :: events =>
      if ev_token e =? token then mkEvent (ev_token e) (Z.lor (ev_readiness e) readiness) :: events
      else e :: coalesce token readiness events
  end.

(** The loop over the event buffer. *)
Fixpoint collect_kevents (buf : list Kevent) (events : list Event) : list Event :=
  match buf with
  | [] => events
  | ev :: buf =>
      if negb (Z.land (ke_flags ev) EV_ERROR =? 0) then collect_kevents buf events
      else collect_kevents buf (coalesce (ke_udata ev) (kevent_to_interest ev) events)
  end.

Section Kqueue.
  Context {KK : KqueueKernel}.

Record KqueueReactor := mkKqueue { kr_kqfd : kq_state; kr_len : Z; kr_cap : Z; kr_registered : gmap RawSource Interest }.

Definition submit_changes (self : KqueueReactor) (changes : list Kevent) : KqueueReactor * result () IoError :=
  let '(k, r) := kevent_change (kr_kqfd self) changes in
  (mkKqueue k (kr_len self) (kr_cap self) (kr_registered self), r).

(** The changelist of [apply_interest]. *)
Definition interest_changes (source : RawSource) (token : Token) (old new : Interest) : list Kevent :=
  (if is_readable new then [Kevent_new source EVFILT_READ (Z.lor EV_ADD EV_ENABLE) token] else [])
  ++ (if is_writable new then [Kevent_new source EVFILT_WRITE (Z.lor EV_ADD EV_ENABLE) token] else [])
  ++ (if is_readable old && negb (is_readable new) then [Kevent_new source EVFILT_READ EV_DELETE 0] else [])
  ++ (if is_writable old && negb (is_writable new) then [Kevent_new source EVFILT_WRITE EV_DELETE 0] else []).

(** [if n > 0 { self.submit_changes(&changes[..n])? }]. *)
Definition submit_if_any (self : KqueueReactor) (changes : list Kevent) : KqueueReactor * result () IoError :=
  match changes with [] => (self, Ok ()) | _ => submit_changes self changes end.

Definition apply_interest (self : KqueueReactor) (source : RawSource) (token : Token) (old new : Interest)
    : KqueueReactor * result () IoError := submit_if_any self (interest_changes source token old new).

Definition set_registered (m : gmap RawSource Interest) (self : KqueueReactor) : KqueueReactor :=
  mkKqueue (kr_kqfd self) (kr_len self) (kr_cap self) m.

Definition kqueue_apply (self : KqueueReactor) (source : RawSource) (token : Token) (old interest : Interest)
    : KqueueReactor * result () IoError :=
  match apply_interest self source token old interest with
  | (self, Err e) => (self, Err e)
  | (self, Ok _) => (set_registered (<[source := interest]> (kr_registered self)) self, Ok ())
  end.

Definition kqueue_register (self : KqueueReactor) (source : RawSource) (token : Token) (interest : Interest)
    : KqueueReactor * result () IoError := kqueue_apply self source token EMPTY interest.

Definition kqueue_reregister (self : KqueueReactor) (source : RawSource) (token : Token) (interest : Interest)
    : KqueueReactor * result () IoError :=
  kqueue_apply self source token (default EMPTY (kr_registered self !! source)) interest.

Definition kqueue_deregister (self : KqueueReactor) (source : RawSource) : KqueueReactor * result () IoError :=
  let old := default EMPTY (kr_registered self !! source) in
  submit_if_any (set_registered (delete source (kr_registered self)) self)
    ((if is_readable old then [Kevent_new source EVFILT_READ EV_DELETE 0] else [])
     ++ (if is_writable old then [Kevent_new source EVFILT_WRITE EV_DELETE 0] else [])).

Definition kqueue_poll (self : KqueueReactor) (events : list Event) (timeout : option Duration)
    : KqueueReactor * list Event * result nat IoError :=
  let cap := reserve_64 (kr_len self) (kr_cap self) in
  match kevent_wait (kr_kqfd self) cap ((fun d => (as_i64 (d_secs d), d_nanos d)) <$> timeout) with
  | (k, Err e) => (mkKqueue k (kr_len self) cap (kr_registered self), events, if is_interrupted e then Ok 0%nat else Err e)
  | (k, Ok buf) =>
      let events := collect_kevents buf [] in
      (mkKqueue k (Z.of_nat (length buf)) cap (kr_registered self), events, Ok (length events))
  end.

#[export] Instance KqueueReactor_Reactor : Reactor KqueueReactor := {
  register := kqueue_register;
  reregister := kqueue_reregister;
  deregister := kqueue_deregister;
  poll := kqueue_poll;
}.

End Kqueue.

Arguments KqueueReactor {KK}.

(** ** The contract of a reactor *)

(** What the descriptors of a process are ready for. *)
Record FdLevel := mkFdLevel { lv_readable : bool; lv_writable : bool; lv_hangup : bool }.

(** The abstract reactor: each watched source with its token and interest. *)
Abbreviation Watched := (gmap RawSource (Token * Interest)).

(** No token is used for two sources. *)
Definition tokens_distinct (m : Watched) : Prop :=
  ∀ s s' t i i', m !! s = Some (t, i) → m !! s' = Some (t, i') → s = s'.

(** A readiness that may be reported for a source: what it is ready for and watched
    for; a hangup counts as readable, and as writable where that is watched. *)
Definition may_report (l : FdLevel) (i r : Interest) : Prop :=
  (is_readable r = true → lv_readable l = true ∧ is_readable i = true ∨ lv_hangup l = true) ∧
  (is_writable r = true → is_writable i = true ∧ (lv_writable l = true ∨ lv_hangup l = true)).

(** A readiness that covers everything a source is ready for and watched for. *)
Definition covers (l : FdLevel) (i r : Interest) : Prop :=
  (lv_readable l = true → is_readable i = true → is_readable r = true) ∧
  (lv_writable l = true → is_writable i = true → is_writable r = true).

Definition wanted (l : FdLevel) (i : Interest) : bool :=
  (lv_readable l && is_readable i) || (lv_writable l && is_writable i).

(** What a poll may answer: at most one event per token, each justified by a watched
    source; a complete answer covers every watched source that is ready. *)
Record poll_answer (m : Watched) (lv : RawSource → FdLevel) (complete : Prop) (evs : list Event) : Prop := {
  pa_once : NoDup (ev_token <$> evs);
  pa_sound : ∀ e, e ∈ evs → ∃ s i, m !! s = Some (ev_token e, i) ∧ may_report (lv s) i (ev_readiness e);
  pa_complete : complete → ∀ s t i, m !! s = Some (t, i) → wanted (lv s) i = true →
    ∃ e, e ∈ evs ∧ ev_token e = t ∧ covers (lv s) i (ev_readiness e);
}.

(** The laws of the trait: [rc_implements r m] relates a reactor to the abstract one, and
    [rc_waited r timeout] says that the kernel's wait inside that poll returned events
    and not an error (an interruption is one).  A poll whose wait returned succeeds and
    answers for the levels at its return, completely where it returned fewer than 32
    events (the buffers hold 64 entries, and a source takes up to two); an interrupted
    one reports nothing. *)
Class ReactorLaws (R : Type) `{Reactor R} := {
  rc_implements : R → Watched → Prop;
  rc_level : R → RawSource → FdLevel;
  rc_waited : R → option Duration → bool;
  register_law : ∀ r m s t i r', rc_implements r m → m !! s = None → register r s t i = (r', Ok ()) →
    rc_implements r' (<[s := (t, i)]> m);
  reregister_law : ∀ r m s t i r', rc_implements r m → is_Some (m !! s) → reregister r s t i = (r', Ok ()) →
    rc_implements r' (<[s := (t, i)]> m);
  deregister_law : ∀ r m s r', rc_implements r m → is_Some (m !! s) → deregister r s = (r', Ok ()) →
    rc_implements r' (delete s m);
  poll_law : ∀ r m timeout r' evs n, rc_implements r m → tokens_distinct m → poll r [] timeout = (r', evs, Ok n) →
    rc_implements r' m ∧ n = length evs ∧
    poll_answer m (rc_level r') (rc_waited r timeout = true ∧ (n < 32)%nat) evs ∧
    (rc_waited r timeout = false → evs = []);
  poll_ok_law : ∀ r timeout, rc_waited r timeout = true → ∃ r' evs n, poll r [] timeout = (r', evs, Ok n);
  poll_err_law : ∀ r m timeout r' evs e, rc_implements r m → poll r [] timeout = (r', evs, Err e) →
    rc_implements r' m;
}.

(** ** The kernels *)

(** The three conditions of an epoll mask. *)
Definition mask_level (mask : Z) : FdLevel :=
  mkFdLevel (negb (Z.land mask (Z.lor EPOLLIN EPOLLRDHUP) =? 0)) (negb (Z.land mask EPOLLOUT =? 0))
    (negb (Z.land mask (Z.lor EPOLLERR EPOLLHUP) =? 0)).

(** epoll(7): an instance is a map from descriptors to the events asked for, changed
    only by a successful [epoll_ctl]; a wait returns, level-triggered, for distinct
    descriptors of the map, the conditions that hold and were asked for (error and
    hangup always), and all of them when there is room. *)
Class EpollLaws (EK : EpollKernel) := {
  ep_list : ep_state → gmap RawSource EpollEvent;
  ep_ready : ep_state → RawSource → Z;
  ctl_add : ∀ k fd ev k', epoll_ctl k EPOLL_CTL_ADD fd ev = (k', Ok ()) → ep_list k' = <[fd := ev]> (ep_list k);
  ctl_mod : ∀ k fd ev k', epoll_ctl k EPOLL_CTL_MOD fd ev = (k', Ok ()) → ep_list k' = <[fd := ev]> (ep_list k);
  ctl_del : ∀ k fd ev k', epoll_ctl k EPOLL_CTL_DEL fd ev = (k', Ok ()) → ep_list k' = delete fd (ep_list k);
  ctl_err : ∀ k op fd ev k' e, epoll_ctl k op fd ev = (k', Err e) → ep_list k' = ep_list k;
  wait_keeps : ∀ k max t k' r, epoll_wait k max t = (k', r) → ep_list k' = ep_list k;
  wait_ok : ∀ k max t k' evs, epoll_wait k max t = (k', Ok evs) →
    ∃ fds, NoDup fds ∧
      Forall2 (fun fd ev => ∃ reg, ep_list k !! fd = Some reg ∧ ee_data ev = ee_data reg ∧
        ee_events ev = Z.land (ep_ready k' fd) (Z.lor (ee_events reg) (Z.lor EPOLLERR EPOLLHUP))) fds evs ∧
      (Z.of_nat (length evs) < max → ∀ fd reg, ep_list k !! fd = Some reg →
        Z.land (ep_ready k' fd) (Z.lor (ee_events reg) (Z.lor EPOLLERR EPOLLHUP)) ≠ 0 → fd ∈ fds);
}.

(** One change of a changelist, on the filters of a queue. *)
Definition apply_change (m : gmap (Z * Z) Z) (c : Kevent) : gmap (Z * Z) Z :=
  if negb (Z.land (ke_flags c) EV_ADD =? 0) then <[(ke_ident c, ke_filter c) := ke_udata c]> m
  else if negb (Z.land (ke_flags c) EV_DELETE =? 0) then delete (ke_ident c, ke_filter c) m else m.

(** Whether a filter of a descriptor fires. *)
Definition filter_fires (l : FdLevel) (filter : Z) : bool :=
  lv_hangup l || (if filter =? EVFILT_READ then lv_readable l else lv_writable l).

(** kqueue(2): a queue is a map from (descriptor, filter) to the user data; a changelist
    is applied in order, and without an event list the first change that fails ends it,
    with those before it applied; a wait returns distinct filters that fire, with
    [EV_EOF] on a hangup, and all of them when there is room. *)
Class KqueueLaws (KK : KqueueKernel) := {
  kq_filters : kq_state → gmap (Z * Z) Z;
  kq_level : kq_state → RawSource → FdLevel;
  change_ok : ∀ k cs k', kevent_change k cs = (k', Ok ()) → kq_filters k' = foldl apply_change (kq_filters k) cs;
  change_err : ∀ k cs k' e, kevent_change k cs = (k', Err e) →
    ∃ n, (n < length cs)%nat ∧ kq_filters k' = foldl apply_change (kq_filters k) (take n cs);
  kwait_keeps : ∀ k max t k' r, kevent_wait k max t = (k', r) → kq_filters k' = kq_filters k;
  kwait_ok : ∀ k max t k' evs, kevent_wait k max t = (k', Ok evs) →
    ∃ keys, NoDup keys ∧
      Forall2 (fun key ev => kq_filters k !! key = Some (ke_udata ev) ∧ ke_filter ev = key.2 ∧
        negb (Z.land (ke_flags ev) EV_EOF =? 0) = lv_hangup (kq_level k' key.1) ∧ Z.land (ke_flags ev) EV_ERROR = 0 ∧
        filter_fires (kq_level k' key.1) key.2 = true) keys evs ∧
      (Z.of_nat (length evs) < max → ∀ key u, kq_filters k !! key = Some u →
        filter_fires (kq_level k' key.1) key.2 = true → key ∈ keys);
}.

(** ** Lemmas *)

Lemma land_pow2 x n : 0 <= n → (Z.land x (2 ^ n) =? 2 ^ n) = Z.testbit x n.
Proof.
  intros Hn. destruct (Z.testbit x n) eqn:E.
  - apply Z.eqb_eq, Z.bits_inj'. intros m Hm. rewrite Z.land_spec, Z.pow2_bits_eqb by done.
    destruct (Z.eqb_spec n m) as [<-|]; [by rewrite E|by rewrite andb_false_r].
  - apply Z.eqb_neq. intros Hx. assert (Z.testbit (Z.land x (2 ^ n)) n = true) as Ht by (by rewrite Hx, Z.pow2_bits_true).
    rewrite Z.land_spec, E in Ht. done.
Qed.

Lemma is_readable_bit i : is_readable i = Z.testbit i 0.
Proof. by apply (land_pow2 i 0). Qed.
Lemma is_writable_bit i : is_writable i = Z.testbit i 1.
Proof. by apply (land_pow2 i 1). Qed.

(** *** epoll *)

(** A mask the kernel reports for an interest, read back. *)
Lemma epoll_reported L i :
  let r := epoll_mask_to_interest (Z.land L (Z.lor (interest_to_epoll_mask i) (Z.lor EPOLLERR EPOLLHUP))) in
  is_readable r = (lv_readable (mask_level L) && is_readable i) || lv_hangup (mask_level L) ∧
  is_writable r = lv_writable (mask_level L) && is_writable i.
Proof.
  cbn zeta. unfold epoll_mask_to_interest. rewrite <-!Z.land_assoc. unfold interest_to_epoll_mask, mask_level.
  cbn [lv_readable lv_writable lv_hangup]. destruct (is_readable i), (is_writable i);
    repeat match goal with |- context [Z.land L ?m] => progress let v := eval vm_compute in m in change m with v end;
    rewrite ?Z.land_0_r; destruct (Z.land L 8193 =? 0), (Z.land L 4 =? 0), (Z.land L 24 =? 0); done.
Qed.

Lemma Forall2_NoDup {A B C} (P : A → B → Prop) (f : B → C) l k :
  (∀ a a' b b', P a b → P a' b' → f b = f b' → a = a') → NoDup l → Forall2 P l k → NoDup (f <$> k).
Proof.
  intros Hinj Hnd HF. induction HF as [|a b l k Hab HF IH]; [constructor|].
  apply NoDup_cons in Hnd as [Ha Hnd]. rewrite fmap_cons. constructor; [|by apply IH].
  intros (b' & Eb & Hb')%list_elem_of_fmap. apply list_elem_of_lookup in Hb' as [j Hj].
  destruct (Forall2_lookup_r _ _ _ _ _ HF Hj) as (a' & Ha' & Hab'). apply Ha. rewrite (Hinj _ _ _ _ Hab Hab' Eb).
  by eapply list_elem_of_lookup_2.
Qed.

Lemma reserve_64_ge len cap : 0 <= len → 64 <= reserve_64 len cap.
Proof. unfold reserve_64. destruct (Z.ltb_spec cap 64); lia. Qed.

Section EpollLemmas.
  Context {EK : EpollKernel} {EL : EpollLaws EK}.

Definition epoll_entry (ti : Token * Interest) : EpollEvent := mkEpollEvent (interest_to_epoll_mask ti.2) ti.1.

Definition epoll_implements (r : EpollReactor) (m : Watched) : Prop := ep_list (er_epfd r) = epoll_entry <$> m ∧ 0 <= er_len r.

Definition epoll_level (r : EpollReactor) (s : RawSource) : FdLevel := mask_level (ep_ready (er_epfd r) s).

Lemma ctl_set r m s t i op r' : epoll_implements r m → op ≠ EPOLL_CTL_DEL → ctl r op s t i = (r', Ok ()) →
  epoll_implements r' (<[s := (t, i)]> m).
Proof.
  intros [Hl Hn] Hop. unfold ctl. destruct (epoll_ctl _ _ _ _) as [k [[]|]] eqn:E; [|done]. intros [= <-].
  split; [|done]. cbn [er_epfd]. rewrite fmap_insert, <-Hl. destruct op; [by rewrite (ctl_add _ _ _ _ E)|done|by rewrite (ctl_mod _ _ _ _ E)].
Qed.

(** The [epoll_wait] of a poll returns events. *)
Definition epoll_waited (r : EpollReactor) (timeout : option Duration) : bool :=
  match (epoll_wait (er_epfd r) (reserve_64 (er_len r) (er_cap r)) (epoll_timeout timeout)).2 with Ok _ => true | Err _ => false end.

Lemma epoll_poll_answer r m timeout r' evs n : epoll_implements r m → tokens_distinct m →
  epoll_poll r [] timeout = (r', evs, Ok n) →
  epoll_implements r' m ∧ n = length evs ∧
  poll_answer m (epoll_level r') (epoll_waited r timeout = true ∧ (n < 32)%nat) evs ∧
  (epoll_waited r timeout = false → evs = []).
Proof.
  intros [Hl Hn] Hd. unfold epoll_poll, epoll_waited. destruct (epoll_wait _ _ _) as [k [buf|e]] eqn:E.
  2:{ destruct (is_interrupted e); [|done]. intros [= <- <- <-]. split; [split; [cbn; by rewrite (wait_keeps _ _ _ _ _ E)|done]|].
      split; [done|]. split; [|done]. split; [constructor|by intros e' []%not_elem_of_nil|by intros [? _]]. }
  intros [= <- <- <-]. split; [split; [cbn; by rewrite (wait_keeps _ _ _ _ _ E)|cbn; lia]|]. split; [done|]. split; [|done].
  destruct (wait_ok _ _ _ _ _ E) as (fds & Hnd & HF & Hall). rewrite Hl in HF, Hall.
  assert (HF' : Forall2 (fun fd ev => ∃ i, m !! fd = Some (ee_data ev, i) ∧
    ee_events ev = Z.land (ep_ready k fd) (Z.lor (interest_to_epoll_mask i) (Z.lor EPOLLERR EPOLLHUP))) fds buf).
  { eapply Forall2_impl; [exact HF|]. intros fd ev (reg & Hreg & Hdata & Hev). apply lookup_fmap_Some in Hreg as ([t i] & <- & Hm).
    exists i. by rewrite Hdata. }
  split.
  - rewrite <-list_fmap_compose. eapply Forall2_NoDup; [|exact Hnd|exact HF'].
    intros fd fd' ev ev' (i & Hi & _) (i' & Hi' & _) Et. cbn in Et. rewrite Et in Hi. by eapply Hd.
  - intros e (ev & -> & Hev)%list_elem_of_fmap. apply list_elem_of_lookup in Hev as [j Hj].
    destruct (Forall2_lookup_r _ _ _ _ _ HF' Hj) as (fd & _ & i & Hm & Hev). exists fd, i. split; [done|].
    cbn [ev_readiness]. rewrite Hev. unfold may_report, epoll_level. cbn [er_epfd].
    destruct (epoll_reported (ep_ready k fd) i) as [-> ->].
    destruct (lv_readable _), (lv_writable _), (lv_hangup _), (is_readable i), (is_writable i); naive_solver.
  - intros [_ Hlen] s t i Hm Hw. rewrite length_fmap in Hlen.
    assert (Hin : s ∈ fds).
    { apply (Hall ltac:(pose proof (reserve_64_ge (er_len r) (er_cap r) Hn); lia) s (epoll_entry (t, i))); [by rewrite lookup_fmap, Hm|].
      cbn [epoll_entry ee_events snd]. intros H0. destruct (epoll_reported (ep_ready k s) i) as [Hr Hwr]. rewrite H0 in Hr, Hwr.
      revert Hw Hr Hwr. unfold wanted, epoll_level. cbn [er_epfd].
      destruct (lv_readable _), (lv_writable _), (lv_hangup _), (is_readable i), (is_writable i); done. }
    apply list_elem_of_lookup in Hin as [j Hj]. destruct (Forall2_lookup_l _ _ _ _ _ HF' Hj) as (ev & Hev & i' & Hm' & He).
    rewrite Hm in Hm'. simplify_eq. eexists. split; [apply list_elem_of_fmap_2; by eapply list_elem_of_lookup_2|]. split; [done|].
    cbn [ev_readiness]. rewrite He. unfold covers, epoll_level. cbn [er_epfd].
    destruct (epoll_reported (ep_ready k s) i') as [-> ->].
    destruct (lv_readable _), (lv_writable _), (lv_hangup _), (is_readable i'), (is_writable i'); naive_solver.
Qed.

#[export] Instance EpollReactor_laws : ReactorLaws EpollReactor.
Proof.
  refine {| rc_implements := epoll_implements; rc_level := epoll_level; rc_waited := epoll_waited |}.
  - intros r m s t i r' Hi _ Hr. by apply (ctl_set r m s t i EPOLL_CTL_ADD).
  - intros r m s t i r' Hi _ Hr. by apply (ctl_set r m s t i EPOLL_CTL_MOD).
  - intros r m s r' [Hl Hn] _. cbn. unfold epoll_deregister. destruct (epoll_ctl _ _ _ _) as [k [[]|]] eqn:E; [|done]. intros [= <-].
    split; [|done]. cbn [er_epfd]. by rewrite fmap_delete, <-Hl, (ctl_del _ _ _ _ E).
  - intros r m timeout r' evs n Hi Hd. by apply epoll_poll_answer.
  - intros r timeout. cbn. unfold epoll_waited, epoll_poll. destruct (epoll_wait _ _ _) as [k [buf|e]]; [by eauto|done].
  - intros r m timeout r' evs e [Hl Hn]. cbn. unfold epoll_poll. destruct (epoll_wait _ _ _) as [k [buf|e']] eqn:E; [done|].
    intros [= <- _ _]. split; [cbn; by rewrite (wait_keeps _ _ _ _ _ E)|done].
Defined.

End EpollLemmas.

(** *** kqueue *)

(** The events report bit [b] for token [t]. *)
Definition reports (b : Z) (t : Token) (evs : list Event) : Prop :=
  ∃ e, e ∈ evs ∧ ev_token e = t ∧ Z.testbit (ev_readiness e) b = true.

Lemma reports_cons b t e evs : reports b t (e :: evs) ↔ (ev_token e = t ∧ Z.testbit (ev_readiness e) b = true) ∨ reports b t evs.
Proof. unfold reports. setoid_rewrite elem_of_cons. naive_solver. Qed.

Lemma coalesce_reports b t t' r evs :
  reports b t (coalesce t' r evs) ↔ reports b t evs ∨ (t' = t ∧ Z.testbit r b = true).
Proof.
  induction evs as [|e evs IH]; cbn [coalesce].
  - rewrite reports_cons. unfold reports. setoid_rewrite elem_of_nil. naive_solver.
  - destruct (Z.eqb_spec (ev_token e) t') as [Et|Et]; rewrite !reports_cons.
    + cbn [ev_token ev_readiness]. rewrite Z.lor_spec, orb_true_iff. naive_solver.
    + rewrite IH. naive_solver.
Qed.

Lemma coalesce_tokens t t' r evs : t ∈ ev_token <$> coalesce t' r evs ↔ t ∈ ev_token <$> evs ∨ t = t'.
Proof.
  induction evs as [|e evs IH]; cbn [coalesce]; [rewrite fmap_cons, elem_of_cons; naive_solver|].
  destruct (Z.eqb_spec (ev_token e) t') as [Et|Et]; rewrite !fmap_cons, !elem_of_cons; cbn [ev_token]; [|rewrite IH]; naive_solver.
Qed.

Lemma coalesce_once t r evs : NoDup (ev_token <$> evs) → NoDup (ev_token <$> coalesce t r evs).
Proof.
  induction evs as [|e evs IH]; cbn [coalesce]; [intros _; apply NoDup_singleton|].
  rewrite fmap_cons, NoDup_cons. intros [He Hnd]. destruct (Z.eqb_spec (ev_token e) t) as [Et|Et]; rewrite fmap_cons, NoDup_cons; cbn [ev_token]; [done|].
  split; [|by apply IH]. rewrite coalesce_tokens. naive_solver.
Qed.

(** A raw event that is not an error report. *)
Definition genuine_kevent (ev : Kevent) : Prop := Z.land (ke_flags ev) EV_ERROR = 0.

Lemma collect_spec buf : ∀ evs, Forall genuine_kevent buf → NoDup (ev_token <$> evs) →
  NoDup (ev_token <$> collect_kevents buf evs) ∧
  (∀ t, t ∈ ev_token <$> collect_kevents buf evs ↔ t ∈ ev_token <$> evs ∨ t ∈ ke_udata <$> buf) ∧
  (∀ b t, reports b t (collect_kevents buf evs) ↔
    reports b t evs ∨ ∃ ev, ev ∈ buf ∧ ke_udata ev = t ∧ Z.testbit (kevent_to_interest ev) b = true).
Proof.
  induction buf as [|ev buf IH]; intros evs Hg Hnd; cbn [collect_kevents].
  { split; [done|]. setoid_rewrite elem_of_nil. naive_solver. }
  apply Forall_cons in Hg as [Hev Hg]. rewrite Hev. cbn [negb Z.eqb].
  destruct (IH (coalesce (ke_udata ev) (kevent_to_interest ev) evs) Hg) as (H1 & H2 & H3); [by apply coalesce_once|].
  split; [done|]. split.
  - intros t. rewrite H2, coalesce_tokens, fmap_cons, elem_of_cons. naive_solver.
  - intros b t. rewrite H3, coalesce_reports. setoid_rewrite elem_of_cons. naive_solver.
Qed.

Lemma kevent_bits ev :
  Z.testbit (kevent_to_interest ev) 0 = (ke_filter ev =? EVFILT_READ) || negb (Z.land (ke_flags ev) EV_EOF =? 0) ∧
  Z.testbit (kevent_to_interest ev) 1 = (ke_filter ev =? EVFILT_WRITE).
Proof.
  unfold kevent_to_interest. destruct (Z.eqb_spec (ke_filter ev) EVFILT_READ) as [->|];
    [|destruct (Z.eqb_spec (ke_filter ev) EVFILT_WRITE)]; destruct (negb _); done.
Qed.

(** An event is determined by its token. *)
Lemma token_event evs e e' : NoDup (ev_token <$> evs) → e ∈ evs → e' ∈ evs → ev_token e = ev_token e' → e = e'.
Proof.
  intros Hnd (j & Hj)%list_elem_of_lookup (j' & Hj')%list_elem_of_lookup Et.
  assert (j = j') as <-; [|by simplify_eq]. eapply NoDup_lookup; [exact Hnd|by rewrite list_lookup_fmap, Hj|].
  by rewrite list_lookup_fmap, Hj', Et.
Qed.

Section KqueueLemmas.
  Context {KK : KqueueKernel} {KL : KqueueLaws KK}.

(** The filters a watched source has in the queue. *)
Definition filter_wanted (f : Z) (i : Interest) : bool :=
  ((f =? EVFILT_READ) && is_readable i) || ((f =? EVFILT_WRITE) && is_writable i).
Definition filter_of (m : Watched) (key : Z * Z) : option Token :=
  '(t, i) ← m !! key.1; if filter_wanted key.2 i then Some t else None.

Definition kqueue_implements (r : KqueueReactor) (m : Watched) : Prop :=
  kr_registered r = snd <$> m ∧ (∀ key, kq_filters (kr_kqfd r) !! key = filter_of m key) ∧ 0 <= kr_len r.

Definition kqueue_level (r : KqueueReactor) : RawSource → FdLevel := kq_level (kr_kqfd r).

(** A changelist, from one interest to another. *)
Lemma changes_lookup (fs : gmap (Z * Z) Z) s t old new key :
  (∀ f, filter_wanted f old = false → fs !! (s, f) = None) →
  foldl apply_change fs (interest_changes s t old new) !! key
  = if decide (key.1 = s) then if filter_wanted key.2 new then Some t else None else fs !! key.
Proof.
  intros Hold. unfold interest_changes, filter_wanted in *. destruct key as [s' f]. cbn [fst snd].
  specialize (Hold f). revert Hold. unfold EVFILT_READ, EVFILT_WRITE.
  destruct (is_readable new), (is_writable new), (is_readable old), (is_writable old); cbn [app negb andb foldl];
  unfold apply_change, Kevent_new; cbn [ke_ident ke_filter ke_flags ke_udata];
  repeat match goal with |- context [negb (Z.land ?a ?b =? 0)] => let v := eval vm_compute in (negb (Z.land a b =? 0)) in
    change (negb (Z.land a b =? 0)) with v; cbv iota end;
  intros Hold; destruct (decide (s' = s)) as [->|];
  destruct (Z.eqb_spec f (-1)), (Z.eqb_spec f (-2)); subst; try (exfalso; lia); cbn [andb orb] in *;
  repeat first [ rewrite lookup_insert_eq | rewrite lookup_delete_eq | rewrite lookup_insert_ne by congruence
               | rewrite lookup_delete_ne by congruence ]; auto.
Qed.

Lemma submit_if_any_ok r changes r' : submit_if_any r changes = (r', Ok ()) →
  kq_filters (kr_kqfd r') = foldl apply_change (kq_filters (kr_kqfd r)) changes ∧
  kr_registered r' = kr_registered r ∧ kr_len r' = kr_len r.
Proof.
  unfold submit_if_any, submit_changes. destruct changes as [|c cs]; [by intros [= <-]|].
  destruct (kevent_change _ _) as [k [[]|]] eqn:E; [|done]. intros [= <-]. cbn. by rewrite (change_ok _ _ _ E).
Qed.

(** Setting the interest of a source that had [old], its filters as they should be. *)
Lemma kqueue_apply_ok r m s t old i r' : kqueue_implements r m → old = default EMPTY (snd <$> m !! s) →
  kqueue_apply r s t old i = (r', Ok ()) → kqueue_implements r' (<[s := (t, i)]> m).
Proof.
  intros (Hr & Hf & Hn) Hold. unfold kqueue_apply, apply_interest.
  destruct (submit_if_any _ _) as [r1 [[]|]] eqn:E; [|done]. intros [= <-].
  destruct (submit_if_any_ok _ _ _ E) as (E1 & E2 & E3). cbn. split_and!; cbn.
  - by rewrite E2, Hr, fmap_insert.
  - intros [s' f]. rewrite E1, changes_lookup.
    + unfold filter_of. cbn [fst snd]. destruct (decide (s' = s)) as [->|Hne]; [by rewrite lookup_insert_eq|].
      rewrite lookup_insert_ne by done. apply Hf.
    + intros f' Hf'. rewrite Hf. unfold filter_of. cbn [fst snd]. rewrite Hold in Hf'.
      destruct (m !! s) as [[t' i']|]; [|done]. cbn in *. by rewrite Hf'.
  - by rewrite E3.
Qed.

Lemma kqueue_deregister_ok r m s r' : kqueue_implements r m → kqueue_deregister r s = (r', Ok ()) →
  kqueue_implements r' (delete s m).
Proof.
  intros (Hr & Hf & Hn). unfold kqueue_deregister. intros E. destruct (submit_if_any_ok _ _ _ E) as (E1 & E2 & E3). cbn in E1, E2, E3.
  set (old := default EMPTY (kr_registered r !! s)) in *.
  assert (Hc : foldl apply_change (kq_filters (kr_kqfd r)) (interest_changes s 0 old EMPTY) = kq_filters (kr_kqfd r')).
  { rewrite E1. unfold interest_changes. cbn [is_readable is_writable Interest_contains]. change (is_readable EMPTY) with false.
    change (is_writable EMPTY) with false. cbn [negb app]. by rewrite !andb_true_r. }
  split_and!; [by rewrite E2, Hr, fmap_delete| |by rewrite E3].
  intros [s' f]. rewrite <-Hc, changes_lookup.
  - unfold filter_of. cbn [fst snd]. destruct (decide (s' = s)) as [->|Hne].
    + rewrite lookup_delete_eq. unfold filter_wanted. change (is_readable EMPTY) with false. change (is_writable EMPTY) with false.
      by rewrite !andb_false_r.
    + rewrite lookup_delete_ne by done. apply Hf.
  - intros f' Hf'. rewrite Hf. unfold filter_of. cbn [fst snd]. unfold old in Hf'. rewrite Hr, lookup_fmap in Hf'.
    destruct (m !! s) as [[t' i']|]; [|done]. cbn in *. by rewrite Hf'.
Qed.

(** A raw event of a filter of a watched source. *)
Definition raw_of (m : Watched) (lv : RawSource → FdLevel) (key : Z * Z) (ev : Kevent) : Prop :=
  ∃ i, m !! key.1 = Some (ke_udata ev, i) ∧ filter_wanted key.2 i = true ∧ ke_filter ev = key.2 ∧
    negb (Z.land (ke_flags ev) EV_EOF =? 0) = lv_hangup (lv key.1) ∧ genuine_kevent ev ∧ filter_fires (lv key.1) key.2 = true.

Lemma filter_of_Some m key t : filter_of m key = Some t ↔ ∃ i, m !! key.1 = Some (t, i) ∧ filter_wanted key.2 i = true.
Proof.
  unfold filter_of. destruct (m !! key.1) as [[t' i]|]; cbn; [|split; [done|by intros (? & ? & _)]].
  destruct (filter_wanted key.2 i) eqn:E; (split; [intros ?|intros (i' & ? & ?)]); simplify_eq; eauto; congruence.
Qed.

(** The raw events of a wait, with room for [max] of them. *)
Lemma kwait_view r m max timeout k buf : kqueue_implements r m → kevent_wait (kr_kqfd r) max timeout = (k, Ok buf) →
  ∃ keys, NoDup keys ∧ Forall2 (raw_of m (kq_level k)) keys buf ∧
    (Z.of_nat (length buf) < max → ∀ s t i f, m !! s = Some (t, i) → filter_wanted f i = true →
      filter_fires (kq_level k s) f = true → (s, f) ∈ keys).
Proof.
  intros (Hr & Hf & Hn) E. destruct (kwait_ok _ _ _ _ _ E) as (keys & Hnd & HF & Hall). exists keys. split; [done|]. split.
  - eapply Forall2_impl; [exact HF|]. intros key ev (Hk & Hfl & Heof & Herr & Hfire). rewrite Hf in Hk.
    apply filter_of_Some in Hk as (i & Hm & Hw). by exists i.
  - intros Hlt s t i f Hm Hw Hfire. apply (Hall Hlt (s, f) t); [|done]. rewrite Hf. apply filter_of_Some. by exists i.
Qed.

(** The events of a poll, from the raw events [buf] of the filters [keys]. *)
Section Answer.
  Context (m : Watched) (lv : RawSource → FdLevel) (keys : list (Z * Z)) (buf : list Kevent).
  Hypothesis Hd : tokens_distinct m.
  Hypothesis Hnd : NoDup keys.
  Hypothesis HF : Forall2 (raw_of m lv) keys buf.
Let evs := collect_kevents buf [].

Lemma raw_key ev : ev ∈ buf → ∃ key, raw_of m lv key ev.
Proof. intros (j & Hj)%list_elem_of_lookup. destruct (Forall2_lookup_r _ _ _ _ _ HF Hj) as (key & _ & Hk). by exists key. Qed.

Lemma raw_genuine : Forall genuine_kevent buf.
Proof. rewrite Forall_forall. intros ev (key & i & H)%raw_key. tauto. Qed.

Lemma collected :
  NoDup (ev_token <$> evs) ∧ (∀ t, t ∈ ev_token <$> evs ↔ t ∈ ev_token <$> @nil Event ∨ t ∈ ke_udata <$> buf) ∧
  (∀ b t, reports b t evs ↔ reports b t [] ∨ ∃ ev, ev ∈ buf ∧ ke_udata ev = t ∧ Z.testbit (kevent_to_interest ev) b = true).
Proof. apply collect_spec; [apply raw_genuine|constructor]. Qed.

(** A bit that is reported comes from a filter of the token's source. *)
Lemma reported_by b t s i : m !! s = Some (t, i) → reports b t evs →
  ∃ ev f, raw_of m lv (s, f) ev ∧ filter_wanted f i = true ∧ Z.testbit (kevent_to_interest ev) b = true.
Proof.
  intros Hm [(? & []%not_elem_of_nil & _)|(ev & Hev & Ht & Hb)]%collected.
  destruct (raw_key ev Hev) as ([s' f] & i' & Hm' & Hk). cbn in Hm'. rewrite Ht in Hm'.
  assert (s' = s) as -> by (by eapply Hd). rewrite Hm in Hm'. injection Hm' as <-.
  exists ev, f. split; [exists i; cbn; rewrite Ht; tauto|]. tauto.
Qed.

Lemma answer_sound e : e ∈ evs → ∃ s i, m !! s = Some (ev_token e, i) ∧ may_report (lv s) i (ev_readiness e).
Proof.
  intros He. assert (Ht : ev_token e ∈ ev_token <$> evs) by by apply list_elem_of_fmap_2.
  apply collected in Ht as [[]%not_elem_of_nil|(ev & Et & Hev)%list_elem_of_fmap].
  destruct (raw_key ev Hev) as ([s f] & i & Hm & _). cbn in Hm. rewrite <-Et in Hm. exists s, i. split; [done|].
  split; rewrite ?is_readable_bit, ?is_writable_bit; intros Hb.
  - destruct (reported_by 0 _ s i Hm) as (ev' & f' & (i' & _ & _ & Hf & Heof & _ & Hfire) & Hw & Hb'); [by exists e|].
    cbn [fst snd] in *. destruct (kevent_bits ev') as [Hk0 _]. rewrite Hk0, Hf, Heof in Hb'. revert Hb' Hfire Hw.
    unfold filter_fires, filter_wanted. rewrite is_readable_bit. destruct (Z.eqb_spec f' EVFILT_READ) as [->|];
      destruct (lv_hangup (lv s)), (lv_readable (lv s)), (Z.testbit i 0); cbn; auto; congruence.
  - destruct (reported_by 1 _ s i Hm) as (ev' & f' & (i' & _ & _ & Hf & Heof & _ & Hfire) & Hw & Hb'); [by exists e|].
    cbn [fst snd] in *. destruct (kevent_bits ev') as [_ Hk1]. rewrite Hk1, Hf in Hb'. apply Z.eqb_eq in Hb' as ->. revert Hfire Hw.
    unfold filter_fires, filter_wanted. rewrite is_writable_bit.
    destruct (lv_hangup (lv s)), (lv_writable (lv s)), (Z.testbit i 1); cbn; auto.
Qed.

(** Both raw events of a source share its event: there are at most twice as many. *)
Lemma raw_length : (length buf <= 2 * length evs)%nat.
Proof.
  set (pairs := (fun ev => (ke_udata ev, ke_filter ev)) <$> buf).
  assert (Hp : NoDup pairs).
  { eapply Forall2_NoDup; [|exact Hnd|exact HF]. intros [s f] [s' f'] ev ev' (i & Hm & _ & Hf & _) (i' & Hm' & _ & Hf' & _) E.
    cbn in *. simplify_eq. f_equal; [|congruence]. eapply Hd; [|exact Hm']. by rewrite <-H. }
  assert (Hsub : pairs ⊆+ list_prod (ev_token <$> evs) [EVFILT_READ; EVFILT_WRITE]).
  { apply NoDup_submseteq; [done|]. intros [t f] (ev & [= -> ->] & Hev)%list_elem_of_fmap. apply list_elem_of_In, in_prod.
    - apply list_elem_of_In. apply collected. right. apply list_elem_of_fmap_2, Hev.
    - apply list_elem_of_lookup in Hev as [j Hj]. destruct (Forall2_lookup_r _ _ _ _ _ HF Hj) as (key & _ & i & _ & Hw & -> & _).
      unfold filter_wanted in Hw. cbn. destruct (Z.eqb_spec key.2 EVFILT_READ) as [->|]; [by left|].
      destruct (Z.eqb_spec key.2 EVFILT_WRITE) as [->|]; [by right; left|done]. }
  apply submseteq_length in Hsub. rewrite length_prod, length_fmap in Hsub. unfold pairs in Hsub. rewrite length_fmap in Hsub.
  cbn [length] in Hsub. lia.
Qed.

(** A filter that was returned has its bit reported. *)
Lemma returned_reported s t i f b : (s, f) ∈ keys → m !! s = Some (t, i) →
  (∀ ev, ke_filter ev = f → Z.testbit (kevent_to_interest ev) b = true) → reports b t evs.
Proof.
  intros (j & Hj)%list_elem_of_lookup Hm Hb. destruct (Forall2_lookup_l _ _ _ _ _ HF Hj) as (ev & Hev & i' & Hm' & _ & Hf & _).
  apply collected. right. exists ev. split; [by eapply list_elem_of_lookup_2|]. cbn in *. split; [congruence|by apply Hb].
Qed.

Lemma answer_covers s t i : m !! s = Some (t, i) → wanted (lv s) i = true →
  (∀ f, filter_wanted f i = true → filter_fires (lv s) f = true → (s, f) ∈ keys) →
  ∃ e, e ∈ evs ∧ ev_token e = t ∧ covers (lv s) i (ev_readiness e).
Proof.
  intros Hm Hw Hall.
  assert (HR : lv_readable (lv s) = true → is_readable i = true → reports 0 t evs).
  { intros Hl Hi. eapply (returned_reported s t i EVFILT_READ); [|done|].
    - apply Hall; [unfold filter_wanted; by rewrite Hi|unfold filter_fires; cbn; by rewrite Hl, orb_true_r].
    - intros ev Hf. destruct (kevent_bits ev) as [-> _]. by rewrite Hf. }
  assert (HW : lv_writable (lv s) = true → is_writable i = true → reports 1 t evs).
  { intros Hl Hi. eapply (returned_reported s t i EVFILT_WRITE); [|done|].
    - apply Hall; [unfold filter_wanted; by rewrite Hi|unfold filter_fires; cbn; by rewrite Hl, orb_true_r].
    - intros ev Hf. destruct (kevent_bits ev) as [_ ->]. by rewrite Hf. }
  assert (He : ∃ e, e ∈ evs ∧ ev_token e = t).
  { unfold wanted in Hw. apply orb_true_iff in Hw as [[Hl Hi]%andb_true_iff|[Hl Hi]%andb_true_iff];
      [destruct (HR Hl Hi) as (e & H1 & H2 & _)|destruct (HW Hl Hi) as (e & H1 & H2 & _)]; by exists e. }
  destruct He as (e & He & Ht). exists e. split; [done|]. split; [done|].
  split; intros Hl Hi; rewrite ?is_readable_bit, ?is_writable_bit;
    [destruct (HR Hl Hi) as (e' & He' & Ht' & Hb)|destruct (HW Hl Hi) as (e' & He' & Ht' & Hb)];
    by rewrite (token_event _ e e' (proj1 collected) He He') by congruence.
Qed.

End Answer.

(** The [kevent] of a poll returns events. *)
Definition kqueue_waited (r : KqueueReactor) (timeout : option Duration) : bool :=
  match (kevent_wait (kr_kqfd r) (reserve_64 (kr_len r) (kr_cap r)) ((fun d => (as_i64 (d_secs d), d_nanos d)) <$> timeout)).2 with
  | Ok _ => true | Err _ => false
  end.

#[export] Instance KqueueReactor_laws : ReactorLaws KqueueReactor.
Proof.
  refine {| rc_implements := kqueue_implements; rc_level := kqueue_level; rc_waited := kqueue_waited |}.
  - intros r m s t i r' Hi Hm Hr. eapply (kqueue_apply_ok r m s t EMPTY); [done|by rewrite Hm|exact Hr].
  - intros r m s t i r' Hi _ Hr. eapply (kqueue_apply_ok r m s t); [done| |exact Hr]. by rewrite (proj1 Hi), lookup_fmap.
  - intros r m s r' Hi _ Hr. by apply (kqueue_deregister_ok r).
  - intros r m timeout r' evs n Hi Hd. cbn. unfold kqueue_poll, kqueue_waited. destruct (kevent_wait _ _ _) as [k [buf|e]] eqn:E.
    + intros [= <- <- <-]. destruct (kwait_view _ _ _ _ _ _ Hi E) as (keys & Hnd & HF & Hall). destruct Hi as (Hr & Hf & Hn).
      split; [split_and!; cbn; [done|intros key; by rewrite (kwait_keeps _ _ _ _ _ E)|lia]|]. split; [done|]. split; [|done]. split.
      * by eapply collected.
      * intros e He. by eapply answer_sound.
      * intros [_ Hlen] s t i Hm Hw. eapply answer_covers; [done..|]. intros f Hfw Hff. eapply Hall; [|done..].
        pose proof (raw_length m _ keys buf Hd Hnd HF). pose proof (reserve_64_ge (kr_len r) (kr_cap r) Hn). lia.
    + destruct (is_interrupted e); [|done]. intros [= <- <- <-]. destruct Hi as (Hr & Hf & Hn).
      split; [split_and!; cbn; [done|intros key; by rewrite (kwait_keeps _ _ _ _ _ E)|done]|]. split; [done|].
      split; [|done]. split; [constructor|by intros e' []%not_elem_of_nil|by intros [? _]].
  - intros r timeout. cbn. unfold kqueue_waited, kqueue_poll. destruct (kevent_wait _ _ _) as [k [buf|e]]; [by eauto|done].
  - intros r m timeout r' evs e (Hr & Hf & Hn). cbn. unfold kqueue_poll. destruct (kevent_wait _ _ _) as [k [buf|e']] eqn:E; [done|].
    intros [= <- _ _]. split_and!; cbn; [done|intros key; by rewrite (kwait_keeps _ _ _ _ _ E)|done].
Defined.

End KqueueLemmas.

(** ** The daemon's use of a reactor *)

Section Client.
  Context {R : Type} `{Reactor R}.

(** The registrations of [run_reactor_loop]: the TUN under token 0, socket [i] under
    token [i + 1], all for reading. *)
Fixpoint register_sockets (r : R) (i : nat) (fds : list RawSource) : R * result () IoError :=
  match fds with
  | [] => (r, Ok ())
  | fd :: fds =>
      match register r fd (Z.of_nat i + 1) READABLE with
      | (r, Err e) => (r, Err e)
      | (r, Ok _) => register_sockets r (S i) fds
      end
  end.
Definition register_sources (r : R) (tun : RawSource) (fds : list RawSource) : R * result () IoError :=
  match register r tun 0 READABLE with
  | (r, Err e) => (r, Err e)
  | (r, Ok _) => register_sockets r 0 fds
  end.

(** Any number of polls, each into the cleared vector, failed or not. *)
Inductive polled : R → R → Prop :=
| polled_none r : polled r r
| polled_more r timeout r1 evs res r2 : poll r [] timeout = (r1, evs, res) → polled r1 r2 → polled r r2.

(** The source behind a token of the daemon. *)
Definition source_of (tun : RawSource) (fds : list RawSource) (t : Token) : option RawSource :=
  if t =? 0 then Some tun else if t <? 0 then None else fds !! Z.to_nat (t - 1).

(** What the abstract reactor watches for the daemon. *)
Fixpoint watch_sockets (i : nat) (fds : list RawSource) (m : Watched) : Watched :=
  match fds with [] => m | fd :: fds => watch_sockets (S i) fds (<[fd := (Z.of_nat i + 1, READABLE)]> m) end.

Lemma watch_sockets_other i fds m s : s ∉ fds → watch_sockets i fds m !! s = m !! s.
Proof.
  revert i m. induction fds as [|fd fds IH]; intros i m Hs; cbn [watch_sockets]; [done|].
  apply not_elem_of_cons in Hs as [Hne Hs]. rewrite IH by done. by rewrite lookup_insert_ne.
Qed.

Lemma watch_sockets_lookup fds : ∀ i m j fd, NoDup fds → fds !! j = Some fd →
  watch_sockets i fds m !! fd = Some (Z.of_nat (i + j) + 1, READABLE).
Proof.
  induction fds as [|fd' fds IH]; intros i m [|j] fd Hnd Hj; [done..| |]; apply NoDup_cons in Hnd as [Hni Hnd]; cbn in Hj; simplify_eq;
    cbn [watch_sockets].
  - rewrite watch_sockets_other by done. by rewrite lookup_insert_eq, Nat.add_0_r.
  - rewrite (IH (S i) _ j fd Hnd Hj). do 3 f_equal. lia.
Qed.

Context {RL : ReactorLaws R}.

Lemma register_sockets_ok fds : ∀ r m i r', rc_implements r m → NoDup fds → (∀ s, s ∈ fds → m !! s = None) →
  register_sockets r i fds = (r', Ok ()) → rc_implements r' (watch_sockets i fds m).
Proof.
  induction fds as [|fd fds IH]; intros r m i r' Hi Hnd Hm; cbn [register_sockets watch_sockets]; [by intros [= <-]|].
  apply NoDup_cons in Hnd as [Hni Hnd]. destruct (register _ _ _ _) as [r1 [[]|]] eqn:E; [|done].
  apply IH; [|done|].
  - apply (register_law r m); [done|apply Hm; left|done].
  - intros s Hs. rewrite lookup_insert_ne by (by intros ->). apply Hm. by right.
Qed.

Lemma polled_implements r r' m : polled r r' → tokens_distinct m → rc_implements r m → rc_implements r' m.
Proof.
  induction 1 as [r|r timeout r1 evs [n|e] r2 E _ IH]; intros Hd Hi; [done|..]; apply IH; [done| |done|].
  - by eapply poll_law.
  - by eapply poll_err_law.
Qed.

(** The daemon's sources and their tokens determine each other. *)
Lemma daemon_watched tun fds m s t i : NoDup (tun :: fds) → m = watch_sockets 0 fds {[tun := (0, READABLE)]} →
  m !! s = Some (t, i) ↔ source_of tun fds t = Some s ∧ i = READABLE.
Proof.
  intros [Hni Hnd]%NoDup_cons ->. unfold source_of. destruct (decide (s ∈ fds)) as [Hin|Hout].
  - pose proof Hin as (j & Hj)%list_elem_of_lookup. rewrite (watch_sockets_lookup fds 0 _ j s Hnd Hj). cbn [Nat.add]. split.
    + intros [= <- <-]. rewrite (proj2 (Z.eqb_neq _ _)), (proj2 (Z.ltb_ge _ _)) by lia.
      by replace (Z.to_nat (Z.of_nat j + 1 - 1)) with j by lia.
    + intros [Hs ->]. destruct (Z.eqb_spec t 0); [by simplify_eq|]. destruct (Z.ltb_spec t 0); [done|].
      assert (Z.to_nat (t - 1) = j) by (by eapply NoDup_lookup). do 2 f_equal. lia.
  - rewrite watch_sockets_other by done. destruct (decide (s = tun)) as [->|Hne].
    + rewrite lookup_singleton_eq. split; [by intros [= <- <-]|]. intros [Hs ->]. destruct (Z.eqb_spec t 0) as [->|]; [done|].
      destruct (t <? 0); [done|]. by apply list_elem_of_lookup_2 in Hs.
    + rewrite lookup_singleton_ne by done. split; [done|]. intros [Hs ->]. destruct (t =? 0); [by simplify_eq|].
      destruct (t <? 0); [done|]. by apply list_elem_of_lookup_2 in Hs.
Qed.

(** After its registrations and any number of polls, a poll whose wait returned
    succeeds; each answer of a reactor names only the daemon's sources, each at most
    once and ready to be read, and names every one that is when the wait returned and
    there was room. *)
Definition serves_daemon : Prop := ∀ (r r1 r2 r3 : R) tun fds timeout evs res,
  rc_implements r ∅ → NoDup (tun :: fds) → register_sources r tun fds = (r1, Ok ()) → polled r1 r2 →
  poll r2 [] timeout = (r3, evs, res) →
  (rc_waited r2 timeout = true → res = Ok (length evs)) ∧
  ∀ n, res = Ok n →
    n = length evs ∧ NoDup (ev_token <$> evs) ∧
    (∀ e, e ∈ evs → ∃ s, source_of tun fds (ev_token e) = Some s ∧
       (is_readable (ev_readiness e) = true → lv_readable (rc_level r3 s) = true ∨ lv_hangup (rc_level r3 s) = true) ∧
       is_writable (ev_readiness e) = false) ∧
    (rc_waited r2 timeout = false → evs = []) ∧
    (rc_waited r2 timeout = true → (n < 32)%nat → ∀ t s, source_of tun fds t = Some s →
      lv_readable (rc_level r3 s) = true → ∃ e, e ∈ evs ∧ ev_token e = t ∧ is_readable (ev_readiness e) = true).

Lemma serves_daemon_holds : serves_daemon.
Proof.
  intros r r1 r2 r3 tun fds timeout evs res Hi Hnd Hreg Hpolled Hpoll. unfold register_sources in Hreg.
  destruct (register r tun 0 READABLE) as [r0 [[]|]] eqn:E; [|done]. pose proof Hnd as [Hni Hnd']%NoDup_cons.
  set (m := watch_sockets 0 fds {[tun := (0, READABLE)]}).
  assert (Hw : ∀ s t i, m !! s = Some (t, i) ↔ source_of tun fds t = Some s ∧ i = READABLE) by (intros; by apply daemon_watched).
  assert (Hd : tokens_distinct m) by (intros s s' t i i' [H1 _]%Hw [H2 _]%Hw; congruence).
  assert (Hm : rc_implements r1 m).
  { eapply register_sockets_ok; [|done| |exact Hreg]; [by apply (register_law r ∅)|].
    intros s Hs. rewrite lookup_singleton_ne; [done|]. by intros ->. }
  pose proof (polled_implements _ _ _ Hpolled Hd Hm) as Hm2. split.
  { intros Hw2. destruct (poll_ok_law _ _ Hw2) as (r4 & evs' & n' & Hp). rewrite Hp in Hpoll. injection Hpoll as <- <- <-.
    destruct (poll_law _ _ _ _ _ _ Hm2 Hd Hp) as (_ & -> & _). done. }
  intros n ->. destruct (poll_law _ _ _ _ _ _ Hm2 Hd Hpoll) as (_ & -> & [Honce Hsound Hcomp] & Hint).
  split; [done|]. split; [done|]. split; [|split; [done|]].
  - intros e He. destruct (Hsound e He) as (s & i & [Hs ->]%Hw & [Hr Hwr]). exists s. split; [done|]. split.
    + intros Hb. destruct (Hr Hb) as [[? _]|?]; auto.
    + destruct (is_writable (ev_readiness e)); [|done]. by destruct (Hwr eq_refl).
  - intros Hok Hn t s Hs Hl. destruct (Hcomp (conj Hok Hn) s t READABLE) as (e & He & Ht & Hc & _).
    + by apply Hw.
    + unfold wanted. by rewrite Hl.
    + exists e. split; [done|]. split; [done|]. by apply Hc.
Qed.

End Client.

Arguments serves_daemon R {_ _}.

(** ** Theorems *)

Section ReactorProps.
  Context {EK : EpollKernel} {EL : EpollLaws EK} {KK : KqueueKernel} {KL : KqueueLaws KK}.

(** C35: Both reactors serve the daemon exactly: registered for the TUN and the sockets
    (distinct descriptors, every registration accepted) and polled any number of times,
    the epoll and the kqueue reactor return only events of these sources, at most one
    per token (the two filters of kqueue coalesced), each for a source that is readable
    or hung up.  A poll whose [epoll_wait] or [kevent] returned events succeeds, and
    when it has fewer than 32 of them it names every readable source; an interrupted
    one reports nothing.  Both are instances of one contract, a simulation of the map
    of watched sources. *)
Theorem reactors_dispatch_exact : serves_daemon EpollReactor ∧ serves_daemon KqueueReactor.
Proof. split; apply serves_daemon_holds. Qed.

(** A source registered again on kqueue with fewer filters keeps the dropped filter in
    the kernel, and deregistering it then leaves that filter behind. *)
Theorem kqueue_register_twice_leaks (r r1 r2 r3 : KqueueReactor) (m : Watched) (s : RawSource) (t t' : Token) :
  kqueue_implements r m → m !! s = None →
  kqueue_register r s t (Z.lor READABLE WRITABLE) = (r1, Ok ()) → kqueue_register r1 s t' READABLE = (r2, Ok ()) →
  kqueue_deregister r2 s = (r3, Ok ()) →
  kr_registered r3 !! s = None ∧ kq_filters (kr_kqfd r3) !! (s, EVFILT_WRITE) = Some t.
Proof.
  intros Hi Hm H1 H2 H3. assert (Hi1 : kqueue_implements r1 (<[s := (t, Z.lor READABLE WRITABLE)]> m)).
  { eapply kqueue_apply_ok; [exact Hi|by rewrite Hm|exact H1]. }
  destruct Hi1 as (Hr1 & Hf1 & _). unfold kqueue_register, kqueue_apply, apply_interest in H2.
  destruct (submit_if_any _ _) as [q [[]|]] eqn:E; [|done]. injection H2 as <-. destruct (submit_if_any_ok _ _ _ E) as (F & Hq & _).
  unfold kqueue_deregister in H3. cbn [set_registered kr_registered] in H3. rewrite lookup_insert_eq in H3.
  destruct (submit_if_any_ok _ _ _ H3) as (F3 & Hq3 & _). rewrite F3, Hq3. cbn. split; [apply lookup_delete_eq|].
  change (delete (s, EVFILT_READ) (kq_filters (kr_kqfd q)) !! (s, EVFILT_WRITE) = Some t).
  rewrite lookup_delete_ne by done. rewrite F.
  change (<[(s, EVFILT_READ) := t']> (kq_filters (kr_kqfd r1)) !! (s, EVFILT_WRITE) = Some t).
  rewrite lookup_insert_ne by done. rewrite Hf1. unfold filter_of. cbn [fst]. by rewrite lookup_insert_eq.
Qed.

(** An interrupted poll reports no events and leaves those of the last one in the vector. *)
Theorem interrupted_poll_keeps_events (r : EpollReactor) (k : ep_state) (events : list Event) (timeout : option Duration) :
  epoll_wait (er_epfd r) (reserve_64 (er_len r) (er_cap r)) (epoll_timeout timeout) = (k, Err EINTR) →
  (poll r events timeout).1.2 = events ∧ (poll r events timeout).2 = Ok 0%nat.
Proof. intros E. cbn. unfold epoll_poll. by rewrite E. Qed.

End ReactorProps.

(** ** Witnesses *)

(** The entries of a map that are ready, up to [max] of them. *)
Definition demo_listed {K V E} `{Countable K} (f : K → V → option E) (m : gmap K V) (max : Z) : list (K * E) :=
  take (Z.to_nat max) (map_to_list (map_imap f m)).

Lemma demo_listed_spec {K V E} `{Countable K} (f : K → V → option E) (m : gmap K V) (max : Z) (P : K → E → Prop) :
  (∀ k v e, m !! k = Some v → f k v = Some e → P k e) →
  ∃ keys, NoDup keys ∧ Forall2 P keys (demo_listed f m max).*2 ∧
    (Z.of_nat (length (demo_listed f m max).*2) < max → ∀ k v e, m !! k = Some v → f k v = Some e → k ∈ keys).
Proof.
  intros HP. exists (demo_listed f m max).*1. unfold demo_listed. split; [|split].
  - rewrite fmap_take. eapply sublist_NoDup; [apply (NoDup_fst_map_to_list (map_imap f m))|apply sublist_take].
  - apply Forall2_fmap_2, Forall_Forall2_diag, Forall_forall. intros [k e] (j & He%list_elem_of_lookup_2 & _)%elem_of_take. cbn.
    apply elem_of_map_to_list in He. rewrite map_lookup_imap in He. destruct (m !! k) eqn:E1; [|done]. by eapply HP.
  - rewrite length_fmap, length_take. intros Hlt k v e Hm Hf. rewrite take_ge by lia.
    apply list_elem_of_fmap. exists (k, e). split; [done|]. apply elem_of_map_to_list. by rewrite map_lookup_imap, Hm.
Qed.

Definition nonzero_event (mask data : Z) : option EpollEvent := if mask =? 0 then None else Some (mkEpollEvent mask data).

(** An epoll instance: its list and the conditions that hold. *)
#[local] Instance demo_epoll : EpollKernel := {
  ep_state := gmap RawSource EpollEvent * (RawSource → Z);
  epoll_ctl k op fd ev := match op with
    | EPOLL_CTL_ADD | EPOLL_CTL_MOD => ((<[fd := ev]> k.1, k.2), Ok ())
    | EPOLL_CTL_DEL => ((delete fd k.1, k.2), Ok ())
    end;
  epoll_wait k max _ := (k, Ok (demo_listed (fun fd reg =>
    nonzero_event (Z.land (k.2 fd) (Z.lor (ee_events reg) (Z.lor EPOLLERR EPOLLHUP))) (ee_data reg)) k.1 max).*2);
}.

#[local] Instance demo_epoll_laws : EpollLaws demo_epoll.
Proof.
  refine {| ep_list := fst : @ep_state demo_epoll → _; ep_ready := snd : @ep_state demo_epoll → _ |}.
  - by intros k fd ev k' [= <-].
  - by intros k fd ev k' [= <-].
  - by intros k fd ev k' [= <-].
  - by intros k [] fd ev k' e.
  - by intros k max t k' r [= <- _].
  - intros k max t k' evs [= <- <-].
    edestruct (demo_listed_spec (fun fd reg =>
      nonzero_event (Z.land (k.2 fd) (Z.lor (ee_events reg) (Z.lor EPOLLERR EPOLLHUP))) (ee_data reg)) k.1 max) as (keys & H1 & H2 & H3).
    2:{ exists keys. split; [exact H1|]. split; [exact H2|]. intros Hlt fd reg Hm Hne. eapply H3; [exact Hlt|exact Hm|].
        unfold nonzero_event. by rewrite (proj2 (Z.eqb_neq _ _) Hne). }
    cbn beta. intros fd reg e Hm. unfold nonzero_event. destruct (_ =? 0); [done|]. intros [= <-]. by exists reg.
Defined.

(** A queue: its filters and the levels. *)
#[local] Instance demo_kqueue : KqueueKernel := {
  kq_state := gmap (Z * Z) Z * (RawSource → FdLevel);
  kevent_change k cs := ((foldl apply_change k.1 cs, k.2), Ok ());
  kevent_wait k max _ := (k, Ok (demo_listed (fun key u =>
    if filter_fires (k.2 key.1) key.2
    then Some (mkKevent key.1 key.2 (if lv_hangup (k.2 key.1) then EV_EOF else 0) 0 0 u) else None) k.1 max).*2);
}.

#[local] Instance demo_kqueue_laws : KqueueLaws demo_kqueue.
Proof.
  refine {| kq_filters := fst : @kq_state demo_kqueue → _; kq_level := snd : @kq_state demo_kqueue → _ |}.
  - by intros k cs k' [= <-].
  - done.
  - by intros k max t k' r [= <- _].
  - intros k max t k' evs [= <- <-].
    edestruct (demo_listed_spec (fun (key : Z * Z) u => if filter_fires (k.2 key.1) key.2
      then Some (mkKevent key.1 key.2 (if lv_hangup (k.2 key.1) then EV_EOF else 0) 0 0 u) else None) k.1 max) as (keys & H1 & H2 & H3).
    2:{ exists keys. split; [exact H1|]. split; [exact H2|]. intros Hlt key u Hm Hf. eapply H3; [exact Hlt|exact Hm|].
        cbn beta. by rewrite Hf. }
    cbn beta. intros key u e Hm. destruct (filter_fires _ _) eqn:Ef; [|done]. intros [= <-]. cbn.
    by destruct (lv_hangup _).
Defined.

(** Descriptors 3 (the TUN) and 5 (the second socket) are readable: both are named. *)
Definition demo_levels : @ep_state demo_epoll :=
  (∅, fun fd => if fd =? 3 then EPOLLIN else if fd =? 5 then Z.lor EPOLLIN EPOLLOUT else 0).
Definition demo_registered : @EpollReactor demo_epoll := (register_sources (@mkEpoll demo_epoll demo_levels 0 64) 3 [4; 5]).1.

Example reactors_dispatch_exact_witness :
  (∃ e, e ∈ (poll demo_registered [] None).1.2 ∧ ev_token e = 2 ∧ is_readable (ev_readiness e) = true) ∧
  serves_daemon (@KqueueReactor demo_kqueue).
Proof.
  destruct reactors_dispatch_exact as [He Hk]. split; [|exact Hk].
  destruct (poll demo_registered [] None) as [[r3 evs] res] eqn:E.
  destruct (He (@mkEpoll demo_epoll demo_levels 0 64) demo_registered demo_registered r3 3 [4; 5] None evs res) as [Hok Hans].
  - split; [reflexivity|]. vm_compute. congruence.
  - apply (bool_decide_unpack _). reflexivity.
  - reflexivity.
  - constructor.
  - exact E.
  - destruct (Hans (length evs)) as (_ & _ & _ & _ & Hall); [apply Hok; reflexivity|].
    assert (Hr : length evs = 2%nat ∧ rc_level r3 5 = mkFdLevel true true false) by (vm_compute in E; injection E as <- <- _; split; reflexivity).
    destruct Hr as [Hl Hr]. apply (Hall eq_refl) with (s := 5); [rewrite Hl; lia|reflexivity|rewrite Hr; reflexivity].
Defined.

(** Two sockets and a TUN of which one socket and the TUN are readable. *)
Example demo_epoll_poll :
  let k := (∅, fun fd => if fd =? 3 then EPOLLIN else if fd =? 5 then Z.lor EPOLLIN EPOLLOUT else 0) in
  let '(r, res) := register_sources (@mkEpoll demo_epoll k 0 64) 3 [4; 5] in
  res = Ok () ∧ (poll r [] None).1.2 = [mkEvent 2 READABLE; mkEvent 0 READABLE].
Proof. vm_compute. done. Qed.

(** The same on kqueue, with the second socket hung up. *)
Example demo_kqueue_poll :
  let k := (∅, fun fd => mkFdLevel (fd =? 3) true (fd =? 5)) in
  let '(r, res) := register_sources (@mkKqueue demo_kqueue k 0 64 ∅) 3 [4; 5] in
  res = Ok () ∧ (poll r [] None).1.2 = [mkEvent 2 READABLE; mkEvent 0 READABLE].
Proof. vm_compute. done. Qed.

Example kqueue_register_twice_leaks_witness :
  let k := (∅, fun _ => mkFdLevel false true false) in
  let r := @mkKqueue demo_kqueue k 0 64 ∅ in
  let r1 := (kqueue_register r 7 1 (Z.lor READABLE WRITABLE)).1 in
  let r2 := (kqueue_register r1 7 1 READABLE).1 in
  let r3 := (kqueue_deregister r2 7).1 in
  kr_registered r3 !! 7 = None ∧ kq_filters (kr_kqfd r3) !! (7, EVFILT_WRITE) = Some 1.
Proof.
  intros k r r1 r2 r3. apply (kqueue_register_twice_leaks r r1 r2 r3 ∅ 7 1 1).
  - split; [reflexivity|]. split; [|vm_compute; congruence]. intros key. unfold filter_of. rewrite lookup_empty.
    reflexivity.
  - reflexivity.
  - reflexivity.
  - reflexivity.
  - reflexivity.
Defined.
