(* ===== verification/Iocp.v ===== *)
(** * The completion-port reactor

    [crates/desmos-rt/src/windows/reactor.rs]: readiness simulated by zero-byte
    overlapped receives and sends.  The boxes of the [Overlapped] structures are
    modelled by identity, with the set of those that are allocated, since the kernel
    keeps a pointer to each until its operation completes; the kernel is an interface
    with the documented laws of its calls.  Memory safety is proved for every run
    without [deregister], and shown to fail with it. *)

From stdpp Require Import base gmap numbers strings list.
From Stdlib Require Import ZArith Lia.
From S2P Require Import Prelude Str Wire Crypto Session Pipeline Reactor.

(** The identity of a [Box<Overlapped>]. *)
Abbreviation Ovl := nat.
Abbreviation Socket := Z.

Definition INVALID_SOCKET : Socket := 2 ^ 64 - 1.
Definition WSA_IO_PENDING : Z := 997.
Definition WAIT_TIMEOUT : Z := 258.

(** [err.raw_os_error() == Some(WAIT_TIMEOUT as i32)]. *)
Definition is_wait_timeout (e : IoError) : bool := match e with OsError c => c =? WAIT_TIMEOUT | _ => false end.

Record SocketState := mkSocketState {
  so_token : Token; so_interest : Interest; read_ovl : Ovl; write_ovl : Ovl; read_pending : bool; write_pending : bool }.

(** The calls: [None] is the return value zero of [WSARecv] and [WSASend], [Some e] the
    error [WSAGetLastError] gives after another; a completion is its key and the
    pointer. *)
Class IocpKernel := {
  io_state : Type;
  io_associate : io_state → Socket → io_state * result () IoError;
  wsa_recv : io_state → Socket → Ovl → io_state * option Z;
  wsa_send : io_state → Socket → Ovl → io_state * option Z;
  get_completions : io_state → Z → Z → io_state * result (list (Socket * Ovl)) IoError;
}.

Definition set_read_pending (b : bool) (st : SocketState) : SocketState :=
  mkSocketState (so_token st) (so_interest st) (read_ovl st) (write_ovl st) b (write_pending st).
Definition set_write_pending (b : bool) (st : SocketState) : SocketState :=
  mkSocketState (so_token st) (so_interest st) (read_ovl st) (write_ovl st) (read_pending st) b.
Definition set_watch (token : Token) (interest : Interest) (st : SocketState) : SocketState :=
  mkSocketState token interest (read_ovl st) (write_ovl st) (read_pending st) (write_pending st).

(** Whether a probe was accepted. *)
Definition accepted (rc : option Z) : bool := match rc with None => true | Some e => e =? WSA_IO_PENDING end.

Section Iocp.
  Context {IK : IocpKernel}.

(** The boxes: the next fresh one and those allocated. *)
Record IocpReactor := mkIocp {
  ir_port : io_state; ir_len : Z; ir_cap : Z; ir_sockets : gmap Socket SocketState; ir_next : Ovl; ir_live : gset Ovl }.

Definition arm_read (k : io_state) (socket : Socket) (st : SocketState) : io_state * SocketState * result () IoError :=
  if read_pending st then (k, st, Ok ())
  else
    let '(k, rc) := wsa_recv k socket (read_ovl st) in
    if accepted rc then (k, set_read_pending true st, Ok ()) else (k, st, Err (OsError (default 0 rc))).

Definition arm_write (k : io_state) (socket : Socket) (st : SocketState) : io_state * SocketState * result () IoError :=
  if write_pending st then (k, st, Ok ())
  else
    let '(k, rc) := wsa_send k socket (write_ovl st) in
    if accepted rc then (k, set_write_pending true st, Ok ()) else (k, st, Err (OsError (default 0 rc))).

(** The two conditional probes of [associate_and_arm] and [reregister]. *)
Definition arm_both (k : io_state) (socket : Socket) (st : SocketState) (rd wr : bool)
    : io_state * SocketState * result () IoError :=
  match (if rd then arm_read k socket st else (k, st, Ok ())) with
  | (k, st, Err e) => (k, st, Err e)
  | (k, st, Ok _) => if wr then arm_write k socket st else (k, st, Ok ())
  end.

(** Dropping a state frees its boxes. *)
Definition free_state (st : option SocketState) (live : gset Ovl) : gset Ovl :=
  match st with None => live | Some st => live ∖ {[read_ovl st; write_ovl st]} end.

Definition associate_and_arm (self : IocpReactor) (socket : Socket) (token : Token) (interest : Interest)
    : IocpReactor * result () IoError :=
  match io_associate (ir_port self) socket with
  | (k, Err e) => (mkIocp k (ir_len self) (ir_cap self) (ir_sockets self) (ir_next self) (ir_live self), Err e)
  | (k, Ok _) =>
      let rd := ir_next self in
      let wr := S rd in
      let live := {[rd; wr]} ∪ ir_live self in
      match arm_both k socket (mkSocketState token interest rd wr false false) (is_readable interest) (is_writable interest) with
      | (k, st, Err e) =>
          (mkIocp k (ir_len self) (ir_cap self) (ir_sockets self) (S wr) (free_state (Some st) live), Err e)
      | (k, st, Ok _) =>
          (mkIocp k (ir_len self) (ir_cap self) (<[socket := st]> (ir_sockets self)) (S wr)
             (free_state (ir_sockets self !! socket) live), Ok ())
      end
  end.

Definition iocp_register (self : IocpReactor) (source : RawSource) (token : Token) (interest : Interest)
    : IocpReactor * result () IoError :=
  if source =? INVALID_SOCKET then (self, Err InvalidInput) else associate_and_arm self source token interest.

(** The state is updated in place, also where a probe fails. *)
Definition iocp_reregister (self : IocpReactor) (source : RawSource) (token : Token) (interest : Interest)
    : IocpReactor * result () IoError :=
  match ir_sockets self !! source with
  | None => (self, Err NotFound)
  | Some st =>
      let old := so_interest st in
      let '(k, st, r) := arm_both (ir_port self) source (set_watch token interest st)
        (is_readable interest && negb (is_readable old)) (is_writable interest && negb (is_writable old)) in
      (mkIocp k (ir_len self) (ir_cap self) (<[source := st]> (ir_sockets self)) (ir_next self) (ir_live self), r)
  end.

Definition iocp_deregister (self : IocpReactor) (source : RawSource) : IocpReactor * result () IoError :=
  (mkIocp (ir_port self) (ir_len self) (ir_cap self) (delete source (ir_sockets self)) (ir_next self)
     (free_state (ir_sockets self !! source) (ir_live self)), Ok ()).

Definition iocp_timeout (timeout : option Duration) : Z :=
  match timeout with None => 2 ^ 32 - 1 | Some d => Z.min (as_millis d) (2 ^ 32 - 2) end.

(** One completion: the probe is no longer pending, and armed again where it is still
    wanted, with any error ignored. *)
Definition complete_read (k : io_state) (socket : Socket) (st : SocketState) : io_state * SocketState * Interest :=
  let st := set_read_pending false st in
  if is_readable (so_interest st) then
    let '(k, st, _) := arm_read k socket st in (k, st, Z.lor EMPTY READABLE)
  else (k, st, EMPTY).
Definition complete_write (k : io_state) (socket : Socket) (st : SocketState) (readiness : Interest)
    : io_state * SocketState * Interest :=
  let st := set_write_pending false st in
  if is_writable (so_interest st) then
    let '(k, st, _) := arm_write k socket st in (k, st, Z.lor readiness WRITABLE)
  else (k, st, readiness).

(** The body of the loop over the entries. *)
Definition handle_completion (k : io_state) (sockets : gmap Socket SocketState) (events : list Event) (entry : Socket * Ovl)
    : io_state * gmap Socket SocketState * list Event :=
  let '(socket, ovl) := entry in
  match sockets !! socket with
  | None => (k, sockets, events)
  | Some st0 =>
      let '(k, st, readiness) := if (ovl =? read_ovl st0)%nat then complete_read k socket st0 else (k, st0, EMPTY) in
      let '(k, st, readiness) :=
        if (ovl =? write_ovl st0)%nat then complete_write k socket st readiness else (k, st, readiness) in
      (k, <[socket := st]> sockets,
       if readiness =? EMPTY then events else coalesce (so_token st) readiness events)
  end.

Fixpoint handle_completions (k : io_state) (sockets : gmap Socket SocketState) (events : list Event) (buf : list (Socket * Ovl))
    : io_state * gmap Socket SocketState * list Event :=
  match buf with
  | [] => (k, sockets, events)
  | entry :: buf =>
      let '(k, sockets, events) := handle_completion k sockets events entry in handle_completions k sockets events buf
  end.

Definition iocp_poll (self : IocpReactor) (events : list Event) (timeout : option Duration)
    : IocpReactor * list Event * result nat IoError :=
  let cap := Z.max (ir_cap self) 64 in
  match get_completions (ir_port self) cap (iocp_timeout timeout) with
  | (k, Err e) =>
      (mkIocp k (ir_len self) cap (ir_sockets self) (ir_next self) (ir_live self),
       if is_wait_timeout e then [] else events,
       if is_wait_timeout e then Ok 0%nat else Err e)
  | (k, Ok buf) =>
      let '(k, sockets, events) := handle_completions k (ir_sockets self) [] buf in
      (mkIocp k (Z.of_nat (length buf)) cap sockets (ir_next self) (ir_live self), events, Ok (length events))
  end.

#[export] Instance IocpReactor_Reactor : Reactor IocpReactor := {
  register := iocp_register;
  reregister := iocp_reregister;
  deregister := iocp_deregister;
  poll := iocp_poll;
}.

End Iocp.

Arguments IocpReactor {IK}.

(** ** The kernel *)

(** The overlapped operations in flight, with their socket: a probe that is accepted
    starts one, a completion ends it; each completion is returned once, under the
    socket it was submitted on. *)
Class IocpLaws (IK : IocpKernel) := {
  io_flight : io_state → gmap Ovl Socket;
  associate_flight : ∀ k s k' r, io_associate k s = (k', r) → io_flight k' = io_flight k;
  recv_flight : ∀ k s o k' rc, wsa_recv k s o = (k', rc) →
    io_flight k' = if accepted rc then <[o := s]> (io_flight k) else io_flight k;
  send_flight : ∀ k s o k' rc, wsa_send k s o = (k', rc) →
    io_flight k' = if accepted rc then <[o := s]> (io_flight k) else io_flight k;
  completions_err : ∀ k max t k' e, get_completions k max t = (k', Err e) → io_flight k' = io_flight k;
  completions_ok : ∀ k max t k' es, get_completions k max t = (k', Ok es) →
    NoDup es.*2 ∧ (∀ s o, (s, o) ∈ es → io_flight k !! o = Some s) ∧
    (∀ o, io_flight k' !! o = if decide (o ∈ es.*2) then None else io_flight k !! o);
}.

(** ** The invariant *)

(** The probes of a socket that are pending. *)
Definition probes (st : SocketState) (o : Ovl) : Prop :=
  (read_pending st = true ∧ o = read_ovl st) ∨ (write_pending st = true ∧ o = write_ovl st).
Definition owns (st : SocketState) (o : Ovl) : Prop := o = read_ovl st ∨ o = write_ovl st.
Definition same_boxes (st st' : SocketState) : Prop := read_ovl st' = read_ovl st ∧ write_ovl st' = write_ovl st.

Section IocpLemmas.
  Context {IK : IocpKernel} {IL : IocpLaws IK}.

(** Every socket has two boxes of its own, allocated; what is in flight is what is
    pending, but for the completions [rest] that are yet to be handled. *)
Record flight_inv (k : io_state) (sockets : gmap Socket SocketState) (live : gset Ovl) (next : Ovl) (rest : list Ovl) : Prop := {
  fi_box : ∀ s st o, sockets !! s = Some st → owns st o → (o < next)%nat ∧ o ∈ live;
  fi_two : ∀ s st, sockets !! s = Some st → read_ovl st ≠ write_ovl st;
  fi_own : ∀ s s' st st' o, sockets !! s = Some st → sockets !! s' = Some st' → owns st o → owns st' o → s = s';
  fi_flight : ∀ o s, io_flight k !! o = Some s ↔ o ∉ rest ∧ ∃ st, sockets !! s = Some st ∧ probes st o;
}.

Lemma probes_owns st o : probes st o → owns st o.
Proof. unfold probes, owns. tauto. Qed.

Lemma same_boxes_owns st st' o : same_boxes st st' → owns st' o ↔ owns st o.
Proof. unfold same_boxes, owns. intros [-> ->]. done. Qed.

Lemma probes_read_other b st o : o ≠ read_ovl st → probes (set_read_pending b st) o ↔ probes st o.
Proof. unfold probes. cbn. tauto. Qed.
Lemma probes_write_other b st o : o ≠ write_ovl st → probes (set_write_pending b st) o ↔ probes st o.
Proof. unfold probes. cbn. tauto. Qed.

(** One box [o] of socket [s] changes, in the state and in the kernel. *)
Lemma flight_update k k' sockets live next rest rest' s st st' o :
  flight_inv k sockets live next rest → sockets !! s = Some st → same_boxes st st' → owns st o →
  (∀ o', o' ≠ o → io_flight k' !! o' = io_flight k !! o' ∧ (probes st' o' ↔ probes st o') ∧ (o' ∈ rest' ↔ o' ∈ rest)) →
  (∀ s', io_flight k' !! o = Some s' ↔ s' = s ∧ o ∉ rest' ∧ probes st' o) →
  flight_inv k' (<[s := st']> sockets) live next rest'.
Proof.
  intros [Hbox Htwo Hown Hfl] Hs Hsame Ho Hother Hthis. split.
  - intros s' st'' o' [[-> <-]|[_ Hs']]%lookup_insert_Some Ho'; [|by eapply Hbox].
    eapply Hbox; [exact Hs|]. by apply (same_boxes_owns st st').
  - intros s' st'' [[-> <-]|[_ Hs']]%lookup_insert_Some; [|by eapply Htwo]. destruct Hsame as [-> ->]. by eapply Htwo.
  - intros s1 s2 st1 st2 o' [[-> <-]|[_ H1]]%lookup_insert_Some [[-> <-]|[_ H2]]%lookup_insert_Some Ho1 Ho2; [done|..|by eapply Hown].
    + apply (same_boxes_owns st st' o' Hsame) in Ho1. by eapply Hown.
    + apply (same_boxes_owns st st' o' Hsame) in Ho2. by eapply Hown.
  - intros o' s'. destruct (decide (o' = o)) as [->|Hne].
    + rewrite Hthis. split.
      * intros (-> & Hr & Hp). split; [done|]. exists st'. by rewrite lookup_insert_eq.
      * intros (Hr & st'' & [[-> <-]|[Hne Hs']]%lookup_insert_Some & Hp); [done|]. destruct Hne.
        by eapply Hown; [exact Hs|exact Hs'| |apply probes_owns].
    + destruct (Hother o' Hne) as (-> & Hp & Hr). rewrite Hfl, Hr. apply and_iff_compat_l. split; intros (st'' & Hs' & Hp').
      * destruct (decide (s' = s)) as [->|]; [|exists st''; by rewrite lookup_insert_ne].
        rewrite Hs in Hs'. simplify_eq. exists st'. rewrite lookup_insert_eq. split; [done|]. by apply Hp.
      * apply lookup_insert_Some in Hs' as [[-> <-]|[_ Hs']]; [|by exists st'']. exists st. split; [done|]. by apply Hp.
Qed.

(** Arming a probe: the flag and the kernel agree. *)
Lemma arm_read_inv k sockets live next rest s st k' st' r :
  flight_inv k sockets live next rest → sockets !! s = Some st → read_ovl st ∉ rest → arm_read k s st = (k', st', r) →
  flight_inv k' (<[s := st']> sockets) live next rest ∧ same_boxes st st' ∧ write_pending st' = write_pending st ∧
  so_interest st' = so_interest st.
Proof.
  intros Hi Hs Hr. unfold arm_read. destruct (read_pending st) eqn:Ep; [intros [= <- <- <-]; by rewrite insert_id|].
  destruct (wsa_recv k s (read_ovl st)) as [k1 rc] eqn:E. pose proof (recv_flight _ _ _ _ _ E) as Hf.
  destruct (accepted rc); intros [= <- <- <-].
  - split; [|done]. apply (flight_update k _ _ _ _ rest rest s st _ (read_ovl st)); [done|done|done|by left|..].
    + intros o' Hne. rewrite Hf, lookup_insert_ne by done. split; [done|]. split; [by apply probes_read_other|done].
    + intros s'. rewrite Hf, lookup_insert_eq. split; [intros [= ->]; split_and!; [done..|by left]|by intros [-> _]].
  - rewrite insert_id by done. split; [|done]. destruct Hi as [H1 H2 H3 H4]. split; [done..|]. by rewrite Hf.
Qed.

Lemma arm_write_inv k sockets live next rest s st k' st' r :
  flight_inv k sockets live next rest → sockets !! s = Some st → write_ovl st ∉ rest → arm_write k s st = (k', st', r) →
  flight_inv k' (<[s := st']> sockets) live next rest ∧ same_boxes st st' ∧ read_pending st' = read_pending st ∧
  so_interest st' = so_interest st.
Proof.
  intros Hi Hs Hr. unfold arm_write. destruct (write_pending st) eqn:Ep; [intros [= <- <- <-]; by rewrite insert_id|].
  destruct (wsa_send k s (write_ovl st)) as [k1 rc] eqn:E. pose proof (send_flight _ _ _ _ _ E) as Hf.
  destruct (accepted rc); intros [= <- <- <-].
  - split; [|done]. apply (flight_update k _ _ _ _ rest rest s st _ (write_ovl st)); [done|done|done|by right|..].
    + intros o' Hne. rewrite Hf, lookup_insert_ne by done. split; [done|]. split; [by apply probes_write_other|done].
    + intros s'. rewrite Hf, lookup_insert_eq. split; [intros [= ->]; split_and!; [done..|by right]|by intros [-> _]].
  - rewrite insert_id by done. split; [|done]. destruct Hi as [H1 H2 H3 H4]. split; [done..|]. by rewrite Hf.
Qed.

Lemma arm_both_inv k sockets live next s st rd wr k' st' r :
  flight_inv k sockets live next [] → sockets !! s = Some st → arm_both k s st rd wr = (k', st', r) →
  flight_inv k' (<[s := st']> sockets) live next [] ∧ same_boxes st st' ∧ so_interest st' = so_interest st.
Proof.
  intros Hi Hs. unfold arm_both.
  destruct (if rd then arm_read k s st else (k, st, Ok ())) as [[k1 st1] r1] eqn:E1.
  assert (H1 : flight_inv k1 (<[s := st1]> sockets) live next [] ∧ same_boxes st st1 ∧ so_interest st1 = so_interest st).
  { destruct rd; [destruct (arm_read_inv _ _ _ _ [] _ _ _ _ _ Hi Hs (not_elem_of_nil _) E1) as (? & ? & _ & ?); auto|].
    injection E1 as <- <- <-. by rewrite insert_id. }
  destruct H1 as (Hi1 & Hb1 & Ht1). destruct r1 as [[]|e]; [|by intros [= <- <- <-]].
  destruct wr; [|by intros [= <- <- <-]]. intros E2.
  destruct (arm_write_inv _ _ _ _ [] s st1 _ _ _ Hi1 (lookup_insert_eq _ _ _) (not_elem_of_nil _) E2) as (Hi2 & Hb2 & _ & Ht2).
  rewrite insert_insert_eq in Hi2. split; [done|]. split; [|congruence]. destruct Hb1, Hb2. split; congruence.
Qed.

(** A completion that is handled: its box leaves [rest]. *)
Lemma completed_inv k sockets live next o rest s st :
  flight_inv k sockets live next (o :: rest) → o ∉ rest → sockets !! s = Some st → probes st o →
  (o = read_ovl st → flight_inv k (<[s := set_read_pending false st]> sockets) live next rest) ∧
  (o = write_ovl st → flight_inv k (<[s := set_write_pending false st]> sockets) live next rest).
Proof.
  intros Hi Hr Hs Hp. pose proof (fi_two _ _ _ _ _ Hi _ _ Hs) as H2.
  assert (Hnone : ∀ s', io_flight k !! o ≠ Some s') by (intros s' [Hin _]%(fi_flight _ _ _ _ _ Hi); by destruct Hin; left).
  split; intros ->.
  - apply (flight_update k k _ _ _ (read_ovl st :: rest) rest s st _ (read_ovl st)); [done|done|done|by left|..].
    + intros o' Hne. split; [done|]. split; [by apply probes_read_other|]. rewrite elem_of_cons. tauto.
    + intros s'. split; [by intros ?%Hnone|]. intros (_ & _ & [[? _]|[_ ?]]); [done|by destruct H2].
  - apply (flight_update k k _ _ _ (write_ovl st :: rest) rest s st _ (write_ovl st)); [done|done|done|by right|..].
    + intros o' Hne. split; [done|]. split; [by apply probes_write_other|]. rewrite elem_of_cons. tauto.
    + intros s'. split; [by intros ?%Hnone|]. intros (_ & _ & [[_ ?]|[? _]]); [by destruct H2|done].
Qed.

Lemma handle_completion_inv k sockets live next events s o rest st k' sockets' events' :
  flight_inv k sockets live next (o :: rest) → o ∉ rest → sockets !! s = Some st → probes st o →
  handle_completion k sockets events (s, o) = (k', sockets', events') →
  flight_inv k' sockets' live next rest ∧ ∃ st', sockets' = <[s := st']> sockets ∧ same_boxes st st' ∧
    (∀ o', o' ≠ o → probes st' o' ↔ probes st o').
Proof.
  intros Hi Hr Hs Hp. destruct (completed_inv _ _ _ _ _ _ _ _ Hi Hr Hs Hp) as [Hread Hwrite].
  pose proof (fi_two _ _ _ _ _ Hi _ _ Hs) as H2. unfold handle_completion. rewrite Hs.
  destruct (Nat.eqb_spec o (read_ovl st)) as [->|Hnr].
  - rewrite (proj2 (Nat.eqb_neq _ _) H2). unfold complete_read. cbn [so_interest set_read_pending]. specialize (Hread eq_refl).
    destruct (is_readable (so_interest st)).
    + destruct (arm_read k s (set_read_pending false st)) as [[k1 st1] r1] eqn:E. intros [= <- <- <-].
      destruct (arm_read_inv _ _ _ _ _ _ _ _ _ _ Hread (lookup_insert_eq _ _ _) Hr E) as (Hi1 & Hb1 & Hw1 & _).
      rewrite insert_insert_eq in Hi1. split; [done|]. exists st1. split; [done|]. split; [done|].
      intros o' Hne. destruct Hb1 as [Hb1 Hb2]. cbn in *. unfold probes. rewrite Hb1, Hb2, Hw1. intuition congruence.
    + intros [= <- <- <-]. split; [done|]. eexists. split; [done|]. split; [done|]. intros o' Hne. unfold probes. cbn. intuition congruence.
  - destruct Hp as [[_ ?]|[Hp ->]]; [done|]. rewrite Nat.eqb_refl. unfold complete_write. cbn [so_interest set_write_pending].
    specialize (Hwrite eq_refl). destruct (is_writable (so_interest st)).
    + destruct (arm_write k s (set_write_pending false st)) as [[k1 st1] r1] eqn:E. intros [= <- <- <-].
      destruct (arm_write_inv _ _ _ _ _ _ _ _ _ _ Hwrite (lookup_insert_eq _ _ _) Hr E) as (Hi1 & Hb1 & Hw1 & _).
      rewrite insert_insert_eq in Hi1. split; [done|]. exists st1. split; [done|]. split; [done|].
      intros o' Hne. destruct Hb1 as [Hb1 Hb2]. cbn in *. unfold probes. rewrite Hb1, Hb2, Hw1. intuition congruence.
    + intros [= <- <- <-]. split; [done|]. eexists. split; [done|]. split; [done|]. intros o' Hne. unfold probes. cbn. intuition congruence.
Qed.

Lemma handle_completions_inv live next buf : ∀ k sockets events k' sockets' events',
  flight_inv k sockets live next buf.*2 → NoDup buf.*2 →
  (∀ s o, (s, o) ∈ buf → ∃ st, sockets !! s = Some st ∧ probes st o) →
  handle_completions k sockets events buf = (k', sockets', events') → flight_inv k' sockets' live next [].
Proof.
  induction buf as [|[s o] buf IH]; intros k sockets events k' sockets' events' Hi Hnd Hbuf; cbn [handle_completions]; [by intros [= <- <- _]|].
  cbn [fmap list_fmap snd] in Hi, Hnd. apply NoDup_cons in Hnd as [Hno Hnd].
  destruct (handle_completion k sockets events (s, o)) as [[k1 sockets1] events1] eqn:E.
  destruct (Hbuf s o) as (st & Hs & Hp); [left|].
  destruct (handle_completion_inv _ _ _ _ _ _ _ _ _ _ _ _ Hi Hno Hs Hp E) as (Hi1 & st1 & -> & Hb1 & Hpr).
  intros Hrest. eapply (IH k1); [done|done| |exact Hrest].
  intros s' o' Hin. destruct (Hbuf s' o') as (st' & Hs' & Hp'); [by right|].
  assert (o' ≠ o) by (intros ->; apply Hno, list_elem_of_fmap; by exists (s', o)).
  destruct (decide (s' = s)) as [->|Hne]; [|exists st'; by rewrite lookup_insert_ne].
  exists st1. rewrite lookup_insert_eq. split; [done|]. apply Hpr; [done|]. by simplify_eq.
Qed.

(** A fresh pair of boxes for a socket that had none. *)
Lemma new_state_inv k sockets live next s t i : flight_inv k sockets live next [] → sockets !! s = None →
  flight_inv k (<[s := mkSocketState t i next (S next) false false]> sockets) ({[next; S next]} ∪ live) (S (S next)) [].
Proof.
  intros [Hbox Htwo Hown Hfl] Hs. split.
  - intros s' st o [[-> <-]|[_ Hs']]%lookup_insert_Some Ho.
    + destruct Ho as [->| ->]; cbn; (split; [lia|set_solver]).
    + destruct (Hbox _ _ _ Hs' Ho). split; [lia|set_solver].
  - intros s' st [[-> <-]|[_ Hs']]%lookup_insert_Some; [cbn; lia|by eapply Htwo].
  - intros s1 s2 st1 st2 o [[-> <-]|[_ H1]]%lookup_insert_Some [[-> <-]|[_ H2]]%lookup_insert_Some Ho1 Ho2; [done|..|by eapply Hown].
    + destruct (Hbox _ _ _ H2 Ho2). destruct Ho1 as [->| ->]; cbn in *; lia.
    + destruct (Hbox _ _ _ H1 Ho1). destruct Ho2 as [->| ->]; cbn in *; lia.
  - intros o s'. rewrite Hfl. apply and_iff_compat_l. split; intros (st & Hs' & Hp).
    + exists st. split; [|done]. rewrite lookup_insert_ne; [done|]. intros ->. congruence.
    + apply lookup_insert_Some in Hs' as [[-> <-]|[_ Hs']]; [|by exists st]. by destruct Hp as [[? _]|[? _]].
Qed.

Definition iocp_inv (r : IocpReactor) : Prop := flight_inv (ir_port r) (ir_sockets r) (ir_live r) (ir_next r) [].

Lemma register_inv r s t i r' : iocp_inv r → ir_sockets r !! s = None → iocp_register r s t i = (r', Ok ()) → iocp_inv r'.
Proof.
  intros Hi Hs. unfold iocp_register. destruct (s =? INVALID_SOCKET); [done|]. unfold associate_and_arm.
  destruct (io_associate _ _) as [k [[]|]] eqn:E; [|done].
  assert (Hk : flight_inv k (ir_sockets r) (ir_live r) (ir_next r) []).
  { destruct Hi as [H1 H2 H3 H4]. split; [done..|]. by rewrite (associate_flight _ _ _ _ E). }
  destruct (arm_both _ _ _ _ _) as [[k1 st1] [[]|]] eqn:Ea; [|done]. intros [= <-]. rewrite Hs. cbn [free_state].
  destruct (arm_both_inv _ _ _ _ _ _ _ _ _ _ _ (new_state_inv _ _ _ _ s t i Hk Hs) (lookup_insert_eq _ _ _) Ea) as (Hi1 & _).
  rewrite insert_insert_eq in Hi1. exact Hi1.
Qed.

Lemma reregister_inv r s t i r' res : iocp_inv r → iocp_reregister r s t i = (r', res) → iocp_inv r'.
Proof.
  intros Hi. unfold iocp_reregister. destruct (ir_sockets r !! s) as [st|] eqn:Hs; [|by intros [= <- _]].
  destruct (arm_both _ _ _ _ _) as [[k1 st1] r1] eqn:Ea. intros [= <- _].
  assert (Hw : flight_inv (ir_port r) (<[s := set_watch t i st]> (ir_sockets r)) (ir_live r) (ir_next r) []).
  { eapply (flight_update (ir_port r) _ _ _ _ [] [] s st _ (read_ovl st)); [done|done|done|by left|done|].
    intros s'. rewrite (fi_flight _ _ _ _ _ Hi). unfold probes. cbn. split.
    - intros (Hr & st' & Hs' & Hp). assert (s' = s) as ->; [|by simplify_eq].
      eapply (fi_own _ _ _ _ _ Hi); [exact Hs'|exact Hs|by apply probes_owns|by left].
    - intros (-> & Hr & Hp). split; [done|]. by exists st. }
  destruct (arm_both_inv _ _ _ _ _ _ _ _ _ _ _ Hw (lookup_insert_eq _ _ _) Ea) as (Hi1 & _).
  rewrite insert_insert_eq in Hi1. exact Hi1.
Qed.

Lemma poll_inv r events timeout r' events' res : iocp_inv r → iocp_poll r events timeout = (r', events', res) → iocp_inv r'.
Proof.
  intros Hi. unfold iocp_poll. destruct (get_completions _ _ _) as [k [buf|e]] eqn:E.
  2:{ intros [= <- _ _]. destruct Hi as [H1 H2 H3 H4]. split; [done..|]. cbn. by rewrite (completions_err _ _ _ _ _ E). }
  destruct (completions_ok _ _ _ _ _ E) as (Hnd & Hin & Hk).
  destruct (handle_completions _ _ _ _) as [[k1 sockets1] evs1] eqn:Eh. intros [= <- _ _].
  eapply (handle_completions_inv _ _ buf k); [|done| |exact Eh].
  - destruct Hi as [H1 H2 H3 H4]. split; [done..|]. intros o s. rewrite Hk. destruct (decide (o ∈ buf.*2)) as [Ho|Ho]; [intuition congruence|].
    rewrite H4. rewrite elem_of_nil. intuition congruence.
  - intros s o Hso. apply Hin, (fi_flight _ _ _ _ _ Hi) in Hso as [_ Hst]. exact Hst.
Qed.

(** A refused probe is not in flight. *)
Lemma arm_both_refused k s st rd wr k' st' e : rd && wr = false → arm_both k s st rd wr = (k', st', Err e) → io_flight k' = io_flight k ∧ st' = st.
Proof.
  unfold arm_both. destruct rd, wr; try done; intros _; cbn beta iota.
  - unfold arm_read. destruct (read_pending st); [done|]. destruct (wsa_recv k s _) as [k1 rc] eqn:E. pose proof (recv_flight _ _ _ _ _ E) as Hf.
    destruct (accepted rc); [done|]. by intros [= <- <- _].
  - unfold arm_write. destruct (write_pending st); [done|]. destruct (wsa_send k s _) as [k1 rc] eqn:E. pose proof (send_flight _ _ _ _ _ E) as Hf.
    destruct (accepted rc); [done|]. by intros [= <- <- _].
Qed.

Lemma register_failed_inv r s t i r' e : iocp_inv r → is_readable i && is_writable i = false →
  iocp_register r s t i = (r', Err e) → iocp_inv r'.
Proof.
  intros Hi Hone. unfold iocp_register, associate_and_arm. destruct (s =? INVALID_SOCKET); [by intros [= <- _]|].
  destruct (io_associate _ _) as [k [[]|e1]] eqn:Ea; pose proof (associate_flight _ _ _ _ Ea) as Hk.
  - destruct (arm_both _ _ _ _ _) as [[k1 st1] [[]|e2]] eqn:E; [done|]. intros [= <- _].
    destruct (arm_both_refused _ _ _ _ _ _ _ _ Hone E) as [Hf ->]. destruct Hi as [H1 H2 H3 H4].
    split; cbn [ir_port ir_sockets ir_live ir_next]; [|done|done|by rewrite Hf, Hk].
    intros s' st' o Hs' Ho. destruct (H1 s' st' o Hs' Ho) as [Hlt Hin]. cbn [free_state read_ovl write_ovl]. split; [lia|].
    apply elem_of_difference. split; [set_solver|]. rewrite elem_of_union, !elem_of_singleton. lia.
  - intros [= <- _]. destruct Hi as [H1 H2 H3 H4]. split; [done..|]. cbn. by rewrite Hk.
Qed.

(** *** Armed probes *)

(** A kernel that accepts every probe. *)
Definition accepting : Prop :=
  (∀ k s o, accepted (wsa_recv k s o).2 = true) ∧ (∀ k s o, accepted (wsa_send k s o).2 = true).

(** Every wanted readiness has its probe pending. *)
Definition armed_state (st : SocketState) : Prop :=
  (is_readable (so_interest st) = true → read_pending st = true) ∧ (is_writable (so_interest st) = true → write_pending st = true).
Definition armed (sockets : gmap Socket SocketState) : Prop := map_Forall (fun _ st => armed_state st) sockets.

Lemma arm_read_accepting k s st : accepting → ∃ k', arm_read k s st = (k', set_read_pending true st, Ok ()).
Proof.
  intros [Hr _]. unfold arm_read. destruct (read_pending st) eqn:E; [exists k; destruct st; cbn in *; by subst|].
  specialize (Hr k s (read_ovl st)). destruct (wsa_recv k s (read_ovl st)) as [k' rc]. cbn in Hr. rewrite Hr. by exists k'.
Qed.
Lemma arm_write_accepting k s st : accepting → ∃ k', arm_write k s st = (k', set_write_pending true st, Ok ()).
Proof.
  intros [_ Hr]. unfold arm_write. destruct (write_pending st) eqn:E; [exists k; destruct st; cbn in *; by subst|].
  specialize (Hr k s (write_ovl st)). destruct (wsa_send k s (write_ovl st)) as [k' rc]. cbn in Hr. rewrite Hr. by exists k'.
Qed.

Lemma arm_both_accepting k s st rd wr : accepting → ∃ k' st', arm_both k s st rd wr = (k', st', Ok ()) ∧
  so_interest st' = so_interest st ∧ read_pending st' = rd || read_pending st ∧ write_pending st' = wr || write_pending st.
Proof.
  intros Ha. unfold arm_both. destruct rd; [destruct (arm_read_accepting k s st Ha) as [k1 ->]|];
    (destruct wr; [edestruct arm_write_accepting as [k2 ->]; [done|]|]); by eexists _, _.
Qed.

Lemma handle_completion_armed k sockets events entry k' sockets' events' : accepting → armed sockets →
  handle_completion k sockets events entry = (k', sockets', events') → armed sockets'.
Proof.
  intros Ha Harm. destruct entry as [s o]. unfold handle_completion. destruct (sockets !! s) as [st|] eqn:Hs; [|by intros [= _ <- _]].
  assert (Hst : armed_state st) by by eapply Harm.
  destruct (if (o =? read_ovl st)%nat then complete_read k s st else (k, st, EMPTY)) as [[k1 st1] r1] eqn:E1.
  assert (H1 : armed_state st1).
  { destruct (o =? read_ovl st)%nat; [|by injection E1 as <- <- <-]. revert E1. unfold complete_read. cbn [set_read_pending so_interest].
    destruct (is_readable (so_interest st)) eqn:Er.
    - edestruct arm_read_accepting as [k2 ->]; [done|]. intros [= <- <- <-]. destruct Hst. by split.
    - intros [= <- <- <-]. destruct Hst. split; cbn; [congruence|done]. }
  destruct (if (o =? write_ovl st)%nat then complete_write k1 s st1 r1 else (k1, st1, r1)) as [[k2 st2] r2] eqn:E2.
  assert (H2 : armed_state st2).
  { destruct (o =? write_ovl st)%nat; [|by injection E2 as <- <- <-]. revert E2. unfold complete_write. cbn [set_write_pending so_interest].
    destruct (is_writable (so_interest st1)) eqn:Er.
    - edestruct arm_write_accepting as [k3 ->]; [done|]. intros [= <- <- <-]. destruct H1. by split.
    - intros [= <- <- <-]. destruct H1. split; cbn; [done|congruence]. }
  intros [= _ <- _]. by apply map_Forall_insert_2.
Qed.

Lemma handle_completions_armed buf : ∀ k sockets events k' sockets' events', accepting → armed sockets →
  handle_completions k sockets events buf = (k', sockets', events') → armed sockets'.
Proof.
  induction buf as [|entry buf IH]; intros k sockets events k' sockets' events' Ha Harm; cbn [handle_completions]; [by intros [= _ <- _]|].
  destruct (handle_completion k sockets events entry) as [[k1 s1] e1] eqn:E. apply IH; [done|]. by eapply handle_completion_armed.
Qed.

(** ** Runs *)

(** A run without [deregister]: registrations of sources that are not registered, failed
    registrations for at most one readiness, reregistrations and polls whatever their
    result. *)
Inductive iocp_step : IocpReactor → IocpReactor → Prop :=
| step_register r s t i r' : ir_sockets r !! s = None → iocp_register r s t i = (r', Ok ()) → iocp_step r r'
| step_register_failed r s t i r' e : is_readable i && is_writable i = false → iocp_register r s t i = (r', Err e) → iocp_step r r'
| step_reregister r s t i r' res : iocp_reregister r s t i = (r', res) → iocp_step r r'
| step_poll r events timeout r' events' res : iocp_poll r events timeout = (r', events', res) → iocp_step r r'.

Lemma iocp_step_inv r r' : iocp_step r r' → iocp_inv r → iocp_inv r'.
Proof.
  intros [] Hi; [by eapply register_inv|by eapply register_failed_inv|by eapply reregister_inv|by eapply poll_inv].
Qed.

Lemma step_armed r r' : accepting → iocp_step r r' → armed (ir_sockets r) → armed (ir_sockets r').
Proof.
  intros Ha Hstep Harm. destruct Hstep as [r s t i r' Hs E|r s t i r' e Hone E|r s t i r' res E|r events timeout r' events' res E].
  2:{ revert E. unfold iocp_register, associate_and_arm. destruct (s =? INVALID_SOCKET); [by intros [= <- _]|].
      destruct (io_associate _ _) as [k [[]|]]; [|by intros [= <- _]].
      destruct (arm_both _ _ _ _ _) as [[k1 st1] [[]|e2]]; [done|]. by intros [= <- _]. }
  - revert E. unfold iocp_register, associate_and_arm. destruct (s =? INVALID_SOCKET); [done|].
    destruct (io_associate _ _) as [k [[]|]]; [|done].
    edestruct arm_both_accepting as (k1 & st1 & -> & Hi & Hr & Hw); [done|]. intros [= <-]. apply map_Forall_insert_2; [|done].
    unfold armed_state. rewrite Hi, Hr, Hw. cbn. by rewrite !orb_false_r.
  - revert E. unfold iocp_reregister. destruct (ir_sockets r !! s) as [st|] eqn:Hs; [|by intros [= <- _]].
    edestruct arm_both_accepting as (k1 & st1 & -> & Hi & Hr & Hw); [done|]. intros [= <- _]. apply map_Forall_insert_2; [|done].
    destruct (Harm s st Hs) as [H1 H2]. unfold armed_state. rewrite Hi, Hr, Hw. cbn.
    destruct (is_readable i), (is_writable i), (is_readable (so_interest st)), (is_writable (so_interest st)); cbn; auto.
  - revert E. unfold iocp_poll. destruct (get_completions _ _ _) as [k [buf|e]]; [|by intros [= <- _ _]].
    destruct (handle_completions _ _ _ _) as [[k1 sockets1] evs1] eqn:Eh. intros [= <- _ _]. by eapply handle_completions_armed.
Qed.

Lemma rtc_step_keeps (P : IocpReactor → Prop) r r' :
  (∀ r r', iocp_step r r' → P r → P r') → rtc iocp_step r r' → P r → P r'.
Proof. intros HP. induction 1; eauto. Qed.

End IocpLemmas.

(** [IocpReactor::new] on the port [k]. *)
Definition iocp_new {IK : IocpKernel} (k : io_state) : IocpReactor := mkIocp k 0 64 ∅ 0 ∅.

(** ** Theorems *)

Section IocpProps.
  Context {IK : IocpKernel} {IL : IocpLaws IK}.

(** C39: The completion-port reactor, as long as no source is registered twice, nothing is
    deregistered and no registration for both readinesses fails (the last two break it,
    see [deregister_frees_in_flight] and [failed_register_frees_in_flight]): after any
    such sequence of registrations, reregistrations and polls, with any results of the
    latter two, every overlapped structure the kernel still holds is allocated, and the
    pending flags say exactly which probes are in flight.  When moreover the kernel
    accepts every probe (a refused one leaves its source silent, see
    [failed_rearm_stays_silent]), every source has one in flight for each readiness it is
    watched for. *)
Theorem iocp_safe_and_armed (k : io_state) (r : IocpReactor) :
  io_flight k = ∅ → rtc iocp_step (iocp_new k) r →
  (∀ o s, io_flight (ir_port r) !! o = Some s → o ∈ ir_live r) ∧
  (∀ s st, ir_sockets r !! s = Some st →
    (read_pending st = true ↔ io_flight (ir_port r) !! read_ovl st = Some s) ∧
    (write_pending st = true ↔ io_flight (ir_port r) !! write_ovl st = Some s)) ∧
  (accepting → ∀ s st, ir_sockets r !! s = Some st →
    (is_readable (so_interest st) = true → io_flight (ir_port r) !! read_ovl st = Some s) ∧
    (is_writable (so_interest st) = true → io_flight (ir_port r) !! write_ovl st = Some s)).
Proof.
  intros Hk Hrun. assert (Hi : iocp_inv r).
  { eapply rtc_step_keeps; [|exact Hrun|]; [intros ? ?; apply iocp_step_inv|].
    split; cbn; try (intros; by rewrite lookup_empty in *).
    intros o s. rewrite Hk, lookup_empty. setoid_rewrite lookup_empty. naive_solver. }
  assert (Hflag : ∀ s st, ir_sockets r !! s = Some st →
    (read_pending st = true ↔ io_flight (ir_port r) !! read_ovl st = Some s) ∧
    (write_pending st = true ↔ io_flight (ir_port r) !! write_ovl st = Some s)).
  { intros s st Hs. pose proof (fi_two _ _ _ _ _ Hi s st Hs) as H2.
    split; rewrite (fi_flight _ _ _ _ _ Hi), Hs; unfold probes; split;
      [intros Hp; split; [apply not_elem_of_nil|]; exists st; auto|intros (_ & st' & [= <-] & [[? ?]|[? ?]]); [done|congruence]
      |intros Hp; split; [apply not_elem_of_nil|]; exists st; auto|intros (_ & st' & [= <-] & [[? ?]|[? ?]]); [congruence|done]]. }
  split; [|split; [exact Hflag|]].
  - intros o s (_ & st & Hs & Hp)%(fi_flight _ _ _ _ _ Hi). eapply (fi_box _ _ _ _ _ Hi); [exact Hs|by apply probes_owns].
  - intros Ha s st Hs. assert (Harm : armed (ir_sockets r)).
    { eapply (rtc_step_keeps (fun r => armed (ir_sockets r))); [|exact Hrun|apply map_Forall_empty]. intros ? ?. by apply step_armed. }
    destruct (Harm s st Hs) as [Hr Hw]. destruct (Hflag s st Hs) as [<- <-]. split; auto.
Qed.

(** Deregistering a source frees the overlapped structure of its pending probe while
    the kernel still holds it. *)
Theorem deregister_frees_in_flight (r : IocpReactor) (s : RawSource) (st : SocketState) :
  iocp_inv r → ir_sockets r !! s = Some st → read_pending st = true →
  let r' := (iocp_deregister r s).1 in
  io_flight (ir_port r') !! read_ovl st = Some s ∧ read_ovl st ∉ ir_live r'.
Proof.
  intros Hi Hs Hp r'. cbn. rewrite Hs. split; [|cbn; set_solver]. apply (fi_flight _ _ _ _ _ Hi).
  split; [apply not_elem_of_nil|]. exists st. split; [done|by left].
Qed.

(** A registration for both readinesses whose second probe is refused frees both
    structures while the first is in flight. *)
Theorem failed_register_frees_in_flight (r r' : IocpReactor) (s : RawSource) (t : Token) (e : IoError) (k1 k2 k3 : io_state) (rc : Z) :
  io_associate (ir_port r) s = (k1, Ok ()) → wsa_recv k1 s (ir_next r) = (k2, None) →
  wsa_send k2 s (S (ir_next r)) = (k3, Some rc) → rc ≠ WSA_IO_PENDING →
  iocp_register r s t (Z.lor READABLE WRITABLE) = (r', Err e) → s ≠ INVALID_SOCKET →
  io_flight (ir_port r') !! ir_next r = Some s ∧ ir_next r ∉ ir_live r'.
Proof.
  intros Ha Hr Hs Hrc E Hinv. revert E. unfold iocp_register. rewrite (proj2 (Z.eqb_neq _ _) Hinv). unfold associate_and_arm. rewrite Ha.
  unfold arm_both. change (is_readable (Z.lor READABLE WRITABLE)) with true. change (is_writable (Z.lor READABLE WRITABLE)) with true.
  cbv iota. unfold arm_read. cbn [read_pending read_ovl]. rewrite Hr. cbn [accepted].
  unfold arm_write. cbn [write_pending write_ovl set_read_pending]. rewrite Hs. unfold accepted at 1. rewrite (proj2 (Z.eqb_neq _ _) Hrc).
  intros [= <- _]. cbn. split; [|set_solver].
  rewrite (send_flight _ _ _ _ _ Hs). unfold accepted. rewrite (proj2 (Z.eqb_neq _ _) Hrc).
  rewrite (recv_flight _ _ _ _ _ Hr). cbn. apply lookup_insert_eq.
Qed.

(** A source whose probe could not be armed again in a poll stays silent: registering
    the same interest again does not arm it. *)
Theorem failed_rearm_stays_silent (r r' : IocpReactor) (s : RawSource) (t : Token) (st : SocketState) (res : result () IoError) :
  ir_sockets r !! s = Some st → is_readable (so_interest st) = true → read_pending st = false →
  iocp_reregister r s t (so_interest st) = (r', res) →
  ∃ st', ir_sockets r' !! s = Some st' ∧ read_pending st' = false.
Proof.
  intros Hs Hi Hp. unfold iocp_reregister. rewrite Hs. unfold arm_both. rewrite Hi. cbn [andb negb].
  destruct (is_writable (so_interest st) && negb (is_writable (so_interest st))) eqn:Ew; [by destruct (is_writable (so_interest st))|].
  intros [= <- _]. cbn. exists (set_watch t (so_interest st) st). by rewrite lookup_insert_eq.
Qed.

End IocpProps.

(** ** Witnesses *)

(** A port on which every probe completes at the next poll. *)
#[local] Instance demo_port : IocpKernel := {
  io_state := gmap Ovl Socket;
  io_associate k _ := (k, Ok ());
  wsa_recv k s o := (<[o := s]> k, Some WSA_IO_PENDING);
  wsa_send k s o := (<[o := s]> k, None);
  get_completions k _ _ := (∅, Ok ((fun e => (e.2, e.1)) <$> map_to_list k));
}.

#[local] Instance demo_port_laws : IocpLaws demo_port.
Proof.
  refine {| io_flight := (fun k => k) : @io_state demo_port → gmap Ovl Socket |}.
  - by intros k s k' r [= <- _].
  - by intros k s o k' rc [= <- <-].
  - by intros k s o k' rc [= <- <-].
  - done.
  - intros k max t k' es [= <- <-]. rewrite <-list_fmap_compose. split; [apply NoDup_fst_map_to_list|]. split.
    + intros s o ([o' s'] & [= -> ->] & Hin)%list_elem_of_fmap. by apply elem_of_map_to_list.
    + intros o. destruct (decide _) as [|Hni]; [done|]. rewrite lookup_empty. destruct ((k : gmap Ovl Socket) !! o) as [s|] eqn:E; [|done].
      destruct Hni. apply list_elem_of_fmap. exists (o, s). split; [done|]. by apply elem_of_map_to_list.
Defined.

Definition demo_iocp_1 : IocpReactor := (iocp_register (iocp_new (∅ : @io_state demo_port)) 5 9 (Z.lor READABLE WRITABLE)).1.
Definition demo_iocp_2 : IocpReactor := (iocp_poll demo_iocp_1 [] None).1.1.

Example iocp_safe_and_armed_witness :
  (∀ o s, io_flight (ir_port demo_iocp_2) !! o = Some s → o ∈ ir_live demo_iocp_2) ∧
  io_flight (ir_port demo_iocp_2) !! 0%nat = Some 5 ∧ (iocp_poll demo_iocp_1 [] None).1.2 = [mkEvent 9 3].
Proof.
  destruct (iocp_safe_and_armed (∅ : @io_state demo_port) demo_iocp_2) as (H1 & _ & H2).
  - reflexivity.
  - eapply rtc_l; [eapply (step_register _ 5 9 (Z.lor READABLE WRITABLE)); reflexivity|].
    eapply rtc_l; [eapply (step_poll _ [] None); reflexivity|]. apply rtc_refl.
  - split; [exact H1|]. split; [|vm_compute; reflexivity].
    apply (H2 (conj (fun _ _ _ => eq_refl) (fun _ _ _ => eq_refl)) 5 (mkSocketState 9 3 0 1 true true)); vm_compute; reflexivity.
Defined.
