(* ===== verification/TunDev.v ===== *)
(** * TUN devices

    [crates/desmos-rt/src]: the creation and the packet framing of the TUN adapters of
    Linux ([linux/tun.rs]), macOS ([bsd/macos_tun.rs]) and FreeBSD
    ([bsd/freebsd_tun.rs]), and the netlink socket of
    [crates/desmos-core/src/net/watcher.rs], which is opened and closed in the same way.
    The kernel is the list of what successive system calls
    return and the set of the descriptors that are open. *)

From stdpp Require Import base gmap numbers strings list.
From Stdlib Require Import ZArith Lia.
From S2P Require Import Prelude Str Crypto Session Pipeline Netlink.

(** ** System calls *)

(** [struct sockaddr_ctl] of macOS, the argument of its [connect]. *)
Record SockaddrCtl := mkSockaddrCtl {
  sc_len : Z; sc_family : Z; ss_sysaddr : Z; sc_id : Z; sc_unit : Z; sc_reserved : list Z;
}.

(** The open descriptors, the addresses connected to and what the calls to come return. *)
Record Sys := mkSys { sy_open : gset Z; sy_connected : list SockaddrCtl; sy_returns : list (result Z IoError) }.

(** The next call; a call past the script fails. *)
Definition syscall (s : Sys) : Sys * result Z IoError :=
  match sy_returns s with
  | [] => (s, Err OtherError)
  | r :: rs => (mkSys (sy_open s) (sy_connected s) rs, r)
  end.

(** A call that opens a descriptor, and [close], whose result is ignored. *)
Definition sys_open_fd (s : Sys) : Sys * result Z IoError :=
  match syscall s with
  | (s, Ok fd) => (mkSys ({[fd]} ∪ sy_open s) (sy_connected s) (sy_returns s), Ok fd)
  | (s, Err e) => (s, Err e)
  end.
Definition sys_close (fd : Z) (s : Sys) : Sys := mkSys (sy_open s ∖ {[fd]}) (sy_connected s) (sy_returns s).

(** A call that matters only by its failure, then the rest. *)
Definition then_sys {A} (s : Sys) (k : Z → Sys → Sys * result A IoError) : Sys * result A IoError :=
  match syscall s with (s, Ok r) => k r s | (s, Err e) => (s, Err e) end.

(** ** [linux/tun.rs] *)

Definition IFNAMSIZ : nat := 16.
Definition IFF_TUN : Z := 0x0001.
Definition IFF_NO_PI : Z := 0x1000.

Record Ifreq := mkIfreq { ifr_name : bytes; ifr_union : bytes }.

(** [to_ne_bytes] on the little-endian targets. *)
Definition ne_u16 (x : Z) : bytes := [x mod 256; x / 256 mod 256].

Definition Ifreq_with_flags (name : str) (flags : Z) : result Ifreq IoError :=
  let b := as_bytes name in
  if (IFNAMSIZ <=? length b)%nat then Err InvalidInput
  else if existsb (fun c => (c =? 0) || (c =? 47)) b then Err InvalidInput
  else Ok (mkIfreq (copy_from_slice (replicate IFNAMSIZ 0) 0 b) (ne_u16 flags ++ replicate 22 0)).

(** The bytes before the first NUL. *)
Definition before_nul (b : bytes) : bytes := default b (until_nul b).
Definition cstr_name (buf : bytes) : str := from_utf8_lossy (before_nul buf).

Record Tun := mkTun { tun_fd : Z; tun_name : str }.

(** [LinuxTun::create]: [answer] is the request the kernel writes back. *)
Definition linux_create (requested : str) (answer : Ifreq → Ifreq) (s : Sys) : Sys * result Tun IoError :=
  match sys_open_fd s with
  | (s, Err e) => (s, Err e)
  | (s, Ok fd) =>
      match Ifreq_with_flags requested (Z.lor IFF_TUN IFF_NO_PI) with
      | Err e => (sys_close fd s, Err e)
      | Ok ifr =>
          match syscall s with
          | (s, Err e) => (sys_close fd s, Err e)
          | (s, Ok _) => (s, Ok (mkTun fd (cstr_name (ifr_name (answer ifr)))))
          end
      end
  end.

(** [drop]. *)
Definition tun_drop (t : Tun) (s : Sys) : Sys := if 0 <=? tun_fd t then sys_close (tun_fd t) s else s.

(** [recv] into a buffer of [cap] bytes and [send]: one call each, none for an empty
    buffer.  The bytes returned by [read] are those it wrote. *)
Definition linux_recv (read : nat → result bytes IoError) (cap : nat) : result bytes IoError :=
  if (cap =? 0)%nat then Ok [] else read cap.
Definition linux_send (write : bytes → result nat IoError) (buf : bytes) : result nat IoError :=
  match buf with [] => Ok 0%nat | _ => write buf end.

(** ** [bsd/macos_tun.rs] *)

Definition UTUN_AF_INET : Z := 2.
Definition UTUN_AF_INET6 : Z := 30.
Definition AF_HEADER_LEN : nat := 4.

(** [get_ifname]: [name_buf] and [name_len] are what [getsockopt] wrote. *)
Definition get_ifname (name_buf : bytes) (name_len : nat) (s : Sys) : panics (Sys * result str IoError) :=
  match syscall s with
  | (s, Err e) => Some (s, Err e)
  | (s, Ok _) =>
      if (name_len =? 0)%nat then Some (s, Err OtherError)
      else
        last ← name_buf !! (name_len - 1)%nat;
        let end_ := if last =? 0 then (name_len - 1)%nat else name_len in
        b ← slice_checked 0 end_ name_buf;
        Some (s, match from_utf8 b with Some n => Ok n | None => Err InvalidData end)
  end.

Definition PF_SYSTEM : Z := 32.

(** [SockaddrCtl::new]; the structure has 32 bytes. *)
Definition SockaddrCtl_new (ctl_id unit_ : Z) : SockaddrCtl := mkSockaddrCtl 32 PF_SYSTEM 2 ctl_id unit_ (replicate 5 0).

Definition sys_connect (addr : SockaddrCtl) (s : Sys) : Sys * result Z IoError :=
  match syscall s with
  | (s, Ok r) => (mkSys (sy_open s) (sy_connected s ++ [addr]) (sy_returns s), Ok r)
  | (s, Err e) => (s, Err e)
  end.

(** [MacosTun::init]: [ctl_id] is what [ioctl] wrote into the [CtlInfo].  The unit plus
    one is a checked addition of 32 bits. *)
Definition macos_init (fd ctl_id unit_ : Z) (name_buf : bytes) (name_len : nat) (s : Sys) : panics (Sys * result Tun IoError) :=
  match syscall s with
  | (s, Err e) => Some (s, Err e)
  | (s, Ok _) =>
      if 2 ^ 32 - 1 <=? unit_ then None
      else
        match sys_connect (SockaddrCtl_new ctl_id (unit_ + 1)) s with
        | (s, Err e) => Some (s, Err e)
        | (s, Ok _) =>
            '(s, r) ← get_ifname name_buf name_len s;
            match r with
            | Err e => Some (s, Err e)
            | Ok name => Some (then_sys s (fun flags s => then_sys s (fun _ s => then_sys s (fun _ s => (s, Ok (mkTun fd name))))))
            end
        end
  end.

Definition macos_create (ctl_id unit_ : Z) (name_buf : bytes) (name_len : nat) (s : Sys) : panics (Sys * result Tun IoError) :=
  match sys_open_fd s with
  | (s, Err e) => Some (s, Err e)
  | (s, Ok fd) =>
      '(s, r) ← macos_init fd ctl_id unit_ name_buf name_len s;
      Some (match r with Err e => (sys_close fd s, Err e) | Ok t => (s, Ok t) end)
  end.

Definition af_from_packet (pkt : bytes) : Z :=
  match pkt with
  | [] => UTUN_AF_INET
  | b :: _ => if Z.shiftr b 4 =? 6 then UTUN_AF_INET6 else UTUN_AF_INET
  end.

(** [u32::to_ne_bytes]. *)
Definition ne_u32 (x : Z) : bytes := [x mod 256; x / 256 mod 256; x / 65536 mod 256; x / 16777216 mod 256].

(** [recv] into a buffer of [cap] bytes: [read] returns at most as many bytes as the
    temporary buffer has. *)
Definition macos_recv (read : nat → result bytes IoError) (cap : nat) : result bytes IoError :=
  if (cap =? 0)%nat then Ok []
  else
    match read (cap + AF_HEADER_LEN)%nat with
    | Err e => Err e
    | Ok tmp =>
        let n := length tmp in
        if (n <=? AF_HEADER_LEN)%nat then Ok [] else Ok (drop AF_HEADER_LEN tmp)
    end.

Definition macos_send (write : bytes → result nat IoError) (buf : bytes) : result nat IoError :=
  match buf with
  | [] => Ok 0%nat
  | _ =>
      let? n := write (ne_u32 (af_from_packet buf) ++ buf) in
      if (n <=? AF_HEADER_LEN)%nat then Ok 0%nat else Ok (n - AF_HEADER_LEN)%nat
  end.

(** ** [bsd/freebsd_tun.rs] *)

Definition MAX_PATH_LEN : nat := 32.

Definition freebsd_recv (read : nat → result bytes IoError) (cap : nat) : result bytes IoError :=
  if (cap =? 0)%nat then Ok [] else read cap.
Definition freebsd_send (write : bytes → result nat IoError) (buf : bytes) : result nat IoError :=
  match buf with [] => Ok 0%nat | _ => write buf end.

(** The digits from the least significant on, each write checked. *)
Fixpoint dev_digits (fuel : nat) (n : Z) (pos : nat) (buf : bytes) : panics (result (nat * bytes) IoError) :=
  if n <=? 0 then Some (Ok (pos, buf))
  else
    match fuel with
    | O => None
    | S fuel =>
        if (MAX_PATH_LEN - 1 <=? pos)%nat then Some (Err InvalidInput)
        else if (length buf <=? pos)%nat then None
        else dev_digits fuel (n / 10) (S pos) (<[pos := 48 + n mod 10]> buf)
    end.

Definition dev_prefix : bytes := as_bytes (lit "/dev/tun").

(** [write_dev_path]: the buffer and the length with the terminator. *)
Definition write_dev_path (buf : bytes) (unit_ : Z) : panics (result (nat * bytes) IoError) :=
  let start := length dev_prefix in
  let buf := copy_from_slice buf 0 dev_prefix in
  r ← (if unit_ =? 0 then
         if (MAX_PATH_LEN - 1 <=? start)%nat then Some (Err InvalidInput)
         else Some (Ok (S start, <[start := 48]> buf))
       else
         r ← dev_digits (S MAX_PATH_LEN) unit_ start buf;
         match r with
         | Err e => Some (Err e)
         | Ok (pos, buf) =>
             digits ← slice_checked start pos buf;
             Some (Ok (pos, copy_from_slice buf start (reverse digits)))
         end);
  match r with
  | Err e => Some (Err e)
  | Ok (pos, buf) => if (length buf <=? pos)%nat then None else Some (Ok (S pos, <[pos := 0]> buf))
  end.

Definition freebsd_init (fd unit_ : Z) (s : Sys) : Sys * result Tun IoError :=
  then_sys s (fun flags s => then_sys s (fun _ s => then_sys s (fun _ s => (s, Ok (mkTun fd (lit "tun" ++ show_uint unit_)))))).

(** [FreeBsdTun::create], with the path it opens. *)
Definition freebsd_create (unit_ : Z) (s : Sys) : panics (bytes * (Sys * result Tun IoError)) :=
  r ← write_dev_path (replicate MAX_PATH_LEN 0) unit_;
  match r with
  | Err e => Some ([], (s, Err e))
  | Ok (len, buf) =>
      path ← slice_checked 0 len buf;
      Some (path,
        match sys_open_fd s with
        | (s, Err e) => (s, Err e)
        | (s, Ok fd) =>
            match freebsd_init fd unit_ s with
            | (s, Err e) => (sys_close fd s, Err e)
            | (s, Ok t) => (s, Ok t)
            end
        end)
  end.

(** ** [net/watcher.rs] *)

(** [NetlinkWatcher::new], which binds the socket it opened, and its drop. *)
Definition NetlinkWatcher_new (s : Sys) : Sys * result Z IoError :=
  match sys_open_fd s with
  | (s, Err e) => (s, Err e)
  | (s, Ok fd) => match syscall s with (s, Err e) => (sys_close fd s, Err e) | (s, Ok _) => (s, Ok fd) end
  end.
Definition watch (s : Sys) : Sys * result Z IoError := NetlinkWatcher_new s.
Definition NetlinkWatcher_drop (fd : Z) (s : Sys) : Sys := sys_close fd s.

(** ** Lemmas *)

Lemma syscall_open s s' r : syscall s = (s', r) → sy_open s' = sy_open s.
Proof. unfold syscall. destruct (sy_returns s); by intros [= <- _]. Qed.

Lemma then_sys_open {A} s (k : Z → Sys → Sys * result A IoError) s' r :
  (∀ x s1 s2 r2, k x s1 = (s2, r2) → sy_open s2 = sy_open s1) → then_sys s k = (s', r) → sy_open s' = sy_open s.
Proof.
  intros Hk. unfold then_sys. destruct (syscall s) as [s1 [x|e]] eqn:E; apply syscall_open in E; [|by intros [= <- _]].
  intros Hk'%Hk. congruence.
Qed.

Lemma fcntls_open {A} (t : A) s s' r :
  then_sys s (fun _ s => then_sys s (fun _ s => then_sys s (fun _ s => (s, Ok t)))) = (s', r) → sy_open s' = sy_open s.
Proof.
  apply then_sys_open. intros _ s1 s2 r2. apply then_sys_open. intros _ s3 s4 r4. apply then_sys_open. by intros _ s5 s6 r6 [= <- _].
Qed.

(** The descriptor the script returns first is a new one. *)
Definition fresh_open (s : Sys) : Prop := ∀ fd rs, sy_returns s = Ok fd :: rs → fd ∉ sy_open s.

Lemma sys_open_fd_spec s s' r : fresh_open s → sys_open_fd s = (s', r) →
  match r with Ok fd => fd ∉ sy_open s ∧ sy_open s' = {[fd]} ∪ sy_open s | Err _ => sy_open s' = sy_open s end.
Proof.
  intros Hf. unfold sys_open_fd, syscall. destruct (sy_returns s) as [|[fd|e] rs] eqn:E; intros [= <- <-]; [done| |done].
  split; [by eapply Hf|done].
Qed.

(** What creating a device leaves open. *)
Definition no_leak (s s' : Sys) (r : result Tun IoError) : Prop :=
  sy_open s' = match r with Ok t => {[tun_fd t]} ∪ sy_open s | Err _ => sy_open s end.

Lemma close_restores fd (X : gset Z) s : fd ∉ X → sy_open s = {[fd]} ∪ X → sy_open (sys_close fd s) = X.
Proof. intros Hfd Hs. unfold sys_close. cbn. rewrite Hs. set_solver. Qed.

Lemma linux_no_leak requested answer s s' r : fresh_open s → linux_create requested answer s = (s', r) → no_leak s s' r.
Proof.
  intros Hf. unfold linux_create, no_leak. destruct (sys_open_fd s) as [s1 [fd|e]] eqn:E; apply (sys_open_fd_spec _ _ _ Hf) in E;
    [|by intros [= <- <-]]. destruct E as [Hfd Hs1].
  destruct (Ifreq_with_flags _ _); [|intros [= <- <-]; by apply close_restores].
  destruct (syscall s1) as [s2 [x|e]] eqn:E2; apply syscall_open in E2; intros [= <- <-]; [cbn; congruence|].
  apply close_restores; [done|congruence].
Qed.

Lemma get_ifname_open name_buf name_len s s' r : get_ifname name_buf name_len s = Some (s', r) → sy_open s' = sy_open s.
Proof.
  unfold get_ifname. destruct (syscall s) as [s1 [x|e]] eqn:E; apply syscall_open in E; [|by intros [= <- _]].
  destruct (name_len =? 0)%nat; [by intros [= <- _]|]. destruct (name_buf !! _); [|done]. cbn.
  destruct (slice_checked _ _ _); [|done]. cbn. by intros [= <- _].
Qed.

Lemma sys_connect_open addr s s' r : sys_connect addr s = (s', r) → sy_open s' = sy_open s.
Proof.
  unfold sys_connect. destruct (syscall s) as [s1 [x|e]] eqn:E; apply syscall_open in E; by intros [= <- _].
Qed.

Lemma fcntls_result {A} (t u : A) s s' :
  then_sys s (fun _ s => then_sys s (fun _ s => then_sys s (fun _ s => (s, Ok t)))) = (s', Ok u) → u = t.
Proof.
  unfold then_sys. destruct (syscall s) as [s3 [|]]; [|done]. destruct (syscall s3) as [s4 [|]]; [|done].
  destruct (syscall s4) as [s5 [|]]; [|done]. by intros [= _ <-].
Qed.

Lemma macos_init_spec fd ctl_id unit_ name_buf name_len s s' r : macos_init fd ctl_id unit_ name_buf name_len s = Some (s', r) →
  sy_open s' = sy_open s ∧ (∀ t, r = Ok t → tun_fd t = fd).
Proof.
  unfold macos_init. destruct (syscall s) as [s1 [x|e]] eqn:E1; apply syscall_open in E1; [|by intros [= <- <-]].
  destruct (_ <=? _); [done|]. destruct (sys_connect _ _) as [s2 [y|e]] eqn:E2; apply sys_connect_open in E2; [|intros [= <- <-]; split; [congruence|done]].
  destruct (get_ifname _ _ _) as [[s3 [name|e]]|] eqn:E3; [..|done]; apply get_ifname_open in E3; cbn [mbind option_bind];
    [|intros [= <- <-]; split; [congruence|done]].
  intros [= E4]. pose proof (fcntls_open _ _ _ _ E4). split; [congruence|]. intros t ->. by rewrite (fcntls_result _ _ _ _ E4).
Qed.

Lemma macos_no_leak ctl_id unit_ name_buf name_len s s' r : fresh_open s →
  macos_create ctl_id unit_ name_buf name_len s = Some (s', r) → no_leak s s' r.
Proof.
  intros Hf. unfold macos_create, no_leak. destruct (sys_open_fd s) as [s1 [fd|e]] eqn:E; apply (sys_open_fd_spec _ _ _ Hf) in E;
    [|by intros [= <- <-]]. destruct E as [Hfd Hs1].
  destruct (macos_init _ _ _ _ _ _) as [[s2 r2]|] eqn:E2; [|done]. apply macos_init_spec in E2 as [Ho Ht]. cbn [mbind option_bind].
  destruct r2 as [t|e]; intros [= <- <-]; [rewrite (Ht t eq_refl); congruence|]. apply close_restores; [done|congruence].
Qed.

(** *** The device path *)

(** The digits of [n], least significant first. *)
Fixpoint rev_digits (k : nat) (n : Z) : bytes :=
  match k with O => [] | S k => if n <=? 0 then [] else (48 + n mod 10) :: rev_digits k (n / 10) end.

Lemma rev_digits_show k n acc : 0 < n < 10 ^ Z.of_nat k → digits_fuel k n acc = reverse (rev_digits k n) ++ acc.
Proof.
  revert n acc. induction k as [|k IH]; intros n acc Hn; [cbn in Hn; lia|]. cbn [digits_fuel rev_digits].
  rewrite (proj2 (Z.leb_gt _ _)) by lia. rewrite reverse_cons, <-app_assoc. destruct (Z.ltb_spec n 10).
  - rewrite Z.div_small, Z.mod_small by lia. destruct k; by cbn.
  - rewrite Nat2Z.inj_succ, Z.pow_succ_r in Hn by lia.
    rewrite IH; [done|]. split; [apply Z.div_str_pos; lia|]. apply Z.div_lt_upper_bound; lia.
Qed.

Lemma rev_digits_length k n : (length (rev_digits k n) <= k)%nat.
Proof. revert n. induction k as [|k IH]; intros n; cbn; [lia|]. destruct (n <=? 0); cbn; [lia|]. specialize (IH (n / 10)). lia. Qed.

Lemma dev_digits_spec k : ∀ fuel n pos buf, 0 <= n < 10 ^ Z.of_nat k → (k <= fuel)%nat → (pos + k <= 31)%nat → length buf = MAX_PATH_LEN →
  dev_digits fuel n pos buf = Some (Ok ((pos + length (rev_digits k n))%nat, list_inserts pos (rev_digits k n) buf)).
Proof.
  induction k as [|k IH]; intros fuel n pos buf Hn Hf Hp Hl.
  { cbn in Hn. assert (n = 0) as -> by lia. by destruct fuel; cbn; rewrite Nat.add_0_r. }
  destruct fuel as [|fuel]; [lia|]. cbn [dev_digits rev_digits]. destruct (Z.leb_spec n 0); [cbn; by rewrite Nat.add_0_r|].
  unfold MAX_PATH_LEN in *. rewrite (proj2 (Nat.leb_gt _ _)), (proj2 (Nat.leb_gt _ _)) by lia.
  rewrite Nat2Z.inj_succ, Z.pow_succ_r in Hn by lia.
  rewrite IH; [|split; [apply Z.div_pos; lia|apply Z.div_lt_upper_bound; lia]|lia|lia|by rewrite length_insert].
  cbn [length list_inserts]. do 3 f_equal; [lia|]. by rewrite list_insert_inserts_lt by lia.
Qed.

Lemma rev_digits_enough k j n : 0 <= n < 10 ^ Z.of_nat k → n < 10 ^ Z.of_nat j → rev_digits k n = rev_digits j n.
Proof.
  revert j n. induction k as [|k IH]; intros j n Hk Hj.
  { assert (n = 0) as -> by (cbn in Hk; lia). by destruct j. }
  destruct j as [|j]; cbn [rev_digits]; [assert (n = 0) as -> by (cbn in Hj; lia); done|].
  destruct (Z.leb_spec n 0); [done|]. f_equal. rewrite Nat2Z.inj_succ, Z.pow_succ_r in Hk, Hj by lia.
  apply IH; [split; [apply Z.div_pos; lia|]|]; apply Z.div_lt_upper_bound; lia.
Qed.

Lemma show_uint_rev n k : 0 < n < 10 ^ Z.of_nat k → show_uint n = reverse (rev_digits k n).
Proof.
  intros Hn. unfold show_uint. rewrite rev_digits_show, app_nil_r by (split; [lia|apply show_uint_fuel; lia]).
  f_equal. apply rev_digits_enough; [split; [lia|apply show_uint_fuel; lia]|lia].
Qed.

Lemma write_dev_path_spec buf unit_ : length buf = MAX_PATH_LEN → 0 <= unit_ < 2 ^ 32 →
  ∃ len buf', write_dev_path buf unit_ = Some (Ok (len, buf')) ∧ length buf' = MAX_PATH_LEN ∧ (len <= MAX_PATH_LEN)%nat ∧
    take len buf' = as_bytes (lit "/dev/tun" ++ show_uint unit_) ++ [0].
Proof.
  intros Hl Hu. do 32 (destruct buf as [|? buf]; [done|]). destruct buf; [clear Hl|done].
  unfold write_dev_path. destruct (Z.eqb_spec unit_ 0) as [->|Hz].
  { eexists _, _. split; [reflexivity|]. split_and!; [done|apply Nat.leb_le; reflexivity|reflexivity]. }
  assert (Hb : 0 < unit_ < 10 ^ Z.of_nat 10) by (cbn; lia).
  rewrite as_bytes_app, (as_bytes_ascii (show_uint unit_)) by (eapply Forall_impl; [apply show_uint_digits; lia|cbn; lia]).
  rewrite (show_uint_rev unit_ 10 Hb). set (ds := rev_digits 10 unit_).
  assert (Hd : (length ds <= 10)%nat) by apply rev_digits_length.
  set (b0 := copy_from_slice _ 0 dev_prefix). assert (Hl0 : length b0 = 32%nat) by (unfold b0; by rewrite length_inserts).
  assert (Hp : take 8 b0 = dev_prefix) by reflexivity. clearbody b0.
  change (length dev_prefix) with 8%nat.
  rewrite (dev_digits_spec 10); [fold ds|lia|unfold MAX_PATH_LEN; lia|lia|exact Hl0]. cbn [mbind option_bind].
  rewrite (copy_from_slice_eq b0) by (rewrite Hl0; fold ds; lia). rewrite Hp.
  unfold slice_checked. rewrite !length_app, length_drop, Hl0. change (length dev_prefix) with 8%nat.
  rewrite (proj2 (Nat.leb_le 8 _)), (proj2 (Nat.leb_le (8 + length ds) _)) by lia. cbn [andb mbind option_bind].
  assert (Hs : slice 8 (8 + length ds) (dev_prefix ++ ds ++ drop (8 + length ds) b0) = ds).
  { unfold slice. rewrite (drop_app_length' dev_prefix) by done. by rewrite take_app_length' by lia. }
  rewrite Hs. rewrite copy_from_slice_eq by (rewrite !length_app, length_drop, length_reverse, Hl0; change (length dev_prefix) with 8%nat; lia).
  rewrite length_reverse, take_app_length' by done. rewrite (app_assoc dev_prefix ds), (drop_app_length' (dev_prefix ++ ds)) by (rewrite length_app; done).
  rewrite !length_app, length_reverse, length_drop, Hl0. change (length dev_prefix) with 8%nat.
  rewrite (proj2 (Nat.leb_gt _ _)) by lia. eexists _, _. split; [reflexivity|].
  rewrite length_insert, !length_app, length_reverse, length_drop, Hl0. change (length dev_prefix) with 8%nat.
  split_and!; [unfold MAX_PATH_LEN; lia|unfold MAX_PATH_LEN; lia|].
  rewrite (app_assoc dev_prefix). erewrite take_S_r by (apply list_lookup_insert_eq; rewrite !length_app, length_reverse, length_drop, Hl0; change (length dev_prefix) with 8%nat; lia).
  rewrite take_insert_ge by lia. rewrite take_app_length' by (rewrite length_app, length_reverse; done). done.
Qed.

Lemma freebsd_no_leak unit_ s path s' r : fresh_open s → freebsd_create unit_ s = Some (path, (s', r)) → no_leak s s' r.
Proof.
  intros Hf. unfold freebsd_create, no_leak. destruct (write_dev_path _ _) as [[[len buf]|e]|]; cbn [mbind option_bind];
    [|by intros [= _ <- <-]|done].
  destruct (slice_checked _ _ _) as [p|]; [|done]. cbn [mbind option_bind]. intros [= _ E']. revert E'.
  destruct (sys_open_fd s) as [s1 [fd|e]] eqn:E; apply (sys_open_fd_spec _ _ _ Hf) in E; [|by intros [= <- <-]]. destruct E as [Hfd Hs1].
  destruct (freebsd_init _ _ _) as [s2 [t|e]] eqn:E2; pose proof (fcntls_open _ _ _ _ E2) as Ho; intros [= <- <-].
  - rewrite (fcntls_result _ _ _ _ E2). cbn. congruence.
  - apply close_restores; [done|congruence].
Qed.

(** *** Framing *)

Lemma macos_send_whole (write : bytes → result nat IoError) w buf :
  buf ≠ [] → w = ne_u32 (af_from_packet buf) ++ buf → write w = Ok (length w) → macos_send write buf = Ok (length buf).
Proof.
  intros Hb -> Hw. destruct buf as [|c buf]; [done|]. cbn [macos_send]. rewrite Hw. cbn [result_bind].
  rewrite length_app. change (length (ne_u32 _)) with 4%nat. unfold AF_HEADER_LEN.
  rewrite (proj2 (Nat.leb_gt _ _)) by (cbn [length]; lia). done.
Qed.

Lemma Ifreq_name name flags ifr : is_ascii name → Ifreq_with_flags name flags = Ok ifr → cstr_name (ifr_name ifr) = name.
Proof.
  intros Ha. unfold Ifreq_with_flags. rewrite (as_bytes_ascii _ Ha). destruct (Nat.leb_spec IFNAMSIZ (length name)) as [|Hl]; [done|].
  destruct (existsb _ name) eqn:E; [done|]. intros [= <-]. cbn [ifr_name]. unfold IFNAMSIZ in *.
  rewrite (copy_from_slice_eq (replicate 16 0)) by (rewrite length_replicate; lia). rewrite take_0, app_nil_l.
  rewrite Nat.add_0_l, drop_replicate. destruct (16 - length name)%nat as [|k] eqn:Ek; [lia|]. cbn [replicate].
  unfold cstr_name, before_nul. rewrite until_nul_app; [by apply from_utf8_lossy_ascii|].
  apply not_true_iff_false in E. rewrite existsb_exists in E. apply Forall_forall. intros c Hc ->. apply E. exists 0.
  split; [by apply list_elem_of_In|done].
Qed.

(** *** Creation *)

Lemma drop_restores s s' t : 0 <= tun_fd t → tun_fd t ∉ sy_open s → sy_open s' = {[tun_fd t]} ∪ sy_open s →
  sy_open (tun_drop t s') = sy_open s.
Proof. intros H0 Hf Hs. unfold tun_drop. rewrite (proj2 (Z.leb_le _ _) H0). by apply close_restores. Qed.

(** What [getsockopt] reports: a buffer of 32 bytes and a length within it. *)
Definition name_reported (name_buf : bytes) (name_len : nat) : Prop := length name_buf = 32%nat ∧ (name_len <= 32)%nat.

Lemma get_ifname_total name_buf name_len s : name_reported name_buf name_len → is_Some (get_ifname name_buf name_len s).
Proof.
  intros [Hl Hn]. unfold get_ifname. destruct (syscall s) as [s1 [x|e]]; [|eauto]. destruct (Nat.eqb_spec name_len 0); [eauto|].
  destruct (lookup_lt_is_Some_2 name_buf (name_len - 1)) as [b ->]; [lia|]. cbn [mbind option_bind].
  unfold slice_checked. rewrite (proj2 (Nat.leb_le 0 _)), (proj2 (Nat.leb_le _ (length name_buf))); [cbn; eauto|destruct (b =? 0); lia|lia].
Qed.

Lemma macos_create_total ctl_id unit_ name_buf name_len s : unit_ < 2 ^ 32 - 1 → name_reported name_buf name_len →
  is_Some (macos_create ctl_id unit_ name_buf name_len s).
Proof.
  intros Hu Hn. unfold macos_create. destruct (sys_open_fd s) as [s1 [fd|e]]; [|eauto].
  assert (is_Some (macos_init fd ctl_id unit_ name_buf name_len s1)) as [[s2 r] ->]; [|cbn; eauto]. unfold macos_init.
  destruct (syscall s1) as [s2 [x|e]]; [|eauto]. rewrite (proj2 (Z.leb_gt _ _)) by done.
  destruct (sys_connect _ _) as [s3 [y|e]]; [|eauto].
  destruct (get_ifname_total _ _ s3 Hn) as [[s4 [name|e]] ->]; cbn; eauto.
Qed.

Lemma freebsd_create_total unit_ s : 0 <= unit_ < 2 ^ 32 →
  ∃ s' r, freebsd_create unit_ s = Some (as_bytes (lit "/dev/tun" ++ show_uint unit_) ++ [0], (s', r)) ∧
          ∀ t, r = Ok t → tun_name t = lit "tun" ++ show_uint unit_.
Proof.
  intros Hu. unfold freebsd_create.
  destruct (write_dev_path_spec (replicate MAX_PATH_LEN 0) unit_) as (len & buf & -> & Hb & Hlen & Hp); [by rewrite length_replicate|done|].
  cbn [mbind option_bind]. unfold slice_checked, slice. rewrite Hb, (proj2 (Nat.leb_le 0 _)), (proj2 (Nat.leb_le len _)) by lia.
  cbn [andb mbind option_bind]. rewrite drop_0, Nat.sub_0_r, Hp.
  destruct (sys_open_fd s) as [s1 [fd|e]]; [|eexists _, _; by split].
  destruct (freebsd_init _ _ _) as [s2 [t|e]] eqn:E; eexists _, _; (split; [done|]); [|done].
  intros ? [= <-]. by rewrite (fcntls_result _ _ _ _ E).
Qed.

(** ** Properties *)

(** Creating a device never leaks a descriptor, on any platform and at whichever
    system call it fails: a failure leaves the open descriptors as they were, a success
    adds the device's one, and dropping the device closes it.  On FreeBSD the path opened
    is, for each 32-bit unit, the text of the unit after its prefix, terminated by a NUL,
    and the device bears the unit's name; no index of the path buffer is out of range.  On
    macOS no unit below the largest makes creation panic. *)
Theorem tun_create_exact (s : Sys) (requested : str) (answer : Ifreq → Ifreq) (ctl_id unit_ : Z) (name_buf : bytes) (name_len : nat)
  (Hfresh : fresh_open s) (Hunit : 0 <= unit_ < 2 ^ 32 - 1) (Hname : name_reported name_buf name_len) :
  let owned := fun (out : Sys * result Tun IoError) =>
    match out with
    | (s', Err _) => sy_open s' = sy_open s
    | (s', Ok t) => sy_open s' = {[tun_fd t]} ∪ sy_open s ∧
                    (0 <= tun_fd t → tun_fd t ∉ sy_open s → sy_open (tun_drop t s') = sy_open s)
    end in
  owned (linux_create requested answer s) ∧
  (∃ out, macos_create ctl_id unit_ name_buf name_len s = Some out ∧ owned out) ∧
  (∃ s' r, freebsd_create unit_ s = Some (as_bytes (lit "/dev/tun" ++ show_uint unit_) ++ [0], (s', r)) ∧ owned (s', r) ∧
           ∀ t, r = Ok t → tun_name t = lit "tun" ++ show_uint unit_).
Proof.
  assert (Hown : ∀ s' r, no_leak s s' r →
    match (s', r) with
    | (s', Err _) => sy_open s' = sy_open s
    | (s', Ok t) => sy_open s' = {[tun_fd t]} ∪ sy_open s ∧
                    (0 <= tun_fd t → tun_fd t ∉ sy_open s → sy_open (tun_drop t s') = sy_open s)
    end).
  { intros s' [t|e] H; [|done]. split; [done|]. intros H0 Hf. by apply drop_restores. }
  intros owned. split_and!.
  - destruct (linux_create requested answer s) as [s' r] eqn:E. exact (Hown _ _ (linux_no_leak _ _ _ _ _ Hfresh E)).
  - destruct (macos_create_total ctl_id unit_ _ _ s (proj2 Hunit) Hname) as [[s' r] E]. exists (s', r). split; [done|].
    exact (Hown _ _ (macos_no_leak _ _ _ _ _ _ _ Hfresh E)).
  - destruct (freebsd_create_total unit_ s) as (s' & r & E & Ht); [lia|]. exists s', r. split_and!; [done| |done].
    exact (Hown _ _ (freebsd_no_leak _ _ _ _ _ Hfresh E)).
Qed.

(** The watcher leaks no descriptor either, and its drop closes the one it holds. *)
Theorem watcher_no_leak (s : Sys) (Hfresh : fresh_open s) :
  match watch s with
  | (s', Ok fd) => sy_open s' = {[fd]} ∪ sy_open s ∧ sy_open (NetlinkWatcher_drop fd s') = sy_open s
  | (s', Err _) => sy_open s' = sy_open s
  end.
Proof.
  unfold watch, NetlinkWatcher_new. destruct (sys_open_fd s) as [s1 [fd|e]] eqn:E; apply (sys_open_fd_spec _ _ _ Hfresh) in E; [|done].
  destruct E as [Hfd Hs1]. destruct (syscall s1) as [s2 [x|e]] eqn:E2; apply syscall_open in E2.
  - split; [congruence|]. apply close_restores; [done|congruence].
  - apply close_restores; [done|congruence].
Qed.

(** The utun framing round trip: one message is written for a packet, its header the
    address family of the packet's IP version, and a reader of that message whose buffer
    holds the packet gets the packet back. *)
Theorem utun_frame_roundtrip (buf : bytes) (cap : nat) (Hbuf : buf ≠ []) (Hcap : (length buf <= cap)%nat) :
  ∃ w, (∀ write, write w = Ok (length w) → macos_send write buf = Ok (length buf)) ∧
       (∀ read : nat → result bytes IoError, read (cap + AF_HEADER_LEN)%nat = Ok w → macos_recv read cap = Ok buf) ∧
       take AF_HEADER_LEN w = (if Z.shiftr (default 0 (head buf)) 4 =? 6 then [30; 0; 0; 0] else [2; 0; 0; 0]).
Proof.
  exists (ne_u32 (af_from_packet buf) ++ buf). split_and!.
  - intros write Hw. by eapply macos_send_whole.
  - intros read Hr. destruct buf as [|b buf]; [done|]. unfold macos_recv. destruct cap as [|cap]; [cbn in Hcap; lia|].
    cbn [Nat.eqb]. rewrite Hr, length_app. change (length (ne_u32 _)) with 4%nat. unfold AF_HEADER_LEN.
    rewrite (proj2 (Nat.leb_gt _ _)) by (cbn [length]; lia). f_equal.
  - destruct buf as [|b buf]; [done|]. change (default 0 (head (b :: buf))) with b. unfold af_from_packet. destruct (Z.shiftr b 4 =? 6); reflexivity.
Qed.

(** The interface name written into the request reads back from it, for each name that is
    accepted; a name is accepted exactly when it has at most fifteen bytes, no NUL and no
    slash. *)
Theorem ifreq_name_roundtrip (name : str) (flags : Z) (Hascii : is_ascii name) :
  match Ifreq_with_flags name flags with
  | Ok ifr => cstr_name (ifr_name ifr) = name ∧ (length name < IFNAMSIZ)%nat ∧ Forall (fun c => c ≠ 0 ∧ c ≠ 47) name
  | Err e => e = InvalidInput ∧ ((IFNAMSIZ <= length name)%nat ∨ 0 ∈ name ∨ 47 ∈ name)
  end.
Proof.
  destruct (Ifreq_with_flags name flags) as [ifr|e] eqn:E.
  - split; [by eapply Ifreq_name|]. revert E. unfold Ifreq_with_flags. rewrite (as_bytes_ascii _ Hascii).
    destruct (Nat.leb_spec IFNAMSIZ (length name)) as [|Hl]; [done|]. destruct (existsb _ name) eqn:E; [done|]. intros _. split; [done|].
    apply not_true_iff_false in E. rewrite existsb_exists in E. apply Forall_forall. intros c Hc.
    split; intros ->; apply E; eexists; (split; [by apply list_elem_of_In|done]).
  - revert E. unfold Ifreq_with_flags. rewrite (as_bytes_ascii _ Hascii).
    destruct (Nat.leb_spec IFNAMSIZ (length name)) as [Hl|Hl]; [intros [= <-]; auto|]. destruct (existsb _ name) eqn:E; [|done].
    intros [= <-]. split; [done|]. right. apply existsb_exists in E as (c & Hc%list_elem_of_In & Hor).
    apply orb_true_iff in Hor as [->%Z.eqb_eq| ->%Z.eqb_eq]; auto.
Qed.

(** With overflow checks, the largest unit that the argument type admits makes creation panic after the
    control socket has been opened, and the descriptor is not closed. *)
Theorem macos_last_unit_panics (ctl_id : Z) (name_buf : bytes) (name_len : nat) (s : Sys) (fd x : Z) (rs : list (result Z IoError))
  (Hs : sy_returns s = Ok fd :: Ok x :: rs) : macos_create ctl_id (2 ^ 32 - 1) name_buf name_len s = None.
Proof. unfold macos_create, sys_open_fd, syscall. rewrite Hs. cbn. unfold macos_init, syscall. cbn. done. Qed.

(** ** Witnesses *)

Definition demo_sys : Sys := mkSys {[0; 1; 2]} [] [Ok 3; Ok 0; Ok 0; Ok 0; Ok 2; Ok 0; Ok 0].
Definition demo_utun_name : bytes := as_bytes (lit "utun4") ++ replicate 27 0.

Lemma tun_create_exact_witness :
  fresh_open demo_sys ∧ freebsd_create 42 demo_sys =
    Some (as_bytes (lit "/dev/tun42") ++ [0], (mkSys {[3; 0; 1; 2]} [] [Ok 2; Ok 0; Ok 0], Ok (mkTun 3 (lit "tun42")))) ∧
  ∃ out, macos_create 9 4 demo_utun_name 6 demo_sys = Some out ∧ sy_open (fst out) = {[3; 0; 1; 2]}.
Proof.
  assert (Hf : fresh_open demo_sys) by (intros fd rs [= <- <-]; vm_compute; set_solver).
  split; [done|]. split; [vm_compute; reflexivity|].
  destruct (tun_create_exact demo_sys (lit "tun0") (fun r => r) 9 4 demo_utun_name 6 Hf) as (_ & ((s' & r) & E & H) & _);
    [lia|split; [reflexivity|lia]|]. exists (s', r). split; [exact E|]. vm_compute in E. injection E as <- <-. reflexivity.
Defined.

Lemma watcher_no_leak_witness : sy_open (watch (mkSys {[0]} [] [Ok 3; Err (OsError 1)])).1 = {[0]}.
Proof.
  refine (watcher_no_leak (mkSys {[0]} [] [Ok 3; Err (OsError 1)]) _). intros fd rs [= <- <-]. cbn. set_solver.
Defined.

Lemma utun_frame_roundtrip_witness : ∃ w, macos_recv (fun _ => Ok w) 1500 = Ok [0x60; 1; 2] ∧ take 4 w = [30; 0; 0; 0].
Proof.
  destruct (utun_frame_roundtrip [0x60; 1; 2] 1500) as (w & _ & Hr & Ht); [done|cbn; lia|]. exists w.
  split; [by apply Hr|exact Ht].
Defined.

Lemma ifreq_name_roundtrip_witness :
  ∃ ifr, Ifreq_with_flags (lit "desmos0") 0x1001 = Ok ifr ∧ cstr_name (ifr_name ifr) = lit "desmos0".
Proof.
  pose proof (ifreq_name_roundtrip (lit "desmos0") 0x1001) as H.
  destruct (Ifreq_with_flags (lit "desmos0") 0x1001) as [ifr|e] eqn:E.
  - exists ifr. split; [done|]. apply H. vm_compute. repeat constructor; discriminate.
  - vm_compute in E. discriminate E.
Defined.

Lemma macos_last_unit_panics_witness : macos_create 9 (2 ^ 32 - 1) demo_utun_name 6 demo_sys = None.
Proof. exact (macos_last_unit_panics 9 demo_utun_name 6 demo_sys 3 0 _ eq_refl). Defined.
