(* ===== verification/Sockets.v ===== *)
(** * Sockets and the Wintun adapter

    [crates/desmos-rt/src]: the UDP sockets of [socket.rs] with the per-interface egress
    binding of [linux/bind_device.rs], [bsd/bind_device.rs] and the Windows part of
    [socket.rs]; the adapter of [windows/tun.rs].  A socket operation extends the trace of
    the system calls made; the kernel answers the last call of a trace. *)

From stdpp Require Import base numbers strings list.
From Stdlib Require Import ZArith Lia.
From S2P Require Import Prelude Str Crypto Session Pipeline TunDev.

(** ** System calls *)

Inductive SockDomain := IPV4 | IPV6.

Inductive SockCall :=
| CallSocket (d : SockDomain)
| CallNonblocking
| CallReuseAddr
| CallConnReset (value : bytes)
| CallBindDevice (name : bytes)
| CallNameToIndex (name : bytes)
| CallNameToLuid (name : bytes)
| CallLuidToIndex (luid : Z)
| CallSetOpt (level optname : Z) (value : bytes)
| CallBind (addr : SocketAddr)
| CallClose.

Class SockKernel := sock_answer : list SockCall → result Z IoError.

Definition Sock (A : Type) : Type := list SockCall → list SockCall * result A IoError.

Definition sock_ret {A} (a : A) : Sock A := fun tr => (tr, Ok a).
Definition sock_fail {A} (e : IoError) : Sock A := fun tr => (tr, Err e).
Definition sock_bind {A B} (m : Sock A) (k : A → Sock B) : Sock B :=
  fun tr => match m tr with (tr, Ok a) => k a tr | (tr, Err e) => (tr, Err e) end.

Notation "'let$' x := m 'in' k" := (sock_bind m (fun x => k)) (at level 10, x name, m at level 100, k at level 200).

(** The drop of an owned socket when a later step fails. *)
Definition closing {A} (m : Sock A) : Sock A :=
  fun tr => match m tr with (tr, Ok a) => (tr, Ok a) | (tr, Err e) => (tr ++ [CallClose], Err e) end.

(** ** [socket.rs] *)

Inductive SockOs := SockLinux | SockMacOs | SockFreeBsd | SockWindows.

Record UdpSocket := mkUdpSocket { us_bound_device : option str }.

Definition domain_of (addr : SocketAddr) : SockDomain := match sa_ip addr with V4 _ => IPV4 | V6 _ => IPV6 end.

Definition SIO_UDP_CONNRESET : Z := 0x9800000C.
Definition IPPROTO_IP : Z := 0.
Definition IP_BOUND_IF : Z := 25.
Definition IP_UNICAST_IF : Z := 31.
Definition ANY_ADDR : SocketAddr := mkSocketAddr (V4 [0; 0; 0; 0]) 0.

Section Sockets.
  Context {K : SockKernel}.

Definition call (c : SockCall) : Sock Z := fun tr => (tr ++ [c], sock_answer (tr ++ [c])).

Definition disable_udp_connreset_raw : Sock () := let$ _ := call (CallConnReset (ne_u32 0)) in sock_ret ().

Definition socket_disable_udp_connreset (os : SockOs) : Sock () :=
  match os with SockWindows => disable_udp_connreset_raw | _ => sock_ret () end.

Definition new_socket (os : SockOs) (addr : SocketAddr) : Sock () :=
  let$ _ := call (CallSocket (domain_of addr)) in
  closing (
    let$ _ := call CallNonblocking in
    let$ _ := call CallReuseAddr in
    socket_disable_udp_connreset os).

Definition UdpSocket_bind (os : SockOs) (addr : SocketAddr) : Sock UdpSocket :=
  let$ _ := new_socket os addr in
  closing (let$ _ := call (CallBind addr) in sock_ret (mkUdpSocket None)).

(** [linux/bind_device.rs]. *)
Definition bind_to_device (interface : str) : Sock () :=
  match interface with
  | [] => sock_fail InvalidInput
  | _ =>
      if (16 <=? length (as_bytes interface))%nat then sock_fail InvalidInput
      else let$ _ := call (CallBindDevice (as_bytes interface)) in sock_ret ()
  end.

(** [bsd/bind_device.rs]: [if_nametoindex] reports a failure as the index zero. *)
Definition bind_to_interface (interface : str) : Sock () :=
  match interface with
  | [] => sock_fail InvalidInput
  | _ =>
      if (64 <=? length (as_bytes interface))%nat then sock_fail InvalidInput
      else
        let name := copy_from_slice (replicate 64 0) 0 (as_bytes interface) in
        fun tr =>
          let idx := match sock_answer (tr ++ [CallNameToIndex name]) with Ok i => i | Err _ => 0 end in
          (if idx =? 0 then sock_fail NotFound
           else let$ _ := call (CallSetOpt IPPROTO_IP IP_BOUND_IF (ne_u32 idx)) in sock_ret ())
            (tr ++ [CallNameToIndex name])
  end.

Definition windows_interface_index (name : str) : Sock Z :=
  match name with
  | [] => sock_fail InvalidInput
  | _ => fun tr =>
      match call (CallNameToLuid (as_bytes name ++ [0])) tr with
      | (tr, Err _) => (tr, Err NotFound)
      | (tr, Ok luid) => call (CallLuidToIndex luid) tr
      end
  end.

Definition windows_bind_to_interface (if_index : Z) : Sock () :=
  let$ _ := call (CallSetOpt IPPROTO_IP IP_UNICAST_IF (ne_u32 if_index)) in sock_ret ().

(** The restriction to a device; FreeBSD has none. *)
Definition bind_on_interface (os : SockOs) (interface : str) : option (Sock UdpSocket) :=
  let on (restrict : Sock ()) : Sock UdpSocket :=
    let$ _ := new_socket os ANY_ADDR in
    closing (
      let$ _ := restrict in
      let$ _ := call (CallBind ANY_ADDR) in
      sock_ret (mkUdpSocket (Some interface))) in
  match os with
  | SockLinux => Some (on (bind_to_device interface))
  | SockMacOs => Some (on (bind_to_interface interface))
  | SockWindows => Some (on (let$ if_index := windows_interface_index interface in windows_bind_to_interface if_index))
  | SockFreeBsd => None
  end.

End Sockets.

(** ** [windows/tun.rs] *)

Definition DEFAULT_RING_CAPACITY : Z := 0x00800000.

(** [name_to_guid]: FNV-1a on 128 bits. *)
Definition FNV_OFFSET : Z := 0x6C62272E07BB014262B821756295C58D.
Definition FNV_PRIME : Z := 0x0000000001000000000000000000013B.
Definition fnv_step (h b : Z) : Z := wrap 128 (Z.lxor h b * FNV_PRIME).
Definition name_to_guid (name : str) : Z := foldl fnv_step FNV_OFFSET (as_bytes name).

Section Wintun.
  (** The library, its adapters and sessions; errors matter only as such. *)
  Context {Lib Adapter WSession : Type}.
  Context (load_from_path : str → option Lib) (Adapter_create : Lib → str → str → Z → option Adapter).
  Context (start_session : Adapter → Z → option WSession).

Record WintunTun := mkWintunTun { wt_name : str; wt_session : WSession; wt_adapter : Adapter; wt_lib : Lib }.

Definition wintun_create (dll_path adapter_name tunnel_type : str) (ring_capacity : Z) : result WintunTun IoError :=
  match load_from_path dll_path with
  | None => Err NotFound
  | Some lib =>
      match Adapter_create lib adapter_name tunnel_type (name_to_guid adapter_name) with
      | None => Err OtherError
      | Some adapter =>
          match start_session adapter ring_capacity with
          | None => Err OtherError
          | Some session => Ok (mkWintunTun adapter_name session adapter lib)
          end
      end
  end.
End Wintun.

(** [recv] of the packet [packet] into [cap] bytes. *)
Definition wintun_recv (packet : option bytes) (cap : nat) : result bytes IoError :=
  if (cap =? 0)%nat then Ok []
  else match packet with Some b => Ok (take (Nat.min (length b) cap) b) | None => Err OtherError end.

(** [send]: [allocate n] is the size of the packet the session hands out for a request of
    [n] bytes.  Sent is the buffer; [copy_from_slice] panics on another length. *)
Definition wintun_send (allocate : Z → option nat) (buf : bytes) : panics (option bytes * result nat IoError) :=
  match buf with
  | [] => Some (None, Ok 0%nat)
  | _ =>
      match allocate (wrap 16 (Z.of_nat (length buf))) with
      | None => Some (None, Err OtherError)
      | Some n => if (n =? length buf)%nat then Some (Some buf, Ok (length buf)) else None
      end
  end.

(** ** Lemmas *)

(** *** Sockets *)

(** What a trace leaves: the number of open sockets, whether the last one is confined to a
    device, and whether a socket was bound to an address without being confined. *)
Record SockStatus := mkSockStatus { ss_open : nat; ss_confined : bool; ss_exposed : bool }.

Definition sock_effect (c : SockCall) (answer : result Z IoError) (st : SockStatus) : SockStatus :=
  match c, answer with
  | CallSocket _, Ok _ => mkSockStatus (S (ss_open st)) false (ss_exposed st)
  | CallBindDevice _, Ok _ | CallSetOpt _ _ _, Ok _ => mkSockStatus (ss_open st) true (ss_exposed st)
  | CallBind _, Ok _ => mkSockStatus (ss_open st) (ss_confined st) (ss_exposed st || negb (ss_confined st))
  | CallClose, _ => mkSockStatus (pred (ss_open st)) (ss_confined st) (ss_exposed st)
  | _, _ => st
  end.

Fixpoint replay {K : SockKernel} (tr cs : list SockCall) (st : SockStatus) : SockStatus :=
  match cs with
  | [] => st
  | c :: cs => replay (tr ++ [c]) cs (sock_effect c (sock_answer (tr ++ [c])) st)
  end.

(** The status of a run: nothing leaks and nothing is bound before it is confined. *)
Definition sock_outcome {K : SockKernel} (confined : bool) (tr tr' : list SockCall) (r : result UdpSocket IoError) (device : option str) : Prop :=
  ∃ cs, tr' = tr ++ cs ∧ ∀ n, ∃ c,
    replay tr cs (mkSockStatus n false false) = mkSockStatus (match r with Ok _ => S n | Err _ => n end) c (negb confined && match r with Ok _ => true | _ => false end) ∧
    ∀ s, r = Ok s → us_bound_device s = device ∧ c = confined.

Lemma replay_nil {K : SockKernel} tr st : replay tr [] st = st.
Proof. done. Qed.
Lemma replay_cons {K : SockKernel} tr c cs st :
  replay tr (c :: cs) st = replay (tr ++ [c]) cs (sock_effect c (sock_answer (tr ++ [c])) st).
Proof. done. Qed.

(** Runs an operation call by call. *)
Ltac sock_run :=
  unfold sock_bind, closing, call, sock_ret, sock_fail;
  repeat (match goal with
          | |- context [match sock_answer ?t with _ => _ end] => destruct (sock_answer t) eqn:?
          | |- context [if ?b then _ else _] => destruct b eqn:?
          end; cbv beta iota).

Ltac sock_replay :=
  repeat rewrite replay_cons;
  repeat match goal with H : sock_answer _ = _ |- _ => rewrite H end; rewrite replay_nil; cbn.

Ltac sock_close := intros [= <- <-]; rewrite <-?app_assoc; cbn [app]; eexists; (split; [reflexivity|]); intros n; eexists; (split; [sock_replay; reflexivity|]);
  try done; intros ? [= <-]; done.

Lemma UdpSocket_bind_outcome {K : SockKernel} os addr tr tr' r : UdpSocket_bind os addr tr = (tr', r) → sock_outcome false tr tr' r None.
Proof.
  unfold UdpSocket_bind, new_socket, socket_disable_udp_connreset, disable_udp_connreset_raw.
  destruct os; sock_run; sock_close.
Qed.

Lemma bind_on_interface_outcome {K : SockKernel} os interface m tr tr' r :
  bind_on_interface os interface = Some m → m tr = (tr', r) → sock_outcome true tr tr' r (Some interface).
Proof.
  unfold bind_on_interface, new_socket, socket_disable_udp_connreset, disable_udp_connreset_raw, bind_to_device, bind_to_interface,
    windows_interface_index, windows_bind_to_interface.
  destruct os; intros [= <-]; (destruct interface as [|c interface]; [|generalize (as_bytes (c :: interface)); intros nm]); sock_run; sock_close.
Qed.

(** *** The GUID of an adapter *)

(** The inverse of the prime modulo 2^128. *)
Definition FNV_INVERSE : Z := 0xb1041ad2562ff2ff2ff2ff2ff2ff2ff3.

Lemma fnv_inverse x : wrap 128 (wrap 128 (x * FNV_PRIME) * FNV_INVERSE) = wrap 128 x.
Proof.
  unfold wrap. rewrite Z.mul_mod_idemp_l by done. rewrite <-Z.mul_assoc, <-Z.mul_mod_idemp_r by done.
  change ((FNV_PRIME * FNV_INVERSE) mod 2 ^ 128) with 1. by rewrite Z.mul_1_r.
Qed.

Lemma fnv_step_width h b : in_width 128 (fnv_step h b).
Proof. unfold fnv_step, wrap, in_width. apply Z.mod_pos_bound. lia. Qed.

Lemma lxor_width w a b : 0 <= w → in_width w a → in_width w b → in_width w (Z.lxor a b).
Proof.
  unfold in_width. intros Hw [Ha Ha'] [Hb Hb']. split; [by apply Z.lxor_nonneg|].
  destruct (decide (Z.lxor a b = 0)) as [->|Hn]; [lia|].
  assert (0 <= Z.lxor a b) by (by apply Z.lxor_nonneg).
  apply Z.log2_lt_pow2; [lia|]. eapply Z.le_lt_trans; [by apply Z.log2_lxor|].
  destruct (decide (0 < w)) as [Hw0|]; [|assert (w = 0) as -> by lia; assert (a = 0 ∧ b = 0) as [-> ->] by lia; done].
  apply Z.max_lub_lt.
  - destruct (decide (a = 0)) as [->|]; [done|]. apply Z.log2_lt_pow2; lia.
  - destruct (decide (b = 0)) as [->|]; [done|]. apply Z.log2_lt_pow2; lia.
Qed.

Lemma lxor_inj_r a b c : Z.lxor a c = Z.lxor b c → a = b.
Proof.
  intros E. rewrite <-(Z.lxor_0_r a), <-(Z.lxor_nilpotent c), <-Z.lxor_assoc, E, Z.lxor_assoc, Z.lxor_nilpotent. apply Z.lxor_0_r.
Qed.

Lemma byte_width_128 b : byte_ok b → in_width 128 b.
Proof. unfold in_width. intros [H1 H2]. split; [done|]. eapply Z.lt_trans; [exact H2|]. reflexivity. Qed.

Lemma fnv_step_cancel h h' b b' : in_width 128 h → in_width 128 h' → byte_ok b → byte_ok b' →
  fnv_step h b = fnv_step h' b' → Z.lxor h b = Z.lxor h' b'.
Proof.
  intros Hh Hh' Hb%byte_width_128 Hb'%byte_width_128 E. unfold fnv_step in E.
  rewrite <-(wrap_small 128 (Z.lxor h b)), <-(wrap_small 128 (Z.lxor h' b')) by (by apply lxor_width).
  by rewrite <-fnv_inverse, <-(fnv_inverse (Z.lxor h' b')), E.
Qed.

Lemma fnv_injective bs h h' : in_width 128 h → in_width 128 h' → Forall byte_ok bs → foldl fnv_step h bs = foldl fnv_step h' bs → h = h'.
Proof.
  revert h h'. induction bs as [|b bs IH]; intros h h' Hh Hh' Hbs E; [done|]. apply Forall_cons in Hbs as [Hb Hbs]. cbn in E.
  apply IH in E; [|apply fnv_step_width..|done]. apply fnv_step_cancel in E; [|done..]. by apply lxor_inj_r in E.
Qed.

Lemma fnv_foldl_width bs h : in_width 128 h → in_width 128 (foldl fnv_step h bs).
Proof. revert h. induction bs as [|b bs IH]; intros h Hh; [done|]. apply IH, fnv_step_width. Qed.

(** ** Properties *)

(** The egress binding on every platform that has one: whatever the system calls
    answer, a socket is bound to an address only after the kernel accepted its device, a
    failure at any call closes the socket that was opened, and success returns exactly one
    more open socket, confined, that reports the device.  A plain bind leaks nothing
    either. *)
Theorem sockets_confined_no_leak {K : SockKernel} (os : SockOs) (interface : str) (addr : SocketAddr) (tr : list SockCall) :
  (let '(tr', r) := UdpSocket_bind os addr tr in sock_outcome false tr tr' r None) ∧
  match bind_on_interface os interface with
  | Some m => let '(tr', r) := m tr in sock_outcome true tr tr' r (Some interface)
  | None => os = SockFreeBsd
  end.
Proof.
  split.
  - destruct (UdpSocket_bind os addr tr) as [tr' r] eqn:E. by eapply UdpSocket_bind_outcome.
  - destruct (bind_on_interface os interface) as [m|] eqn:E; [|by destruct os].
    destruct (m tr) as [tr' r] eqn:Em. by eapply bind_on_interface_outcome.
Qed.

(** [IP_UNICAST_IF] takes the index of an IPv4 interface in network byte order. *)
Definition unicast_if_index (optval : bytes) : Z := from_be_bytes optval.

(** The index is passed in the host's order, so the option never names the interface of a
    small index: a socket for the interface of index 5 is confined to index 83886080. *)
Theorem windows_confines_to_another_interface (idx : Z) (Hidx : 0 < idx < 2 ^ 16) : unicast_if_index (ne_u32 idx) ≠ idx.
Proof.
  unfold unicast_if_index, ne_u32, from_be_bytes. cbn [foldl]. intros E.
  rewrite (Z.div_small idx 65536), (Z.div_small idx 16777216) in E by lia.
  change (0 mod 256) with 0 in E. change (2 ^ 16) with 65536 in Hidx.
  pose proof (Z.mod_pos_bound idx 256 ltac:(lia)). pose proof (Z.mod_pos_bound (idx / 256) 256 ltac:(lia)).
  pose proof (Z.div_mod idx 256 ltac:(lia)).
  assert (idx mod 256 = 0) by lia. assert ((idx / 256) mod 256 = 0) by lia.
  assert (idx / 256 < 256) by (apply Z.div_lt_upper_bound; lia). rewrite (Z.mod_small (idx / 256)) in * by (split; [apply Z.div_pos; lia|lia]). lia.
Qed.

(** Adapters whose names differ in one byte have different identifiers, so the numbered
    tunnels of a host never share an adapter; an identifier has 128 bits. *)
Theorem guid_separates (a b : str) (pre post : bytes) (x y : Z)
  (Ha : as_bytes a = pre ++ x :: post) (Hb : as_bytes b = pre ++ y :: post) (Hbytes : Forall byte_ok (as_bytes a) ∧ byte_ok y) (Hxy : x ≠ y) :
  name_to_guid a ≠ name_to_guid b ∧ in_width 128 (name_to_guid a).
Proof.
  destruct Hbytes as [Hall Hy]. rewrite Ha in Hall. apply Forall_app in Hall as [Hpre [Hx Hpost]%Forall_cons].
  assert (H0 : in_width 128 FNV_OFFSET) by (split; [done|reflexivity]).
  split; [|by apply fnv_foldl_width]. unfold name_to_guid. rewrite Ha, Hb, !foldl_app. cbn [foldl].
  set (h := foldl fnv_step FNV_OFFSET pre). assert (Hh : in_width 128 h) by (by apply fnv_foldl_width).
  intros E%fnv_injective; [|apply fnv_step_width..|done]. apply fnv_step_cancel in E; [|done..].
  rewrite !(Z.lxor_comm h) in E. by apply lxor_inj_r in E.
Qed.

(** A session hands out packets of the size asked for. *)
Definition allocates_exactly (allocate : Z → option nat) : Prop := ∀ n m, allocate n = Some m → Z.of_nat m = n.

(** The adapter sends exactly the buffer, or nothing and an error, as long as its length
    fits the sixteen bits of a request; a longer buffer for which a packet is allocated
    panics.  A receive returns a prefix of the packet, all of it when the buffer has room. *)
Theorem wintun_exact (allocate : Z → option nat) (buf packet : bytes) (cap : nat) (Halloc : allocates_exactly allocate) (Hbuf : buf ≠ []) :
  (Z.of_nat (length buf) < 2 ^ 16 →
     wintun_send allocate buf = Some (Some buf, Ok (length buf)) ∨ wintun_send allocate buf = Some (None, Err OtherError)) ∧
  (2 ^ 16 <= Z.of_nat (length buf) → is_Some (allocate (wrap 16 (Z.of_nat (length buf)))) → wintun_send allocate buf = None) ∧
  (∃ got, wintun_recv (Some packet) cap = Ok got ∧ got `prefix_of` packet ∧ ((length packet <= cap)%nat → (0 < cap)%nat → got = packet)).
Proof.
  split_and!.
  - intros Hl. destruct buf as [|b buf]; [done|]. unfold wintun_send. rewrite wrap_small by (split; lia).
    destruct (allocate _) as [n|] eqn:E; [left|by right]. apply Halloc in E. apply Nat2Z.inj in E as ->. by rewrite Nat.eqb_refl.
  - intros Hl [n E]. destruct buf as [|b buf]; [done|]. unfold wintun_send. rewrite E. apply Halloc in E.
    destruct (Nat.eqb_spec n (length (b :: buf))) as [->|]; [|done].
    pose proof (Z.mod_pos_bound (Z.of_nat (length (b :: buf))) (2 ^ 16) ltac:(lia)). unfold wrap in E. lia.
  - unfold wintun_recv. destruct (Nat.eqb_spec cap 0) as [->|]; [exists []; split_and!; [done|apply prefix_nil|lia]|].
    eexists. split_and!; [done|apply prefix_take|]. intros Hl _. by rewrite take_ge by lia.
Qed.

(** ** Witnesses *)

Definition demo_sock_kernel : SockKernel := fun tr => match last tr with Some (CallBind _) => Err (OsError 98) | _ => Ok 7 end.

Lemma sockets_confined_no_leak_witness :
  ∃ cs, (match @bind_on_interface demo_sock_kernel SockLinux (lit "eth0") with Some m => m [] | None => ([], Ok (mkUdpSocket None)) end)
        = (cs, Err (OsError 98)) ∧
    @replay demo_sock_kernel [] cs (mkSockStatus 0 false false) = mkSockStatus 0 true false.
Proof.
  destruct (@sockets_confined_no_leak demo_sock_kernel SockLinux (lit "eth0") ANY_ADDR []) as [_ (cs & E & H)].
  eexists. split; [reflexivity|]. vm_compute. reflexivity.
Defined.

Lemma windows_confines_to_another_interface_witness : unicast_if_index (ne_u32 5) ≠ 5 ∧ unicast_if_index (ne_u32 5) = 83886080.
Proof. split; [apply (windows_confines_to_another_interface 5); lia|reflexivity]. Defined.

Lemma guid_separates_witness : name_to_guid (lit "Desmos1") ≠ name_to_guid (lit "Desmos2").
Proof.
  destruct (guid_separates (lit "Desmos1") (lit "Desmos2") (lit "Desmos") [] 49 50) as [H _]; [reflexivity|reflexivity| |lia|exact H].
  split; [vm_compute; repeat constructor; discriminate|split; [lia|reflexivity]].
Defined.

Lemma wintun_exact_witness :
  wintun_send (fun n => Some (Z.to_nat n)) [69; 0] = Some (Some [69; 0], Ok 2%nat) ∧
  ∃ got, wintun_recv (Some [1; 2; 3]) 2 = Ok got ∧ got `prefix_of` [1; 2; 3].
Proof.
  split; [reflexivity|].
  destruct (wintun_exact (fun n => if 0 <=? n then Some (Z.to_nat n) else None) [69; 0] [1; 2; 3] 2) as (_ & _ & got & H1 & H2 & _); [|done|eauto].
  intros n m. destruct (Z.leb_spec 0 n); [|done]. intros [= <-]. lia.
Defined.
