(* ===== verification/Http.v ===== *)
(** * The HTTP/1.1 server

    [desmos-http/src]: [method.rs], [errors.rs], [headers.rs], [request.rs],
    [response.rs], [middleware.rs], [router.rs] and the connection loop of
    [server.rs].  Text is [str] (Str.v); a panic is [None] of [panics]. *)

From stdpp Require Import base numbers list strings.
From Stdlib Require Import ZArith Lia.
From S2P Require Import Prelude Str.

(** ** [method.rs] *)

Inductive Method := Get | Post | Put | Delete | Patch | Head | Options.

#[export] Instance Method_eq_dec : EqDecision Method.
Proof. solve_decision. Defined.

Definition Method_as_str (m : Method) : str :=
  match m with
  | Get => lit "GET" | Post => lit "POST" | Put => lit "PUT" | Delete => lit "DELETE"
  | Patch => lit "PATCH" | Head => lit "HEAD" | Options => lit "OPTIONS"
  end.

Definition Method_parse (s : str) : option Method :=
  if decide (s = lit "GET") then Some Get
  else if decide (s = lit "POST") then Some Post
  else if decide (s = lit "PUT") then Some Put
  else if decide (s = lit "DELETE") then Some Delete
  else if decide (s = lit "PATCH") then Some Patch
  else if decide (s = lit "HEAD") then Some Head
  else if decide (s = lit "OPTIONS") then Some Options
  else None.

(** ** [errors.rs] *)

Inductive HttpError :=
| HIo | BadRequest (msg : str) | PayloadTooLarge | UnsupportedEncoding | HTimeout
| ConnectionClosed | UriTooLong | TooManyHeaders | HeaderTooLong.

(** [StatusCode::reason]. *)
Definition reason (code : Z) : str :=
  if code =? 200 then lit "OK" else if code =? 204 then lit "No Content"
  else if code =? 301 then lit "Moved Permanently" else if code =? 304 then lit "Not Modified"
  else if code =? 400 then lit "Bad Request" else if code =? 401 then lit "Unauthorized"
  else if code =? 403 then lit "Forbidden" else if code =? 404 then lit "Not Found"
  else if code =? 405 then lit "Method Not Allowed" else if code =? 408 then lit "Request Timeout"
  else if code =? 413 then lit "Payload Too Large" else if code =? 414 then lit "URI Too Long"
  else if code =? 500 then lit "Internal Server Error" else if code =? 501 then lit "Not Implemented"
  else if code =? 503 then lit "Service Unavailable" else lit "Unknown".

Definition StatusCode_show (code : Z) : str := show_uint code ++ lit " " ++ reason code.

(** ** [headers.rs] *)

Definition MAX_HEADERS : nat := 64.
Definition MAX_HEADER_LINE : Z := 8192.

Record Header := mkHeader { h_name : str; h_value : str }.

Definition Headers_get (name : str) (hs : list Header) : option str :=
  h_value <$> (snd <$> list_find (fun h => eq_ignore_ascii_case (h_name h) name = true) hs).

Definition content_length (hs : list Header) : option Z :=
  v ← Headers_get (lit "content-length") hs; parse_uint 64 (trim v).

Definition is_chunked (hs : list Header) : bool :=
  match Headers_get (lit "transfer-encoding") hs with
  | Some v => str_contains (lit "chunked") (to_ascii_lowercase v)
  | None => false
  end.

Definition connection_is (what : str) (hs : list Header) : bool :=
  match Headers_get (lit "connection") hs with Some v => eq_ignore_ascii_case v what | None => false end.
Definition is_keep_alive : list Header → bool := connection_is (lit "keep-alive").
Definition is_close : list Header → bool := connection_is (lit "close").

Definition is_websocket_upgrade (hs : list Header) : bool :=
  let upgrade := match Headers_get (lit "upgrade") hs with
                 | Some v => eq_ignore_ascii_case v (lit "websocket") | None => false end in
  let conn := match Headers_get (lit "connection") hs with
              | Some v => existsb (fun part => eq_ignore_ascii_case (trim part) (lit "upgrade")) (split (lit ",") v)
              | None => false end in
  upgrade && conn.

Definition websocket_key : list Header → option str := Headers_get (lit "sec-websocket-key").
Definition authorization : list Header → option str := Headers_get (lit "authorization").

(** ** [request.rs] *)

Definition MAX_BODY_SIZE : Z := 1024 * 1024.
Definition MAX_REQUEST_LINE : Z := 8192.
Definition CRLF : str := [13; 10].

Record Request := mkRequest { rq_method : Method; rq_uri : str; rq_headers : list Header; rq_body : bytes }.

(** [uri.split('?').next()]: all of the URI when it has no [?]. *)
Definition Request_path (r : Request) : str :=
  match split_once (lit "?") (rq_uri r) with Some (p, _) => p | None => rq_uri r end.

Definition Request_query (r : Request) : option str := snd <$> split_once (lit "?") (rq_uri r).

(** [&s[..n]] and [&s[n..]] at a [usize] offset. *)
Definition slice_to (n : Z) (s : str) : panics str :=
  if n <=? Z.of_nat (str_len s) then fst <$> split_at (Z.to_nat n) s else None.
Definition slice_from (n : Z) (s : str) : panics str :=
  if n <=? Z.of_nat (str_len s) then snd <$> split_at (Z.to_nat n) s else None.

Definition ok_or {A E} (o : option A) (e : E) : result A E := match o with Some a => Ok a | None => Err e end.

Definition parse_request_line (line : str) : result (Method * str * str) HttpError :=
  let parts := splitn3 (lit " ") line in
  result_bind (ok_or (parts !! 0%nat) (BadRequest (lit "missing method"))) (fun method_str =>
  result_bind (ok_or (parts !! 1%nat) (BadRequest (lit "missing URI"))) (fun uri =>
  result_bind (ok_or (parts !! 2%nat) (BadRequest (lit "missing HTTP version"))) (fun version =>
  result_bind (ok_or (Method_parse method_str) (BadRequest (lit "unknown method"))) (fun method =>
  if negb (starts_with (lit "HTTP/") version) then Err (BadRequest (lit "bad HTTP version"))
  else Ok (method, uri, version))))).

(** The loop over the lines; [entries] are the headers pushed so far. *)
Fixpoint parse_header_lines (lines : list str) (entries : list Header) : result (list Header) HttpError :=
  match lines with
  | [] => Ok entries
  | line :: lines =>
      if (str_len line =? 0)%nat then parse_header_lines lines entries
      else if MAX_HEADER_LINE <? Z.of_nat (str_len line) then Err HeaderTooLong
      else if (MAX_HEADERS <=? length entries)%nat then Err TooManyHeaders
      else
        match split_once (lit ":") line with
        | None => Err (BadRequest (lit "malformed header"))
        | Some (name, value) => parse_header_lines lines (entries ++ [mkHeader (trim name) (trim value)])
        end
  end.

Definition parse_headers (section : str) : result (list Header) HttpError :=
  match section with
  | [] => Ok []
  | _ => parse_header_lines (split CRLF section) []
  end.

(** The loop of [decode_chunked_body]: outer [None] is a panic.  Additions are
    those of the release build, modulo [2^64]. *)
Fixpoint chunked_loop (fuel : nat) (body : bytes) (remaining : str) : panics (result bytes HttpError) :=
  match fuel with
  | O => Some (Ok body)
  | S fuel =>
      match split_once CRLF remaining with
      | None => Some (Err (BadRequest (lit "truncated chunk size")))
      | Some (size_line, rest) =>
          match from_str_radix 64 16 (trim size_line) with
          | None => Some (Err (BadRequest (lit "invalid chunk size")))
          | Some chunk_size =>
              if chunk_size =? 0 then Some (Ok body)
              else if MAX_BODY_SIZE <? wrap 64 (Z.of_nat (length body) + chunk_size) then Some (Err PayloadTooLarge)
              else if Z.of_nat (str_len rest) <? wrap 64 (chunk_size + 2) then
                Some (Err (BadRequest (lit "truncated chunk data")))
              else
                chunk ← slice_to chunk_size rest;
                remaining ← slice_from (wrap 64 (chunk_size + 2)) rest;
                chunked_loop fuel (body ++ as_bytes chunk) remaining
          end
      end
  end.

(** Each turn drops at least one character: [chunked_fuel_enough]. *)
Definition decode_chunked_body (data : str) : panics (result bytes HttpError) :=
  chunked_loop (S (length data)) [] data.

(** The body, by the headers; [remaining] is [&buf[consumed..]]. *)
Definition read_body (headers : list Header) (remaining : str) : panics (result bytes HttpError) :=
  if is_chunked headers then decode_chunked_body remaining
  else
    match content_length headers with
    | Some len =>
        if MAX_BODY_SIZE <? len then Some (Err PayloadTooLarge)
        else if Z.of_nat (str_len remaining) <? len then Some (Err (BadRequest (lit "incomplete body")))
        else b ← slice_to len remaining; Some (Ok (as_bytes b))
    | None => Some (Ok [])
    end.

Definition parse_request (buf : str) : panics (result (Request * nat) HttpError) :=
  match split_once (CRLF ++ CRLF) buf with
  | None => Some (Err (BadRequest (lit "incomplete headers")))
  | Some (header_section, remaining) =>
      let consumed := (str_len header_section + 4)%nat in
      match split_once CRLF header_section with
      | None => Some (Err (BadRequest (lit "no request line")))
      | Some (request_line, header_lines) =>
          if MAX_REQUEST_LINE <? Z.of_nat (str_len request_line) then Some (Err UriTooLong)
          else
            match parse_request_line request_line with
            | Err e => Some (Err e)
            | Ok (method, uri, _) =>
                match parse_headers header_lines with
                | Err e => Some (Err e)
                | Ok headers =>
                    body ← read_body headers remaining;
                    Some (match body with
                          | Err e => Err e
                          | Ok body => Ok (mkRequest method uri headers body, consumed)
                          end)
                end
            end
      end
  end.

(** ** [response.rs] *)

Record Response := mkResponse { rs_status : Z; rs_headers : list (str * str); rs_body : bytes }.

Definition Response_new (status : Z) : Response := mkResponse status [] [].

Definition Response_header (name value : str) (r : Response) : Response :=
  mkResponse (rs_status r) (rs_headers r ++ [(name, value)]) (rs_body r).

Definition set_content_type_if_missing (ct : str) (r : Response) : Response :=
  if existsb (fun h => eq_ignore_ascii_case h.1 (lit "content-type")) (rs_headers r) then r
  else Response_header (lit "Content-Type") ct r.

Definition body_raw (content_type : str) (data : bytes) (r : Response) : Response :=
  set_content_type_if_missing content_type (mkResponse (rs_status r) (rs_headers r) data).
Definition body_text (text : str) : Response → Response := body_raw (lit "text/plain; charset=utf-8") (as_bytes text).
Definition body_json (json : str) : Response → Response := body_raw (lit "application/json") (as_bytes json).

Definition Response_ok : Response := Response_new 200.
Definition not_found : Response := body_text (lit "Not Found") (Response_new 404).
Definition bad_request (msg : str) : Response := body_text msg (Response_new 400).
Definition internal_error : Response := body_text (lit "Internal Server Error") (Response_new 500).
Definition unauthorized : Response :=
  body_text (lit "Unauthorized")
    (Response_header (lit "WWW-Authenticate") (lit "Basic realm=" ++ [34] ++ lit "desmos" ++ [34]) (Response_new 401)).
Definition method_not_allowed : Response := body_text (lit "Method Not Allowed") (Response_new 405).

Definition Response_to_bytes (r : Response) : bytes :=
  let buf := lit "HTTP/1.1 " ++ StatusCode_show (rs_status r) ++ CRLF in
  let buf := match rs_body r with
             | [] => buf
             | _ => buf ++ lit "Content-Length: " ++ show_uint (Z.of_nat (length (rs_body r))) ++ CRLF
             end in
  let buf := foldl (fun buf '(name, value) => buf ++ name ++ lit ": " ++ value ++ CRLF) buf (rs_headers r) in
  as_bytes (buf ++ CRLF) ++ rs_body r.

(** ** [middleware.rs] and [router.rs]

    [R] is what running a handler yields: the response, or a change of the
    process's state together with the response. *)

Abbreviation MiddlewareFn R := (Request → option R).
Abbreviation MiddlewareChain R := (list (MiddlewareFn R)).

Fixpoint MiddlewareChain_run {R} (fns : MiddlewareChain R) (req : Request) : option R :=
  match fns with
  | [] => None
  | mw :: fns => match mw req with Some resp => Some resp | None => MiddlewareChain_run fns req end
  end.

Abbreviation Params := (list (str * str)).

Definition Params_get (name : str) (p : Params) : option str :=
  snd <$> (snd <$> list_find (fun e => e.1 = name) p).

Inductive Segment := Literal (s : str) | Param (name : str).

Record Route (R : Type) := mkRoute {
  rt_method : Method;
  rt_pattern : list Segment;
  rt_middleware : MiddlewareChain R;
  rt_handler : Request → Params → R;
}.
Arguments mkRoute {R} _ _ _ _.
Arguments rt_method {R} _.
Arguments rt_pattern {R} _.
Arguments rt_middleware {R} _.
Arguments rt_handler {R} _.

Abbreviation Router R := (list (Route R)).

Definition split_path (path : str) : list str := filter (fun s => s ≠ []) (split (lit "/") path).

Definition parse_segment (s : str) : Segment :=
  match strip_prefix (lit ":") s with Some name => Param name | None => Literal s end.
Definition parse_pattern (path : str) : list Segment := parse_segment <$> split_path path.

(** The loop of [match_pattern] over the zipped segments. *)
Fixpoint match_loop (pairs : list (Segment * str)) (params : Params) : option Params :=
  match pairs with
  | [] => Some params
  | (Literal l, value) :: pairs => if decide (l = value) then match_loop pairs params else None
  | (Param name, value) :: pairs =>
      match value with [] => None | _ => match_loop pairs (params ++ [(name, value)]) end
  end.

Definition match_pattern (pattern : list Segment) (segments : list str) : option Params :=
  if negb (length pattern =? length segments)%nat then None
  else match_loop (zip pattern segments) [].

Definition route_with_middleware {R} (m : Method) (path : str) (mw : MiddlewareChain R)
    (handler : Request → Params → R) (r : Router R) : Router R :=
  r ++ [mkRoute m (parse_pattern path) mw handler].

(** The loop of [dispatch]; [path_matched] as in the source.  [answer] gives the
    response the router itself makes. *)
Fixpoint dispatch_loop {R} (answer : Response → R) (routes : list (Route R)) (req : Request) (segs : list str)
    (path_matched : bool) : R :=
  match routes with
  | [] => answer (if path_matched then method_not_allowed else not_found)
  | route :: routes =>
      match match_pattern (rt_pattern route) segs with
      | Some params =>
          if negb (bool_decide (rt_method route = rq_method req)) then dispatch_loop answer routes req segs true
          else
            match MiddlewareChain_run (rt_middleware route) req with
            | Some resp => resp
            | None => rt_handler route req params
            end
      | None => dispatch_loop answer routes req segs path_matched
      end
  end.

Definition dispatch {R} (answer : Response → R) (r : Router R) (req : Request) : R :=
  dispatch_loop answer r req (split_path (Request_path req)) false.

(** ** [server.rs]

    The peer's side of a connection is the list of what successive reads find:
    data as it arrives, the end of the stream, or an error. *)

Inductive ReadEvent := RData (bs : bytes) | RWouldBlock | RTimedOut | RError.

Inductive ReadResult := ReadOk (bs : bytes) | ReadErr (e : ReadEvent).

(** [stream.read(&mut buf[..n])]: at most [n] bytes of the next segment. *)
Definition stream_read (n : nat) (s : list ReadEvent) : ReadResult * list ReadEvent :=
  match s with
  | [] => (ReadOk [], [])
  | RData bs :: s =>
      if (length bs <=? n)%nat then (ReadOk bs, s) else (ReadOk (take n bs), RData (drop n bs) :: s)
  | e :: s => (ReadErr e, s)
  end.

Definition MAX_HEADER_BUF : nat := 64 * 1024.

(** [buf[..filled].windows(4).any(...)]. *)
Fixpoint has_header_end (b : bytes) : bool :=
  match b with
  | [] => false
  | _ :: b' => starts_with (CRLF ++ CRLF) b || has_header_end b'
  end.

(** The first loop: [filled] is [buf[..filled]], [cap] is [buf.len()].  Each turn
    that goes on adds a byte, so [MAX_HEADER_BUF] turns suffice. *)
Fixpoint read_header (fuel : nat) (s : list ReadEvent) (filled : bytes) (cap : nat)
  : list ReadEvent * result bytes HttpError :=
  match fuel with
  | O => (s, Err HeaderTooLong)
  | S fuel =>
      if (MAX_HEADER_BUF <=? length filled)%nat then (s, Err HeaderTooLong)
      else
        match stream_read (cap - length filled) s with
        | (ReadOk [], s) => (s, Err ConnectionClosed)
        | (ReadOk bs, s) =>
            let filled := filled ++ bs in
            if has_header_end filled then (s, Ok filled)
            else read_header fuel s filled (if (length filled =? cap)%nat then (cap * 2)%nat else cap)
        | (ReadErr RWouldBlock, s) | (ReadErr RTimedOut, s) => (s, Err HTimeout)
        | (ReadErr _, s) => (s, Err HIo)
        end
  end.

(** The second loop: [while filled < total_needed]. *)
Fixpoint read_more (fuel : nat) (s : list ReadEvent) (filled : bytes) (total_needed : nat)
  : list ReadEvent * result bytes HttpError :=
  match fuel with
  | O => (s, Ok filled)
  | S fuel =>
      if (length filled <? total_needed)%nat then
        match stream_read (total_needed - length filled) s with
        | (ReadOk [], s) => (s, Err ConnectionClosed)
        | (ReadOk bs, s) => read_more fuel s (filled ++ bs) total_needed
        | (ReadErr RTimedOut, s) => (s, Err HTimeout)
        | (ReadErr _, s) => (s, Err HIo)
        end
      else (s, Ok filled)
  end.

(** The peek at [Content-Length]: how many bytes the request needs. *)
Definition peek_total (header_str : str) : panics (result (option nat) HttpError) :=
  match str_find (lit "content-length:") (to_ascii_lowercase header_str) with
  | None => Some (Ok None)
  | Some cl_start =>
      after ← slice_from (Z.of_nat cl_start + 15) header_str;
      match split_once CRLF after with
      | None => Some (Ok None)
      | Some (value, _) =>
          match parse_uint 64 (trim value) with
          | None => Some (Ok None)
          | Some content_len =>
              if MAX_BODY_SIZE <? content_len then Some (Err PayloadTooLarge)
              else
                header_end ← str_find (CRLF ++ CRLF) header_str;
                Some (Ok (Some (header_end + 4 + Z.to_nat content_len)%nat))
          end
      end
  end.

Section server.
Context (handler : Request → Response).

(** What one call reads: the bytes of the request. *)
Definition read_request (s : list ReadEvent) : panics (list ReadEvent * result bytes HttpError) :=
  match read_header MAX_HEADER_BUF s [] 4096 with
  | (s, Err e) => Some (s, Err e)
  | (s, Ok filled) =>
      match from_utf8 filled with
      | None => Some (s, Err (BadRequest (lit "non-UTF-8 in headers")))
      | Some header_str =>
          p ← peek_total header_str;
          Some (match p with
                | Err e => (s, Err e)
                | Ok None => (s, Ok filled)
                | Ok (Some total_needed) => read_more total_needed s filled total_needed
                end)
      end
  end.

(** [read_and_respond]: the rest of the stream, the bytes written (writes
    succeed), and the result. *)
Definition read_and_respond (s : list ReadEvent) : panics (list ReadEvent * bytes * result bool HttpError) :=
  r ← read_request s;
  match r with
  | (s, Err e) => Some (s, [], Err e)
  | (s, Ok filled) =>
      match from_utf8 filled with
      | None => Some (s, [], Err (BadRequest (lit "non-UTF-8 in request")))
      | Some full_str =>
          p ← parse_request full_str;
          Some (match p with
                | Err e => (s, [], Err e)
                | Ok (req, _) =>
                    let keep_alive := is_keep_alive (rq_headers req) && negb (is_close (rq_headers req)) in
                    let response := handler req in
                    (s, Response_to_bytes response, Ok (if rs_status response =? 101 then false else keep_alive))
                end)
      end
  end.

Definition error_to_response (err : HttpError) : Response :=
  match err with
  | BadRequest msg => bad_request msg
  | PayloadTooLarge => body_text (lit "Payload Too Large") (Response_new 413)
  | UriTooLong => body_text (lit "URI Too Long") (Response_new 414)
  | TooManyHeaders | HeaderTooLong => bad_request (lit "header limits exceeded")
  | _ => internal_error
  end.

(** [handle_connection]; a turn that goes on has read at least one byte. *)
Fixpoint connection_loop (fuel : nat) (s : list ReadEvent) (out : bytes) : panics bytes :=
  match fuel with
  | O => Some out
  | S fuel =>
      '(s, written, r) ← read_and_respond s;
      match r with
      | Ok true => connection_loop fuel s (out ++ written)
      | Ok false => Some (out ++ written)
      | Err HTimeout | Err ConnectionClosed => Some out
      | Err e => Some (out ++ Response_to_bytes (error_to_response e))
      end
  end.

Definition stream_size (s : list ReadEvent) : nat :=
  sum_list_with (fun e => match e with RData bs => S (length bs) | _ => 1%nat end) s.

Definition handle_connection (s : list ReadEvent) : panics bytes := connection_loop (S (stream_size s)) s [].

End server.

(** ** Lemmas: splitting at the first occurrence *)

Lemma strip_prefix_app pat rest : strip_prefix pat (pat ++ rest) = Some rest.
Proof. by apply strip_prefix_spec. Qed.

Lemma split_once_here pat rest : split_once pat (pat ++ rest) = Some ([], rest).
Proof.
  destruct (pat ++ rest) as [|c s] eqn:E; cbn [split_once]; rewrite <- E, strip_prefix_app; done.
Qed.

Lemma split_once_skip p pat c s :
  c ≠ p → split_once (p :: pat) (c :: s) = '(a, b) ← split_once (p :: pat) s; Some (c :: a, b).
Proof. intros Hc. cbn [split_once strip_prefix]. by rewrite (proj2 (Z.eqb_neq p c)) by congruence. Qed.

(** A stretch without the pattern's first character is passed over. *)
Lemma split_once_pass p pat line s :
  p ∉ line → split_once (p :: pat) (line ++ s) = '(a, b) ← split_once (p :: pat) s; Some (line ++ a, b).
Proof.
  induction line as [|c line IH]; intros Hp.
  - cbn [app]. by destruct (split_once (p :: pat) s) as [[a b]|].
  - apply not_elem_of_cons in Hp as [Hc Hp]. cbn [app]. rewrite split_once_skip, IH by congruence.
    by destruct (split_once (p :: pat) s) as [[a b]|].
Qed.

Lemma split_once_first p pat line rest :
  p ∉ line → split_once (p :: pat) (line ++ (p :: pat) ++ rest) = Some (line, rest).
Proof.
  intros Hp. rewrite split_once_pass by done. rewrite (split_once_here (p :: pat)). cbn [mbind option_bind].
  by rewrite app_nil_r.
Qed.

Lemma split_once_none p pat line : p ∉ line → split_once (p :: pat) line = None.
Proof.
  intros Hp. rewrite <- (app_nil_r line), split_once_pass by done. done.
Qed.

(** *** The header section *)

(** A line of the header section: no carriage return, not empty. *)
Definition plain_line (l : str) : Prop := 13 ∉ l ∧ l ≠ [].

Fixpoint join_lines (ls : list str) : str :=
  match ls with
  | [] => []
  | [l] => l
  | l :: ls => l ++ CRLF ++ join_lines ls
  end.

Lemma plain_line_head l s : plain_line l → ∃ c s', l ++ s = c :: s' ∧ c ≠ 13.
Proof.
  intros [Hn Hne]. destruct l as [|c l]; [done|]. exists c, (l ++ s). split; [done|].
  intros ->. apply Hn. by apply list_elem_of_here.
Qed.

Lemma join_lines_cons l ls : ls ≠ [] → join_lines (l :: ls) = l ++ CRLF ++ join_lines ls.
Proof. by destruct ls. Qed.

(** A single CRLF followed by a character is not the end of the section. *)
Lemma split_once_crlf_plain c s a b :
  c ≠ 13 → split_once (CRLF ++ CRLF) (c :: s) = Some (a, b) →
  split_once (CRLF ++ CRLF) (13 :: 10 :: c :: s) = Some (13 :: 10 :: a, b).
Proof.
  intros Hc H. change (CRLF ++ CRLF) with (13 :: [10; 13; 10]) in *.
  assert (H10 : split_once (13 :: [10; 13; 10]) (10 :: c :: s) = Some (10 :: a, b))
    by (rewrite split_once_skip, H by done; done).
  assert (Hs : strip_prefix (13 :: [10; 13; 10]) (13 :: 10 :: c :: s) = None).
  { cbn [strip_prefix]. rewrite !Z.eqb_refl. by rewrite (proj2 (Z.eqb_neq 13 c)) by congruence. }
  remember (10 :: c :: s) as r. cbn [split_once]. rewrite Hs, H10. done.
Qed.

Lemma header_end_found ls rest :
  Forall plain_line ls → ls ≠ [] →
  split_once (CRLF ++ CRLF) (join_lines ls ++ (CRLF ++ CRLF) ++ rest) = Some (join_lines ls, rest).
Proof.
  intros Hls Hne. destruct ls as [|l ls]; [done|]. clear Hne. revert l Hls.
  induction ls as [|l2 ls IH]; intros l Hls; apply Forall_cons in Hls as [Hl Hls].
  - apply (split_once_first 13 [10; 13; 10]). apply Hl.
  - rewrite join_lines_cons by done. specialize (IH l2 Hls).
    pose proof (proj1 (Forall_cons_1 _ _ _ Hls)) as Hl2.
    assert (∃ c s, join_lines (l2 :: ls) ++ (CRLF ++ CRLF) ++ rest = c :: s ∧ c ≠ 13) as (c & s & Es & Hc).
    { destruct ls as [|l3 ls]; [|rewrite join_lines_cons by done]; rewrite <- ?app_assoc; by apply plain_line_head. }
    rewrite <- !(app_assoc _ _ ((CRLF ++ CRLF) ++ rest)). rewrite Es in *.
    change (CRLF ++ c :: s) with (13 :: 10 :: c :: s).
    change (CRLF ++ CRLF) with (13 :: [10; 13; 10]) at 1. rewrite split_once_pass by apply Hl.
    change (13 :: [10; 13; 10]) with (CRLF ++ CRLF). rewrite (split_once_crlf_plain c s _ _ Hc IH). done.
Qed.

Lemma split_lines ls : Forall (fun l => 13 ∉ l) ls → ls ≠ [] → ∀ fuel, (length ls <= S fuel)%nat →
  split_fuel fuel CRLF (join_lines ls) = ls.
Proof.
  intros Hls Hne. destruct ls as [|l ls]; [done|]. clear Hne. revert l Hls.
  induction ls as [|l2 ls IH]; intros l Hls fuel Hf; apply Forall_cons in Hls as [Hl Hls].
  - cbn [join_lines]. destruct fuel; [done|]. cbn [split_fuel]. unfold CRLF. by rewrite split_once_none.
  - destruct fuel as [|fuel]; [cbn in Hf; lia|]. rewrite join_lines_cons by done. cbn [split_fuel].
    unfold CRLF at 1 2. rewrite (split_once_first 13 [10]) by done. rewrite IH by (done || cbn in *; lia). done.
Qed.

Lemma length_join_lines ls : (length ls <= S (length (join_lines ls)))%nat.
Proof.
  induction ls as [|l [|l2 ls] IH]; [cbn; lia|cbn; lia|].
  rewrite join_lines_cons, !length_app by done. cbn [length CRLF] in *. lia.
Qed.

(** ** Requests: parsing inverts printing *)

Definition request_line (m : Method) (uri : str) : str := Method_as_str m ++ lit " " ++ uri ++ lit " " ++ lit "HTTP/1.1".
Definition header_line (h : Header) : str := h_name h ++ lit ":" ++ lit " " ++ h_value h.

(** A request on the wire, its body apart. *)
Definition print_head (m : Method) (uri : str) (hs : list Header) : str :=
  join_lines (request_line m uri :: (header_line <$> hs)) ++ CRLF ++ CRLF.

Definition uri_ok (uri : str) : Prop := 32 ∉ uri ∧ 13 ∉ uri.

Definition header_ok (h : Header) : Prop :=
  58 ∉ h_name h ∧ 13 ∉ h_name h ∧ 13 ∉ h_value h ∧ trim (h_name h) = h_name h ∧ trim (h_value h) = h_value h ∧
  Z.of_nat (str_len (header_line h)) <= MAX_HEADER_LINE.

Lemma Method_chars m : 32 ∉ Method_as_str m ∧ 13 ∉ Method_as_str m.
Proof. split; refine (bool_decide_unpack _ _); destruct m; vm_compute; exact I. Qed.

Lemma Method_parse_as_str m : Method_parse (Method_as_str m) = Some m.
Proof. by destruct m. Qed.

Lemma parse_request_line_ok m uri :
  32 ∉ uri → parse_request_line (request_line m uri) = Ok (m, uri, lit "HTTP/1.1").
Proof.
  intros Hu. unfold parse_request_line, splitn3, request_line.
  change (lit " ") with [32]. rewrite (split_once_first 32 []) by apply Method_chars.
  rewrite (split_once_first 32 []) by done. cbn [lookup list_lookup ok_or result_bind].
  rewrite Method_parse_as_str. done.
Qed.

Lemma trim_space v : trim (32 :: v) = trim v.
Proof. done. Qed.

Lemma str_len_nonzero c s : (str_len (c :: s) =? 0)%nat = false.
Proof.
  apply Nat.eqb_neq. unfold str_len. rewrite as_bytes_cons, length_app. pose proof (encode_utf8_length c). lia.
Qed.

Lemma header_line_nonempty h : (str_len (header_line h) =? 0)%nat = false.
Proof.
  apply Nat.eqb_neq. unfold header_line. rewrite !str_len_app. change (str_len (lit ":")) with 1%nat. lia.
Qed.

Lemma parse_header_lines_ok hs entries :
  Forall header_ok hs → (length entries + length hs <= MAX_HEADERS)%nat →
  parse_header_lines (header_line <$> hs) entries = Ok (entries ++ hs).
Proof.
  intros Hhs. revert entries. induction Hhs as [|h hs (H1 & _ & _ & H4 & H5 & H6) _ IH]; intros entries Hlen;
    cbn [fmap list_fmap parse_header_lines length] in *; [by rewrite app_nil_r|].
  rewrite header_line_nonempty, (proj2 (Z.ltb_ge _ _)) by done.
  rewrite (proj2 (Nat.leb_gt _ _)) by lia. unfold header_line at 1. change (lit ":") with [58].
  rewrite (split_once_first 58 []) by done. change (lit " " ++ h_value h) with (32 :: h_value h).
  rewrite trim_space, H4, H5. change (list_fmap Header str header_line hs) with (header_line <$> hs).
  rewrite IH by (rewrite length_app; cbn; lia). rewrite <- app_assoc. by destruct h.
Qed.

Lemma header_line_plain h : header_ok h → plain_line (header_line h).
Proof.
  intros (_ & H2 & H3 & _). unfold header_line. split.
  - rewrite !not_elem_of_app. split_and!; [done| | |done]; refine (bool_decide_unpack _ _); vm_compute; exact I.
  - by destruct (h_name h).
Qed.

Lemma request_line_plain m uri : 13 ∉ uri → plain_line (request_line m uri).
Proof.
  intros Hu. unfold request_line. split.
  - rewrite !not_elem_of_app. split_and!; [apply Method_chars| |done| |]; refine (bool_decide_unpack _ _); vm_compute; exact I.
  - by destruct m.
Qed.

Lemma parse_headers_ok hs :
  Forall header_ok hs → hs ≠ [] → (length hs <= MAX_HEADERS)%nat →
  parse_headers (join_lines (header_line <$> hs)) = Ok hs.
Proof.
  intros Hhs Hne Hlen. unfold parse_headers, split.
  assert (Hplain : Forall plain_line (header_line <$> hs))
    by (apply Forall_fmap; eapply Forall_impl; [exact Hhs|apply header_line_plain]).
  rewrite split_lines.
  - rewrite parse_header_lines_ok by done. destruct (join_lines (header_line <$> hs)) eqn:E; [|done].
    exfalso. destruct hs as [|h [|h2 hs]]; [done| |]; cbn [fmap list_fmap join_lines] in E.
    + apply Forall_cons in Hplain as [[_ ?] _]. done.
    + apply app_eq_nil in E as [_ E]. done.
  - eapply Forall_impl; [exact Hplain|]. intros l Hl. apply Hl.
  - by destruct hs.
  - apply length_join_lines.
Qed.

(** The conditions on a request's head: within the limits, nothing that the
    separators would cut differently. *)
Definition head_ok (m : Method) (uri : str) (hs : list Header) : Prop :=
  uri_ok uri ∧ Z.of_nat (str_len (request_line m uri)) <= MAX_REQUEST_LINE ∧
  Forall header_ok hs ∧ hs ≠ [] ∧ (length hs <= MAX_HEADERS)%nat.

Lemma parse_request_head m uri hs rest :
  head_ok m uri hs →
  parse_request (print_head m uri hs ++ rest)
    = body ← read_body hs rest;
      Some (match body with
            | Err e => Err e
            | Ok body => Ok (mkRequest m uri hs body, str_len (print_head m uri hs))
            end).
Proof.
  intros ([Hu1 Hu2] & Hline & Hhs & Hne & Hlen). unfold parse_request, print_head.
  rewrite <- app_assoc, header_end_found; [|constructor; [by apply request_line_plain|]|done].
  2: { apply Forall_fmap. eapply Forall_impl; [exact Hhs|apply header_line_plain]. }
  rewrite join_lines_cons by (by destruct hs). unfold CRLF at 1 2.
  rewrite (split_once_first 13 [10]) by (by apply request_line_plain).
  rewrite (proj2 (Z.ltb_ge _ _)) by done. rewrite parse_request_line_ok, parse_headers_ok by done.
  rewrite (str_len_app _ (CRLF ++ CRLF)). reflexivity.
Qed.

(** A printed request parses back: method, URI, headers and body, and the
    number of bytes of its head, whatever follows it in the buffer. *)
Theorem request_roundtrip m uri hs body extra :
  head_ok m uri hs → is_chunked hs = false →
  content_length hs = Some (Z.of_nat (str_len body)) → Z.of_nat (str_len body) <= MAX_BODY_SIZE →
  parse_request (print_head m uri hs ++ body ++ extra)
    = Some (Ok (mkRequest m uri hs (as_bytes body), str_len (print_head m uri hs))).
Proof.
  intros Hok Hch Hcl Hbody. rewrite parse_request_head by done. unfold read_body. rewrite Hch, Hcl.
  rewrite (proj2 (Z.ltb_ge _ _)) by done. rewrite (proj2 (Z.ltb_ge _ _)) by (rewrite str_len_app; lia).
  unfold slice_to. rewrite (proj2 (Z.leb_le _ _)) by (rewrite str_len_app; lia).
  by rewrite Nat2Z.id, split_at_app.
Qed.

Definition demo_headers : list Header :=
  [mkHeader (lit "Host") (lit "x"); mkHeader (lit "Content-Length") (lit "3")].

Lemma demo_head_ok : head_ok Post (lit "/a?b") demo_headers.
Proof.
  split_and!; [split; refine (bool_decide_unpack _ _); vm_compute; exact I|vm_compute; discriminate| |done|apply Nat.leb_le; reflexivity].
  repeat constructor; try (refine (bool_decide_unpack _ _); vm_compute; exact I); try reflexivity; vm_compute; discriminate.
Qed.

Lemma request_roundtrip_witness :
  parse_request (print_head Post (lit "/a?b") demo_headers ++ lit "abc" ++ lit "next")
    = Some (Ok (mkRequest Post (lit "/a?b") demo_headers (lit "abc"), str_len (print_head Post (lit "/a?b") demo_headers))).
Proof.
  apply (request_roundtrip Post (lit "/a?b") demo_headers (lit "abc") (lit "next"));
    [exact demo_head_ok|reflexivity|reflexivity|vm_compute; discriminate].
Defined.

(** ** Bodies *)

Lemma parse_digits_range w radix acc s v :
  0 <= acc <= umax w → 0 < radix → parse_digits w radix acc s = Some v → 0 <= v <= umax w.
Proof.
  intros Ha Hr. revert acc Ha. induction s as [|c s IH]; intros acc Ha H; cbn [parse_digits] in H; [by simplify_eq|].
  destruct (to_digit radix c) as [d|] eqn:Ed; [|done]. cbn [mbind option_bind] in H.
  destruct (Z.leb_spec (acc * radix + d) (umax w)) as [Hle|]; [|done]. apply (IH _) in H; [done|].
  split; [|done]. unfold to_digit in Ed. destruct (_ <? radix) in Ed; [|done]. simplify_eq.
  destruct ((48 <=? c) && (c <=? 57)) eqn:E1; [lia|]. destruct ((97 <=? c) && (c <=? 122)) eqn:E2; [lia|].
  destruct ((65 <=? c) && (c <=? 90)) eqn:E3; nia.
Qed.

Lemma from_str_radix_range w radix s v : 0 < w → 0 < radix → from_str_radix w radix s = Some v → 0 <= v <= umax w.
Proof.
  intros Hw Hr. assert (0 <= 0 <= umax w) as H0 by (unfold umax; pose proof (Z.pow_gt_1 2 w); lia).
  unfold from_str_radix. destruct s as [|c s]; [done|].
  assert (∀ t, parse_digits w radix 0 t = Some v → 0 <= v <= umax w) by (intros t; by apply parse_digits_range).
  repeat (match goal with |- context [match ?p with _ => _ end] => destruct p end; eauto). all: try done; eauto.
Qed.

Lemma slice_to_spec n s a : slice_to n s = Some a → 0 <= n → n <= Z.of_nat (str_len s) ∧ Z.of_nat (str_len a) = n ∧ ∃ b, s = a ++ b.
Proof.
  unfold slice_to. intros H Hn. destruct (Z.leb_spec n (Z.of_nat (str_len s))) as [Hle|]; [|done].
  destruct (split_at (Z.to_nat n) s) as [[x y]|] eqn:E; [|done]. cbn in H. simplify_eq.
  apply split_at_spec in E as [-> E]. split_and!; [lia|lia|eauto].
Qed.

Lemma slice_from_spec n s b : slice_from n s = Some b → ∃ a, s = a ++ b ∧ Z.of_nat (str_len a) = Z.max 0 n.
Proof.
  unfold slice_from. intros H. destruct (n <=? Z.of_nat (str_len s)); [|done].
  destruct (split_at (Z.to_nat n) s) as [[x y]|] eqn:E; [|done]. cbn in H. simplify_eq.
  apply split_at_spec in E as [-> E]. exists x. split; [done|lia].
Qed.

(** A Rust string has at most [isize::MAX] bytes. *)
Definition isize_max : Z := 2 ^ 63 - 1.

Lemma chunked_loop_bounded fuel body remaining b :
  Z.of_nat (str_len remaining) <= isize_max →
  Z.of_nat (length body) <= MAX_BODY_SIZE → chunked_loop fuel body remaining = Some (Ok b) →
  Z.of_nat (length b) <= MAX_BODY_SIZE.
Proof.
  revert body remaining. induction fuel as [|fuel IH]; intros body remaining Hr Hb H; cbn [chunked_loop] in H; [by simplify_eq|].
  destruct (split_once CRLF remaining) as [[sl rest]|] eqn:Es; [|done].
  apply split_once_spec in Es as ->. rewrite !str_len_app in Hr. unfold isize_max in *.
  destruct (from_str_radix 64 16 (trim sl)) as [n|] eqn:En; [|done].
  apply from_str_radix_range in En; [|lia|lia]. destruct (n =? 0); [by simplify_eq|].
  destruct (Z.ltb_spec MAX_BODY_SIZE (wrap 64 (Z.of_nat (length body) + n))) as [|Hle]; [done|].
  destruct (Z.of_nat (str_len rest) <? wrap 64 (n + 2)); [done|].
  destruct (slice_to n rest) as [chunk|] eqn:Ec; [|done]. cbn [mbind option_bind] in H.
  destruct (slice_from (wrap 64 (n + 2)) rest) as [rem|] eqn:Er; [|done]. cbn [mbind option_bind] in H.
  apply slice_to_spec in Ec as (H1 & H2 & _); [|lia].
  apply slice_from_spec in Er as (y & -> & _). rewrite str_len_app in Hr, H1.
  apply IH in H; [done|lia|]. unfold str_len in *. rewrite length_app. unfold MAX_BODY_SIZE in *.
  unfold wrap in Hle. rewrite Z.mod_small in Hle by lia. lia.
Qed.

Lemma read_body_bounded headers remaining b :
  Z.of_nat (str_len remaining) <= isize_max → read_body headers remaining = Some (Ok b) →
  Z.of_nat (length b) <= MAX_BODY_SIZE.
Proof.
  intros Hr. unfold read_body. destruct (is_chunked headers).
  - apply chunked_loop_bounded; [done|done].
  - destruct (content_length headers) as [len|] eqn:El; [|intros [= <-]; done].
    destruct (Z.ltb_spec MAX_BODY_SIZE len) as [|Hle]; [done|].
    destruct (_ <? len); [done|]. destruct (slice_to len remaining) as [x|] eqn:Ex; [|done]. intros [= <-].
    unfold content_length in El. destruct (Headers_get _ headers) as [v|]; [|done].
    apply from_str_radix_range in El; [|lia|lia]. apply slice_to_spec in Ex as (_ & Hx & _); [|lia].
    unfold str_len in Hx. lia.
Qed.

(** A parsed request keeps to the documented limits: its body is at most one
    mebibyte also when a chunk size makes the sum of sizes wrap around. *)
Theorem request_body_bounded buf req n :
  Z.of_nat (str_len buf) <= isize_max → parse_request buf = Some (Ok (req, n)) →
  Z.of_nat (length (rq_body req)) <= MAX_BODY_SIZE.
Proof.
  intros Hbuf. unfold parse_request. destruct (split_once (CRLF ++ CRLF) buf) as [[sec rest]|] eqn:E; [|done].
  apply split_once_spec in E as ->. rewrite !str_len_app in Hbuf.
  destruct (split_once CRLF sec) as [[line hl]|]; [|done]. destruct (_ <? _); [done|].
  destruct (parse_request_line line) as [[[m u] v]|]; [|done]. destruct (parse_headers hl) as [hs|]; [|done].
  destruct (read_body hs rest) as [[b|]|] eqn:Eb; [|done|done]. intros [= <- _]. cbn [rq_body].
  apply (read_body_bounded hs rest); [lia|done].
Qed.

Lemma split_at_inside a c b k : (0 < k < length (encode_utf8 c))%nat → split_at (str_len a + k) (a ++ c :: b) = None.
Proof.
  intros Hk. induction a as [|d a IH].
  - change (str_len []) with 0%nat. rewrite Nat.add_0_l. destruct k as [|k]; [lia|].
    cbn [app split_at]. by rewrite (proj2 (Nat.ltb_lt _ _)) by lia.
  - unfold str_len in *. rewrite as_bytes_cons, length_app. pose proof (encode_utf8_length d).
    destruct (length (encode_utf8 d) + length (as_bytes a) + k)%nat as [|n] eqn:En; [lia|].
    cbn [app split_at]. rewrite (proj2 (Nat.ltb_ge _ _)) by lia.
    replace (S n - length (encode_utf8 d))%nat with (length (as_bytes a) + k)%nat by lia. by rewrite IH.
Qed.

(** A [Content-Length] that ends inside a character of the body panics: the
    slice of the [&str] is not on a character boundary.  The release profile
    aborts on a panic, so one such request stops the process. *)
Theorem content_length_off_boundary_panics m uri hs a c b k :
  head_ok m uri hs → is_chunked hs = false → (0 < k < length (encode_utf8 c))%nat →
  content_length hs = Some (Z.of_nat (str_len a + k)) → Z.of_nat (str_len a + k) <= MAX_BODY_SIZE →
  parse_request (print_head m uri hs ++ a ++ c :: b) = None.
Proof.
  intros Hok Hch Hk Hcl Hmax. rewrite parse_request_head by done. unfold read_body. rewrite Hch, Hcl.
  assert (Hl : (str_len a + k <= str_len (a ++ c :: b))%nat).
  { rewrite str_len_app. assert (str_len (c :: b) = length (encode_utf8 c) + str_len b)%nat as ->
      by (unfold str_len; by rewrite as_bytes_cons, length_app). lia. }
  rewrite (proj2 (Z.ltb_ge _ _)) by done. rewrite (proj2 (Z.ltb_ge _ _)) by lia.
  unfold slice_to. rewrite (proj2 (Z.leb_le _ _)) by lia. by rewrite Nat2Z.id, split_at_inside.
Qed.

(** The three-byte body [a] followed by the euro sign's first two bytes. *)
Lemma content_length_off_boundary_panics_witness :
  parse_request (print_head Post (lit "/a?b") demo_headers ++ lit "a" ++ [0x20AC]) = None.
Proof.
  apply (content_length_off_boundary_panics Post (lit "/a?b") demo_headers (lit "a") 0x20AC [] 2);
    [exact demo_head_ok|reflexivity|split; apply Nat.ltb_lt; reflexivity|reflexivity|vm_compute; discriminate].
Defined.

Lemma request_body_bounded_witness :
  let buf := print_head Post (lit "/a?b") demo_headers ++ lit "abc" in
  ∃ req n, parse_request buf = Some (Ok (req, n)) ∧ Z.of_nat (length (rq_body req)) <= MAX_BODY_SIZE.
Proof.
  cbv zeta. eexists _, _. split; [reflexivity|].
  eapply (request_body_bounded (print_head Post (lit "/a?b") demo_headers ++ lit "abc")); [vm_compute; discriminate|reflexivity].
Defined.

(** ** Chunked bodies *)

(** A turn of the loop drops characters, so more fuel than characters changes nothing. *)
Lemma chunked_fuel_enough f1 f2 body remaining :
  (length remaining < f1)%nat → (length remaining < f2)%nat →
  chunked_loop f1 body remaining = chunked_loop f2 body remaining.
Proof.
  revert f2 body remaining. induction f1 as [|f1 IH]; intros [|f2] body remaining H1 H2; [lia|lia|lia|].
  cbn [chunked_loop]. destruct (split_once CRLF remaining) as [[sl rest]|] eqn:Es; [|done].
  apply split_once_spec in Es as ->. rewrite !length_app in *. cbn [CRLF length] in *.
  destruct (from_str_radix 64 16 (trim sl)) as [n|]; [|done]. destruct (n =? 0); [done|].
  destruct (_ <? _); [done|]. destruct (_ <? _); [done|].
  destruct (slice_to n rest); [|done]. cbn [mbind option_bind].
  destruct (slice_from (wrap 64 (n + 2)) rest) as [rem|] eqn:Er; [|done]. cbn [mbind option_bind].
  apply slice_from_spec in Er as (y & -> & _). rewrite length_app in *. apply IH; lia.
Qed.

(** A chunk: its size line, in any spelling the parser reads, and its data. *)
Definition chunk_ok (ch : str * str) : Prop :=
  13 ∉ ch.1 ∧ ch.2 ≠ [] ∧ from_str_radix 64 16 (trim ch.1) = Some (Z.of_nat (str_len ch.2)).

Definition print_chunk (ch : str * str) : str := ch.1 ++ CRLF ++ ch.2 ++ CRLF.
Definition chunk_data (chs : list (str * str)) : str := chs ≫= snd.

Lemma str_len_pos s : s ≠ [] → (0 < str_len s)%nat.
Proof. destruct s as [|c s]; [done|]. intros _. pose proof (str_len_nonzero c s) as H. apply Nat.eqb_neq in H. lia. Qed.

Lemma chunked_loop_ok chs size0 trailer body fuel :
  Forall chunk_ok chs → 13 ∉ size0 → from_str_radix 64 16 (trim size0) = Some 0 →
  Z.of_nat (length body + str_len (chunk_data chs)) <= MAX_BODY_SIZE →
  (length chs < fuel)%nat →
  chunked_loop fuel body ((chs ≫= print_chunk) ++ size0 ++ CRLF ++ trailer)
    = Some (Ok (body ++ as_bytes (chunk_data chs))).
Proof.
  intros Hchs H0 Hz. revert body fuel. induction Hchs as [|[sl data] chs (Hsl & Hne & Hn) _ IH]; intros body fuel Hmax Hf;
    (destruct fuel as [|fuel]; [lia|]); cbn [chunked_loop].
  - cbn [mbind list_bind app]. unfold CRLF at 1 2. rewrite (split_once_first 13 [10]) by done. rewrite Hz.
    cbn. by rewrite app_nil_r.
  - change (chunk_data ((sl, data) :: chs)) with (data ++ chunk_data chs) in *.
    change (((sl, data) :: chs) ≫= print_chunk) with (print_chunk (sl, data) ++ (chs ≫= print_chunk)).
    cbn [fst snd] in *. unfold print_chunk at 1. cbn [fst snd]. rewrite <- !app_assoc. unfold CRLF at 1 2.
    rewrite (split_once_first 13 [10]) by done. rewrite Hn. apply str_len_pos in Hne.
    rewrite str_len_app in Hmax. unfold MAX_BODY_SIZE in Hmax |- *. cbn [length] in Hf.
    rewrite (proj2 (Z.eqb_neq _ _)) by lia. unfold wrap. rewrite !Z.mod_small by lia.
    rewrite (proj2 (Z.ltb_ge _ _)) by lia.
    set (tl := (chs ≫= print_chunk) ++ size0 ++ CRLF ++ trailer).
    rewrite (proj2 (Z.ltb_ge _ _)) by (rewrite !str_len_app; change (str_len CRLF) with 2%nat; lia).
    unfold slice_to, slice_from. rewrite !(proj2 (Z.leb_le _ _)) by (rewrite !str_len_app; change (str_len CRLF) with 2%nat; lia).
    rewrite Nat2Z.id, split_at_app. cbn [fmap option_fmap option_map fst mbind option_bind].
    replace (Z.to_nat (Z.of_nat (str_len data) + 2)) with (str_len (data ++ CRLF))
      by (rewrite str_len_app; change (str_len CRLF) with 2%nat; lia).
    rewrite (app_assoc data CRLF tl), split_at_app. cbn [fmap option_fmap option_map snd mbind option_bind].
    subst tl. rewrite IH; [by rewrite as_bytes_app, app_assoc| |lia].
    rewrite length_app. unfold str_len, MAX_BODY_SIZE in *. lia.
Qed.

(** Chunked bodies decode to the concatenation of their chunks, for any split
    into chunks, any spelling of the sizes the radix-16 parser reads, and any
    trailer, as long as the whole body is within the limit. *)
Theorem chunked_roundtrip chs size0 trailer :
  Forall chunk_ok chs → 13 ∉ size0 → from_str_radix 64 16 (trim size0) = Some 0 →
  Z.of_nat (str_len (chunk_data chs)) <= MAX_BODY_SIZE →
  decode_chunked_body ((chs ≫= print_chunk) ++ size0 ++ CRLF ++ trailer) = Some (Ok (as_bytes (chunk_data chs))).
Proof.
  intros Hchs H0 Hz Hmax. unfold decode_chunked_body.
  apply (chunked_loop_ok chs size0 trailer []); [done|done|done|exact Hmax|].
  assert (length chs <= length (chs ≫= print_chunk))%nat.
  { clear. induction chs as [|ch chs IH]; [done|]. change ((ch :: chs) ≫= print_chunk) with (print_chunk ch ++ (chs ≫= print_chunk)).
    unfold print_chunk at 1. rewrite !length_app. cbn [length CRLF]. lia. }
  rewrite !length_app. lia.
Qed.

Lemma chunked_roundtrip_witness :
  decode_chunked_body (lit "3" ++ CRLF ++ lit "abc" ++ CRLF ++ lit "0B" ++ CRLF ++ lit "hello world" ++ CRLF ++ lit "0" ++ CRLF ++ CRLF)
    = Some (Ok (lit "abchello world")).
Proof.
  apply (chunked_roundtrip [(lit "3", lit "abc"); (lit "0B", lit "hello world")] (lit "0") CRLF).
  - repeat constructor; try (refine (bool_decide_unpack _ _); vm_compute; exact I); try reflexivity; discriminate.
  - refine (bool_decide_unpack _ _); vm_compute; exact I.
  - reflexivity.
  - vm_compute. discriminate.
Defined.

(** ** Routing *)

(** The path of a route matches the request. *)
Definition route_matches {R} (req : Request) (r : Route R) : option Params :=
  match_pattern (rt_pattern r) (split_path (Request_path req)).

(** The response of a route whose path and method match. *)
Definition route_response {R} (req : Request) (r : Route R) (params : Params) : R :=
  match MiddlewareChain_run (rt_middleware r) req with Some resp => resp | None => rt_handler r req params end.

Lemma match_loop_params pairs p0 p :
  match_loop pairs p0 = Some p ↔
  Forall (fun '(seg, v) => match seg with Literal l => l = v | Param _ => v ≠ [] end) pairs ∧
  p = p0 ++ omap (fun '(seg, v) => match seg with Literal _ => None | Param n => Some (n, v) end) pairs.
Proof.
  revert p0. induction pairs as [|[[l|n] v] pairs IH]; intros p0; cbn [match_loop].
  - cbn [omap list_omap]. rewrite app_nil_r. split; [intros [= ->]; by split; [constructor|]|by intros [_ ->]].
  - rewrite Forall_cons. destruct (decide (l = v)) as [->|Hne]; [|naive_solver]. rewrite IH. cbn [omap list_omap]. naive_solver.
  - rewrite Forall_cons. destruct v as [|c v]; [naive_solver|]. rewrite IH. cbn [omap list_omap]. rewrite <- app_assoc. cbn [app]. naive_solver.
Qed.

(** A pattern matches the paths that agree with it segment by segment, and binds
    its parameters to the segments in their place. *)
Lemma match_pattern_spec pattern segs p :
  match_pattern pattern segs = Some p ↔
  length pattern = length segs ∧
  Forall (fun '(seg, v) => match seg with Literal l => l = v | Param _ => v ≠ [] end) (zip pattern segs) ∧
  p = omap (fun '(seg, v) => match seg with Literal _ => None | Param n => Some (n, v) end) (zip pattern segs).
Proof.
  unfold match_pattern. destruct (Nat.eqb_spec (length pattern) (length segs)) as [He|He]; cbn [negb].
  - rewrite match_loop_params. naive_solver.
  - naive_solver.
Qed.

Lemma dispatch_loop_spec {R} (answer : Response → R) routes req flag :
  dispatch_loop answer routes req (split_path (Request_path req)) flag =
  match list_find (fun r => is_Some (route_matches req r) ∧ rt_method r = rq_method req) routes with
  | Some (_, r) => route_response req r (default [] (route_matches req r))
  | None => if flag || existsb (fun r => bool_decide (is_Some (route_matches req r))) routes
            then answer method_not_allowed else answer not_found
  end.
Proof.
  revert flag. induction routes as [|r routes IH]; intros flag; [cbn; by destruct flag|].
  cbn [dispatch_loop list_find existsb].
  assert (route_matches req r = None ∨ ∃ p, route_matches req r = Some p) as [E|[p E]]
    by (destruct (route_matches req r); eauto); pose proof E as E'; unfold route_matches in E'; rewrite E'.
  - rewrite decide_False by (rewrite E; intros [[? ?] _]; done).
    rewrite (bool_decide_false (is_Some (route_matches req r))) by (rewrite E; by intros [? ?]). cbn [orb].
    rewrite IH. destruct (list_find _ routes) as [[i r']|]; done.
  - rewrite (bool_decide_true (is_Some (route_matches req r))) by (rewrite E; eauto).
    destruct (decide (rt_method r = rq_method req)) as [Hm|Hm].
    + rewrite bool_decide_true by done. cbn [negb]. rewrite decide_True by (split; [rewrite E; eauto|done]).
      by rewrite E.
    + rewrite bool_decide_false by done. cbn [negb]. rewrite decide_False by tauto. rewrite IH, orb_true_r. cbn [orb].
      destruct (list_find _ routes) as [[i r']|]; done.
Qed.

(** Dispatch follows its documentation.  The first registered route whose path
    pattern and method both match answers, after its middleware (the first one
    that returns a response short-circuits); with no such route the answer is
    405 when some pattern matches the path and 404 when none does. *)
Theorem dispatch_exact {R} (answer : Response → R) routes req :
  dispatch answer routes req =
  match list_find (fun r => is_Some (route_matches req r) ∧ rt_method r = rq_method req) routes with
  | Some (_, r) => route_response req r (default [] (route_matches req r))
  | None => if existsb (fun r => bool_decide (is_Some (route_matches req r))) routes
            then answer method_not_allowed else answer not_found
  end.
Proof. apply (dispatch_loop_spec answer routes req false). Qed.

(** ** Connections *)

Lemma stream_read_size n s bs s' :
  stream_read n s = (ReadOk bs, s') → bs ≠ [] → (stream_size s' < stream_size s)%nat.
Proof.
  destruct s as [|[b| | |] s]; cbn [stream_read]; [by intros [= <- <-]| |done|done|done].
  destruct (Nat.leb_spec (length b) n) as [Hle|Hgt]; intros [= <- <-] Hne; cbn [stream_size sum_list_with]; fold (stream_size s).
  - unfold stream_size. lia.
  - unfold stream_size. cbn [sum_list_with]. rewrite length_drop. destruct n; [by destruct b|]. lia.
Qed.

Lemma read_header_size fuel s filled cap s' b :
  read_header fuel s filled cap = (s', Ok b) → (stream_size s' < stream_size s)%nat.
Proof.
  revert s filled cap. induction fuel as [|fuel IH]; intros s filled cap H; cbn [read_header] in H; [done|].
  destruct (_ <=? _)%nat; [done|]. destruct (stream_read _ s) as [[[|x bs]|e] s1] eqn:E; [done| |by destruct e].
  apply stream_read_size in E; [|done]. destruct (has_header_end _); [by simplify_eq|]. apply IH in H. lia.
Qed.

Lemma read_more_size fuel s filled total s' r :
  read_more fuel s filled total = (s', Ok r) → (stream_size s' <= stream_size s)%nat.
Proof.
  revert s filled. induction fuel as [|fuel IH]; intros s filled H; cbn [read_more] in H; [by simplify_eq|].
  destruct (_ <? _)%nat; [|by simplify_eq]. destruct (stream_read _ s) as [[[|x bs]|e] s1] eqn:E; [done| |by destruct e].
  apply stream_read_size in E; [|done]. apply IH in H. lia.
Qed.

(** [MAX_HEADER_BUF] turns are enough for the first loop. *)
Lemma read_header_fuel f1 f2 s filled cap :
  (MAX_HEADER_BUF <= f1 + length filled)%nat → (MAX_HEADER_BUF <= f2 + length filled)%nat →
  read_header f1 s filled cap = read_header f2 s filled cap.
Proof.
  revert f2 s filled cap. induction f1 as [|f1 IH]; intros [|f2] s filled cap H1 H2; cbn [read_header].
  - done.
  - rewrite (proj2 (Nat.leb_le _ _)) by lia. done.
  - rewrite (proj2 (Nat.leb_le _ _)) by lia. done.
  - destruct (_ <=? _)%nat; [done|]. destruct (stream_read _ s) as [[[|x bs]|e] s1]; [done| |done].
    destruct (has_header_end _); [done|]. apply IH; rewrite length_app; cbn [length]; lia.
Qed.

(** [total_needed] turns are enough for the second. *)
Lemma read_more_fuel f1 f2 s filled total :
  (total <= f1 + length filled)%nat → (total <= f2 + length filled)%nat →
  read_more f1 s filled total = read_more f2 s filled total.
Proof.
  revert f2 s filled. induction f1 as [|f1 IH]; intros [|f2] s filled H1 H2; cbn [read_more].
  - done.
  - rewrite (proj2 (Nat.ltb_ge _ _)) by lia. done.
  - rewrite (proj2 (Nat.ltb_ge _ _)) by lia. done.
  - destruct (_ <? _)%nat; [|done]. destruct (stream_read _ s) as [[[|x bs]|e] s1]; [done| |done].
    apply IH; rewrite length_app; cbn [length]; lia.
Qed.

Lemma read_request_size s s' b :
  read_request s = Some (s', Ok b) → (stream_size s' < stream_size s)%nat.
Proof.
  unfold read_request. destruct (read_header _ s [] 4096) as [s1 [filled|e]] eqn:E; [|done].
  apply read_header_size in E. destruct (from_utf8 filled) as [hs|]; [|done].
  destruct (peek_total hs) as [[[total|]|e]|]; cbn [mbind option_bind]; [| |done|done].
  - intros [= H]. apply read_more_size in H. lia.
  - by intros [= <- _].
Qed.

Lemma read_and_respond_size handler s s' out b :
  read_and_respond handler s = Some (s', out, Ok b) → (stream_size s' < stream_size s)%nat.
Proof.
  unfold read_and_respond. destruct (read_request s) as [[s1 [filled|e]]|] eqn:E; [|done|done].
  apply read_request_size in E. cbn [mbind option_bind]. destruct (from_utf8 filled) as [f|]; [|done].
  destruct (parse_request f) as [[[req n]|e]|]; cbn [mbind option_bind]; [|done|done]. by intros [= <- _ _].
Qed.

(** The loop of a connection ends: the fuel of [handle_connection] is enough. *)
Lemma connection_loop_fuel handler f1 f2 s out :
  (stream_size s < f1)%nat → (stream_size s < f2)%nat →
  connection_loop handler f1 s out = connection_loop handler f2 s out.
Proof.
  revert f2 s out. induction f1 as [|f1 IH]; intros [|f2] s out H1 H2; [lia|lia|lia|]. cbn [connection_loop].
  destruct (read_and_respond handler s) as [[[s1 w] [[]|e]]|] eqn:E; cbn [mbind option_bind]; [|done|done|done].
  apply read_and_respond_size in E. apply IH; lia.
Qed.

Definition keep_alive_get : str :=
  lit "GET /a HTTP/1.1" ++ CRLF ++ lit "Connection: keep-alive" ++ CRLF ++ CRLF.
Definition keep_alive_request : Request :=
  mkRequest Get (lit "/a") [mkHeader (lit "Connection") (lit "keep-alive")] [].

(** A pipelined request is lost.  The server reads into a buffer of the call,
    so two keep-alive requests that arrive in one segment get one response and
    the second is consumed without an answer; the same two requests in two
    segments get two.  The module documentation says that the connection is
    kept alive for pipelining. *)
Theorem pipelined_request_lost handler :
  (∀ req, rs_status (handler req) = 200) →
  handle_connection handler [RData (keep_alive_get ++ keep_alive_get)]
    = Some (Response_to_bytes (handler keep_alive_request)) ∧
  handle_connection handler [RData keep_alive_get; RData keep_alive_get]
    = Some (Response_to_bytes (handler keep_alive_request) ++ Response_to_bytes (handler keep_alive_request)).
Proof.
  intros Hst.
  assert (H1 : ∀ rest seg, seg = keep_alive_get ∨ seg = keep_alive_get ++ keep_alive_get →
    read_and_respond handler (RData seg :: rest) = Some (rest, Response_to_bytes (handler keep_alive_request), Ok true)).
  { intros rest seg Hseg.
    assert (Hr : read_request (RData seg :: rest) = Some (rest, Ok seg)) by (destruct Hseg as [-> | ->]; reflexivity).
    assert (Hp : ∃ f n, from_utf8 seg = Some f ∧ parse_request f = Some (Ok (keep_alive_request, n)))
      by (destruct Hseg as [-> | ->]; eexists _, _; split; reflexivity).
    destruct Hp as (f & n & Hf & Hp). unfold read_and_respond. rewrite Hr. cbn [mbind option_bind]. rewrite Hf, Hp.
    cbn [mbind option_bind]. rewrite Hst. reflexivity. }
  assert (H0 : read_and_respond handler [] = Some ([], [], Err ConnectionClosed)) by reflexivity.
  split; unfold handle_connection.
  - rewrite (connection_loop_fuel handler _ 100) by (vm_compute; lia).
    cbn [connection_loop]. rewrite (H1 []) by auto. cbn [mbind option_bind]. rewrite H0. reflexivity.
  - rewrite (connection_loop_fuel handler _ 100) by (vm_compute; lia).
    cbn [connection_loop]. rewrite H1 by auto. cbn [mbind option_bind]. rewrite (H1 []) by auto. cbn [mbind option_bind].
    rewrite H0. reflexivity.
Qed.

Lemma pipelined_request_lost_witness :
  handle_connection (fun _ => Response_ok) [RData (keep_alive_get ++ keep_alive_get)] = Some (Response_to_bytes Response_ok).
Proof. exact (proj1 (pipelined_request_lost (fun _ => Response_ok) (fun _ => eq_refl))). Defined.

Definition chunked_head : str :=
  lit "POST /a HTTP/1.1" ++ CRLF ++ lit "Transfer-Encoding: chunked" ++ CRLF ++ CRLF.
Definition chunked_tail : str := lit "3" ++ CRLF ++ lit "abc" ++ CRLF ++ lit "0" ++ CRLF ++ CRLF.

(** A chunked body is read only as far as it arrived with the headers. *)
Example chunked_body_needs_one_segment handler :
  (read_and_respond handler [RData chunked_head; RData chunked_tail]
     = Some ([RData chunked_tail], [], Err (BadRequest (lit "truncated chunk size")))).
Proof. reflexivity. Qed.

(** A read timeout, which Unix sockets report as [WouldBlock], closes the
    connection silently in the header phase and is an I/O error (a 500) in the
    body phase. *)
Example body_timeout_is_io_error handler :
  read_and_respond handler [RData (lit "POST / HTTP/1.1"); RWouldBlock] = Some ([], [], Err HTimeout) ∧
  read_and_respond handler [RData (lit "POST / HTTP/1.1" ++ CRLF ++ lit "Content-Length: 3" ++ CRLF ++ CRLF); RWouldBlock]
    = Some ([], [], Err HIo).
Proof. split; reflexivity. Qed.
