(* ===== verification/WebSocket.v ===== *)
(** * WebSocket frames, the upgrade handshake and Basic authentication

    [desmos-http/src/websocket/frame.rs], [websocket/handshake.rs] and
    [basic_auth.rs].  [ring]'s SHA-1 and PBKDF2 are parameters. *)

From stdpp Require Import base numbers list strings.
From Stdlib Require Import ZArith Lia.
From S2P Require Import Prelude Str Http.

(** ** [frame.rs] *)

Inductive Opcode := Text | Binary | Close | Ping | Pong.

#[export] Instance Opcode_eq_dec : EqDecision Opcode.
Proof. solve_decision. Defined.

Definition Opcode_from_byte (b : Z) : option Opcode :=
  let o := Z.land b 0x0F in
  if o =? 1 then Some Text else if o =? 2 then Some Binary else if o =? 8 then Some Close
  else if o =? 9 then Some Ping else if o =? 10 then Some Pong else None.

Definition Opcode_to_byte (o : Opcode) : Z :=
  match o with Text => 1 | Binary => 2 | Close => 8 | Ping => 9 | Pong => 10 end.

Definition is_control (o : Opcode) : bool := match o with Close | Ping | Pong => true | _ => false end.

Record Frame := mkFrame { fin : bool; opcode : Opcode; payload : bytes }.

Definition Frame_text (data : str) : Frame := mkFrame true Text (as_bytes data).
Definition Frame_binary (data : bytes) : Frame := mkFrame true Binary data.
Definition Frame_close (code : option Z) : Frame :=
  mkFrame true Close (match code with Some c => to_be_bytes 2 c | None => [] end).
Definition Frame_ping (data : bytes) : Frame := mkFrame true Ping data.
Definition Frame_pong (data : bytes) : Frame := mkFrame true Pong data.

Definition Frame_as_text (f : Frame) : option str :=
  if decide (opcode f = Text) then from_utf8 (payload f) else None.

Definition Frame_close_code (f : Frame) : option Z :=
  if bool_decide (opcode f = Close) && (2 <=? length (payload f))%nat then u16_at (payload f) 0 else None.

Definition encode_frame (frame : Frame) : bytes :=
  let b0 := Z.lor (if fin frame then 0x80 else 0x00) (Opcode_to_byte (opcode frame)) in
  let len := Z.of_nat (length (payload frame)) in
  [b0] ++
  (if len <? 126 then [len]
   else if len <=? 0xFFFF then 126 :: to_be_bytes 2 len
   else 127 :: to_be_bytes 8 len)
  ++ payload frame.

Definition MAX_FRAME_PAYLOAD : Z := 1024 * 1024.

Inductive FrameError := UnknownOpcode | FrameTooLarge.

(** The length field: [None] when the buffer is too short for it; the payload
    length and the header size. *)
Definition frame_length (buf : bytes) (len_byte : Z) : option (Z * nat) :=
  if len_byte <=? 125 then Some (len_byte, 2%nat)
  else if len_byte =? 126 then
    if (length buf <? 4)%nat then None else Some (from_be_bytes (slice 2 4 buf), 4%nat)
  else
    if (length buf <? 10)%nat then None else Some (from_be_bytes (slice 2 10 buf), 10%nat).

(** [*byte ^= mask_key[i % 4]]. *)
Definition unmask (key : bytes) (data : bytes) : bytes :=
  imap (fun i b => Z.lxor b (byte_at key (i mod 4))) data.

Definition decode_frame (buf : bytes) : result (option (Frame * nat)) FrameError :=
  match buf with
  | b0 :: b1 :: _ =>
      match Opcode_from_byte b0 with
      | None => Err UnknownOpcode
      | Some op =>
          let masked := negb (Z.land b1 0x80 =? 0) in
          match frame_length buf (Z.land b1 0x7F) with
          | None => Ok None
          | Some (payload_len, header_size) =>
              if MAX_FRAME_PAYLOAD <? payload_len then Err FrameTooLarge
              else
                let mask_size := if masked then 4%nat else 0%nat in
                let total := (header_size + mask_size + Z.to_nat payload_len)%nat in
                if (length buf <? total)%nat then Ok None
                else
                  let data := slice (header_size + mask_size) total buf in
                  let data := if masked then unmask (slice header_size (header_size + 4) buf) data else data in
                  Ok (Some (mkFrame (negb (Z.land b0 0x80 =? 0)) op data, total))
          end
      end
  | _ => Ok None
  end.

(** ** Base64 *)

Definition ALPHABET : bytes := lit "ABCDEFGHIJKLMNOPQRSTUVWXYZabcdefghijklmnopqrstuvwxyz0123456789+/".

(** [ALPHABET[v] as char]. *)
Definition b64_char (v : Z) : char := byte_at ALPHABET (Z.to_nat v).

(** One turn of the encoder: a chunk of one to three bytes. *)
Definition b64_chunk (chunk : bytes) : str :=
  let b0 := byte_at chunk 0 in
  let b1 := if (1 <? length chunk)%nat then byte_at chunk 1 else 0 in
  let b2 := if (2 <? length chunk)%nat then byte_at chunk 2 else 0 in
  let triple := Z.lor (Z.lor (Z.shiftl b0 16) (Z.shiftl b1 8)) b2 in
  [b64_char (Z.land (Z.shiftr triple 18) 0x3F); b64_char (Z.land (Z.shiftr triple 12) 0x3F);
   if (1 <? length chunk)%nat then b64_char (Z.land (Z.shiftr triple 6) 0x3F) else 61;
   if (2 <? length chunk)%nat then b64_char (Z.land triple 0x3F) else 61].

Fixpoint base64_encode (data : bytes) : str :=
  match data with
  | a :: b :: c :: rest => b64_chunk [a; b; c] ++ base64_encode rest
  | [] => []
  | chunk => b64_chunk chunk
  end.

Definition b64_val (b : Z) : option Z :=
  if (65 <=? b) && (b <=? 90) then Some (b - 65)
  else if (97 <=? b) && (b <=? 122) then Some (b - 97 + 26)
  else if (48 <=? b) && (b <=? 57) then Some (b - 48 + 52)
  else if b =? 43 then Some 62
  else if b =? 47 then Some 63
  else None.

Definition b64_space (b : Z) : bool := (b =? 32) || (b =? 10) || (b =? 13) || (b =? 9).

(** The decoder's loop: the [u32] accumulator and the number of bits in it. *)
Fixpoint b64_loop (input : bytes) (buf bits : Z) (out : bytes) : option bytes :=
  match input with
  | [] => Some out
  | b :: input =>
      match b64_val b with
      | Some val =>
          let buf := Z.lor (wrap 32 (Z.shiftl buf 6)) val in
          let bits := bits + 6 in
          if 8 <=? bits then
            let bits := bits - 8 in
            b64_loop input (Z.land buf (Z.shiftl 1 bits - 1)) bits (out ++ [wrap 8 (Z.shiftr buf bits)])
          else b64_loop input buf bits out
      | None => if b64_space b then b64_loop input buf bits out else None
      end
  end.

Definition base64_decode (input : str) : option bytes :=
  b64_loop (as_bytes (trim_end_matches 61 input)) 0 0 [].

(** ** [basic_auth.rs] and [handshake.rs] *)

Record AuthConfig := mkAuthConfig { ac_username : str; ac_password_hash : str }.

Definition decode_basic_auth (header_value : str) : option (str * str) :=
  encoded ← strip_prefix (lit "Basic ") header_value;
  decoded ← base64_decode (trim encoded);
  text ← from_utf8 decoded;
  split_once (lit ":") text.

Definition parse_phc (encoded : str) : option (Z * bytes * bytes) :=
  rest ← strip_prefix (lit "$pbkdf2-sha256$") encoded;
  rest ← strip_prefix (lit "i=") rest;
  '(iter_str, rest) ← split_once (lit "$") rest;
  iterations ← parse_uint 32 iter_str;
  '(salt_b64, hash_b64) ← split_once (lit "$") rest;
  salt ← base64_decode salt_b64;
  hash ← base64_decode hash_b64;
  Some (iterations, salt, hash).

Definition WS_MAGIC : bytes := lit "258EAFA5-E914-47DA-95CA-C5AB0DC85B11".

(** What is used of [ring]: PBKDF2-HMAC-SHA256 with a 32-byte output, its
    verification, and SHA-1. *)
Class RingHash := {
  pbkdf2_derive : Z → bytes → bytes → bytes;
  pbkdf2_verify : Z → bytes → bytes → bytes → bool;
  sha1 : bytes → bytes;
}.

Section ring.
Context `{RingHash}.

(** [NonZeroU32::new(iterations).unwrap()] panics at zero. *)
Definition hash_password (password salt : bytes) (iterations : Z) : panics str :=
  if iterations =? 0 then None
  else Some (lit "$pbkdf2-sha256$" ++ lit "i=" ++ show_uint iterations ++ lit "$" ++ base64_encode salt ++ lit "$"
             ++ base64_encode (pbkdf2_derive iterations salt password)).

Definition verify_credentials (config : AuthConfig) (username password : str) : panics bool :=
  if negb (bool_decide (username = ac_username config)) then Some false
  else
    match parse_phc (ac_password_hash config) with
    | None => Some false
    | Some (iterations, salt, expected_hash) =>
        if iterations =? 0 then None
        else Some (pbkdf2_verify iterations salt (as_bytes password) expected_hash)
    end.

(** [None] inside is "credentials pass". *)
Definition check_basic_auth (req : Request) (config : AuthConfig) : panics (option Response) :=
  match authorization (rq_headers req) with
  | None => Some (Some unauthorized)
  | Some auth_header =>
      match decode_basic_auth auth_header with
      | None => Some (Some unauthorized)
      | Some (username, password) =>
          ok ← verify_credentials config username password;
          Some (if ok : bool then None else Some unauthorized)
      end
  end.

Definition compute_accept_key (client_key : str) : str := base64_encode (sha1 (as_bytes client_key ++ WS_MAGIC)).

Definition try_upgrade (req : Request) : option Response :=
  if negb (bool_decide (rq_method req = Get)) then None
  else if negb (is_websocket_upgrade (rq_headers req)) then None
  else
    key ← websocket_key (rq_headers req);
    version ← Headers_get (lit "sec-websocket-version") (rq_headers req);
    if negb (bool_decide (trim version = lit "13")) then None
    else
      let resp := Response_new 101 in
      let resp := Response_header (lit "Upgrade") (lit "websocket") resp in
      let resp := Response_header (lit "Connection") (lit "Upgrade") resp in
      Some (Response_header (lit "Sec-WebSocket-Accept") (compute_accept_key key) resp).

End ring.

Example base64_ex : base64_encode (lit "desmos!") = lit "ZGVzbW9zIQ==".
Proof. reflexivity. Qed.

(** ** Frames: lemmas *)

Lemma Opcode_from_to (b : bool) o : Opcode_from_byte (Z.lor (if b then 0x80 else 0x00) (Opcode_to_byte o)) = Some o.
Proof. by destruct b, o. Qed.

Lemma fin_bit (b : bool) o : negb (Z.land (Z.lor (if b then 0x80 else 0x00) (Opcode_to_byte o)) 0x80 =? 0) = b.
Proof. by destruct b, o. Qed.

Lemma unmask_length key d : length (unmask key d) = length d.
Proof. apply length_imap. Qed.

Lemma unmask_involutive key d : unmask key (unmask key d) = d.
Proof.
  apply list_eq. intros i. unfold unmask. rewrite !list_lookup_imap.
  destruct (d !! i) as [b|]; [|done]. cbn [fmap option_fmap option_map]. by rewrite lxor_cancel.
Qed.

Lemma slice_app_l {A} lo hi (l k : list A) : (hi <= length l)%nat → slice lo hi (l ++ k) = slice lo hi l.
Proof.
  intros H. unfold slice. destruct (decide (lo <= hi)%nat) as [Hlo|Hlo].
  - rewrite drop_app_le by lia. rewrite take_app_le by (rewrite length_drop; lia). done.
  - replace (hi - lo)%nat with 0%nat by lia. done.
Qed.

Lemma frame_length_app buf k len_byte r :
  frame_length buf len_byte = Some r → frame_length (buf ++ k) len_byte = Some r.
Proof.
  unfold frame_length. rewrite length_app. destruct (len_byte <=? 125); [done|].
  destruct (len_byte =? 126).
  - destruct (Nat.ltb_spec (length buf) 4) as [|H4]; [done|]. rewrite (proj2 (Nat.ltb_ge _ _)) by lia.
    by rewrite slice_app_l by lia.
  - destruct (Nat.ltb_spec (length buf) 10) as [|H10]; [done|]. rewrite (proj2 (Nat.ltb_ge _ _)) by lia.
    by rewrite slice_app_l by lia.
Qed.

(** More bytes never change a decoded frame. *)
Lemma decode_frame_app buf k f total :
  decode_frame buf = Ok (Some (f, total)) →
  (total <= length buf)%nat ∧ decode_frame (buf ++ k) = Ok (Some (f, total)).
Proof.
  destruct buf as [|b0 [|b1 buf]]; [done|done|]. set (whole := b0 :: b1 :: buf).
  intros H. cbn [decode_frame whole app] in H |- *. fold whole in H. change (b0 :: b1 :: buf ++ k) with (whole ++ k).
  destruct (Opcode_from_byte b0) as [op|]; [|done].
  destruct (frame_length whole (Z.land b1 0x7F)) as [[pl hs]|] eqn:El; [|done].
  rewrite (frame_length_app whole k _ _ El). destruct (MAX_FRAME_PAYLOAD <? pl); [done|].
  set (ms := if negb (Z.land b1 0x80 =? 0) then 4%nat else 0%nat) in *.
  destruct (Nat.ltb_spec (length whole) (hs + ms + Z.to_nat pl)) as [|Hlen]; [done|]. rewrite length_app.
  rewrite (proj2 (Nat.ltb_ge _ _)) by lia. simplify_eq. split; [done|].
  rewrite (slice_app_l (hs + ms)) by lia. destruct (Z.land b1 0x80 =? 0) eqn:Eb; [done|].
  assert (ms = 4%nat) by done. cbn [negb]. rewrite slice_app_l by lia. done.
Qed.

(** A prefix of a frame asks for more data. *)
Lemma decode_frame_take buf n f total :
  decode_frame buf = Ok (Some (f, total)) → (n < total)%nat → decode_frame (take n buf) = Ok None.
Proof.
  intros H Hn. pose proof (proj1 (decode_frame_app buf [] f total H)) as Hlen.
  destruct (decode_frame (take n buf)) as [[[f' t']|]|e] eqn:E; [|done|].
  - exfalso. destruct (decode_frame_app _ (drop n buf) _ _ E) as [Hl Hd]. rewrite take_drop in Hd.
    rewrite length_take in Hl. assert (t' = total) by congruence. lia.
  - exfalso. destruct buf as [|b0 [|b1 buf]]; [done|done|].
    destruct n as [|[|n]]; [done|done|]. cbn [take] in E. set (whole := b0 :: b1 :: buf) in *.
    set (part := b0 :: b1 :: take n buf) in *. cbn [decode_frame whole part] in H, E. fold whole part in H, E.
    destruct (Opcode_from_byte b0) as [op|]; [|done].
    destruct (frame_length part (Z.land b1 0x7F)) as [r|] eqn:El; [|done].
    apply (frame_length_app part (drop n buf)) in El.
    change (part ++ drop n buf) with (b0 :: b1 :: (take n buf ++ drop n buf)) in El. rewrite take_drop in El.
    fold whole in El. rewrite El in H. destruct r as [pl hs]. destruct (MAX_FRAME_PAYLOAD <? pl); [done|].
    by destruct (_ <? _)%nat in E.
Qed.

(** A client frame: masked with [key] (RFC 6455, section 5.3). *)
Definition encode_masked (key : bytes) (f : Frame) : bytes :=
  let len := Z.of_nat (length (payload f)) in
  [Z.lor (if fin f then 0x80 else 0x00) (Opcode_to_byte (opcode f))] ++
  (if len <? 126 then [Z.lor 0x80 len]
   else if len <=? 0xFFFF then Z.lor 0x80 126 :: to_be_bytes 2 len
   else Z.lor 0x80 127 :: to_be_bytes 8 len) ++ key ++ unmask key (payload f).

(** The two encodings at once: [masked] with its key, or neither. *)
Definition encode_any (key : option bytes) (f : Frame) : bytes :=
  match key with Some k => encode_masked k f | None => encode_frame f end.

Lemma len7_bits len : 0 <= len < 128 →
  (Z.land len 0x7F = len ∧ Z.land len 0x80 = 0) ∧ (Z.land (Z.lor 0x80 len) 0x7F = len ∧ Z.land (Z.lor 0x80 len) 0x80 = 0x80).
Proof.
  intros H. rewrite !Z.land_lor_distr_l. change (Z.land 0x80 0x7F) with 0. change (Z.land 0x80 0x80) with 0x80.
  assert (E1 : Z.land len 0x7F = len) by (change 0x7F with (Z.ones 7); rewrite Z.land_ones by lia; apply Z.mod_small; lia).
  assert (E2 : Z.land len 0x80 = 0).
  { rewrite <- E1, <- Z.land_assoc. change (Z.land 0x7F 0x80) with 0. apply Z.land_0_r. }
  rewrite E1, E2. split_and!; done.
Qed.

(** The decoder on a frame cut into its parts. *)
Lemma decode_parts b0 b1 ext mask data rest op pl (masked : bool) :
  Opcode_from_byte b0 = Some op → negb (Z.land b1 0x80 =? 0) = masked →
  length mask = (if masked then 4 else 0)%nat →
  frame_length (b0 :: b1 :: ext ++ mask ++ data ++ rest) (Z.land b1 0x7F) = Some (pl, (2 + length ext)%nat) →
  pl = Z.of_nat (length data) → pl <= MAX_FRAME_PAYLOAD →
  decode_frame (b0 :: b1 :: ext ++ mask ++ data ++ rest)
    = Ok (Some (mkFrame (negb (Z.land b0 0x80 =? 0)) op (if masked then unmask mask data else data),
                length (b0 :: b1 :: ext ++ mask ++ data))).
Proof.
  intros Hop Hm Hml Hfl Hpl Hmax. cbn [decode_frame]. rewrite Hop, Hm, Hfl.
  rewrite (proj2 (Z.ltb_ge _ _)) by done. subst pl. rewrite Nat2Z.id.
  set (hd := b0 :: b1 :: ext). assert (Hhd : length hd = (2 + length ext)%nat) by done.
  change (b0 :: b1 :: ext ++ mask ++ data ++ rest) with (hd ++ mask ++ data ++ rest).
  change (b0 :: b1 :: ext ++ mask ++ data) with (hd ++ mask ++ data). rewrite <- Hhd, <- Hml, !length_app.
  rewrite (proj2 (Nat.ltb_ge _ _)) by lia.
  assert (E1 : slice (length hd + length mask) (length hd + length mask + length data) (hd ++ mask ++ data ++ rest) = data).
  { unfold slice. rewrite app_assoc, drop_app_length' by (by rewrite length_app).
    rewrite take_app_length' by lia. done. }
  rewrite E1. do 3 f_equal; [|lia]. destruct masked; [|done]. f_equal. f_equal.
  unfold slice. rewrite drop_app_length' by done. rewrite take_app_length' by lia. done.
Qed.

Lemma slice_header {A} k (a b : A) l : slice 2 (S (S k)) (a :: b :: l) = take k l.
Proof. unfold slice. cbn [drop]. by rewrite Nat.sub_succ, Nat.sub_succ, Nat.sub_0_r. Qed.

Lemma frame_length_parts b0 b1 ext more len :
  0 <= len < 2 ^ 64 → Z.land b1 0x7F = (if len <? 126 then len else if len <=? 0xFFFF then 126 else 127) →
  ext = (if len <? 126 then [] else if len <=? 0xFFFF then to_be_bytes 2 len else to_be_bytes 8 len) →
  frame_length (b0 :: b1 :: ext ++ more) (Z.land b1 0x7F) = Some (len, (2 + length ext)%nat).
Proof.
  intros Hlen -> ->. unfold frame_length. destruct (Z.ltb_spec len 126) as [H1|H1].
  { rewrite (proj2 (Z.leb_le _ _)) by lia. done. }
  destruct (Z.leb_spec len 0xFFFF) as [H2|H2]; cbn [Z.leb Z.eqb Z.compare Pos.compare Pos.compare_cont Pos.eqb].
  - cbn [length]. rewrite length_app, length_to_be_bytes. rewrite (proj2 (Nat.ltb_ge _ _)) by lia.
    rewrite slice_header, take_app_length' by (by rewrite length_to_be_bytes).
    rewrite from_to_be_bytes by (unfold in_width; change (2 ^ (8 * Z.of_nat 2)) with 65536; lia). done.
  - cbn [length]. rewrite length_app, length_to_be_bytes. rewrite (proj2 (Nat.ltb_ge _ _)) by lia.
    rewrite slice_header, take_app_length' by (by rewrite length_to_be_bytes).
    rewrite from_to_be_bytes by (unfold in_width; change (2 ^ (8 * Z.of_nat 8)) with (2 ^ 64); lia). done.
Qed.

(** Both encodings have the shape [decode_parts] takes. *)
Lemma encode_any_parts key f :
  ∃ b1 ext, let len := Z.of_nat (length (payload f)) in
    encode_any key f = Z.lor (if fin f then 0x80 else 0x00) (Opcode_to_byte (opcode f)) :: b1 :: ext ++ default [] key
                       ++ (match key with Some k => unmask k (payload f) | None => payload f end) ∧
    ext = (if len <? 126 then [] else if len <=? 0xFFFF then to_be_bytes 2 len else to_be_bytes 8 len) ∧
    Z.land b1 0x7F = (if len <? 126 then len else if len <=? 0xFFFF then 126 else 127) ∧
    negb (Z.land b1 0x80 =? 0) = match key with Some _ => true | None => false end.
Proof.
  set (len := Z.of_nat (length (payload f))). cbv zeta.
  set (l7 := if len <? 126 then len else if len <=? 0xFFFF then 126 else 127).
  assert (H7 : 0 <= l7 < 128) by (unfold l7; destruct (Z.ltb_spec len 126), (len <=? 0xFFFF); lia).
  destruct (len7_bits l7 H7) as [[B1 B2] [B3 B4]].
  exists (match key with Some _ => Z.lor 0x80 l7 | None => l7 end),
    (if len <? 126 then [] else if len <=? 0xFFFF then to_be_bytes 2 len else to_be_bytes 8 len).
  destruct key as [k|]; cbn [encode_any default from_option id]; split_and!; try done.
  - unfold encode_masked, l7. fold len. destruct (len <? 126); [done|]. by destruct (len <=? 0xFFFF).
  - by rewrite B4.
  - unfold encode_frame, l7. fold len. destruct (len <? 126); [done|]. by destruct (len <=? 0xFFFF).
  - by rewrite B2.
Qed.

(** WebSocket frames round-trip and can be decoded from a stream.  A frame of
    at most one mebibyte, sent unmasked by the server or masked with any
    four-byte key by a client, decodes to itself with its exact length whatever
    follows it, and every strict prefix of it answers "need more data". *)
Theorem websocket_frame_roundtrip key f rest :
  match key with Some k => length k = 4%nat | None => True end →
  Z.of_nat (length (payload f)) <= MAX_FRAME_PAYLOAD →
  decode_frame (encode_any key f ++ rest) = Ok (Some (f, length (encode_any key f))) ∧
  ∀ n, (n < length (encode_any key f))%nat → decode_frame (take n (encode_any key f)) = Ok None.
Proof.
  intros Hkey Hmax.
  assert (Hdec : ∀ rest, decode_frame (encode_any key f ++ rest) = Ok (Some (f, length (encode_any key f)))).
  { intros rest'. destruct (encode_any_parts key f) as (b1 & ext & Hshape & Hext & H7 & Hm). cbv zeta in *.
    set (data := match key with Some k => unmask k (payload f) | None => payload f end) in *.
    assert (Hd : length data = length (payload f)) by (destruct key; [apply unmask_length|done]).
    rewrite Hshape. cbn [app]. rewrite <- !app_assoc.
    rewrite (decode_parts _ b1 ext (default [] key) data rest' (opcode f) (Z.of_nat (length data))
               (match key with Some _ => true | None => false end)).
    - rewrite fin_bit. do 3 f_equal. destruct f as [fi op p]. cbn [fin opcode payload] in *. f_equal.
      subst data. destruct key; [apply unmask_involutive|done].
    - apply Opcode_from_to.
    - exact Hm.
    - by destruct key.
    - apply frame_length_parts; rewrite ?Hd; [unfold MAX_FRAME_PAYLOAD in Hmax; lia|exact H7|exact Hext].
    - done.
    - by rewrite Hd. }
  split; [apply Hdec|]. intros n Hn.
  specialize (Hdec []). rewrite app_nil_r in Hdec. by apply (decode_frame_take _ n _ _ Hdec).
Qed.

Lemma websocket_frame_roundtrip_witness :
  decode_frame (encode_any (Some [1; 2; 3; 4]) (Frame_text (lit "hello")) ++ lit "x")
    = Ok (Some (Frame_text (lit "hello"), 11%nat)) ∧
  decode_frame (take 10 (encode_any (Some [1; 2; 3; 4]) (Frame_text (lit "hello")))) = Ok None.
Proof.
  destruct (websocket_frame_roundtrip (Some [1; 2; 3; 4]) (Frame_text (lit "hello")) (lit "x")) as [H1 H2];
    [reflexivity|vm_compute; discriminate|].
  split; [exact H1|]. apply (H2 10%nat). apply Nat.ltb_lt. reflexivity.
Defined.

(** ** Base64 *)

Lemma lor_shiftl_add a b k : 0 <= k → 0 <= b < 2 ^ k → Z.lor (Z.shiftl a k) b = a * 2 ^ k + b.
Proof.
  intros Hk Hb. rewrite <- Z.shiftl_mul_pow2 by done. symmetry. rewrite <- Z.lxor_lor, Z.add_nocarry_lxor; [done| |].
  all: apply Z.bits_inj'; intros i Hi; rewrite Z.land_spec, Z.bits_0, Z.shiftl_spec by done.
  all: destruct (Z.ltb_spec i k); [rewrite Z.testbit_neg_r by lia; done|].
  all: rewrite <- (Z.mod_small b (2 ^ k)), Z.mod_pow2_bits_high by lia; apply andb_false_r.
Qed.

Lemma land_ones_mod a k : 0 <= k → Z.land a (2 ^ k - 1) = a mod 2 ^ k.
Proof. intros Hk. rewrite Z.sub_1_r, <- Z.ones_equiv. by apply Z.land_ones. Qed.

Definition six (v : Z) : Prop := 0 <= v < 64.

Lemma b64_table :
  forallb (fun n => bool_decide (b64_val (b64_char (Z.of_nat n)) = Some (Z.of_nat n))
             && (33 <=? b64_char (Z.of_nat n)) && (b64_char (Z.of_nat n) <? 127)
             && negb (b64_char (Z.of_nat n) =? 61) && negb (b64_char (Z.of_nat n) =? 36)) (seq 0 64) = true.
Proof. vm_compute. reflexivity. Qed.

Lemma b64_char_ok v : six v →
  b64_val (b64_char v) = Some v ∧ 33 <= b64_char v < 127 ∧ b64_char v ≠ 61 ∧ b64_char v ≠ 36.
Proof.
  intros Hv. unfold six in Hv. pose proof b64_table as H. rewrite forallb_forall in H. specialize (H (Z.to_nat v)).
  rewrite Z2Nat.id in H by lia. rewrite !andb_true_iff, bool_decide_eq_true, Z.leb_le, Z.ltb_lt, !negb_true_iff, !Z.eqb_neq in H.
  destruct H as ((((H1 & H2) & H3) & H4) & H5); [apply in_seq; lia|]. split_and!; done.
Qed.

(** One character of the decoder's loop, in arithmetic. *)
Lemma b64_loop_step v input buf bits out :
  six v → 0 <= buf < 64 → 0 <= bits <= 6 →
  b64_loop (b64_char v :: input) buf bits out =
  let buf := buf * 64 + v in
  if 8 <=? bits + 6
  then b64_loop input (buf mod 2 ^ (bits - 2)) (bits - 2) (out ++ [wrap 8 (buf / 2 ^ (bits - 2))])
  else b64_loop input buf (bits + 6) out.
Proof.
  intros Hv Hb Hbits. cbn [b64_loop]. rewrite (proj1 (b64_char_ok v Hv)). cbv zeta. unfold six in Hv.
  assert (E : Z.lor (wrap 32 (Z.shiftl buf 6)) v = buf * 64 + v).
  { unfold wrap. rewrite Z.mod_small by (rewrite Z.shiftl_mul_pow2 by lia; lia). apply (lor_shiftl_add buf v 6); lia. }
  rewrite E. destruct (Z.leb_spec 8 (bits + 6)) as [H8|H8]; [|done].
  replace (bits + 6 - 8) with (bits - 2) by lia. rewrite Z.shiftl_1_l, land_ones_mod, Z.shiftr_div_pow2 by lia. done.
Qed.

(** The six-bit values of a chunk. *)
Lemma b64_triple b0 b1 b2 :
  byte_ok b0 → byte_ok b1 → byte_ok b2 →
  Z.lor (Z.lor (Z.shiftl b0 16) (Z.shiftl b1 8)) b2 = b0 * 65536 + b1 * 256 + b2.
Proof.
  unfold byte_ok, in_width. intros H0 H1 H2. rewrite (Z.shiftl_mul_pow2 b1) by lia.
  rewrite (lor_shiftl_add b0 (b1 * 2 ^ 8) 16) by lia.
  replace (b0 * 2 ^ 16 + b1 * 2 ^ 8) with (Z.shiftl (b0 * 256 + b1) 8) by (rewrite Z.shiftl_mul_pow2 by lia; lia).
  rewrite lor_shiftl_add by lia. lia.
Qed.

Lemma b64_fields b0 b1 b2 (t := b0 * 65536 + b1 * 256 + b2) :
  byte_ok b0 → byte_ok b1 → byte_ok b2 →
  Z.land (Z.shiftr t 18) 0x3F = b0 / 4 ∧ Z.land (Z.shiftr t 12) 0x3F = b0 mod 4 * 16 + b1 / 16 ∧
  Z.land (Z.shiftr t 6) 0x3F = b1 mod 16 * 4 + b2 / 64 ∧ Z.land t 0x3F = b2 mod 64.
Proof.
  unfold byte_ok, in_width. intros H0 H1 H2. rewrite !Z.shiftr_div_pow2 by lia.
  change 0x3F with (2 ^ 6 - 1). rewrite !land_ones_mod by lia. subst t.
  change (2 ^ 18) with 262144. change (2 ^ 12) with 4096. change (2 ^ 6) with 64. change (2 ^ 8) with 256 in *.
  split_and!; Z.to_euclidean_division_equations; lia.
Qed.

(** The characters of the encoding before the padding, and the padding. *)
Fixpoint b64_body (data : bytes) : str :=
  match data with
  | a :: b :: c :: rest =>
      b64_char (a / 4) :: b64_char (a mod 4 * 16 + b / 16) :: b64_char (b mod 16 * 4 + c / 64) :: b64_char (c mod 64)
      :: b64_body rest
  | [a; b] => [b64_char (a / 4); b64_char (a mod 4 * 16 + b / 16); b64_char (b mod 16 * 4)]
  | [a] => [b64_char (a / 4); b64_char (a mod 4 * 16)]
  | [] => []
  end.

Fixpoint b64_pad (data : bytes) : nat :=
  match data with
  | _ :: _ :: _ :: rest => b64_pad rest
  | [_; _] => 1
  | [_] => 2
  | [] => 0
  end.

(** Induction three bytes at a time, as [chunks(3)] walks. *)
Lemma chunks3_ind (P : bytes → Prop) :
  P [] → (∀ a, P [a]) → (∀ a b, P [a; b]) → (∀ a b c rest, P rest → P (a :: b :: c :: rest)) → ∀ d, P d.
Proof.
  intros H0 H1 H2 H3. fix IH 1. intros [|a [|b [|c rest]]]; [exact H0|apply H1|apply H2|apply H3, IH].
Qed.

Lemma base64_encode_body d :
  Forall byte_ok d → base64_encode d = b64_body d ++ replicate (b64_pad d) 61.
Proof.
  assert (Hb0 : byte_ok 0) by (unfold byte_ok, in_width; lia).
  induction d as [|a|a b|a b c rest IH] using chunks3_ind; intros Hd.
  - done.
  - apply Forall_cons in Hd as [Ha _]. cbn [base64_encode b64_body b64_pad replicate app]. unfold b64_chunk.
    cbn [length Nat.ltb Nat.leb byte_at]. change (byte_at [a] 0) with a. rewrite b64_triple by done.
    destruct (b64_fields a 0 0) as (E1 & E2 & _); [done|done|done|]. rewrite E1, E2. change (0 / 16) with 0. by rewrite Z.add_0_r.
  - apply Forall_cons in Hd as [Ha [Hb _]%Forall_cons]. cbn [base64_encode b64_body b64_pad replicate app]. unfold b64_chunk.
    cbn [length Nat.ltb Nat.leb]. change (byte_at [a; b] 0) with a. change (byte_at [a; b] 1) with b.
    rewrite b64_triple by done.
    destruct (b64_fields a b 0) as (E1 & E2 & E3 & _); [done|done|done|]. rewrite E1, E2, E3. change (0 / 64) with 0. by rewrite Z.add_0_r.
  - apply Forall_cons in Hd as [Ha [Hb [Hc Hr]%Forall_cons]%Forall_cons].
    change (base64_encode (a :: b :: c :: rest)) with (b64_chunk [a; b; c] ++ base64_encode rest).
    cbn [b64_body b64_pad]. rewrite IH by done. unfold b64_chunk.
    cbn [length Nat.ltb Nat.leb]. change (byte_at [a; b; c] 0) with a. change (byte_at [a; b; c] 1) with b.
    change (byte_at [a; b; c] 2) with c. rewrite b64_triple by done.
    destruct (b64_fields a b c) as (-> & -> & -> & ->); done.
Qed.

Lemma b64_vals a b c :
  byte_ok a → byte_ok b → byte_ok c →
  six (a / 4) ∧ six (a mod 4 * 16 + b / 16) ∧ six (b mod 16 * 4 + c / 64) ∧ six (c mod 64).
Proof. unfold byte_ok, in_width, six. intros. split_and!; Z.to_euclidean_division_equations; lia. Qed.

Lemma b64_body_chars d : Forall byte_ok d → Forall (fun ch => 33 <= ch < 127 ∧ ch ≠ 61 ∧ ch ≠ 36) (b64_body d).
Proof.
  assert (Hb0 : byte_ok 0) by (unfold byte_ok, in_width; lia).
  induction d as [|a|a b|a b c rest IH] using chunks3_ind; intros Hd.
  - constructor.
  - apply Forall_cons in Hd as [Ha _]. destruct (b64_vals a 0 0) as (V1 & V2 & _); [done..|].
    change (0 / 16) with 0 in V2. rewrite Z.add_0_r in V2.
    repeat constructor; by apply b64_char_ok.
  - apply Forall_cons in Hd as [Ha [Hb _]%Forall_cons]. destruct (b64_vals a b 0) as (V1 & V2 & V3 & _); [done..|].
    change (0 / 64) with 0 in V3. rewrite Z.add_0_r in V3. repeat constructor; by apply b64_char_ok.
  - apply Forall_cons in Hd as [Ha [Hb [Hc Hr]%Forall_cons]%Forall_cons].
    destruct (b64_vals a b c) as (V1 & V2 & V3 & V4); [done..|]. cbn [b64_body].
    repeat (constructor; [split; [by apply b64_char_ok|split; by apply b64_char_ok]|]). by apply IH.
Qed.

Lemma b64_loop_body d out :
  Forall byte_ok d → b64_loop (b64_body d) 0 0 out = Some (out ++ d).
Proof.
  assert (Hb0 : byte_ok 0) by (unfold byte_ok, in_width; lia). revert out.
  induction d as [|a|a b|a b c rest IH] using chunks3_ind; intros out Hd; cbn [b64_body].
  - by rewrite app_nil_r.
  - apply Forall_cons in Hd as [Ha _]. destruct (b64_vals a 0 0) as (V1 & V2 & _); [done..|].
    change (0 / 16) with 0 in V2. rewrite Z.add_0_r in V2. unfold byte_ok, in_width in Ha. change (2 ^ 8) with 256 in Ha.
    rewrite b64_loop_step by (unfold six in *; lia). cbv zeta. change (8 <=? 0 + 6) with false. cbv iota.
    rewrite b64_loop_step by (unfold six in *; lia). cbv zeta. change (8 <=? 0 + 6 + 6) with true. cbv iota.
    change (2 ^ (0 + 6 - 2)) with 16. cbn [b64_loop]. unfold wrap. change (2 ^ 8) with 256.
    do 3 f_equal. Z.to_euclidean_division_equations; lia.
  - apply Forall_cons in Hd as [Ha [Hb _]%Forall_cons]. destruct (b64_vals a b 0) as (V1 & V2 & V3 & _); [done..|].
    change (0 / 64) with 0 in V3. rewrite Z.add_0_r in V3. unfold byte_ok, in_width in Ha, Hb. change (2 ^ 8) with 256 in Ha, Hb.
    rewrite b64_loop_step by (unfold six in *; lia). cbv zeta. change (8 <=? 0 + 6) with false. cbv iota.
    rewrite b64_loop_step by (unfold six in *; lia). cbv zeta. change (8 <=? 0 + 6 + 6) with true. cbv iota.
    change (2 ^ (0 + 6 - 2)) with 16. change (0 + 6 - 2) with 4.
    rewrite b64_loop_step by (unfold six in *; try (pose proof (Z.mod_pos_bound ((0 * 64 + a / 4) * 64 + (a mod 4 * 16 + b / 16)) 16)); lia).
    cbv zeta. change (8 <=? 4 + 6) with true. cbv iota. change (2 ^ (4 - 2)) with 4. cbn [b64_loop].
    unfold wrap. change (2 ^ 8) with 256. rewrite <- app_assoc. cbn [app]. do 3 f_equal; [|f_equal];
    Z.to_euclidean_division_equations; lia.
  - apply Forall_cons in Hd as [Ha [Hb [Hc Hr]%Forall_cons]%Forall_cons].
    destruct (b64_vals a b c) as (V1 & V2 & V3 & V4); [done..|].
    unfold byte_ok, in_width in Ha, Hb, Hc. change (2 ^ 8) with 256 in Ha, Hb, Hc.
    rewrite b64_loop_step by (unfold six in *; lia). cbv zeta. change (8 <=? 0 + 6) with false. cbv iota.
    rewrite b64_loop_step by (unfold six in *; lia). cbv zeta. change (8 <=? 0 + 6 + 6) with true. cbv iota.
    change (2 ^ (0 + 6 - 2)) with 16. change (0 + 6 - 2) with 4.
    assert (E1 : ((0 * 64 + a / 4) * 64 + (a mod 4 * 16 + b / 16)) mod 16 = b / 16) by (Z.to_euclidean_division_equations; lia).
    assert (E2 : wrap 8 (((0 * 64 + a / 4) * 64 + (a mod 4 * 16 + b / 16)) / 16) = a)
      by (unfold wrap; change (2 ^ 8) with 256; Z.to_euclidean_division_equations; lia).
    rewrite E1, E2. rewrite b64_loop_step by (unfold six in *; try (Z.to_euclidean_division_equations; lia); lia).
    cbv zeta. change (8 <=? 4 + 6) with true. cbv iota. change (4 - 2) with 2. change (2 ^ 2) with 4.
    assert (E3 : (b / 16 * 64 + (b mod 16 * 4 + c / 64)) mod 4 = c / 64) by (Z.to_euclidean_division_equations; lia).
    assert (E4 : wrap 8 ((b / 16 * 64 + (b mod 16 * 4 + c / 64)) / 4) = b)
      by (unfold wrap; change (2 ^ 8) with 256; Z.to_euclidean_division_equations; lia).
    rewrite E3, E4. rewrite b64_loop_step by (unfold six in *; try (Z.to_euclidean_division_equations; lia); lia).
    cbv zeta. change (8 <=? 2 + 6) with true. cbv iota. change (2 - 2) with 0. change (2 ^ 0) with 1. rewrite Z.mod_1_r, Z.div_1_r.
    assert (E5 : wrap 8 (c / 64 * 64 + c mod 64) = c)
      by (unfold wrap; change (2 ^ 8) with 256; Z.to_euclidean_division_equations; lia).
    rewrite E5, IH by done. by rewrite <- !app_assoc.
Qed.

(** *** Trimming *)

Lemma trim_start_by_id p s : match s with [] => True | c :: _ => p c = false end → trim_start_by p s = s.
Proof. destruct s as [|c s]; [done|]. intros H. cbn. by rewrite H. Qed.

Lemma trim_start_by_replicate p c n s : p c = true → trim_start_by p (replicate n c ++ s) = trim_start_by p s.
Proof. intros H. induction n as [|n IH]; [done|]. cbn. by rewrite H. Qed.

Lemma trim_end_by_replicate p c n s :
  p c = true → Forall (fun d => p d = false) s → trim_end_by p (s ++ replicate n c) = s.
Proof.
  intros Hc Hs. unfold trim_end_by. rewrite rev_app_distr.
  assert (rev (replicate n c) = replicate n c) as -> by (rewrite rev_alt; apply reverse_replicate).
  rewrite trim_start_by_replicate by done.
  rewrite trim_start_by_id; [apply rev_involutive|]. destruct (rev s) as [|d s'] eqn:E; [done|].
  rewrite Forall_forall in Hs. apply Hs. apply list_elem_of_In, in_rev. rewrite E. by left.
Qed.

Lemma trim_id s : Forall (fun c => is_whitespace c = false) s → trim s = s.
Proof.
  intros Hs. unfold trim. rewrite trim_start_by_id by (destruct Hs; done).
  rewrite <- (app_nil_r s) at 1. apply (trim_end_by_replicate is_whitespace 32 0 s); done.
Qed.

Lemma b64_body_ascii d : Forall byte_ok d → is_ascii (b64_body d).
Proof. intros H. eapply Forall_impl; [exact (b64_body_chars d H)|]. cbn. intros; lia. Qed.

Lemma base64_decode_encode d : Forall byte_ok d → base64_decode (base64_encode d) = Some d.
Proof.
  intros H. unfold base64_decode, trim_end_matches. rewrite base64_encode_body by done.
  rewrite trim_end_by_replicate; [|done|].
  - rewrite as_bytes_ascii by (by apply b64_body_ascii). by apply b64_loop_body.
  - eapply Forall_impl; [exact (b64_body_chars d H)|]. cbn beta. intros c Hc. apply Z.eqb_neq. lia.
Qed.

(** The characters of an encoding: printable, so not white space, and not [$]. *)
Lemma base64_encode_chars d : Forall byte_ok d → Forall (fun c => 33 <= c < 127 ∧ c ≠ 36) (base64_encode d).
Proof.
  intros H. rewrite base64_encode_body by done. apply Forall_app. split.
  - eapply Forall_impl; [exact (b64_body_chars d H)|]. cbn beta. tauto.
  - apply Forall_replicate. lia.
Qed.

Lemma not_whitespace c : 33 <= c < 127 → is_whitespace c = false.
Proof. intros H. unfold is_whitespace. rewrite !orb_false_iff, !andb_false_iff, !Z.leb_gt, !Z.eqb_neq. lia. Qed.

(** The Base64 decoder inverts the encoder on every byte string, at each of
    the three lengths modulo three, padding included; the decoder's 32-bit
    accumulator never overflows on the way. *)
Theorem base64_roundtrip d : Forall byte_ok d → base64_decode (base64_encode d) = Some d.
Proof. apply base64_decode_encode. Qed.

Lemma base64_roundtrip_witness : base64_decode (lit "ZGVzbW9zIQ==") = Some (lit "desmos!").
Proof.
  apply (base64_roundtrip (lit "desmos!")). apply (bool_decide_unpack _). vm_compute. exact I.
Defined.

(** ** Basic authentication *)

(** The value of the [Authorization] header a client sends. *)
Definition basic_header (user pass : str) : str := lit "Basic " ++ base64_encode (as_bytes (user ++ lit ":" ++ pass)).

Lemma decode_basic_header user pass :
  scalars user → scalars pass → 58 ∉ user → decode_basic_auth (basic_header user pass) = Some (user, pass).
Proof.
  intros Hu Hp Hc. assert (Hs : scalars (user ++ lit ":" ++ pass))
    by (apply Forall_app; split; [done|]; by constructor). pose proof (as_bytes_ok _ Hs) as Hb.
  unfold decode_basic_auth, basic_header. rewrite strip_prefix_app. cbn [mbind option_bind].
  rewrite trim_id by (eapply Forall_impl; [exact (base64_encode_chars _ Hb)|]; cbn beta; intros c [? _]; by apply not_whitespace).
  rewrite base64_decode_encode by done. cbn [mbind option_bind]. rewrite from_utf8_as_bytes by done. cbn [mbind option_bind].
  change (lit ":") with [58]. by apply (split_once_first 58 []).
Qed.

Lemma show_uint_no c n : 0 <= n → c < 48 ∨ 57 < c → c ∉ show_uint n.
Proof.
  intros Hn Hc Hin. pose proof (show_uint_digits n Hn) as H. rewrite Forall_forall in H. specialize (H _ Hin). cbn in H. lia.
Qed.

Section auth.
Context `{RingHash}.

(** PBKDF2's documented contract: a digest is bytes, and verification compares
    the digest derived from the other inputs. *)
Class RingHashLaws := {
  pbkdf2_bytes i s p : Forall byte_ok (pbkdf2_derive i s p);
  pbkdf2_verify_eq i s p h : pbkdf2_verify i s p h = bool_decide (pbkdf2_derive i s p = h);
}.

Context `{!RingHashLaws}.

Lemma parse_phc_hash password salt iterations h :
  Forall byte_ok salt → in_width 32 iterations → hash_password password salt iterations = Some h →
  parse_phc h = Some (iterations, salt, pbkdf2_derive iterations salt password) ∧ iterations ≠ 0.
Proof.
  unfold hash_password. intros Hs Hi. destruct (Z.eqb_spec iterations 0) as [|Hne]; [done|]. intros Heq%(inj Some). subst h. split; [|done].
  unfold parse_phc. rewrite strip_prefix_app. cbn [mbind option_bind]. rewrite strip_prefix_app. cbn [mbind option_bind].
  unfold in_width in Hi. change (lit "$") with [36].
  rewrite (split_once_first 36 []) by (apply show_uint_no; lia). cbn [mbind option_bind].
  rewrite parse_show_uint by (unfold umax; lia). cbn [mbind option_bind].
  rewrite (split_once_first 36 []).
  - cbn [mbind option_bind]. rewrite !base64_decode_encode by (done || apply pbkdf2_bytes). done.
  - intros Hin. pose proof (base64_encode_chars salt Hs) as Hch. rewrite Forall_forall in Hch. by apply Hch in Hin as [_ ?].
Qed.

(** Basic authentication accepts exactly the configured credentials.  With the
    password hash that [hash_password] makes, a request whose [Authorization]
    header encodes a user name without a colon and a password passes when the
    user name is the configured one and the password derives the same PBKDF2
    digest, and gets a 401 otherwise; nothing panics. *)
Theorem basic_auth_exact username password salt iterations h req user pass :
  Forall byte_ok salt → in_width 32 iterations → hash_password password salt iterations = Some h →
  scalars user → scalars pass → 58 ∉ user →
  authorization (rq_headers req) = Some (basic_header user pass) →
  check_basic_auth req (mkAuthConfig username h) =
    Some (if bool_decide (user = username ∧
                          pbkdf2_derive iterations salt (as_bytes pass) = pbkdf2_derive iterations salt password)
          then None else Some unauthorized).
Proof.
  intros Hs Hi Hh Hu Hp Hc Hauth. destruct (parse_phc_hash password salt iterations h Hs Hi Hh) as [Hphc Hne].
  unfold check_basic_auth. rewrite Hauth, decode_basic_header by done. unfold verify_credentials.
  cbn [ac_username ac_password_hash]. rewrite Hphc, (proj2 (Z.eqb_neq _ _) Hne), pbkdf2_verify_eq.
  destruct (decide (user = username)) as [->|Hne2].
  - rewrite (bool_decide_true (username = username)) by done. cbn [negb mbind option_bind].
    destruct (decide (pbkdf2_derive iterations salt (as_bytes pass) = pbkdf2_derive iterations salt password)).
    + rewrite !bool_decide_true by done. done.
    + rewrite !bool_decide_false by tauto. done.
  - rewrite (bool_decide_false (user = username)) by done. cbn [negb mbind option_bind].
    rewrite bool_decide_false by tauto. done.
Qed.

End auth.

(** A toy hash that meets the laws. *)
#[local] Instance toy_hash : RingHash := {|
  pbkdf2_derive i s p := [wrap 8 (foldr Z.add (i + Z.of_nat (length s)) p)];
  pbkdf2_verify i s p h := bool_decide ([wrap 8 (foldr Z.add (i + Z.of_nat (length s)) p)] = h);
  sha1 b := b;
|}.

#[local] Instance toy_hash_laws : RingHashLaws.
Proof.
  constructor; [|done]. intros i s p. constructor; [|constructor]. apply wrap_range. lia.
Qed.

Definition demo_auth_request : Request :=
  mkRequest Get (lit "/") [mkHeader (lit "Authorization") (basic_header (lit "root") (lit "pw"))] [].

Lemma basic_auth_exact_witness :
  ∃ h, hash_password (lit "pw") [1; 2] 1000 = Some h ∧
       check_basic_auth demo_auth_request (mkAuthConfig (lit "root") h) = Some None.
Proof.
  eexists. split; [reflexivity|].
  etrans; [eapply (basic_auth_exact (lit "root") (lit "pw") [1; 2] 1000 _ demo_auth_request (lit "root") (lit "pw"))|].
  - apply (bool_decide_unpack _). vm_compute. exact I.
  - unfold in_width. lia.
  - reflexivity.
  - repeat constructor.
  - repeat constructor.
  - apply (bool_decide_unpack _). vm_compute. exact I.
  - reflexivity.
  - reflexivity.
Defined.

(** An iteration count of zero in the configured hash panics in [unwrap]. *)
Example zero_iterations_panic :
  check_basic_auth demo_auth_request (mkAuthConfig (lit "root") (lit "$pbkdf2-sha256$i=0$AA==$AA==")) = None.
Proof. reflexivity. Qed.
