(* ===== verification/Json.v ===== *)
(** * The JSON codec

    [desmos-http/src/json.rs]: the encoder, and the recursive-descent decoder
    over bytes with its depth limit.  [f64] is the executable IEEE double of
    Float.v; its decimal parsing and printing are the standard library's. *)

From stdpp Require Import base numbers list strings sorting.
From Stdlib Require Import ZArith Lia SpecFloat.
From S2P Require Import Prelude Float Str.

(** ** Decimal text of an [f64] *)

(** [str::parse::<f64>] of [M * 10^e10], correctly rounded. *)
Definition f64_of_decimal (neg : bool) (M e10 : Z) : f64 :=
  match M with
  | Zpos p =>
      if 0 <=? e10 then binary_normalize 53 1024 ((if neg then -1 else 1) * (M * 10 ^ e10)) 0 neg
      else match 10 ^ (- e10) with
           | Zpos d => SFdiv 53 1024 (S754_finite neg p 0) (S754_finite false d 0)
           | _ => S754_nan
           end
  | _ => S754_zero neg
  end.

Definition is_digit (b : Z) : bool := (48 <=? b) && (b <=? 57).

(** The leading digits of a byte string, and what follows. *)
Fixpoint span_digits (s : bytes) : bytes * bytes :=
  match s with
  | b :: s' => if is_digit b then let '(ds, r) := span_digits s' in (b :: ds, r) else ([], s)
  | [] => ([], [])
  end.

Definition digits_value (ds : bytes) : Z := foldl (fun acc d => acc * 10 + (d - 48)) 0 ds.

(** The number a token of JSON's grammar denotes. *)
Definition parse_f64 (s : bytes) : f64 :=
  let '(neg, s) := match s with 45 :: s => (true, s) | _ => (false, s) end in
  let '(ip, s) := span_digits s in
  let '(fp, s) := match s with 46 :: s => span_digits s | _ => ([], s) end in
  let e := match s with
           | c :: s =>
               if (c =? 101) || (c =? 69) then
                 match s with
                 | 45 :: s => - digits_value (fst (span_digits s))
                 | 43 :: s => digits_value (fst (span_digits s))
                 | _ => digits_value (fst (span_digits s))
                 end
               else 0
           | [] => 0
           end in
  f64_of_decimal neg (digits_value (ip ++ fp)) (e - Z.of_nat (length fp)).

(** [n.fract() == 0.0 && n.abs() < (1i64 << 53) as f64]: the integer [n as i64]. *)
Definition small_integer (n : f64) : option Z :=
  match n with
  | S754_zero _ => Some 0
  | S754_finite s m e =>
      let v := if 0 <=? e then Some (Zpos m * 2 ^ e)
               else if Zpos m mod 2 ^ (- e) =? 0 then Some (Zpos m / 2 ^ (- e)) else None in
      match v with
      | Some v => if v <? 2 ^ 53 then Some (if s then - v else v) else None
      | None => None
      end
  | _ => None
  end.

(** The decimal [d * 10^q] as positional text. *)
Definition show_decimal (d q : Z) : str :=
  let ds := show_uint d in
  let n := Z.of_nat (length ds) in
  if 0 <=? q then ds ++ replicate (Z.to_nat q) 48
  else if - q <? n then take (Z.to_nat (n + q)) ds ++ lit "." ++ drop (Z.to_nat (n + q)) ds
  else lit "0." ++ replicate (Z.to_nat (- q - n)) 48 ++ ds.

(** [Display] of a positive finite double: the shortest digits that read back,
    the closest of those; seventeen always suffice. *)
Definition shortest_at (m : positive) (e : Z) (p : nat) : option (Z * Z) :=
  let num := Zpos m * 2 ^ Z.max 0 e in
  let den := 2 ^ Z.max 0 (- e) in
  (* [k]: the decimal exponent, 10^(k-1) <= v < 10^k *)
  let below j := num * 10 ^ Z.max 0 (- j) <? 10 ^ Z.max 0 j * den in
  let k0 := (Z.log2 (Zpos m) + e) * 30103 / 100000 in
  let k := if below k0 then k0 else if below (k0 + 1) then k0 + 1 else k0 + 2 in
  let q := k - Z.of_nat p in
  let n := num * 10 ^ Z.max 0 (- q) in
  let d := den * 10 ^ Z.max 0 q in
  let lo := n / d in
  let near := if 2 * (n mod d) <? d then lo else lo + 1 in
  let other := if 2 * (n mod d) <? d then lo + 1 else lo in
  let reads x := if SFeqb (f64_of_decimal false x q) (S754_finite false m e) then Some (x, q) else None in
  match reads near with Some r => Some r | None => reads other end.

Fixpoint shortest (m : positive) (e : Z) (p fuel : nat) : Z * Z :=
  match fuel with
  | O => (0, 0)
  | S fuel => match shortest_at m e p with Some r => r | None => shortest m e (S p) fuel end
  end.

Definition show_f64 (n : f64) : str :=
  match n with
  | S754_nan => lit "NaN"
  | S754_infinity s => (if s then lit "-" else []) ++ lit "inf"
  | S754_zero s => (if s then lit "-" else []) ++ lit "0"
  | S754_finite s m e =>
      let '(d, q) := shortest m e 1 17 in (if s then lit "-" else []) ++ show_decimal d q
  end.

(** [Display] of an [i64]. *)
Definition show_int (n : Z) : str := if n <? 0 then lit "-" ++ show_uint (- n) else show_uint n.

Example show_f64_ex :
  show_f64 (parse_f64 (lit "0.1")) = lit "0.1" ∧ show_f64 (parse_f64 (lit "-12.50e-1")) = lit "-1.25" ∧
  show_f64 (parse_f64 (lit "1e22")) = lit "10000000000000000000000" ∧
  show_f64 (parse_f64 (lit "9007199254740993.5")) = lit "9007199254740994".
Proof. vm_compute. done. Qed.

(** ** Values *)

Definition MAX_DEPTH : nat := 32.

(** A [BTreeMap] is the list of its entries in the order of the keys. *)
Unset Elimination Schemes.
Inductive Value :=
| Null
| Bool (b : bool)
| Number (n : f64)
| JString (s : str)
| Array (vs : list Value)
| Object (entries : list (str * Value)).
Set Elimination Schemes.

(** Keys compare as their UTF-8 bytes do. *)
Fixpoint bytes_compare (a b : bytes) : comparison :=
  match a, b with
  | [], [] => Eq
  | [], _ :: _ => Lt
  | _ :: _, [] => Gt
  | x :: a, y :: b => match x ?= y with Eq => bytes_compare a b | c => c end
  end.

Definition key_compare (a b : str) : comparison := bytes_compare (as_bytes a) (as_bytes b).

(** [BTreeMap::insert]. *)
Fixpoint btree_insert (k : str) (v : Value) (m : list (str * Value)) : list (str * Value) :=
  match m with
  | [] => [(k, v)]
  | (k', v') :: m' =>
      match key_compare k k' with
      | Lt => (k, v) :: m
      | Eq => (k', v) :: m'
      | Gt => (k', v') :: btree_insert k v m'
      end
  end.

Definition as_bool (v : Value) : option bool := match v with Bool b => Some b | _ => None end.
Definition as_f64 (v : Value) : option f64 := match v with Number n => Some n | _ => None end.
Definition as_str (v : Value) : option str := match v with JString s => Some s | _ => None end.
Definition as_array (v : Value) : option (list Value) := match v with Array a => Some a | _ => None end.
Definition as_object (v : Value) : option (list (str * Value)) := match v with Object o => Some o | _ => None end.

Fixpoint btree_get (key : str) (m : list (str * Value)) : option Value :=
  match m with
  | [] => None
  | (k, v) :: m => match key_compare key k with Eq => Some v | Lt => None | Gt => btree_get key m end
  end.
Definition Value_get (key : str) (v : Value) : option Value := o ← as_object v; btree_get key o.

(** ** Encoder *)

Definition hex_digit (d : Z) : Z := if d <? 10 then 48 + d else 87 + d.

(** [\u{:04x}]. *)
Definition hex4 (c : Z) : str :=
  [92; 117; hex_digit (c / 4096 mod 16); hex_digit (c / 256 mod 16); hex_digit (c / 16 mod 16); hex_digit (c mod 16)].

Definition encode_char (ch : char) : str :=
  if ch =? 34 then [92; 34] else if ch =? 92 then [92; 92]
  else if ch =? 10 then [92; 110] else if ch =? 13 then [92; 114] else if ch =? 9 then [92; 116]
  else if ch <? 0x20 then hex4 ch else [ch].

Definition encode_string (s : str) : str := [34] ++ (s ≫= encode_char) ++ [34].

Definition encode_number (n : f64) : str :=
  match small_integer n with Some i => show_int i | None => show_f64 n end.

(** The elements with a comma before each but the first. *)
Definition commas (ss : list str) : str := imap (fun i s => (if (0 <? i)%nat then lit "," else []) ++ s) ss ≫= id.

Fixpoint encode_value (v : Value) : str :=
  match v with
  | Null => lit "null"
  | Bool true => lit "true"
  | Bool false => lit "false"
  | Number n => encode_number n
  | JString s => encode_string s
  | Array arr => lit "[" ++ commas (encode_value <$> arr) ++ lit "]"
  | Object obj => lit "{" ++ commas ((fun '(k, v) => encode_string k ++ lit ":" ++ encode_value v) <$> obj) ++ lit "}"
  end.

Definition encode (v : Value) : str := encode_value v.

(** ** Decoder *)

Inductive JsonError :=
| UnexpectedEof | UnexpectedChar (pos : nat) (c : char) | InvalidNumber (pos : nat) | UnterminatedString
| InvalidEscape (pos : nat) | DepthExceeded | TrailingContent (pos : nat).

(** The parser's input from its position on, and the position. *)
Record Parser := mkParser { p_rest : bytes; p_pos : nat }.

Definition peek (p : Parser) : option Z := match p_rest p with b :: _ => Some b | [] => None end.
(** [self.pos += 1]. *)
Definition pos_incr (p : Parser) : Parser := mkParser (tail (p_rest p)) (S (p_pos p)).

Abbreviation parse A := (result (A * Parser) JsonError).

Definition expect (expected : Z) (p : Parser) : parse () :=
  match p_rest p with
  | b :: _ => if b =? expected then Ok ((), pos_incr p) else Err (UnexpectedChar (p_pos p) b)
  | [] => Err UnexpectedEof
  end.

Definition is_json_space (b : Z) : bool := (b =? 32) || (b =? 9) || (b =? 10) || (b =? 13).

Fixpoint skip_spaces (s : bytes) (pos : nat) : Parser :=
  match s with
  | b :: s' => if is_json_space b then skip_spaces s' (S pos) else mkParser s pos
  | [] => mkParser s pos
  end.
Definition skip_whitespace (p : Parser) : Parser := skip_spaces (p_rest p) (p_pos p).

Fixpoint parse_literal (expected : bytes) (value : Value) (p : Parser) : parse Value :=
  match expected with
  | [] => Ok (value, p)
  | b :: expected =>
      match p_rest p with
      | actual :: _ => if actual =? b then parse_literal expected value (pos_incr p) else Err (UnexpectedChar (p_pos p) actual)
      | [] => Err UnexpectedEof
      end
  end.

(** [while matches!(self.peek(), Some(b'0'..=b'9')) { self.pos += 1 }]. *)
Definition skip_digits (p : Parser) : Parser :=
  let '(ds, r) := span_digits (p_rest p) in mkParser r (p_pos p + length ds).

Definition at_digit (p : Parser) : bool := match peek p with Some b => is_digit b | None => false end.
Definition at_byte (b : Z) (p : Parser) : bool := match peek p with Some c => c =? b | None => false end.

Definition is_finite (n : f64) : bool := match n with S754_nan | S754_infinity _ => false | _ => true end.

Definition number_integer (start : nat) (p : Parser) : result Parser JsonError :=
  if at_byte 48 p then Ok (pos_incr p)
  else if at_digit p then Ok (skip_digits (pos_incr p))
  else Err (InvalidNumber start).

Definition number_fraction (p : Parser) : result Parser JsonError :=
  if at_byte 46 p then
    let p := pos_incr p in
    if negb (at_digit p) then Err (InvalidNumber (p_pos p)) else Ok (skip_digits p)
  else Ok p.

Definition number_exponent (p : Parser) : result Parser JsonError :=
  if at_byte 101 p || at_byte 69 p then
    let p := pos_incr p in
    let p := if at_byte 43 p || at_byte 45 p then pos_incr p else p in
    if negb (at_digit p) then Err (InvalidNumber (p_pos p)) else Ok (skip_digits p)
  else Ok p.

Definition parse_number (p0 : Parser) : parse Value :=
  let start := p_pos p0 in
  let p := if at_byte 45 p0 then pos_incr p0 else p0 in
  result_bind (number_integer start p) (fun p =>
  result_bind (number_fraction p) (fun p =>
  result_bind (number_exponent p) (fun p =>
  let n := parse_f64 (take (p_pos p - start) (p_rest p0)) in
  if negb (is_finite n) then Err (InvalidNumber start) else Ok (Number n, p)))).

Definition hex_val (b : Z) : option Z :=
  if (48 <=? b) && (b <=? 57) then Some (b - 48)
  else if (97 <=? b) && (b <=? 102) then Some (b - 97 + 10)
  else if (65 <=? b) && (b <=? 70) then Some (b - 65 + 10)
  else None.

(** The loop of [parse_hex4], [n] digits to go. *)
Fixpoint hex4_loop (n : nat) (start : nat) (val : Z) (p : Parser) : parse Z :=
  match n with
  | O => Ok (val, p)
  | S n =>
      match p_rest p with
      | [] => Err UnexpectedEof
      | b :: _ =>
          match hex_val b with
          | None => Err (InvalidEscape start)
          | Some d => hex4_loop n start (Z.lor (wrap 16 (Z.shiftl val 4)) d) (pos_incr p)
          end
      end
  end.
Definition parse_hex4 (p : Parser) : parse Z := hex4_loop 4 (p_pos p) 0 p.

(** After [\u]: one code unit, or a surrogate pair. *)
Definition parse_unicode (esc_pos : nat) (p : Parser) : parse char :=
  result_bind (parse_hex4 p) (fun '(cp, p) =>
  if (0xD800 <=? cp) && (cp <=? 0xDBFF) then
    result_bind (expect 92 p) (fun '(_, p) =>
    result_bind (expect 117 p) (fun '(_, p) =>
    result_bind (parse_hex4 p) (fun '(low, p) =>
    if negb ((0xDC00 <=? low) && (low <=? 0xDFFF)) then Err (InvalidEscape esc_pos)
    else
      match char_from_u32 (0x10000 + Z.shiftl (cp - 0xD800) 10 + (low - 0xDC00)) with
      | Some ch => Ok (ch, p)
      | None => Err (InvalidEscape esc_pos)
      end)))
  else
    match char_from_u32 cp with
    | Some ch => Ok (ch, p)
    | None => Err (InvalidEscape esc_pos)
    end).

(** The escape after a backslash. *)
Definition parse_escape (p : Parser) : parse char :=
  let esc_pos := p_pos p in
  match p_rest p with
  | b :: _ =>
      let p := pos_incr p in
      if b =? 34 then Ok (34, p) else if b =? 92 then Ok (92, p) else if b =? 47 then Ok (47, p)
      else if b =? 110 then Ok (10, p) else if b =? 114 then Ok (13, p) else if b =? 116 then Ok (9, p)
      else if b =? 98 then Ok (8, p) else if b =? 102 then Ok (12, p)
      else if b =? 117 then parse_unicode esc_pos p
      else Err (InvalidEscape esc_pos)
  | [] => Err (InvalidEscape esc_pos)
  end.

(** The loop of [parse_string]: a byte outside an escape is pushed [as char]. *)
Fixpoint string_loop (fuel : nat) (s : str) (p : Parser) : parse str :=
  match fuel with
  | O => Err UnterminatedString
  | S fuel =>
      match p_rest p with
      | [] => Err UnterminatedString
      | b :: _ =>
          let p := pos_incr p in
          if b =? 34 then Ok (s, p)
          else if b =? 92 then result_bind (parse_escape p) (fun '(c, p) => string_loop fuel (s ++ [c]) p)
          else string_loop fuel (s ++ [b]) p
      end
  end.

(** Each turn consumes a byte: [string_loop_fuel]. *)
Definition parse_string (p : Parser) : parse str :=
  result_bind (expect 34 p) (fun '(_, p) => string_loop (S (length (p_rest p))) [] p).

(** [parse_value], [parse_array] and [parse_object].  Outer [None]: out of fuel,
    which [decode]'s never is ([decode_total]). *)
Fixpoint parse_value (fuel : nat) (depth : nat) (p : Parser) : option (parse Value) :=
  match fuel with
  | O => None
  | S fuel =>
      if (MAX_DEPTH <? depth)%nat then Some (Err DepthExceeded)
      else
        let p := skip_whitespace p in
        match peek p with
        | None => Some (Err UnexpectedEof)
        | Some b =>
            if b =? 34 then Some (result_bind (parse_string p) (fun '(s, p) => Ok (JString s, p)))
            else if b =? 123 then
              let p := skip_whitespace (pos_incr p) in
              if at_byte 125 p then Some (Ok (Object [], pos_incr p)) else object_loop fuel depth [] p
            else if b =? 91 then
              let p := skip_whitespace (pos_incr p) in
              if at_byte 93 p then Some (Ok (Array [], pos_incr p)) else array_loop fuel depth [] p
            else if b =? 116 then Some (parse_literal (lit "true") (Bool true) p)
            else if b =? 102 then Some (parse_literal (lit "false") (Bool false) p)
            else if b =? 110 then Some (parse_literal (lit "null") Null p)
            else if (b =? 45) || is_digit b then Some (parse_number p)
            else Some (Err (UnexpectedChar (p_pos p) b))
        end
  end
with array_loop (fuel : nat) (depth : nat) (arr : list Value) (p : Parser) : option (parse Value) :=
  match fuel with
  | O => None
  | S fuel =>
      r ← parse_value fuel (S depth) p;
      match r with
      | Err e => Some (Err e)
      | Ok (v, p) =>
          let arr := arr ++ [v] in
          let p := skip_whitespace p in
          match peek p with
          | None => Some (Err UnexpectedEof)
          | Some b =>
              if b =? 44 then array_loop fuel depth arr (pos_incr p)
              else if b =? 93 then Some (Ok (Array arr, pos_incr p))
              else Some (Err (UnexpectedChar (p_pos p) b))
          end
      end
  end
with object_loop (fuel : nat) (depth : nat) (obj : list (str * Value)) (p : Parser) : option (parse Value) :=
  match fuel with
  | O => None
  | S fuel =>
      match parse_string (skip_whitespace p) with
      | Err e => Some (Err e)
      | Ok (key, p) =>
          match expect 58 (skip_whitespace p) with
          | Err e => Some (Err e)
          | Ok (_, p) =>
              r ← parse_value fuel (S depth) p;
              match r with
              | Err e => Some (Err e)
              | Ok (v, p) =>
                  let obj := btree_insert key v obj in
                  let p := skip_whitespace p in
                  match peek p with
                  | None => Some (Err UnexpectedEof)
                  | Some b =>
                      if b =? 44 then object_loop fuel depth obj (pos_incr p)
                      else if b =? 125 then Some (Ok (Object obj, pos_incr p))
                      else Some (Err (UnexpectedChar (p_pos p) b))
                  end
              end
          end
      end
  end.

Definition decode (input : str) : option (result Value JsonError) :=
  let b := as_bytes input in
  r ← parse_value (S (2 * length b)) 0 (mkParser b 0);
  Some (result_bind r (fun '(v, p) =>
    let p := skip_whitespace p in
    match p_rest p with
    | [] => Ok v
    | _ => Err (TrailingContent (p_pos p))
    end)).

(** ** Integers are exact in an [f64] *)

Lemma digits2_log2 p : Zpos (digits2_pos p) = Z.log2 (Zpos p) + 1.
Proof.
  induction p as [p IH|p IH|]; cbn [digits2_pos]; [| |done].
  - rewrite Pos2Z.inj_succ, IH. change (Zpos p~1) with (2 * Zpos p + 1). rewrite Z.log2_succ_double by lia. lia.
  - rewrite Pos2Z.inj_succ, IH. change (Zpos p~0) with (2 * Zpos p). rewrite Z.log2_double by lia. lia.
Qed.

Lemma iter_xO p k : Zpos (Pos.iter xO p k) = Zpos p * 2 ^ Zpos k.
Proof.
  induction k as [|k IH] using Pos.peano_ind.
  - change (Pos.iter xO p 1) with (xO p). lia.
  - rewrite Pos.iter_succ. change (Zpos (Pos.iter xO p k)~0) with (2 * Zpos (Pos.iter xO p k)).
    rewrite IH, Pos2Z.inj_succ, Z.pow_succ_r by lia. lia.
Qed.

(** The normalised form of a positive integer below [2^53]. *)
Lemma binary_round_int s p :
  Zpos p < 2 ^ 53 →
  ∃ m, binary_round 53 1024 s p 0 = S754_finite s m (Z.log2 (Zpos p) - 52) ∧
       Zpos m = Zpos p * 2 ^ (52 - Z.log2 (Zpos p)) ∧ 0 <= 52 - Z.log2 (Zpos p).
Proof.
  intros Hp. assert (0 <= Z.log2 (Zpos p) <= 52) as Hl.
  { split; [apply Z.log2_nonneg|]. pose proof (proj1 (Z.log2_lt_pow2 (Zpos p) 53 ltac:(lia)) Hp). lia. }
  assert (Hshift : ∃ m, shl_align p 0 (fexp 53 1024 (Zpos (digits2_pos p) + 0)) = (m, Z.log2 (Zpos p) - 52) ∧
                        Zpos m = Zpos p * 2 ^ (52 - Z.log2 (Zpos p))).
  { rewrite digits2_log2. unfold fexp, emin, shl_align.
    replace (Z.max (Z.log2 (Zpos p) + 1 + 0 - 53) (3 - 1024 - 53)) with (Z.log2 (Zpos p) - 52) by lia.
    replace (Z.log2 (Zpos p) - 52 - 0) with (- (52 - Z.log2 (Zpos p))) by lia.
    destruct (52 - Z.log2 (Zpos p)) as [|k|k] eqn:Ek; [|cbn [Z.opp]|lia].
    - exists p. split; [f_equal; lia|lia].
    - exists (Pos.iter xO p k). split; [f_equal; lia|apply iter_xO]. }
  destruct Hshift as (m & Hm & Hv). exists m. split_and!; [|done|lia].
  unfold binary_round. rewrite Hm. unfold binary_round_aux.
  assert (Hsh : ∀ l, l = loc_Exact → shr_fexp 53 1024 (Zpos m) (Z.log2 (Zpos p) - 52) l
            = (Build_shr_record (Zpos m) false false, Z.log2 (Zpos p) - 52)).
  { intros l ->. unfold shr_fexp, Zdigits2. rewrite digits2_log2, Hv, Z.log2_mul_pow2 by lia.
    unfold fexp, emin. replace (Z.max _ _ - _) with 0 by lia. done. }
  rewrite Hsh by done. cbn [shr_m loc_of_shr_record round_nearest_even]. rewrite Hsh by done. cbn [shr_m].
  rewrite (proj2 (Z.leb_le _ _)) by lia. done.
Qed.

Lemma small_integer_round s p :
  Zpos p < 2 ^ 53 →
  small_integer (binary_round 53 1024 s p 0) = Some (if s then Zneg p else Zpos p) ∧
  is_finite (binary_round 53 1024 s p 0) = true.
Proof.
  intros Hp. destruct (binary_round_int s p Hp) as (m & -> & Hm & Hk). split; [|done].
  set (k := 52 - Z.log2 (Zpos p)) in *. replace (Z.log2 (Zpos p) - 52) with (- k) by lia. unfold small_integer.
  assert (E : (if 0 <=? - k then Some (Zpos m * 2 ^ (- k))
               else if Zpos m mod 2 ^ (- - k) =? 0 then Some (Zpos m / 2 ^ (- - k)) else None) = Some (Zpos p)).
  { destruct (Z.leb_spec 0 (- k)) as [H0|H0].
    - assert (k = 0) as Hk0 by lia. rewrite Hk0 in *. f_equal. lia.
    - rewrite Z.opp_involutive, Hm, Z.mod_mul, Z.div_mul by lia. done. }
  rewrite E, (proj2 (Z.ltb_lt _ _)) by done. by destruct s.
Qed.

(** The integer of a double made from an integer. *)
Lemma small_integer_of_Z N : Z.abs N < 2 ^ 53 → small_integer (f64_of_Z N) = Some N ∧ is_finite (f64_of_Z N) = true.
Proof.
  intros HN. destruct N as [|p|p]; [done|apply (small_integer_round false p); lia|apply (small_integer_round true p); lia].
Qed.

(** ** The parser consumes input *)

Abbreviation plen p := (length (p_rest p)).

Lemma pos_incr_len p : plen (pos_incr p) = (plen p - 1)%nat.
Proof. unfold pos_incr. cbn [p_rest]. destruct (p_rest p); cbn; lia. Qed.

Lemma skip_spaces_len s pos : (plen (skip_spaces s pos) <= length s)%nat.
Proof. revert pos. induction s as [|b s IH]; intros pos; cbn; [lia|]. destruct (is_json_space b); cbn; [|lia]. etrans; [apply IH|lia]. Qed.

Lemma skip_whitespace_len p : (plen (skip_whitespace p) <= plen p)%nat.
Proof. apply skip_spaces_len. Qed.

Lemma expect_len b p u p' : expect b p = Ok (u, p') → (plen p' < plen p)%nat.
Proof.
  unfold expect. destruct (p_rest p) as [|c r] eqn:E; [done|]. destruct (c =? b); [|done]. intros [= <- <-].
  rewrite pos_incr_len, E. cbn. lia.
Qed.

Lemma parse_literal_len ex v p w p' :
  parse_literal ex v p = Ok (w, p') → ex ≠ [] → (plen p' < plen p)%nat.
Proof.
  revert p. induction ex as [|b ex IH]; intros p H Hne; [done|]. cbn [parse_literal] in H.
  destruct (p_rest p) as [|c r] eqn:E; [done|]. destruct (c =? b); [|done].
  destruct ex as [|b2 ex].
  - cbn [parse_literal] in H. injection H as <- <-. rewrite pos_incr_len, E. cbn. lia.
  - apply IH in H; [|done]. rewrite pos_incr_len, E in H. cbn in *. lia.
Qed.

Lemma span_digits_app s : (span_digits s).1 ++ (span_digits s).2 = s.
Proof. induction s as [|b s IH]; [done|]. cbn. destruct (is_digit b); [|done]. destruct (span_digits s). cbn in *. by rewrite IH. Qed.

Lemma skip_digits_len p : (plen (skip_digits p) <= plen p)%nat.
Proof.
  unfold skip_digits. pose proof (span_digits_app (p_rest p)) as H. destruct (span_digits (p_rest p)) as [ds r].
  cbn in *. rewrite <- H, length_app. lia.
Qed.

Lemma at_byte_len b p : at_byte b p = true → (0 < plen p)%nat.
Proof. unfold at_byte, peek. destruct (p_rest p); cbn; [done|lia]. Qed.

Lemma at_digit_len p : at_digit p = true → (0 < plen p)%nat.
Proof. unfold at_digit, peek. destruct (p_rest p); cbn; [done|lia]. Qed.

Lemma number_integer_len start p p' : number_integer start p = Ok p' → (plen p' < plen p)%nat.
Proof.
  unfold number_integer. destruct (at_byte 48 p) eqn:E1.
  - intros [= <-]. apply at_byte_len in E1. rewrite pos_incr_len. lia.
  - destruct (at_digit p) eqn:E2; [|done]. intros [= <-]. apply at_digit_len in E2.
    pose proof (skip_digits_len (pos_incr p)). rewrite pos_incr_len in *. lia.
Qed.

Lemma number_fraction_len p p' : number_fraction p = Ok p' → (plen p' <= plen p)%nat.
Proof.
  unfold number_fraction. destruct (at_byte 46 p); [|intros [= <-]; lia].
  destruct (negb _); [done|]. intros [= <-]. pose proof (skip_digits_len (pos_incr p)). rewrite pos_incr_len in *. lia.
Qed.

Lemma number_exponent_len p p' : number_exponent p = Ok p' → (plen p' <= plen p)%nat.
Proof.
  unfold number_exponent. destruct (_ || _); [|intros [= <-]; lia].
  set (q := if _ || _ then pos_incr (pos_incr p) else pos_incr p).
  assert (plen q <= plen p)%nat by (subst q; destruct (_ || _); rewrite ?pos_incr_len; lia).
  destruct (negb _); [done|]. intros [= <-]. pose proof (skip_digits_len q). lia.
Qed.

Lemma parse_number_len p v p' : parse_number p = Ok (v, p') → (plen p' < plen p)%nat.
Proof.
  unfold parse_number. set (q := if at_byte 45 p then pos_incr p else p).
  assert (plen q <= plen p)%nat by (subst q; destruct (at_byte 45 p); rewrite ?pos_incr_len; lia).
  destruct (number_integer _ q) as [p1|] eqn:E1; [|done]. cbn [result_bind]. apply number_integer_len in E1.
  destruct (number_fraction p1) as [p2|] eqn:E2; [|done]. cbn [result_bind]. apply number_fraction_len in E2.
  destruct (number_exponent p2) as [p3|] eqn:E3; [|done]. cbn [result_bind]. apply number_exponent_len in E3.
  destruct (negb _); [done|]. intros [= _ <-]. lia.
Qed.

Lemma hex4_loop_len n start val p v p' : hex4_loop n start val p = Ok (v, p') → (plen p' <= plen p)%nat.
Proof.
  revert val p. induction n as [|n IH]; intros val p H; cbn [hex4_loop] in H; [by simplify_eq|].
  destruct (p_rest p) as [|b r] eqn:E; [done|]. destruct (hex_val b); [|done]. apply IH in H. rewrite pos_incr_len, E in H. cbn in *. lia.
Qed.

Lemma parse_unicode_len esc p c p' : parse_unicode esc p = Ok (c, p') → (plen p' <= plen p)%nat.
Proof.
  unfold parse_unicode, parse_hex4. destruct (hex4_loop _ _ _ p) as [[cp p1]|] eqn:E1; [|done]. cbn [result_bind].
  apply hex4_loop_len in E1. destruct (_ && _).
  - destruct (expect 92 p1) as [[u p2]|] eqn:E2; [|done]. cbn [result_bind]. apply expect_len in E2.
    destruct (expect 117 p2) as [[u' p3]|] eqn:E3; [|done]. cbn [result_bind]. apply expect_len in E3.
    destruct (hex4_loop _ _ _ p3) as [[low p4]|] eqn:E4; [|done]. cbn [result_bind]. apply hex4_loop_len in E4.
    destruct (negb _); [done|]. destruct (char_from_u32 _); [|done]. intros [= _ <-]. lia.
  - destruct (char_from_u32 _); [|done]. intros [= _ <-]. lia.
Qed.

Lemma parse_escape_len p c p' : parse_escape p = Ok (c, p') → (plen p' < plen p)%nat.
Proof.
  unfold parse_escape. destruct (p_rest p) as [|b r] eqn:E; [done|].
  assert (Hb : (plen (pos_incr p) < length (b :: r))%nat) by (rewrite pos_incr_len, E; cbn; lia).
  repeat (destruct (b =? _); [first [intros [= _ <-]; done|intros H; apply parse_unicode_len in H; lia]|]). done.
Qed.

Lemma string_loop_len fuel s p t p' : string_loop fuel s p = Ok (t, p') → (plen p' < plen p)%nat.
Proof.
  revert s p. induction fuel as [|fuel IH]; intros s p H; cbn [string_loop] in H; [done|].
  destruct (p_rest p) as [|b r] eqn:E; [done|].
  assert (Hb : (plen (pos_incr p) < length (b :: r))%nat) by (rewrite pos_incr_len, E; cbn; lia).
  destruct (b =? 34); [by simplify_eq|]. destruct (b =? 92).
  - destruct (parse_escape (pos_incr p)) as [[c p1]|] eqn:E1; [|done]. apply parse_escape_len in E1. apply IH in H. lia.
  - apply IH in H. lia.
Qed.

(** The loop's fuel, one more than the bytes left, is enough. *)
Lemma string_loop_fuel f1 f2 s p :
  (plen p < f1)%nat → (plen p < f2)%nat → string_loop f1 s p = string_loop f2 s p.
Proof.
  revert f2 s p. induction f1 as [|f1 IH]; intros [|f2] s p H1 H2; [lia|lia|lia|]. cbn [string_loop].
  destruct (p_rest p) as [|b r] eqn:E; [done|].
  assert (Hb : (plen (pos_incr p) < length (b :: r))%nat) by (rewrite pos_incr_len, E; cbn; lia).
  destruct (b =? 34); [done|]. destruct (b =? 92).
  - destruct (parse_escape (pos_incr p)) as [[c p1]|] eqn:E1; [|done]. apply parse_escape_len in E1. cbn [result_bind]. apply IH; lia.
  - apply IH; lia.
Qed.

Lemma parse_string_len p s p' : parse_string p = Ok (s, p') → (plen p' < plen p)%nat.
Proof.
  unfold parse_string. destruct (expect 34 p) as [[u p1]|] eqn:E; [|done]. cbn [result_bind]. apply expect_len in E.
  intros H. apply string_loop_len in H. lia.
Qed.

(** What a recursive parse returns: a result, and fewer bytes left on success. *)
Definition returns (p : Parser) (o : option (parse Value)) : Prop :=
  match o with
  | None => False
  | Some (Err _) => True
  | Some (Ok (_, p')) => (plen p' < plen p)%nat
  end.

Lemma returns_le p q o : returns p o → (plen p <= plen q)%nat → returns q o.
Proof. destruct o as [[[v p']|e]|]; cbn; lia || done. Qed.

Lemma parse_total fuel :
  (∀ depth p, (2 * plen p < fuel)%nat → returns p (parse_value fuel depth p)) ∧
  (∀ depth arr p, (2 * plen p + 1 < fuel)%nat → returns p (array_loop fuel depth arr p)) ∧
  (∀ depth obj p, (2 * plen p + 1 < fuel)%nat → returns p (object_loop fuel depth obj p)).
Proof.
  induction fuel as [|fuel (IHv & IHa & IHo)]; [split_and!; intros; lia|]. split_and!.
  - intros depth p Hf. cbn [parse_value]. destruct (MAX_DEPTH <? depth)%nat; [done|].
    pose proof (skip_whitespace_len p) as Hq. set (q := skip_whitespace p) in *. clearbody q.
    destruct (peek q) as [b|] eqn:Ep; [|done].
    assert (Hpos : (0 < plen q)%nat) by (unfold peek in Ep; destruct (p_rest q); cbn; [done|lia]).
    pose proof (skip_whitespace_len (pos_incr q)) as Hb. rewrite pos_incr_len in Hb. set (q2 := skip_whitespace (pos_incr q)) in *. clearbody q2.
    destruct (b =? 34).
    { destruct (parse_string q) as [[s p']|] eqn:E; cbn; [apply parse_string_len in E; lia|done]. }
    destruct (b =? 123).
    { destruct (at_byte 125 q2); [cbn [returns]; rewrite pos_incr_len; lia|]. eapply returns_le; [apply IHo; lia|lia]. }
    destruct (b =? 91).
    { destruct (at_byte 93 q2); [cbn [returns]; rewrite pos_incr_len; lia|]. eapply returns_le; [apply IHa; lia|lia]. }
    destruct (b =? 116); [destruct (parse_literal _ _ q) as [[v p']|] eqn:E; cbn; [apply parse_literal_len in E; [lia|done]|done]|].
    destruct (b =? 102); [destruct (parse_literal _ _ q) as [[v p']|] eqn:E; cbn; [apply parse_literal_len in E; [lia|done]|done]|].
    destruct (b =? 110); [destruct (parse_literal _ _ q) as [[v p']|] eqn:E; cbn; [apply parse_literal_len in E; [lia|done]|done]|].
    destruct (_ || _); [|done]. destruct (parse_number q) as [[v p']|] eqn:E; cbn; [apply parse_number_len in E; lia|done].
  - intros depth arr p Hf. cbn [array_loop]. specialize (IHv (S depth) p ltac:(lia)).
    destruct (parse_value fuel (S depth) p) as [[[v p1]|e]|]; [|done|done]. cbn [mbind option_bind returns] in *.
    pose proof (skip_whitespace_len p1) as Hq. set (q := skip_whitespace p1) in *. clearbody q.
    destruct (peek q) as [b|] eqn:Ep; [|done]. pose proof (pos_incr_len q).
    destruct (b =? 44); [eapply returns_le; [apply IHa; lia|lia]|]. destruct (b =? 93); cbn [returns]; [lia|done].
  - intros depth obj p Hf. cbn [object_loop]. pose proof (skip_whitespace_len p) as Hq.
    destruct (parse_string (skip_whitespace p)) as [[key p1]|] eqn:E1; [|done]. apply parse_string_len in E1.
    pose proof (skip_whitespace_len p1) as Hq1.
    destruct (expect 58 (skip_whitespace p1)) as [[u p2]|] eqn:E2; [|done]. apply expect_len in E2.
    specialize (IHv (S depth) p2 ltac:(lia)).
    destruct (parse_value fuel (S depth) p2) as [[[v p3]|e]|]; [|done|done]. cbn [mbind option_bind returns] in *.
    pose proof (skip_whitespace_len p3) as Hq3. set (q := skip_whitespace p3) in *. clearbody q.
    destruct (peek q) as [b|] eqn:Ep; [|done]. pose proof (pos_incr_len q).
    destruct (b =? 44); [eapply returns_le; [apply IHo; lia|lia]|]. destruct (b =? 125); cbn [returns]; [lia|done].
Qed.

(** The decoder terminates on every input with a value or an error: its fuel,
    twice the input's bytes and one, never runs out. *)
Theorem json_decode_total input : ∃ r, decode input = Some r.
Proof.
  unfold decode. destruct (parse_total (S (2 * length (as_bytes input)))) as [H _].
  specialize (H 0%nat (mkParser (as_bytes input) 0) ltac:(cbn; lia)).
  destruct (parse_value _ 0 _) as [r|]; [|done]. cbn [mbind option_bind]. eauto.
Qed.

(** ** Strings read back as their bytes *)

Lemma pos_incr_cons b r pos : pos_incr (mkParser (b :: r) pos) = mkParser r (S pos).
Proof. done. Qed.

Lemma string_loop_plain bs rest acc pos fuel :
  Forall (fun b => b ≠ 34 ∧ b ≠ 92) bs → (length (bs ++ rest) < fuel)%nat →
  string_loop fuel acc (mkParser (bs ++ rest) pos) = string_loop fuel (acc ++ bs) (mkParser rest (pos + length bs)).
Proof.
  intros Hbs. revert acc pos. induction Hbs as [|b bs [H34 H92] _ IH]; intros acc pos Hf.
  - cbn [app length]. by rewrite app_nil_r, Nat.add_0_r.
  - destruct fuel as [|fuel]; [lia|]. cbn [app length] in *. cbn [string_loop p_rest]. rewrite pos_incr_cons.
    rewrite (proj2 (Z.eqb_neq b 34)), (proj2 (Z.eqb_neq b 92)) by done.
    rewrite (string_loop_fuel fuel (S fuel)) by (cbn; lia). rewrite IH by lia. rewrite <- app_assoc.
    by replace (S pos + length bs)%nat with (pos + S (length bs))%nat by lia.
Qed.

Lemma string_loop_escape e c rest acc pos fuel :
  (∀ pos, parse_escape (mkParser (e ++ rest) pos) = Ok (c, mkParser rest (pos + length e))) →
  (S (length (e ++ rest)) < fuel)%nat →
  string_loop fuel acc (mkParser (92 :: e ++ rest) pos) = string_loop fuel (acc ++ [c]) (mkParser rest (pos + S (length e))).
Proof.
  intros He Hf. destruct fuel as [|fuel]; [lia|]. cbn [string_loop p_rest]. rewrite pos_incr_cons.
  change (92 =? 34) with false. change (92 =? 92) with true. cbv iota. rewrite He. cbn [result_bind].
  rewrite length_app in Hf. rewrite (string_loop_fuel fuel (S fuel)) by (cbn; lia).
  by replace (S pos + length e)%nat with (pos + S (length e))%nat by lia.
Qed.

Lemma encode_utf8_plain c : 0x20 <= c → c ≠ 34 → c ≠ 92 → Forall (fun b => b ≠ 34 ∧ b ≠ 92) (encode_utf8 c).
Proof.
  intros H1 H2 H3. unfold encode_utf8.
  destruct (Z.ltb_spec c 0x80); [repeat constructor; lia|].
  destruct (Z.ltb_spec c 0x800); [repeat constructor; Z.to_euclidean_division_equations; lia|].
  destruct (Z.ltb_spec c 0x10000); repeat constructor; Z.to_euclidean_division_equations; lia.
Qed.

Lemma control_range c : 0 <= c < 32 → c ∈ (Z.of_nat <$> seq 0 32).
Proof. intros H. apply list_elem_of_fmap. exists (Z.to_nat c). split; [lia|]. apply elem_of_seq. lia. Qed.

Lemma parse_escape_control c rest pos :
  0 <= c < 32 → parse_escape (mkParser (tail (hex4 c) ++ rest) pos) = Ok (c, mkParser rest (pos + 5)).
Proof.
  intros H%control_range.
  assert (Hall : Forall (fun c => parse_escape (mkParser (tail (hex4 c) ++ rest) pos) = Ok (c, mkParser rest (S (S (S (S (S pos))))))) (Z.of_nat <$> seq 0 32)).
  { cbn [fmap list_fmap seq]. repeat (constructor; [reflexivity|]). constructor. }
  rewrite Forall_forall in Hall. rewrite Hall by done. by replace (pos + 5)%nat with (S (S (S (S (S pos))))) by lia.
Qed.

Lemma hex4_ascii c : is_ascii (hex4 c).
Proof.
  assert (Hd : ∀ d, 0 <= hex_digit (d mod 16) < 128).
  { intros d. unfold hex_digit. pose proof (Z.mod_pos_bound d 16 ltac:(lia)). destruct (Z.ltb_spec (d mod 16) 10); lia. }
  unfold hex4. repeat (apply Forall_cons_2; [first [apply Hd|lia]|]). apply Forall_nil_2.
Qed.

(** One character of a string's text, read back. *)
Lemma string_loop_char c rest acc pos fuel :
  is_scalar c = true → (length (as_bytes (encode_char c) ++ rest) < fuel)%nat →
  string_loop fuel acc (mkParser (as_bytes (encode_char c) ++ rest) pos)
    = string_loop fuel (acc ++ encode_utf8 c) (mkParser rest (pos + length (as_bytes (encode_char c)))).
Proof.
  intros Hc. apply is_scalar_spec in Hc. unfold encode_char.
  destruct (Z.eqb_spec c 34) as [->|H34]; [apply (string_loop_escape [34] 34)|].
  { intros p. cbn. by rewrite pos_incr_cons, Nat.add_1_r. }
  destruct (Z.eqb_spec c 92) as [->|H92]; [apply (string_loop_escape [92] 92)|].
  { intros p. cbn. by rewrite pos_incr_cons, Nat.add_1_r. }
  destruct (Z.eqb_spec c 10) as [->|H10]; [apply (string_loop_escape [110] 10)|].
  { intros p. cbn. by rewrite pos_incr_cons, Nat.add_1_r. }
  destruct (Z.eqb_spec c 13) as [->|H13]; [apply (string_loop_escape [114] 13)|].
  { intros p. cbn. by rewrite pos_incr_cons, Nat.add_1_r. }
  destruct (Z.eqb_spec c 9) as [->|H9]; [apply (string_loop_escape [116] 9)|].
  { intros p. cbn. by rewrite pos_incr_cons, Nat.add_1_r. }
  destruct (Z.ltb_spec c 0x20) as [Hlt|Hge].
  - assert (Hb : as_bytes (hex4 c) = hex4 c).
    { apply as_bytes_ascii, hex4_ascii. }
    rewrite Hb, encode_utf8_ascii by lia. change (hex4 c) with (92 :: tail (hex4 c)) at 1 2 3. cbn [app].
    intros Hf. apply (string_loop_escape (tail (hex4 c)) c); [|done]. intros p. apply parse_escape_control; lia.
  - intros Hf. change (as_bytes [c]) with (encode_utf8 c ++ []) in *. rewrite app_nil_r in *.
    apply string_loop_plain; [|done]. apply encode_utf8_plain; lia.
Qed.

Lemma string_loop_chars s rest acc pos fuel :
  Forall (fun c => is_scalar c = true) s → (length (as_bytes (s ≫= encode_char) ++ rest) < fuel)%nat →
  string_loop fuel acc (mkParser (as_bytes (s ≫= encode_char) ++ rest) pos)
    = string_loop fuel (acc ++ as_bytes s) (mkParser rest (pos + length (as_bytes (s ≫= encode_char)))).
Proof.
  intros Hs. revert acc pos. induction Hs as [|c s Hc _ IH]; intros acc pos Hf.
  - cbn. by rewrite app_nil_r, Nat.add_0_r.
  - change ((c :: s) ≫= encode_char) with (encode_char c ++ (s ≫= encode_char)) in *.
    rewrite as_bytes_app, <- app_assoc in *. rewrite string_loop_char by done.
    rewrite length_app in Hf. rewrite IH by lia. rewrite as_bytes_cons, app_assoc, length_app.
    by rewrite Nat.add_assoc.
Qed.

Lemma as_bytes_encode_string s : as_bytes (encode_string s) = 34 :: as_bytes (s ≫= encode_char) ++ [34].
Proof. unfold encode_string. by rewrite !as_bytes_app. Qed.

(** The text of a string reads back as the string's UTF-8 bytes, each taken for
    a character. *)
Lemma parse_string_encode s rest pos :
  Forall (fun c => is_scalar c = true) s →
  parse_string (mkParser (as_bytes (encode_string s) ++ rest) pos)
    = Ok (as_bytes s, mkParser rest (pos + length (as_bytes (encode_string s)))).
Proof.
  intros Hs. rewrite as_bytes_encode_string. unfold parse_string, expect. cbn [app p_rest].
  change (34 =? 34) with true. cbv iota. cbn [result_bind]. rewrite pos_incr_cons. cbn [p_rest]. rewrite <- app_assoc.
  rewrite string_loop_chars by (done || lia). cbn [string_loop p_rest app]. rewrite pos_incr_cons.
  change (34 =? 34) with true. cbv iota. do 3 f_equal. cbn [length]. rewrite length_app. cbn. lia.
Qed.

(** Text that is not ASCII does not survive the codec: decoding the encoding
    of any string gives the string whose characters are its UTF-8 bytes, so the
    round trip is the identity exactly on ASCII strings. *)
Theorem json_string_mangled s :
  Forall (fun c => is_scalar c = true) s →
  decode (encode (JString s)) = Some (Ok (JString (as_bytes s))) ∧
  (decode (encode (JString s)) = Some (Ok (JString s)) ↔ is_ascii s).
Proof.
  intros Hs. assert (Hd : decode (encode (JString s)) = Some (Ok (JString (as_bytes s)))).
  { unfold decode, encode. cbn [encode_value parse_value]. pose proof (parse_string_encode s [] 0 Hs) as Hp.
    rewrite app_nil_r in Hp. rewrite as_bytes_encode_string in *. unfold skip_whitespace. cbn [p_rest p_pos skip_spaces].
    change (is_json_space 34) with false. cbv iota. cbn [peek p_rest]. change (34 =? 34) with true. cbv iota.
    change (MAX_DEPTH <? 0)%nat with false. cbv iota. rewrite Hp. cbn. done. }
  split; [done|]. rewrite Hd. split; [|intros Ha; by rewrite as_bytes_ascii].
  intros [= Heq]. clear -Hs Heq. unfold is_ascii. induction Hs as [|c s Hc _ IH]; [constructor|].
  rewrite as_bytes_cons in Heq. apply is_scalar_spec in Hc.
  assert (Hlen : (length s <= length (as_bytes s))%nat).
  { clear. induction s as [|d s IH]; [done|]. rewrite as_bytes_cons, length_app. pose proof (encode_utf8_length d). cbn. lia. }
  assert (Hl : length (encode_utf8 c) = 1%nat).
  { apply (f_equal length) in Heq. rewrite length_app in Heq. cbn in Heq. pose proof (encode_utf8_length c). lia. }
  unfold encode_utf8 in *. destruct (Z.ltb_spec c 0x80) as [Hlt|]; [|by destruct (c <? 0x800), (c <? 0x10000)].
  cbn [app] in Heq. injection Heq as Heq. constructor; [lia|by apply IH].
Qed.

(** The letter e with an acute accent comes back as two characters. *)
Lemma json_string_mangled_witness : decode (encode (JString [0xE9])) = Some (Ok (JString [0xC3; 0xA9])).
Proof. apply (json_string_mangled [0xE9]). repeat constructor. Defined.

(** ** Integers read back *)

(** What can follow a value inside a document. *)
Definition delim (r : bytes) : Prop := match r with [] => True | b :: _ => b = 44 ∨ b = 93 ∨ b = 125 end.

Lemma is_digit_spec b : is_digit b = true ↔ 48 <= b <= 57.
Proof. unfold is_digit. rewrite andb_true_iff, !Z.leb_le. done. Qed.

Lemma span_digits_ok ds r :
  Forall (fun c => 48 <= c <= 57) ds → match r with [] => True | b :: _ => is_digit b = false end →
  span_digits (ds ++ r) = (ds, r).
Proof.
  intros Hds Hr. induction Hds as [|d ds Hd _ IH]; cbn [app span_digits].
  - destruct r as [|b r]; [done|]. cbn [span_digits]. by rewrite Hr.
  - apply is_digit_spec in Hd. by rewrite Hd, IH.
Qed.

Lemma delim_not b r : delim (b :: r) → is_digit b = false ∧ b ≠ 46 ∧ b ≠ 101 ∧ b ≠ 69 ∧ is_json_space b = false.
Proof. intros [->|[->| ->]]; done. Qed.

Lemma digits_value_snoc ds d : digits_value (ds ++ [d]) = digits_value ds * 10 + (d - 48).
Proof. unfold digits_value. by rewrite foldl_app. Qed.

Lemma digits_fuel_value fuel n acc :
  0 <= n < 10 ^ Z.of_nat fuel → (0 < fuel)%nat →
  ∃ d ds, digits_fuel fuel n acc = (d :: ds) ++ acc ∧ digits_value (d :: ds) = n ∧
          Forall (fun c => 48 <= c <= 57) (d :: ds) ∧ (n = 0 → d :: ds = [48]) ∧ (0 < n → 49 <= d <= 57).
Proof.
  revert n acc. induction fuel as [|fuel IH]; intros n acc Hn Hf; [lia|]. cbn [digits_fuel].
  destruct (Z.ltb_spec n 10) as [Hlt|Hge].
  - exists (48 + n), []. split_and!; [done|cbn; lia|repeat constructor; lia|intros ->; done|lia].
  - divmod n 10. destruct fuel as [|fuel]; [cbn in Hn; lia|].
    assert (10 ^ Z.of_nat (S (S fuel)) = 10 * 10 ^ Z.of_nat (S fuel)) as Hp
      by (rewrite <- Z.pow_succ_r by lia; f_equal; lia).
    destruct (IH (n / 10) ((48 + n mod 10) :: acc)) as (d & ds & -> & Hv & Hall & _ & Hd); [lia|lia|].
    exists d, (ds ++ [48 + n mod 10]). split_and!.
    + cbn [app]. by rewrite <- app_assoc.
    + change (d :: ds ++ [48 + n mod 10]) with ((d :: ds) ++ [48 + n mod 10]). rewrite digits_value_snoc, Hv. lia.
    + change (d :: ds ++ [48 + n mod 10]) with ((d :: ds) ++ [48 + n mod 10]). apply Forall_app. split; [done|]. repeat constructor; lia.
    + lia.
    + intros _. apply Hd. lia.
Qed.

Lemma show_uint_value n : 0 <= n →
  ∃ d ds, show_uint n = d :: ds ∧ digits_value (d :: ds) = n ∧ Forall (fun c => 48 <= c <= 57) (d :: ds) ∧
          (n = 0 → d :: ds = [48]) ∧ (0 < n → 49 <= d <= 57).
Proof.
  intros H. destruct (digits_fuel_value (S (Z.to_nat (Z.log2 n))) n []) as (d & ds & E & Hrest);
    [split; [done|by apply show_uint_fuel]|lia|].
  exists d, ds. split; [|done]. unfold show_uint. by rewrite E, app_nil_r.
Qed.

(** The three parts of a number's grammar on the digits of an integer. *)
Lemma number_parts_ok n r pos start :
  0 <= n → delim r →
  number_integer start (mkParser (show_uint n ++ r) pos) = Ok (mkParser r (pos + length (show_uint n))) ∧
  number_fraction (mkParser r (pos + length (show_uint n))) = Ok (mkParser r (pos + length (show_uint n))) ∧
  number_exponent (mkParser r (pos + length (show_uint n))) = Ok (mkParser r (pos + length (show_uint n))).
Proof.
  intros Hn Hr. destruct (show_uint_value n Hn) as (d & ds & -> & _ & Hall & H0 & Hpos).
  assert (Hr' : match r with [] => True | b :: _ => is_digit b = false end) by (destruct r; [done|by apply delim_not in Hr as [? _]]).
  split_and!.
  - unfold number_integer, at_byte, at_digit, peek. cbn [p_rest app]. rewrite pos_incr_cons.
    apply Forall_cons in Hall as [Hd Hds]. destruct (decide (n = 0)) as [Hz|Hz].
    + specialize (H0 Hz). injection H0 as -> ->. cbn. by rewrite Nat.add_1_r.
    + specialize (Hpos ltac:(lia)). rewrite (proj2 (Z.eqb_neq d 48)) by lia.
      rewrite (proj2 (is_digit_spec d)) by lia. unfold skip_digits. cbn [p_rest p_pos].
      rewrite span_digits_ok by done. do 2 f_equal. cbn [length]. lia.
  - unfold number_fraction, at_byte, peek. cbn [p_rest]. destruct r as [|b r]; [done|].
    apply delim_not in Hr as (_ & H46 & _). by rewrite (proj2 (Z.eqb_neq b 46)) by done.
  - unfold number_exponent, at_byte, peek. cbn [p_rest]. destruct r as [|b r]; [done|].
    apply delim_not in Hr as (_ & _ & H101 & H69 & _). by rewrite (proj2 (Z.eqb_neq b 101)), (proj2 (Z.eqb_neq b 69)) by done.
Qed.

(** A digit is not a minus sign. *)
Lemma parse_f64_uint n neg :
  0 <= n → parse_f64 ((if neg : bool then lit "-" else []) ++ show_uint n) = f64_of_decimal neg n 0.
Proof.
  intros Hn. destruct (show_uint_value n Hn) as (d & ds & Hshow & Hv & Hall & _).
  pose proof (span_digits_ok (d :: ds) [] Hall I) as Hspan. rewrite app_nil_r in Hspan. rewrite Hshow.
  assert (Hgo : ∀ neg, (let '(ip, s) := span_digits (d :: ds) in
                let '(fp, s) := match s with 46 :: s => span_digits s | _ => ([], s) end in
                let e := match s with
                         | c :: s => if (c =? 101) || (c =? 69) then
                             match s with
                             | 45 :: s => - digits_value (fst (span_digits s))
                             | 43 :: s => digits_value (fst (span_digits s))
                             | _ => digits_value (fst (span_digits s))
                             end else 0
                         | [] => 0
                         end in
                f64_of_decimal neg (digits_value (ip ++ fp)) (e - Z.of_nat (length fp))) = f64_of_decimal neg n 0).
  { intros neg'. rewrite Hspan. cbn [app length]. rewrite app_nil_r, Hv. done. }
  destruct neg; [apply (Hgo true)|]. apply Forall_cons in Hall as [Hd _].
  unfold parse_f64. cbn [app]. rewrite <- (Hgo false).
  destruct d as [|p|p]; [lia| |lia]. do 7 (destruct p as [p|p|]; try reflexivity; try lia).
Qed.

Lemma f64_of_decimal_int (neg : bool) n :
  0 <= n → (neg = true → 0 < n) → f64_of_decimal neg n 0 = f64_of_Z (if neg then - n else n).
Proof.
  intros Hn Hneg. unfold f64_of_decimal. destruct n as [|p|p]; [|cbn [Z.leb Z.compare]|lia].
  - destruct neg; [specialize (Hneg eq_refl); lia|done].
  - rewrite Z.mul_1_r. unfold f64_of_Z. destruct neg; reflexivity.
Qed.

Lemma show_int_split N : show_int N = (if N <? 0 then lit "-" else []) ++ show_uint (Z.abs N).
Proof. unfold show_int. destruct (Z.ltb_spec N 0); [by rewrite Z.abs_neq by lia|by rewrite Z.abs_eq by lia]. Qed.

Lemma parse_number_int N r pos :
  Z.abs N < 2 ^ 53 → delim r →
  parse_number (mkParser (show_int N ++ r) pos) = Ok (Number (f64_of_Z N), mkParser r (pos + length (show_int N))).
Proof.
  intros HN Hr. rewrite show_int_split. set (neg := N <? 0). set (n := Z.abs N).
  assert (Hn : 0 <= n) by (subst n; lia). set (sg := if neg then lit "-" else []).
  assert (Hsign : (if at_byte 45 (mkParser ((sg ++ show_uint n) ++ r) pos) then pos_incr (mkParser ((sg ++ show_uint n) ++ r) pos)
                   else mkParser ((sg ++ show_uint n) ++ r) pos) = mkParser (show_uint n ++ r) (pos + length sg)).
  { subst sg. destruct neg; [cbn; by rewrite pos_incr_cons, Nat.add_1_r|]. cbn [app length]. rewrite Nat.add_0_r.
    destruct (show_uint_value n Hn) as (d & ds & Hshow & _ & Hall & _). rewrite Hshow. unfold at_byte, peek. cbn [p_rest app].
    apply Forall_cons in Hall as [Hd _]. by rewrite (proj2 (Z.eqb_neq d 45)) by lia. }
  destruct (number_parts_ok n r (pos + length sg) pos Hn Hr) as (P1 & P2 & P3).
  unfold parse_number. cbn [p_pos]. rewrite Hsign, P1. cbn [result_bind]. rewrite P2. cbn [result_bind]. rewrite P3.
  cbn [result_bind p_pos p_rest].
  replace (pos + length sg + length (show_uint n) - pos)%nat with (length (sg ++ show_uint n)) by (rewrite length_app; lia).
  rewrite take_app_length. subst sg. rewrite parse_f64_uint, f64_of_decimal_int by (subst neg n; lia).
  replace (if neg then - n else n) with N by (subst neg n; destruct (Z.ltb_spec N 0); lia).
  rewrite (proj2 (small_integer_of_Z N HN)). cbn [negb]. rewrite length_app. by rewrite Nat.add_assoc.
Qed.

Lemma encode_number_int N : Z.abs N < 2 ^ 53 → encode_number (f64_of_Z N) = show_int N.
Proof. intros HN. unfold encode_number. by rewrite (proj1 (small_integer_of_Z N HN)). Qed.

(** ** Values read back *)

Lemma Value_ind' (P : Value → Prop) :
  P Null → (∀ b, P (Bool b)) → (∀ n, P (Number n)) → (∀ s, P (JString s)) →
  (∀ vs, Forall P vs → P (Array vs)) → (∀ es, Forall (fun e => P e.2) es → P (Object es)) → ∀ v, P v.
Proof.
  intros H1 H2 H3 H4 H5 H6. fix IH 1. intros [|b|n|s|vs|es]; [apply H1|apply H2|apply H3|apply H4| |].
  - apply H5. induction vs as [|v vs IHvs]; constructor; [apply IH|apply IHvs].
  - apply H6. induction es as [|[k v] es IHes]; constructor; [apply IH|apply IHes].
Qed.

Definition key_lt (a b : str * Value) : Prop := key_compare a.1 b.1 = Lt.

(** Values of the subset: ASCII text, integers a double holds exactly, keys in
    the order of the map. *)
Unset Elimination Schemes.
Inductive value_ok : Value → Prop :=
| ok_null : value_ok Null
| ok_bool b : value_ok (Bool b)
| ok_int N : Z.abs N < 2 ^ 53 → value_ok (Number (f64_of_Z N))
| ok_string s : is_ascii s → value_ok (JString s)
| ok_array vs : Forall value_ok vs → value_ok (Array vs)
| ok_object es : Forall (fun e => is_ascii e.1 ∧ value_ok e.2) es → StronglySorted key_lt es → value_ok (Object es).
Set Elimination Schemes.

(** The nesting below a value. *)
Fixpoint height (v : Value) : nat :=
  match v with
  | Array vs => foldr (fun v h => Nat.max (S (height v)) h) 0%nat vs
  | Object es => foldr (fun e h => Nat.max (S (height e.2)) h) 0%nat es
  | _ => 0%nat
  end.

Lemma ascii_scalars s : is_ascii s → Forall (fun c => is_scalar c = true) s.
Proof. intros H. eapply Forall_impl; [exact H|]. cbn. intros c Hc. apply is_scalar_spec. lia. Qed.

Lemma bytes_compare_antisym a b : bytes_compare b a = CompOpp (bytes_compare a b).
Proof.
  revert b. induction a as [|x a IH]; intros [|y b]; [done|done|done|]. cbn [bytes_compare].
  rewrite (Z.compare_antisym x y). destruct (x ?= y); cbn; [apply IH|done|done].
Qed.

(** Inserting keys in increasing order appends. *)
Lemma btree_insert_last k v m :
  Forall (fun e => key_compare e.1 k = Lt) m → btree_insert k v m = m ++ [(k, v)].
Proof.
  induction 1 as [|[k' v'] m Hk _ IH]; [done|]. cbn [btree_insert app]. cbn [fst] in Hk.
  unfold key_compare in *. rewrite bytes_compare_antisym, Hk. cbn [CompOpp]. by rewrite IH.
Qed.

Lemma commas_cons s ss : commas (s :: ss) = s ++ (ss ≫= (fun t => lit "," ++ t)).
Proof.
  unfold commas. cbn [imap]. change (if (0 <? 0)%nat then lit "," else []) with (@nil Z).
  cbn [mbind list_bind id app]. f_equal.
  assert (H : ∀ k, imap ((fun i t => (if (0 <? i)%nat then lit "," else []) ++ t) ∘ (fun i => (i + S k)%nat)) ss ≫= id
              = ss ≫= (fun t => lit "," ++ t)).
  { induction ss as [|t ss IH]; intros k; [done|]. cbn [imap]. unfold compose at 1. cbn [Nat.add].
    change (0 <? S k)%nat with true. cbv iota. cbn [mbind list_bind id]. f_equal.
    specialize (IH (S k)). rewrite <- IH. f_equal. apply imap_ext. intros i x _. unfold compose. by replace (S i + S k)%nat with (i + S (S k))%nat by lia. }
  specialize (H 0%nat). rewrite <- H. f_equal. apply imap_ext. intros i x _. unfold compose. by rewrite Nat.add_1_r.
Qed.

Lemma skip_whitespace_at b r pos : is_json_space b = false → skip_whitespace (mkParser (b :: r) pos) = mkParser (b :: r) pos.
Proof. intros H. unfold skip_whitespace. cbn. by rewrite H. Qed.

Lemma skip_whitespace_delim r pos : delim r → skip_whitespace (mkParser r pos) = mkParser r pos.
Proof. destruct r as [|b r]; [done|]. intros H. apply skip_whitespace_at. by apply delim_not in H as (_ & _ & _ & _ & ?). Qed.

Definition reads_back (v : Value) : Prop :=
  ∀ fuel depth r pos, (height v + depth <= MAX_DEPTH)%nat → delim r →
    (2 * length (as_bytes (encode_value v) ++ r) < fuel)%nat →
    parse_value fuel depth (mkParser (as_bytes (encode_value v) ++ r) pos)
      = Some (Ok (v, mkParser r (pos + length (as_bytes (encode_value v))))).

Lemma depth_ok depth h : (h + depth <= MAX_DEPTH)%nat → (MAX_DEPTH <? depth)%nat = false.
Proof. intros H. apply Nat.ltb_ge. lia. Qed.

Lemma reads_back_null : reads_back Null.
Proof.
  intros [|fuel] depth r pos Hd Hr Hf; [lia|]. cbn [parse_value]. rewrite (depth_ok depth _ Hd).
  change (length (as_bytes (encode_value Null))) with 4%nat.
  replace (pos + 4)%nat with (S (S (S (S pos)))) by lia. reflexivity.
Qed.

Lemma reads_back_bool b : reads_back (Bool b).
Proof.
  intros [|fuel] depth r pos Hd Hr Hf; [lia|]. cbn [parse_value]. rewrite (depth_ok depth _ Hd). destruct b.
  - change (length (as_bytes (encode_value (Bool true)))) with 4%nat.
    replace (pos + 4)%nat with (S (S (S (S pos)))) by lia. reflexivity.
  - change (length (as_bytes (encode_value (Bool false)))) with 5%nat.
    replace (pos + 5)%nat with (S (S (S (S (S pos))))) by lia. reflexivity.
Qed.

Lemma reads_back_string s : is_ascii s → reads_back (JString s).
Proof.
  intros Hs [|fuel] depth r pos Hd Hr Hf; [lia|]. cbn [parse_value encode_value].
  rewrite (depth_ok depth _ Hd). pose proof (parse_string_encode s r pos (ascii_scalars s Hs)) as Hp.
  rewrite (as_bytes_ascii s Hs) in Hp. rewrite as_bytes_encode_string in *. cbn [app] in *.
  rewrite skip_whitespace_at by done. cbn [peek p_rest]. change (34 =? 34) with true. cbv iota. rewrite Hp. done.
Qed.

Lemma show_int_ascii N : is_ascii (show_int N).
Proof.
  rewrite show_int_split. apply Forall_app. split; [destruct (N <? 0); repeat constructor; lia|].
  eapply Forall_impl; [apply show_uint_digits; lia|]. cbn. lia.
Qed.

Lemma show_int_head N : ∃ b s, show_int N = b :: s ∧ (b = 45 ∨ 48 <= b <= 57).
Proof.
  rewrite show_int_split. destruct (N <? 0); [eexists _, _; split; [done|by left]|].
  destruct (show_uint_value (Z.abs N)) as (d & ds & -> & _ & Hall & _); [lia|]. apply Forall_cons in Hall as [Hd _].
  exists d, ds. split; [done|by right].
Qed.

Lemma reads_back_int N : Z.abs N < 2 ^ 53 → reads_back (Number (f64_of_Z N)).
Proof.
  intros HN [|fuel] depth r pos Hd Hr Hf; [lia|]. cbn [parse_value encode_value].
  rewrite (depth_ok depth _ Hd). rewrite encode_number_int, (as_bytes_ascii _ (show_int_ascii N)) by done.
  pose proof (parse_number_int N r pos HN Hr) as Hp. destruct (show_int_head N) as (b & s & Hs & Hb). rewrite Hs in *. cbn [app] in *.
  rewrite skip_whitespace_at by (unfold is_json_space; rewrite !orb_false_iff, !Z.eqb_neq; lia). cbn [peek p_rest].
  rewrite !(proj2 (Z.eqb_neq _ _)) by lia.
  assert ((b =? 45) || is_digit b = true) as -> by (destruct Hb as [->|Hb]; [done|]; rewrite (proj2 (is_digit_spec b)) by done; apply orb_true_r).
  by rewrite Hp.
Qed.

(** The elements after the first, each behind its comma. *)
Definition comma_tail (ts : list str) : bytes := as_bytes (ts ≫= (fun t => lit "," ++ t)).

Lemma comma_tail_cons t ts : comma_tail (t :: ts) = 44 :: as_bytes t ++ comma_tail ts.
Proof.
  unfold comma_tail. change ((t :: ts) ≫= (fun t => lit "," ++ t)) with ((lit "," ++ t) ++ (ts ≫= (fun t => lit "," ++ t))).
  by rewrite !as_bytes_app.
Qed.

Lemma comma_tail_delim ts b r : b = 93 ∨ b = 125 → delim (comma_tail ts ++ b :: r).
Proof. intros Hb. destruct ts as [|t ts]; [cbn; tauto|]. rewrite comma_tail_cons. cbn. tauto. Qed.

Lemma array_loop_ok vs : ∀ v fuel depth arr r pos,
  Forall reads_back (v :: vs) → Forall (fun w => S (height w) + depth <= MAX_DEPTH)%nat (v :: vs) →
  (2 * length (as_bytes (encode_value v) ++ comma_tail (encode_value <$> vs) ++ 93%Z :: r) + 1 < fuel)%nat →
  array_loop fuel depth arr (mkParser (as_bytes (encode_value v) ++ comma_tail (encode_value <$> vs) ++ 93 :: r) pos)
    = Some (Ok (Array (arr ++ v :: vs),
                mkParser r (pos + length (as_bytes (encode_value v) ++ comma_tail (encode_value <$> vs)) + 1))).
Proof.
  induction vs as [|v2 vs IH]; intros v fuel depth arr r pos Hrb Hh Hf;
    (destruct fuel as [|fuel]; [lia|]); apply Forall_cons in Hrb as [Hv Hrb]; apply Forall_cons in Hh as [Hd Hh];
    cbn [array_loop]; rewrite Hv by (try apply comma_tail_delim; auto; lia); cbn [mbind option_bind].
  - cbn [fmap list_fmap]. change (comma_tail []) with (@nil Z). cbn [app]. rewrite skip_whitespace_at by done.
    cbn [peek p_rest]. change (93 =? 44) with false. change (93 =? 93) with true. cbv iota.
    rewrite pos_incr_cons, app_nil_r. by rewrite Nat.add_1_r.
  - cbn [fmap list_fmap] in *. change (list_fmap Value str encode_value vs) with (encode_value <$> vs) in *.
    rewrite comma_tail_cons in *. rewrite !length_app in Hf. cbn [app length] in *. rewrite !length_app in Hf. cbn [length] in Hf.
    rewrite skip_whitespace_at by done. cbn [peek p_rest]. change (44 =? 44) with true. cbv iota. rewrite pos_incr_cons.
    rewrite <- app_assoc. rewrite IH by (done || rewrite !length_app; cbn [length]; lia).
    rewrite <- app_assoc. do 3 f_equal. f_equal. rewrite !length_app. cbn [length]. rewrite !length_app. lia.
Qed.

Lemma foldr_max_le {A} (f : A → nat) l d M :
  (foldr (fun x h => Nat.max (S (f x)) h) 0 l + d <= M)%nat → Forall (fun x => S (f x) + d <= M)%nat l.
Proof.
  induction l as [|x l IH]; intros H; constructor; cbn in H; [lia|apply IH; lia].
Qed.

(** A value's text does not start with white space or a closing bracket. *)
Lemma encode_value_head v : value_ok v → ∃ b s, as_bytes (encode_value v) = b :: s ∧ is_json_space b = false ∧ b ≠ 93.
Proof.
  intros [ |b|N HN|s Hs|vs Hvs|es Hes Hsort]; cbn [encode_value].
  - by eexists _, _.
  - destruct b; by eexists _, _.
  - rewrite encode_number_int, (as_bytes_ascii _ (show_int_ascii N)) by done.
    destruct (show_int_head N) as (b & s & -> & Hb). exists b, s. split_and!; [done| |lia].
    unfold is_json_space. rewrite !orb_false_iff, !Z.eqb_neq. lia.
  - rewrite as_bytes_encode_string. by eexists _, _.
  - rewrite as_bytes_app. by eexists _, _.
  - rewrite as_bytes_app. by eexists _, _.
Qed.

Lemma reads_back_array vs : Forall value_ok vs → Forall reads_back vs → reads_back (Array vs).
Proof.
  intros Hok Hvs [|fuel] depth r pos Hd Hr Hf; [lia|]. cbn [parse_value]. rewrite (depth_ok depth _ Hd).
  cbn [encode_value height] in *. destruct vs as [|v vs].
  - change (length (as_bytes (lit "[" ++ commas (encode_value <$> []) ++ lit "]"))) with 2%nat.
    replace (pos + 2)%nat with (S (S pos)) by lia. reflexivity.
  - apply foldr_max_le in Hd. cbn [fmap list_fmap] in *.
    change (list_fmap Value str encode_value vs) with (encode_value <$> vs) in *. rewrite commas_cons, !as_bytes_app in *.
    change (as_bytes ((encode_value <$> vs) ≫= (fun t => lit "," ++ t))) with (comma_tail (encode_value <$> vs)) in *.
    change (as_bytes (lit "[")) with [91] in *. change (as_bytes (lit "]")) with [93] in *.
    rewrite <- !app_assoc in *. cbn [app] in *. rewrite skip_whitespace_at by done. cbn [peek p_rest].
    change (91 =? 34) with false. change (91 =? 123) with false. change (91 =? 91) with true. cbv iota. rewrite pos_incr_cons.
    apply Forall_cons in Hok as [Hokv _]. destruct (encode_value_head v Hokv) as (b & s & Hb & Hsp & Hne).
    assert (Hskip : ∀ tl, skip_whitespace (mkParser (as_bytes (encode_value v) ++ tl) (S pos)) = mkParser (as_bytes (encode_value v) ++ tl) (S pos) ∧
                         at_byte 93 (mkParser (as_bytes (encode_value v) ++ tl) (S pos)) = false).
    { intros tl. rewrite Hb. cbn [app]. split; [by apply skip_whitespace_at|]. unfold at_byte, peek. cbn [p_rest]. by apply Z.eqb_neq. }
    destruct (Hskip (comma_tail (encode_value <$> vs) ++ 93 :: r)) as [-> ->].
    rewrite array_loop_ok by (done || cbn [length] in Hf; lia).
    do 4 f_equal. rewrite !length_app. cbn [length]. rewrite !length_app. cbn [length]. lia.
Qed.

Definition entry_text (e : str * Value) : str := encode_string e.1 ++ lit ":" ++ encode_value e.2.

Lemma as_bytes_entry e :
  as_bytes (entry_text e) = as_bytes (encode_string e.1) ++ 58 :: as_bytes (encode_value e.2).
Proof. unfold entry_text. by rewrite !as_bytes_app. Qed.

Lemma object_loop_ok es : ∀ e fuel depth obj r pos,
  Forall (fun e => is_ascii e.1 ∧ reads_back e.2) (e :: es) →
  Forall (fun e => S (height e.2) + depth <= MAX_DEPTH)%nat (e :: es) →
  StronglySorted key_lt (obj ++ e :: es) →
  (2 * length (as_bytes (entry_text e) ++ comma_tail (entry_text <$> es) ++ 125%Z :: r) + 1 < fuel)%nat →
  object_loop fuel depth obj (mkParser (as_bytes (entry_text e) ++ comma_tail (entry_text <$> es) ++ 125 :: r) pos)
    = Some (Ok (Object (obj ++ e :: es),
                mkParser r (pos + length (as_bytes (entry_text e) ++ comma_tail (entry_text <$> es)) + 1))).
Proof.
  induction es as [|e2 es IH]; intros [k v] fuel depth obj r pos Hrb Hh Hsort Hf;
    (destruct fuel as [|fuel]; [lia|]); apply Forall_cons in Hrb as [[Hk Hv] Hrb]; apply Forall_cons in Hh as [Hd Hh];
    cbn [fst snd] in *.
  all: assert (Hlast : Forall (fun e => key_compare e.1 k = Lt) obj)
    by (apply Forall_forall; intros e He; apply StronglySorted_app in Hsort as (Hs & _); apply (Hs e (k, v)); [done|by left]).
  all: cbn [object_loop]; rewrite as_bytes_entry in *; cbn [fst snd] in *; rewrite <- app_assoc in *; cbn [app] in *.
  all: rewrite length_app in Hf; cbn [length] in Hf; rewrite !length_app in Hf; cbn [length] in Hf.
  all: match goal with |- context [comma_tail ?t ++ 125 :: ?rr] => set (tl := comma_tail t ++ 125 :: rr) in * end.
  all: assert (Hskip : ∀ x pos, skip_whitespace (mkParser (as_bytes (encode_string k) ++ x) pos) = mkParser (as_bytes (encode_string k) ++ x) pos)
    by (intros x pos'; rewrite as_bytes_encode_string; cbn [app]; by apply skip_whitespace_at).
  all: rewrite Hskip, (parse_string_encode k _ pos (ascii_scalars k Hk)), (as_bytes_ascii k Hk).
  all: rewrite skip_whitespace_at by done; unfold expect; cbn [p_rest]; change (58 =? 58) with true; cbv iota; rewrite pos_incr_cons.
  all: rewrite Hv by (try (subst tl; apply comma_tail_delim; auto; fail); subst tl; rewrite ?length_app; cbn [length]; rewrite ?length_app; cbn [length]; lia).
  all: cbn [mbind option_bind]; rewrite (btree_insert_last k v obj Hlast); subst tl.
  - cbn [fmap list_fmap]. change (comma_tail []) with (@nil Z). cbn [app]. rewrite skip_whitespace_at by done.
    cbn [peek p_rest]. change (125 =? 44) with false. change (125 =? 125) with true. cbv iota. rewrite pos_incr_cons.
    do 4 f_equal. rewrite ?app_nil_r, ?length_app. cbn [length]. rewrite ?length_app. cbn [length]. lia.
  - cbn [fmap list_fmap] in *. change (list_fmap (str * Value)%type str entry_text es) with (entry_text <$> es) in *.
    rewrite comma_tail_cons in *. cbn [app] in *. rewrite skip_whitespace_at by done. cbn [peek p_rest].
    change (44 =? 44) with true. cbv iota. rewrite pos_incr_cons. rewrite <- app_assoc.
    cbn [length] in Hf. rewrite !length_app in Hf. cbn [length] in Hf.
    rewrite IH; [|done|done|by rewrite <- app_assoc|rewrite !length_app; cbn [length]; lia].
    rewrite <- app_assoc. do 4 f_equal. rewrite !length_app. cbn [length]. rewrite !length_app. cbn [length]. rewrite ?length_app. lia.
Qed.

Lemma reads_back_object es :
  Forall (fun e => is_ascii e.1 ∧ reads_back e.2) es → StronglySorted key_lt es → reads_back (Object es).
Proof.
  intros Hes Hsort [|fuel] depth r pos Hd Hr Hf; [lia|]. cbn [parse_value]. rewrite (depth_ok depth _ Hd).
  cbn [encode_value height] in *.
  assert (Hmap : ((fun '(k, v) => encode_string k ++ lit ":" ++ encode_value v) <$> es) = entry_text <$> es)
    by (apply list_fmap_ext; intros i [k v] _; done).
  rewrite Hmap in *. clear Hmap. destruct es as [|e es].
  - change (length (as_bytes (lit "{" ++ commas (entry_text <$> []) ++ lit "}"))) with 2%nat.
    replace (pos + 2)%nat with (S (S pos)) by lia. reflexivity.
  - apply (foldr_max_le (fun e => height e.2)) in Hd. cbn [fmap list_fmap] in *.
    change (list_fmap (str * Value)%type str entry_text es) with (entry_text <$> es) in *. rewrite commas_cons, !as_bytes_app in *.
    change (as_bytes ((entry_text <$> es) ≫= (fun t => lit "," ++ t))) with (comma_tail (entry_text <$> es)) in *.
    change (as_bytes (lit "{")) with [123] in *. change (as_bytes (lit "}")) with [125] in *.
    rewrite <- !app_assoc in *. cbn [app] in *. rewrite skip_whitespace_at by done. cbn [peek p_rest].
    change (123 =? 34) with false. change (123 =? 123) with true. cbv iota. rewrite pos_incr_cons.
    assert (Hskip : ∀ tl, skip_whitespace (mkParser (as_bytes (entry_text e) ++ tl) (S pos)) = mkParser (as_bytes (entry_text e) ++ tl) (S pos) ∧
                         at_byte 125 (mkParser (as_bytes (entry_text e) ++ tl) (S pos)) = false).
    { intros tl. rewrite as_bytes_entry, as_bytes_encode_string. cbn [app]. split; [by apply skip_whitespace_at|done]. }
    destruct (Hskip (comma_tail (entry_text <$> es) ++ 125 :: r)) as [-> ->].
    rewrite object_loop_ok by (done || cbn [length] in Hf; lia).
    do 4 f_equal. rewrite !length_app. cbn [length]. rewrite !length_app. cbn [length]. lia.
Qed.

Lemma value_ok_reads_back v : value_ok v → reads_back v.
Proof.
  induction v as [|b|n|s|vs IH|es IH] using Value_ind'; intros Hok; inversion Hok as [ | |N HN|? Hs|? Hvs|? Hes Hsort]; subst.
  - apply reads_back_null.
  - apply reads_back_bool.
  - by apply reads_back_int.
  - by apply reads_back_string.
  - apply reads_back_array; [done|]. rewrite Forall_forall in *. intros v Hv. apply IH; [done|]. by apply Hvs.
  - apply reads_back_object; [|done]. rewrite Forall_forall in *. intros e He. destruct (Hes e He) as [H1 H2].
    split; [done|]. by apply IH.
Qed.

Lemma decode_encode v : value_ok v → (height v <= MAX_DEPTH)%nat → decode (encode v) = Some (Ok v).
Proof.
  intros Hok Hh. unfold decode, encode.
  pose proof (value_ok_reads_back v Hok (S (2 * length (as_bytes (encode_value v)))) 0%nat [] 0%nat ltac:(lia) I) as H.
  rewrite app_nil_r in H. rewrite H by lia. reflexivity.
Qed.

(** C30: The codec round-trips: every value of the subset (ASCII text, integers a
    double holds exactly, arrays and objects of such values nested at most 32
    deep) is decoded from its encoding. *)
Theorem json_roundtrip v :
  value_ok v → (height v <= MAX_DEPTH)%nat → decode (encode v) = Some (Ok v).
Proof. apply decode_encode. Qed.

Definition demo_value : Value :=
  Object [(lit "a", Array [Number (f64_of_Z 1); Number (f64_of_Z (-20)); Null]);
          (lit "b", JString (lit "x" ++ [34; 10; 1])); (lit "c", Object [])].

Lemma demo_value_ok : value_ok demo_value.
Proof.
  apply ok_object.
  - repeat (apply Forall_cons_2; [split; [repeat constructor; lia|]|]); [ | | |constructor].
    + apply ok_array. repeat constructor; apply Z.ltb_lt; reflexivity.
    + apply ok_string. repeat constructor; lia.
    + apply ok_object; constructor.
  - repeat constructor.
Qed.

Lemma json_roundtrip_witness : decode (encode demo_value) = Some (Ok demo_value).
Proof. apply (json_roundtrip demo_value demo_value_ok). apply Nat.leb_le. reflexivity. Defined.

Example demo_value_text : encode (Array [Number (f64_of_Z 1); JString [10]]) = lit "[1," ++ [34; 92; 110; 34] ++ lit "]".
Proof. reflexivity. Qed.

Definition nested (n : nat) : str := replicate n 91 ++ replicate n 93.

(** The limit counts from zero: 33 nested arrays are accepted, 34 are not. *)
Example depth_limit_is_33 :
  (∃ v, decode (nested 33) = Some (Ok v)) ∧ decode (nested 34) = Some (Err DepthExceeded).
Proof. split; [eexists|]; reflexivity. Qed.

(** The encoder prints numbers that JSON does not have. *)
Example encode_nan : encode (Number S754_nan) = lit "NaN" ∧ decode (lit "NaN") = Some (Err (UnexpectedChar 0 78)).
Proof. split; reflexivity. Qed.

(** ** Decoded values are well formed *)

(** What the Rust types and the decoder promise of a value: scalar characters,
    finite numbers, keys in strictly increasing order, bounded nesting. *)
Fixpoint well_formed (depth : nat) (v : Value) {struct v} : Prop :=
  match v with
  | Null | Bool _ => True
  | Number n => is_finite n = true
  | JString s => Forall (fun c => is_scalar c = true) s
  | Array vs =>
      foldr (fun v P => match depth with O => False | S d => well_formed d v end ∧ P) True vs
  | Object es =>
      StronglySorted key_lt es ∧
      foldr (fun e P => (Forall (fun c => is_scalar c = true) e.1 ∧
                         match depth with O => False | S d => well_formed d e.2 end) ∧ P) True es
  end.

Lemma bytes_compare_eq a b : bytes_compare a b = Eq → a = b.
Proof.
  revert b. induction a as [|x a IH]; intros [|y b]; cbn [bytes_compare]; try done.
  destruct (Z.compare_spec x y) as [->| |]; [|done|done]. intros H. f_equal. by apply IH.
Qed.

Lemma bytes_compare_trans a b c : bytes_compare a b = Lt → bytes_compare b c = Lt → bytes_compare a c = Lt.
Proof.
  revert b c. induction a as [|x a IH]; intros [|y b] [|z c]; cbn [bytes_compare]; try done.
  destruct (Z.compare_spec x y) as [->| |]; [|intros _|done].
  - destruct (y ?= z); [|done|done]. apply IH.
  - destruct (Z.compare_spec y z) as [->| |]; [intros _|intros _|done].
    + by rewrite (proj2 (Z.compare_lt_iff x z)).
    + by rewrite (proj2 (Z.compare_lt_iff x z)) by lia.
Qed.

Lemma btree_insert_elem k v m e :
  e ∈ btree_insert k v m →
  (e.1 = k ∨ (key_compare e.1 k = Eq ∧ ∃ v', (e.1, v') ∈ m)) ∧ e.2 = v ∨ e ∈ m.
Proof.
  induction m as [|[k' v'] m IH]; cbn [btree_insert].
  - intros ->%list_elem_of_singleton. left. by split; [left|].
  - destruct (key_compare k k') eqn:E.
    + intros [->|H]%elem_of_cons; [|right; by right]. left. split; [|done]. right. cbn [fst].
      unfold key_compare in *. rewrite bytes_compare_antisym, E. split; [done|]. exists v'. by left.
    + intros [->|H]%elem_of_cons; [left; by split; [left|]|by right].
    + intros [->|H]%elem_of_cons; [right; by left|]. destruct (IH H) as [[[?|[? [w ?]]] ?]|Hm].
      * left. split; [by left|done].
      * left. split; [right|done]. split; [done|]. exists w. by right.
      * right. by right.
Qed.

(** [insert] keeps the entries in the order of the keys. *)
Lemma btree_insert_sorted k v m : StronglySorted key_lt m → StronglySorted key_lt (btree_insert k v m).
Proof.
  induction 1 as [|[k' v'] m Hs IH Hall]; cbn [btree_insert]; [repeat constructor|].
  destruct (key_compare k k') eqn:E.
  - constructor; [done|]. eapply Forall_impl; [exact Hall|]. done.
  - constructor; [by constructor|]. constructor; [done|]. eapply Forall_impl; [exact Hall|].
    intros e He. unfold key_lt, key_compare in *. cbn [fst] in *. by eapply bytes_compare_trans.
  - constructor; [done|]. apply Forall_forall. intros e He. apply btree_insert_elem in He as [[[Hk|[Hk _]] _]|He].
    + unfold key_lt, key_compare in *. cbn [fst]. rewrite Hk, bytes_compare_antisym, E. done.
    + unfold key_lt, key_compare in *. cbn [fst]. apply bytes_compare_eq in Hk. rewrite Hk, bytes_compare_antisym, E. done.
    + rewrite Forall_forall in Hall. by apply Hall.
Qed.

Lemma foldr_and {A} (Q : A → Prop) l : foldr (fun x P => Q x ∧ P) True l ↔ Forall Q l.
Proof. induction l as [|x l IH]; [by split|]. rewrite Forall_cons. cbn. by rewrite IH. Qed.

(** Bytes left to read; a byte taken for a character is a scalar value. *)
Definition input_ok (p : Parser) : Prop := Forall byte_ok (p_rest p).

Lemma byte_scalar b : byte_ok b → is_scalar b = true.
Proof. unfold byte_ok, in_width. intros H. apply is_scalar_spec. lia. Qed.

Lemma pos_incr_ok p : input_ok p → input_ok (pos_incr p).
Proof. unfold input_ok, pos_incr. cbn [p_rest]. intros H. by destruct H. Qed.

Lemma skip_spaces_ok s pos : Forall byte_ok s → input_ok (skip_spaces s pos).
Proof.
  intros H. revert pos. induction H as [|b s Hb Hs IH]; intros pos; cbn; [constructor|].
  destruct (is_json_space b); [apply IH|by constructor].
Qed.

Lemma expect_ok b p u p' : input_ok p → expect b p = Ok (u, p') → input_ok p'.
Proof.
  intros Hp. unfold expect. destruct (p_rest p); [done|]. destruct (_ =? b); [|done]. intros [= _ <-]. by apply pos_incr_ok.
Qed.

Lemma skip_digits_ok p : input_ok p → input_ok (skip_digits p).
Proof.
  unfold input_ok, skip_digits. intros H. rewrite <- (span_digits_app (p_rest p)) in H.
  destruct (span_digits (p_rest p)). by apply Forall_app in H as [_ ?].
Qed.

Lemma parse_literal_ok ex v p w p' : input_ok p → parse_literal ex v p = Ok (w, p') → input_ok p' ∧ w = v.
Proof.
  revert p. induction ex as [|b ex IH]; intros p Hp H; cbn [parse_literal] in H; [by simplify_eq|].
  destruct (p_rest p); [done|]. destruct (_ =? b); [|done]. eapply IH; [|exact H]. by apply pos_incr_ok.
Qed.

Lemma number_steps_ok start p p' :
  input_ok p →
  (number_integer start p = Ok p' → input_ok p') ∧ (number_fraction p = Ok p' → input_ok p') ∧
  (number_exponent p = Ok p' → input_ok p').
Proof.
  intros Hp. pose proof (pos_incr_ok p Hp) as H1. split_and!.
  - unfold number_integer. destruct (at_byte 48 p); [by intros [= <-]|]. destruct (at_digit p); [|done].
    intros [= <-]. by apply skip_digits_ok.
  - unfold number_fraction. destruct (at_byte 46 p); [|by intros [= <-]]. destruct (negb _); [done|].
    intros [= <-]. by apply skip_digits_ok.
  - unfold number_exponent. destruct (_ || _); [|by intros [= <-]].
    set (q := if _ || _ then pos_incr (pos_incr p) else pos_incr p).
    assert (input_ok q) by (subst q; destruct (_ || _); [by apply pos_incr_ok|done]).
    destruct (negb _); [done|]. intros [= <-]. by apply skip_digits_ok.
Qed.

Lemma parse_number_ok p v p' : input_ok p → parse_number p = Ok (v, p') → input_ok p' ∧ ∃ n, v = Number n ∧ is_finite n = true.
Proof.
  intros Hp. unfold parse_number. set (q := if at_byte 45 p then pos_incr p else p).
  assert (Hq : input_ok q) by (subst q; destruct (at_byte 45 p); [by apply pos_incr_ok|done]).
  destruct (number_integer _ q) as [p1|] eqn:E1; [|done]. cbn [result_bind]. apply (number_steps_ok _ _ p1) in E1; [|done].
  destruct (number_fraction p1) as [p2|] eqn:E2; [|done]. cbn [result_bind].
  apply (number_steps_ok 0 _ p2) in E2; [|done].
  destruct (number_exponent p2) as [p3|] eqn:E3; [|done]. cbn [result_bind].
  apply (number_steps_ok 0 _ p3) in E3; [|done].
  destruct (is_finite _) eqn:Ef; cbn [negb]; [|done]. intros [= <- <-]. split; [done|]. eauto.
Qed.

Lemma hex4_loop_ok n start val p v p' : input_ok p → hex4_loop n start val p = Ok (v, p') → input_ok p'.
Proof.
  revert val p. induction n as [|n IH]; intros val p Hp H; cbn [hex4_loop] in H; [by simplify_eq|].
  destruct (p_rest p); [done|]. destruct (hex_val _); [|done]. eapply IH; [|exact H]. by apply pos_incr_ok.
Qed.

Lemma char_from_u32_scalar c d : char_from_u32 c = Some d → is_scalar d = true.
Proof. unfold char_from_u32. destruct (is_scalar c) eqn:E; [|done]. by intros [= <-]. Qed.

Lemma parse_unicode_ok esc p c p' : input_ok p → parse_unicode esc p = Ok (c, p') → input_ok p' ∧ is_scalar c = true.
Proof.
  intros Hp. unfold parse_unicode, parse_hex4. destruct (hex4_loop _ _ _ p) as [[cp p1]|] eqn:E1; [|done]. cbn [result_bind].
  apply hex4_loop_ok in E1; [|done]. destruct (_ && _).
  - destruct (expect 92 p1) as [[u p2]|] eqn:E2; [|done]. cbn [result_bind]. apply expect_ok in E2; [|done].
    destruct (expect 117 p2) as [[u' p3]|] eqn:E3; [|done]. cbn [result_bind]. apply expect_ok in E3; [|done].
    destruct (hex4_loop _ _ _ p3) as [[low p4]|] eqn:E4; [|done]. cbn [result_bind]. apply hex4_loop_ok in E4; [|done].
    destruct (negb _); [done|]. destruct (char_from_u32 _) eqn:Ec; [|done]. intros [= <- <-]. split; [done|by eapply char_from_u32_scalar].
  - destruct (char_from_u32 _) eqn:Ec; [|done]. intros [= <- <-]. split; [done|by eapply char_from_u32_scalar].
Qed.

Lemma parse_escape_ok p c p' : input_ok p → parse_escape p = Ok (c, p') → input_ok p' ∧ is_scalar c = true.
Proof.
  intros Hp. unfold parse_escape. destruct (p_rest p) as [|b r]; [done|]. pose proof (pos_incr_ok p Hp).
  repeat (destruct (b =? _); [first [intros [= <- <-]; done|intros H'; by eapply parse_unicode_ok]|]). done.
Qed.

Lemma string_loop_ok fuel s p t p' :
  input_ok p → Forall (fun c => is_scalar c = true) s → string_loop fuel s p = Ok (t, p') →
  input_ok p' ∧ Forall (fun c => is_scalar c = true) t.
Proof.
  revert s p. induction fuel as [|fuel IH]; intros s p Hp Hs H; cbn [string_loop] in H; [done|].
  destruct (p_rest p) as [|b r] eqn:E; [done|]. pose proof (pos_incr_ok p Hp) as Hp1.
  destruct (b =? 34); [by simplify_eq|]. destruct (b =? 92).
  - destruct (parse_escape (pos_incr p)) as [[c p1]|] eqn:E1; [|done]. apply parse_escape_ok in E1 as [H1 H2]; [|done].
    eapply IH; [exact H1| |exact H]. apply Forall_app. split; [done|by constructor].
  - eapply IH; [exact Hp1| |exact H]. apply Forall_app. split; [done|]. constructor; [|constructor].
    unfold input_ok in Hp. rewrite E in Hp. apply Forall_cons in Hp as [? _]. by apply byte_scalar.
Qed.

Lemma parse_string_ok p s p' :
  input_ok p → parse_string p = Ok (s, p') → input_ok p' ∧ Forall (fun c => is_scalar c = true) s.
Proof.
  intros Hp. unfold parse_string. destruct (expect 34 p) as [[u p1]|] eqn:E; [|done]. cbn [result_bind].
  apply expect_ok in E; [|done]. by apply string_loop_ok.
Qed.

(** The result of a recursive parse at a depth. *)
Definition yields_ok (left : nat) (o : option (parse Value)) : Prop :=
  match o with Some (Ok (v, p)) => input_ok p ∧ well_formed left v | _ => True end.

Lemma parse_well_formed fuel :
  (∀ depth p, input_ok p → yields_ok (MAX_DEPTH - depth) (parse_value fuel depth p)) ∧
  (∀ depth arr p, input_ok p → (depth <= MAX_DEPTH)%nat → well_formed (MAX_DEPTH - depth) (Array arr) →
     yields_ok (MAX_DEPTH - depth) (array_loop fuel depth arr p)) ∧
  (∀ depth obj p, input_ok p → (depth <= MAX_DEPTH)%nat → well_formed (MAX_DEPTH - depth) (Object obj) →
     yields_ok (MAX_DEPTH - depth) (object_loop fuel depth obj p)).
Proof.
  induction fuel as [|fuel (IHv & IHa & IHo)]; [done|]. split_and!.
  - intros depth p Hp. cbn [parse_value]. destruct (Nat.ltb_spec MAX_DEPTH depth) as [|Hd]; [done|].
    pose proof (skip_spaces_ok (p_rest p) (p_pos p) Hp) as Hq. fold (skip_whitespace p) in Hq.
    set (q := skip_whitespace p) in *. clearbody q. destruct (peek q) as [b|]; [|done].
    pose proof (pos_incr_ok q Hq) as Hq1. pose proof (skip_spaces_ok _ (p_pos (pos_incr q)) Hq1) as Hq2. fold (skip_whitespace (pos_incr q)) in Hq2.
    set (q2 := skip_whitespace (pos_incr q)) in *. clearbody q2.
    destruct (b =? 34).
    { destruct (parse_string q) as [[s p']|] eqn:E; [|done]. apply parse_string_ok in E; [|done]. exact E. }
    destruct (b =? 123).
    { destruct (at_byte 125 q2); [|apply IHo; [done|done|split; [constructor|done]]]. split; [by apply pos_incr_ok|]. split; [constructor|done]. }
    destruct (b =? 91).
    { destruct (at_byte 93 q2); [|by apply IHa]. split; [by apply pos_incr_ok|done]. }
    destruct (b =? 116); [destruct (parse_literal _ _ q) as [[v p']|] eqn:E; [apply parse_literal_ok in E as [? ->]; done|done]|].
    destruct (b =? 102); [destruct (parse_literal _ _ q) as [[v p']|] eqn:E; [apply parse_literal_ok in E as [? ->]; done|done]|].
    destruct (b =? 110); [destruct (parse_literal _ _ q) as [[v p']|] eqn:E; [apply parse_literal_ok in E as [? ->]; done|done]|].
    destruct (_ || _); [|done]. destruct (parse_number q) as [[v p']|] eqn:E; [|done].
    apply parse_number_ok in E as [? (n & -> & ?)]; done.
  - intros depth arr p Hp Hd Harr. cbn [array_loop]. specialize (IHv (S depth) p Hp).
    destruct (parse_value fuel (S depth) p) as [[[v p1]|e]|] eqn:Ev; [|done|done]. cbn [mbind option_bind yields_ok] in *.
    destruct IHv as [Hp1 Hv].
    assert (Hnew : well_formed (MAX_DEPTH - depth) (Array (arr ++ [v]))).
    { cbn [well_formed] in *. apply foldr_and. apply foldr_and in Harr. apply Forall_app. split; [done|]. constructor; [|constructor].
      destruct (MAX_DEPTH - depth)%nat as [|d] eqn:Ed.
      - destruct fuel; [done|]. cbn [parse_value] in Ev. by rewrite (proj2 (Nat.ltb_lt _ _)) in Ev by lia.
      - by replace d with (MAX_DEPTH - S depth)%nat by lia. }
    pose proof (skip_spaces_ok _ (p_pos p1) Hp1) as Hq. fold (skip_whitespace p1) in Hq.
    destruct (peek (skip_whitespace p1)) as [b|]; [|done]. pose proof (pos_incr_ok _ Hq).
    destruct (b =? 44); [by apply IHa|]. destruct (b =? 93); [|done]. by split.
  - intros depth obj p Hp Hd [Hsort Hobj]. cbn [object_loop].
    pose proof (skip_spaces_ok _ (p_pos p) Hp) as Hq. fold (skip_whitespace p) in Hq.
    destruct (parse_string (skip_whitespace p)) as [[key p1]|] eqn:E1; [|done]. apply parse_string_ok in E1 as [Hp1 Hkey]; [|done].
    pose proof (skip_spaces_ok _ (p_pos p1) Hp1) as Hq1. fold (skip_whitespace p1) in Hq1.
    destruct (expect 58 (skip_whitespace p1)) as [[u p2]|] eqn:E2; [|done]. apply expect_ok in E2; [|done].
    specialize (IHv (S depth) p2 E2).
    destruct (parse_value fuel (S depth) p2) as [[[v p3]|e]|] eqn:Ev; [|done|done]. cbn [mbind option_bind yields_ok] in *.
    destruct IHv as [Hp3 Hv].
    assert (Hnew : well_formed (MAX_DEPTH - depth) (Object (btree_insert key v obj))).
    { cbn [well_formed]. split; [by apply btree_insert_sorted|]. apply foldr_and. apply foldr_and in Hobj.
      apply Forall_forall. intros e He. rewrite Forall_forall in Hobj.
      assert (Hd' : match (MAX_DEPTH - depth)%nat with O => False | S d => well_formed d v end).
      { destruct (MAX_DEPTH - depth)%nat as [|d] eqn:Ed.
        - destruct fuel; [done|]. cbn [parse_value] in Ev. by rewrite (proj2 (Nat.ltb_lt _ _)) in Ev by lia.
        - by replace d with (MAX_DEPTH - S depth)%nat by lia. }
      apply btree_insert_elem in He as [[[Hk|[_ [w Hw]]] ->]|He]; [by rewrite Hk| |by apply Hobj].
      split; [|done]. exact (proj1 (Hobj _ Hw)). }
    pose proof (skip_spaces_ok _ (p_pos p3) Hp3) as Hq3. fold (skip_whitespace p3) in Hq3.
    destruct (peek (skip_whitespace p3)) as [b|]; [|done]. pose proof (pos_incr_ok _ Hq3).
    destruct (b =? 44); [by apply IHo|]. destruct (b =? 125); [|done]. by split.
Qed.

(** Whatever the input, a decoded value is well formed: every character is a
    Unicode scalar value, every number is finite, the keys of every object are
    strictly increasing as a [BTreeMap] keeps them, and the nesting is within
    the limit, so a handler's recursion over it is bounded. *)
Theorem json_decode_well_formed input v :
  Forall (fun c => is_scalar c = true) input → decode input = Some (Ok v) → well_formed MAX_DEPTH v.
Proof.
  intros Hin. unfold decode. destruct (parse_well_formed (S (2 * length (as_bytes input)))) as [H _].
  assert (Hp : input_ok (mkParser (as_bytes input) 0)).
  { by apply as_bytes_ok. }
  specialize (H 0%nat _ Hp). destruct (parse_value _ 0 _) as [[[w p]|e]|]; cbn [mbind option_bind result_bind]; [|done|done].
  destruct (p_rest (skip_whitespace p)); [|done]. intros [= <-]. destruct H as [_ H]. by rewrite Nat.sub_0_r in H.
Qed.

Lemma json_decode_well_formed_witness : well_formed MAX_DEPTH demo_value.
Proof.
  apply (json_decode_well_formed (encode demo_value)); [|vm_compute; reflexivity].
  apply (bool_decide_unpack _). vm_compute. exact I.
Defined.
