(* ===== verification/Asn1.v ===== *)
(** * The DER reader ([auth/asn1.rs])

    A cursor over a byte slice.  An operation returns the reader it leaves
    behind and an [outcome]; a slice out of range, an underflow or a loop out of
    fuel is [Panic], so that the absence of panics is a theorem and not a
    modelling choice.  [tlv] is the X.690 definite-length encoding the reader is
    compared with. *)

From stdpp Require Import base numbers list strings.
From Stdlib Require Import ZArith Lia.
From S2P Require Import Prelude.

(** ** Tags and errors *)

Definition tag_BOOLEAN : Z := 0x01.
Definition tag_INTEGER : Z := 0x02.
Definition tag_BIT_STRING : Z := 0x03.
Definition tag_OCTET_STRING : Z := 0x04.
Definition tag_NULL : Z := 0x05.
Definition tag_OID : Z := 0x06.
Definition tag_UTF8_STRING : Z := 0x0C.
Definition tag_PRINTABLE_STRING : Z := 0x13.
Definition tag_IA5_STRING : Z := 0x16.
Definition tag_UTC_TIME : Z := 0x17.
Definition tag_GENERALIZED_TIME : Z := 0x18.
Definition tag_SEQUENCE : Z := 0x30.
Definition tag_SET : Z := 0x31.

Definition context_tag_explicit (n : Z) : Z := Z.lor 0xA0 n.

Inductive Asn1Error :=
| Truncated
| BadLength
| UnexpectedTag (expected got : Z)
| UnsupportedBitString
| InvalidValue (reason : string)
| Unsupported (reason : string).

#[export] Instance Asn1Error_eq_dec : EqDecision Asn1Error.
Proof. solve_decision. Defined.

(** ** The reader *)

Record DerReader := mkReader { dr_buf : bytes; dr_pos : nat }.

(** A method on [&mut DerReader]. *)
Definition der (E A : Type) : Type := DerReader → DerReader * outcome A E.

Definition der_ret {E A} (a : A) : der E A := fun r => (r, Ret a).
Definition der_fail {E A} (e : E) : der E A := fun r => (r, Fail e).
Definition der_bind {E A B} (m : der E A) (k : A → der E B) : der E B :=
  fun r => match m r with
           | (r', Ret a) => k a r'
           | (r', Fail e) => (r', Fail e)
           | (r', Panic) => (r', Panic)
           end.
(** [?] on an error of another type, through [From]. *)
Definition der_from {E F A} (conv : E → F) (m : der E A) : der F A :=
  fun r => let '(r', o) := m r in (r', out_map_err conv o).

Notation "'let&' x := m 'in' k" := (der_bind m (fun x => k))
  (at level 10, x pattern, m at level 100, k at level 200) : desmos_scope.

(** A call on a reader the caller owns: binds the result and the reader after it. *)
Definition der_run {A B E} (m : DerReader * outcome A E) (k : DerReader → A → outcome B E) : outcome B E :=
  let '(r, o) := m in out_bind o (k r).

Notation "'let@' ( r , x ) := m 'in' k" := (der_run m (fun r x => k))
  (at level 10, r name, x pattern, m at level 100, k at level 200) : desmos_scope.

Definition DerReader_new (buf : bytes) : DerReader := mkReader buf 0.

Definition is_empty (r : DerReader) : bool := (length (dr_buf r) <=? dr_pos r)%nat.

(** [usize] subtraction. *)
Definition usize_sub (a b : nat) : panics nat := if (b <=? a)%nat then Some (a - b)%nat else None.

Definition remaining_len (r : DerReader) : panics nat := usize_sub (length (dr_buf r)) (dr_pos r).

Definition consumed (r : DerReader) : panics bytes := slice_checked 0 (dr_pos r) (dr_buf r).

Definition remaining (r : DerReader) : panics bytes :=
  slice_checked (dr_pos r) (length (dr_buf r)) (dr_buf r).

Definition advance (n : nat) (r : DerReader) : DerReader := mkReader (dr_buf r) (dr_pos r + n).
Definition seek (n : nat) (r : DerReader) : DerReader := mkReader (dr_buf r) n.

Definition read_byte : der Asn1Error Z := fun r =>
  match dr_buf r !! dr_pos r with
  | Some b => (advance 1 r, Ret b)
  | None => (r, Fail Truncated)
  end.

(** [for _ in 0..n { len = (len << 8) | b }]: a 64-bit [usize]. *)
Fixpoint read_length_bytes (n : nat) (len : Z) : der Asn1Error Z :=
  match n with
  | O => der_ret len
  | S n => let& b := read_byte in read_length_bytes n (Z.lor (wrap 64 (Z.shiftl len 8)) b)
  end.

Definition read_length : der Asn1Error Z :=
  let& first := read_byte in
  if first <? 0x80 then der_ret first
  else if first =? 0x80 then der_fail BadLength
  else
    let n := Z.land first 0x7F in
    if (n =? 0) || (4 <? n) then der_fail BadLength
    else read_length_bytes (Z.to_nat n) 0.

(** [pos + len] stays in a [usize]: [len] has at most four bytes and a slice at
    most [isize::MAX]. *)
Definition read_tlv : der Asn1Error (Z * bytes) := fun r0 =>
  let start := dr_pos r0 in
  (let& tag := read_byte in
   if Z.land tag 0x1F =? 0x1F then der_fail (Unsupported "long-form tag")
   else
     let& len := read_length in fun r =>
     if Z.of_nat (length (dr_buf r)) <? Z.of_nat (dr_pos r) + len
     then (seek start r, Fail Truncated)
     else
       match slice_checked (dr_pos r) (dr_pos r + Z.to_nat len) (dr_buf r) with
       | Some value => (advance (Z.to_nat len) r, Ret (tag, value))
       | None => (r, Panic)
       end) r0.

Definition read_tagged (expected : Z) : der Asn1Error bytes := fun r0 =>
  let start := dr_pos r0 in
  (let& (tag, value) := read_tlv in
   if negb (tag =? expected) then fun r => (seek start r, Fail (UnexpectedTag expected tag))
   else der_ret value) r0.

Definition peek_tag (r : DerReader) : option Z := dr_buf r !! dr_pos r.

Definition read_sequence : der Asn1Error DerReader :=
  let& value := read_tagged tag_SEQUENCE in der_ret (DerReader_new value).

Definition read_set : der Asn1Error DerReader :=
  let& value := read_tagged tag_SET in der_ret (DerReader_new value).

Definition read_integer_bytes : der Asn1Error bytes := read_tagged tag_INTEGER.

Definition read_u64 : der Asn1Error Z :=
  let& bytes := read_integer_bytes in
  match bytes with
  | [] => der_fail (InvalidValue "empty INTEGER")
  | b0 :: rest =>
      if negb (Z.land b0 0x80 =? 0) then der_fail (InvalidValue "negative INTEGER")
      else
        let significant := if (1 <? length bytes)%nat && (b0 =? 0) then rest else bytes in
        if (8 <? length significant)%nat then der_fail (InvalidValue "INTEGER > u64")
        else der_ret (foldl (fun out b => Z.lor (wrap 64 (Z.shiftl out 8)) b) 0 significant)
  end.

Definition read_oid : der Asn1Error bytes := read_tagged tag_OID.

Definition read_bit_string : der Asn1Error bytes :=
  let& body := read_tagged tag_BIT_STRING in
  match body with
  | [] => der_fail (InvalidValue "empty BIT STRING")
  | b0 :: rest => if negb (b0 =? 0) then der_fail UnsupportedBitString else der_ret rest
  end.

Definition read_octet_string : der Asn1Error bytes := read_tagged tag_OCTET_STRING.

Definition read_null : der Asn1Error () :=
  let& value := read_tagged tag_NULL in
  match value with
  | [] => der_ret ()
  | _ => der_fail (InvalidValue "NULL with non-empty value")
  end.

Definition read_bool : der Asn1Error bool :=
  let& body := read_tagged tag_BOOLEAN in
  match body with
  | [b] => if b =? 0x00 then der_ret false
           else if b =? 0xFF then der_ret true
           else der_fail (InvalidValue "BOOLEAN non-DER value")
  | _ => der_fail (InvalidValue "BOOLEAN length != 1")
  end.

Definition skip_one : der Asn1Error () := let& _ := read_tlv in der_ret ().

Definition maybe_tagged (expected : Z) : der Asn1Error (option bytes) := fun r =>
  match peek_tag r with
  | Some t => if t =? expected then (let& v := read_tagged expected in der_ret (Some v)) r else (r, Ret None)
  | None => (r, Ret None)
  end.

(** [while !r.is_empty() { r.skip_one()? }]; each turn consumes a byte. *)
Fixpoint skip_all (fuel : nat) : der Asn1Error () := fun r =>
  match fuel with
  | O => (r, Panic)
  | S fuel => if is_empty r then (r, Ret ()) else (let& _ := skip_one in skip_all fuel) r
  end.

(** ** The encoding the reader inverts (X.690, definite form, minimal length) *)

Definition der_length (n : nat) : bytes :=
  let z := Z.of_nat n in
  if z <? 0x80 then [z]
  else if z <? 0x100 then 0x81 :: to_be_bytes 1 z
  else if z <? 0x10000 then 0x82 :: to_be_bytes 2 z
  else if z <? 0x1000000 then 0x83 :: to_be_bytes 3 z
  else 0x84 :: to_be_bytes 4 z.

Definition tlv (tag : Z) (value : bytes) : bytes := tag :: der_length (length value) ++ value.

(** A single-byte tag. *)
Definition short_tag (t : Z) : Prop := byte_ok t ∧ Z.land t 0x1F ≠ 0x1F.

#[export] Instance short_tag_dec t : Decision (short_tag t).
Proof. unfold short_tag. apply _. Defined.

(** ** Safety: no reader operation panics, whatever the bytes

    [reader_ok] is the representation invariant; [safe] says an operation keeps
    it and the buffer, never moves back before where a successful read started,
    and does not panic. *)

Definition reader_ok (r : DerReader) : Prop :=
  (dr_pos r <= length (dr_buf r))%nat ∧ Forall byte_ok (dr_buf r).

Definition safe {E A} (P : A → Prop) (m : der E A) : Prop :=
  ∀ r, reader_ok r →
    reader_ok (m r).1 ∧ dr_buf (m r).1 = dr_buf r ∧
    match (m r).2 with
    | Ret a => (dr_pos r <= dr_pos (m r).1)%nat ∧ P a
    | Fail _ => True
    | Panic => False
    end.

Lemma reader_ok_new buf : Forall byte_ok buf → reader_ok (DerReader_new buf).
Proof. intros H. split; [cbn; lia|done]. Qed.

Lemma safe_ret {E A} (P : A → Prop) (a : A) : P a → safe P (der_ret (E := E) a).
Proof. intros Ha r Hr. by split_and!. Qed.

Lemma safe_fail {E A} (P : A → Prop) (e : E) : safe P (der_fail (A := A) e).
Proof. intros r Hr. by split_and!. Qed.

Lemma safe_bind {E A B} (P : A → Prop) (Q : B → Prop) (m : der E A) (k : A → der E B) :
  safe P m → (∀ a, P a → safe Q (k a)) → safe Q (der_bind m k).
Proof.
  intros Hm Hk r Hr. destruct (Hm r Hr) as (H1 & H2 & H3). unfold der_bind.
  destruct (m r) as [r' [a|e|]]; cbn in *; [|done|done]. destruct H3 as [Hle Ha].
  destruct (Hk a Ha r' H1) as (G1 & G2 & G3). split_and!; [done|congruence|].
  destruct (k a r').2; [|done|done]. destruct G3. split; [lia|done].
Qed.

Lemma safe_from {E F A} (P : A → Prop) (conv : E → F) (m : der E A) : safe P m → safe P (der_from conv m).
Proof.
  intros Hm r Hr. specialize (Hm r Hr). unfold der_from. by destruct (m r) as [r' []].
Qed.

Lemma safe_weaken {E A} (P Q : A → Prop) (m : der E A) : safe P m → (∀ a, P a → Q a) → safe Q m.
Proof.
  intros Hm HPQ r Hr. destruct (Hm r Hr) as (H1 & H2 & H3). split_and!; [done..|].
  destruct (m r).2; [|done|done]. destruct H3. split; [done|by apply HPQ].
Qed.

Lemma safe_if {E A} (P : A → Prop) (b : bool) (m n : der E A) : safe P m → safe P n → safe P (if b then m else n).
Proof. by destruct b. Qed.

Lemma advance_ok n r : (dr_pos r + n <= length (dr_buf r))%nat → reader_ok r → reader_ok (advance n r).
Proof. intros H [_ Hb]. by split. Qed.

Lemma read_byte_safe : safe byte_ok read_byte.
Proof.
  intros r Hr. unfold read_byte. destruct (dr_buf r !! dr_pos r) as [b|] eqn:E; cbn; [|by split_and!].
  pose proof (lookup_lt_Some _ _ _ E). split_and!; [by apply advance_ok; [lia|]|done|cbn; lia|].
  destruct Hr as [_ Hb]. by eapply Forall_lookup_1.
Qed.

Lemma shl8_lor_nonneg out b : 0 <= b → 0 <= Z.lor (wrap 64 (Z.shiftl out 8)) b.
Proof. intros Hb. apply Z.lor_nonneg. split; [|done]. by apply wrap_range. Qed.

Lemma read_length_bytes_safe n len : 0 <= len → safe (fun l => 0 <= l) (read_length_bytes n len).
Proof.
  revert len. induction n as [|n IH]; intros len Hl; cbn [read_length_bytes]; [by apply safe_ret|].
  eapply safe_bind; [exact read_byte_safe|]. intros b [Hb _]. by apply IH, shl8_lor_nonneg.
Qed.

Lemma read_length_safe : safe (fun l => 0 <= l) read_length.
Proof.
  eapply safe_bind; [exact read_byte_safe|]. intros b [Hb _].
  repeat (apply safe_if; [apply safe_ret || apply safe_fail; done|]).
  by apply read_length_bytes_safe.
Qed.

(** [pos] counts past both header bytes. *)
Lemma read_byte_pos r r' b : read_byte r = (r', Ret b) → dr_pos r' = S (dr_pos r).
Proof. unfold read_byte. destruct (dr_buf r !! dr_pos r); intros; simplify_eq. cbn. lia. Qed.

Definition value_ok (x : Z * bytes) : Prop := Forall byte_ok x.2.

Lemma read_tlv_safe : safe value_ok read_tlv.
Proof.
  intros r Hr. unfold read_tlv, der_bind. pose proof (read_byte_safe r Hr) as (H1 & H2 & H3).
  destruct (read_byte r) as [r1 [t|e|]] eqn:E1; cbn in *; [|by split_and!|by split_and!]. destruct H3 as [Hle1 _].
  destruct (Z.land t 0x1F =? 0x1F); [by split_and!|].
  pose proof (read_length_safe r1 H1) as (G1 & G2 & G3).
  destruct (read_length r1) as [r2 [l|e|]]; cbn in *; [|by split_and!; [|congruence|]|done]. destruct G3 as [Hle2 Hl].
  destruct G1 as [Gp Gb]. destruct (Z.ltb_spec (Z.of_nat (length (dr_buf r2))) (Z.of_nat (dr_pos r2) + l)); cbn.
  { split_and!; [split; cbn; [|done]; rewrite G2, H2; destruct Hr; lia|congruence|done]. }
  unfold slice_checked. rewrite (proj2 (Nat.leb_le _ _)), (proj2 (Nat.leb_le _ _)) by lia. cbn.
  split_and!; [split; cbn; [lia|done]|congruence|lia|]. unfold value_ok, slice. cbn. by apply Forall_take, Forall_drop.
Qed.

Lemma read_tagged_safe t : safe (Forall byte_ok) (read_tagged t).
Proof.
  intros r Hr. unfold read_tagged, der_bind. pose proof (read_tlv_safe r Hr) as (H1 & H2 & H3).
  destruct (read_tlv r) as [r1 [[tg v]|e|]]; cbn in *; [|done|done]. destruct H3 as [Hle Hv].
  destruct (tg =? t); cbn; [by split_and!|]. split_and!; [|done|done].
  split; cbn; [rewrite H2; by destruct Hr|by destruct H1].
Qed.

Lemma read_sequence_safe : safe reader_ok read_sequence.
Proof. eapply safe_bind; [apply read_tagged_safe|]. intros v Hv. by apply safe_ret, reader_ok_new. Qed.

Lemma read_set_safe : safe reader_ok read_set.
Proof. eapply safe_bind; [apply read_tagged_safe|]. intros v Hv. by apply safe_ret, reader_ok_new. Qed.

Lemma foldl_shl8_nonneg (l : bytes) out :
  0 <= out → Forall byte_ok l → 0 <= foldl (fun out b => Z.lor (wrap 64 (Z.shiftl out 8)) b) out l.
Proof.
  revert out. induction l as [|b l IH]; intros out Ho Hl; cbn; [done|].
  apply Forall_cons in Hl as [[Hb _] Hl]. by apply IH; [apply shl8_lor_nonneg|].
Qed.

Lemma read_u64_safe : safe (fun v => 0 <= v) read_u64.
Proof.
  eapply safe_bind; [apply read_tagged_safe|]. intros [|b l] Hv; [apply safe_fail|].
  apply safe_if; [apply safe_fail|]. cbv zeta. apply safe_if; [apply safe_fail|]. apply safe_ret.
  apply foldl_shl8_nonneg; [done|]. destruct (_ && _); [by apply Forall_cons in Hv as [_ ?]|done].
Qed.

Lemma read_bit_string_safe : safe (Forall byte_ok) read_bit_string.
Proof.
  eapply safe_bind; [apply read_tagged_safe|]. intros [|b l] Hv; [apply safe_fail|].
  apply safe_if; [apply safe_fail|]. apply Forall_cons in Hv as [_ Hv]. by apply safe_ret.
Qed.

Lemma maybe_tagged_safe t : safe (fun o => ∀ v, o = Some v → Forall byte_ok v) (maybe_tagged t).
Proof.
  intros r Hr. unfold maybe_tagged.
  assert (safe (fun o => ∀ v, o = Some v → Forall byte_ok v)
            (let& v := read_tagged t in der_ret (E := Asn1Error) (Some v))) as Hs.
  { eapply safe_bind; [apply read_tagged_safe|]. intros v Hv. apply safe_ret. by intros ? [= <-]. }
  destruct (peek_tag r) as [t'|]; [destruct (t' =? t); [by apply Hs|]|]; by split_and!.
Qed.

(** A successful read moves on by at least one byte. *)
Lemma read_tlv_progress r r' x : reader_ok r → read_tlv r = (r', Ret x) → (dr_pos r < dr_pos r')%nat.
Proof.
  intros Hr. unfold read_tlv, der_bind. pose proof (read_byte_safe r Hr) as (H1 & _ & _).
  destruct (read_byte r) as [r1 [t|e|]] eqn:E1; cbn in *; [|done|done]. apply read_byte_pos in E1.
  destruct (Z.land t 0x1F =? 0x1F); [done|].
  pose proof (read_length_safe r1 H1) as (G1 & G2 & G3).
  destruct (read_length r1) as [r2 [l|e|]]; cbn in *; [|done|done].
  destruct (_ <? _); [done|]. destruct (slice_checked _ _ _); intros; simplify_eq; cbn. lia.
Qed.

Lemma skip_all_safe fuel r : reader_ok r → (length (dr_buf r) - dr_pos r < fuel)%nat →
  reader_ok (skip_all fuel r).1 ∧ (skip_all fuel r).2 ≠ Panic.
Proof.
  revert r. induction fuel as [|fuel IH]; intros r Hr Hf; [lia|]. cbn [skip_all].
  destruct (is_empty r) eqn:Ee; [done|]. apply Nat.leb_gt in Ee.
  unfold skip_one, der_bind. pose proof (read_tlv_safe r Hr) as (H1 & H2 & H3).
  destruct (read_tlv r) as [r' [x|e|]] eqn:E; cbn in *; [|done|done].
  apply read_tlv_progress in E; [|done]. apply IH; [done|]. rewrite H2. lia.
Qed.

(** A read on an owned reader: it stays well formed and only moves on. *)
Lemma holds_run {A B E} (P : A → Prop) (Q : B → Prop) (m : der E A) (k : DerReader → A → outcome B E) r :
  safe P m → reader_ok r →
  (∀ r' a, m r = (r', Ret a) → reader_ok r' → dr_buf r' = dr_buf r → (dr_pos r <= dr_pos r')%nat → P a → holds Q (k r' a)) →
  holds Q (der_run (m r) k).
Proof.
  intros Hm Hr Hk. destruct (Hm r Hr) as (H1 & H2 & H3). unfold der_run.
  destruct (m r) as [r' [a|e|]] eqn:E'; cbn in *; [|done|done]. destruct H3. by apply Hk.
Qed.

(** ** Reading back an encoding

    [rest r] is what the reader has left; the reads below rewrite a reader whose
    rest starts with an encoding. *)

Definition rest (r : DerReader) : bytes := drop (dr_pos r) (dr_buf r).

Lemma rest_new buf : rest (DerReader_new buf) = buf.
Proof. done. Qed.

Lemma rest_advance n r : rest (advance n r) = drop n (rest r).
Proof. unfold rest, advance. cbn. by rewrite drop_drop. Qed.

Lemma rest_lookup r : dr_buf r !! dr_pos r = head (rest r).
Proof. unfold rest. rewrite head_lookup, lookup_drop. f_equal. lia. Qed.

Lemma rest_cons_pos r b l : rest r = b :: l → (dr_pos r < length (dr_buf r))%nat.
Proof. intros H. apply (f_equal length) in H. unfold rest in H. rewrite length_drop in H. cbn in H. lia. Qed.

Lemma advance_advance m n r : advance n (advance m r) = advance (m + n) r.
Proof. unfold advance. cbn. f_equal. lia. Qed.

Lemma advance_0 r : advance 0 r = r.
Proof. destruct r. unfold advance. cbn. f_equal. lia. Qed.

Lemma rest_advance_app r a b : rest r = a ++ b → rest (advance (length a) r) = b.
Proof. intros H. by rewrite rest_advance, H, drop_app_length. Qed.

Lemma read_byte_cons r b l : rest r = b :: l → read_byte r = (advance 1 r, Ret b).
Proof. intros H. unfold read_byte. by rewrite rest_lookup, H. Qed.

Lemma shl8_lor len b : 0 <= len < 2 ^ 56 → byte_ok b → Z.lor (wrap 64 (Z.shiftl len 8)) b = len * 256 + b.
Proof.
  intros Hl [Hb1 Hb2]. change (2 ^ 56) with 72057594037927936 in Hl. change (2 ^ 8) with 256 in Hb2.
  rewrite Z.shiftl_mul_pow2 by lia. change (2 ^ 8) with 256. rewrite wrap_small by zlia.
  rewrite <- Z.add_lor_land. replace (Z.land (len * 256) b) with 0; [lia|].
  symmetry. apply Z.bits_inj'. intros i Hi. rewrite Z.land_spec, Z.bits_0.
  change 256 with (2 ^ 8). rewrite <- Z.shiftl_mul_pow2, Z.shiftl_spec by lia.
  destruct (Z.lt_ge_cases i 8); [by rewrite Z.testbit_neg_r by lia|].
  rewrite (in_width_testbit 8 b); [by rewrite andb_false_r|lia|unfold in_width; change (2 ^ 8) with 256; lia|lia].
Qed.

Lemma read_length_bytes_app bs : ∀ len r l,
  rest r = bs ++ l → Forall byte_ok bs → (length bs <= 4)%nat → 0 <= len < 2 ^ (32 - 8 * Z.of_nat (length bs)) →
  read_length_bytes (length bs) len r =
    (advance (length bs) r, Ret (foldl (fun acc b => acc * 256 + b) len bs)).
Proof.
  induction bs as [|b bs IH]; intros len r l Hr Hb Hn Hlen; cbn [length read_length_bytes foldl].
  { by rewrite advance_0. }
  apply Forall_cons in Hb as [Hb Hbs]. unfold der_bind. rewrite (read_byte_cons r b (bs ++ l)) by done.
  cbn [length] in *.
  assert (len < 2 ^ 32) by (eapply Z.lt_le_trans; [apply Hlen|apply Z.pow_le_mono_r; lia]).
  rewrite shl8_lor; [|change (2 ^ 56) with 72057594037927936; zlia|done].
  rewrite (IH _ _ l); [by rewrite advance_advance|by rewrite rest_advance, Hr|done|lia|].
  replace (32 - 8 * Z.of_nat (length bs)) with (8 + (32 - 8 * Z.of_nat (S (length bs)))) by lia.
  rewrite Z.pow_add_r by lia. unfold in_width in Hb. change (2 ^ 8) with 256 in *. nia.
Qed.

(** The long form with [n] length bytes. *)
Lemma read_length_long r first n z l :
  rest r = first :: to_be_bytes n z ++ l → (1 <= n <= 4)%nat → first = 0x80 + Z.of_nat n →
  in_width (8 * Z.of_nat n) z →
  read_length r = (advance (S n) r, Ret z).
Proof.
  intros Hr Hn -> Hz. unfold read_length, der_bind. rewrite (read_byte_cons _ _ _ Hr).
  assert (Z.land (0x80 + Z.of_nat n) 0x7F = Z.of_nat n) as ->.
  { assert (n = 1 ∨ n = 2 ∨ n = 3 ∨ n = 4)%nat as [-> | [-> | [-> | ->]]] by lia; done. }
  rewrite (proj2 (Z.ltb_ge _ _)), (proj2 (Z.eqb_neq _ _)), (proj2 (Z.eqb_neq _ _)), (proj2 (Z.ltb_ge _ _)) by lia.
  cbn [orb]. rewrite Nat2Z.id. pose proof (length_to_be_bytes n z) as Hl.
  pose proof (read_length_bytes_app (to_be_bytes n z) 0 (advance 1 r) l) as H. rewrite Hl in H. rewrite H.
  - rewrite advance_advance. f_equal. f_equal. by apply from_to_be_bytes.
  - by rewrite rest_advance, Hr.
  - apply to_be_bytes_ok.
  - lia.
  - split; [done|]. apply Z.pow_pos_nonneg; lia.
Qed.

Lemma read_length_der n r l : rest r = der_length n ++ l → Z.of_nat n < 2 ^ 32 →
  read_length r = (advance (length (der_length n)) r, Ret (Z.of_nat n)).
Proof.
  unfold der_length. intros Hr Hn. change (2 ^ 32) with 4294967296 in Hn.
  destruct (Z.ltb_spec (Z.of_nat n) 0x80) as [H1|H1].
  { unfold read_length, der_bind. rewrite (read_byte_cons _ _ _ Hr). by rewrite (proj2 (Z.ltb_lt _ _)). }
  split_ifs; (eapply read_length_long in Hr; [|lia|done|zlia]); rewrite Hr; cbn [length];
    by rewrite length_to_be_bytes.
Qed.

(** The DER encoding of a value is read back, from any place in any buffer. *)
Lemma read_tlv_tlv t v r l : rest r = tlv t v ++ l → short_tag t → Z.of_nat (length v) < 2 ^ 32 →
  read_tlv r = (advance (length (tlv t v)) r, Ret (t, v)).
Proof.
  unfold tlv. intros Hr [_ Ht] Hv. unfold read_tlv, der_bind. rewrite (read_byte_cons _ _ _ Hr).
  rewrite (proj2 (Z.eqb_neq _ _)) by done.
  assert (rest (advance 1 r) = der_length (length v) ++ v ++ l) as Hr1.
  { rewrite rest_advance, Hr. cbn [app]. by rewrite <- app_assoc. }
  rewrite (read_length_der _ _ _ Hr1) by done. set (r2 := advance _ (advance 1 r)).
  assert (rest r2 = v ++ l) as Hr2 by (by apply rest_advance_app).
  pose proof (f_equal length Hr2) as Hl. unfold rest in Hl. rewrite length_drop, length_app in Hl.
  pose proof (rest_cons_pos _ _ _ Hr) as Hp.
  assert (dr_pos r2 <= length (dr_buf r2))%nat as Hle.
  { pose proof (f_equal length Hr1) as Hl1. unfold rest in Hl1. rewrite length_drop, !length_app in Hl1.
    unfold r2. cbn in Hl1 |- *. lia. }
  rewrite (proj2 (Z.ltb_ge _ _)) by lia. rewrite Nat2Z.id. unfold slice_checked.
  rewrite (proj2 (Nat.leb_le _ _)), (proj2 (Nat.leb_le _ _)) by lia. cbn [andb]. unfold slice.
  replace (drop (dr_pos r2) (dr_buf r2)) with (v ++ l) by done.
  replace (dr_pos r2 + length v - dr_pos r2)%nat with (length v) by lia. rewrite take_app_length.
  unfold r2. rewrite !advance_advance. f_equal. f_equal. cbn [length]. rewrite length_app. lia.
Qed.

Lemma read_tagged_tlv t v r l : rest r = tlv t v ++ l → short_tag t → Z.of_nat (length v) < 2 ^ 32 →
  read_tagged t r = (advance (length (tlv t v)) r, Ret v).
Proof.
  intros. unfold read_tagged, der_bind. rewrite (read_tlv_tlv t v r l) by done. by rewrite Z.eqb_refl.
Qed.

Lemma read_sequence_tlv v r l : rest r = tlv tag_SEQUENCE v ++ l → Z.of_nat (length v) < 2 ^ 32 →
  read_sequence r = (advance (length (tlv tag_SEQUENCE v)) r, Ret (DerReader_new v)).
Proof.
  intros. unfold read_sequence, der_bind. by rewrite (read_tagged_tlv _ v r l) by (done || by split).
Qed.

Lemma read_bit_string_tlv v r l : rest r = tlv tag_BIT_STRING (0 :: v) ++ l → Z.of_nat (S (length v)) < 2 ^ 32 →
  read_bit_string r = (advance (length (tlv tag_BIT_STRING (0 :: v))) r, Ret v).
Proof.
  intros. unfold read_bit_string, der_bind. by rewrite (read_tagged_tlv _ (0 :: v) r l) by (done || by split).
Qed.

Lemma peek_tag_tlv t v r l : rest r = tlv t v ++ l → peek_tag r = Some t.
Proof. intros H. unfold peek_tag. by rewrite rest_lookup, H. Qed.

Lemma is_empty_rest r : is_empty r = bool_decide (rest r = []).
Proof.
  unfold is_empty. destruct (Nat.leb_spec (length (dr_buf r)) (dr_pos r)).
  - rewrite bool_decide_true; [done|]. unfold rest. by apply drop_ge.
  - rewrite bool_decide_false; [done|]. unfold rest. intros Hd. apply (f_equal length) in Hd.
    rewrite length_drop in Hd. cbn in Hd. lia.
Qed.

Lemma remaining_rest r : (dr_pos r <= length (dr_buf r))%nat → remaining r = Some (rest r).
Proof.
  intros H. unfold remaining, slice_checked. rewrite (proj2 (Nat.leb_le _ _)), Nat.leb_refl by done. cbn.
  unfold slice, rest. by rewrite take_ge by (rewrite length_drop; done).
Qed.

(** A sequence of encodings is skipped to the end. *)
Definition tlvs (l : list (Z * bytes)) : bytes := l ≫= (fun x => tlv x.1 x.2).

Definition tlv_ok (x : Z * bytes) : Prop := short_tag x.1 ∧ Z.of_nat (length x.2) < 2 ^ 32.

Lemma tlvs_cons x l : tlvs (x :: l) = tlv x.1 x.2 ++ tlvs l.
Proof. done. Qed.

Lemma length_tlv t v : (2 <= length (tlv t v))%nat.
Proof. unfold tlv, der_length. cbn [length]. rewrite length_app. split_ifs; cbn [length]; lia. Qed.

Lemma skip_all_tlvs (xs : list (Z * bytes)) fuel r : rest r = tlvs xs → Forall tlv_ok xs → (length xs < fuel)%nat →
  skip_all fuel r = (advance (length (tlvs xs)) r, Ret ()).
Proof.
  revert fuel r. induction xs as [|[t v] xs IH]; intros [|fuel] r Hr Hok Hf; cbn [length] in *; try lia; cbn [skip_all];
    rewrite is_empty_rest, Hr.
  - rewrite bool_decide_true by done. cbn. by rewrite advance_0.
  - rewrite bool_decide_false by done. apply Forall_cons in Hok as [[Ht Hv] Hok]. rewrite tlvs_cons in *.
    unfold skip_one, der_bind. rewrite (read_tlv_tlv t v r (tlvs xs)) by done. cbn [der_ret].
    rewrite IH; [|by apply rest_advance_app|done|lia]. by rewrite advance_advance, length_app.
Qed.

Lemma length_tlvs xs : (2 * length xs <= length (tlvs xs))%nat.
Proof.
  induction xs as [|[t v] xs IH]; [done|]. rewrite tlvs_cons, length_app. cbn [length fst snd].
  pose proof (length_tlv t v). lia.
Qed.

(** Every DER value is read back exactly: the reader returns the tag and the
    bytes that were encoded and stops right behind them, wherever in the buffer
    the encoding stands. *)
Theorem der_value_roundtrip pre t v post :
  short_tag t → Z.of_nat (length v) < 2 ^ 32 →
  read_tlv (mkReader (pre ++ tlv t v ++ post) (length pre)) =
    (mkReader (pre ++ tlv t v ++ post) (length pre + length (tlv t v)), Ret (t, v)).
Proof.
  intros Ht Hv. erewrite read_tlv_tlv; [done| |done|done]. unfold rest. cbn. by rewrite drop_app_length.
Qed.

Lemma der_value_roundtrip_witness :
  read_tlv (mkReader ([1; 2] ++ tlv tag_SEQUENCE (replicate 200 7) ++ [9]) 2) =
    (mkReader ([1; 2] ++ tlv tag_SEQUENCE (replicate 200 7) ++ [9]) (2 + length (tlv tag_SEQUENCE (replicate 200 7))),
     Ret (tag_SEQUENCE, replicate 200 7)).
Proof. apply (der_value_roundtrip [1; 2] tag_SEQUENCE (replicate 200 7) [9]); [by split|reflexivity]. Defined.

(** The reader also accepts lengths that are not minimal, which DER forbids. *)
Example non_minimal_length_accepted :
  (read_tlv (DerReader_new [tag_INTEGER; 0x82; 0; 1; 5])).2 = Ret (tag_INTEGER, [5]).
Proof. reflexivity. Qed.
