(* ===== verification/X509.v ===== *)
(** * X.509 certificates and revocation lists ([auth/x509.rs], [auth/crl.rs])

    The certificate and CRL parsers on top of the DER reader, the validity
    times, the calendar arithmetic and the signature checks.  The verification
    primitives of the ring crate are the class [RingSignature]. *)

From stdpp Require Import base numbers list strings.
From Stdlib Require Import ZArith Lia.
From S2P Require Import Prelude Asn1 Str.

(** ** Signatures ([desmos-proto crypto/verify.rs]) *)

Inductive SignatureAlgorithm := EcdsaP256Sha256 | EcdsaP384Sha384 | RsaPkcs1Sha256 | Ed25519.

#[export] Instance SignatureAlgorithm_eq_dec : EqDecision SignatureAlgorithm.
Proof. solve_decision. Defined.

Inductive VerifyError := VerifyUnsupportedAlgorithm | VerifyInvalid.

(** ring's [UnparsedPublicKey::verify]: algorithm, key, message, signature. *)
Class RingSignature := ring_verify : SignatureAlgorithm → bytes → bytes → bytes → bool.

Definition verify `{RingSignature} (alg : SignatureAlgorithm) (public_key message signature_bytes : bytes)
  : result () VerifyError :=
  if ring_verify alg public_key message signature_bytes then Ok () else Err VerifyInvalid.

(** ** Errors and data *)

Inductive X509Error :=
| X509Asn1 (e : Asn1Error)
| X509AlgorithmMismatch
| X509UnsupportedAlgorithm
| X509UnsupportedVersion
| X509InvalidTime
| X509InvalidValidityOrder
| X509SignatureInvalid.

#[export] Instance X509Error_eq_dec : EqDecision X509Error.
Proof. solve_decision. Defined.

Inductive Version := V1 | V2 | V3.

Record Certificate := mkCertificate {
  c_version : Version;
  c_raw_tbs : bytes;
  c_serial : bytes;
  c_issuer_raw : bytes;
  c_subject_raw : bytes;
  c_not_before : Z;
  c_not_after : Z;
  c_spki_algorithm_oid : bytes;
  c_spki_key_bytes : bytes;
  c_raw_spki : bytes;
  c_signature_algorithm : SignatureAlgorithm;
  c_signature_value : bytes }.

Definition OID_COMMON_NAME : bytes := [0x55; 0x04; 0x03].
Definition OID_ECDSA_WITH_SHA256 : bytes := [0x2A; 0x86; 0x48; 0xCE; 0x3D; 0x04; 0x03; 0x02].
Definition OID_ECDSA_WITH_SHA384 : bytes := [0x2A; 0x86; 0x48; 0xCE; 0x3D; 0x04; 0x03; 0x03].
Definition OID_RSA_SHA256 : bytes := [0x2A; 0x86; 0x48; 0x86; 0xF7; 0x0D; 0x01; 0x01; 0x0B].
Definition OID_ED25519 : bytes := [0x2B; 0x65; 0x70].

Definition oid_to_signature_algorithm (oid : bytes) : option SignatureAlgorithm :=
  if bool_decide (oid = OID_ECDSA_WITH_SHA256) then Some EcdsaP256Sha256
  else if bool_decide (oid = OID_ECDSA_WITH_SHA384) then Some EcdsaP384Sha384
  else if bool_decide (oid = OID_RSA_SHA256) then Some RsaPkcs1Sha256
  else if bool_decide (oid = OID_ED25519) then Some Ed25519
  else None.

(** ** Validity times *)

Definition is_ascii_digit (b : Z) : bool := (48 <=? b) && (b <=? 57).

(** [out * 10 + (b - b'0')] on [u32]; at most four digits are ever passed. *)
Fixpoint parse_u32_from (out : Z) (digits : bytes) : result Z X509Error :=
  match digits with
  | [] => Ok out
  | b :: digits => if negb (is_ascii_digit b) then Err X509InvalidTime
                   else parse_u32_from (out * 10 + (b - 48)) digits
  end.
Definition parse_u32 (digits : bytes) : result Z X509Error := parse_u32_from 0 digits.

(** Howard Hinnant's algorithm.  [y] is an [i32], whose division truncates. *)
Definition days_from_civil (y m d : Z) : Z :=
  let y := if m <=? 2 then y - 1 else y in
  let era := Z.quot (if 0 <=? y then y else y - 399) 400 in
  let yoe := y - era * 400 in
  let m_shifted := if 2 <? m then m - 3 else m + 9 in
  let doy := (153 * m_shifted + 2) / 5 + d - 1 in
  let doe := yoe * 365 + yoe / 4 - yoe / 100 + doy in
  era * 146097 + doe - 719468.

Definition gregorian_to_unix (year month day hour minute second : Z) : result Z X509Error :=
  if negb ((1 <=? month) && (month <=? 12)) || negb ((1 <=? day) && (day <=? 31))
     || (24 <=? hour) || (60 <=? minute) || (60 <=? second)
  then Err X509InvalidTime
  else
    let days := days_from_civil year month day in
    if days <? 0 then Err X509InvalidTime
    else Ok (days * 86400 + hour * 3600 + minute * 60 + second).

Definition parse_utc_time (bs : bytes) : result Z X509Error :=
  if negb (length bs =? 13)%nat || negb (bool_decide (last bs = Some 90)) then Err X509InvalidTime
  else
    let digits := take 12 bs in
    if negb (forallb is_ascii_digit digits) then Err X509InvalidTime
    else
      let? yy := parse_u32 (slice 0 2 digits) in
      let year := if yy <? 50 then 2000 + yy else 1900 + yy in
      let? month := parse_u32 (slice 2 4 digits) in
      let? day := parse_u32 (slice 4 6 digits) in
      let? hour := parse_u32 (slice 6 8 digits) in
      let? minute := parse_u32 (slice 8 10 digits) in
      let? second := parse_u32 (slice 10 12 digits) in
      gregorian_to_unix year month day hour minute second.

Definition parse_generalized_time (bs : bytes) : result Z X509Error :=
  if negb (length bs =? 15)%nat || negb (bool_decide (last bs = Some 90)) then Err X509InvalidTime
  else
    let digits := take 14 bs in
    if negb (forallb is_ascii_digit digits) then Err X509InvalidTime
    else
      let? year := parse_u32 (slice 0 4 digits) in
      let? month := parse_u32 (slice 4 6 digits) in
      let? day := parse_u32 (slice 6 8 digits) in
      let? hour := parse_u32 (slice 8 10 digits) in
      let? minute := parse_u32 (slice 10 12 digits) in
      let? second := parse_u32 (slice 12 14 digits) in
      gregorian_to_unix year month day hour minute second.

Definition lift_result {A E} (r : result A E) : der E A :=
  match r with Ok a => der_ret a | Err e => der_fail e end.

Definition read_time : der X509Error Z :=
  let& (tag_byte, value) := der_from X509Asn1 read_tlv in
  if tag_byte =? tag_UTC_TIME then lift_result (parse_utc_time value)
  else if tag_byte =? tag_GENERALIZED_TIME then lift_result (parse_generalized_time value)
  else der_fail X509InvalidTime.

(** ** The certificate *)

(** The identifier and its parameters, [ai.remaining()]. *)
Definition read_algorithm_identifier : der X509Error (bytes * bytes) := fun r =>
  match der_from X509Asn1 read_sequence r with
  | (r, Ret ai) =>
      (r, let@ (ai, oid) := der_from X509Asn1 read_oid ai in
          if is_empty ai then Ret (oid, []) else
          let% params := out_panics (remaining ai) in Ret (oid, params))
  | (r, Fail e) => (r, Fail e)
  | (r, Panic) => (r, Panic)
  end.

Definition der_header_len (len : nat) : nat :=
  let l := Z.of_nat len in
  1 + (if l <? 0x80 then 1 else if l <? 0x100 then 2 else if l <? 0x10000 then 3
       else if l <? 0x1000000 then 4 else 5).

(** [version \[0\] EXPLICIT], absent for v1. *)
Definition version_of (inner : option bytes) : outcome Version X509Error :=
  match inner with
  | None => Ret V1
  | Some inner =>
      let@ (_r, v) := der_from X509Asn1 read_u64 (DerReader_new inner) in
      if v =? 0 then Ret V1 else if v =? 1 then Ret V2 else if v =? 2 then Ret V3
      else Fail X509UnsupportedVersion
  end.

(** The prefix of [before] that a read up to [after] consumed. *)
Definition consumed_since (before : bytes) (after : DerReader) : outcome bytes X509Error :=
  let% rem := out_panics (remaining after) in
  let% n := out_panics (usize_sub (length before) (length rem)) in
  out_panics (slice_checked 0 n before).

Definition asn1 {A} (m : der Asn1Error A) : der X509Error A := der_from X509Asn1 m.

Definition Certificate_parse (der : bytes) : outcome Certificate X509Error :=
  let@ (_outer, cert) := asn1 read_sequence (DerReader_new der) in
  let% tbs_start := out_panics (remaining cert) in
  let@ (cert, tbs) := asn1 read_sequence cert in
  let% raw_tbs := consumed_since tbs_start cert in
  let@ (tbs, inner) := asn1 (maybe_tagged (context_tag_explicit 0)) tbs in
  let% version := version_of inner in
  let@ (tbs, serial) := asn1 read_integer_bytes tbs in
  let@ (tbs, (tbs_sig_alg_oid, _)) := read_algorithm_identifier tbs in
  let@ (tbs, issuer_raw) := asn1 (read_tagged tag_SEQUENCE) tbs in
  let@ (tbs, validity) := asn1 read_sequence tbs in
  let@ (validity, not_before) := read_time validity in
  let@ (validity, not_after) := read_time validity in
  if not_after <? not_before then Fail X509InvalidValidityOrder else
  let@ (tbs, subject_raw) := asn1 (read_tagged tag_SEQUENCE) tbs in
  let% spki_start_remaining := out_panics (remaining tbs) in
  let@ (tbs, _spki) := asn1 (read_tagged tag_SEQUENCE) tbs in
  let% raw_spki := consumed_since spki_start_remaining tbs in
  let% n := out_panics (usize_sub (length raw_spki) (length _spki)) in
  let% n := out_panics (usize_sub n (der_header_len (length _spki))) in
  let% reparse := out_panics (slice_checked n (length raw_spki) raw_spki) in
  let@ (_spki_reader, _) := asn1 read_sequence (DerReader_new reparse) in
  let@ (spki, (spki_algorithm_oid, _)) := read_algorithm_identifier (DerReader_new _spki) in
  let@ (spki, spki_key_bytes) := asn1 read_bit_string spki in
  let@ (tbs, _) := asn1 (skip_all (S (length (dr_buf tbs)))) tbs in
  let@ (cert, (outer_sig_alg_oid, _)) := read_algorithm_identifier cert in
  if negb (bool_decide (outer_sig_alg_oid = tbs_sig_alg_oid)) then Fail X509AlgorithmMismatch else
  let% signature_algorithm := out_ok_or (oid_to_signature_algorithm outer_sig_alg_oid) X509UnsupportedAlgorithm in
  let@ (cert, signature_value) := asn1 read_bit_string cert in
  Ret (mkCertificate version raw_tbs serial issuer_raw subject_raw not_before not_after
         spki_algorithm_oid spki_key_bytes raw_spki signature_algorithm signature_value).

(** [while !rdn.is_empty()]: the first [CN] of one RDN ([Ret (Some _)] returns from
    [extract_cn], [Ret None] goes on with the next RDN). *)
Fixpoint extract_cn_rdn (fuel : nat) (rdn : DerReader) : outcome (option (option str)) () :=
  match fuel with
  | O => Panic
  | S fuel =>
      if is_empty rdn then Ret None
      else
        let@ (rdn, atv) := der_from (const ()) read_sequence rdn in
        let@ (atv, oid) := der_from (const ()) read_oid atv in
        let@ (atv, (value_tag, value_bytes)) := der_from (const ()) read_tlv atv in
        if bool_decide (oid = OID_COMMON_NAME) &&
           ((value_tag =? tag_UTF8_STRING) || (value_tag =? tag_PRINTABLE_STRING) || (value_tag =? tag_IA5_STRING))
        then Ret (Some (from_utf8 value_bytes))
        else extract_cn_rdn fuel rdn
  end.

Fixpoint extract_cn_loop (fuel : nat) (outer : DerReader) : outcome (option str) () :=
  match fuel with
  | O => Panic
  | S fuel =>
      if is_empty outer then Ret None
      else
        let@ (outer, rdn) := der_from (const ()) read_set outer in
        let% found := extract_cn_rdn (S (length (dr_buf rdn))) rdn in
        match found with Some cn => Ret cn | None => extract_cn_loop fuel outer end
  end.

(** [.ok()?] makes every failure [None]. *)
Definition extract_cn (name_der : bytes) : panics (option str) :=
  match extract_cn_loop (S (length name_der)) (DerReader_new name_der) with
  | Ret cn => Some cn
  | Fail _ => Some None
  | Panic => None
  end.

Definition subject_cn (c : Certificate) : panics (option str) := extract_cn (c_subject_raw c).
Definition issuer_cn (c : Certificate) : panics (option str) := extract_cn (c_issuer_raw c).

Definition is_valid_at (c : Certificate) (now_unix_s : Z) : bool :=
  (c_not_before c <=? now_unix_s) && (now_unix_s <=? c_not_after c).

Definition Certificate_verify_signed_by `{RingSignature} (c issuer : Certificate) : result () X509Error :=
  result_map_err (const X509SignatureInvalid)
    (verify (c_signature_algorithm c) (c_spki_key_bytes issuer) (c_raw_tbs c) (c_signature_value c)).

(** ** Revocation lists *)

Inductive CrlError :=
| CrlAsn1 (e : Asn1Error)
| CrlAlgorithmMismatch
| CrlUnsupportedAlgorithm
| CrlUnsupportedVersion
| CrlInvalidTime
| CrlSignatureInvalid.

#[export] Instance CrlError_eq_dec : EqDecision CrlError.
Proof. solve_decision. Defined.

Definition crl_from_x509 (e : X509Error) : CrlError :=
  match e with
  | X509Asn1 a => CrlAsn1 a
  | X509InvalidTime => CrlInvalidTime
  | X509UnsupportedAlgorithm => CrlUnsupportedAlgorithm
  | X509AlgorithmMismatch => CrlAlgorithmMismatch
  | X509SignatureInvalid => CrlSignatureInvalid
  | _ => CrlAsn1 (InvalidValue "crl: x509 helper error")
  end.

Record CertificateList := mkCrl {
  l_raw_tbs : bytes;
  l_issuer_raw : bytes;
  l_this_update : Z;
  l_next_update : option Z;
  l_signature_algorithm : SignatureAlgorithm;
  l_signature_value : bytes;
  l_revoked_raw : option bytes }.

Definition crl1 {A} (m : der Asn1Error A) : der CrlError A := der_from CrlAsn1 m.

(** The optional version: when present it must be v2, encoded 1. *)
Definition read_crl_version : der CrlError () := fun r =>
  match peek_tag r with
  | Some t =>
      if t =? tag_INTEGER then
        (let& v := crl1 read_u64 in if negb (v =? 1) then der_fail CrlUnsupportedVersion else der_ret ()) r
      else (r, Ret ())
  | None => (r, Ret ())
  end.

Definition read_next_update : der CrlError (option Z) := fun r =>
  match peek_tag r with
  | Some t =>
      if (t =? tag_UTC_TIME) || (t =? tag_GENERALIZED_TIME)
      then (let& v := der_from crl_from_x509 read_time in der_ret (Some v)) r
      else (r, Ret None)
  | None => (r, Ret None)
  end.

Definition read_revoked : der CrlError (option bytes) := fun r =>
  match peek_tag r with
  | Some t => if t =? tag_SEQUENCE then (let& v := crl1 (read_tagged tag_SEQUENCE) in der_ret (Some v)) r else (r, Ret None)
  | None => (r, Ret None)
  end.

Definition CertificateList_parse (der : bytes) : outcome CertificateList CrlError :=
  let@ (_outer, crl) := crl1 read_sequence (DerReader_new der) in
  let% tbs_start := out_panics (remaining crl) in
  let@ (crl, tbs) := crl1 read_sequence crl in
  let% raw_tbs := out_map_err crl_from_x509 (consumed_since tbs_start crl) in
  let@ (tbs, _) := read_crl_version tbs in
  let@ (tbs, (tbs_sig_alg_oid, _)) := der_from crl_from_x509 read_algorithm_identifier tbs in
  let@ (tbs, issuer_raw) := crl1 (read_tagged tag_SEQUENCE) tbs in
  let@ (tbs, this_update) := der_from crl_from_x509 read_time tbs in
  let@ (tbs, next_update) := read_next_update tbs in
  let@ (tbs, revoked_raw) := read_revoked tbs in
  let@ (tbs, _) := crl1 (skip_all (S (length (dr_buf tbs)))) tbs in
  let@ (crl, (outer_sig_alg_oid, _)) := der_from crl_from_x509 read_algorithm_identifier crl in
  if negb (bool_decide (outer_sig_alg_oid = tbs_sig_alg_oid)) then Fail CrlAlgorithmMismatch else
  let% signature_algorithm := out_ok_or (oid_to_signature_algorithm outer_sig_alg_oid) CrlUnsupportedAlgorithm in
  let@ (crl, signature_value) := crl1 read_bit_string crl in
  Ret (mkCrl raw_tbs issuer_raw this_update next_update signature_algorithm signature_value revoked_raw).

Definition CertificateList_verify_signed_by `{RingSignature} (l : CertificateList) (issuer : Certificate)
  : result () CrlError :=
  result_map_err (const CrlSignatureInvalid)
    (verify (l_signature_algorithm l) (c_spki_key_bytes issuer) (l_raw_tbs l) (l_signature_value l)).

(** The walk over the entries: every parse failure answers [false]. *)
Fixpoint is_revoked_loop (fuel : nat) (serial : bytes) (reader : DerReader) : panics bool :=
  match fuel with
  | O => None
  | S fuel =>
      if is_empty reader then Some false
      else
        match read_sequence reader with
        | (reader, Ret entry) =>
            match read_integer_bytes entry with
            | (_, Ret entry_serial) =>
                if bool_decide (entry_serial = serial) then Some true else is_revoked_loop fuel serial reader
            | (_, Fail _) => Some false
            | (_, Panic) => None
            end
        | (_, Fail _) => Some false
        | (_, Panic) => None
        end
  end.

Definition is_revoked (l : CertificateList) (serial : bytes) : panics bool :=
  match l_revoked_raw l with
  | None => Some false
  | Some raw => is_revoked_loop (S (length raw)) serial (DerReader_new raw)
  end.

(** ** The calendar

    The Gregorian calendar as a successor function on dates, and the [n]-th day
    after 1970-01-01. *)

Record Date := mkDate { year : Z; month : Z; day : Z }.

Definition leap_year (y : Z) : bool := (y mod 4 =? 0) && negb (y mod 100 =? 0) || (y mod 400 =? 0).

Definition days_in_month (y m : Z) : Z :=
  if m =? 2 then (if leap_year y then 29 else 28)
  else if (m =? 4) || (m =? 6) || (m =? 9) || (m =? 11) then 30 else 31.

Definition next_day (t : Date) : Date :=
  if day t <? days_in_month (year t) (month t) then mkDate (year t) (month t) (day t + 1)
  else if month t <? 12 then mkDate (year t) (month t + 1) 1
  else mkDate (year t + 1) 1 1.

Definition epoch_date : Date := mkDate 1970 1 1.

(** The date [n] days after the epoch. *)
Definition civil (n : nat) : Date := Nat.iter n next_day epoch_date.

Definition date_ok (t : Date) : Prop :=
  1970 <= year t ∧ 1 <= month t <= 12 ∧ 1 <= day t <= days_in_month (year t) (month t).

Lemma days_in_month_range y m : 28 <= days_in_month y m <= 31.
Proof. unfold days_in_month. split_ifs; repeat case_match; lia. Qed.

Lemma civil_ok n : date_ok (civil n).
Proof.
  induction n as [|n IH]; [by vm_compute|]. change (civil (S n)) with (next_day (civil n)).
  destruct IH as (Hy & Hm & Hd). unfold next_day, date_ok.
  pose proof (days_in_month_range (year (civil n)) (month (civil n) + 1)).
  pose proof (days_in_month_range (year (civil n) + 1) 1).
  split_ifs; cbn; lia.
Qed.

(** Days before the first of March of year [y], up to a constant. *)
Definition year_days (y : Z) : Z := 365 * y + y / 4 - y / 100 + y / 400.

Lemma days_from_civil_eq y m d : 1 <= y →
  days_from_civil y m d =
    year_days (if m <=? 2 then y - 1 else y) + (153 * (if 2 <? m then m - 3 else m + 9) + 2) / 5 + d - 719469.
Proof.
  intros Hy. unfold days_from_civil, year_days. set (y' := if m <=? 2 then y - 1 else y).
  assert (0 <= y') as Hy' by (unfold y'; split_ifs; lia).
  rewrite (proj2 (Z.leb_le 0 y')), Z.quot_div_nonneg by lia.
  set (q := (153 * _ + 2) / 5). clearbody q y'. Z.to_euclidean_division_equations. lia.
Qed.

Lemma year_days_step y : year_days y = year_days (y - 1) + (if leap_year y then 366 else 365).
Proof.
  unfold year_days, leap_year.
  destruct (Z.eqb_spec (y mod 4) 0), (Z.eqb_spec (y mod 100) 0), (Z.eqb_spec (y mod 400) 0); cbn;
    Z.to_euclidean_division_equations; lia.
Qed.

Lemma month_cases m : 1 <= m <= 12 →
  m = 1 ∨ m = 2 ∨ m = 3 ∨ m = 4 ∨ m = 5 ∨ m = 6 ∨ m = 7 ∨ m = 8 ∨ m = 9 ∨ m = 10 ∨ m = 11 ∨ m = 12.
Proof. lia. Qed.

Lemma days_from_civil_next t : date_ok t →
  days_from_civil (year (next_day t)) (month (next_day t)) (day (next_day t)) =
    days_from_civil (year t) (month t) (day t) + 1.
Proof.
  destruct t as [y m d]. unfold date_ok, next_day. cbn [year month day]. intros (Hy & Hm & Hd).
  destruct (Z.ltb_spec d (days_in_month y m)) as [Hlt|Hge]; cbn [year month day].
  { rewrite !days_from_civil_eq by lia. lia. }
  assert (d = days_in_month y m) as -> by lia. clear Hd Hge. pose proof (year_days_step y) as Hs.
  destruct (month_cases m Hm) as [-> | [-> | [-> | [-> | [-> | [-> | [-> | [-> | [-> | [-> | [-> | ->]]]]]]]]]]];
    (unfold days_in_month; cbn [Z.ltb Z.eqb Z.compare Pos.compare Pos.compare_cont Pos.eqb orb];
     cbn [year month day]; rewrite !days_from_civil_eq by lia; split_ifs; try lia;
     try replace (y + 1 - 1) with y by lia; destruct (leap_year y); Z.to_euclidean_division_equations; lia).
Qed.

(** Hinnant's algorithm counts days: on the [n]-th day after the epoch it
    answers [n]. *)
Lemma days_from_civil_civil n :
  days_from_civil (year (civil n)) (month (civil n)) (day (civil n)) = Z.of_nat n.
Proof.
  induction n as [|n IH]; [reflexivity|]. change (civil (S n)) with (next_day (civil n)).
  rewrite days_from_civil_next, IH by apply civil_ok. lia.
Qed.

(** ** Validity times are read exactly *)

(** [w] decimal digits, in ASCII. *)
Fixpoint dec (w : nat) (n : Z) : bytes :=
  match w with
  | O => []
  | S w => dec w (n / 10) ++ [48 + n mod 10]
  end.

Definition render_generalized (t : Date) (h mi s : Z) : bytes :=
  dec 4 (year t) ++ dec 2 (month t) ++ dec 2 (day t) ++ dec 2 h ++ dec 2 mi ++ dec 2 s ++ [90].

Definition render_utc (t : Date) (h mi s : Z) : bytes :=
  dec 2 (year t mod 100) ++ dec 2 (month t) ++ dec 2 (day t) ++ dec 2 h ++ dec 2 mi ++ dec 2 s ++ [90].

Lemma length_dec w n : length (dec w n) = w.
Proof. revert n. induction w as [|w IH]; intros n; cbn; [done|]. rewrite length_app, IH. cbn. lia. Qed.

Lemma dec_digits w n : Forall (fun b => is_ascii_digit b = true) (dec w n).
Proof.
  revert n. induction w as [|w IH]; intros n; cbn; [constructor|]. apply Forall_app. split; [apply IH|].
  repeat constructor. unfold is_ascii_digit. pose proof (Z.mod_pos_bound n 10). solve_ltb. done.
Qed.

Lemma parse_u32_from_app a b out :
  parse_u32_from out (a ++ b) = let? v := parse_u32_from out a in parse_u32_from v b.
Proof.
  revert out. induction a as [|x a IH]; intros out; [done|]. cbn [app parse_u32_from].
  destruct (is_ascii_digit x); cbn [negb]; [apply IH|done].
Qed.

Lemma parse_u32_dec w n : 0 <= n < 10 ^ Z.of_nat w → parse_u32 (dec w n) = Ok n.
Proof.
  unfold parse_u32. revert n. induction w as [|w IH]; intros n Hn.
  - change (10 ^ Z.of_nat 0) with 1 in Hn. cbn. f_equal. lia.
  - rewrite Nat2Z.inj_succ, Z.pow_succ_r in Hn by lia. cbn [dec]. rewrite parse_u32_from_app, IH.
    + cbn [result_bind parse_u32_from]. unfold is_ascii_digit. divmod n 10. solve_ltb. f_equal. lia.
    + Z.to_euclidean_division_equations. lia.
Qed.

Lemma forallb_digits (l : bytes) : Forall (fun b => is_ascii_digit b = true) l → forallb is_ascii_digit l = true.
Proof. intros H. apply forallb_forall. intros x Hx. by apply (proj1 (List.Forall_forall _ _) H). Qed.

(** The fields of a time string whose year has two or four digits. *)
Lemma time_fields w (y m d h mi s : Z) (dg : bytes) : w = 2%nat ∨ w = 4%nat →
  dg = dec w y ++ dec 2 m ++ dec 2 d ++ dec 2 h ++ dec 2 mi ++ dec 2 s →
  slice 0 w dg = dec w y ∧ slice w (w + 2) dg = dec 2 m ∧ slice (w + 2) (w + 4) dg = dec 2 d ∧
  slice (w + 4) (w + 6) dg = dec 2 h ∧ slice (w + 6) (w + 8) dg = dec 2 mi ∧ slice (w + 8) (w + 10) dg = dec 2 s ∧
  forallb is_ascii_digit dg = true ∧ take (w + 10) (dg ++ [90]) = dg ∧ last (dg ++ [90]) = Some 90 ∧
  length (dg ++ [90]) = (w + 11)%nat.
Proof.
  intros Hw Hdg. assert (forallb is_ascii_digit dg = true) as Hd.
  { apply forallb_digits. subst dg. rewrite !Forall_app. split_and!; apply dec_digits. }
  rewrite last_snoc. destruct Hw as [-> | ->]; subst dg; split_and!; first [exact Hd | reflexivity].
Qed.

Lemma gregorian_to_unix_civil n h mi s :
  0 <= h < 24 → 0 <= mi < 60 → 0 <= s < 60 →
  gregorian_to_unix (year (civil n)) (month (civil n)) (day (civil n)) h mi s =
    Ok (Z.of_nat n * 86400 + h * 3600 + mi * 60 + s).
Proof.
  intros Hh Hmi Hs. destruct (civil_ok n) as (Hy & Hm & Hd).
  pose proof (days_in_month_range (year (civil n)) (month (civil n))).
  unfold gregorian_to_unix. rewrite days_from_civil_civil. solve_ltb. done.
Qed.

(** A validity time denotes the instant the calendar gives it: the GeneralizedTime
    written for a time of day on the [n]-th day after the epoch is read as that
    many seconds, and so is the UTCTime up to 2049, where its two-digit year
    pivots. *)
Theorem validity_time_exact n h mi s :
  0 <= h < 24 → 0 <= mi < 60 → 0 <= s < 60 → year (civil n) <= 9999 →
  parse_generalized_time (render_generalized (civil n) h mi s) = Ok (Z.of_nat n * 86400 + h * 3600 + mi * 60 + s) ∧
  (year (civil n) < 2050 →
   parse_utc_time (render_utc (civil n) h mi s) = Ok (Z.of_nat n * 86400 + h * 3600 + mi * 60 + s)).
Proof.
  intros Hh Hmi Hs Hy9. pose proof (gregorian_to_unix_civil n h mi s Hh Hmi Hs) as Hg.
  destruct (civil_ok n) as (Hy & Hm & Hd). pose proof (days_in_month_range (year (civil n)) (month (civil n))).
  set (t := civil n) in *. clearbody t. split; [|intros Hy2].
  - destruct (time_fields 4 (year t) (month t) (day t) h mi s _ ltac:(by right) eq_refl)
      as (E1 & E2 & E3 & E4 & E5 & E6 & E7 & E8 & E9 & E10).
    unfold parse_generalized_time, render_generalized. rewrite !app_assoc in *.
    cbn [Nat.add] in *. rewrite E8, E9, E10, E7, bool_decide_true by done. cbn [Nat.eqb negb orb].
    by rewrite E1, E2, E3, E4, E5, E6, !parse_u32_dec by lia.
  - destruct (time_fields 2 (year t mod 100) (month t) (day t) h mi s _ ltac:(by left) eq_refl)
      as (E1 & E2 & E3 & E4 & E5 & E6 & E7 & E8 & E9 & E10).
    pose proof (Z.mod_pos_bound (year t) 100 ltac:(lia)).
    unfold parse_utc_time, render_utc. rewrite !app_assoc in *.
    cbn [Nat.add] in *. rewrite E8, E9, E10, E7, bool_decide_true by done. cbn [Nat.eqb negb orb].
    rewrite E1, E2, E3, E4, E5, E6, !parse_u32_dec by (cbn; lia). cbn [result_bind].
    replace (if year t mod 100 <? 50 then 2000 + year t mod 100 else 1900 + year t mod 100) with (year t); [done|].
    destruct (Z.ltb_spec (year t mod 100) 50); Z.to_euclidean_division_equations; lia.
Qed.

Lemma validity_time_exact_witness :
  civil 789 = mkDate 1972 2 29 ∧
  parse_generalized_time (render_generalized (civil 789) 23 59 58) = Ok (Z.of_nat 789 * 86400 + 23 * 3600 + 59 * 60 + 58) ∧
  (year (civil 789) < 2050 →
   parse_utc_time (render_utc (civil 789) 23 59 58) = Ok (Z.of_nat 789 * 86400 + 23 * 3600 + 59 * 60 + 58)).
Proof.
  split; [vm_compute; reflexivity|].
  apply (validity_time_exact 789 23 59 58); [lia|lia|lia|vm_compute; discriminate].
Defined.

(** A day the month does not have is accepted and read as a later day, and a
    UTCTime of 1950 to 1969 is refused. *)
Example february_31_accepted :
  parse_generalized_time (dec 4 2023 ++ dec 2 2 ++ dec 2 31 ++ dec 6 0 ++ [90]) =
  parse_generalized_time (dec 4 2023 ++ dec 2 3 ++ dec 2 3 ++ dec 6 0 ++ [90]).
Proof. reflexivity. Qed.
Example utc_1969_refused : parse_utc_time (render_utc (mkDate 1969 12 31) 23 59 59) = Err X509InvalidTime.
Proof. reflexivity. Qed.

(** ** No input panics *)

Lemma remaining_safe {B E} (Q : B → Prop) r (k : bytes → outcome B E) :
  reader_ok r → (Forall byte_ok (rest r) → holds Q (k (rest r))) → holds Q (out_bind (out_panics (remaining r)) k).
Proof.
  intros [Hp Hb] Hk. rewrite remaining_rest by done. cbn. apply Hk. by apply Forall_drop.
Qed.

Lemma usize_sub_ok a b : (b <= a)%nat → usize_sub a b = Some (a - b)%nat.
Proof. intros H. unfold usize_sub. by rewrite (proj2 (Nat.leb_le _ _)). Qed.

(** What a read consumed is a prefix of what was left before it. *)
Lemma consumed_since_eq r r' : reader_ok r' → dr_buf r' = dr_buf r → (dr_pos r <= dr_pos r')%nat →
  consumed_since (rest r) r' = Ret (take (dr_pos r' - dr_pos r) (rest r)).
Proof.
  intros [Hp _] Hb Hle. unfold consumed_since. rewrite remaining_rest by done. cbn [out_panics out_bind].
  unfold rest. rewrite usize_sub_ok by (rewrite !length_drop, Hb; lia). cbn [out_panics out_bind].
  unfold slice_checked. rewrite (proj2 (Nat.leb_le _ _)), (proj2 (Nat.leb_le _ _)); [|rewrite !length_drop; lia|lia].
  cbn [andb out_panics]. unfold slice. rewrite Nat.sub_0_r, drop_0, !length_drop, Hb. do 2 f_equal.
  rewrite Hb in Hp. lia.
Qed.

Lemma parse_utc_safe v : safe (fun _ => True) (lift_result (parse_utc_time v)).
Proof. destruct (parse_utc_time v); [by apply safe_ret|apply safe_fail]. Qed.

Lemma parse_generalized_safe v : safe (fun _ => True) (lift_result (parse_generalized_time v)).
Proof. destruct (parse_generalized_time v); [by apply safe_ret|apply safe_fail]. Qed.

Lemma read_time_safe : safe (fun _ => True) read_time.
Proof.
  eapply safe_bind; [apply safe_from, read_tlv_safe|]. intros [t v] _.
  apply safe_if; [apply parse_utc_safe|]. apply safe_if; [apply parse_generalized_safe|apply safe_fail].
Qed.

Lemma read_algorithm_identifier_safe : safe (fun _ => True) read_algorithm_identifier.
Proof.
  intros r Hr. unfold read_algorithm_identifier.
  pose proof (safe_from _ X509Asn1 _ read_sequence_safe r Hr) as (H1 & H2 & H3).
  destruct (der_from X509Asn1 read_sequence r) as [r1 [ai|e|]]; cbn in *; [|done|done]. destruct H3 as [Hle Hai].
  split_and!; [done|done|].
  enough (der_run (der_from X509Asn1 read_oid ai)
    (fun ai oid => if is_empty ai then Ret (oid, []) else
       let% params := out_panics (remaining ai) in Ret (oid, params)) ≠ Panic) as Hn by (by destruct (der_run _ _)).
  apply (holds_safe (fun _ => True)). eapply holds_run; [apply safe_from, read_tagged_safe|done|]. intros ai' oid _ Hai' _ _ _.
  apply holds_if; [done|]. by apply remaining_safe.
Qed.

Lemma skip_all_run {A F} (Q : A → Prop) (conv : Asn1Error → F) r (k : DerReader → () → outcome A F) :
  reader_ok r → (∀ r' u, holds Q (k r' u)) → holds Q (der_run (der_from conv (skip_all (S (length (dr_buf r)))) r) k).
Proof.
  intros Hr Hk. pose proof (skip_all_safe (S (length (dr_buf r))) r Hr ltac:(lia)) as [_ Hn].
  unfold der_from. destruct (skip_all _ r) as [r' [u|e|]]; cbn in *; [apply Hk|done|done].
Qed.

(** The length field takes at least the bytes DER prescribes, so the header the
    parser recomputes fits in what was read. *)
Lemma read_length_bytes_bound n : ∀ len r r' l, reader_ok r → (n <= 4)%nat → 0 <= len < 2 ^ (32 - 8 * Z.of_nat n) →
  read_length_bytes n len r = (r', Ret l) →
  dr_pos r' = (dr_pos r + n)%nat ∧ 0 <= l < (len + 1) * 2 ^ (8 * Z.of_nat n).
Proof.
  induction n as [|n IH]; intros len r r' l Hr Hn Hlt; cbn [read_length_bytes].
  { intros [= <- <-]. change (2 ^ (8 * Z.of_nat 0)) with 1. lia. }
  unfold der_bind. pose proof (read_byte_safe r Hr) as (H1 & _ & H3).
  destruct (read_byte r) as [r1 [b|e|]] eqn:E1; cbn in H1, H3; [|done|done]. destruct H3 as [_ Hb].
  assert (len < 2 ^ 32) by (eapply Z.lt_le_trans; [apply Hlt|apply Z.pow_le_mono_r; lia]).
  apply read_byte_pos in E1. rewrite shl8_lor; [|change (2 ^ 56) with 72057594037927936; zlia|done].
  unfold in_width in Hb. change (2 ^ 8) with 256 in Hb. intros E. apply IH in E; [|done|lia|].
  - rewrite pow256_succ. assert (0 < 2 ^ (8 * Z.of_nat n)) by (apply Z.pow_pos_nonneg; lia). split; [lia|nia].
  - replace (32 - 8 * Z.of_nat n) with (8 + (32 - 8 * Z.of_nat (S n))) by lia.
    rewrite Z.pow_add_r by lia. change (2 ^ 8) with 256. nia.
Qed.

Lemma read_length_bound r r' l : reader_ok r → read_length r = (r', Ret l) →
  0 <= l ∧ (dr_pos r + der_header_len (Z.to_nat l) <= S (dr_pos r'))%nat.
Proof.
  intros Hr. unfold read_length, der_bind. pose proof (read_byte_safe r Hr) as (H1 & _ & H3).
  destruct (read_byte r) as [r1 [b|e|]] eqn:E1; cbn in H1, H3; [|done|done]. destruct H3 as [_ [Hb _]].
  apply read_byte_pos in E1. destruct (Z.ltb_spec b 0x80) as [Hs|Hs].
  { intros [= <- <-]. split; [done|]. unfold der_header_len. rewrite Z2Nat.id by done.
    rewrite (proj2 (Z.ltb_lt _ _)) by done. lia. }
  destruct (b =? 0x80); [done|]. destruct (Z.eqb_spec (Z.land b 0x7F) 0) as [|Hz]; [done|].
  destruct (Z.ltb_spec 4 (Z.land b 0x7F)) as [|H4]; [done|]. cbn [orb].
  assert (0 <= Z.land b 0x7F) as Hnn by (apply Z.land_nonneg; right; lia).
  set (n := Z.land b 0x7F) in *. clearbody n. intros E. apply read_length_bytes_bound in E; [|done|lia|].
  2: { split; [done|]. apply Z.pow_pos_nonneg; lia. }
  destruct E as [Ep [El Eu]]. split; [done|]. unfold der_header_len. rewrite Z2Nat.id by done. rewrite Z.mul_1_l in Eu.
  rewrite Z2Nat.id in Eu by done.
  assert (n = 1 ∨ n = 2 ∨ n = 3 ∨ n = 4) as [-> | [-> | [-> | ->]]] by lia;
    [change (2 ^ (8 * 1)) with 256 in Eu|change (2 ^ (8 * 2)) with 65536 in Eu
    |change (2 ^ (8 * 3)) with 16777216 in Eu|change (2 ^ (8 * 4)) with 4294967296 in Eu]; split_ifs; lia.
Qed.

Lemma read_tagged_header t r r' v : reader_ok r → read_tagged t r = (r', Ret v) →
  dr_buf r' = dr_buf r ∧ (dr_pos r + der_header_len (length v) + length v <= dr_pos r')%nat.
Proof.
  intros Hr. unfold read_tagged, read_tlv, der_bind. pose proof (read_byte_safe r Hr) as (H1 & Hb1 & _).
  destruct (read_byte r) as [r1 [b|e|]] eqn:E1; cbn in H1, Hb1; [|done|done]. apply read_byte_pos in E1.
  destruct (_ =? 0x1F); [done|]. pose proof (read_length_safe r1 H1) as (H2 & Hb2 & _).
  destruct (read_length r1) as [r2 [l|e|]] eqn:E2; cbn in H2, Hb2; [|done|done].
  apply read_length_bound in E2 as [Hl Hh]; [|done].
  destruct (_ <? _); [done|]. unfold slice_checked. destruct (_ <=? _)%nat; [|done].
  destruct (Nat.leb_spec (dr_pos r2 + Z.to_nat l) (length (dr_buf r2))) as [Hle|]; [|done]. cbn [andb].
  destruct (b =? t); [|done]. intros [= <- <-]. cbn [advance dr_buf dr_pos]. rewrite Hb2, Hb1. split; [done|].
  rewrite length_slice by (rewrite <- Hb1, <- Hb2; lia).
  replace (dr_pos r2 + Z.to_nat l - dr_pos r2)%nat with (Z.to_nat l) by lia. lia.
Qed.

Lemma version_of_safe inner : (∀ v, inner = Some v → Forall byte_ok v) → version_of inner ≠ Panic.
Proof.
  intros Hi. destruct inner as [v|]; cbn [version_of]; [|done].
  apply (holds_safe (fun _ => True)). eapply holds_run; [apply safe_from, read_u64_safe|by apply reader_ok_new, Hi|].
  intros r' x _ _ _ _ _. by repeat apply holds_if.
Qed.

Create HintDb x509 discriminated.
#[export] Hint Resolve safe_from read_sequence_safe read_tagged_safe read_bit_string_safe read_time_safe
  read_algorithm_identifier_safe maybe_tagged_safe read_u64_safe reader_ok_new : x509.
#[export] Hint Unfold asn1 crl1 read_integer_bytes read_oid : x509.

(** One read of the parser: its reader stays well formed and its result too. *)
Ltac safe_read := eapply holds_run; [eauto 4 with x509|by eauto with x509|].

Lemma der_from_ret {E F A} (conv : E → F) (m : der E A) r r' a :
  der_from conv m r = (r', Ret a) ↔ m r = (r', Ret a).
Proof. unfold der_from. destruct (m r) as [? []]; cbn; naive_solver. Qed.

(** The slice the parser takes of the SPKI starts inside what it read. *)
Lemma spki_slice_safe {A} (Q : A → Prop) r r' v (k : bytes → bytes → outcome A X509Error) :
  reader_ok r → reader_ok r' → read_tagged tag_SEQUENCE r = (r', Ret v) →
  (∀ n raw, Forall byte_ok raw → holds Q (k raw (drop n raw))) →
  holds Q (let% raw_spki := consumed_since (rest r) r' in
   let% n := out_panics (usize_sub (length raw_spki) (length v)) in
   let% n := out_panics (usize_sub n (der_header_len (length v))) in
   let% reparse := out_panics (slice_checked n (length raw_spki) raw_spki) in
   k raw_spki reparse).
Proof.
  intros Hr Hr' E Hk. apply read_tagged_header in E as [Hb Hh]; [|done].
  rewrite consumed_since_eq by (done || lia). cbn [out_bind]. set (raw := take _ _).
  assert (length raw = dr_pos r' - dr_pos r)%nat as Hl.
  { unfold raw, rest. rewrite length_take, length_drop, <- Hb. destruct Hr'. lia. }
  rewrite usize_sub_ok by lia. cbn [out_panics out_bind]. rewrite usize_sub_ok by lia. cbn [out_panics out_bind].
  unfold slice_checked. rewrite (proj2 (Nat.leb_le _ _)), Nat.leb_refl by lia. cbn [andb out_panics out_bind].
  unfold slice. rewrite take_ge by (rewrite length_drop; lia). apply Hk.
  unfold raw, rest. by apply Forall_take, Forall_drop, Hr.
Qed.

Lemma Certificate_parse_never_panics der : Forall byte_ok der → Certificate_parse der ≠ Panic.
Proof.
  intros Hd. apply (holds_safe (fun _ => True)). unfold Certificate_parse.
  safe_read. intros _outer cert _ _ _ _ Hcert.
  apply remaining_safe; [done|]. intros _.
  safe_read. intros cert' tbs _ Hcert' Hb Hle Htbs.
  rewrite consumed_since_eq by done. cbn [out_bind].
  safe_read. intros tbs1 inner _ Htbs1 _ _ Hin.
  apply holds_bind; [by apply version_of_safe|]. intros version _.
  safe_read. intros tbs2 serial _ Htbs2 _ _ _.
  safe_read. intros tbs3 [oid ?] _ Htbs3 _ _ _.
  safe_read. intros tbs4 issuer _ Htbs4 _ _ _.
  safe_read. intros tbs5 validity _ Htbs5 _ _ Hval.
  safe_read. intros val1 nb _ Hval1 _ _ _.
  safe_read. intros val2 na _ Hval2 _ _ _.
  apply holds_if; [done|].
  safe_read. intros tbs6 subject _ Htbs6 _ _ _.
  apply remaining_safe; [done|]. intros _.
  safe_read. intros tbs7 spki Espki Htbs7 _ _ Hspki. apply der_from_ret in Espki.
  apply (spki_slice_safe _ tbs6 tbs7 spki (fun raw reparse => _)); [done..|]. intros n raw Hraw.
  assert (reader_ok (DerReader_new (drop n raw))) by (by apply reader_ok_new, Forall_drop).
  safe_read. intros _ _ _ _ _ _ _.
  safe_read. intros spki1 [oid' ?] _ Hspki1 _ _ _.
  safe_read. intros spki2 key _ Hspki2 _ _ _.
  apply skip_all_run; [done|]. intros tbs8 _.
  safe_read. intros cert1 [oid'' ?] _ Hcert1 _ _ _.
  apply holds_if; [done|]. apply holds_bind; [by destruct (oid_to_signature_algorithm oid'')|]. intros alg _.
  safe_read. done.
Qed.

Lemma read_crl_version_safe : safe (fun _ => True) read_crl_version.
Proof.
  assert (safe (fun _ => True)
    (let& v := crl1 read_u64 in if negb (v =? 1) then der_fail CrlUnsupportedVersion else der_ret ())) as Hs.
  { eapply safe_bind; [apply safe_from, read_u64_safe|]. intros v _. apply safe_if; [apply safe_fail|by apply safe_ret]. }
  intros r Hr. unfold read_crl_version. destruct (peek_tag r) as [t|]; [destruct (t =? _); [by apply Hs|]|]; by split_and!.
Qed.

Lemma read_next_update_safe : safe (fun _ => True) read_next_update.
Proof.
  assert (safe (fun _ => True) (let& v := der_from crl_from_x509 read_time in der_ret (Some v))) as Hs.
  { eapply safe_bind; [apply safe_from, read_time_safe|]. intros v _. by apply safe_ret. }
  intros r Hr. unfold read_next_update. destruct (peek_tag r) as [t|]; [destruct (_ || _); [by apply Hs|]|]; by split_and!.
Qed.

Lemma read_revoked_safe : safe (fun o => ∀ v, o = Some v → Forall byte_ok v) read_revoked.
Proof.
  assert (safe (fun o => ∀ v, o = Some v → Forall byte_ok v)
    (let& v := crl1 (read_tagged tag_SEQUENCE) in der_ret (Some v))) as Hs.
  { eapply safe_bind; [apply safe_from, read_tagged_safe|]. intros v Hv. apply safe_ret. by intros ? [= <-]. }
  intros r Hr. unfold read_revoked. destruct (peek_tag r) as [t|]; [destruct (t =? _); [by apply Hs|]|]; by split_and!.
Qed.

#[export] Hint Resolve read_crl_version_safe read_next_update_safe read_revoked_safe : x509.

(** A parsed list holds the entries as bytes of the input. *)
Lemma CertificateList_parse_holds der : Forall byte_ok der →
  holds (fun l => ∀ raw, l_revoked_raw l = Some raw → Forall byte_ok raw) (CertificateList_parse der).
Proof.
  intros Hd. unfold CertificateList_parse.
  safe_read. intros _outer cert _ _ _ _ Hcert.
  apply remaining_safe; [done|]. intros _.
  safe_read. intros cert' tbs _ Hcert' Hb Hle Htbs.
  rewrite consumed_since_eq by done. cbn [out_map_err out_bind].
  safe_read. intros tbs1 _ _ Htbs1 _ _ _.
  safe_read. intros tbs2 [oid ?] _ Htbs2 _ _ _.
  safe_read. intros tbs3 issuer _ Htbs3 _ _ _.
  safe_read. intros tbs4 upd _ Htbs4 _ _ _.
  safe_read. intros tbs5 nxt _ Htbs5 _ _ _.
  safe_read. intros tbs6 rev _ Htbs6 _ _ Hrev.
  apply skip_all_run; [done|]. intros tbs7 _.
  safe_read. intros cert1 [oid' ?] _ Hcert1 _ _ _.
  apply holds_if; [done|]. apply holds_bind; [by destruct (oid_to_signature_algorithm oid')|]. intros alg _.
  safe_read. done.
Qed.

Lemma read_child_progress t r r' a : reader_ok r →
  der_bind (read_tagged t) (fun v => der_ret (DerReader_new v)) r = (r', Ret a) → (dr_pos r < dr_pos r')%nat.
Proof.
  intros Hr. unfold read_tagged, der_bind. destruct (read_tlv r) as [r1 [[t' v']|e|]] eqn:Et; [|done|done].
  apply read_tlv_progress in Et; [|done]. destruct (negb _); [done|]. unfold der_ret. by intros [= <- _].
Qed.

Lemma is_revoked_loop_never_panics fuel serial r : reader_ok r → (length (dr_buf r) - dr_pos r < fuel)%nat →
  is_revoked_loop fuel serial r ≠ None.
Proof.
  revert r. induction fuel as [|fuel IH]; intros r Hr Hf; [lia|]. cbn [is_revoked_loop].
  destruct (is_empty r) eqn:Ee; [done|]. apply Nat.leb_gt in Ee.
  pose proof (read_sequence_safe r Hr) as (H1 & H2 & H3).
  destruct (read_sequence r) as [r' [entry|e|]] eqn:E; cbn in H1, H2, H3; [|done|done]. destruct H3 as [_ Hn].
  apply read_child_progress in E; [|done].
  pose proof (read_tagged_safe tag_INTEGER _ Hn) as (_ & _ & G). unfold read_integer_bytes.
  destruct (read_tagged tag_INTEGER entry) as [? [s|e|]]; cbn in G; [|done|done].
  destruct (bool_decide _); [done|]. apply IH; [done|]. rewrite H2. lia.
Qed.

(** The common name of any bytes: the loops end, no slice panics. *)
Lemma extract_cn_rdn_safe fuel r : reader_ok r → (length (dr_buf r) - dr_pos r < fuel)%nat → extract_cn_rdn fuel r ≠ Panic.
Proof.
  intros Hr Hf. apply (holds_safe (fun _ => True)). revert r Hr Hf. induction fuel as [|fuel IH]; intros r Hr Hf; [lia|]. cbn [extract_cn_rdn].
  destruct (is_empty r) eqn:Ee; [done|]. apply Nat.leb_gt in Ee.
  safe_read. intros rdn atv E Hrdn Hb Hle Hatv.
  safe_read. intros atv1 oid _ Hatv1 _ _ _.
  eapply holds_run; [apply safe_from, read_tlv_safe|done|]. intros atv2 [t v] _ _ _ _ _.
  apply holds_if; [done|]. apply IH; [done|]. apply der_from_ret in E.
  apply read_child_progress in E; [|done]. rewrite Hb. lia.
Qed.

Lemma extract_cn_loop_safe fuel r : reader_ok r → (length (dr_buf r) - dr_pos r < fuel)%nat → extract_cn_loop fuel r ≠ Panic.
Proof.
  intros Hr Hf. apply (holds_safe (fun _ => True)). revert r Hr Hf. induction fuel as [|fuel IH]; intros r Hr Hf; [lia|]. cbn [extract_cn_loop].
  destruct (is_empty r) eqn:Ee; [done|]. apply Nat.leb_gt in Ee.
  eapply holds_run; [apply safe_from, read_set_safe|done|]. intros outer rdn E Houter Hb Hle Hrdn.
  apply holds_bind; [apply extract_cn_rdn_safe; [done|lia]|]. intros [cn|] _; [done|].
  apply IH; [done|]. apply der_from_ret in E.
  apply read_child_progress in E; [|done]. rewrite Hb. lia.
Qed.

Lemma extract_cn_never_panics name : Forall byte_ok name → extract_cn name ≠ None.
Proof.
  intros H. unfold extract_cn. pose proof (extract_cn_loop_safe (S (length name)) (DerReader_new name)) as Hn.
  specialize (Hn (reader_ok_new _ H) ltac:(cbn; lia)). by destruct (extract_cn_loop _ _).
Qed.

Lemma bytes_never_panic bs serial :
  Forall byte_ok bs →
  Certificate_parse bs ≠ Panic ∧ CertificateList_parse bs ≠ Panic ∧ extract_cn bs ≠ None ∧
  ∀ l, l_revoked_raw l = Some bs → is_revoked l serial ≠ None.
Proof.
  intros H. split_and!; [by apply Certificate_parse_never_panics|by eapply holds_safe, CertificateList_parse_holds
    |by apply extract_cn_never_panics|]. intros l Hl. unfold is_revoked. rewrite Hl.
  apply is_revoked_loop_never_panics; [by apply reader_ok_new|cbn; lia].
Qed.

(** C14: No bytes make the certificate code panic or loop: parsing a certificate or a
    revocation list, extracting a common name and looking a serial up in the
    entries all return on every input. *)
Theorem x509_never_panics bs serial :
  Forall byte_ok bs →
  Certificate_parse bs ≠ Panic ∧ CertificateList_parse bs ≠ Panic ∧ extract_cn bs ≠ None ∧
  ∀ l, l_revoked_raw l = Some bs → is_revoked l serial ≠ None.
Proof. apply bytes_never_panic. Qed.

(** ** Reading an encoded certificate back *)

(** The reader stands before [l]. *)
Definition at_rest (r : DerReader) (l : bytes) : Prop := rest r = l ∧ (dr_pos r <= length (dr_buf r))%nat.

(** [m] reads [x], answers [a] and leaves what follows. *)
Definition reads {E A} (m : der E A) (x : bytes) (a : A) : Prop :=
  ∀ r l, at_rest r (x ++ l) → ∃ r', m r = (r', Ret a) ∧ at_rest r' l ∧ dr_buf r' = dr_buf r.

Lemma at_rest_new bs : at_rest (DerReader_new bs) bs.
Proof. split; [done|cbn; lia]. Qed.

Lemma at_rest_advance r x l : at_rest r (x ++ l) → at_rest (advance (length x) r) l.
Proof.
  intros [H Hp]. split; [by apply rest_advance_app|]. apply (f_equal length) in H. unfold rest in H.
  rewrite length_drop, length_app in H. cbn. lia.
Qed.

Lemma reads_tlv t v : tlv_ok (t, v) → reads read_tlv (tlv t v) (t, v).
Proof.
  intros [Ht Hv] r l Hr. exists (advance (length (tlv t v)) r). split_and!; [|by apply at_rest_advance|done].
  destruct Hr. by eapply read_tlv_tlv.
Qed.

Lemma reads_from {E F A} (conv : E → F) (m : der E A) x a : reads m x a → reads (der_from conv m) x a.
Proof. intros H r l Hr. destruct (H r l Hr) as (r' & E' & Hr'). exists r'. by rewrite der_from_ret. Qed.

Lemma reads_bind_ret {E A B} (m : der E A) (k : A → der E B) x a b :
  reads m x a → (∀ r, k a r = (r, Ret b)) → reads (der_bind m k) x b.
Proof.
  intros H Hk r l Hr. destruct (H r l Hr) as (r' & E' & Hr'). exists r'. unfold der_bind. by rewrite E', Hk.
Qed.

Lemma reads_tagged t v : tlv_ok (t, v) → reads (read_tagged t) (tlv t v) v.
Proof.
  intros H. unfold read_tagged. intros r l Hr. destruct (reads_tlv t v H r l Hr) as (r' & E & Hr'). exists r'.
  unfold der_bind. by rewrite E, Z.eqb_refl.
Qed.

Lemma reads_run {A B E} (m : der E A) (k : DerReader → A → outcome B E) x a r l :
  reads m x a → at_rest r (x ++ l) →
  ∃ r', der_run (m r) k = k r' a ∧ at_rest r' l ∧ dr_buf r' = dr_buf r.
Proof. intros H Hr. destruct (H r l Hr) as (r' & E' & Hr'). exists r'. unfold der_run. by rewrite E'. Qed.

Lemma remaining_at r l : at_rest r l → remaining r = Some l.
Proof. intros [<- H]. by apply remaining_rest. Qed.

Lemma consumed_since_at x r l : at_rest r l → consumed_since (x ++ l) r = Ret x.
Proof.
  intros H. unfold consumed_since. rewrite (remaining_at r l H). cbn [out_panics out_bind].
  rewrite usize_sub_ok by (rewrite length_app; lia). cbn [out_panics out_bind]. rewrite length_app.
  replace (length x + length l - length l)%nat with (length x) by lia. unfold slice_checked.
  rewrite (proj2 (Nat.leb_le _ _)), (proj2 (Nat.leb_le _ _)); [|rewrite length_app; lia|lia]. cbn [andb out_panics].
  unfold slice. by rewrite Nat.sub_0_r, drop_0, take_app_length.
Qed.

Lemma length_tlv_eq t v : length (tlv t v) = (der_header_len (length v) + length v)%nat.
Proof.
  unfold tlv, der_header_len, der_length. cbn [length]. rewrite length_app.
  split_ifs; cbn [length]; rewrite ?length_to_be_bytes; lia.
Qed.

(** The fields of a certificate and their DER (RFC 5280, section 4.1). *)
Record CertFields := mkFields {
  f_version : option Z;
  f_serial : bytes;
  f_sig_oid : bytes;
  f_sig_params : bytes;
  f_issuer : bytes;
  f_not_before : Z * bytes;
  f_not_after : Z * bytes;
  f_subject : bytes;
  f_spki_oid : bytes;
  f_spki_params : bytes;
  f_spki_key : bytes;
  f_extensions : list (Z * bytes);
  f_signature : bytes }.

Definition encode_algorithm (oid params : bytes) : bytes := tlv tag_SEQUENCE (tlv tag_OID oid ++ params).

Definition encode_version (v : option Z) : bytes :=
  match v with None => [] | Some v => tlv (context_tag_explicit 0) (tlv tag_INTEGER [v]) end.

Definition encode_time (t : Z * bytes) : bytes := tlv t.1 t.2.

Definition spki_body (f : CertFields) : bytes :=
  encode_algorithm (f_spki_oid f) (f_spki_params f) ++ tlv tag_BIT_STRING (0 :: f_spki_key f).
Definition encode_spki (f : CertFields) : bytes := tlv tag_SEQUENCE (spki_body f).

Definition tbs_body (f : CertFields) : bytes :=
  encode_version (f_version f) ++ tlv tag_INTEGER (f_serial f) ++ encode_algorithm (f_sig_oid f) (f_sig_params f) ++
  tlv tag_SEQUENCE (f_issuer f) ++ tlv tag_SEQUENCE (encode_time (f_not_before f) ++ encode_time (f_not_after f)) ++
  tlv tag_SEQUENCE (f_subject f) ++ encode_spki f ++ tlvs (f_extensions f).
Definition encode_tbs (f : CertFields) : bytes := tlv tag_SEQUENCE (tbs_body f).

Definition certificate_body (f : CertFields) : bytes :=
  encode_tbs f ++ encode_algorithm (f_sig_oid f) (f_sig_params f) ++ tlv tag_BIT_STRING (0 :: f_signature f).
Definition encode_certificate (f : CertFields) : bytes := tlv tag_SEQUENCE (certificate_body f).

(** What a [Time] denotes, by the parser of the code itself: a certificate's
    validity bounds are the seconds [read_time] reads.  That these
    parsers agree with the calendar is [validity_time_exact], not part of the
    round trip of certificates. *)
Definition time_value (t : Z * bytes) : result Z X509Error :=
  if t.1 =? tag_UTC_TIME then parse_utc_time t.2
  else if t.1 =? tag_GENERALIZED_TIME then parse_generalized_time t.2
  else Err X509InvalidTime.

Definition version_value (v : option Z) : option Version :=
  match v with None => Some V1 | Some 0 => Some V1 | Some 1 => Some V2 | Some 2 => Some V3 | _ => None end.

(** A certificate that RFC 5280 and the supported algorithms allow. *)
Record fields_ok (f : CertFields) (v : Version) (nb na : Z) (alg : SignatureAlgorithm) : Prop := {
  fo_version : version_value (f_version f) = Some v;
  fo_not_before : time_value (f_not_before f) = Ok nb;
  fo_not_after : time_value (f_not_after f) = Ok na;
  fo_order : nb <= na;
  fo_alg : oid_to_signature_algorithm (f_sig_oid f) = Some alg;
  fo_ext : Forall (fun x => short_tag x.1) (f_extensions f);
  fo_size : Z.of_nat (length (encode_certificate f)) < 2 ^ 32 }.

Lemma length_tlv_lt t v : (length v < length (tlv t v))%nat.
Proof. rewrite length_tlv_eq. unfold der_header_len. split_ifs; lia. Qed.

Lemma time_tag t z : time_value t = Ok z → short_tag t.1.
Proof.
  unfold time_value. destruct (Z.eqb_spec t.1 tag_UTC_TIME) as [->|]; [by split|].
  destruct (Z.eqb_spec t.1 tag_GENERALIZED_TIME) as [->|]; [by split|done].
Qed.

Lemma reads_time t z : time_value t = Ok z → Z.of_nat (length t.2) < 2 ^ 32 → reads read_time (encode_time t) z.
Proof.
  intros Ht Hl. pose proof (time_tag t z Ht) as Hs. unfold read_time. destruct t as [tg v]. cbn [fst snd] in *.
  eapply reads_bind_ret; [by apply reads_from, reads_tlv|]. intros r. unfold time_value in Ht.
  cbn [fst snd] in Ht |- *.
  destruct (tg =? tag_UTC_TIME); [by rewrite Ht|]. destruct (tg =? tag_GENERALIZED_TIME); [by rewrite Ht|done].
Qed.

Lemma reads_algorithm oid params : Z.of_nat (length (encode_algorithm oid params)) < 2 ^ 32 →
  reads read_algorithm_identifier (encode_algorithm oid params) (oid, params).
Proof.
  intros Hl r l Hr. unfold encode_algorithm in *. set (body := tlv tag_OID oid ++ params) in *.
  pose proof (length_tlv_lt tag_SEQUENCE body) as H1. pose proof (length_tlv_lt tag_OID oid) as H2.
  assert (length body = length (tlv tag_OID oid) + length params)%nat as Hb by apply length_app.
  destruct (reads_tagged tag_SEQUENCE body ltac:(split; [by split|cbn [snd]; lia]) r l Hr) as (r' & E & Hr' & Hbuf).
  exists r'. split_and!; [|done|done]. unfold read_algorithm_identifier, der_from at 1, read_sequence, der_bind.
  rewrite E. cbn [der_ret out_map_err]. f_equal.
  destruct (reads_run (der_from X509Asn1 read_oid)
    (fun ai oid => if is_empty ai then Ret (oid, []) else let% params := out_panics (remaining ai) in Ret (oid, params))
    (tlv tag_OID oid) oid (DerReader_new body) params) as (ai & -> & Hai & _).
  { apply reads_from, reads_tagged. split; [by split|cbn [snd]; lia]. }
  { apply at_rest_new. }
  rewrite is_empty_rest. destruct Hai as [Hrest Hp]. rewrite Hrest.
  destruct (decide (params = [])) as [->|Hne]; [by rewrite bool_decide_true|].
  rewrite bool_decide_false by done. by rewrite (remaining_at ai params).
Qed.

Lemma reads_sequence v : Z.of_nat (length v) < 2 ^ 32 → reads read_sequence (tlv tag_SEQUENCE v) (DerReader_new v).
Proof. intros H. eapply reads_bind_ret; [apply reads_tagged; by split|done]. Qed.

Lemma reads_bit_string v : Z.of_nat (S (length v)) < 2 ^ 32 → reads read_bit_string (tlv tag_BIT_STRING (0 :: v)) v.
Proof. intros H. eapply reads_bind_ret; [apply reads_tagged; by split|done]. Qed.

Lemma reads_then {A B E} (m : der E A) (k : DerReader → A → outcome B E) x a r l res :
  reads m x a → at_rest r (x ++ l) → (∀ r', at_rest r' l → dr_buf r' = dr_buf r → k r' a = res) →
  der_run (m r) k = res.
Proof. intros Hm Hr Hk. destruct (reads_run m k x a r l Hm Hr) as (r' & -> & Hr' & Hb). by apply Hk. Qed.

Lemma reads_then_last {A B E} (m : der E A) (k : DerReader → A → outcome B E) x a r res :
  reads m x a → at_rest r x → (∀ r', at_rest r' [] → k r' a = res) → der_run (m r) k = res.
Proof. intros Hm Hr Hk. eapply (reads_then m k x a r []); [done|by rewrite app_nil_r|]. intros r' Hr' _. by apply Hk. Qed.

(** Skipping the extensions from any place. *)
Lemma reads_skip_all {B} (xs : list (Z * bytes)) r (k : DerReader → () → outcome B X509Error) res :
  at_rest r (tlvs xs) → Forall tlv_ok xs → (∀ r', k r' () = res) →
  der_run (asn1 (skip_all (S (length (dr_buf r)))) r) k = res.
Proof.
  intros [Hr Hp] Hxs Hk. unfold asn1, der_from. rewrite (skip_all_tlvs xs); [apply Hk|done|done|].
  pose proof (length_tlvs xs) as Hl. rewrite <- Hr in Hl. unfold rest in Hl. rewrite length_drop in Hl. lia.
Qed.

(** The optional version. *)
Lemma version_then {B} v ver r serial l (k : DerReader → option bytes → outcome B X509Error) res :
  version_value v = Some ver → at_rest r (encode_version v ++ tlv tag_INTEGER serial ++ l) →
  (∀ r' inner, at_rest r' (tlv tag_INTEGER serial ++ l) → dr_buf r' = dr_buf r → version_of inner = Ret ver → k r' inner = res) →
  der_run (asn1 (maybe_tagged (context_tag_explicit 0)) r) k = res.
Proof.
  intros Hv Hr Hk. unfold asn1, der_from, maybe_tagged, der_run. destruct v as [z|]; cbn [encode_version app] in Hr.
  - rewrite (peek_tag_tlv _ _ _ _ (proj1 Hr)), Z.eqb_refl. unfold der_bind.
    assert (z = 0 ∨ z = 1 ∨ z = 2) as Hz by (cbn in Hv; repeat case_match; try done; lia).
    destruct (reads_tagged (context_tag_explicit 0) (tlv tag_INTEGER [z]) ltac:(by split) _ _ Hr) as (r' & -> & Hr' & Hb).
    cbn. apply Hk; [done|done|]. by destruct Hz as [-> | [-> | ->]]; injection Hv as <-.
  - rewrite (peek_tag_tlv _ _ _ _ (proj1 Hr)). cbn. injection Hv as <-. by apply Hk.
Qed.

(** Sizes: every part is shorter than the whole. *)
Lemma encode_sizes f : let n := length (encode_certificate f) in
  (length (certificate_body f) < n ∧ length (tbs_body f) < n ∧ length (f_serial f) < n ∧
   length (encode_algorithm (f_sig_oid f) (f_sig_params f)) < n ∧ length (f_issuer f) < n ∧
   length (encode_time (f_not_before f) ++ encode_time (f_not_after f)) < n ∧
   length (f_not_before f).2 < n ∧ length (f_not_after f).2 < n ∧ length (f_subject f) < n ∧ length (spki_body f) < n ∧
   length (encode_algorithm (f_spki_oid f) (f_spki_params f)) < n ∧ S (length (f_spki_key f)) < n ∧
   length (tlvs (f_extensions f)) < n ∧ S (length (f_signature f)) < n)%nat.
Proof.
  cbv zeta. unfold encode_certificate. pose proof (length_tlv_lt tag_SEQUENCE (certificate_body f)) as Hc.
  set (n := length (tlv tag_SEQUENCE (certificate_body f))) in *. clearbody n. split; [done|].
  unfold certificate_body in Hc. rewrite !length_app in Hc.
  pose proof (length_tlv_lt tag_BIT_STRING (0 :: f_signature f)) as Hs. cbn [length] in Hs.
  pose proof (length_tlv_lt tag_SEQUENCE (tbs_body f)) as Ht. fold (encode_tbs f) in Ht. split; [lia|].
  unfold tbs_body in Ht. rewrite !length_app in Ht. rewrite length_app.
  pose proof (length_tlv_lt tag_SEQUENCE (encode_time (f_not_before f) ++ encode_time (f_not_after f))) as Hv.
  rewrite length_app in Hv.
  pose proof (length_tlv_lt (f_not_before f).1 (f_not_before f).2). pose proof (length_tlv_lt (f_not_after f).1 (f_not_after f).2).
  pose proof (length_tlv_lt tag_INTEGER (f_serial f)). pose proof (length_tlv_lt tag_SEQUENCE (f_issuer f)).
  pose proof (length_tlv_lt tag_SEQUENCE (f_subject f)).
  pose proof (length_tlv_lt tag_SEQUENCE (spki_body f)) as Hk. fold (encode_spki f) in Hk.
  assert (length (spki_body f) = length (encode_algorithm (f_spki_oid f) (f_spki_params f)) +
    length (tlv tag_BIT_STRING (0%Z :: f_spki_key f)))%nat as Hkb
    by (unfold spki_body; by rewrite length_app).
  pose proof (length_tlv_lt tag_BIT_STRING (0 :: f_spki_key f)) as Hkk. cbn [length] in Hkk.
  unfold encode_time in *. split_and!; lia.
Qed.

Lemma tlvs_sizes xs n : (length (tlvs xs) < n)%nat → Forall (fun x => length x.2 < n)%nat xs.
Proof.
  induction xs as [|[t v] xs IH]; intros H; [constructor|]. rewrite tlvs_cons, length_app in H.
  pose proof (length_tlv_lt t v). cbn [fst snd] in *. constructor; [cbn; lia|apply IH; lia].
Qed.

(** The SPKI of a DER encoding passes the re-parse: the recomputed header is the
    one that was read. *)
Lemma spki_reparse {B} v (k : bytes → outcome B X509Error) :
  Z.of_nat (length v) < 2 ^ 32 →
  (let% n := out_panics (usize_sub (length (tlv tag_SEQUENCE v)) (length v)) in
   let% n := out_panics (usize_sub n (der_header_len (length v))) in
   let% reparse := out_panics (slice_checked n (length (tlv tag_SEQUENCE v)) (tlv tag_SEQUENCE v)) in
   k reparse) = k (tlv tag_SEQUENCE v).
Proof.
  intros Hv. pose proof (length_tlv_eq tag_SEQUENCE v) as E. rewrite usize_sub_ok by lia. cbn [out_panics out_bind].
  rewrite usize_sub_ok by lia. cbn [out_panics out_bind].
  replace (length (tlv tag_SEQUENCE v) - length v - der_header_len (length v))%nat with 0%nat by lia.
  unfold slice_checked. rewrite (proj2 (Nat.leb_le 0 _)), Nat.leb_refl by lia. cbn [andb out_panics out_bind].
  unfold slice. by rewrite Nat.sub_0_r, drop_0, firstn_all.
Qed.

Lemma certificate_parse_encoded f v nb na alg trailing :
  fields_ok f v nb na alg →
  Certificate_parse (encode_certificate f ++ trailing) =
    Ret (mkCertificate v (encode_tbs f) (f_serial f) (f_issuer f) (f_subject f) nb na (f_spki_oid f) (f_spki_key f)
           (encode_spki f) alg (f_signature f)).
Proof.
  intros [Hver Hnb Hna Hord Halg Hext Hsize].
  destruct (encode_sizes f) as (S1 & S2 & S3 & S4 & S5 & S6 & S7 & S8 & S9 & S10 & S11 & S12 & S13 & S14).
  apply tlvs_sizes in S13. unfold Certificate_parse.
  eapply reads_then; [apply reads_from, (reads_sequence (certificate_body f)); lia|apply at_rest_new|].
  intros _ _ _. erewrite remaining_at by apply at_rest_new. cbn [out_panics out_bind].
  eapply reads_then; [apply reads_from, (reads_sequence (tbs_body f)); lia|apply at_rest_new|].
  intros cert Hcert _. rewrite (consumed_since_at (encode_tbs f) _ _ Hcert : consumed_since (certificate_body f) cert = _). cbn [out_bind].
  eapply version_then; [exact Hver|apply at_rest_new|]. intros tbs inner Htbs _ ->. cbn [out_bind].
  eapply reads_then; [apply reads_from, (reads_tagged tag_INTEGER (f_serial f)); split; [by split|cbn [snd]; lia]|exact Htbs|]. clear Htbs. intros tbs1 Htbs _.
  eapply reads_then; [apply (reads_algorithm (f_sig_oid f) (f_sig_params f)); lia|exact Htbs|]. clear Htbs. intros tbs2 Htbs _.
  eapply reads_then; [apply reads_from, (reads_tagged tag_SEQUENCE (f_issuer f)); split; [by split|cbn [snd]; lia]|exact Htbs|]. clear Htbs. intros tbs3 Htbs _.
  eapply reads_then; [apply reads_from, (reads_sequence (encode_time (f_not_before f) ++ encode_time (f_not_after f))); lia|exact Htbs|]. clear Htbs. intros tbs4 Htbs _.
  eapply reads_then; [apply (reads_time (f_not_before f) nb); [done|lia]|apply at_rest_new|]. intros val Hval _.
  eapply reads_then_last; [apply (reads_time (f_not_after f) na); [done|lia]|exact Hval|]. intros _ _.
  rewrite (proj2 (Z.ltb_ge _ _)) by done.
  eapply reads_then; [apply reads_from, (reads_tagged tag_SEQUENCE (f_subject f)); split; [by split|cbn [snd]; lia]|exact Htbs|]. clear Htbs. intros tbs5 Htbs _.
  rewrite (remaining_at _ _ Htbs). cbn [out_panics out_bind].
  eapply reads_then; [apply reads_from, (reads_tagged tag_SEQUENCE (spki_body f)); split; [by split|cbn [snd]; lia]|exact Htbs|].
  clear Htbs. intros tbs6 Htbs _. rewrite (consumed_since_at (encode_spki f) _ _ Htbs). cbn [out_bind].
  unfold encode_spki at 1 2 3. rewrite spki_reparse by lia.
  eapply reads_then_last; [apply reads_from, (reads_sequence (spki_body f)); lia|apply at_rest_new|]. intros _ _.
  eapply reads_then; [apply (reads_algorithm (f_spki_oid f) (f_spki_params f)); lia|apply at_rest_new|]. intros spki Hspki _.
  eapply reads_then_last; [apply reads_from, (reads_bit_string (f_spki_key f)); lia|exact Hspki|]. intros _ _.
  apply (reads_skip_all (f_extensions f)); [done| |].
  { apply Forall_forall. intros x Hx. rewrite Forall_forall in Hext, S13. split; [by apply Hext|specialize (S13 x Hx); cbn beta in S13; lia]. }
  intros _. eapply reads_then; [apply (reads_algorithm (f_sig_oid f) (f_sig_params f)); lia|exact Hcert|]. clear Hcert. intros cert' Hcert _.
  cbv beta iota. rewrite bool_decide_true by done. cbn [negb]. rewrite Halg. cbn [out_ok_or out_bind].
  eapply reads_then_last; [apply reads_from, (reads_bit_string (f_signature f)); lia|exact Hcert|]. done.
Qed.

(** C13: The certificate parser reads every field of every well-formed certificate,
    of any size up to four gigabytes, with any extensions and any bytes after
    it; the slice it hands to the signature check is the encoded TBS. *)
Theorem certificate_roundtrip f v nb na alg trailing :
  fields_ok f v nb na alg →
  Certificate_parse (encode_certificate f ++ trailing) =
    Ret (mkCertificate v (encode_tbs f) (f_serial f) (f_issuer f) (f_subject f) nb na (f_spki_oid f) (f_spki_key f)
           (encode_spki f) alg (f_signature f)).
Proof. apply certificate_parse_encoded. Qed.

(** A v3 certificate signed with Ed25519. *)
Definition demo_fields : CertFields :=
  mkFields (Some 2) [7; 1] OID_ED25519 [] (tlv tag_SET (tlv tag_SEQUENCE (tlv tag_OID OID_COMMON_NAME ++ tlv tag_UTF8_STRING [99; 97])))
    (tag_UTC_TIME, render_utc (mkDate 2024 2 29) 0 0 0) (tag_GENERALIZED_TIME, render_generalized (mkDate 2051 1 1) 12 0 0)
    (tlv tag_SET (tlv tag_SEQUENCE (tlv tag_OID OID_COMMON_NAME ++ tlv tag_PRINTABLE_STRING [98; 111; 98])))
    OID_ED25519 [] (replicate 32 9) [(0xA3, replicate 140 1)] (replicate 64 5).

Lemma demo_fields_ok : fields_ok demo_fields V3 1709164800 2556187200 Ed25519.
Proof. split; try (vm_compute; reflexivity); [vm_compute; discriminate|]. repeat constructor; vm_compute; discriminate. Qed.

Lemma certificate_roundtrip_witness :
  Certificate_parse (encode_certificate demo_fields ++ [0; 0]) =
    Ret (mkCertificate V3 (encode_tbs demo_fields) [7; 1] (f_issuer demo_fields) (f_subject demo_fields)
           1709164800 2556187200 OID_ED25519 (replicate 32 9) (encode_spki demo_fields) Ed25519 (replicate 64 5)).
Proof. apply (certificate_roundtrip demo_fields V3 1709164800 2556187200 Ed25519 [0; 0]). exact demo_fields_ok. Defined.

Lemma x509_never_panics_witness :
  Certificate_parse [48; 3; 48; 1; 160] ≠ Panic ∧ CertificateList_parse [48; 3; 48; 1; 160] ≠ Panic ∧
  extract_cn [48; 3; 48; 1; 160] ≠ None ∧
  ∀ l, l_revoked_raw l = Some [48; 3; 48; 1; 160] → is_revoked l [1] ≠ None.
Proof. apply (x509_never_panics [48; 3; 48; 1; 160] [1]). repeat (constructor; [by split|]). constructor. Defined.

(** The demo certificate's names, read by the code. *)
Example demo_subject_cn : extract_cn (f_subject demo_fields) = Some (Some (lit "bob")).
Proof. vm_compute. reflexivity. Qed.

(** ** Revocation *)

(** A revocation entry: the serial, then the date and the extensions. *)
Definition revoked_entry (e : bytes * bytes) : bytes := tlv tag_SEQUENCE (tlv tag_INTEGER e.1 ++ e.2).
Definition revoked_entries (es : list (bytes * bytes)) : bytes := es ≫= revoked_entry.

Lemma revoked_entries_cons e es : revoked_entries (e :: es) = revoked_entry e ++ revoked_entries es.
Proof. done. Qed.

Lemma revoked_entry_size e : (length e.1 < length (tlv tag_INTEGER e.1 ++ e.2) < length (revoked_entry e))%nat.
Proof.
  unfold revoked_entry. pose proof (length_tlv_lt tag_INTEGER e.1) as H.
  pose proof (length_tlv_lt tag_SEQUENCE (tlv tag_INTEGER e.1 ++ e.2)) as H'. split; [|done].
  rewrite length_app. lia.
Qed.

(** The walk steps over one entry. *)
Lemma is_revoked_loop_entry fuel serial e l r :
  at_rest r (revoked_entry e ++ l) → Z.of_nat (length (revoked_entry e)) < 2 ^ 32 →
  ∃ r', is_revoked_loop (S fuel) serial r = (if bool_decide (e.1 = serial) then Some true else is_revoked_loop fuel serial r')
        ∧ at_rest r' l.
Proof.
  intros Hr Hl. pose proof (revoked_entry_size e) as Hs. cbn [is_revoked_loop]. rewrite is_empty_rest, (proj1 Hr).
  rewrite bool_decide_false by done.
  destruct (reads_sequence (tlv tag_INTEGER e.1 ++ e.2) ltac:(lia) r l Hr) as (r' & -> & Hr' & _). exists r'. split; [|done].
  destruct (reads_tagged tag_INTEGER e.1 ltac:(split; [by split|cbn [snd]; lia]) _ e.2
    (at_rest_new (tlv tag_INTEGER e.1 ++ e.2))) as (r1 & E1 & _). unfold read_integer_bytes. by rewrite E1.
Qed.

Lemma is_revoked_loop_entries serial es : ∀ fuel r l,
  at_rest r (revoked_entries es ++ l) → Z.of_nat (length (revoked_entries es)) < 2 ^ 32 → (length es < fuel)%nat →
  (serial ∈ es.*1 → is_revoked_loop fuel serial r = Some true) ∧
  (serial ∉ es.*1 → ∃ r' fuel', (fuel = fuel' + length es)%nat ∧
     is_revoked_loop fuel serial r = is_revoked_loop fuel' serial r' ∧ at_rest r' l).
Proof.
  induction es as [|e es IH]; intros fuel r l Hr Hl Hf.
  { split; [by rewrite fmap_nil, elem_of_nil|]. intros _. exists r, fuel. split_and!; [cbn; lia|done|done]. }
  rewrite revoked_entries_cons in *. rewrite length_app in Hl. cbn [length] in Hf. destruct fuel as [|fuel]; [lia|].
  rewrite <- app_assoc in Hr. destruct (is_revoked_loop_entry fuel serial e _ r Hr ltac:(lia)) as (r' & -> & Hr').
  destruct (IH fuel r' l Hr' ltac:(lia) ltac:(lia)) as [IH1 IH2]. rewrite fmap_cons, elem_of_cons. split.
  - intros [->|Hin]; [by rewrite bool_decide_true|]. case_bool_decide; [done|]. by apply IH1.
  - intros Hn. rewrite bool_decide_false by (intros <-; tauto).
    destruct IH2 as (r2 & f2 & Ef & E & H2); [tauto|]. exists r2, f2. split_and!; [cbn; lia|done|done].
Qed.

Lemma length_revoked_entries es : (length es <= length (revoked_entries es))%nat.
Proof.
  induction es as [|e es IH]; [done|]. rewrite revoked_entries_cons, length_app. cbn [length].
  pose proof (revoked_entry_size e). lia.
Qed.

(** Where the walk ends without an answer: after the last entry, at an item
    that is not a SEQUENCE, or at an entry that does not begin with an INTEGER. *)
Inductive walk_ends : bytes → Prop :=
| walk_done : walk_ends []
| walk_not_sequence t v rest :
    short_tag t → t ≠ tag_SEQUENCE → Z.of_nat (length v) < 2 ^ 32 → walk_ends (tlv t v ++ rest)
| walk_no_serial t v w rest :
    short_tag t → t ≠ tag_INTEGER → Z.of_nat (length (tlv t v ++ w)) < 2 ^ 32 →
    walk_ends (tlv tag_SEQUENCE (tlv t v ++ w) ++ rest).

(** The entries the walk reads in the [revokedCertificates] field of a list:
    none when the field is absent, otherwise those up to where the walk ends. *)
Inductive walked_entries : option bytes → list (bytes * bytes) → Prop :=
| walked_absent : walked_entries None []
| walked_list es tail :
    Z.of_nat (length (revoked_entries es)) < 2 ^ 32 → walk_ends tail →
    walked_entries (Some (revoked_entries es ++ tail)) es.

Lemma walk_ends_false fuel serial r tail : at_rest r tail → walk_ends tail → is_revoked_loop (S fuel) serial r = Some false.
Proof.
  intros Hr Hw. cbn [is_revoked_loop]. rewrite is_empty_rest, (proj1 Hr).
  destruct Hw as [|t v rest Ht Hne Hv|t v w rest Ht Hne Hv]; [by rewrite bool_decide_true|..]; rewrite bool_decide_false by done.
  - destruct (reads_tlv t v ltac:(by split) r _ Hr) as (r2 & E2 & _).
    unfold read_sequence, read_tagged, der_bind. rewrite E2. by rewrite (proj2 (Z.eqb_neq _ _)).
  - destruct (reads_sequence (tlv t v ++ w) Hv r rest Hr) as (r2 & -> & _).
    rewrite length_app in Hv. pose proof (length_tlv_lt t v).
    destruct (reads_tlv t v ltac:(split; [done|cbn [snd]; lia]) _ w (at_rest_new (tlv t v ++ w))) as (r3 & E3 & _).
    unfold read_integer_bytes, read_tagged, der_bind. rewrite E3. by rewrite (proj2 (Z.eqb_neq _ _)).
Qed.

(** The check is membership in the entries the walk reads, byte for byte. *)
Lemma is_revoked_exact l es serial :
  walked_entries (l_revoked_raw l) es → is_revoked l serial = Some (bool_decide (serial ∈ es.*1)).
Proof.
  unfold is_revoked. inversion 1 as [|es' tail Hl Hw]; subst; [done|]. pose proof (length_revoked_entries es) as Hn.
  destruct (is_revoked_loop_entries serial es (S (length (revoked_entries es ++ tail)))
    (DerReader_new (revoked_entries es ++ tail)) tail) as [H1 H2]; [apply at_rest_new|done|rewrite length_app; lia|].
  destruct (decide (serial ∈ es.*1)) as [Hin|Hin].
  - rewrite bool_decide_true by done. by apply H1.
  - rewrite bool_decide_false by done. destruct (H2 Hin) as (r' & [|f] & Ef & -> & Hr'); [rewrite length_app in Ef; lia|].
    by eapply walk_ends_false.
Qed.

(** A malformed entry hides every revocation behind it: whatever the entries
    before it, an item that is not a SEQUENCE ends the walk with "not revoked",
    even for a serial that a later entry revokes. *)
Theorem malformed_entry_hides_revocations l before t v after serial :
  l_revoked_raw l = Some (revoked_entries before ++ tlv t v ++ revoked_entries after) →
  short_tag t → t ≠ tag_SEQUENCE →
  Z.of_nat (length (revoked_entries before ++ tlv t v ++ revoked_entries after)) < 2 ^ 32 →
  serial ∉ before.*1 → serial ∈ after.*1 →
  is_revoked l serial = Some false.
Proof.
  intros Hraw Ht Hne Hl Hb _. rewrite (is_revoked_exact l before); [by rewrite bool_decide_false|].
  rewrite !length_app in Hl. pose proof (length_tlv_lt t v). rewrite Hraw. constructor; [lia|]. constructor; [done|done|lia].
Qed.

Lemma malformed_entry_hides_revocations_witness :
  let l := mkCrl [] [] 0 None Ed25519 [] (Some (revoked_entries [([1], [])] ++ tlv tag_NULL [] ++ revoked_entries [([2], [])])) in
  is_revoked l [2] = Some false.
Proof.
  cbv zeta. apply (malformed_entry_hides_revocations _ [([1], [])] tag_NULL [] [([2], [])] [2]);
    [reflexivity|by split|done|reflexivity| |]; apply (bool_decide_unpack _); vm_compute; exact I.
Defined.
