(* ===== verification/Auth.v ===== *)
(** * Client authentication ([desmos-core auth/])

    The four backends behind the [Authenticator] trait: pre-shared key, public
    key list, TOTP and mTLS.  A backend is an instance of the class
    [Authenticator]; what the handshake relies on is [AuthLaws].  The clock of a
    backend is a field holding what the clock answers at the call. *)

From stdpp Require Import base numbers list strings sorting relations.
From Stdlib Require Import ZArith Lia.
From S2P Require Import Prelude Crypto Asn1 Str X509.

(** ** [auth/mod.rs] *)

Record AuthContext := mkAuthContext {
  initiator_static : bytes;
  handshake_hash : bytes;
  presented_credential : bytes }.

Inductive AuthError := Rejected | Misconfigured (reason : string).

#[export] Instance AuthError_eq_dec : EqDecision AuthError.
Proof. solve_decision. Defined.

(** The trait; [authenticate] takes [&self], so only interior state (an atomic)
    can change. *)
Class Authenticator (A : Type) := {
  auth_name : string;
  authenticate : A → AuthContext → A * outcome () AuthError }.

(** What the handshake relies on: no credential panics the server, and a refusal
    changes nothing. *)
Class AuthLaws (A : Type) `{Authenticator A} (ok : A → Prop) : Prop := {
  auth_total a ctx : ok a → Forall byte_ok (presented_credential ctx) → (authenticate a ctx).2 ≠ Panic;
  auth_refusal_keeps a ctx e : (authenticate a ctx).2 = Fail e → (authenticate a ctx).1 = a }.

Definition constant_time_eq (a b : bytes) : bool :=
  if negb (length a =? length b)%nat then false
  else foldl (fun diff '(x, y) => Z.lor diff (Z.lxor x y)) 0 (zip a b) =? 0.

Definition ok_if (b : bool) : outcome () AuthError := if b then Ret () else Fail Rejected.

(** ** [auth/psk.rs] *)

Definition PSK_MIN_LEN : nat := 16.
Definition PSK_MAX_LEN : nat := 4096.
Definition PSK_CONTEXT : bytes := lit "desmos-psk-auth-v1".

(** The blake3 crate: the digest of everything passed to [update]. *)
Class Blake3 := blake3 : bytes → bytes.

Record PresharedKey := mkPsk { psk_digest : bytes; psk_len : nat }.

Section Psk.
  Context `{Blake3}.

Definition PresharedKey_new (psk : bytes) : result PresharedKey AuthError :=
  if (length psk <? PSK_MIN_LEN)%nat then Err (Misconfigured "PSK shorter than 16 bytes")
  else if (PSK_MAX_LEN <? length psk)%nat then Err (Misconfigured "PSK longer than 4096 bytes")
  else Ok (mkPsk (blake3 (PSK_CONTEXT ++ psk)) (length psk)).

Definition PresharedKey_authenticate (p : PresharedKey) (ctx : AuthContext) : outcome () AuthError :=
  match presented_credential ctx with
  | [] => Fail Rejected
  | cred => ok_if (constant_time_eq (blake3 (PSK_CONTEXT ++ cred)) (psk_digest p))
  end.

#[export] Instance Psk_Authenticator : Authenticator PresharedKey :=
  {| auth_name := "psk"; authenticate p ctx := (p, PresharedKey_authenticate p ctx) |}.

End Psk.

(** ** [auth/pubkey.rs] *)

Record PublicKeyList := mkKeyList { allowed : list bytes }.

Definition PublicKeyList_new (l : list bytes) : PublicKeyList := mkKeyList l.
Definition PublicKeyList_single (key : bytes) : PublicKeyList := mkKeyList [key].
Definition PublicKeyList_accept_all : PublicKeyList := mkKeyList [].
Definition to_responder_whitelist (l : PublicKeyList) : list bytes := allowed l.

(** [found |= u8::from(equal)]: every candidate is compared. *)
Definition PublicKeyList_contains (l : PublicKeyList) (key : bytes) : bool :=
  negb (foldl (fun found candidate =>
                 Z.lor found (if constant_time_eq (take PUBLIC_KEY_LEN key) (take PUBLIC_KEY_LEN candidate) then 1 else 0))
          0 (allowed l) =? 0).

Definition PublicKeyList_authenticate (l : PublicKeyList) (ctx : AuthContext) : outcome () AuthError :=
  match allowed l with
  | [] => Ret ()
  | _ => ok_if (PublicKeyList_contains l (initiator_static ctx))
  end.

#[export] Instance KeyList_Authenticator : Authenticator PublicKeyList :=
  {| auth_name := "pubkey"; authenticate l ctx := (l, PublicKeyList_authenticate l ctx) |}.

(** ** [auth/totp.rs] *)

Definition DEFAULT_PERIOD_SECS : Z := 30.
Definition DEFAULT_DIGITS : Z := 6.
Definition TOTP_MIN_SECRET_LEN : nat := 16.
Definition TOTP_MAX_SECRET_LEN : nat := 64.

Record TotpConfig := mkTotpConfig {
  secret : bytes;
  digits : Z;
  period_secs : Z;
  skew_window : Z;
  reject_replay : bool }.

Definition TotpConfig_with (secret : bytes) (digits period_secs skew_window : Z) (reject_replay : bool)
  : result TotpConfig AuthError :=
  if (length secret <? TOTP_MIN_SECRET_LEN)%nat then Err (Misconfigured "TOTP secret shorter than 16 bytes")
  else if (TOTP_MAX_SECRET_LEN <? length secret)%nat then Err (Misconfigured "TOTP secret longer than 64 bytes")
  else if negb ((6 <=? digits) && (digits <=? 8)) then Err (Misconfigured "TOTP digits must be 6, 7, or 8")
  else if period_secs =? 0 then Err (Misconfigured "TOTP period_secs must be > 0")
  else if 8 <? skew_window then Err (Misconfigured "TOTP skew_window > 8")
  else Ok (mkTotpConfig secret digits period_secs skew_window reject_replay).

Definition TotpConfig_new (secret : bytes) : result TotpConfig AuthError :=
  TotpConfig_with secret DEFAULT_DIGITS DEFAULT_PERIOD_SECS 1 false.

Record TotpAuthenticator := mkTotp { t_config : TotpConfig; last_accepted_step : Z; t_clock : Z }.

Definition TotpAuthenticator_with_clock (config : TotpConfig) (clock : Z) : TotpAuthenticator :=
  mkTotp config (umax 64) clock.

Definition current_step (t : TotpAuthenticator) : Z := t_clock t / period_secs (t_config t).

(** [format!("{code:0width$}")]. *)
Definition format_padded (width : nat) (n : Z) : bytes :=
  let s := show_uint n in replicate (width - length s) 48 ++ s.

Section Totp.
  Context `{RingCrypto}.

(** The digest is a [\[u8; 32\]] and the offset a nibble, so the indices are in
    range. *)
Definition compute_totp (secret : bytes) (step digits : Z) : bytes :=
  let counter := to_be_bytes 8 step in
  let hmac_bytes := hkdf_extract secret counter in
  let offset := Z.to_nat (Z.land (byte_at hmac_bytes (length hmac_bytes - 1)) 0x0f) in
  let bin_code :=
    Z.lor (Z.lor (Z.lor (Z.shiftl (Z.land (byte_at hmac_bytes offset) 0x7f) 24)
                        (Z.shiftl (byte_at hmac_bytes (offset + 1)) 16))
                 (Z.shiftl (byte_at hmac_bytes (offset + 2)) 8))
          (byte_at hmac_bytes (offset + 3)) in
  let modulus := 10 ^ digits in
  let code := bin_code mod modulus in
  format_padded (Z.to_nat digits) code.

Definition code_for_step (t : TotpAuthenticator) (step : Z) : bytes :=
  compute_totp (secret (t_config t)) step (digits (t_config t)).

(** One turn of the window loop: a later match overwrites an earlier one. *)
Definition try_offset (cfg : TotpConfig) (cred : bytes) (center_step : Z) (matched : option Z) (offset : Z) : option Z :=
  let candidate := center_step + offset in
  if candidate <? 0 then matched
  else
    let step := wrap 64 candidate in
    if constant_time_eq (compute_totp (secret cfg) step (digits cfg)) cred then Some step else matched.

Definition matched_step (cfg : TotpConfig) (cred : bytes) (now : Z) : option Z :=
  let window := skew_window cfg in
  foldl (try_offset cfg cred (now / period_secs cfg)) None (seqZ (- window) (2 * window + 1)).

(** The shape checks before the clock is read. *)
Definition totp_shape_ok (cfg : TotpConfig) (cred : bytes) : bool :=
  negb (length cred =? 0)%nat && (Z.of_nat (length cred) =? digits cfg) && forallb is_ascii_digit cred.

Definition TotpAuthenticator_authenticate (t : TotpAuthenticator) (ctx : AuthContext)
  : TotpAuthenticator * outcome () AuthError :=
  let cfg := t_config t in
  if negb (totp_shape_ok cfg (presented_credential ctx)) then (t, Fail Rejected)
  else
    match matched_step cfg (presented_credential ctx) (t_clock t) with
    | None => (t, Fail Rejected)
    | Some s =>
        if reject_replay cfg then
          let prev := last_accepted_step t in
          if negb (prev =? umax 64) && (s <=? prev) then (t, Fail Rejected)
          else (mkTotp cfg s (t_clock t), Ret ())
        else (t, Ret ())
    end.

#[export] Instance Totp_Authenticator : Authenticator TotpAuthenticator :=
  {| auth_name := "totp"; authenticate := TotpAuthenticator_authenticate |}.

End Totp.

(** ** [auth/mtls.rs] *)

Definition ED25519_SIG_LEN : nat := 64.

Record MtlsConfig := mkMtlsConfig { cfg_ca_der : bytes; cfg_crl_der : option bytes }.

Inductive MtlsInitError := MtlsCa (e : X509Error) | MtlsCrl (e : CrlError) | MtlsUnsupportedCa.

Record MtlsAuthenticator := mkMtls { ca_der : bytes; crl_der : option bytes; m_clock : Z }.

Definition of_result {A E} (r : result A E) : outcome A E := match r with Ok a => Ret a | Err e => Fail e end.

(** [u16::from_be_bytes], then two slices; bytes behind the signature are ignored. *)
Definition split_credential (cred : bytes) : option (bytes * bytes) :=
  if (length cred <? 2)%nat then None
  else
    let leaf_len := Z.to_nat (from_be_bytes (take 2 cred)) in
    let total_min := (2 + leaf_len + ED25519_SIG_LEN)%nat in
    if (length cred <? total_min)%nat then None
    else Some (slice 2 (2 + leaf_len) cred, slice (2 + leaf_len) (2 + leaf_len + ED25519_SIG_LEN) cred).

Section Mtls.
  Context `{RingSignature}.

Definition MtlsAuthenticator_new (cfg : MtlsConfig) (clock : Z) : outcome MtlsAuthenticator MtlsInitError :=
  let% ca := out_map_err MtlsCa (Certificate_parse (cfg_ca_der cfg)) in
  let% _ :=
    match cfg_crl_der cfg with
    | Some crl =>
        let% l := out_map_err MtlsCrl (CertificateList_parse crl) in
        out_map_err MtlsCrl (of_result (CertificateList_verify_signed_by l ca))
    | None => Ret ()
    end in
  Ret (mkMtls (cfg_ca_der cfg) (cfg_crl_der cfg) clock).

Definition peek_subject_cn (credential : bytes) : panics (option str) :=
  match split_credential credential with
  | None => Some None
  | Some (leaf_der, _) =>
      match Certificate_parse leaf_der with
      | Ret cert => subject_cn cert
      | Fail _ => Some None
      | Panic => None
      end
  end.

(** The last check of [authenticate]: the optional revocation list. *)
Definition check_crl (m : MtlsAuthenticator) (ca : Certificate) (serial : bytes) : outcome () AuthError :=
  match crl_der m with
  | None => Ret ()
  | Some crl_der =>
      let% crl := out_map_err (const (Misconfigured "mtls: crl reparse failed")) (CertificateList_parse crl_der) in
      let% _ := out_map_err (const (Misconfigured "mtls: crl signature"))
                  (of_result (CertificateList_verify_signed_by crl ca)) in
      let% revoked := out_panics (is_revoked crl serial) in
      if revoked then Fail Rejected else Ret ()
  end.

Definition MtlsAuthenticator_authenticate (m : MtlsAuthenticator) (ctx : AuthContext) : outcome () AuthError :=
  let% (leaf_der, transcript_sig) := out_ok_or (split_credential (presented_credential ctx)) Rejected in
  let% leaf := out_map_err (const Rejected) (Certificate_parse leaf_der) in
  let% ca := out_map_err (const (Misconfigured "mtls: ca cert reparse failed")) (Certificate_parse (ca_der m)) in
  let% _ := out_map_err (const Rejected) (of_result (Certificate_verify_signed_by leaf ca)) in
  if negb (bool_decide (c_spki_algorithm_oid leaf = OID_ED25519)) then Fail Rejected else
  if negb (length (c_spki_key_bytes leaf) =? 32)%nat then Fail Rejected else
  let% _ := out_map_err (const Rejected)
              (of_result (verify Ed25519 (c_spki_key_bytes leaf) (handshake_hash ctx) transcript_sig)) in
  let now := m_clock m in
  if negb (is_valid_at leaf now) then Fail Rejected else
  if negb (is_valid_at ca now) then Fail (Misconfigured "mtls: ca cert expired") else
  check_crl m ca (c_serial leaf).

#[export] Instance Mtls_Authenticator : Authenticator MtlsAuthenticator :=
  {| auth_name := "mtls"; authenticate m ctx := (m, MtlsAuthenticator_authenticate m ctx) |}.

End Mtls.

(** ** Comparison *)

Lemma lor_fold_zero (l : list (Z * Z)) d :
  0 <= d → Forall (fun '(x, y) => 0 <= x ∧ 0 <= y) l →
  foldl (fun diff '(x, y) => Z.lor diff (Z.lxor x y)) d l = 0 ↔ d = 0 ∧ Forall (fun '(x, y) => x = y) l.
Proof.
  revert d. induction l as [|[x y] l IH]; intros d Hd Hl; cbn; [naive_solver|].
  apply Forall_cons in Hl as [[Hx Hy] Hl]. rewrite IH; [|apply Z.lor_nonneg; split; [done|by apply Z.lxor_nonneg]|done].
  rewrite Z.lor_eq_0_iff, Z.lxor_eq_0_iff, Forall_cons. tauto.
Qed.

Lemma zip_eq_Forall (a b : bytes) : length a = length b → Forall (fun '(x, y) => x = y) (zip a b) ↔ a = b.
Proof.
  revert b. induction a as [|x a IH]; intros [|y b] Hl; cbn in *; try done. injection Hl as Hl.
  rewrite Forall_cons, IH by done. naive_solver.
Qed.

(** The comparison that never exits early is equality. *)
Lemma constant_time_eq_spec a b : Forall byte_ok a → Forall byte_ok b → constant_time_eq a b = bool_decide (a = b).
Proof.
  intros Ha Hb. unfold constant_time_eq. destruct (Nat.eqb_spec (length a) (length b)) as [Hl|Hl]; cbn [negb].
  2: { rewrite bool_decide_false; [done|]. by intros ->. }
  apply Bool.eq_iff_eq_true. rewrite Z.eqb_eq, bool_decide_eq_true, lor_fold_zero, zip_eq_Forall; [tauto|done|done|].
  clear Hl. revert b Hb. induction Ha as [|x a [Hx _] _ IH]; intros [|y b] Hb; cbn; try constructor;
    apply Forall_cons in Hb as [[Hy _] Hb]; [done|by apply IH].
Qed.

(** ** Public keys *)

Lemma lor_bit_fold {A} (f : A → bool) (l : list A) v : 0 <= v →
  foldl (fun found x => Z.lor found (if f x then 1 else 0)) v l = 0 ↔ v = 0 ∧ Forall (fun x => f x = false) l.
Proof.
  revert v. induction l as [|x l IH]; intros v Hv; cbn; [naive_solver|].
  rewrite IH by (apply Z.lor_nonneg; split; [done|by case_match]). rewrite Z.lor_eq_0_iff, Forall_cons.
  destruct (f x); naive_solver.
Qed.

Definition key_ok (k : bytes) : Prop := length k = PUBLIC_KEY_LEN ∧ Forall byte_ok k.

Lemma contains_spec l key : key_ok key → Forall key_ok (allowed l) →
  PublicKeyList_contains l key = bool_decide (key ∈ allowed l).
Proof.
  intros [Hk Hkb] Hl. unfold PublicKeyList_contains. apply Bool.eq_iff_eq_true.
  rewrite negb_true_iff, Z.eqb_neq, lor_bit_fold, bool_decide_eq_true by done.
  assert (∀ c, c ∈ allowed l → constant_time_eq (take PUBLIC_KEY_LEN key) (take PUBLIC_KEY_LEN c) = bool_decide (key = c)) as Hc.
  { intros c Hin. rewrite Forall_forall in Hl. destruct (Hl c Hin) as [H1 H2].
    rewrite !take_ge by lia. by apply constant_time_eq_spec. }
  rewrite Forall_forall. split.
  - intros Hn. destruct (decide (key ∈ allowed l)) as [|Hnin]; [done|]. exfalso. apply Hn. split; [done|].
    intros c Hin. rewrite Hc by done. apply bool_decide_false. by intros ->.
  - intros Hin [_ Hall]. specialize (Hall key Hin). rewrite Hc, bool_decide_true in Hall by done. done.
Qed.

(** The key list admits exactly its members, and an empty list admits everyone,
    the same rule the responder applies to the whitelist it exports. *)
Lemma pubkey_exact l ctx : key_ok (initiator_static ctx) → Forall key_ok (allowed l) →
  PublicKeyList_authenticate l ctx = ok_if (bool_decide (to_responder_whitelist l = [] ∨ initiator_static ctx ∈ to_responder_whitelist l)).
Proof.
  intros Hk Hl. unfold PublicKeyList_authenticate, to_responder_whitelist. rewrite contains_spec by done.
  destruct (allowed l) as [|c cs] eqn:E; [by rewrite bool_decide_true by (by left)|]. f_equal.
  apply bool_decide_ext. naive_solver.
Qed.

(** ** Pre-shared keys *)

Section PskFacts.
  Context `{Blake3} (blake3_bytes : ∀ d, Forall byte_ok (blake3 d)).

(** A provisioned key is accepted exactly from those whose digest agrees; under
    a digest without a collision on the two inputs, from the holder of the key. *)
Lemma psk_exact psk p ctx :
  PresharedKey_new psk = Ok p →
  (blake3 (PSK_CONTEXT ++ presented_credential ctx) = blake3 (PSK_CONTEXT ++ psk) → presented_credential ctx = psk) →
  PresharedKey_authenticate p ctx = ok_if (bool_decide (presented_credential ctx = psk)).
Proof.
  unfold PresharedKey_new. intros Hp Hinj. destruct (Nat.ltb_spec (length psk) PSK_MIN_LEN) as [|Hmin]; [done|].
  destruct (PSK_MAX_LEN <? length psk)%nat; [done|]. injection Hp as <-. unfold PresharedKey_authenticate. cbn [psk_digest].
  destruct (presented_credential ctx) as [|b cred] eqn:E.
  { rewrite bool_decide_false; [done|]. intros <-. cbn in Hmin. unfold PSK_MIN_LEN in Hmin. lia. }
  rewrite constant_time_eq_spec by apply blake3_bytes. f_equal. apply bool_decide_ext. split; [done|]. by intros <-.
Qed.

(** The transcript plays no part: a credential captured in one handshake is
    accepted in every other. *)
Lemma psk_not_bound_to_transcript p ctx h :
  PresharedKey_authenticate p (mkAuthContext (initiator_static ctx) h (presented_credential ctx)) =
  PresharedKey_authenticate p ctx.
Proof. done. Qed.

End PskFacts.

(** ** TOTP codes *)

Lemma dec_0 w : dec w 0 = replicate w 48.
Proof. induction w as [|w IH]; [done|]. cbn [dec]. rewrite Z.div_0_l, IH by lia. by rewrite replicate_S_end. Qed.

Lemma digits_fuel_dec fuel : ∀ n w acc, 0 <= n < 10 ^ Z.of_nat fuel → n < 10 ^ Z.of_nat w → (0 < fuel)%nat → (0 < w)%nat →
  (length (digits_fuel fuel n acc) <= w + length acc)%nat ∧
  replicate (w + length acc - length (digits_fuel fuel n acc)) 48 ++ digits_fuel fuel n acc = dec w n ++ acc.
Proof.
  induction fuel as [|fuel IH]; intros n w acc Hn Hw Hf Hw0; [lia|]. cbn [digits_fuel].
  destruct w as [|w]; [lia|]. cbn [dec]. destruct (Z.ltb_spec n 10) as [Hlt|Hge].
  - rewrite Z.div_small, Z.mod_small, dec_0 by lia. cbn [length]. split; [lia|].
    replace (S w + length acc - S (length acc))%nat with w by lia. by rewrite <- app_assoc.
  - rewrite Nat2Z.inj_succ, Z.pow_succ_r in Hn, Hw by lia.
    destruct fuel as [|fuel]; [change (10 ^ Z.of_nat 0) with 1 in Hn; lia|].
    destruct w as [|w]; [change (10 ^ Z.of_nat 0) with 1 in Hw; lia|].
    destruct (IH (n / 10) (S w) ((48 + n mod 10) :: acc)) as [IH1 IH2];
      [Z.to_euclidean_division_equations; lia|Z.to_euclidean_division_equations; lia|lia|lia|].
    cbn [length] in IH1, IH2. rewrite <- app_assoc. cbn [app]. rewrite <- IH2. split; [lia|]. f_equal. f_equal. lia.
Qed.

Lemma format_padded_dec w n : (0 < w)%nat → 0 <= n < 10 ^ Z.of_nat w → format_padded w n = dec w n.
Proof.
  intros Hw Hn. unfold format_padded, show_uint.
  destruct (digits_fuel_dec (S (Z.to_nat (Z.log2 n))) n w []) as [_ E]; [split; [lia|apply show_uint_fuel; lia]|lia|lia|done|].
  cbn [length] in E. by rewrite Nat.add_0_r, app_nil_r in E.
Qed.

Definition totp_config_ok (cfg : TotpConfig) : Prop :=
  6 <= digits cfg <= 8 ∧ 0 < period_secs cfg ∧ 0 <= skew_window cfg <= 8.

Lemma totp_with_ok secret digits period window replay cfg :
  0 <= period → 0 <= window → TotpConfig_with secret digits period window replay = Ok cfg → totp_config_ok cfg.
Proof.
  unfold TotpConfig_with, totp_config_ok. intros Hp Hw. destruct (_ <? _)%nat; [done|]. destruct (_ <? _)%nat; [done|].
  destruct (Z.leb_spec 6 digits); [|done]. destruct (Z.leb_spec digits 8); [|done]. cbn [andb negb].
  destruct (Z.eqb_spec period 0); [done|]. destruct (Z.ltb_spec 8 window); [done|]. intros [= <-]. cbn. lia.
Qed.

Section TotpFacts.
  Context `{RingCrypto}.

(** A code is exactly [digits] decimal digits, leading zeros kept. *)
Lemma compute_totp_dec secret step digits : 0 < digits →
  ∃ code, 0 <= code < 10 ^ digits ∧ compute_totp secret step digits = dec (Z.to_nat digits) code.
Proof.
  intros Hd. unfold compute_totp. set (bin := Z.lor _ _). exists (bin mod 10 ^ digits).
  assert (0 <= bin mod 10 ^ digits < 10 ^ digits) as Hm by (apply Z.mod_pos_bound, Z.pow_pos_nonneg; lia).
  split; [done|]. apply format_padded_dec; [lia|]. by rewrite Z2Nat.id by lia.
Qed.

Lemma dec_bytes w n : Forall byte_ok (dec w n).
Proof.
  eapply Forall_impl; [apply dec_digits|]. intros b. unfold is_ascii_digit. rewrite andb_true_iff, !Z.leb_le. zlia.
Qed.

Lemma compute_totp_shape cfg step : totp_config_ok cfg →
  totp_shape_ok cfg (compute_totp (secret cfg) step (digits cfg)) = true ∧
  Forall byte_ok (compute_totp (secret cfg) step (digits cfg)).
Proof.
  intros (Hd & _). destruct (compute_totp_dec (secret cfg) step (digits cfg) ltac:(lia)) as (code & _ & ->).
  split; [|apply dec_bytes]. unfold totp_shape_ok. rewrite length_dec, Z2Nat.id, Z.eqb_refl by lia.
  rewrite (proj2 (Nat.eqb_neq _ _)) by lia. rewrite forallb_digits by apply dec_digits. done.
Qed.

(** The time steps the server tries. *)
Definition in_skew_window (cfg : TotpConfig) (now s : Z) : Prop :=
  0 <= s ∧ now / period_secs cfg - skew_window cfg <= s <= now / period_secs cfg + skew_window cfg.

Definition code_matches (cfg : TotpConfig) (cred : bytes) (s : Z) : Prop :=
  cred = compute_totp (secret cfg) s (digits cfg).

#[local] Instance code_matches_dec cfg cred s : Decision (code_matches cfg cred s).
Proof. unfold code_matches. apply _. Defined.

(** [s] is the latest step of the window whose code is [cred]. *)
Definition latest_match (cfg : TotpConfig) (cred : bytes) (now s : Z) : Prop :=
  in_skew_window cfg now s ∧ code_matches cfg cred s ∧
  ∀ s', in_skew_window cfg now s' → code_matches cfg cred s' → s' <= s.

Lemma try_offset_eq cfg cred center m off : totp_config_ok cfg → Forall byte_ok cred → center + off < 2 ^ 64 →
  try_offset cfg cred center m off =
    if decide (0 <= center + off ∧ code_matches cfg cred (center + off)) then Some (center + off) else m.
Proof.
  intros Hc Hb Hlt. unfold try_offset, code_matches. destruct (Z.ltb_spec (center + off) 0).
  { rewrite decide_False; [done|lia]. }
  rewrite wrap_small by done. rewrite constant_time_eq_spec; [|by apply compute_totp_shape|done].
  destruct (decide (_ ∧ _)) as [[_ E]|E]; [by rewrite bool_decide_true|]. rewrite bool_decide_false; naive_solver.
Qed.

(** The loop over [n] offsets from the low end of the window. *)
Lemma window_loop cfg cred center low n : totp_config_ok cfg → Forall byte_ok cred → center + low + Z.of_nat n <= 2 ^ 64 →
  match foldl (try_offset cfg cred center) None (seqZ low (Z.of_nat n)) with
  | Some s => 0 <= s ∧ center + low <= s < center + low + Z.of_nat n ∧ code_matches cfg cred s ∧
              ∀ s', 0 <= s' → center + low <= s' < center + low + Z.of_nat n → code_matches cfg cred s' → s' <= s
  | None => ∀ s', 0 <= s' → center + low <= s' < center + low + Z.of_nat n → ¬ code_matches cfg cred s'
  end.
Proof.
  intros Hc Hb. induction n as [|n IH]; intros Hlt; [cbn [Z.of_nat seqZ]; intros s' _ Hs; exfalso; lia|].
  replace (Z.of_nat (S n)) with (Z.of_nat n + 1) in * by lia. rewrite seqZ_app, foldl_app by lia.
  change (seqZ (low + Z.of_nat n) 1) with [low + Z.of_nat n]. cbn [foldl].
  rewrite try_offset_eq by (done || lia). specialize (IH ltac:(lia)). set (new := center + (low + Z.of_nat n)).
  assert (∀ s', s' < center + low + (Z.of_nat n + 1) → s' = new ∨ s' < center + low + Z.of_nat n) as Hsplit by (unfold new; lia).
  destruct (decide (0 <= new ∧ code_matches cfg cred new)) as [[H0 Hm]|Hm].
  - split_and!; [done|unfold new; lia|unfold new; lia|done|]. unfold new. lia.
  - destruct (foldl _ None _) as [s|].
    + destruct IH as (I0 & I1 & I2 & I3). split_and!; [done|lia|lia|done|]. intros s' Hs0 Hs Hcm.
      destruct (Hsplit s' ltac:(lia)) as [->|]; [tauto|]. apply I3; [done|lia|done].
    + intros s' Hs0 Hs Hcm. destruct (Hsplit s' ltac:(lia)) as [->|]; [tauto|]. by apply (IH s'); [|lia|].
Qed.

Lemma matched_step_spec cfg cred now : totp_config_ok cfg → Forall byte_ok cred →
  0 <= now → now / period_secs cfg + skew_window cfg < 2 ^ 64 →
  match matched_step cfg cred now with
  | Some s => latest_match cfg cred now s
  | None => ∀ s, in_skew_window cfg now s → ¬ code_matches cfg cred s
  end.
Proof.
  intros Hc Hb Hnow Hlt. unfold matched_step. pose proof Hc as (_ & _ & Hw).
  replace (2 * skew_window cfg + 1) with (Z.of_nat (Z.to_nat (2 * skew_window cfg + 1))) by lia.
  pose proof (window_loop cfg cred (now / period_secs cfg) (- skew_window cfg) (Z.to_nat (2 * skew_window cfg + 1)) Hc Hb ltac:(lia)) as HL.
  unfold latest_match, in_skew_window. destruct (foldl _ None _) as [s|].
  - destruct HL as (H0 & H1 & H2 & H3). split_and!; [done|lia|lia|done|]. intros s' [] ?. apply H3; [done|lia|done].
  - intros s [H0 H1]. by apply HL; [|lia].
Qed.

(** The state a request finds. *)
Definition totp_ready (t : TotpAuthenticator) (cred : bytes) : Prop :=
  totp_config_ok (t_config t) ∧ Forall byte_ok cred ∧ 0 <= t_clock t ∧
  current_step t + skew_window (t_config t) < umax 64.

Definition replay_ok (t : TotpAuthenticator) (s : Z) : Prop :=
  reject_replay (t_config t) = false ∨ last_accepted_step t = umax 64 ∨ last_accepted_step t < s.

Lemma latest_match_unique cfg cred now s s' : latest_match cfg cred now s → latest_match cfg cred now s' → s = s'.
Proof. intros (A1 & A2 & A3) (B1 & B2 & B3). specialize (A3 s' B1 B2). specialize (B3 s A1 A2). lia. Qed.

Lemma totp_authenticate_spec t ctx : totp_ready t (presented_credential ctx) →
  (∃ s, latest_match (t_config t) (presented_credential ctx) (t_clock t) s ∧ replay_ok t s ∧
     TotpAuthenticator_authenticate t ctx =
       ((if reject_replay (t_config t) then mkTotp (t_config t) s (t_clock t) else t), Ret ())) ∨
  ((¬ ∃ s, latest_match (t_config t) (presented_credential ctx) (t_clock t) s ∧ replay_ok t s) ∧
     TotpAuthenticator_authenticate t ctx = (t, Fail Rejected)).
Proof.
  intros (Hc & Hb & Hn & Hlt). unfold TotpAuthenticator_authenticate, current_step, umax in *.
  pose proof (matched_step_spec (t_config t) (presented_credential ctx) (t_clock t) Hc Hb Hn ltac:(lia)) as Hm.
  destruct (totp_shape_ok (t_config t) (presented_credential ctx)) eqn:Hs; cbn [negb].
  2: { right. split; [|done]. intros (s & (_ & Hcm & _) & _). unfold code_matches in Hcm.
       rewrite Hcm, (proj1 (compute_totp_shape _ s Hc)) in Hs. done. }
  destruct (matched_step _ _ _) as [s|].
  2: { right. split; [|done]. intros (s & (Hw & Hcm & _) & _). by apply (Hm s). }
  unfold replay_ok, umax. destruct (reject_replay (t_config t)) eqn:Hr.
  2: { left. exists s. split_and!; [done|by left|done]. }
  destruct (Z.eqb_spec (last_accepted_step t) (2 ^ 64 - 1)) as [E|E]; cbn [negb andb].
  { left. exists s. split_and!; [done|tauto|done]. }
  destruct (Z.leb_spec s (last_accepted_step t)) as [Hle|Hgt].
  - right. split; [|done]. intros (s' & Hs' & [?|[?|?]]); [done|done|]. rewrite (latest_match_unique _ _ _ _ _ Hs' Hm) in *. lia.
  - left. exists s. split_and!; [done|tauto|done].
Qed.

(** TOTP accepts exactly the codes of the skew window: a credential passes if and
    only if it is the zero-padded code of a step within the configured skew of the
    current one and, in strict mode, the latest such step is past the last accepted
    one; strict mode then records that step, lenient mode records nothing. *)
Theorem totp_exact t ctx :
  totp_ready t (presented_credential ctx) →
  ((authenticate t ctx).2 = Ret () ↔
     ∃ s, latest_match (t_config t) (presented_credential ctx) (t_clock t) s ∧ replay_ok t s) ∧
  (∀ s, (authenticate t ctx).2 = Ret () → latest_match (t_config t) (presented_credential ctx) (t_clock t) s →
     (authenticate t ctx).1 = if reject_replay (t_config t) then mkTotp (t_config t) s (t_clock t) else t).
Proof.
  intros Hr. cbn [authenticate Totp_Authenticator].
  destruct (totp_authenticate_spec t ctx Hr) as [(s & Hm & Ho & ->)|[Hn ->]]; cbn [fst snd].
  - split; [split; [eauto|done]|]. intros s' _ Hs'. by rewrite (latest_match_unique _ _ _ _ _ Hs' Hm).
  - split; [split; [done|tauto]|done].
Qed.

(** Requests in sequence, each at its own time; the accepted ones with the step
    that was recorded. *)
Fixpoint totp_accepted (t : TotpAuthenticator) (reqs : list (Z * AuthContext)) : list (Z * bytes) :=
  match reqs with
  | [] => []
  | (now, ctx) :: reqs =>
      let '(t', o) := TotpAuthenticator_authenticate (mkTotp (t_config t) (last_accepted_step t) now) ctx in
      match o with
      | Ret _ => (last_accepted_step t', presented_credential ctx) :: totp_accepted t' reqs
      | _ => totp_accepted t' reqs
      end
  end.

Definition request_ok (cfg : TotpConfig) (r : Z * AuthContext) : Prop :=
  totp_ready (mkTotp cfg 0 r.1) (presented_credential r.2).

Lemma totp_accepted_sorted cfg reqs : reject_replay cfg = true → Forall (request_ok cfg) reqs →
  ∀ t, t_config t = cfg →
  StronglySorted (fun x y => x.1 < y.1) (totp_accepted t reqs) ∧
  Forall (fun x => code_matches cfg x.2 x.1) (totp_accepted t reqs) ∧
  (last_accepted_step t ≠ umax 64 → Forall (fun x => last_accepted_step t < x.1) (totp_accepted t reqs)).
Proof.
  intros Hrr Hreqs. induction Hreqs as [|[now ctx] reqs Hr Hreqs IH]; intros t <-; cbn [totp_accepted].
  { split_and!; [constructor|constructor|intros; constructor]. }
  set (t0 := mkTotp (t_config t) (last_accepted_step t) now).
  destruct (totp_authenticate_spec t0 ctx) as [(s & Hm & Ho & ->)|[_ ->]].
  { exact Hr. }
  2: { exact (IH t0 eq_refl). }
  cbn [t_config t0]. rewrite Hrr. cbn [last_accepted_step].
  destruct (IH (mkTotp (t_config t) s now) eq_refl) as (I1 & I2 & I3). cbn [last_accepted_step] in I3.
  destruct Hm as ((Hs0 & Hs) & Hcm & _). destruct Hr as (_ & _ & _ & Hlt). unfold current_step in Hlt. cbn in Hs, Hlt.
  specialize (I3 ltac:(unfold umax in *; lia)).
  split_and!; [by constructor|by constructor|]. intros Hne. destruct Ho as [Ho|[Ho|Ho]]; cbn in Ho; [congruence|done|].
  constructor; [done|]. eapply Forall_impl; [exact I3|]. cbn. lia.
Qed.

(** Strict mode, one request at a time: the steps accepted over any run are
    strictly increasing, whatever the clock does between requests, so no code is
    accepted twice for the same step. *)
Theorem totp_strict_no_replay t reqs :
  reject_replay (t_config t) = true → Forall (request_ok (t_config t)) reqs →
  StronglySorted (fun x y => x.1 < y.1) (totp_accepted t reqs) ∧
  Forall (fun x => code_matches (t_config t) x.2 x.1) (totp_accepted t reqs).
Proof. intros Hrr Hreqs. destruct (totp_accepted_sorted _ reqs Hrr Hreqs t eq_refl) as (? & ? & _). done. Qed.

End TotpFacts.

(** *** Two handshakes at once

    The strict check is a load, a comparison and a store; threads interleave
    between them. *)

Inductive totp_pc := TStart | TLoaded (prev : Z) | TFinished (accepted : bool).

(** The shared atomic, and for each thread the step it matched and its position. *)
Record TotpRace := mkRace { race_last : Z; race_threads : list (Z * totp_pc) }.

Inductive totp_step : TotpRace → TotpRace → Prop :=
| TS_load l ts i s :
    ts !! i = Some (s, TStart) → totp_step (mkRace l ts) (mkRace l (<[i := (s, TLoaded l)]> ts))
| TS_refuse l ts i s prev :
    ts !! i = Some (s, TLoaded prev) → negb (prev =? umax 64) && (s <=? prev) = true →
    totp_step (mkRace l ts) (mkRace l (<[i := (s, TFinished false)]> ts))
| TS_store l ts i s prev :
    ts !! i = Some (s, TLoaded prev) → negb (prev =? umax 64) && (s <=? prev) = false →
    totp_step (mkRace l ts) (mkRace s (<[i := (s, TFinished true)]> ts)).

(** Strict mode does not hold between threads: a code that a second request in
    sequence has refused is accepted by two concurrent handshakes, because both
    load the old step before either stores. *)
Theorem totp_replay_race `{RingCrypto} t ctx s :
  reject_replay (t_config t) = true → last_accepted_step t = umax 64 →
  totp_shape_ok (t_config t) (presented_credential ctx) = true →
  matched_step (t_config t) (presented_credential ctx) (t_clock t) = Some s → s ≠ umax 64 →
  (authenticate t ctx).2 = Ret () ∧
  (authenticate (authenticate t ctx).1 ctx).2 = Fail Rejected ∧
  rtc totp_step (mkRace (last_accepted_step t) [(s, TStart); (s, TStart)])
                (mkRace s [(s, TFinished true); (s, TFinished true)]).
Proof.
  intros Hrr Hl Hs Hm Hne. cbn [authenticate Totp_Authenticator]. unfold TotpAuthenticator_authenticate.
  rewrite Hs, Hm, Hrr, Hl. cbn [negb]. rewrite Z.eqb_refl. cbn [negb andb fst snd t_config t_clock last_accepted_step].
  rewrite Hs, Hm, Hrr. cbn [negb]. rewrite (proj2 (Z.eqb_neq _ _)), Z.leb_refl by done. split_and!; [done|done|].
  eapply rtc_l; [by apply (TS_load _ _ 0)|]. eapply rtc_l; [by apply (TS_load _ _ 1)|].
  eapply rtc_l; [eapply (TS_store _ _ 0); [done|by rewrite Z.eqb_refl]|].
  eapply rtc_l; [eapply (TS_store _ _ 1); [done|by rewrite Z.eqb_refl]|]. done.
Qed.

(** ** mTLS *)

Lemma split_credential_app leaf sig extra :
  Z.of_nat (length leaf) < 2 ^ 16 → length sig = ED25519_SIG_LEN →
  split_credential (to_be_bytes 2 (Z.of_nat (length leaf)) ++ leaf ++ sig ++ extra) = Some (leaf, sig).
Proof.
  intros Hl Hs. pose proof (from_to_be_bytes 2 (Z.of_nat (length leaf)) ltac:(unfold in_width; cbn in *; lia)) as Hn.
  pose proof (length_to_be_bytes 2 (Z.of_nat (length leaf))) as Hh. set (hdr := to_be_bytes 2 _) in *. clearbody hdr.
  unfold split_credential. rewrite !length_app, Hh, Hs. rewrite (proj2 (Nat.ltb_ge _ _)) by lia.
  replace (take 2 (hdr ++ leaf ++ sig ++ extra)) with hdr by (rewrite <- Hh; by rewrite take_app_length).
  rewrite Hn, Nat2Z.id. rewrite (proj2 (Nat.ltb_ge _ _)) by lia. unfold slice. do 2 f_equal.
  - rewrite drop_app_ge, Hh, Nat.sub_diag, drop_0 by lia.
    replace (2 + length leaf - 2)%nat with (length leaf) by lia. by rewrite take_app_length.
  - rewrite app_assoc, drop_app_ge by (rewrite length_app; lia). rewrite length_app, Hh, Nat.sub_diag, drop_0.
    replace (2 + length leaf + ED25519_SIG_LEN - (2 + length leaf))%nat with (length sig) by lia. by rewrite take_app_length.
Qed.

Lemma split_credential_bytes cred leaf sig : Forall byte_ok cred → split_credential cred = Some (leaf, sig) → Forall byte_ok leaf.
Proof.
  unfold split_credential. intros Hb. destruct (_ <? _)%nat; [done|]. cbv zeta. destruct (_ <? _)%nat; [done|].
  intros [= <- <-]. unfold slice. by apply Forall_take, Forall_drop.
Qed.

Lemma of_result_safe {A E} (r : result A E) : of_result r ≠ Panic.
Proof. by destruct r. Qed.

Lemma out_map_err_safe {A E F} (f : E → F) (m : outcome A E) : m ≠ Panic → out_map_err f m ≠ Panic.
Proof. by destruct m. Qed.

(** The remaining outcomes of [authenticate] once the CA and the list parsed. *)
Ltac mtls_cases :=
  repeat first
    [ progress cbn [out_ok_or out_panics of_result out_map_err out_bind const]
    | match goal with
      | |- context [out_map_err _ (of_result ?r)] => destruct r
      | |- context [out_map_err _ (Certificate_parse ?d)] => destruct (Certificate_parse d)
      | |- context [out_ok_or ?o _] => destruct o as [[]|]
      | |- context [out_panics ?o] => destruct o as [[]|]
      | |- (if ?b then _ else _) = _ → _ => destruct b
      | |- _ = _ → _ => let H := fresh in intros H; first [discriminate H | injection H as <-; reflexivity]
      end ].

Section MtlsFacts.
  Context `{RingSignature}.

Lemma verify_bind {B E} (conv : VerifyError → E) alg key msg sig (k : () → outcome B E) :
  (let% u := of_result (result_map_err conv (verify alg key msg sig)) in k u) =
    if ring_verify alg key msg sig then k () else Fail (conv VerifyInvalid).
Proof. unfold verify. by destruct (ring_verify alg key msg sig). Qed.

Lemma out_map_err_of_result {A E F} (f : E → F) (r : result A E) : out_map_err f (of_result r) = of_result (result_map_err f r).
Proof. by destruct r. Qed.

Lemma result_map_err_comp {A E F G} (f : E → F) (g : F → G) (r : result A E) :
  result_map_err g (result_map_err f r) = result_map_err (fun e => g (f e)) r.
Proof. by destruct r. Qed.

Lemma if_ret_iff {E} (b : bool) (e : E) (m : outcome () E) : (if negb b then Fail e else m) = Ret () ↔ b = true ∧ m = Ret ().
Proof. destruct b; cbn; naive_solver. Qed.

Lemma if_ret_iff' {E} (b : bool) (e : E) (m : outcome () E) : (if b then m else Fail e) = Ret () ↔ b = true ∧ m = Ret ().
Proof. destruct b; cbn; naive_solver. Qed.

(** The revocation list an authenticator holds: none, one that does not parse,
    or a parsed list with the entries the walk reads in it. *)
Inductive CrlView := NoCrl | BadCrl | ReadCrl (l : CertificateList) (es : list (bytes * bytes)).

Definition crl_is (m : MtlsAuthenticator) (crl : CrlView) : Prop :=
  match crl_der m, crl with
  | None, NoCrl => True
  | Some d, BadCrl => ∀ l, CertificateList_parse d ≠ Ret l
  | Some d, ReadCrl l es => CertificateList_parse d = Ret l ∧ walked_entries (l_revoked_raw l) es
  | _, _ => False
  end.

(** What a list must satisfy for a certificate with this serial to pass: it
    verifies under the CA's key and none of the entries read names the serial. *)
Definition crl_passes (crl : CrlView) (ca_key serial : bytes) : Prop :=
  match crl with
  | NoCrl => True
  | BadCrl => False
  | ReadCrl l es =>
      ring_verify (l_signature_algorithm l) ca_key (l_raw_tbs l) (l_signature_value l) = true ∧ serial ∉ es.*1
  end.

Lemma check_crl_iff m crl ca serial : crl_is m crl →
  check_crl m ca serial = Ret () ↔ crl_passes crl (c_spki_key_bytes ca) serial.
Proof.
  unfold crl_is, check_crl. destruct (crl_der m) as [d|], crl as [| |l es]; try done.
  { intros Hd. destruct (CertificateList_parse d) as [l|e|] eqn:E; [by destruct (Hd l)|done|done]. }
  intros (-> & Hes). cbn [out_map_err out_bind crl_passes]. unfold CertificateList_verify_signed_by.
  rewrite out_map_err_of_result, result_map_err_comp, verify_bind, if_ret_iff', (is_revoked_exact l es) by done.
  cbn [out_panics out_bind]. case_bool_decide; naive_solver.
Qed.

(** C12: mTLS accepts exactly the certificates it should.  The CA and the
    presented leaf are DER encodings of certificates of any contents, and the
    configured revocation list is absent, unreadable, or a list whose entries
    the walk reads up to its end or up to the first malformed one (none when
    the list has no [revokedCertificates]).  The credential is accepted if and
    only if the CA's key signed the leaf's TBS bytes, the leaf holds a 32-byte
    Ed25519 key which signed this handshake's transcript hash, the clock is
    within both validity windows and, when a list is configured, it parses, the
    CA's key signed it and no entry read from it names the leaf's serial.
    Names are not among the conditions: the code compares neither the leaf's
    nor the list's issuer with the CA's subject. *)
Theorem mtls_exact m ctx leaf v nb na alg ca v' nb' na' alg' sig extra crl :
  fields_ok leaf v nb na alg → fields_ok ca v' nb' na' alg' →
  Z.of_nat (length (encode_certificate leaf)) < 2 ^ 16 → length sig = ED25519_SIG_LEN →
  ca_der m = encode_certificate ca → crl_is m crl →
  presented_credential ctx =
    to_be_bytes 2 (Z.of_nat (length (encode_certificate leaf))) ++ encode_certificate leaf ++ sig ++ extra →
  ((authenticate m ctx).2 = Ret () ↔
     ring_verify alg (f_spki_key ca) (encode_tbs leaf) (f_signature leaf) = true ∧
     f_spki_oid leaf = OID_ED25519 ∧ length (f_spki_key leaf) = 32%nat ∧
     ring_verify Ed25519 (f_spki_key leaf) (handshake_hash ctx) sig = true ∧
     nb <= m_clock m <= na ∧ nb' <= m_clock m <= na' ∧ crl_passes crl (f_spki_key ca) (f_serial leaf)).
Proof.
  intros Hleaf Hca Hlen Hsig Hcad Hcrl Hcred. cbn [authenticate Mtls_Authenticator snd].
  unfold MtlsAuthenticator_authenticate. rewrite Hcred, split_credential_app by done. cbn [out_ok_or out_bind].
  pose proof (certificate_parse_encoded leaf v nb na alg [] Hleaf) as El. rewrite app_nil_r in El. rewrite El.
  pose proof (certificate_parse_encoded ca v' nb' na' alg' [] Hca) as Ec. rewrite app_nil_r in Ec. rewrite Hcad, Ec.
  cbn [out_map_err out_bind]. unfold Certificate_verify_signed_by, CertificateList_verify_signed_by, is_valid_at.
  cbn [c_signature_algorithm c_spki_key_bytes c_raw_tbs c_signature_value c_spki_algorithm_oid c_not_before c_not_after c_serial].
  rewrite !out_map_err_of_result, result_map_err_comp, verify_bind, if_ret_iff', !if_ret_iff, verify_bind, if_ret_iff',
    !if_ret_iff, bool_decide_eq_true, Nat.eqb_eq, !andb_true_iff, !Z.leb_le.
  rewrite (check_crl_iff m crl) by done. cbn [c_spki_key_bytes]. tauto.
Qed.

Definition mtls_ok (m : MtlsAuthenticator) : Prop :=
  Forall byte_ok (ca_der m) ∧ ∀ d, crl_der m = Some d → Forall byte_ok d.

Lemma check_crl_safe m ca serial : mtls_ok m → check_crl m ca serial ≠ Panic.
Proof.
  intros [_ Hd]. unfold check_crl. destruct (crl_der m) as [d|]; [|done]. specialize (Hd d eq_refl).
  pose proof (CertificateList_parse_holds d Hd) as Hl. apply (holds_safe (fun _ => True)).
  destruct (CertificateList_parse d) as [l|e|]; cbn in Hl |- *; [|done|done].
  apply holds_bind; [rewrite out_map_err_of_result; apply of_result_safe|]. intros _ _.
  destruct (l_revoked_raw l) as [raw|] eqn:Er; [|unfold is_revoked; by rewrite Er].
  pose proof (proj2 (proj2 (proj2 (bytes_never_panic raw serial (Hl raw eq_refl)))) l Er) as Hn.
  destruct (is_revoked l serial) as [[]|]; done.
Qed.

Lemma mtls_never_panics m ctx : mtls_ok m → Forall byte_ok (presented_credential ctx) →
  MtlsAuthenticator_authenticate m ctx ≠ Panic.
Proof.
  intros Hm Hc. unfold MtlsAuthenticator_authenticate. apply (holds_safe (fun _ => True)).
  destruct (split_credential (presented_credential ctx)) as [[leaf sig]|] eqn:Es; cbn [out_ok_or out_bind]; [|done].
  apply split_credential_bytes in Es; [|done].
  apply holds_bind; [by apply out_map_err_safe, Certificate_parse_never_panics|]. intros l _.
  apply holds_bind; [apply out_map_err_safe, Certificate_parse_never_panics, (proj1 Hm)|]. intros ca _.
  apply holds_bind; [rewrite out_map_err_of_result; apply of_result_safe|]. intros _ _.
  do 2 (apply holds_if; [done|]).
  apply holds_bind; [rewrite out_map_err_of_result; apply of_result_safe|]. intros _ _. cbv zeta.
  do 2 (apply holds_if; [done|]). by apply safe_holds, check_crl_safe.
Qed.

#[export] Instance Mtls_AuthLaws : AuthLaws MtlsAuthenticator mtls_ok.
Proof. split; [intros m ctx Hm Hc; by apply mtls_never_panics|done]. Qed.

(** Checking the configuration once is enough: an authenticator that [new]
    accepted reports a misconfiguration only for an expired CA certificate. *)
Theorem mtls_configured_once cfg clock m ctx reason :
  MtlsAuthenticator_new cfg clock = Ret m →
  (authenticate m ctx).2 = Fail (Misconfigured reason) → reason = "mtls: ca cert expired".
Proof.
  cbn [authenticate Mtls_Authenticator snd]. unfold MtlsAuthenticator_new, MtlsAuthenticator_authenticate, check_crl.
  destruct (Certificate_parse (cfg_ca_der cfg)) as [ca|e|] eqn:Eca; cbn [out_map_err out_bind]; [|done|done].
  destruct (cfg_crl_der cfg) as [d|] eqn:Ed.
  - destruct (CertificateList_parse d) as [l|e|] eqn:El; cbn [out_map_err out_bind]; [|done|done].
    destruct (CertificateList_verify_signed_by l ca) as [[]|e] eqn:Ev; cbn [of_result out_map_err out_bind]; [|done].
    intros [= <-]. cbn [ca_der crl_der m_clock]. rewrite Eca. cbn [out_map_err out_bind]. rewrite El.
    cbn [out_map_err out_bind]. rewrite Ev. cbn [of_result out_map_err out_bind]. mtls_cases.
  - intros [= <-]. cbn [ca_der crl_der m_clock out_bind]. rewrite Eca. cbn [out_map_err out_bind]. mtls_cases.
Qed.

End MtlsFacts.

#[export] Instance Psk_AuthLaws `{Blake3} : AuthLaws PresharedKey (fun _ => True).
Proof.
  split; [|done]. intros p ctx _ _. cbn. unfold PresharedKey_authenticate, ok_if. by repeat case_match.
Qed.

#[export] Instance KeyList_AuthLaws : AuthLaws PublicKeyList (fun _ => True).
Proof.
  split; [|done]. intros l ctx _ _. cbn. unfold PublicKeyList_authenticate, ok_if. by repeat case_match.
Qed.

#[export] Instance Totp_AuthLaws `{RingCrypto} : AuthLaws TotpAuthenticator (fun _ => True).
Proof.
  split; intros t ctx; cbn; unfold TotpAuthenticator_authenticate; [|intros e]; by repeat case_match.
Qed.

(** ** Concrete instances *)

Definition demo_totp_config : TotpConfig := mkTotpConfig (replicate 16 1) 6 30 1 true.
Definition demo_totp : TotpAuthenticator := TotpAuthenticator_with_clock demo_totp_config 1000.
Definition demo_code : bytes := compute_totp (replicate 16 1) 33 6.
Definition demo_ctx : AuthContext := mkAuthContext (replicate 32 3) (replicate 32 4) demo_code.

Lemma demo_config_ok : totp_config_ok demo_totp_config.
Proof. unfold totp_config_ok. cbn. lia. Qed.

Lemma demo_ready clock : 0 <= clock < 2 ^ 60 → totp_ready (mkTotp demo_totp_config 0 clock) demo_code.
Proof.
  intros Hc. split; [exact demo_config_ok|]. split; [apply (compute_totp_shape demo_totp_config 33), demo_config_ok|].
  split; [cbn; lia|]. unfold current_step. cbn [t_config t_clock period_secs skew_window demo_totp_config umax].
  change (umax 64) with 18446744073709551615. change (2 ^ 60) with 1152921504606846976 in Hc.
  Z.to_euclidean_division_equations; lia.
Qed.

Lemma totp_exact_witness :
  ((authenticate demo_totp demo_ctx).2 = Ret () ↔
     ∃ s, latest_match demo_totp_config demo_code 1000 s ∧ replay_ok demo_totp s) ∧
  (∀ s, (authenticate demo_totp demo_ctx).2 = Ret () → latest_match demo_totp_config demo_code 1000 s →
     (authenticate demo_totp demo_ctx).1 = mkTotp demo_totp_config s 1000).
Proof. apply (totp_exact demo_totp demo_ctx). apply (demo_ready 1000). lia. Defined.

Lemma totp_strict_no_replay_witness :
  totp_accepted demo_totp [(1000, demo_ctx); (1001, demo_ctx)] = [(33, demo_code)] ∧
  StronglySorted (fun x y => x.1 < y.1) (totp_accepted demo_totp [(1000, demo_ctx); (1001, demo_ctx)]) ∧
  Forall (fun x => code_matches demo_totp_config x.2 x.1) (totp_accepted demo_totp [(1000, demo_ctx); (1001, demo_ctx)]).
Proof.
  split; [vm_compute; reflexivity|]. apply (totp_strict_no_replay demo_totp [(1000, demo_ctx); (1001, demo_ctx)]); [reflexivity|].
  apply Forall_cons_2; [|apply Forall_cons_2; [|apply Forall_nil_2]]; [apply (demo_ready 1000)|apply (demo_ready 1001)]; lia.
Defined.

Lemma totp_replay_race_witness :
  (authenticate demo_totp demo_ctx).2 = Ret () ∧
  (authenticate (authenticate demo_totp demo_ctx).1 demo_ctx).2 = Fail Rejected ∧
  rtc totp_step (mkRace (umax 64) [(33, TStart); (33, TStart)]) (mkRace 33 [(33, TFinished true); (33, TFinished true)]).
Proof.
  apply (totp_replay_race demo_totp demo_ctx 33); [reflexivity|reflexivity|vm_compute; reflexivity|vm_compute; reflexivity|].
  vm_compute. discriminate.
Defined.

(** A signature is valid when it repeats the first byte of the key. *)
#[export] Instance demo_signature : RingSignature :=
  fun _ key _ sig => bool_decide (sig = replicate 64 (default 0 (head key))).

(** A CA whose key signed [demo_fields]. *)
Definition demo_ca : CertFields :=
  mkFields None [1] OID_ED25519 [] (f_issuer demo_fields)
    (tag_UTC_TIME, render_utc (mkDate 2020 1 1) 0 0 0) (tag_UTC_TIME, render_utc (mkDate 2049 12 31) 0 0 0)
    (f_issuer demo_fields) OID_ED25519 [] (replicate 32 5) [] (replicate 64 5).

Lemma demo_ca_ok : fields_ok demo_ca V1 1577836800 2524521600 Ed25519.
Proof. split; try (vm_compute; reflexivity); [vm_compute; discriminate|constructor]. Qed.

(** A list of the CA that revokes serial 9, and the same list for serial 7.1;
    [None] leaves the field of revoked certificates out. *)
Definition demo_crl_tbs (revoked : option (list (bytes * bytes))) : bytes :=
  tlv tag_SEQUENCE (tlv tag_INTEGER [1] ++ encode_algorithm OID_ED25519 [] ++ tlv tag_SEQUENCE (f_issuer demo_fields) ++
    encode_time (tag_UTC_TIME, render_utc (mkDate 2024 2 29) 0 0 0) ++
    match revoked with None => [] | Some es => tlv tag_SEQUENCE (revoked_entries es) end).

Definition demo_crl (revoked : option (list (bytes * bytes))) : bytes :=
  tlv tag_SEQUENCE (demo_crl_tbs revoked ++ encode_algorithm OID_ED25519 [] ++ tlv tag_BIT_STRING (0 :: replicate 64 5)).

Definition demo_crl_list (revoked : option (list (bytes * bytes))) : CertificateList :=
  mkCrl (demo_crl_tbs revoked) (f_issuer demo_fields) 1709164800 None Ed25519 (replicate 64 5) (revoked_entries <$> revoked).

Definition demo_mtls (crl : option bytes) : MtlsAuthenticator := mkMtls (encode_certificate demo_ca) crl 1800000000.

Definition demo_mtls_ctx : AuthContext :=
  mkAuthContext (replicate 32 3) (replicate 32 4)
    (to_be_bytes 2 (Z.of_nat (length (encode_certificate demo_fields))) ++ encode_certificate demo_fields ++ replicate 64 9 ++ []).

Lemma mtls_exact_witness :
  (authenticate (demo_mtls (Some (demo_crl (Some [([9], [])])))) demo_mtls_ctx).2 = Ret () ↔
     ring_verify Ed25519 (replicate 32 5) (encode_tbs demo_fields) (replicate 64 5) = true ∧
     OID_ED25519 = OID_ED25519 ∧ length (replicate 32 9) = 32%nat ∧
     ring_verify Ed25519 (replicate 32 9) (replicate 32 4) (replicate 64 9) = true ∧
     1709164800 <= 1800000000 <= 2556187200 ∧ 1577836800 <= 1800000000 <= 2524521600 ∧
     crl_passes (ReadCrl (demo_crl_list (Some [([9], [])])) [([9], [])]) (replicate 32 5) [7; 1].
Proof.
  apply (mtls_exact (demo_mtls (Some (demo_crl (Some [([9], [])])))) demo_mtls_ctx demo_fields V3 1709164800 2556187200 Ed25519
           demo_ca V1 1577836800 2524521600 Ed25519 (replicate 64 9) [] (ReadCrl (demo_crl_list (Some [([9], [])])) [([9], [])]));
    [exact demo_fields_ok|exact demo_ca_ok|vm_compute; reflexivity|reflexivity|reflexivity| |reflexivity].
  split; [vm_compute; reflexivity|]. apply (walked_list [([9], [])] []); [reflexivity|apply walk_done].
Defined.

(** The client is admitted without a list, with a list that names another
    serial and with a list that names none; refused when its serial is named. *)
Example demo_mtls_accepts :
  (authenticate (demo_mtls None) demo_mtls_ctx).2 = Ret () ∧
  (authenticate (demo_mtls (Some (demo_crl (Some [([9], [])])))) demo_mtls_ctx).2 = Ret () ∧
  (authenticate (demo_mtls (Some (demo_crl None))) demo_mtls_ctx).2 = Ret () ∧
  (authenticate (demo_mtls (Some (demo_crl (Some [([9], []); ([7; 1], [])])))) demo_mtls_ctx).2 = Fail Rejected.
Proof. vm_compute. done. Qed.

Lemma mtls_configured_once_witness :
  MtlsAuthenticator_new (mkMtlsConfig (encode_certificate demo_ca) None) 2550000000 =
    Ret (mkMtls (encode_certificate demo_ca) None 2550000000) ∧
  ("mtls: ca cert expired" = "mtls: ca cert expired")%string.
Proof.
  split; [vm_compute; reflexivity|].
  apply (mtls_configured_once (mkMtlsConfig (encode_certificate demo_ca) None) 2550000000
           (mkMtls (encode_certificate demo_ca) None 2550000000) demo_mtls_ctx); vm_compute; reflexivity.
Defined.
