(* ===== verification/Toml.v ===== *)
(** * The configuration language ([desmos-core config/])

    The tokenizer ([lexer.rs]), the recursive-descent parser ([schema.rs]) and
    the printer ([mod.rs]) of the TOML subset.  Text is a list of characters; a
    [BTreeMap] is the list of its entries in key order, as in Json.v.  Running
    out of fuel is [Panic], so that termination is part of the theorems. *)

From stdpp Require Import base numbers list strings sorting.
From Stdlib Require Import ZArith Lia SpecFloat.
From S2P Require Import Prelude Float Str Json.

(** ** [BTreeMap<String, V>] *)

Section BTree.
  Context {V : Type}.

Fixpoint tree_insert (k : str) (v : V) (m : list (str * V)) : list (str * V) :=
  match m with
  | [] => [(k, v)]
  | (k', v') :: m' =>
      match key_compare k k' with
      | Lt => (k, v) :: m
      | Eq => (k', v) :: m'
      | Gt => (k', v') :: tree_insert k v m'
      end
  end.

Fixpoint tree_get (k : str) (m : list (str * V)) : option V :=
  match m with
  | [] => None
  | (k', v) :: m => match key_compare k k' with Eq => Some v | Lt => None | Gt => tree_get k m end
  end.

End BTree.

(** ** Values and errors ([mod.rs]) *)

Unset Elimination Schemes.
Inductive Value :=
| VString (s : str)
| VInteger (n : Z)
| VFloat (f : f64)
| VBoolean (b : bool)
| VArray (vs : list Value)
| VTable (t : list (str * Value)).
Set Elimination Schemes.

Abbreviation table := (list (str * Value)).

Definition type_name (v : Value) : str :=
  match v with
  | VString _ => lit "string"
  | VInteger _ => lit "integer"
  | VFloat _ => lit "float"
  | VBoolean _ => lit "boolean"
  | VArray _ => lit "array"
  | VTable _ => lit "table"
  end.

Definition as_table (v : Value) : option table := match v with VTable t => Some t | _ => None end.
Definition as_string (v : Value) : option str := match v with VString s => Some s | _ => None end.
Definition as_integer (v : Value) : option Z := match v with VInteger n => Some n | _ => None end.
Definition as_float (v : Value) : option f64 := match v with VFloat f => Some f | _ => None end.
Definition as_boolean (v : Value) : option bool := match v with VBoolean b => Some b | _ => None end.
Definition as_array (v : Value) : option (list Value) := match v with VArray a => Some a | _ => None end.

(** [Path] is the list of its segments. *)
Definition path_render (p : list str) : str :=
  match p with [] => lit "<root>" | s :: p => s ++ (p ≫= (fun s => lit "." ++ s)) end.

Inductive ParseErrorKind :=
| UnexpectedChar (c : char)
| UnterminatedString
| InvalidEscape (c : char)
| InvalidNumber (s : str)
| UnexpectedToken (expected got : str)
| DuplicateKey (k : str)
| UnknownSection (name : str)
| TypeMismatch (expected got : str)
| MissingField (name : str)
| OutOfRange (name : str)
| UnexpectedEof.

Record ParseError := mkParseError { pe_kind : ParseErrorKind; pe_line : nat; pe_col : nat; pe_path : list str }.

Definition ParseError_new (kind : ParseErrorKind) (line col : nat) : ParseError := mkParseError kind line col [].
Definition with_path (e : ParseError) (path : list str) : ParseError := mkParseError (pe_kind e) (pe_line e) (pe_col e) path.

(** [Display]; [char_debug] is the standard library's [Debug] of a character. *)
Definition ParseError_fmt (char_debug : char → str) (e : ParseError) : str :=
  let nat_str n := show_uint (Z.of_nat n) in
  nat_str (pe_line e) ++ lit ":" ++ nat_str (pe_col e) ++ lit ": " ++
  match pe_kind e with
  | UnexpectedChar c => lit "unexpected_char: " ++ char_debug c
  | UnterminatedString => lit "unterminated_string"
  | InvalidEscape c => lit "invalid_escape: \" ++ [c]
  | InvalidNumber s => lit "invalid_number: " ++ s
  | UnexpectedToken expected got => lit "unexpected_token: expected " ++ expected ++ lit ", got " ++ got
  | DuplicateKey k => lit "duplicate_key: " ++ k
  | UnknownSection name => lit "unknown_section: " ++ name
  | TypeMismatch expected got =>
      lit "type_mismatch: " ++ path_render (pe_path e) ++ lit ": expected " ++ expected ++ lit ", got " ++ got
  | MissingField name => lit "missing_field: " ++ path_render (pe_path e) ++ lit "." ++ name
  | OutOfRange name => lit "out_of_range: " ++ path_render (pe_path e) ++ lit "." ++ name
  | UnexpectedEof => lit "unexpected_eof"
  end.

(** ** The tokenizer ([lexer.rs]) *)

Inductive Token :=
| TLBracket | TRBracket | TEq | TComma | TDot
| TString (s : str)
| TInteger (n : Z)
| TFloat (f : f64)
| TBool (b : bool)
| TIdent (s : str)
| TNewline | TEof.

Definition describe (t : Token) : str :=
  match t with
  | TLBracket => lit "`[`" | TRBracket => lit "`]`" | TEq => lit "`=`" | TComma => lit "`,`" | TDot => lit "`.`"
  | TString _ => lit "string" | TInteger _ => lit "integer" | TFloat _ => lit "float" | TBool _ => lit "boolean"
  | TIdent _ => lit "identifier" | TNewline => lit "newline" | TEof => lit "end of input"
  end.

Record Spanned := mkSpanned { tok : Token; sp_line : nat; sp_col : nat }.

Definition is_alpha (c : char) : bool := ((65 <=? c) && (c <=? 90)) || ((97 <=? c) && (c <=? 122)).
Definition is_ident_char (c : char) : bool := is_alpha c || is_digit c || (c =? 95) || (c =? 45).

(** [cs] starts at the character [c]. *)
Definition is_number_start (c : char) (rest : str) : bool :=
  is_digit c || (((c =? 45) || (c =? 43)) && match rest with d :: _ => is_digit d | [] => false end).

Definition decode_escape (esc : char) : option char :=
  if esc =? 110 then Some 10 else if esc =? 116 then Some 9 else if esc =? 114 then Some 13
  else if esc =? 34 then Some 34 else if esc =? 92 then Some 92 else None.

(** From [i] on; [n] is [i - start]. *)
Fixpoint read_string_loop (cs : str) (n : nat) (s : str) (line col : nat) : result (str * nat) ParseError :=
  match cs with
  | [] => Err (ParseError_new UnterminatedString line col)
  | c :: cs =>
      if c =? 10 then Err (ParseError_new UnterminatedString line col)
      else if c =? 34 then Ok (s, S n)
      else if c =? 92 then
        match cs with
        | [] => Err (ParseError_new UnterminatedString line col)
        | esc :: cs =>
            match decode_escape esc with
            | Some d => read_string_loop cs (n + 2) (s ++ [d]) line col
            | None => Err (ParseError_new (InvalidEscape esc) line col)
            end
        end
      else read_string_loop cs (S n) (s ++ [c]) line col
  end.

(** [cs] starts at the opening quote. *)
Definition read_string (cs : str) (line col : nat) : result (str * nat) ParseError :=
  read_string_loop (tail cs) 1 [] line col.

(** [str::parse::<i64>] of an optional sign and digits. *)
Definition parse_i64 (s : str) : option Z :=
  let '(neg, ds) := match s with 45 :: ds => (true, ds) | 43 :: ds => (false, ds) | _ => (false, s) end in
  match ds with
  | [] => None
  | _ => if forallb is_digit ds then
           let v := if neg then - digits_value ds else digits_value ds in
           if (- 2 ^ 63 <=? v) && (v <? 2 ^ 63) then Some v else None
         else None
  end.

(** [str::parse::<f64>], which also takes a leading plus. *)
Definition parse_float (s : str) : f64 := parse_f64 (match s with 43 :: s => s | _ => s end).

(** The end of the lexeme and whether it has a fraction. *)
Definition number_span (cs : str) : nat * bool :=
  let sign := match cs with c :: _ => if (c =? 45) || (c =? 43) then 1%nat else 0%nat | [] => 0%nat end in
  let '(ds, r) := span_digits (drop sign cs) in
  let end_ := (sign + length ds)%nat in
  match r with
  | 46 :: d :: r' => if is_digit d then ((end_ + 1 + length (span_digits (d :: r')).1)%nat, true) else (end_, false)
  | _ => (end_, false)
  end.

Definition read_number (cs : str) (line col : nat) : result (Token * nat) ParseError :=
  let '(n, is_float) := number_span cs in
  let lexeme := take n cs in
  if is_float then Ok (TFloat (parse_float lexeme), n)
  else match parse_i64 lexeme with
       | Some z => Ok (TInteger z, n)
       | None => Err (ParseError_new (InvalidNumber lexeme) line col)
       end.

Fixpoint ident_span (cs : str) : nat :=
  match cs with c :: cs => if is_ident_char c then S (ident_span cs) else 0 | [] => 0 end.

Definition word_token (word : str) : Token :=
  if bool_decide (word = lit "true") then TBool true
  else if bool_decide (word = lit "false") then TBool false
  else TIdent word.

Definition read_ident (cs : str) : Token * nat := let n := ident_span cs in (word_token (take n cs), n).

Fixpoint skip_comment (cs : str) : str :=
  match cs with c :: cs' => if c =? 10 then cs else skip_comment cs' | [] => [] end.

(** The [while] loop; [cs] is what is left of [chars]. *)
Fixpoint tokenize_loop (fuel : nat) (cs : str) (out : list Spanned) (line col : nat) : outcome (list Spanned) ParseError :=
  match fuel with
  | O => Panic
  | S fuel =>
      match cs with
      | [] => Ret (out ++ [mkSpanned TEof line col])
      | c :: rest =>
          let single t := tokenize_loop fuel rest (out ++ [mkSpanned t line col]) line (S col) in
          if (c =? 32) || (c =? 9) then tokenize_loop fuel rest out line (S col)
          else if c =? 13 then tokenize_loop fuel rest out line col
          else if c =? 10 then tokenize_loop fuel rest (out ++ [mkSpanned TNewline line col]) (S line) 1
          else if c =? 35 then tokenize_loop fuel (skip_comment cs) out line col
          else if c =? 91 then single TLBracket
          else if c =? 93 then single TRBracket
          else if c =? 61 then single TEq
          else if c =? 44 then single TComma
          else if c =? 46 then single TDot
          else if c =? 34 then
            match read_string cs line col with
            | Ok (s, n) => tokenize_loop fuel (drop n cs) (out ++ [mkSpanned (TString s) line col]) line (col + n)
            | Err e => Fail e
            end
          else if is_number_start c rest then
            match read_number cs line col with
            | Ok (t, n) => tokenize_loop fuel (drop n cs) (out ++ [mkSpanned t line col]) line (col + n)
            | Err e => Fail e
            end
          else if is_alpha c || (c =? 95) then
            let '(t, n) := read_ident cs in
            tokenize_loop fuel (drop n cs) (out ++ [mkSpanned t line col]) line (col + n)
          else Fail (ParseError_new (UnexpectedChar c) line col)
      end
  end.

Definition tokenize (input : str) : outcome (list Spanned) ParseError :=
  tokenize_loop (S (length input)) input [] 1 1.

(** ** The parser ([schema.rs])

    The current token and those behind it; there is always a current one. *)

Record Parser := mkParser { p_cur : Spanned; p_next : list Spanned }.

(** [peek] panics on an empty token list. *)
Definition Parser_new (tokens : list Spanned) : panics Parser :=
  match tokens with [] => None | s :: l => Some (mkParser s l) end.

Definition peek_tok (p : Parser) : Token := tok (p_cur p).

(** Stays on the last token. *)
Definition advance (p : Parser) : Parser := match p_next p with [] => p | s :: l => mkParser s l end.

Definition at_eof (p : Parser) : bool := match peek_tok p with TEof => true | _ => false end.

Fixpoint skip_newlines_from (s : Spanned) (l : list Spanned) : Parser :=
  match tok s, l with
  | TNewline, s' :: l' => skip_newlines_from s' l'
  | _, _ => mkParser s l
  end.
(** The last token of a token list is [Eof], so the walk stops there. *)
Definition skip_newlines (p : Parser) : Parser := skip_newlines_from (p_cur p) (p_next p).

Definition unexpected {A} (expected : str) (sp : Spanned) : outcome A ParseError :=
  Fail (ParseError_new (UnexpectedToken expected (describe (tok sp))) (sp_line sp) (sp_col sp)).

(** [expect_token] for [\]] and [=], the two tokens it is called with. *)
Definition expect_rbracket (p : Parser) : outcome Parser ParseError :=
  match peek_tok p with TRBracket => Ret (advance p) | _ => unexpected (lit "]") (p_cur p) end.
Definition expect_eq (p : Parser) : outcome Parser ParseError :=
  match peek_tok p with TEq => Ret (advance p) | _ => unexpected (lit "=") (p_cur p) end.

Definition expect_newline_or_eof (p : Parser) : outcome Parser ParseError :=
  match peek_tok p with
  | TNewline => Ret (advance p)
  | TEof => Ret p
  | _ => unexpected (lit "newline") (p_cur p)
  end.

Definition parse_ident (p : Parser) : outcome (str * Parser) ParseError :=
  match peek_tok p with TIdent name => Ret (name, advance p) | _ => unexpected (lit "identifier") (p_cur p) end.

Fixpoint dotted_loop (fuel : nat) (parts : list str) (p : Parser) : outcome (list str * Parser) ParseError :=
  match fuel with
  | O => Panic
  | S fuel =>
      match peek_tok p with
      | TDot => let% (name, p) := parse_ident (advance p) in dotted_loop fuel (parts ++ [name]) p
      | _ => Ret (parts, p)
      end
  end.

Definition parse_dotted_key (p : Parser) : outcome (list str * Parser) ParseError :=
  let% (name, p) := parse_ident p in dotted_loop (S (length (p_next p))) [name] p.

(** The loop over the items of an array; [pv] is [parse_value]. *)
Fixpoint array_loop (pv : Parser → outcome (Value * Parser) ParseError) (fuel : nat) (items : list Value) (p : Parser)
  : outcome (Value * Parser) ParseError :=
  match fuel with
  | O => Panic
  | S fuel =>
      let p := skip_newlines p in
      match peek_tok p with
      | TRBracket => Ret (VArray items, advance p)
      | _ =>
          let% (v, p) := pv p in
          let p := skip_newlines p in
          match peek_tok p with
          | TComma => array_loop pv fuel (items ++ [v]) (advance p)
          | _ =>
              let p := skip_newlines p in
              let% p := expect_rbracket p in Ret (VArray (items ++ [v]), p)
          end
      end
  end.

Fixpoint parse_value (fuel : nat) (p : Parser) : outcome (Value * Parser) ParseError :=
  match fuel with
  | O => Panic
  | S fuel =>
      match peek_tok p with
      | TString s => Ret (VString s, advance p)
      | TInteger n => Ret (VInteger n, advance p)
      | TFloat f => Ret (VFloat f, advance p)
      | TBool b => Ret (VBoolean b, advance p)
      | TLBracket => array_loop (parse_value fuel) fuel [] (advance p)
      | _ => unexpected (lit "value") (p_cur p)
      end
  end.

Inductive PathSeg := STable (k : str) | SArrayTail (k : str).

Definition dup {A} (msg : str) : outcome A ParseError := Fail (ParseError_new (DuplicateKey msg) 0 0).

(** [navigate_mut] and the change [f] its caller makes through the reference. *)
Fixpoint navigate (path : list PathSeg) (f : table → outcome table ParseError) (t : table) : outcome table ParseError :=
  match path with
  | [] => f t
  | STable k :: path =>
      match default (VTable []) (tree_get k t) with
      | VTable u => let% u := navigate path f u in Ret (tree_insert k (VTable u) t)
      | other => dup (k ++ lit ": expected table, got " ++ type_name other)
      end
  | SArrayTail k :: path =>
      match default (VArray [VTable []]) (tree_get k t) with
      | VArray arr =>
          let arr := match arr with [] => [VTable []] | _ => arr end in
          match last arr with
          | Some (VTable u) =>
              let% u := navigate path f u in Ret (tree_insert k (VArray (removelast arr ++ [VTable u])) t)
          | _ => dup (k ++ lit ": array must contain tables only")
          end
      | _ => dup (k ++ lit ": expected array of tables")
      end
  end.

Definition init_table (root : table) (path : list str) : outcome (table * list PathSeg) ParseError :=
  let segs := STable <$> path in
  let% root := navigate segs Ret root in Ret (root, segs).

Definition push_table (name : str) (sp : Spanned) (container : table) : outcome table ParseError :=
  match default (VArray []) (tree_get name container) with
  | VArray arr => Ret (tree_insert name (VArray (arr ++ [VTable []])) container)
  | other => Fail (ParseError_new (DuplicateKey (name ++ lit ": expected array of tables, got " ++ type_name other))
                     (sp_line sp) (sp_col sp))
  end.

Definition init_array_of_tables (root : table) (path : list str) (header_span : Spanned)
  : outcome (table * list PathSeg) ParseError :=
  match last path with
  | None => Fail (ParseError_new (UnexpectedToken (lit "identifier") (lit "empty")) (sp_line header_span) (sp_col header_span))
  | Some name =>
      let init_segs := STable <$> removelast path in
      let% root := navigate init_segs (push_table name header_span) root in
      Ret (root, init_segs ++ [SArrayTail name])
  end.

Definition insert_value (root : table) (current : list PathSeg) (key : str) (value : Value) (line col : nat)
  : outcome table ParseError :=
  navigate current (fun t =>
    match tree_get key t with
    | Some _ => Fail (ParseError_new (DuplicateKey key) line col)
    | None => Ret (tree_insert key value t)
    end) root.

(** A section header, after its first bracket. *)
Definition parse_header (p : Parser) (root : table) : outcome (Parser * (table * list PathSeg)) ParseError :=
  let is_array_of_tables := match peek_tok p with TLBracket => true | _ => false end in
  let p := if is_array_of_tables then advance p else p in
  let% (path, p) := parse_dotted_key p in
  let% p := expect_rbracket p in
  let% p := if is_array_of_tables then expect_rbracket p else Ret p in
  let% p := expect_newline_or_eof p in
  let% r := if is_array_of_tables then init_array_of_tables root path (p_cur p) else init_table root path in
  Ret (p, r).

Definition parse_entry (key : str) (p : Parser) (root : table) (current : list PathSeg) : outcome (Parser * table) ParseError :=
  let sp := p_cur p in
  let% p := expect_eq (advance p) in
  let% (value, p) := parse_value (S (length (p_next p))) p in
  let% p := expect_newline_or_eof p in
  let% root := insert_value root current key value (sp_line sp) (sp_col sp) in
  Ret (p, root).

Fixpoint document_loop (fuel : nat) (p : Parser) (root : table) (current : list PathSeg) : outcome Value ParseError :=
  match fuel with
  | O => Panic
  | S fuel =>
      let p := skip_newlines p in
      match peek_tok p with
      | TEof => Ret (VTable root)
      | TLBracket =>
          let% (p, (root, current)) := parse_header (advance p) root in document_loop fuel p root current
      | TIdent key =>
          let% (p, root) := parse_entry key p root current in document_loop fuel p root current
      | _ => unexpected (lit "section header or key") (p_cur p)
      end
  end.

Definition parse_document (p : Parser) : outcome Value ParseError := document_loop (S (length (p_next p))) p [] [].

Definition parse (input : str) : outcome Value ParseError :=
  let% tokens := tokenize input in
  let% p := out_panics (Parser_new tokens) in
  parse_document p.

(** ** The parser returns on every text

    The tokenizer ends its output with [Eof] and every loop of the parser consumes
    a token, so the fuel given above suffices. *)

Definition ends_eof (p : Parser) : Prop := ∃ s, last (p_cur p :: p_next p) = Some s ∧ tok s = TEof.
Definition toks_left (p : Parser) : nat := length (p_next p).

Lemma advance_ends p : ends_eof p → ends_eof (advance p).
Proof.
  intros (s & Hs & He). unfold advance. destruct (p_next p) as [|s' l] eqn:E; [exists s; by rewrite E|].
  exists s. cbn. cbn in Hs. done.
Qed.

Lemma advance_left p : ends_eof p → peek_tok p ≠ TEof → (toks_left (advance p) < toks_left p)%nat.
Proof.
  intros (s & Hs & He) Hne. unfold advance, toks_left. destruct (p_next p) as [|s' l]; cbn in *; [|lia].
  injection Hs as Hs. unfold peek_tok in Hne. by rewrite Hs in Hne.
Qed.

Lemma skip_newlines_ok p : ends_eof p → ends_eof (skip_newlines p) ∧ (toks_left (skip_newlines p) <= toks_left p)%nat.
Proof.
  destruct p as [s l]. unfold skip_newlines. cbn [p_cur p_next]. revert s. induction l as [|s' l IH]; intros s He; cbn.
  - by destruct (tok s).
  - destruct (tok s); try (split; [done|cbn; lia]).
    destruct (IH s') as [H1 H2]; [by destruct He as (e & ? & ?); exists e|]. split; [done|]. unfold toks_left in *. cbn in *. lia.
Qed.

(** The parser after a successful step: still ended by [Eof], with fewer tokens. *)
Definition stepped (p p' : Parser) : Prop := ends_eof p' ∧ (toks_left p' < toks_left p)%nat.

Lemma advance_stepped p : ends_eof p → peek_tok p ≠ TEof → stepped p (advance p).
Proof. intros He Hne. split; [by apply advance_ends|by apply advance_left]. Qed.

Lemma unexpected_holds {A} (Q : A → Prop) e sp : holds Q (unexpected e sp).
Proof. done. Qed.

Lemma expect_rbracket_ok p : ends_eof p → holds (stepped p) (expect_rbracket p).
Proof. intros He. unfold expect_rbracket. destruct (peek_tok p) eqn:E; try done. apply advance_stepped; [done|by rewrite E]. Qed.

Lemma expect_eq_ok p : ends_eof p → holds (stepped p) (expect_eq p).
Proof. intros He. unfold expect_eq. destruct (peek_tok p) eqn:E; try done. apply advance_stepped; [done|by rewrite E]. Qed.

Definition not_behind (p p' : Parser) : Prop := ends_eof p' ∧ (toks_left p' <= toks_left p)%nat.

Lemma expect_newline_ok p : ends_eof p → holds (not_behind p) (expect_newline_or_eof p).
Proof.
  intros He. unfold expect_newline_or_eof. destruct (peek_tok p) eqn:E; try done.
  destruct (advance_stepped p He) as [? ?]; [by rewrite E|]. split; [done|lia].
Qed.

Lemma parse_ident_ok p : ends_eof p → holds (fun x => stepped p x.2) (parse_ident p).
Proof. intros He. unfold parse_ident. destruct (peek_tok p) eqn:E; try done. apply advance_stepped; [done|by rewrite E]. Qed.

(** Chaining a step with what follows it. *)
Lemma dotted_loop_ok fuel : ∀ parts p, ends_eof p → (toks_left p < fuel)%nat →
  holds (fun x => not_behind p x.2) (dotted_loop fuel parts p).
Proof.
  induction fuel as [|fuel IH]; intros parts p He Hf; [lia|]. cbn [dotted_loop].
  destruct (peek_tok p) eqn:E; try by split.
  destruct (advance_stepped p He) as [He1 Hl1]; [by rewrite E|].
  eapply holds_then; [by apply parse_ident_ok|]. intros [name p'] [He2 Hl2]. cbn [snd] in *.
  specialize (IH (parts ++ [name]) p' He2 ltac:(lia)). destruct (dotted_loop fuel _ p') as [[? ?]|?|]; cbn in *; try done.
  destruct IH. split; [done|lia].
Qed.

Lemma parse_dotted_key_ok p : ends_eof p → holds (fun x => stepped p x.2) (parse_dotted_key p).
Proof.
  intros He. unfold parse_dotted_key. eapply holds_then; [by apply parse_ident_ok|]. intros [name p'] [He2 Hl2]. cbn [snd] in *.
  pose proof (dotted_loop_ok (S (length (p_next p'))) [name] p' He2 ltac:(unfold toks_left; lia)) as H.
  destruct (dotted_loop _ _ p') as [[? ?]|?|]; cbn in *; try done. destruct H. split; [done|lia].
Qed.

Lemma toml_array_loop_ok (pv : Parser → outcome (Value * Parser) ParseError) fuel : ∀ items p,
  (∀ q, ends_eof q → (toks_left q <= toks_left p)%nat → holds (fun x => stepped q x.2) (pv q)) →
  ends_eof p → (toks_left p < fuel)%nat → holds (fun x => not_behind p x.2) (array_loop pv fuel items p).
Proof.
  induction fuel as [|fuel IH]; intros items p Hpv He Hf; [lia|]. cbn [array_loop].
  destruct (skip_newlines_ok p He) as [He0 Hl0]. set (p0 := skip_newlines p) in *.
  assert (holds (fun x => not_behind p x.2)
    (let% (v, p) := pv p0 in
     let p := skip_newlines p in
     match peek_tok p with
     | TComma => array_loop pv fuel (items ++ [v]) (advance p)
     | _ => let p := skip_newlines p in let% p := expect_rbracket p in Ret (VArray (items ++ [v]), p)
     end)) as Hmain.
  { eapply holds_then; [by apply Hpv|]. intros [v p1] [He1 Hl1]. cbn [snd] in *. cbv zeta.
    destruct (skip_newlines_ok p1 He1) as [He2 Hl2]. set (p2 := skip_newlines p1) in *.
    assert (holds (fun x => not_behind p x.2)
      (let% q := expect_rbracket (skip_newlines p2) in Ret (VArray (items ++ [v]), q))) as Hclose.
    { destruct (skip_newlines_ok p2 He2) as [He3 Hl3].
      eapply holds_then; [by apply expect_rbracket_ok|]. intros q [Heq Hlq]. split; [done|cbn; lia]. }
    destruct (peek_tok p2) eqn:E2; try done.
    destruct (advance_stepped p2 He2) as [He3 Hl3]; [by rewrite E2|].
    assert (holds (fun x => not_behind (advance p2) x.2) (array_loop pv fuel (items ++ [v]) (advance p2))) as H.
    { apply IH; [|done|lia]. intros q Hq Hlq. apply Hpv; [done|lia]. }
    destruct (array_loop pv fuel _ (advance p2)) as [[? ?]|?|]; cbn in *; try done. destruct H. split; [done|lia]. }
  destruct (peek_tok p0) eqn:E0; try done.
  destruct (advance_stepped p0 He0) as [He1 Hl1]; [by rewrite E0|]. split; [done|cbn; lia].
Qed.

Lemma parse_value_ok fuel : ∀ p, ends_eof p → (toks_left p < fuel)%nat → holds (fun x => stepped p x.2) (parse_value fuel p).
Proof.
  induction fuel as [|fuel IH]; intros p He Hf; [lia|]. cbn [parse_value].
  destruct (peek_tok p) eqn:E; try done; (destruct (advance_stepped p He) as [He1 Hl1]; [by rewrite E|]); try (by split).
  assert (holds (fun x => not_behind (advance p) x.2) (array_loop (parse_value fuel) fuel [] (advance p))) as H.
  { apply toml_array_loop_ok; [|done|lia]. intros q Hq Hlq. apply IH; [done|lia]. }
  destruct (array_loop _ _ _ _) as [[? ?]|?|]; cbn in *; try done. destruct H. split; [done|lia].
Qed.

Lemma navigate_ok path f t : (∀ u, holds (fun _ => True) (f u)) → holds (fun _ => True) (navigate path f t).
Proof.
  intros Hf. revert t. induction path as [|[k|k] path IH]; intros t; cbn [navigate]; [done| |].
  - destruct (default _ _); try done. eapply holds_then; [apply IH|]. done.
  - destruct (default _ _) as [| | | |arr|]; try done. cbv zeta.
    destruct (last _) as [[| | | | |u]|]; try done. eapply holds_then; [apply IH|]. done.
Qed.

Lemma parse_header_ok p root : ends_eof p → holds (fun x => stepped p x.1) (parse_header p root).
Proof.
  intros He. unfold parse_header. set (b := match peek_tok p with TLBracket => true | _ => false end).
  assert (ends_eof (if b then advance p else p) ∧ (toks_left (if b then advance p else p) <= toks_left p)%nat) as [He0 Hl0].
  { destruct b eqn:Eb; [|done]. destruct (advance_stepped p He) as [? ?]; [|split; [done|lia]].
    intros E. unfold b in Eb. by rewrite E in Eb. }
  set (p0 := if b then advance p else p) in *. cbv zeta.
  eapply holds_then; [by apply parse_dotted_key_ok|]. intros [path p1] [He1 Hl1]. cbn [snd] in *.
  eapply holds_then; [by apply expect_rbracket_ok|]. intros p2 [He2 Hl2].
  eapply (holds_then (not_behind p2)).
  { destruct b; [|by split]. pose proof (expect_rbracket_ok p2 He2) as H.
    destruct (expect_rbracket p2); cbn in *; try done. destruct H. split; [done|lia]. }
  intros p3 [He3 Hl3]. eapply holds_then; [by apply expect_newline_ok|]. intros p4 [He4 Hl4].
  eapply (holds_then (fun _ => True)).
  { destruct b.
    - unfold init_array_of_tables. destruct (last path); [|done]. cbv zeta.
      eapply holds_then; [apply navigate_ok|done]. intros u. unfold push_table. by destruct (default _ _).
    - unfold init_table. cbv zeta. eapply holds_then; [apply navigate_ok|done]. done. }
  intros r _. split; [done|cbn; lia].
Qed.

Lemma parse_entry_ok key p root cur : ends_eof p → peek_tok p ≠ TEof → holds (fun x => stepped p x.1) (parse_entry key p root cur).
Proof.
  intros He Hne. unfold parse_entry. destruct (advance_stepped p He Hne) as [He0 Hl0]. cbv zeta.
  eapply holds_then; [by apply expect_eq_ok|]. intros p1 [He1 Hl1].
  eapply holds_then; [apply parse_value_ok; [done|unfold toks_left; lia]|]. intros [v p2] [He2 Hl2]. cbn [snd] in *.
  eapply holds_then; [by apply expect_newline_ok|]. intros p3 [He3 Hl3].
  eapply (holds_then (fun _ => True)).
  { unfold insert_value. apply navigate_ok. intros u. by destruct (tree_get key u). }
  intros r _. split; [done|cbn; lia].
Qed.

Lemma document_loop_ok fuel : ∀ p root cur, ends_eof p → (toks_left p < fuel)%nat →
  holds (fun v => ∃ t, v = VTable t) (document_loop fuel p root cur).
Proof.
  induction fuel as [|fuel IH]; intros p root cur He Hf; [lia|]. cbn [document_loop].
  destruct (skip_newlines_ok p He) as [He0 Hl0]. set (p0 := skip_newlines p) in *. cbv zeta.
  destruct (peek_tok p0) eqn:E; try done; [| |by eexists].
  - destruct (advance_stepped p0 He0) as [He1 Hl1]; [by rewrite E|].
    eapply holds_then; [by apply parse_header_ok|]. intros [p2 [r c]] [He2 Hl2]. cbn [fst] in *. apply IH; [done|lia].
  - eapply holds_then; [apply parse_entry_ok; [done|by rewrite E]|]. intros [p2 r] [He2 Hl2]. cbn [fst] in *.
    apply IH; [done|lia].
Qed.

(** *** The tokenizer *)

Lemma skip_comment_le cs : (length (skip_comment cs) <= length cs)%nat.
Proof. induction cs as [|c cs IH]; cbn; [lia|]. destruct (c =? 10); cbn; lia. Qed.

Lemma read_string_consumed cs : ∀ n s line col s' m, read_string_loop cs n s line col = Ok (s', m) → (n < m)%nat.
Proof.
  induction cs as [cs IH] using (induction_ltof1 _ (@length Z)). unfold ltof in IH. intros n s line col s' m.
  destruct cs as [|c cs]; cbn [read_string_loop]; [done|].
  destruct (c =? 10); [done|]. destruct (c =? 34); [by intros [= <- <-]; lia|].
  destruct (c =? 92).
  - destruct cs as [|e cs]; [done|]. destruct (decode_escape e); [|done]. intros H. apply IH in H; cbn; lia.
  - intros H. apply IH in H; cbn; lia.
Qed.

Lemma number_span_pos c rest : is_number_start c rest = true → (0 < (number_span (c :: rest)).1)%nat.
Proof.
  unfold is_number_start, number_span. destruct ((c =? 45) || (c =? 43)) eqn:Es.
  - intros _. destruct (span_digits (drop 1 (c :: rest))) as [ds r].
    repeat case_match; cbn; lia.
  - rewrite andb_false_l, orb_false_r. intros Hd. cbn [drop span_digits]. rewrite Hd.
    destruct (span_digits rest) as [ds r]. repeat case_match; cbn; lia.
Qed.

Lemma read_number_pos c rest line col t n :
  is_number_start c rest = true → read_number (c :: rest) line col = Ok (t, n) → (0 < n)%nat.
Proof.
  intros Hs. pose proof (number_span_pos c rest Hs) as Hp. unfold read_number.
  destruct (number_span (c :: rest)) as [m []]; cbn in Hp.
  - intros E. by injection E as _ <-.
  - destruct (parse_i64 _); [|done]. intros E. by injection E as _ <-.
Qed.

Lemma read_ident_pos c rest : is_alpha c || (c =? 95) = true → (0 < (read_ident (c :: rest)).2)%nat.
Proof.
  intros H. unfold read_ident. cbn [snd ident_span]. unfold is_ident_char.
  apply orb_true_iff in H as [->| ->]; rewrite ?orb_true_r, ?orb_true_l; lia.
Qed.

Definition ends_in_eof (l : list Spanned) : Prop := ∃ s, last l = Some s ∧ tok s = TEof.

Lemma tokenize_loop_ok fuel : ∀ cs out line col, (length cs < fuel)%nat →
  holds ends_in_eof (tokenize_loop fuel cs out line col).
Proof.
  induction fuel as [|fuel IH]; intros cs out line col Hf; [lia|]. cbn [tokenize_loop].
  destruct cs as [|c cs]; [eexists; by rewrite last_snoc|]. cbn [length] in Hf.
  do 2 (apply holds_if; [apply IH; lia|]). destruct (c =? 10) eqn:E10; [apply IH; lia|].
  apply holds_if.
  { apply IH. cbn [skip_comment]. rewrite E10. pose proof (skip_comment_le cs). lia. }
  do 5 (apply holds_if; [apply IH; lia|]). apply holds_if.
  { destruct (read_string (c :: cs) line col) as [[s n]|e] eqn:E; [|done].
    apply read_string_consumed in E. apply IH. rewrite length_drop. cbn [length]. lia. }
  destruct (is_number_start c cs) eqn:En.
  { destruct (read_number (c :: cs) line col) as [[t n]|e] eqn:E; [|done].
    apply read_number_pos in E; [|done]. apply IH. rewrite length_drop. cbn [length]. lia. }
  destruct (is_alpha c || (c =? 95)) eqn:Ea; [|done]. pose proof (read_ident_pos c cs Ea) as Hp.
  destruct (read_ident (c :: cs)) as [t n]. cbn [snd] in Hp. apply IH. rewrite length_drop. cbn [length]. lia.
Qed.

(** Parsing returns on every text: a table or an error, never a panic, an
    endless loop or another kind of value. *)
Lemma toml_parse_returns input : holds (fun v => ∃ t, v = VTable t) (parse input).
Proof.
  unfold parse. eapply holds_then; [apply tokenize_loop_ok; lia|]. intros toks (s & Hl & Hs).
  destruct toks as [|s0 toks]; [done|]. cbn [Parser_new out_panics out_bind].
  apply document_loop_ok; [|unfold toks_left; lia]. by exists s.
Qed.

Lemma toml_parse_total_cases input : (∃ t, parse input = Ret (VTable t)) ∨ (∃ e, parse input = Fail e).
Proof. pose proof (toml_parse_returns input) as H. destruct (parse input); cbn in H; naive_solver. Qed.

(** The configuration parser is total: on every text, tokenizer and parser return a
    table or a positioned error; no text makes a loop spin, an index go out of range
    or a value other than a table come back. *)
Theorem toml_parse_total input : (∃ t, parse input = Ret (VTable t)) ∨ (∃ e, parse input = Fail e).
Proof. apply toml_parse_total_cases. Qed.

(** Arrays may mix types and nest. *)
Example mixed_arrays_accepted :
  parse (lit "a = [1, true, [2]]") = Ret (VTable [(lit "a", VArray [VInteger 1; VBoolean true; VArray [VInteger 2]])]).
Proof. vm_compute. reflexivity. Qed.

(** A table under an array of tables is refused. *)
Example table_under_array_refused :
  parse (lit "[[a]]" ++ [10] ++ lit "[a.b]" ++ [10] ++ lit "x = 1")
  = Fail (ParseError_new (DuplicateKey (lit "a: expected table, got array")) 0 0).
Proof. vm_compute. reflexivity. Qed.
