(* ===== verification/TomlPrint.v ===== *)
(** * Printing a configuration and reading it back

    [to_toml] of [config/mod.rs], and the documents it prints faithfully: those
    whose keys are identifiers, whose tables are not empty and whose arrays of
    tables hold plain entries.  For these the parser inverts the printer; the
    examples at the end are documents outside that set which do not survive. *)

From stdpp Require Import base numbers list strings sorting.
From Stdlib Require Import ZArith Lia SpecFloat.
From S2P Require Import Prelude Float Str Json Toml.

(** ** The printer *)

Definition write_char (c : char) : str :=
  if c =? 34 then [92; 34] else if c =? 92 then [92; 92] else if c =? 10 then lit "\n"
  else if c =? 13 then lit "\r" else if c =? 9 then lit "\t" else [c].

(** [{f:?}]: decimal with a fraction, or an exponent below 1e-4 and from 1e16 on. *)
Definition debug_f64 (f : f64) : str :=
  match f with
  | S754_finite s m e =>
      let '(d, q) := shortest m e 1 17 in
      let sign := if s then lit "-" else [] in
      let ds := show_uint d in
      let k := q + Z.of_nat (length ds) in
      sign ++
      (if (k <=? -4) || (17 <=? k) then
         take 1 ds ++ (if (1 <? length ds)%nat then lit "." ++ drop 1 ds else []) ++ lit "e" ++ show_int (k - 1)
       else if 0 <=? q then show_decimal d q ++ lit ".0" else show_decimal d q)
  | S754_zero s => (if s then lit "-" else []) ++ lit "0.0"
  | _ => show_f64 f
  end.

Definition quoted (s : str) : str := [34] ++ (s ≫= write_char) ++ [34].

Fixpoint write_toml_value (v : Value) : str :=
  match v with
  | VString s => quoted s
  | VInteger n => show_int n
  | VFloat f => debug_f64 f
  | VBoolean b => if b then lit "true" else lit "false"
  | VArray vs => lit "[" ++ separated (lit ", ") (map write_toml_value vs) ++ lit "]"
  | VTable _ => []
  end.

Definition is_table (v : Value) : bool := match v with VTable _ => true | _ => false end.

(** What the first pass prints: everything but tables and arrays with a table. *)
Definition is_leaf (v : Value) : bool :=
  match v with VTable _ => false | VArray vs => forallb (fun v => negb (is_table v)) vs | _ => true end.

Definition write_entry (e : str * Value) : str := e.1 ++ lit " = " ++ write_toml_value e.2 ++ [10].

Definition write_leaves (t : table) (path : list str) : str :=
  if existsb (fun e => is_leaf e.2) t then
    (if bool_decide (path = []) then [] else lit "[" ++ separated (lit ".") path ++ lit "]" ++ [10]) ++
    flat_map write_entry (filter (fun e => is_leaf e.2 = true) t) ++ [10]
  else [].

(** An item of an array of tables: header and entries that are no tables. *)
Definition write_item (sub : list str) (t : table) : str :=
  lit "[[" ++ separated (lit ".") sub ++ lit "]]" ++ [10] ++
  flat_map write_entry (filter (fun e => is_table e.2 = false) t) ++ [10].

(** [write_toml_table] of the table that a value holds. *)
Fixpoint write_toml_table (v : Value) (path : list str) : str :=
  match v with
  | VTable t =>
      write_leaves t path ++
      flat_map (fun e =>
        match e.2 with
        | VTable _ => write_toml_table e.2 (path ++ [e.1])
        | VArray arr =>
            if forallb is_table arr && negb (bool_decide (arr = [])) then
              flat_map (fun item =>
                match item with
                | VTable it =>
                    write_item (path ++ [e.1]) it ++
                    flat_map (fun ie =>
                      match ie.2 with
                      | VTable _ => write_toml_table ie.2 ((path ++ [e.1]) ++ [ie.1])
                      | _ => []
                      end) it
                | _ => []
                end) arr
            else []
        | _ => []
        end) t
  | _ => []
  end.

(** [expect] on a root that is no table panics. *)
Definition to_toml (v : Value) : panics str := match v with VTable _ => Some (write_toml_table v []) | _ => None end.

(** ** Lexing printed text

    [lexes x ts rest]: in front of [rest] the tokenizer turns the text [x] into the
    tokens [ts], whatever came before. *)

Definition lexes (x : str) (ts : list Token) (rest : str) : Prop :=
  ∀ fuel out line col, (length (x ++ rest) < fuel)%nat →
  ∃ fuel' sp line' col',
    tokenize_loop fuel (x ++ rest) out line col = tokenize_loop fuel' rest (out ++ sp) line' col' ∧
    tok <$> sp = ts ∧ (length rest < fuel')%nat.

Lemma lexes_nil rest : lexes [] [] rest.
Proof. intros fuel out line col Hf. exists fuel, [], line, col. by rewrite app_nil_r. Qed.

Lemma lexes_app x y ts us rest : lexes x ts (y ++ rest) → lexes y us rest → lexes (x ++ y) (ts ++ us) rest.
Proof.
  intros Hx Hy fuel out line col Hf. rewrite <- app_assoc in *.
  destruct (Hx fuel out line col Hf) as (f1 & sp1 & l1 & c1 & -> & Ht1 & Hf1).
  destruct (Hy f1 (out ++ sp1) l1 c1 Hf1) as (f2 & sp2 & l2 & c2 & -> & Ht2 & Hf2).
  exists f2, (sp1 ++ sp2), l2, c2. rewrite <- app_assoc, fmap_app. by rewrite Ht1, Ht2.
Qed.

(** One character that is a token or a space. *)
Definition punct (c : char) : option (list Token) :=
  if c =? 32 then Some [] else if c =? 10 then Some [TNewline] else if c =? 91 then Some [TLBracket]
  else if c =? 93 then Some [TRBracket] else if c =? 61 then Some [TEq] else if c =? 44 then Some [TComma]
  else if c =? 46 then Some [TDot] else None.

Lemma lexes_punct c ts rest : punct c = Some ts → lexes [c] ts rest.
Proof.
  intros Hc [|fuel] out line col Hf; [lia|]. cbn [app length] in *. exists fuel.
  unfold punct in Hc. repeat match type of Hc with (if ?a =? ?b then _ else _) = _ => destruct (Z.eqb_spec a b); [subst; injection Hc as <-|] end;
    [eexists [], line, (S col); rewrite app_nil_r|eexists [_], (S line), 1%nat|eexists [_], line, (S col)..|done];
    (split_and!; [reflexivity|reflexivity|lia]).
Qed.

(** Identifiers. *)
Definition ident_ok (s : str) : Prop :=
  match s with c :: _ => is_alpha c || (c =? 95) = true | [] => False end ∧
  Forall (fun c => is_ident_char c = true) s ∧ word_token s = TIdent s.

(** What may follow an identifier. *)
Definition word_end (rest : str) : Prop := match rest with c :: _ => is_ident_char c = false | [] => True end.
(** What may follow a value: a newline, a comma or a bracket. *)
Definition value_end (rest : str) : Prop := match rest with c :: _ => c = 10 ∨ c = 44 ∨ c = 93 | [] => True end.

Lemma value_end_word rest : value_end rest → word_end rest.
Proof. destruct rest as [|c rest]; [done|]. by intros [->|[->| ->]]. Qed.

Lemma ident_span_app s rest : Forall (fun c => is_ident_char c = true) s → word_end rest → ident_span (s ++ rest) = length s.
Proof.
  intros Hs Hr. induction Hs as [|c s Hc _ IH]; cbn [app ident_span length].
  - destruct rest as [|d rest]; [done|]. cbn. by rewrite Hr.
  - by rewrite Hc, IH.
Qed.

Lemma alpha_range c : is_alpha c || (c =? 95) = true → 65 <= c <= 90 ∨ 97 <= c <= 122 ∨ c = 95.
Proof. unfold is_alpha. rewrite !orb_true_iff, !andb_true_iff, !Z.leb_le, Z.eqb_eq. lia. Qed.

Lemma lexes_word s t rest : ident_ok s ∨ s = lit "true" ∨ s = lit "false" → word_token s = t → word_end rest →
  lexes s [t] rest.
Proof.
  intros Hs Ht Hr.
  assert (∃ c s', s = c :: s' ∧ is_alpha c || (c =? 95) = true ∧ Forall (fun c => is_ident_char c = true) s) as (c & s' & -> & Hc & Hall).
  { destruct Hs as [(H1 & H2 & _)|[->| ->]]; [destruct s as [|c s]; [done|]; by eexists _, _| |];
      (eexists _, _; split_and!; [done|done|]; by repeat constructor). }
  intros [|fuel] out line col Hf; [lia|]. exists fuel, [mkSpanned t line col], line, (col + length (c :: s'))%nat.
  cbn [app] in *. cbn [length] in Hf. rewrite length_app in Hf.
  split; [|split; [done|lia]]. cbn [tokenize_loop].
  pose proof (alpha_range c Hc) as Hrange. rewrite !(proj2 (Z.eqb_neq c _)) by lia. cbn [orb].
  assert (is_number_start c (s' ++ rest) = false) as ->.
  { unfold is_number_start, is_digit. rewrite !(proj2 (Z.eqb_neq c _)) by lia. cbn [orb andb].
    rewrite orb_false_r. apply andb_false_iff. rewrite !Z.leb_gt. lia. }
  rewrite Hc. unfold read_ident. change (c :: s' ++ rest) with ((c :: s') ++ rest). rewrite ident_span_app by done.
  by rewrite take_app_length, drop_app_length, Ht.
Qed.

(** Integers. *)
Lemma number_span_int N rest : value_end rest → number_span (show_int N ++ rest) = (length (show_int N), false).
Proof.
  intros Hr. rewrite show_int_split. destruct (show_uint_value (Z.abs N)) as (d & ds & -> & _ & Hall & _); [lia|].
  assert (match rest with [] => True | b :: _ => is_digit b = false end) as Hd
    by (destruct rest as [|c rest]; [done|]; by destruct Hr as [->|[->| ->]]).
  assert (∀ n : nat, (match rest with
          | 46 :: d' :: r' => if is_digit d' then ((n + 1 + length (span_digits (d' :: r')).1)%nat, true) else (n, false)
          | _ => (n, false)
          end) = (n, false)) as Hm by (intros n; destruct rest as [|c rest]; [done|]; by destruct Hr as [->|[->| ->]]).
  pose proof (span_digits_ok (d :: ds) rest Hall Hd) as Hspan. unfold number_span.
  apply Forall_cons in Hall as [Hd1 _]. destruct (N <? 0).
  - change ((lit "-" ++ d :: ds) ++ rest) with (45 :: (d :: ds) ++ rest).
    cbn [Z.eqb Pos.eqb orb drop]. rewrite drop_0, Hspan, Hm. done.
  - change (([] ++ d :: ds) ++ rest) with (d :: ds ++ rest). cbv beta iota. rewrite !(proj2 (Z.eqb_neq d _)) by lia. cbn [orb]. rewrite drop_0.
    change (d :: ds ++ rest) with ((d :: ds) ++ rest). rewrite Hspan, Hm. done.
Qed.

Definition in_i64 (v : Z) : option Z := if (- 2 ^ 63 <=? v) && (v <? 2 ^ 63) then Some v else None.

Lemma in_i64_some v : - 2 ^ 63 <= v < 2 ^ 63 → in_i64 v = Some v.
Proof. intros Hv. unfold in_i64. by rewrite (proj2 (Z.leb_le _ _)), (proj2 (Z.ltb_lt _ _)) by lia. Qed.

Lemma parse_i64_neg d ds : parse_i64 (45 :: d :: ds) = if forallb is_digit (d :: ds) then in_i64 (- digits_value (d :: ds)) else None.
Proof. reflexivity. Qed.

Lemma parse_i64_digits d ds : 48 <= d <= 57 →
  parse_i64 (d :: ds) = if forallb is_digit (d :: ds) then in_i64 (digits_value (d :: ds)) else None.
Proof.
  intros Hd. unfold parse_i64. destruct d as [|p|p]; [lia| |lia]. do 6 (destruct p as [p|p|]; try reflexivity; try lia).
Qed.

Lemma parse_i64_int N : - 2 ^ 63 <= N < 2 ^ 63 → parse_i64 (show_int N) = Some N.
Proof.
  intros HN. rewrite show_int_split. destruct (show_uint_value (Z.abs N)) as (d & ds & -> & Hv & Hall & _); [lia|].
  assert (forallb is_digit (d :: ds) = true) as Hdig.
  { apply forallb_forall. intros c Hc%list_elem_of_In. apply is_digit_spec.
    rewrite Forall_forall in Hall. by apply Hall. }
  destruct (Z.ltb_spec N 0).
  - change (lit "-" ++ d :: ds) with (45 :: d :: ds). rewrite parse_i64_neg, Hdig, Hv, in_i64_some by lia. f_equal. lia.
  - cbn [app]. apply Forall_cons in Hall as [Hd _]. rewrite parse_i64_digits, Hdig, Hv, in_i64_some by lia. f_equal. lia.
Qed.

Lemma number_start_int N rest b s : show_int N ++ rest = b :: s → is_number_start b s = true ∧ (b = 45 ∨ 48 <= b <= 57).
Proof.
  rewrite show_int_split. destruct (show_uint_value (Z.abs N)) as (d & ds & -> & _ & Hall & _); [lia|].
  apply Forall_cons in Hall as [Hd _]. apply is_digit_spec in Hd as Hd'. unfold is_number_start.
  destruct (N <? 0); cbn; intros [= <- <-].
  - split; [|by left]. by rewrite Hd'.
  - rewrite Hd'. split; [done|by right].
Qed.

Lemma lexes_integer N rest : - 2 ^ 63 <= N < 2 ^ 63 → value_end rest → lexes (show_int N) [TInteger N] rest.
Proof.
  intros HN Hr [|fuel] out line col Hf; [lia|]. exists fuel, [mkSpanned (TInteger N) line col], line, (col + length (show_int N))%nat.
  rewrite length_app in Hf. destruct (show_int_head N) as (b & s & Hs & _).
  split; [|split; [done|rewrite Hs in Hf; cbn [length] in Hf; lia]].
  destruct (show_int N ++ rest) as [|c s'] eqn:E; [by rewrite Hs in E|]. destruct (number_start_int N rest c s' E) as [Hn Hc].
  cbn [tokenize_loop]. rewrite !(proj2 (Z.eqb_neq c _)) by lia. cbn [orb]. rewrite Hn. unfold read_number. rewrite <- E.
  rewrite (number_span_int N rest Hr). cbv zeta iota beta. by rewrite take_app_length, parse_i64_int, drop_app_length by done.
Qed.

(** Strings. *)
Lemma read_string_write s : ∀ rest n acc line col,
  read_string_loop ((s ≫= write_char) ++ 34 :: rest) n acc line col
  = Ok (acc ++ s, S (n + length (s ≫= write_char))).
Proof.
  induction s as [|c s IH]; intros rest n acc line col; [cbn; by rewrite app_nil_r, Nat.add_0_r|].
  rewrite bind_cons, <- app_assoc, length_app. unfold write_char at 1 3.
  repeat match goal with |- context [if c =? ?k then _ else _] => destruct (Z.eqb_spec c k) as [->|?] end;
    try (cbn [app length]; change (lit "\n") with [92; 110]; change (lit "\r") with [92; 114]; change (lit "\t") with [92; 116];
         cbn [app read_string_loop Z.eqb Pos.eqb decode_escape length]; rewrite IH, <- app_assoc; cbn [app]; do 2 f_equal; lia).
  cbn [app read_string_loop]. rewrite !(proj2 (Z.eqb_neq c _)) by done. rewrite IH, <- app_assoc. cbn [app length]. do 2 f_equal. lia.
Qed.

Lemma lexes_string s rest : lexes (quoted s) [TString s] rest.
Proof.
  intros [|fuel] out line col Hf; [lia|].
  exists fuel, [mkSpanned (TString s) line col], line, (col + length (quoted s))%nat.
  rewrite length_app in Hf. split; [|split; [done|unfold quoted in Hf; cbn [app length] in Hf; lia]].
  assert (read_string (quoted s ++ rest) line col = Ok (s, length (quoted s))) as Hread.
  { unfold read_string, quoted. cbn [app tail]. rewrite <- app_assoc. cbn [app]. rewrite read_string_write. cbn [app length].
    rewrite length_app. cbn [length]. do 2 f_equal. lia. }
  change (quoted s ++ rest) with (34 :: ((s ≫= write_char) ++ [34]) ++ rest) at 1.
  cbn [tokenize_loop Z.eqb Pos.eqb orb]. change (34 :: ((s ≫= write_char) ++ [34]) ++ rest) with (quoted s ++ rest).
  by rewrite Hread, drop_app_length.
Qed.

(** Sequences with a separator. *)
Lemma lexes_separated (Q : str → Prop) sep st (xs : list str) (ts : list (list Token)) rest :
  Forall2 (fun x t => ∀ rest, Q rest → lexes x t rest) xs ts →
  (∀ rest, Q (sep ++ rest)) → (∀ rest, lexes sep st rest) → Q rest →
  lexes (separated sep xs) (separated st ts) rest.
Proof.
  intros Hx HQ Hsep Hrest. destruct Hx as [|x t xs ts Hx Hxs]; [apply lexes_nil|]. cbn [separated].
  assert (lexes (xs ≫= (fun x => sep ++ x)) (ts ≫= (fun t => st ++ t)) rest ∧ Q ((xs ≫= (fun x => sep ++ x)) ++ rest)) as [H1 H2].
  { induction Hxs as [|y u xs ts Hy _ [IH1 IH2]]; [split; [apply lexes_nil|done]|]. rewrite !bind_cons. split.
    - rewrite <- !app_assoc. apply lexes_app; [apply Hsep|]. apply lexes_app; [by apply Hy|done].
    - rewrite <- !app_assoc. apply HQ. }
  apply lexes_app; [by apply Hx|done].
Qed.

(** ** Values *)

Section value_ind.
Context (P : Value → Prop).
Context (Hstring : ∀ s, P (VString s)) (Hint : ∀ n, P (VInteger n)) (Hfloat : ∀ f, P (VFloat f)) (Hbool : ∀ b, P (VBoolean b)).
Context (Harray : ∀ vs, Forall P vs → P (VArray vs)) (Htable : ∀ t, Forall (fun e => P e.2) t → P (VTable t)).

Fixpoint Value_nested_ind (v : Value) : P v :=
  match v with
  | VString s => Hstring s
  | VInteger n => Hint n
  | VFloat f => Hfloat f
  | VBoolean b => Hbool b
  | VArray vs =>
      Harray vs ((fix go l : Forall P l :=
        match l with [] => Forall_nil_2 _ | x :: l => Forall_cons_2 _ _ _ (Value_nested_ind x) (go l) end) vs)
  | VTable t =>
      Htable t ((fix go l : Forall (fun e => P e.2) l :=
        match l with [] => Forall_nil_2 _ | e :: l => Forall_cons_2 _ e l (Value_nested_ind e.2) (go l) end) t)
  end.

End value_ind.

(** What an entry may hold: strings, 64-bit integers, booleans and arrays of these. *)
Fixpoint leaf_ok (v : Value) : bool :=
  match v with
  | VString _ | VBoolean _ => true
  | VInteger n => (- 2 ^ 63 <=? n) && (n <? 2 ^ 63)
  | VArray vs => forallb leaf_ok vs
  | VFloat _ | VTable _ => false
  end.

Fixpoint value_toks (v : Value) : list Token :=
  match v with
  | VString s => [TString s]
  | VInteger n => [TInteger n]
  | VFloat f => [TFloat f]
  | VBoolean b => [TBool b]
  | VArray vs => [TLBracket] ++ separated [TComma] (map value_toks vs) ++ [TRBracket]
  | VTable _ => []
  end.

Lemma lexes_value v : leaf_ok v = true → ∀ rest, value_end rest → lexes (write_toml_value v) (value_toks v) rest.
Proof.
  induction v as [s|n|f|b|vs IH|t _] using Value_nested_ind; cbn [leaf_ok]; intros Hv rest Hr; try done.
  - apply lexes_string.
  - apply lexes_integer; [|done]. apply andb_true_iff in Hv as [?%Z.leb_le ?%Z.ltb_lt]. lia.
  - destruct b; (apply lexes_word; [auto|done|by apply value_end_word]).
  - cbn [write_toml_value value_toks]. apply (lexes_app [91]); [by apply lexes_punct|].
    apply lexes_app; [|by apply lexes_punct]. apply (lexes_separated value_end).
    + clear Hr. induction IH as [|v vs Hv' _ IH']; [constructor|]. cbn in Hv. apply andb_true_iff in Hv as [H1 H2].
      constructor; [intros; by apply Hv'|by apply IH'].
    + intros. cbn. auto.
    + intros. change (lit ", ") with ([44] ++ [32]). change [TComma] with ([TComma] ++ []).
      apply lexes_app; by apply lexes_punct.
    + cbn. auto.
Qed.

(** ** Lines *)

Inductive line :=
| LHeader (path : list str)
| LItem (path : list str)
| LEntry (k : str) (v : Value)
| LBlank.

Definition line_text (l : line) : str :=
  match l with
  | LHeader path => lit "[" ++ separated (lit ".") path ++ lit "]" ++ [10]
  | LItem path => lit "[[" ++ separated (lit ".") path ++ lit "]]" ++ [10]
  | LEntry k v => write_entry (k, v)
  | LBlank => [10]
  end.

Definition path_toks (path : list str) : list Token := separated [TDot] (map (fun k => [TIdent k]) path).

Definition line_toks (l : line) : list Token :=
  match l with
  | LHeader path => [TLBracket] ++ path_toks path ++ [TRBracket; TNewline]
  | LItem path => [TLBracket; TLBracket] ++ path_toks path ++ [TRBracket; TRBracket; TNewline]
  | LEntry k v => [TIdent k; TEq] ++ value_toks v ++ [TNewline]
  | LBlank => [TNewline]
  end.

Definition line_ok (l : line) : Prop :=
  match l with
  | LHeader path | LItem path => path ≠ [] ∧ Forall ident_ok path
  | LEntry k v => ident_ok k ∧ leaf_ok v = true
  | LBlank => True
  end.

Lemma lexes_path path rest : Forall ident_ok path → word_end rest → lexes (separated (lit ".") path) (path_toks path) rest.
Proof.
  intros Hp Hr. apply (lexes_separated word_end); [|done|intros; by apply lexes_punct|done].
  induction Hp as [|k path Hk _ IH]; [constructor|]. constructor; [|done]. intros r Hr'. apply lexes_word; [by left|by apply Hk|done].
Qed.

Lemma lexes_line l rest : line_ok l → lexes (line_text l) (line_toks l) rest.
Proof.
  destruct l as [path|path|k v|]; cbn [line_ok line_text line_toks].
  - intros [_ Hp]. apply (lexes_app [91]); [by apply lexes_punct|]. apply lexes_app; [by apply lexes_path|].
    apply (lexes_app [93] [10] [TRBracket] [TNewline]); by apply lexes_punct.
  - intros [_ Hp]. apply (lexes_app [91; 91]); [apply (lexes_app [91] [91] [TLBracket] [TLBracket]); by apply lexes_punct|].
    apply lexes_app; [by apply lexes_path|].
    apply (lexes_app [93] [93; 10] [TRBracket] [TRBracket; TNewline]); [by apply lexes_punct|].
    apply (lexes_app [93] [10] [TRBracket] [TNewline]); by apply lexes_punct.
  - intros [Hk Hv]. unfold write_entry. cbn [fst snd].
    apply (lexes_app k _ [TIdent k] ([TEq] ++ value_toks v ++ [TNewline])); [apply lexes_word; [by left|by apply Hk|done]|].
    apply (lexes_app (lit " = ")).
    + apply (lexes_app [32] [61; 32] [] [TEq]); [by apply lexes_punct|].
      apply (lexes_app [61] [32] [TEq] []); by apply lexes_punct.
    + apply lexes_app; [by apply lexes_value; [|cbn; auto]|by apply lexes_punct].
  - intros _. by apply lexes_punct.
Qed.

Lemma lexes_lines ls : Forall line_ok ls → lexes (ls ≫= line_text) (ls ≫= line_toks) [].
Proof.
  induction 1 as [|l ls Hl _ IH]; [apply lexes_nil|]. rewrite !bind_cons. apply lexes_app; [by apply lexes_line|done].
Qed.

Lemma tokenize_lines ls : Forall line_ok ls →
  ∃ sp, tokenize (ls ≫= line_text) = Ret sp ∧ tok <$> sp = (ls ≫= line_toks) ++ [TEof].
Proof.
  intros Hl. unfold tokenize.
  destruct (lexes_lines ls Hl (S (length (ls ≫= line_text))) [] 1%nat 1%nat) as (fuel & sp & ln & cl & H1 & H2 & H3);
    [rewrite app_nil_r; lia|]. rewrite app_nil_r in H1. rewrite H1.
  destruct fuel as [|fuel]; [cbn in H3; lia|]. eexists. split; [reflexivity|]. rewrite app_nil_l, fmap_app, H2. done.
Qed.

(** ** Parsing printed tokens *)

Definition toks (p : Parser) : list Token := tok <$> (p_cur p :: p_next p).

Lemma peek_toks p t ts : toks p = t :: ts → peek_tok p = t.
Proof. unfold toks, peek_tok. by intros [= -> _]. Qed.

Lemma advance_toks p t ts : toks p = t :: ts → ts ≠ [] → toks (advance p) = ts.
Proof.
  destruct p as [s [|s' l]]; unfold toks, advance; cbn; [by intros [= _ <-]|]. by intros [= _ <-].
Qed.

Lemma toks_length p ts : toks p = ts → length ts = S (length (p_next p)).
Proof. intros <-. unfold toks. by rewrite length_fmap. Qed.

Lemma skip_newlines_stay p t ts : toks p = t :: ts → t ≠ TNewline → skip_newlines p = p.
Proof.
  destruct p as [s l]. unfold toks, skip_newlines. cbn. intros [= <- _] Hn.
  destruct l; cbn [skip_newlines_from]; by destruct (tok s).
Qed.

Lemma skip_newlines_step p ts : toks p = TNewline :: ts → ts ≠ [] → skip_newlines p = skip_newlines (advance p).
Proof.
  destruct p as [s [|s' l]]; unfold toks, skip_newlines, advance; cbn; [by intros [= _ <-]|]. by intros [= -> _] _.
Qed.

(** Moves over the first token. *)
Ltac step_tok H t :=
  let Hp := fresh "Hp" in pose proof (peek_toks _ _ _ H) as Hp; apply advance_toks in H as t; [|try done]; rewrite ?Hp.

Lemma expect_rbracket_toks p rest : toks p = TRBracket :: rest → rest ≠ [] →
  expect_rbracket p = Ret (advance p) ∧ toks (advance p) = rest.
Proof. intros Ht Hr. split; [|by eapply advance_toks]. unfold expect_rbracket. by rewrite (peek_toks _ _ _ Ht). Qed.

Lemma expect_eq_toks p rest : toks p = TEq :: rest → rest ≠ [] → expect_eq p = Ret (advance p) ∧ toks (advance p) = rest.
Proof. intros Ht Hr. split; [|by eapply advance_toks]. unfold expect_eq. by rewrite (peek_toks _ _ _ Ht). Qed.

Lemma expect_newline_toks p rest : toks p = TNewline :: rest → rest ≠ [] →
  expect_newline_or_eof p = Ret (advance p) ∧ toks (advance p) = rest.
Proof. intros Ht Hr. split; [|by eapply advance_toks]. unfold expect_newline_or_eof. by rewrite (peek_toks _ _ _ Ht). Qed.

Lemma parse_ident_toks p k rest : toks p = TIdent k :: rest → rest ≠ [] →
  parse_ident p = Ret (k, advance p) ∧ toks (advance p) = rest.
Proof. intros Ht Hr. split; [|by eapply advance_toks]. unfold parse_ident. by rewrite (peek_toks _ _ _ Ht). Qed.

Lemma value_toks_head v : leaf_ok v = true → ∃ t ts, value_toks v = t :: ts ∧ t ≠ TNewline ∧ t ≠ TRBracket.
Proof. destruct v; cbn; try done; intros _; by eexists _, _. Qed.

Lemma separated_cons {A} (sep : list A) x y xs : separated sep (x :: y :: xs) = x ++ sep ++ separated sep (y :: xs).
Proof. cbn [separated]. rewrite bind_cons. by rewrite <- app_assoc. Qed.

Definition reads (pv : Parser → outcome (Value * Parser) ParseError) (v : Value) : Prop :=
  ∀ p rest, toks p = value_toks v ++ rest → rest ≠ [] → ∃ p', pv p = Ret (v, p') ∧ toks p' = rest.

Lemma array_loop_reads pv vs : Forall (fun v => leaf_ok v = true ∧ reads pv v) vs → ∀ fuel items p rest,
  toks p = separated [TComma] (map value_toks vs) ++ TRBracket :: rest → rest ≠ [] → (length vs < fuel)%nat →
  ∃ p', array_loop pv fuel items p = Ret (VArray (items ++ vs), p') ∧ toks p' = rest.
Proof.
  induction 1 as [|v vs [Hv Hpv] _ IH]; intros [|fuel] items p rest Ht Hr Hf; cbn [length] in Hf; try lia; cbn [array_loop].
  - cbn [map separated app] in Ht. rewrite (skip_newlines_stay _ _ _ Ht) by done. rewrite (peek_toks _ _ _ Ht), app_nil_r.
    eexists. split; [done|]. by eapply advance_toks.
  - destruct (value_toks_head v Hv) as (t & ts & Hh & Hn & Hb).
    assert (∃ more, toks p = value_toks v ++ more ∧ more = (match vs with [] => [] | _ => [TComma] ++ separated [TComma] (map value_toks vs) end) ++ TRBracket :: rest) as (more & Ht' & Hmore).
    { eexists. split; [|done]. rewrite Ht. destruct vs; cbn [map]; [cbn [separated mbind list_bind]; by rewrite app_nil_r|]. rewrite separated_cons. by rewrite <- !app_assoc. }
    assert (more ≠ []) as Hne by (rewrite Hmore; by destruct vs).
    rewrite (skip_newlines_stay p t (ts ++ more)) by (done || by rewrite Ht', Hh).
    rewrite (peek_toks p t (ts ++ more)) by (by rewrite Ht', Hh).
    destruct (Hpv p more Ht' Hne) as (p1 & Hp1 & Ht1). rewrite Hp1. cbn [out_bind].
    assert (match t with TRBracket => False | _ => True end) as Hb' by (by destruct t).
    destruct vs as [|w vs]; subst more; cbn [app] in Ht1.
    + assert (∃ p', expect_rbracket p1 = Ret p' ∧ toks p' = rest) as (p' & He & Htp')
        by (eexists; by apply expect_rbracket_toks).
      rewrite (skip_newlines_stay _ _ _ Ht1) by done. rewrite (peek_toks _ _ _ Ht1).
      rewrite (skip_newlines_stay _ _ _ Ht1) by done. rewrite He. exists p'. by destruct t.
    + rewrite (skip_newlines_stay _ _ _ Ht1) by done. rewrite (peek_toks _ _ _ Ht1).
      apply advance_toks in Ht1; [|by destruct (separated [TComma] (map value_toks (w :: vs)))].
      destruct (IH fuel (items ++ [v]) _ rest Ht1 Hr ltac:(lia)) as (p' & Hp' & Htp').
      rewrite <- app_assoc in Hp'. exists p'. by destruct t.
Qed.

Lemma separated_length {A} (sep : list A) (xs : list (list A)) x : x ∈ xs → (length x <= length (separated sep xs))%nat.
Proof.
  destruct xs as [|y xs]; [by intros ?%elem_of_nil|]. cbn [separated]. rewrite length_app. intros [->|Hx]%elem_of_cons; [lia|].
  enough (length x <= length (xs ≫= (fun t => sep ++ t)))%nat by lia.
  induction xs as [|z xs IH]; [by apply elem_of_nil in Hx|]. rewrite bind_cons, !length_app. apply elem_of_cons in Hx as [->|Hx]; [lia|].
  specialize (IH Hx). lia.
Qed.

Lemma array_toks_length vs : Forall (fun v => leaf_ok v = true) vs →
  (length vs <= length (separated [TComma] (map value_toks vs)))%nat.
Proof.
  assert (∀ v, leaf_ok v = true → 1 <= length (value_toks v))%nat as Hpos
    by (intros v (t & ts & -> & _)%value_toks_head; cbn [length]; lia).
  destruct 1 as [|v vs Hv Hvs]; [cbn; lia|]. cbn [map separated length]. rewrite length_app. specialize (Hpos v Hv).
  enough (length vs <= length (map value_toks vs ≫= (fun t => [TComma] ++ t)))%nat by lia.
  clear. induction vs as [|v vs IH]; [done|]. cbn [map length]. rewrite bind_cons, !length_app. cbn [length]. lia.
Qed.

Lemma parse_value_reads v : leaf_ok v = true → ∀ fuel, (length (value_toks v) <= fuel)%nat → reads (parse_value fuel) v.
Proof.
  induction v as [s|n|f|b|vs IH|t _] using Value_nested_ind; intros Hv [|fuel] Hf p rest Ht Hr; cbn [value_toks length app] in Hf, Ht; try lia; try done;
    cbn [parse_value]; rewrite (peek_toks _ _ _ Ht); try (eexists; split; [reflexivity|by eapply advance_toks]).
  cbn [leaf_ok] in Hv.
  assert (Forall (fun v => leaf_ok v = true) vs) as Hall.
  { apply Forall_forall. intros v Hin. rewrite forallb_forall in Hv. apply Hv. by apply list_elem_of_In. }
  pose proof (array_toks_length vs Hall) as Hlen. rewrite length_app in Hf. cbn [length] in Hf.
  apply advance_toks in Ht; [|by destruct (separated [TComma] (map value_toks vs))]. rewrite <- app_assoc in Ht. cbn [app] in Ht.
  eapply (array_loop_reads _ vs); [|exact Ht|done|lia].
  apply Forall_forall. intros v Hin. rewrite Forall_forall in IH, Hall. split; [by apply Hall|].
  apply IH; [done|by apply Hall|].
  pose proof (separated_length [TComma] (map value_toks vs) (value_toks v)) as Hl.
  specialize (Hl (list_elem_of_fmap_2 value_toks vs v Hin)). lia.
Qed.

Lemma dotted_loop_reads path : ∀ fuel parts p rest,
  toks p = (map (fun k => [TIdent k]) path ≫= (fun t => [TDot] ++ t)) ++ TRBracket :: rest → rest ≠ [] → (length path < fuel)%nat →
  ∃ p', dotted_loop fuel parts p = Ret (parts ++ path, p') ∧ toks p' = TRBracket :: rest.
Proof.
  induction path as [|k path IH]; intros [|fuel] parts p rest Ht Hr Hf; cbn [length] in Hf; try lia; cbn [dotted_loop].
  - cbn [map mbind list_bind app] in Ht. rewrite (peek_toks _ _ _ Ht), app_nil_r. by exists p.
  - cbn [map] in Ht. rewrite bind_cons in Ht. rewrite <- !app_assoc in Ht. cbn [app] in Ht. rewrite (peek_toks _ _ _ Ht).
    apply advance_toks in Ht; [|done].
    destruct (parse_ident_toks _ _ _ Ht) as [He Ht']; [by destruct (map (λ k, [TIdent k]) path ≫= (λ t, TDot :: t))|].
    rewrite He. cbn [out_bind]. destruct (IH fuel (parts ++ [k]) _ rest Ht' Hr ltac:(lia)) as (p' & Hp & Htp).
    exists p'. by rewrite <- app_assoc in Hp.
Qed.

Lemma parse_dotted_key_reads path p rest : path ≠ [] → toks p = path_toks path ++ TRBracket :: rest → rest ≠ [] →
  ∃ p', parse_dotted_key p = Ret (path, p') ∧ toks p' = TRBracket :: rest.
Proof.
  intros Hne Ht Hr. destruct path as [|k path]; [done|]. unfold path_toks in Ht. cbn [map separated] in Ht.
  rewrite <- app_assoc in Ht. cbn [app] in Ht. unfold parse_dotted_key.
  destruct (parse_ident_toks _ _ _ Ht) as [He Ht']; [by destruct (map (λ k, [TIdent k]) path ≫= (λ t, TDot :: t))|].
  rewrite He. cbn [out_bind]. eapply (dotted_loop_reads path _ [k]); [exact Ht'|done|].
  apply toks_length in Ht'. rewrite length_app in Ht'. cbn [length] in Ht'.
  enough (length path <= length (map (λ k, [TIdent k]) path ≫= (λ t, TDot :: t)))%nat by lia.
  clear. induction path as [|k path IH]; [done|]. cbn [map length]. rewrite bind_cons, length_app. cbn [length]. lia.
Qed.

(** ** What a line does to the document *)

Definition no_span : Spanned := mkSpanned TEof 0 0.

(** The table so far and where entries go. *)
Definition run_line (l : line) (st : table * list PathSeg) : outcome (table * list PathSeg) ParseError :=
  match l with
  | LHeader path => init_table st.1 path
  | LItem path => init_array_of_tables st.1 path no_span
  | LEntry k v => let% root := insert_value st.1 st.2 k v 0 0 in Ret (root, st.2)
  | LBlank => Ret st
  end.

Fixpoint run_lines (ls : list line) (st : table * list PathSeg) : outcome (table * list PathSeg) ParseError :=
  match ls with [] => Ret st | l :: ls => let% st := run_line l st in run_lines ls st end.

Lemma out_bind_ret {A B E} (m : outcome A E) (k : A → outcome B E) b : out_bind m k = Ret b → ∃ a, m = Ret a ∧ k a = Ret b.
Proof. destruct m; cbn; [eauto|done..]. Qed.

(** Positions only appear in errors. *)
Lemma navigate_mono path (f g : table → outcome table ParseError) : (∀ t x, f t = Ret x → g t = Ret x) →
  ∀ t x, navigate path f t = Ret x → navigate path g t = Ret x.
Proof.
  intros Hfg. induction path as [|[k|k] path IH]; intros t x; cbn [navigate]; [apply Hfg| |].
  - destruct (default _ _); try done. intros (u & Hu & Hx)%out_bind_ret. by rewrite (IH _ _ Hu).
  - destruct (default _ _) as [| | | |arr|]; try done.
    destruct (last (match arr with [] => [VTable []] | _ => arr end)) as [[]|]; try done.
    intros (u & Hu & Hx)%out_bind_ret. by rewrite (IH _ _ Hu).
Qed.

Lemma insert_value_mono root cur k v l c x : insert_value root cur k v 0 0 = Ret x → insert_value root cur k v l c = Ret x.
Proof. apply navigate_mono. intros t y. by destruct (tree_get k t). Qed.

Lemma init_array_mono root path sp x : init_array_of_tables root path no_span = Ret x → init_array_of_tables root path sp = Ret x.
Proof.
  unfold init_array_of_tables. destruct (last path) as [name|]; [|done]. intros (r & Hr & Hx)%out_bind_ret.
  assert (∀ t y, push_table name no_span t = Ret y → push_table name sp t = Ret y) as Hpush
    by (intros t y; unfold push_table; by destruct (default (VArray []) (tree_get name t))).
  by rewrite (navigate_mono _ _ _ Hpush _ _ Hr).
Qed.

Lemma parse_header_reads l p rest st st' : line_ok l → run_line l st = Ret st' → (∃ path, l = LHeader path ∨ l = LItem path) →
  toks p = line_toks l ++ rest → rest ≠ [] →
  ∃ p', parse_header (advance p) st.1 = Ret (p', st') ∧ toks p' = rest.
Proof.
  intros Hl Hrun [path Hpath] Ht Hr. unfold parse_header. destruct Hpath as [-> | ->]; cbn [line_ok line_toks app] in *; destruct Hl as [Hne _];
    rewrite <- ?app_assoc in Ht; cbn [app] in Ht.
  - apply advance_toks in Ht; [|by destruct (path_toks path)]. destruct (parse_dotted_key_reads path _ _ Hne Ht) as (p1 & E1 & Ht1); [done|].
    assert (peek_tok (advance p) ≠ TLBracket) as Hnl.
    { destruct path as [|k path]; [done|]. unfold path_toks in Ht. cbn in Ht. rewrite (peek_toks _ _ _ Ht). done. }
    replace (match peek_tok (advance p) with TLBracket => true | _ => false end) with false by (by destruct (peek_tok (advance p))).
    rewrite E1. cbn [out_bind]. destruct (expect_rbracket_toks _ _ Ht1) as [-> Ht2]; [done|]. cbn [out_bind].
    destruct (expect_newline_toks _ _ Ht2 Hr) as [-> Ht3]. cbn [out_bind]. cbn [run_line] in Hrun. rewrite Hrun. by eexists.
  - apply advance_toks in Ht; [|done]. rewrite (peek_toks _ _ _ Ht). apply advance_toks in Ht; [|by destruct (path_toks path)].
    destruct (parse_dotted_key_reads path _ _ Hne Ht) as (p1 & E1 & Ht1); [done|]. rewrite E1. cbn [out_bind].
    destruct (expect_rbracket_toks _ _ Ht1) as [-> Ht2]; [done|]. cbn [out_bind].
    destruct (expect_rbracket_toks _ _ Ht2) as [-> Ht3]; [done|]. cbn [out_bind].
    destruct (expect_newline_toks _ _ Ht3 Hr) as [-> Ht4]. cbn [out_bind]. cbn [run_line] in Hrun.
    rewrite (init_array_mono _ _ _ _ Hrun). by eexists.
Qed.

Lemma parse_entry_reads k v p rest st st' : leaf_ok v = true → run_line (LEntry k v) st = Ret st' →
  toks p = line_toks (LEntry k v) ++ rest → rest ≠ [] →
  ∃ p', parse_entry k p st.1 st.2 = Ret (p', st'.1) ∧ st'.2 = st.2 ∧ toks p' = rest.
Proof.
  intros Hv Hrun Ht Hr. cbn [run_line] in Hrun. apply out_bind_ret in Hrun as (root & Hi & [= <-]). cbn [line_toks app] in Ht.
  rewrite <- app_assoc in Ht. cbn [app] in Ht. unfold parse_entry. apply advance_toks in Ht; [|done].
  destruct (expect_eq_toks _ _ Ht) as [-> Ht1]; [by destruct (value_toks v)|]. cbn [out_bind].
  edestruct (parse_value_reads v Hv) as (p2 & -> & Ht2); [|exact Ht1|done|].
  { apply toks_length in Ht1. rewrite length_app in Ht1. cbn [length] in Ht1. lia. }
  cbn [out_bind]. destruct (expect_newline_toks _ _ Ht2 Hr) as [-> Ht3]. cbn [out_bind].
  rewrite (insert_value_mono _ _ _ _ _ _ _ Hi). by eexists.
Qed.

Lemma document_skip fuel p ts root cur : toks p = TNewline :: ts → ts ≠ [] →
  document_loop fuel p root cur = document_loop fuel (advance p) root cur.
Proof. intros Ht Hne. destruct fuel; [done|]. cbn [document_loop]. by rewrite (skip_newlines_step _ _ Ht). Qed.

Lemma document_reads ls : Forall line_ok ls → ∀ fuel p st st',
  toks p = (ls ≫= line_toks) ++ [TEof] → run_lines ls st = Ret st' → (length ls < fuel)%nat →
  document_loop fuel p st.1 st.2 = Ret (VTable st'.1).
Proof.
  induction 1 as [|l ls Hl _ IH]; intros fuel p st st' Ht Hrun Hf; cbn [length run_lines] in *.
  - injection Hrun as <-. destruct fuel as [|fuel]; [lia|]. cbn [document_loop]. cbn [mbind list_bind app] in Ht.
    rewrite (skip_newlines_stay _ _ _ Ht) by done. by rewrite (peek_toks _ _ _ Ht).
  - apply out_bind_ret in Hrun as (st1 & Hrun1 & Hrun). rewrite bind_cons, <- app_assoc in Ht.
    assert ((ls ≫= line_toks) ++ [TEof] ≠ []) as Hne by (by destruct (ls ≫= line_toks)).
    assert (l = LBlank ∨ l ≠ LBlank) as [->|Hb] by (destruct l; auto).
    { cbn [line_toks app] in Ht. rewrite (document_skip _ _ _ _ _ Ht Hne). cbn in Hrun1. injection Hrun1 as <-.
      apply advance_toks in Ht; [|done]. eapply IH; [done|done|lia]. }
    destruct fuel as [|fuel]; [lia|]. cbn [document_loop].
    destruct l as [path|path|k v|]; [| | |done].
    + edestruct (parse_header_reads (LHeader path)) as (p' & Hp & Htp); [done|exact Hrun1|eauto|exact Ht|done|].
      cbn [line_toks app] in Ht. rewrite (skip_newlines_stay _ _ _ Ht) by done. rewrite (peek_toks _ _ _ Ht), Hp.
      cbn [out_bind]. destruct st1 as [root1 cur1]. eapply (IH fuel p' (root1, cur1)); [done|done|lia].
    + edestruct (parse_header_reads (LItem path)) as (p' & Hp & Htp); [done|exact Hrun1|eauto|exact Ht|done|].
      cbn [line_toks app] in Ht. rewrite (skip_newlines_stay _ _ _ Ht) by done. rewrite (peek_toks _ _ _ Ht), Hp.
      cbn [out_bind]. destruct st1 as [root1 cur1]. eapply (IH fuel p' (root1, cur1)); [done|done|lia].
    + destruct Hl as [_ Hv]. edestruct (parse_entry_reads k v) as (p' & Hp & Hcur & Htp); [done|exact Hrun1|exact Ht|done|].
      cbn [line_toks app] in Ht. rewrite (skip_newlines_stay _ _ _ Ht) by done. rewrite (peek_toks _ _ _ Ht), Hp.
      cbn [out_bind]. rewrite <- Hcur. eapply IH; [done|done|lia].
Qed.

(** The parser runs the lines it reads. *)
Lemma parse_lines ls st' : Forall line_ok ls → run_lines ls ([], []) = Ret st' → parse (ls ≫= line_text) = Ret (VTable st'.1).
Proof.
  intros Hl Hrun. destruct (tokenize_lines ls Hl) as (sp & Htok & Hsp). unfold parse. rewrite Htok. cbn [out_bind].
  destruct sp as [|s sp]; [by destruct (ls ≫= line_toks)|]. cbn [Parser_new out_panics out_bind].
  unfold parse_document. apply (document_reads ls Hl _ (mkParser s sp) ([], []) st' Hsp Hrun).
  assert (length ls <= length (ls ≫= line_toks))%nat as Hlen.
  { clear. induction ls as [|l ls IH]; [done|]. rewrite bind_cons, length_app. cbn [length]. destruct l; cbn [line_toks app length]; lia. }
  apply (f_equal length) in Hsp. rewrite length_fmap, length_app in Hsp. cbn [length p_next] in *. lia.
Qed.

(** ** Trees of entries *)

Section tree.
Context {V : Type}.
Implicit Types (t u : list (str * V)) (e : str * V).

Definition tkey_lt (a b : str * V) : Prop := key_compare a.1 b.1 = Lt.
Definition tkey (e : str * V) : bytes := as_bytes e.1.

Lemma key_compare_refl k : key_compare k k = Eq.
Proof. unfold key_compare. induction (as_bytes k) as [|b l IH]; [done|]. cbn [bytes_compare]. by rewrite Z.compare_refl. Qed.

Lemma tree_get_insert k v t : tree_get k (tree_insert k v t) = Some v.
Proof.
  induction t as [|[k' v'] t IH]; cbn [tree_insert]; [cbn [tree_get]; by rewrite key_compare_refl|].
  destruct (key_compare k k') eqn:E; cbn [tree_get]; rewrite ?key_compare_refl, ?E; done.
Qed.

Lemma tree_insert_twice k v w t : tree_insert k v (tree_insert k w t) = tree_insert k v t.
Proof.
  induction t as [|[k' v'] t IH]; cbn [tree_insert]; [by rewrite key_compare_refl|].
  destruct (key_compare k k') eqn:E; cbn [tree_insert]; rewrite ?key_compare_refl, ?E, ?IH; done.
Qed.

Lemma tree_get_some k v t : tree_get k t = Some v → as_bytes k ∈ tkey <$> t.
Proof.
  induction t as [|[k' v'] t IH]; cbn [tree_get]; [done|]. rewrite fmap_cons. destruct (key_compare k k') eqn:E; [|done|].
  - intros _. apply bytes_compare_eq in E. unfold tkey at 1. cbn. rewrite E. by left.
  - intros H. right. by apply IH.
Qed.

Lemma tree_insert_perm k v t : tree_get k t = None → tree_insert k v t ≡ₚ (k, v) :: t.
Proof.
  induction t as [|[k' v'] t IH]; cbn [tree_get tree_insert]; [done|]. destruct (key_compare k k') eqn:E; [done|done|].
  intros H. rewrite (IH H). apply Permutation_swap.
Qed.

Lemma tree_insert_sorted k v t : StronglySorted tkey_lt t → tree_get k t = None → StronglySorted tkey_lt (tree_insert k v t).
Proof.
  induction 1 as [|[k' v'] t Hs IH Hall]; cbn [tree_get tree_insert]; [repeat constructor|].
  destruct (key_compare k k') eqn:E; [done| |].
  - intros _. constructor; [by constructor|]. constructor; [done|]. eapply Forall_impl; [exact Hall|].
    intros e He. unfold tkey_lt, key_compare in *. cbn [fst] in *. by eapply bytes_compare_trans.
  - intros H. constructor; [by apply IH|]. rewrite (tree_insert_perm _ _ _ H). constructor; [|done].
    unfold tkey_lt, key_compare in *. cbn [fst]. by rewrite bytes_compare_antisym, E.
Qed.

Lemma sorted_nodup t : StronglySorted tkey_lt t → NoDup (tkey <$> t).
Proof.
  induction 1 as [|e t Hs IH Hall]; [constructor|]. rewrite fmap_cons. constructor; [|done].
  intros (e' & He & Hin)%list_elem_of_fmap. rewrite Forall_forall in Hall. specialize (Hall e' Hin).
  unfold tkey, tkey_lt, key_compare in *. rewrite He in Hall.
  assert (∀ l : bytes, bytes_compare l l ≠ Lt) as Hirr
    by (intros l; induction l as [|b l IHl]; [done|]; cbn [bytes_compare]; by rewrite Z.compare_refl).
  by eapply Hirr.
Qed.

Lemma sorted_perm_eq t u : StronglySorted tkey_lt t → StronglySorted tkey_lt u → t ≡ₚ u → t = u.
Proof.
  intros Ht Hu Hp. eapply (StronglySorted_unique_strong tkey_lt); [|done..].
  intros a b _ _ H1 H2. unfold tkey_lt, key_compare in *. rewrite bytes_compare_antisym, H1 in H2. done.
Qed.

End tree.

(** ** Changes of a table *)

Abbreviation change := (table → outcome table ParseError).

Definition seqc (f g : change) : change := fun t => let% t := f t in g t.

Fixpoint chain (fs : list change) : change := match fs with [] => Ret | f :: fs => seqc f (chain fs) end.

Definition entry_op (e : str * Value) : change :=
  fun t => match tree_get e.1 t with Some _ => Fail (ParseError_new (DuplicateKey e.1) 0 0) | None => Ret (tree_insert e.1 e.2 t) end.

Lemma navigate_app p q f t : navigate (p ++ q) f t = navigate p (navigate q f) t.
Proof.
  revert t. induction p as [|[k|k] p IH]; intros t; cbn [app navigate]; [done| |].
  - destruct (default _ _); try done. by rewrite IH.
  - destruct (default _ _) as [| | | |arr|]; try done.
    destruct (last (match arr with [] => [VTable []] | _ => arr end)) as [[]|]; try done. by rewrite IH.
Qed.

Lemma navigate_ext p (f g : change) t : (∀ t, f t = g t) → navigate p f t = navigate p g t.
Proof.
  intros Hfg. revert t. induction p as [|[k|k] p IH]; intros t; cbn [navigate]; [done| |].
  - destruct (default _ _); try done. by rewrite IH.
  - destruct (default _ _) as [| | | |arr|]; try done.
    destruct (last (match arr with [] => [VTable []] | _ => arr end)) as [[]|]; try done. by rewrite IH.
Qed.

(** Two changes at one place, one after the other or at once. *)
Lemma navigate_seq p f g t :
  navigate (STable <$> p) (seqc f g) t = let% u := navigate (STable <$> p) f t in navigate (STable <$> p) g u.
Proof.
  revert t. induction p as [|k p IH]; intros t; [done|]. rewrite fmap_cons. cbn [navigate].
  destruct (default (VTable []) (tree_get k t)) as [| | | | |u]; try done. rewrite IH.
  destruct (navigate (STable <$> p) f u) as [u'| |]; [|done..]. cbn [out_bind]. rewrite tree_get_insert. cbn [default from_option id].
  destruct (navigate (STable <$> p) g u') as [w| |]; [|done..]. cbn [out_bind]. by rewrite tree_insert_twice.
Qed.

Lemma seqc_ret f t : seqc f Ret t = f t.
Proof. unfold seqc. by destruct (f t). Qed.
Lemma seqc_assoc f g h t : seqc f (seqc g h) t = seqc (seqc f g) h t.
Proof. unfold seqc. by destruct (f t). Qed.

(** *** Lines as changes

    [acts p ls f]: wherever entries went before, the lines make the change [f] at [p]. *)
Definition acts (p : list str) (ls : list line) (f : change) : Prop :=
  ∀ st root', navigate (STable <$> p) f st.1 = Ret root' → ∃ cur', run_lines ls st = Ret (root', cur').

Lemma run_lines_app ls1 ls2 st : run_lines (ls1 ++ ls2) st = let% st := run_lines ls1 st in run_lines ls2 st.
Proof. revert st. induction ls1 as [|l ls1 IH]; intros st; [done|]. cbn [app run_lines]. destruct (run_line l st); [apply IH|done..]. Qed.

Lemma acts_seq p ls1 ls2 f g : acts p ls1 f → acts p ls2 g → acts p (ls1 ++ ls2) (seqc f g).
Proof.
  intros H1 H2 st root' H. rewrite navigate_seq in H. apply out_bind_ret in H as (r1 & Hf & Hg).
  destruct (H1 st r1 Hf) as [cur1 E1]. rewrite run_lines_app, E1. by apply (H2 (r1, cur1)).
Qed.

Lemma acts_ext p ls (f g : change) : (∀ t, f t = g t) → acts p ls f → acts p ls g.
Proof. intros Hfg Ha st root' H. apply Ha. by rewrite (navigate_ext _ f g). Qed.

Lemma acts_chain p (bs : list (list line * change)) : bs ≠ [] → Forall (fun b => acts p b.1 b.2) bs →
  acts p (concat bs.*1) (chain bs.*2).
Proof.
  intros Hne Hall. induction Hall as [|b bs Hb Hall IH]; [done|]. cbn [fmap list_fmap concat chain].
  destruct bs as [|b' bs]; [|apply acts_seq; [done|by apply IH]].
  cbn [fmap list_fmap concat chain]. rewrite app_nil_r. eapply acts_ext; [|exact Hb]. intros t. by rewrite seqc_ret.
Qed.

(** Entries behind a header that made the change [f]. *)
Lemma run_entries p sub es : ∀ f root r1 root',
  navigate (STable <$> p) f root = Ret r1 →
  navigate (STable <$> p) (seqc f (chain ((fun e => navigate sub (entry_op e)) <$> es))) root = Ret root' →
  run_lines (uncurry LEntry <$> es) (r1, (STable <$> p) ++ sub) = Ret (root', (STable <$> p) ++ sub).
Proof.
  induction es as [|[k v] es IH]; intros f root r1 root' Hf H; cbn [fmap list_fmap chain run_lines] in *.
  - rewrite (navigate_ext _ _ f) in H by (intros; apply seqc_ret). rewrite Hf in H. by injection H as ->.
  - rewrite (navigate_ext _ _ _ _ (seqc_assoc _ _ _)) in H. pose proof H as H'. rewrite navigate_seq in H'.
    apply out_bind_ret in H' as (r2 & Hr2 & _). pose proof Hr2 as Hop. rewrite navigate_seq, Hf in Hop. cbn [out_bind] in Hop.
    cbn [uncurry run_line fst snd]. unfold insert_value.
    assert (∀ q, navigate q (fun t => match tree_get k t with
        | Some _ => Fail (ParseError_new (DuplicateKey k) 0 0) | None => Ret (tree_insert k v t) end) = navigate q (entry_op (k, v))) as -> by done.
    rewrite navigate_app, Hop. cbn [out_bind]. exact (IH _ root r2 root' Hr2 H).
Qed.

Lemma acts_leaves p es : p ≠ [] → acts p (LHeader p :: (uncurry LEntry <$> es) ++ [LBlank]) (chain (entry_op <$> es)).
Proof.
  intros Hp [root cur] root' H. cbn [fst] in H. cbn [run_lines run_line fst]. unfold init_table.
  assert (navigate (STable <$> p) (seqc Ret (chain ((fun e => navigate [] (entry_op e)) <$> es))) root = Ret root') as H'
    by (by rewrite <- H).
  pose proof H' as H2. rewrite navigate_seq in H2. apply out_bind_ret in H2 as (r1 & Hr1 & _). rewrite Hr1. cbn [out_bind].
  rewrite run_lines_app. pose proof (run_entries p [] es Ret root r1 root' Hr1 H') as Hrun. rewrite app_nil_r in Hrun.
  rewrite Hrun. by eexists.
Qed.

Lemma acts_item p k es :
  acts p (LItem (p ++ [k]) :: (uncurry LEntry <$> es) ++ [LBlank])
    (seqc (push_table k no_span) (chain ((fun e => navigate [SArrayTail k] (entry_op e)) <$> es))).
Proof.
  intros [root cur] root' H. cbn [fst] in H. cbn [run_lines run_line fst]. unfold init_array_of_tables.
  rewrite last_snoc, removelast_last. pose proof H as H2. rewrite navigate_seq in H2. apply out_bind_ret in H2 as (r1 & Hr1 & _).
  rewrite Hr1. cbn [out_bind]. rewrite run_lines_app, (run_entries p [SArrayTail k] es _ root r1 root' Hr1 H). by eexists.
Qed.

Lemma acts_sub p k ls f : acts (p ++ [k]) ls f → acts p ls (navigate [STable k] f).
Proof. intros Ha st root' H. apply Ha. by rewrite fmap_app, navigate_app. Qed.

(** ** What the changes add up to

    [adds f es]: on an ordered table without these keys, [f] adds the entries [es]. *)

Definition adds (f : change) (es : table) : Prop :=
  ∀ u, StronglySorted tkey_lt u → NoDup (tkey <$> u ++ es) →
  ∃ u', f u = Ret u' ∧ StronglySorted tkey_lt u' ∧ u' ≡ₚ u ++ es.

Lemma fresh_key (u : table) k v es : NoDup (tkey <$> u ++ (k, v) :: es) → tree_get k u = None.
Proof.
  intros Hn. destruct (tree_get k u) as [w|] eqn:E; [|done]. apply tree_get_some in E. rewrite fmap_app, fmap_cons in Hn.
  apply NoDup_app in Hn as (_ & Hd & _). destruct (Hd _ E). by left.
Qed.

(** A change that inserts one new entry. *)
Lemma adds_one f k v : (∀ u, tree_get k u = None → f u = Ret (tree_insert k v u)) → adds f [(k, v)].
Proof.
  intros Hf u Hs Hn. apply fresh_key in Hn as Hk. exists (tree_insert k v u). split_and!; [by apply Hf|by apply tree_insert_sorted|].
  rewrite (tree_insert_perm _ _ _ Hk). by rewrite <- Permutation_cons_append.
Qed.

Lemma adds_nil : adds Ret [].
Proof. intros u Hs _. exists u. by rewrite app_nil_r. Qed.

Lemma adds_seq f g es fs : adds f es → adds g fs → adds (seqc f g) (es ++ fs).
Proof.
  intros Hf Hg u Hs Hn. rewrite app_assoc in Hn. destruct (Hf u Hs) as (u1 & E1 & Hs1 & Hp1).
  { rewrite fmap_app in Hn. by apply NoDup_app in Hn as (? & _). }
  destruct (Hg u1 Hs1) as (u2 & E2 & Hs2 & Hp2); [by rewrite Hp1|].
  exists u2. unfold seqc. rewrite E1. cbn [out_bind]. split_and!; [done|done|]. by rewrite Hp2, Hp1, app_assoc.
Qed.

Lemma adds_chain (bs : list (change * table)) : Forall (fun b => adds b.1 b.2) bs → adds (chain bs.*1) (concat bs.*2).
Proof. induction 1 as [|b bs Hb _ IH]; [apply adds_nil|]. by apply adds_seq. Qed.

Lemma adds_entries es : adds (chain (entry_op <$> es)) es.
Proof.
  induction es as [|[k v] es IH]; [apply adds_nil|]. rewrite fmap_cons. cbn [chain]. apply (adds_seq _ _ [(k, v)]); [|done].
  apply adds_one. intros u Hu. unfold entry_op. cbn [fst snd]. by rewrite Hu.
Qed.

(** From the empty table an ordered list of entries is rebuilt, in any order. *)
Lemma adds_rebuilds f es t : adds f es → StronglySorted tkey_lt t → es ≡ₚ t → f [] = Ret t.
Proof.
  intros Hf Ht Hp. destruct (Hf []) as (u & -> & Hs & Hpu); [constructor|cbn [app]; rewrite Hp; by apply sorted_nodup|].
  f_equal. apply sorted_perm_eq; [done..|]. by rewrite Hpu.
Qed.

(** A table of its own. *)
Definition fill (t : table) : change := fun u => match u with [] => Ret t | _ => dup [] end.

Lemma adds_table k t : adds (navigate [STable k] (fill t)) [(k, VTable t)].
Proof. apply adds_one. intros u Hu. cbn [navigate]. rewrite Hu. reflexivity. Qed.

(** An array of tables: each item pushes a table and fills it. *)
Definition item_op (k : str) (it : table) : change :=
  seqc (push_table k no_span) (chain ((fun e => navigate [SArrayTail k] (entry_op e)) <$> it)).

Lemma tail_entries k pre es : ∀ w w' u, chain (entry_op <$> es) w = Ret w' →
  chain ((fun e => navigate [SArrayTail k] (entry_op e)) <$> es) (tree_insert k (VArray (pre ++ [VTable w])) u)
  = Ret (tree_insert k (VArray (pre ++ [VTable w'])) u).
Proof.
  induction es as [|e es IH]; intros w w' u; rewrite ?fmap_nil, ?fmap_cons; cbn [chain]; [by intros [= ->]|].
  intros (w1 & Hw1 & Hw')%out_bind_ret. unfold seqc at 1. cbn [navigate]. rewrite tree_get_insert. cbn [default from_option id].
  replace (match pre ++ [VTable w] with [] => [VTable []] | _ => pre ++ [VTable w] end) with (pre ++ [VTable w]) by (by destruct pre).
  rewrite last_snoc, removelast_last, Hw1. cbn [out_bind]. rewrite tree_insert_twice. by apply IH.
Qed.

Lemma item_op_spec k it pre u : StronglySorted tkey_lt it →
  default (VArray []) (tree_get k u) = VArray pre → item_op k it u = Ret (tree_insert k (VArray (pre ++ [VTable it])) u).
Proof.
  intros Hs Hu. unfold item_op, seqc at 1, push_table. rewrite Hu. cbn [out_bind]. apply tail_entries.
  by apply (adds_rebuilds _ it); [apply adds_entries| |].
Qed.

Lemma items_spec k its : Forall (StronglySorted tkey_lt) its → ∀ pre u,
  default (VArray []) (tree_get k u) = VArray pre → its ≠ [] →
  chain (item_op k <$> its) u = Ret (tree_insert k (VArray (pre ++ (VTable <$> its))) u).
Proof.
  induction 1 as [|it its Hs _ IH]; intros pre u Hu Hne; [done|]. rewrite !fmap_cons. cbn [chain]. unfold seqc at 1.
  rewrite (item_op_spec k it pre u Hs Hu). cbn [out_bind]. destruct its as [|it' its]; [done|].
  rewrite (IH (pre ++ [VTable it])) by (done || by rewrite tree_get_insert). by rewrite tree_insert_twice, <- app_assoc.
Qed.

Lemma adds_items k its : its ≠ [] → Forall (StronglySorted tkey_lt) its →
  adds (chain (item_op k <$> its)) [(k, VArray (VTable <$> its))].
Proof. intros Hne Hs. apply adds_one. intros u Hu. apply (items_spec k its Hs []); [by rewrite Hu|done]. Qed.

(** ** Documents *)

Definition keys_ok (t : table) : Prop := StronglySorted tkey_lt t ∧ Forall (fun e => ident_ok e.1) t.

Definition item_ok (v : Value) : Prop :=
  match v with VTable it => keys_ok it ∧ Forall (fun e => leaf_ok e.2 = true) it | _ => False end.

(** Entries, nested tables that are not empty, and arrays of plain tables. *)
Fixpoint doc_ok (v : Value) : Prop :=
  match v with
  | VTable t => t ≠ [] ∧ keys_ok t ∧ foldr (fun e P => doc_ok e.2 ∧ P) True t
  | VArray vs => leaf_ok v = true ∨ (vs ≠ [] ∧ Forall item_ok vs)
  | _ => leaf_ok v = true
  end.

Definition root_ok (t : table) : Prop := keys_ok t ∧ Forall (fun e => doc_ok e.2) t.

Definition leaf_lines (p : list str) (t : table) : list line :=
  if existsb (fun e => is_leaf e.2) t then
    (if bool_decide (p = []) then [] else [LHeader p]) ++ (uncurry LEntry <$> filter (fun e => is_leaf e.2 = true) t) ++ [LBlank]
  else [].

Definition item_lines (sub : list str) (v : Value) : list line :=
  match v with VTable it => LItem sub :: (uncurry LEntry <$> it) ++ [LBlank] | _ => [] end.

Fixpoint table_lines (v : Value) (p : list str) : list line :=
  match v with
  | VTable t =>
      leaf_lines p t ++
      flat_map (fun e =>
        match e.2 with
        | VTable _ => table_lines e.2 (p ++ [e.1])
        | VArray arr => if is_leaf e.2 then [] else flat_map (item_lines (p ++ [e.1])) arr
        | _ => []
        end) t
  | _ => []
  end.

(** The lines of one entry that is not a leaf, and their change. *)
Definition sub_lines (p : list str) (e : str * Value) : list line :=
  match e.2 with
  | VTable _ => table_lines e.2 (p ++ [e.1])
  | VArray arr => if is_leaf e.2 then [] else flat_map (item_lines (p ++ [e.1])) arr
  | _ => []
  end.

Definition sub_op (e : str * Value) : change :=
  match e.2 with
  | VTable t => navigate [STable e.1] (fill t)
  | VArray arr => chain (item_op e.1 <$> omap as_table arr)
  | _ => Ret
  end.

Lemma leaf_ok_is_leaf v : leaf_ok v = true → is_leaf v = true.
Proof.
  destruct v as [| | | |vs|]; try done. cbn [leaf_ok is_leaf]. rewrite !forallb_forall. intros Hv x Hx. specialize (Hv x Hx).
  by destruct x.
Qed.

Lemma items_not_leaf vs : vs ≠ [] → Forall item_ok vs → is_leaf (VArray vs) = false ∧ forallb is_table vs = true.
Proof.
  intros Hne Hall. split.
  - destruct Hall as [|v vs Hv _]; [done|]. by destruct v.
  - apply forallb_forall. intros v Hv%list_elem_of_In. rewrite Forall_forall in Hall. specialize (Hall v Hv). by destruct v.
Qed.

(** A valid value is an entry, a table or an array of tables. *)
Lemma doc_ok_cases v : doc_ok v →
  (is_leaf v = true ∧ leaf_ok v = true) ∨ (is_leaf v = false ∧ ∃ t, v = VTable t) ∨
  (is_leaf v = false ∧ ∃ vs, v = VArray vs ∧ vs ≠ [] ∧ Forall item_ok vs).
Proof.
  destruct v as [s|n|f|b|vs|t]; cbn [doc_ok]; intros Hv; try (left; by split).
  - destruct Hv as [Hv|[Hne Hv]]; [left; split; [by apply leaf_ok_is_leaf|done]|]. right. right.
    split; [by apply items_not_leaf|eauto].
  - right. left. eauto.
Qed.

Lemma entries_text es : flat_map write_entry es = (uncurry LEntry <$> es) ≫= line_text.
Proof. induction es as [|[k v] es IH]; [done|]. 
  change (write_entry (k, v) ++ flat_map write_entry es = line_text (LEntry k v) ++ ((uncurry LEntry <$> es) ≫= line_text)). by rewrite IH.
Qed.

Lemma write_leaves_text t p : write_leaves t p = leaf_lines p t ≫= line_text.
Proof.
  unfold write_leaves, leaf_lines. destruct (existsb _ t); [|done]. rewrite !bind_app, entries_text.
  f_equal. by destruct (bool_decide (p = [])); [|cbn; rewrite ?app_nil_r].
Qed.

Lemma write_item_text sub v : item_ok v →
  match v with VTable it =>
    write_item sub it ++ flat_map (fun ie => match ie.2 with VTable _ => write_toml_table ie.2 (sub ++ [ie.1]) | _ => [] end) it
  | _ => [] end = item_lines sub v ≫= line_text.
Proof.
  destruct v as [| | | | |it]; try done. cbn [item_ok item_lines]. intros [_ Hit].
  assert (filter (fun e => is_table e.2 = false) it = it) as Hf.
  { clear -Hit. induction Hit as [|[k v] it Hv _ IH]; [done|]. rewrite filter_cons, IH. by destruct v. }
  assert (flat_map (fun ie => match ie.2 with VTable _ => write_toml_table ie.2 (sub ++ [ie.1]) | _ => [] end) it = []) as ->.
  { clear -Hit. induction Hit as [|[k v] it Hv _ IH]; [done|]. cbn [flat_map snd]. rewrite IH. by destruct v. }
  rewrite app_nil_r. unfold write_item. rewrite Hf, entries_text, bind_cons, bind_app. cbn [line_text]. rewrite <- !app_assoc. done.
Qed.

Lemma flat_map_text {A} (f : A → str) (g : A → list line) (l : list A) :
  Forall (fun a => f a = g a ≫= line_text) l → flat_map f l = flat_map g l ≫= line_text.
Proof.
  induction 1 as [|a l Ha _ IH]; [done|]. change (f a ++ flat_map f l = (g a ++ flat_map g l) ≫= line_text).
  by rewrite bind_app, Ha, IH.
Qed.

Lemma doc_ok_entries t : doc_ok (VTable t) → root_ok t.
Proof. intros (_ & Hk & Hall). split; [done|]. by apply foldr_and. Qed.

(** The printer writes the text of these lines. *)
Lemma write_table_text v : match v with VTable t => root_ok t | _ => True end → ∀ p, write_toml_table v p = table_lines v p ≫= line_text.
Proof.
  induction v as [s|n|f|b|vs _|t IH] using Value_nested_ind; try done. intros [_ Hall] p. cbn [write_toml_table table_lines].
  rewrite bind_app, write_leaves_text. f_equal. apply flat_map_text. apply Forall_forall. intros [k v] Hin.
  rewrite Forall_forall in IH, Hall. specialize (IH _ Hin). specialize (Hall _ Hin). cbn [fst snd] in *.
  destruct v as [| | | |vs|u]; try done.
  - destruct (doc_ok_cases _ Hall) as [[Hl Hlo]|[[_ [? ?]]|(Hl & vs' & [= <-] & Hne & Hit)]]; [|done|].
    + rewrite Hl. replace (forallb is_table vs && negb (bool_decide (vs = []))) with false; [done|]. symmetry.
      destruct vs as [|v vs]; [done|]. cbn in Hl. cbn [forallb]. by destruct (is_table v).
    + rewrite Hl, (proj2 (items_not_leaf vs Hne Hit)), bool_decide_false by done. cbn [andb negb].
      apply flat_map_text. eapply Forall_impl; [exact Hit|]. intros v Hv. by apply write_item_text.
  - apply IH. by apply doc_ok_entries.
Qed.

Lemma entries_ok es : Forall (fun e => ident_ok e.1 ∧ leaf_ok e.2 = true) es → Forall line_ok (uncurry LEntry <$> es).
Proof. induction 1 as [|[k v] es Hv _ IH]; [constructor|]. rewrite fmap_cons. by constructor. Qed.

Lemma flat_map_Forall {A B} (P : B → Prop) (f : A → list B) l : Forall (fun a => Forall P (f a)) l → Forall P (flat_map f l).
Proof. induction 1 as [|a l Ha _ IH]; [constructor|]. apply Forall_app. by split. Qed.

Lemma table_lines_ok v : match v with VTable t => root_ok t | _ => True end → ∀ p, Forall ident_ok p → Forall line_ok (table_lines v p).
Proof.
  induction v as [s|n|f|b|vs _|t IH] using Value_nested_ind; try (intros; constructor). intros [[_ Hk] Hall] p Hp.
  cbn [table_lines]. apply Forall_app. split.
  - unfold leaf_lines. destruct (existsb _ t); [|constructor]. apply Forall_app. split.
    { case_bool_decide; [constructor|]. by repeat constructor. }
    apply Forall_app. split; [|by repeat constructor]. apply entries_ok. apply Forall_forall. intros [k v] [Hl Hin]%list_elem_of_filter.
    rewrite Forall_forall in Hk, Hall. split; [by apply (Hk _ Hin)|]. specialize (Hall _ Hin).
    cbn [snd] in *. by destruct (doc_ok_cases _ Hall) as [[_ ?]|[[? _]|[? _]]]; [|congruence..].
  - apply flat_map_Forall, Forall_forall. intros [k v] Hin. rewrite Forall_forall in IH, Hall, Hk.
    specialize (IH _ Hin). specialize (Hall _ Hin). specialize (Hk _ Hin). cbn [fst snd] in *.
    assert (Forall ident_ok (p ++ [k])) as Hpk by (apply Forall_app; split; [done|by apply Forall_singleton]).
    destruct v as [| | | |vs|u]; try constructor; [|apply IH; [by apply doc_ok_entries|done]].
    destruct (doc_ok_cases _ Hall) as [[-> _]|[[_ [? ?]]|(-> & vs' & [= <-] & Hne & Hit)]]; [constructor|done|].
    apply flat_map_Forall. eapply Forall_impl; [exact Hit|]. intros v Hv. destruct v as [| | | | |it]; try done.
    destruct Hv as [[_ Hik] Hv]. cbn [item_lines]. constructor; [split; [by destruct p|done]|].
    apply Forall_app. split; [|by repeat constructor]. apply entries_ok. rewrite Forall_forall in *. naive_solver.
Qed.

Lemma omap_tables vs : Forall item_ok vs → VTable <$> omap as_table vs = vs.
Proof. induction 1 as [|v vs Hv _ IH]; [done|]. destruct v; try done. cbn. by rewrite <- IH at 2. Qed.

Lemma adds_sub e : doc_ok e.2 → is_leaf e.2 = false → adds (sub_op e) [e].
Proof.
  destruct e as [k v]. cbn [snd]. intros Hv Hl. unfold sub_op. cbn [fst snd].
  destruct (doc_ok_cases _ Hv) as [[? _]|[(_ & t & ->)|(_ & vs & -> & Hne & Hit)]]; [congruence|apply adds_table|].
  rewrite <- (omap_tables vs Hit) at 2. apply adds_items.
  - destruct Hit as [|v vs Hv' _]; [done|]. by destruct v.
  - clear -Hit. induction Hit as [|v vs Hv _ IH]; [constructor|]. destruct v; try done. cbn. constructor; [apply Hv|done].
Qed.

Lemma acts_items p k vs : vs ≠ [] → Forall item_ok vs →
  acts p (flat_map (item_lines (p ++ [k])) vs) (chain (item_op k <$> omap as_table vs)).
Proof.
  intros Hne Hit.
  assert (∃ its, vs = VTable <$> its ∧ omap as_table vs = its) as (its & -> & ->) by (exists (omap as_table vs); by rewrite omap_tables).
  pose proof (acts_chain p ((fun it => (item_lines (p ++ [k]) (VTable it), item_op k it)) <$> its)) as Hc.
  rewrite <- !list_fmap_compose in Hc. unfold compose in Hc. cbn [fst snd] in Hc.
  rewrite flat_map_concat_map, map_map. apply Hc; [by destruct its|].
  apply Forall_fmap, Forall_true. intros it. apply acts_item.
Qed.

Definition leaves (t : table) : table := filter (fun e => is_leaf e.2 = true) t.
Definition branches (t : table) : table := filter (fun e => is_leaf e.2 = false) t.

Lemma leaves_branches t : leaves t ++ branches t ≡ₚ t.
Proof.
  unfold leaves, branches. induction t as [|e t IH]; [done|]. rewrite !filter_cons. destruct (is_leaf e.2) eqn:E.
  - rewrite decide_True, decide_False by congruence. cbn [app]. by rewrite IH.
  - rewrite decide_False, decide_True by congruence. by rewrite <- Permutation_middle, IH.
Qed.

Lemma sub_lines_branches p t : Forall (fun e => doc_ok e.2) t → flat_map (sub_lines p) t = concat (sub_lines p <$> branches t).
Proof.
  unfold branches. induction 1 as [|[k v] t Hv _ IH]; [done|]. rewrite filter_cons.
  change (sub_lines p (k, v) ++ flat_map (sub_lines p) t =
          concat (sub_lines p <$> (if decide (is_leaf v = false) then (k, v) :: filter (fun e => is_leaf e.2 = false) t
                                   else filter (fun e => is_leaf e.2 = false) t))). rewrite IH.
  destruct (decide (is_leaf v = false)) as [E|E]; [done|]. unfold sub_lines at 1. cbn [fst snd].
  apply not_false_iff_true in E. cbn [snd] in Hv.
  destruct (doc_ok_cases _ Hv) as [[_ Hl]|[[? _]|[? _]]]; [|congruence..]. destruct v; try done. by rewrite E.
Qed.

Lemma leaf_lines_cases p t :
  (leaves t = [] ∧ leaf_lines p t = []) ∨
  (leaves t ≠ [] ∧ leaf_lines p t = (if bool_decide (p = []) then [] else [LHeader p]) ++ (uncurry LEntry <$> leaves t) ++ [LBlank]).
Proof.
  unfold leaf_lines, leaves. destruct (existsb (fun e => is_leaf e.2) t) eqn:E.
  - right. split; [|done]. apply existsb_exists in E as (e & He%list_elem_of_In & Hl). intros H.
    assert (e ∈ filter (fun e => is_leaf e.2 = true) t) as Hin by (by apply list_elem_of_filter). rewrite H in Hin. by apply elem_of_nil in Hin.
  - left. split; [|done]. induction t as [|e t IH]; [done|]. cbn in E. apply orb_false_iff in E as [E1 E2].
    rewrite filter_cons, decide_False by congruence. by apply IH.
Qed.

(** The change a whole table makes from nothing. *)
Definition table_change (t : table) : change := seqc (chain (entry_op <$> leaves t)) (chain (sub_op <$> branches t)).

Lemma table_change_builds t : root_ok t → table_change t [] = Ret t.
Proof.
  intros [[Hs _] Hall]. eapply adds_rebuilds; [|exact Hs|exact (leaves_branches t)].
  apply adds_seq; [apply adds_entries|].
  assert (branches t = concat ((fun e => [e]) <$> branches t)) as Hc.
  { induction (branches t) as [|e l IH]; [done|]. rewrite fmap_cons. cbn [concat app]. by rewrite <- IH. }
  rewrite Hc at 2. pose proof (adds_chain ((fun e => (sub_op e, [e])) <$> branches t)) as Ha.
  rewrite <- !list_fmap_compose in Ha. apply Ha. apply Forall_fmap, Forall_forall. intros e [Hl Hin]%list_elem_of_filter.
  rewrite Forall_forall in Hall. cbn. apply adds_sub; [by apply Hall|done].
Qed.

(** The nested tables and arrays of a table, given what its nested tables do. *)
Lemma acts_branches p t :
  Forall (fun e => doc_ok e.2) t →
  Forall (fun e => match e.2 with VTable u => acts (p ++ [e.1]) (table_lines e.2 (p ++ [e.1])) (fill u) | _ => True end) t →
  branches t ≠ [] → acts p (flat_map (sub_lines p) t) (chain (sub_op <$> branches t)).
Proof.
  intros Hall Hsub Hne. rewrite (sub_lines_branches p t Hall).
  pose proof (acts_chain p ((fun e => (sub_lines p e, sub_op e)) <$> branches t)) as Hc.
  rewrite <- !list_fmap_compose in Hc. apply Hc; [by destruct (branches t)|].
  apply Forall_fmap, Forall_forall. intros [k v] [Hl Hin]%list_elem_of_filter. rewrite Forall_forall in Hall, Hsub.
  specialize (Hall _ Hin). specialize (Hsub _ Hin). cbn [fst snd compose] in *. unfold sub_lines, sub_op. cbn [fst snd].
  destruct (doc_ok_cases _ Hall) as [[? _]|[(_ & u & ->)|(_ & vs & -> & Hvs & Hit)]]; [congruence|by apply acts_sub|].
  rewrite Hl. by apply acts_items.
Qed.

Lemma acts_table v : doc_ok v →
  match v with VTable t => ∀ p, p ≠ [] → acts p (table_lines v p) (fill t) | _ => True end.
Proof.
  induction v as [s|n|f|b|vs _|t IH] using Value_nested_ind; try done. intros Hv p Hp. pose proof Hv as (Hne & _ & _).
  apply doc_ok_entries in Hv as Hroot. destruct Hroot as [Hk Hall].
  assert (Forall (fun e => match e.2 with VTable u => acts (p ++ [e.1]) (table_lines e.2 (p ++ [e.1])) (fill u) | _ => True end) t) as Hsub.
  { apply Forall_forall. intros e Hin. rewrite Forall_forall in IH, Hall. specialize (IH e Hin (Hall e Hin)).
    destruct (e.2); try done. apply IH. by destruct p. }
  assert (acts p (table_lines (VTable t) p) (table_change t)) as Ha.
  { change (acts p (leaf_lines p t ++ flat_map (sub_lines p) t) (table_change t)). unfold table_change.
    destruct (leaf_lines_cases p t) as [[Hl ->]|[Hl ->]].
    - rewrite Hl. apply (acts_branches p t Hall Hsub). intros Hb. pose proof (leaves_branches t) as Hperm.
      rewrite Hl, Hb in Hperm. by apply Permutation_nil_l in Hperm.
    - rewrite bool_decide_false by done. destruct (decide (branches t = [])) as [Hb|Hb].
      + rewrite (sub_lines_branches p t Hall), Hb. cbn [fmap list_fmap concat chain]. rewrite app_nil_r.
        eapply acts_ext; [intros u; symmetry; apply seqc_ret|]. by apply acts_leaves.
      + apply acts_seq; [by apply acts_leaves|by apply acts_branches]. }
  intros st root' H. apply Ha. eapply navigate_mono; [|exact H]. intros u x. destruct u; [|done]. intros [= <-].
  apply table_change_builds. by split.
Qed.

Lemma run_root t : root_ok t → ∃ cur, run_lines (table_lines (VTable t) []) ([], []) = Ret (t, cur).
Proof.
  intros Hroot. pose proof (table_change_builds t Hroot) as Hb. destruct Hroot as [Hk Hall]. unfold table_change in Hb.
  change (table_lines (VTable t) []) with (leaf_lines [] t ++ flat_map (sub_lines []) t). rewrite run_lines_app.
  apply out_bind_ret in Hb as (u & Hu & Hb).
  assert (run_lines (leaf_lines [] t) ([], []) = Ret (u, [])) as ->.
  { destruct (leaf_lines_cases [] t) as [[Hl ->]|[_ ->]]; [rewrite Hl in Hu; by injection Hu as <-|].
    rewrite bool_decide_true by done. cbn [app]. rewrite run_lines_app.
    pose proof (run_entries [] [] (leaves t) Ret [] [] u eq_refl Hu) as Hrun. cbn [fmap list_fmap app] in Hrun. by rewrite Hrun. }
  cbn [out_bind]. destruct (decide (branches t = [])) as [Hn|Hn].
  - rewrite (sub_lines_branches [] t Hall), Hn. rewrite Hn in Hb. injection Hb as ->. by eexists.
  - apply (acts_branches [] t Hall) in Hn; [by apply (Hn (u, []) t)|]. apply Forall_forall. intros e Hin.
    rewrite Forall_forall in Hall. pose proof (acts_table e.2 (Hall e Hin)) as Ha. destruct (e.2); try done. by apply Ha.
Qed.

Lemma toml_print_parse t : root_ok t → ∃ text, to_toml (VTable t) = Some text ∧ parse text = Ret (VTable t).
Proof.
  intros Hroot. exists (write_toml_table (VTable t) []). split; [done|].
  rewrite (write_table_text (VTable t)) by done. destruct (run_root t Hroot) as [cur Hrun].
  apply (parse_lines _ (t, cur)); [|done]. by apply (table_lines_ok (VTable t)); [|constructor].
Qed.

(** The printer and the parser agree: every document of strings, 64-bit integers,
    booleans, arrays of these, nested tables that are not empty and arrays of plain
    tables, with identifiers as keys, is printed to a text that parses back to it. *)
Theorem toml_roundtrip t : root_ok t → ∃ text, to_toml (VTable t) = Some text ∧ parse text = Ret (VTable t).
Proof. apply toml_print_parse. Qed.

(** ** Concrete documents *)

Definition demo_table : table :=
  [(lit "items", VArray [VTable [(lit "n", VInteger (-5))]; VTable [(lit "n", VInteger 7); (lit "s", VString (lit "a b"))]]);
   (lit "sub", VTable [(lit "deep", VTable [(lit "x", VArray [VInteger 1; VBoolean true])])]);
   (lit "title", VString [34; 92; 10; 233])].

Ltac ident := split_and!; [reflexivity|by repeat constructor|reflexivity].
Ltac keys := split; [repeat (constructor; try reflexivity)|repeat (constructor; [ident|]); constructor].

Lemma toml_roundtrip_witness : ∃ text, to_toml (VTable demo_table) = Some text ∧ parse text = Ret (VTable demo_table).
Proof.
  apply (toml_roundtrip demo_table). split; [keys|]. apply Forall_cons; split; [|apply Forall_cons; split; [|by repeat constructor]].
  - right. split; [done|]. apply Forall_cons; split; [|apply Forall_cons; split; [|constructor]]; (split; [keys|by repeat constructor]).
  - split; [done|]. split; [keys|]. split; [|exact I]. split; [done|]. split; [keys|]. split; [by left|exact I].
Defined.

(** A table below an array of tables is printed under a header the parser refuses. *)
Example nested_item_lost :
  (to_toml (VTable [(lit "a", VArray [VTable [(lit "b", VTable [(lit "x", VInteger 1)])]])]) ≫=
   (fun text => Some (parse text)))
  = Some (Fail (ParseError_new (DuplicateKey (lit "a: expected table, got array")) 0 0)).
Proof. vm_compute. reflexivity. Qed.

(** An empty table leaves no trace in the text. *)
Example empty_table_lost : to_toml (VTable [(lit "a", VTable [])]) = Some [].
Proof. vm_compute. reflexivity. Qed.

(** A large float is printed with an exponent, which the tokenizer does not read. *)
Example large_float_lost :
  (to_toml (VTable [(lit "a", VFloat (f64_of_Z (10 ^ 16)))]) ≫= (fun text => Some (parse text)))
  = Some (Fail (ParseError_new (UnexpectedToken (lit "newline") (lit "identifier")) 1 6)).
Proof. vm_compute. reflexivity. Qed.
