(* ===== verification/Config.v ===== *)
(** * The configuration: validation and hot-reload diff

    [config/validate.rs] turns the value tree of Toml.v into a typed [Config],
    [config/diff.rs] classifies the changes between two of them, and
    [desmos-webui/src/auth.rs] uses the credentials it holds. *)

From stdpp Require Import base numbers list strings.
From Stdlib Require Import ZArith Lia.
From S2P Require Import Prelude Str Http WebSocket Json Toml TomlPrint.

(** ** Data ([validate.rs]) *)

Inductive Mode := ModeClient | ModeServer | ModeP2p.
Inductive LogLevel := LevelTrace | LevelDebug | LevelInfo | LevelWarn | LevelError.
Inductive AuthMethod := MethodPsk | MethodPubkey | MethodTotp | MethodMtls.
Inductive BondingStrategyName := StrategyRoundRobin | StrategyWeighted | StrategyLatencyAdaptive | StrategyRedundant.

Record GeneralConfig := mkGeneral { g_mode : Mode; g_log_level : LogLevel; g_tunnel_mtu : Z }.

Record AuthSection := mkAuthSection {
  a_method : AuthMethod;
  a_psk : option str;
  a_authorized_keys_file : option str;
  a_totp_secret : option str;
  a_ca_cert_file : option str }.

Record ServerConfig := mkServer {
  s_listen : str;
  s_public_key : str;
  s_private_key_file : str;
  s_max_clients : Z;
  s_auth : AuthSection }.

Record InterfaceConfig := mkInterface { i_name : str; i_weight : Z; i_enabled : bool }.

Record ClientConfig := mkClient {
  cl_server : str;
  cl_server_public_key : str;
  cl_private_key_file : str;
  cl_bonding_strategy : BondingStrategyName;
  cl_reorder_window_ms : Z;
  cl_dns_leak_protection : bool;
  cl_dns_servers : list str;
  cl_interfaces : list InterfaceConfig }.

Record WebuiConfig := mkWebui { w_enabled : bool; w_listen : str; w_username : str; w_password_hash : str }.

Record P2pConfig := mkP2p {
  p_peer_public_key : str;
  p_peer_endpoint : str;
  p_stun_servers : list str;
  p_relay_servers : list str }.

Record Config := mkConfig {
  c_general : GeneralConfig;
  c_server : option ServerConfig;
  c_client : option ClientConfig;
  c_webui : option WebuiConfig;
  c_p2p : option P2pConfig }.

#[export] Instance Mode_eq_dec : EqDecision Mode.
Proof. solve_decision. Defined.
#[export] Instance LogLevel_eq_dec : EqDecision LogLevel.
Proof. solve_decision. Defined.
#[export] Instance AuthMethod_eq_dec : EqDecision AuthMethod.
Proof. solve_decision. Defined.
#[export] Instance BondingStrategyName_eq_dec : EqDecision BondingStrategyName.
Proof. solve_decision. Defined.
#[export] Instance GeneralConfig_eq_dec : EqDecision GeneralConfig.
Proof. solve_decision. Defined.
#[export] Instance AuthSection_eq_dec : EqDecision AuthSection.
Proof. solve_decision. Defined.
#[export] Instance ServerConfig_eq_dec : EqDecision ServerConfig.
Proof. solve_decision. Defined.
#[export] Instance InterfaceConfig_eq_dec : EqDecision InterfaceConfig.
Proof. solve_decision. Defined.
#[export] Instance ClientConfig_eq_dec : EqDecision ClientConfig.
Proof. solve_decision. Defined.
#[export] Instance WebuiConfig_eq_dec : EqDecision WebuiConfig.
Proof. solve_decision. Defined.
#[export] Instance P2pConfig_eq_dec : EqDecision P2pConfig.
Proof. solve_decision. Defined.
#[export] Instance Config_eq_dec : EqDecision Config.
Proof. solve_decision. Defined.

Definition ALLOWED_SECTIONS : list str := [lit "general"; lit "server"; lit "client"; lit "webui"; lit "p2p"].
Definition CONFIG_MIN_MTU : Z := 576.
Definition CONFIG_MAX_MTU : Z := 9000.
Definition MAX_REORDER_WINDOW_MS : Z := 10000.
Definition MAX_WEIGHT : Z := 1000.

(** ** Helpers *)

Abbreviation checked A := (result A ParseError).

Definition missing_field (parent_path : list str) (field : str) : ParseError :=
  with_path (ParseError_new (MissingField field) 0 0) parent_path.
Definition out_of_range (parent_path : list str) (field : str) : ParseError :=
  with_path (ParseError_new (OutOfRange field) 0 0) parent_path.
Definition type_mismatch_at (path : list str) (expected got : str) : ParseError :=
  with_path (ParseError_new (TypeMismatch expected got) 0 0) path.
Definition type_mismatch (parent_path : list str) (field expected got : str) : ParseError :=
  type_mismatch_at (parent_path ++ [field]) expected got.

Definition ok_or {A} (o : option A) (e : ParseError) : checked A := match o with Some a => Ok a | None => Err e end.

Definition require_value_table (v : Value) (path : list str) : checked table :=
  ok_or (as_table v) (with_path (ParseError_new (TypeMismatch (lit "table") (type_name v)) 0 0) path).

Definition require_table (parent : table) (parent_path : list str) (key : str) : checked table :=
  let? val := ok_or (tree_get key parent) (missing_field parent_path key) in
  ok_or (as_table val) (type_mismatch_at (parent_path ++ [key]) (lit "table") (type_name val)).

Definition require_string (t : table) (parent_path : list str) (key : str) : checked str :=
  let? v := ok_or (tree_get key t) (missing_field parent_path key) in
  ok_or (as_string v) (type_mismatch_at (parent_path ++ [key]) (lit "string") (type_name v)).

Definition optional_string (t : table) (key : str) : checked (option str) :=
  match tree_get key t with
  | None => Ok None
  | Some v => let? s := ok_or (as_string v) (type_mismatch_at [key] (lit "string") (type_name v)) in Ok (Some s)
  end.

Definition optional_u32 (t : table) (key : str) : checked (option Z) :=
  match tree_get key t with
  | None => Ok None
  | Some v =>
      match as_integer v with
      | Some i => if (0 <=? i) && (i <=? umax 32) then Ok (Some i)
                  else Err (type_mismatch_at [key] (lit "u32") (lit "integer"))
      | None => Err (type_mismatch_at [key] (lit "integer") (type_name v))
      end
  end.

Definition optional_bool (t : table) (key : str) : checked (option bool) :=
  match tree_get key t with
  | None => Ok None
  | Some v => let? b := ok_or (as_boolean v) (type_mismatch_at [key] (lit "boolean") (type_name v)) in Ok (Some b)
  end.

(** The items from index [i] on. *)
Fixpoint string_items (key : str) (i : nat) (arr : list Value) : checked (list str) :=
  match arr with
  | [] => Ok []
  | item :: arr =>
      let? s := ok_or (as_string item)
                  (type_mismatch_at [key; lit "[" ++ show_uint (Z.of_nat i) ++ lit "]"] (lit "string") (type_name item)) in
      let? ss := string_items key (S i) arr in
      Ok (s :: ss)
  end.

Definition optional_string_array (t : table) (key : str) : checked (option (list str)) :=
  match tree_get key t with
  | None => Ok None
  | Some v =>
      let? arr := ok_or (as_array v) (type_mismatch_at [key] (lit "array") (type_name v)) in
      let? ss := string_items key 0 arr in
      Ok (Some ss)
  end.

Definition is_argon2id_phc (s : str) : bool :=
  if negb (starts_with (lit "$argon2id$") s) then false
  else
    match split (lit "$") s with
    | [_; _; seg2; seg3; seg4; seg5] =>
        starts_with (lit "v=") seg2 && starts_with (lit "m=") seg3 && str_contains (lit ",t=") seg3
        && str_contains (lit ",p=") seg3 && negb (bool_decide (seg4 = [])) && negb (bool_decide (seg5 = []))
    | _ => false
    end.

(** ** Sections *)

(** The [match] on the word of a field. *)
Definition mode_of_str (s : str) : option Mode :=
  if bool_decide (s = lit "client") then Some ModeClient
  else if bool_decide (s = lit "server") then Some ModeServer
  else if bool_decide (s = lit "p2p") then Some ModeP2p else None.

Definition log_level_of_str (s : str) : option LogLevel :=
  if bool_decide (s = lit "trace") then Some LevelTrace
  else if bool_decide (s = lit "debug") then Some LevelDebug
  else if bool_decide (s = lit "info") then Some LevelInfo
  else if bool_decide (s = lit "warn") then Some LevelWarn
  else if bool_decide (s = lit "error") then Some LevelError else None.

Definition method_of_str (s : str) : option AuthMethod :=
  if bool_decide (s = lit "psk") then Some MethodPsk
  else if bool_decide (s = lit "pubkey") then Some MethodPubkey
  else if bool_decide (s = lit "totp") then Some MethodTotp
  else if bool_decide (s = lit "mtls") then Some MethodMtls else None.

(** Also [from_str_api] of [diff.rs]. *)
Definition strategy_of_str (s : str) : option BondingStrategyName :=
  if bool_decide (s = lit "round-robin") then Some StrategyRoundRobin
  else if bool_decide (s = lit "weighted") then Some StrategyWeighted
  else if bool_decide (s = lit "latency-adaptive") then Some StrategyLatencyAdaptive
  else if bool_decide (s = lit "redundant") then Some StrategyRedundant else None.

Definition parse_general (root : table) (path : list str) : checked GeneralConfig :=
  let? t := require_table root path (lit "general") in
  let? mode_str := require_string t path (lit "mode") in
  let? mode := ok_or (mode_of_str mode_str) (out_of_range path (lit "mode")) in
  let? log_level_str := optional_string t (lit "log_level") in
  let? log_level := ok_or (log_level_of_str (default (lit "info") log_level_str)) (out_of_range path (lit "log_level")) in
  let? tunnel_mtu := optional_u32 t (lit "tunnel_mtu") in
  let tunnel_mtu := default 1400 tunnel_mtu in
  if negb ((CONFIG_MIN_MTU <=? tunnel_mtu) && (tunnel_mtu <=? CONFIG_MAX_MTU)) then Err (out_of_range path (lit "tunnel_mtu"))
  else Ok (mkGeneral mode log_level tunnel_mtu).

(** The credential the method needs, when it is absent. *)
Definition missing_secret (a : AuthSection) : option str :=
  match a_method a with
  | MethodPsk => match a_psk a with None => Some (lit "psk") | _ => None end
  | MethodPubkey => match a_authorized_keys_file a with None => Some (lit "authorized_keys_file") | _ => None end
  | MethodTotp => match a_totp_secret a with None => Some (lit "totp_secret") | _ => None end
  | MethodMtls => match a_ca_cert_file a with None => Some (lit "ca_cert_file") | _ => None end
  end.

Definition parse_auth (server_table : table) (path : list str) : checked AuthSection :=
  let? auth := require_table server_table path (lit "auth") in
  let? method_str := require_string auth path (lit "method") in
  let? method := ok_or (method_of_str method_str) (out_of_range path (lit "method")) in
  let? psk := optional_string auth (lit "psk") in
  let? authorized_keys_file := optional_string auth (lit "authorized_keys_file") in
  let? totp_secret := optional_string auth (lit "totp_secret") in
  let? ca_cert_file := optional_string auth (lit "ca_cert_file") in
  let a := mkAuthSection method psk authorized_keys_file totp_secret ca_cert_file in
  match missing_secret a with
  | Some field => Err (missing_field path field)
  | None => Ok a
  end.

Definition parse_server (root : table) (path : list str) : checked ServerConfig :=
  let? t := require_table root path (lit "server") in
  let? listen := require_string t path (lit "listen") in
  let? public_key := require_string t path (lit "public_key") in
  let? private_key_file := require_string t path (lit "private_key_file") in
  let? max_clients := optional_u32 t (lit "max_clients") in
  let max_clients := default 100 max_clients in
  if max_clients =? 0 then Err (out_of_range path (lit "max_clients"))
  else
    let? auth := parse_auth t (path ++ [lit "auth"]) in
    Ok (mkServer listen public_key private_key_file max_clients auth).

Definition parse_interface (v : Value) (path : list str) : checked InterfaceConfig :=
  let? t := require_value_table v path in
  let? name := require_string t path (lit "name") in
  if bool_decide (name = []) then Err (out_of_range path (lit "name"))
  else
    let? weight := optional_u32 t (lit "weight") in
    let weight := default 100 weight in
    if (weight =? 0) || (MAX_WEIGHT <? weight) then Err (out_of_range path (lit "weight"))
    else
      let? enabled := optional_bool t (lit "enabled") in
      Ok (mkInterface name weight (default true enabled)).

Fixpoint parse_interfaces (path : list str) (i : nat) (arr : list Value) : checked (list InterfaceConfig) :=
  match arr with
  | [] => Ok []
  | item :: arr =>
      let? x := parse_interface item (path ++ [lit "interfaces[" ++ show_uint (Z.of_nat i) ++ lit "]"]) in
      let? xs := parse_interfaces path (S i) arr in
      Ok (x :: xs)
  end.

Definition parse_client (root : table) (path : list str) : checked ClientConfig :=
  let? t := require_table root path (lit "client") in
  let? server := require_string t path (lit "server") in
  let? server_public_key := require_string t path (lit "server_public_key") in
  let? private_key_file := require_string t path (lit "private_key_file") in
  let? strategy_str := optional_string t (lit "bonding_strategy") in
  let? bonding_strategy := ok_or (strategy_of_str (default (lit "latency-adaptive") strategy_str))
                             (out_of_range path (lit "bonding_strategy")) in
  let? reorder_window_ms := optional_u32 t (lit "reorder_window_ms") in
  let reorder_window_ms := default 50 reorder_window_ms in
  if MAX_REORDER_WINDOW_MS <? reorder_window_ms then Err (out_of_range path (lit "reorder_window_ms"))
  else
    let? dns_leak_protection := optional_bool t (lit "dns_leak_protection") in
    let? dns_servers := optional_string_array t (lit "dns_servers") in
    let? interfaces_value := ok_or (tree_get (lit "interfaces") t) (missing_field path (lit "interfaces")) in
    let? arr := ok_or (as_array interfaces_value)
                  (type_mismatch path (lit "interfaces") (lit "array") (type_name interfaces_value)) in
    match arr with
    | [] => Err (out_of_range path (lit "interfaces"))
    | _ =>
        let? interfaces := parse_interfaces path 0 arr in
        Ok (mkClient server server_public_key private_key_file bonding_strategy reorder_window_ms
              (default true dns_leak_protection) (default [] dns_servers) interfaces)
    end.

Definition parse_webui (root : table) (path : list str) : checked WebuiConfig :=
  let? t := require_table root path (lit "webui") in
  let? enabled := optional_bool t (lit "enabled") in
  let? listen := optional_string t (lit "listen") in
  let? username := optional_string t (lit "username") in
  let? password_hash := require_string t path (lit "password_hash") in
  if negb (is_argon2id_phc password_hash)
  then Err (type_mismatch_at (path ++ [lit "password_hash"]) (lit "argon2id PHC string") (lit "invalid hash"))
  else Ok (mkWebui (default true enabled) (default (lit "127.0.0.1:8080") listen) (default (lit "admin") username) password_hash).

Definition parse_p2p (root : table) (path : list str) : checked P2pConfig :=
  let? t := require_table root path (lit "p2p") in
  let? peer_public_key := require_string t path (lit "peer_public_key") in
  let? peer_endpoint := require_string t path (lit "peer_endpoint") in
  let? stun_servers := optional_string_array t (lit "stun_servers") in
  let? relay_servers := optional_string_array t (lit "relay_servers") in
  Ok (mkP2p peer_public_key peer_endpoint (default [] stun_servers) (default [] relay_servers)).

(** A section that may be absent. *)
Definition section {A} (root : table) (name : str) (p : table → list str → checked A) : checked (option A) :=
  match tree_get name root with
  | Some _ => let? a := p root [name] in Ok (Some a)
  | None => Ok None
  end.

Definition from_value (v : Value) : checked Config :=
  let? root := require_value_table v [] in
  match list_find (fun e => e.1 ∉ ALLOWED_SECTIONS) root with
  | Some (_, (k, _)) => Err (ParseError_new (UnknownSection k) 0 0)
  | None =>
      let? general := parse_general root [lit "general"] in
      let? server := section root (lit "server") parse_server in
      let? client := section root (lit "client") parse_client in
      let? webui := section root (lit "webui") parse_webui in
      let? p2p := section root (lit "p2p") parse_p2p in
      match g_mode general, server, client, p2p with
      | ModeServer, None, _, _ => Err (missing_field [] (lit "server"))
      | ModeClient, _, None, _ => Err (missing_field [] (lit "client"))
      | ModeP2p, _, _, None => Err (missing_field [] (lit "p2p"))
      | _, _, _, _ => Ok (mkConfig general server client webui p2p)
      end
  end.

(** ** The diff ([diff.rs]) *)

Record ChangedField := mkChanged { cf_path : str; cf_safe : bool }.

Abbreviation ConfigDiff := (list ChangedField).

Definition diff_is_safe (d : ConfigDiff) : bool := forallb cf_safe d.
Definition diff_is_empty (d : ConfigDiff) : bool := bool_decide (length d = 0%nat).
Definition unsafe_fields (d : ConfigDiff) : list str := cf_path <$> filter (fun c => cf_safe c = false) d.
Definition safe_fields (d : ConfigDiff) : list str := cf_path <$> filter (fun c => cf_safe c = true) d.

(** [if old.x != new.x { out.push(..) }]. *)
Definition changed {A} `{EqDecision A} (a b : A) (path : string) (safe : bool) : ConfigDiff :=
  if decide (a = b) then [] else [mkChanged (lit path) safe].

Definition diff_general (o n : GeneralConfig) : ConfigDiff :=
  changed (g_mode o) (g_mode n) "general.mode" false ++
  changed (g_log_level o) (g_log_level n) "general.log_level" true ++
  changed (g_tunnel_mtu o) (g_tunnel_mtu n) "general.tunnel_mtu" true.

Definition diff_server (o n : ServerConfig) : ConfigDiff :=
  changed (s_listen o) (s_listen n) "server.listen" false ++
  changed (s_public_key o) (s_public_key n) "server.public_key" false ++
  changed (s_private_key_file o) (s_private_key_file n) "server.private_key_file" false ++
  changed (s_max_clients o) (s_max_clients n) "server.max_clients" true ++
  changed (s_auth o) (s_auth n) "server.auth" true.

Definition diff_client (o n : ClientConfig) : ConfigDiff :=
  changed (cl_server o) (cl_server n) "client.server" false ++
  changed (cl_server_public_key o) (cl_server_public_key n) "client.server_public_key" false ++
  changed (cl_private_key_file o) (cl_private_key_file n) "client.private_key_file" false ++
  changed (cl_bonding_strategy o) (cl_bonding_strategy n) "client.bonding_strategy" true ++
  changed (cl_reorder_window_ms o) (cl_reorder_window_ms n) "client.reorder_window_ms" true ++
  changed (cl_dns_leak_protection o) (cl_dns_leak_protection n) "client.dns_leak_protection" true ++
  changed (cl_dns_servers o) (cl_dns_servers n) "client.dns_servers" true ++
  changed (cl_interfaces o) (cl_interfaces n) "client.interfaces" true.

Definition diff_webui (o n : WebuiConfig) : ConfigDiff :=
  changed (w_enabled o) (w_enabled n) "webui.enabled" true ++
  changed (w_listen o) (w_listen n) "webui.listen" true ++
  changed (w_username o) (w_username n) "webui.username" true ++
  changed (w_password_hash o) (w_password_hash n) "webui.password_hash" true.

Definition diff_p2p (o n : P2pConfig) : ConfigDiff :=
  changed (p_peer_public_key o) (p_peer_public_key n) "p2p.peer_public_key" true ++
  changed (p_peer_endpoint o) (p_peer_endpoint n) "p2p.peer_endpoint" true ++
  changed (p_stun_servers o) (p_stun_servers n) "p2p.stun_servers" true ++
  changed (p_relay_servers o) (p_relay_servers n) "p2p.relay_servers" true.

(** [diff_option_*]: a section that appears or disappears is one change. *)
Definition diff_option {A} (d : A → A → ConfigDiff) (path : string) (safe : bool) (o n : option A) : ConfigDiff :=
  match o, n with
  | Some o, Some n => d o n
  | None, Some _ => [mkChanged (lit path) safe]
  | Some _, None => [mkChanged (lit path) safe]
  | None, None => []
  end.

Definition config_diff (o n : Config) : ConfigDiff :=
  diff_general (c_general o) (c_general n) ++
  diff_option diff_server "server" false (c_server o) (c_server n) ++
  diff_option diff_client "client" false (c_client o) (c_client n) ++
  diff_option diff_webui "webui" true (c_webui o) (c_webui n) ++
  diff_option diff_p2p "p2p" true (c_p2p o) (c_p2p n).

Definition strategy_as_str (s : BondingStrategyName) : str :=
  match s with
  | StrategyRoundRobin => lit "round-robin"
  | StrategyWeighted => lit "weighted"
  | StrategyLatencyAdaptive => lit "latency-adaptive"
  | StrategyRedundant => lit "redundant"
  end.

Definition mode_as_str (m : Mode) : str :=
  match m with ModeClient => lit "client" | ModeServer => lit "server" | ModeP2p => lit "p2p" end.

(** ** The web interface's gate ([desmos-webui/src/auth.rs]) *)

Definition PUBLIC_PATHS : list str := [lit "/api/v1/health"; lit "/api/v1/version"].

Definition is_public_path (path : str) : bool := bool_decide (path ∈ PUBLIC_PATHS).

(** [None] inside lets the request pass. *)
Definition auth_gate `{RingHash} (req : Request) (config : AuthConfig) : panics (option Response) :=
  if is_public_path (Request_path req) then Some None else check_basic_auth req config.

(** ** What a validated configuration guarantees *)

Definition interface_ok (i : InterfaceConfig) : Prop := i_name i ≠ [] ∧ 1 <= i_weight i <= MAX_WEIGHT.

Definition general_ok (g : GeneralConfig) : Prop := CONFIG_MIN_MTU <= g_tunnel_mtu g <= CONFIG_MAX_MTU.
Definition server_ok (s : ServerConfig) : Prop := 1 <= s_max_clients s <= umax 32 ∧ missing_secret (s_auth s) = None.
Definition client_ok (c : ClientConfig) : Prop :=
  0 <= cl_reorder_window_ms c <= MAX_REORDER_WINDOW_MS ∧ cl_interfaces c ≠ [] ∧ Forall interface_ok (cl_interfaces c).
Definition webui_ok (w : WebuiConfig) : Prop := is_argon2id_phc (w_password_hash w) = true.

(** The section the mode runs on. *)
Definition mode_section_present (c : Config) : Prop :=
  match g_mode (c_general c) with
  | ModeServer => is_Some (c_server c)
  | ModeClient => is_Some (c_client c)
  | ModeP2p => is_Some (c_p2p c)
  end.

Definition option_ok {A} (P : A → Prop) (o : option A) : Prop := match o with Some a => P a | None => True end.

Record config_ok (c : Config) : Prop := {
  co_general : general_ok (c_general c);
  co_server : option_ok server_ok (c_server c);
  co_client : option_ok client_ok (c_client c);
  co_webui : option_ok webui_ok (c_webui c);
  co_mode : mode_section_present c }.

Lemma result_bind_ok {A B E} (m : result A E) (k : A → result B E) b :
  result_bind m k = Ok b → ∃ a, m = Ok a ∧ k a = Ok b.
Proof. destruct m; cbn; [eauto|done]. Qed.

(** One step of a parser known to have succeeded. *)
Ltac bind_ok H x E := apply result_bind_ok in H as (x & E & H).

Lemma optional_u32_range t key o d : optional_u32 t key = Ok o → 0 <= d <= umax 32 → 0 <= default d o <= umax 32.
Proof.
  unfold optional_u32. destruct (tree_get key t) as [v|]; [|by intros [= <-]].
  destruct (as_integer v) as [i|]; [|done].
  destruct (Z.leb_spec 0 i); [|done]. destruct (Z.leb_spec i (umax 32)); [|done]. intros [= <-]. change (default d (Some i)) with i. lia.
Qed.

Lemma parse_general_ok root path g : parse_general root path = Ok g → general_ok g.
Proof.
  unfold parse_general. intros H. bind_ok H t E1. bind_ok H m E2. bind_ok H mode E3. bind_ok H l E4. bind_ok H lv E5.
  bind_ok H mtu E6. cbv zeta in H. unfold general_ok.
  destruct (Z.leb_spec CONFIG_MIN_MTU (default 1400 mtu)); [|done].
  destruct (Z.leb_spec (default 1400 mtu) CONFIG_MAX_MTU); [|done]. by injection H as <-.
Qed.

Lemma parse_auth_ok t path a : parse_auth t path = Ok a → missing_secret a = None.
Proof.
  unfold parse_auth. intros H. bind_ok H x1 E1. bind_ok H x2 E2. bind_ok H x3 E3. bind_ok H x4 E4. bind_ok H x5 E5.
  bind_ok H x6 E6. bind_ok H x7 E7. cbv zeta in H. destruct (missing_secret _) eqn:E; [done|]. by injection H as <-.
Qed.

Lemma parse_server_ok root path s : parse_server root path = Ok s → server_ok s.
Proof.
  unfold parse_server. intros H. bind_ok H t E1. bind_ok H x2 E2. bind_ok H x3 E3. bind_ok H x4 E4. bind_ok H mc E5.
  cbv zeta in H. pose proof (optional_u32_range _ _ _ 100 E5 ltac:(vm_compute; intuition discriminate)) as Hr.
  destruct (Z.eqb_spec (default 100 mc) 0); [done|]. bind_ok H a E6. apply parse_auth_ok in E6. injection H as <-.
  split; [cbn [s_max_clients]; lia|done].
Qed.

Lemma parse_interface_ok v path i : parse_interface v path = Ok i → interface_ok i.
Proof.
  unfold parse_interface. intros H. bind_ok H t E1. bind_ok H name E2. case_bool_decide; [done|]. bind_ok H w E3.
  cbv zeta in H. pose proof (optional_u32_range _ _ _ 100 E3 ltac:(vm_compute; intuition discriminate)) as Hr.
  destruct (Z.eqb_spec (default 100 w) 0); [done|]. destruct (Z.ltb_spec MAX_WEIGHT (default 100 w)); [done|].
  bind_ok H en E4. injection H as <-. split; cbn [i_name i_weight]; [done|lia].
Qed.

Lemma parse_interfaces_ok path arr : ∀ i xs, parse_interfaces path i arr = Ok xs → Forall interface_ok xs ∧ length xs = length arr.
Proof.
  induction arr as [|v arr IH]; intros i xs H; cbn [parse_interfaces] in H; [by injection H as <-|].
  bind_ok H x E1. bind_ok H xs' E2. injection H as <-. apply parse_interface_ok in E1. apply IH in E2 as [? ?].
  split; [by constructor|cbn; lia].
Qed.

Lemma parse_client_ok root path c : parse_client root path = Ok c → client_ok c.
Proof.
  unfold parse_client. intros H. bind_ok H t E1. bind_ok H x2 E2. bind_ok H x3 E3. bind_ok H x4 E4. bind_ok H x5 E5.
  bind_ok H st E6. bind_ok H rw E7. cbv zeta in H.
  pose proof (optional_u32_range _ _ _ 50 E7 ltac:(vm_compute; intuition discriminate)) as Hr.
  destruct (Z.ltb_spec MAX_REORDER_WINDOW_MS (default 50 rw)); [done|].
  bind_ok H x8 E8. bind_ok H x9 E9. bind_ok H iv E10. bind_ok H arr E11. destruct arr as [|v arr]; [done|].
  bind_ok H xs E12. apply parse_interfaces_ok in E12 as [Hall Hl]. injection H as <-. split_and!; cbn [cl_reorder_window_ms cl_interfaces]; [lia|lia| |done].
  intros ->. done.
Qed.

Lemma parse_webui_ok root path w : parse_webui root path = Ok w → webui_ok w.
Proof.
  unfold parse_webui. intros H. bind_ok H t E1. bind_ok H x2 E2. bind_ok H x3 E3. bind_ok H x4 E4. bind_ok H ph E5.
  destruct (is_argon2id_phc ph) eqn:E; [|done]. by injection H as <-.
Qed.

Lemma section_ok {A} (P : A → Prop) root name (p : table → list str → checked A) o :
  (∀ root path a, p root path = Ok a → P a) → section root name p = Ok o → option_ok P o.
Proof.
  intros Hp. unfold section. destruct (tree_get name root); [|by intros [= <-]]. intros H. bind_ok H a E.
  injection H as <-. by eapply Hp.
Qed.

Lemma from_value_ok v c : from_value v = Ok c → config_ok c.
Proof.
  unfold from_value. intros H. bind_ok H root E0. destruct (list_find _ root) as [[? [? ?]]|]; [done|].
  bind_ok H g E1. bind_ok H s E2. bind_ok H cl E3. bind_ok H w E4. bind_ok H p E5.
  apply parse_general_ok in E1. apply (section_ok server_ok) in E2; [|exact parse_server_ok].
  apply (section_ok client_ok) in E3; [|exact parse_client_ok]. apply (section_ok webui_ok) in E4; [|exact parse_webui_ok].
  assert (mode_section_present (mkConfig g s cl w p) ∧ c = mkConfig g s cl w p) as [Hm ->].
  { unfold mode_section_present. cbn. destruct (g_mode g), s, cl, p; try done; injection H as <-; split; eauto. }
  by constructor.
Qed.

Lemma starts_with_argon s : is_argon2id_phc s = true → ∃ r, s = lit "$argon2id$" ++ r.
Proof.
  unfold is_argon2id_phc, starts_with. destruct (strip_prefix (lit "$argon2id$") s) as [r|] eqn:E; [|done].
  intros _. exists r. by apply strip_prefix_spec.
Qed.

Lemma validated_webui_hash v c w : from_value v = Ok c → c_webui c = Some w → ∃ r, w_password_hash w = lit "$argon2id$" ++ r.
Proof.
  intros Hc Hw. apply from_value_ok in Hc as [_ _ _ H _]. rewrite Hw in H. by apply starts_with_argon.
Qed.

(** The web interface cannot be used: every configuration that passes validation
    holds an Argon2id hash, which the HTTP server's credential check does not read,
    so whatever the user name and password, everything but the two public paths is
    refused. *)
Theorem validated_webui_locks_out `{RingHash} v c w req :
  from_value v = Ok c → c_webui c = Some w → Request_path req ∉ PUBLIC_PATHS →
  auth_gate req (mkAuthConfig (w_username w) (w_password_hash w)) = Some (Some unauthorized).
Proof.
  intros Hc Hw Hp. pose proof (validated_webui_hash v c w Hc Hw) as [r Hr].
  unfold auth_gate, is_public_path. rewrite bool_decide_false by done. unfold check_basic_auth.
  destruct (authorization (rq_headers req)) as [h|]; [|done]. destruct (decode_basic_auth h) as [[u pw]|]; [|done].
  unfold verify_credentials. cbn [ac_username ac_password_hash]. destruct (bool_decide (u = w_username w)); [|done].
  cbn [negb]. rewrite Hr. reflexivity.
Qed.

(** ** Every valid configuration can be written down

    The tree of a configuration, keys in map order, and that the validator reads
    it back. *)

Definition level_as_str (l : LogLevel) : str :=
  match l with
  | LevelTrace => lit "trace" | LevelDebug => lit "debug" | LevelInfo => lit "info" | LevelWarn => lit "warn" | LevelError => lit "error"
  end.
Definition method_as_str (m : AuthMethod) : str :=
  match m with MethodPsk => lit "psk" | MethodPubkey => lit "pubkey" | MethodTotp => lit "totp" | MethodMtls => lit "mtls" end.

(** An entry that may be absent. *)
Definition opt_entry {A} (key : string) (f : A → Value) (o : option A) : table :=
  match o with Some a => [(lit key, f a)] | None => [] end.

Definition strings (ss : list str) : Value := VArray (VString <$> ss).

Definition general_value (g : GeneralConfig) : Value :=
  VTable [(lit "log_level", VString (level_as_str (g_log_level g))); (lit "mode", VString (mode_as_str (g_mode g)));
          (lit "tunnel_mtu", VInteger (g_tunnel_mtu g))].

Definition auth_value (a : AuthSection) : Value :=
  VTable (opt_entry "authorized_keys_file" VString (a_authorized_keys_file a) ++
          opt_entry "ca_cert_file" VString (a_ca_cert_file a) ++
          [(lit "method", VString (method_as_str (a_method a)))] ++
          opt_entry "psk" VString (a_psk a) ++ opt_entry "totp_secret" VString (a_totp_secret a)).

Definition server_value (s : ServerConfig) : Value :=
  VTable [(lit "auth", auth_value (s_auth s)); (lit "listen", VString (s_listen s));
          (lit "max_clients", VInteger (s_max_clients s)); (lit "private_key_file", VString (s_private_key_file s));
          (lit "public_key", VString (s_public_key s))].

Definition interface_value (i : InterfaceConfig) : Value :=
  VTable [(lit "enabled", VBoolean (i_enabled i)); (lit "name", VString (i_name i)); (lit "weight", VInteger (i_weight i))].

Definition client_value (c : ClientConfig) : Value :=
  VTable [(lit "bonding_strategy", VString (strategy_as_str (cl_bonding_strategy c)));
          (lit "dns_leak_protection", VBoolean (cl_dns_leak_protection c)); (lit "dns_servers", strings (cl_dns_servers c));
          (lit "interfaces", VArray (interface_value <$> cl_interfaces c));
          (lit "private_key_file", VString (cl_private_key_file c));
          (lit "reorder_window_ms", VInteger (cl_reorder_window_ms c)); (lit "server", VString (cl_server c));
          (lit "server_public_key", VString (cl_server_public_key c))].

Definition webui_value (w : WebuiConfig) : Value :=
  VTable [(lit "enabled", VBoolean (w_enabled w)); (lit "listen", VString (w_listen w));
          (lit "password_hash", VString (w_password_hash w)); (lit "username", VString (w_username w))].

Definition p2p_value (p : P2pConfig) : Value :=
  VTable [(lit "peer_endpoint", VString (p_peer_endpoint p)); (lit "peer_public_key", VString (p_peer_public_key p));
          (lit "relay_servers", strings (p_relay_servers p)); (lit "stun_servers", strings (p_stun_servers p))].

Definition config_value (c : Config) : Value :=
  VTable (opt_entry "client" client_value (c_client c) ++ [(lit "general", general_value (c_general c))] ++
          opt_entry "p2p" p2p_value (c_p2p c) ++ opt_entry "server" server_value (c_server c) ++
          opt_entry "webui" webui_value (c_webui c)).

(** Evaluates the lookups of literal keys. *)
Ltac read_fields :=
  unfold require_value_table, require_table, require_string, optional_string, optional_u32, optional_bool, optional_string_array;
  repeat first
    [ progress cbn [tree_get app opt_entry ok_or result_bind as_table as_string as_integer as_boolean as_array]
    | match goal with
      | |- context [key_compare (lit ?a) (lit ?b)] =>
          let c := eval vm_compute in (key_compare (lit a) (lit b)) in change (key_compare (lit a) (lit b)) with c; cbv iota
      end ].
Ltac u32_in := rewrite (proj2 (Z.leb_le 0 _)), (proj2 (Z.leb_le _ (umax 32))) by (unfold umax in *; lia); cbn [andb result_bind ok_or].

Lemma string_items_strings key i ss : string_items key i (VString <$> ss) = Ok ss.
Proof. revert i. induction ss as [|s ss IH]; intros i; [done|]. cbn. by rewrite IH. Qed.

Lemma parse_interfaces_values path i xs : Forall interface_ok xs → parse_interfaces path i (interface_value <$> xs) = Ok xs.
Proof.
  intros Hx. revert i. induction Hx as [|[n w e] xs [Hn Hw] _ IH]; intros i; [done|]. cbn [i_name i_weight] in *.
  cbn [fmap list_fmap parse_interfaces].
  assert (∀ path, parse_interface (interface_value (mkInterface n w e)) path = Ok (mkInterface n w e)) as ->.
  { intros p. unfold MAX_WEIGHT in Hw. unfold parse_interface, interface_value. cbn [i_name i_weight i_enabled]. read_fields.
    rewrite bool_decide_false by done. u32_in. change (default 100 (Some w)) with w.
    rewrite (proj2 (Z.eqb_neq w 0)) by lia. unfold MAX_WEIGHT. by rewrite (proj2 (Z.ltb_ge _ w)) by lia. }
  cbn [result_bind]. by rewrite IH.
Qed.

Lemma parse_general_value root g path :
  tree_get (lit "general") root = Some (general_value g) → general_ok g → parse_general root path = Ok g.
Proof.
  intros Hg [H1 H2]. unfold parse_general, require_table. rewrite Hg. unfold general_value. destruct g as [m l mtu]. cbn [g_mode g_log_level g_tunnel_mtu] in *.
  unfold CONFIG_MIN_MTU, CONFIG_MAX_MTU in *.
  read_fields.
  replace (mode_of_str (mode_as_str m)) with (Some m) by (by destruct m).
  change (default (lit "info") (Some (level_as_str l))) with (level_as_str l).
  replace (log_level_of_str (level_as_str l)) with (Some l) by (by destruct l). read_fields.
  u32_in. change (default 1400 (Some mtu)) with mtu. unfold CONFIG_MIN_MTU, CONFIG_MAX_MTU.
  by rewrite (proj2 (Z.leb_le 576 mtu)), (proj2 (Z.leb_le mtu 9000)) by lia.
Qed.

Lemma parse_auth_value t a path :
  tree_get (lit "auth") t = Some (auth_value a) → missing_secret a = None → parse_auth t path = Ok a.
Proof.
  intros Ha Hm. unfold parse_auth, require_table. rewrite Ha. unfold auth_value. destruct a as [m psk keys totp ca].
  cbn [a_method a_psk a_authorized_keys_file a_totp_secret a_ca_cert_file] in *.
  assert (method_of_str (method_as_str m) = Some m) as Em by (by destruct m).
  destruct psk, keys, totp, ca; read_fields; rewrite Em; read_fields; by rewrite Hm.
Qed.

Lemma parse_server_value root s path :
  tree_get (lit "server") root = Some (server_value s) → server_ok s → parse_server root path = Ok s.
Proof.
  intros Hs [Hc Hm]. unfold parse_server, require_table. rewrite Hs. unfold server_value. destruct s as [l pk kf mc a].
  cbn [s_listen s_public_key s_private_key_file s_max_clients s_auth] in *. read_fields. u32_in.
  change (default 100 (Some mc)) with mc. rewrite (proj2 (Z.eqb_neq mc 0)) by lia.
  by rewrite (parse_auth_value _ a).
Qed.

Lemma parse_client_value root c path :
  tree_get (lit "client") root = Some (client_value c) → client_ok c → parse_client root path = Ok c.
Proof.
  intros Hc (Hr & Hne & Hall). unfold parse_client, require_table. rewrite Hc. unfold client_value.
  destruct c as [s spk kf st rw dns ds ifs].
  cbn [cl_server cl_server_public_key cl_private_key_file cl_bonding_strategy cl_reorder_window_ms cl_dns_leak_protection
       cl_dns_servers cl_interfaces] in *. unfold MAX_REORDER_WINDOW_MS in *. read_fields.
  change (default (lit "latency-adaptive") (Some (strategy_as_str st))) with (strategy_as_str st).
  replace (strategy_of_str (strategy_as_str st)) with (Some st) by (by destruct st). read_fields. u32_in.
  change (default 50 (Some rw)) with rw. unfold MAX_REORDER_WINDOW_MS. rewrite (proj2 (Z.ltb_ge _ rw)) by lia.
  unfold strings. read_fields. rewrite string_items_strings. cbn [result_bind].
  pose proof (parse_interfaces_values path 0 ifs Hall) as Hp. destruct ifs as [|i ifs]; [done|].
  cbn [fmap list_fmap] in Hp |- *. by rewrite Hp.
Qed.

Lemma parse_webui_value root w path :
  tree_get (lit "webui") root = Some (webui_value w) → webui_ok w → parse_webui root path = Ok w.
Proof.
  intros Hw Hok. unfold parse_webui, require_table. rewrite Hw. unfold webui_value. destruct w as [e l u h]. unfold webui_ok in Hok. cbn [w_password_hash] in Hok.
  cbn [w_enabled w_listen w_username w_password_hash]. read_fields. by rewrite Hok.
Qed.

Lemma parse_p2p_value root p path :
  tree_get (lit "p2p") root = Some (p2p_value p) → parse_p2p root path = Ok p.
Proof.
  intros Hp. unfold parse_p2p, require_table. rewrite Hp. unfold p2p_value. destruct p as [k e st re].
  cbn [p_peer_public_key p_peer_endpoint p_stun_servers p_relay_servers]. unfold strings. read_fields.
  by rewrite !string_items_strings.
Qed.

(** What the root of an encoded configuration holds under each section name. *)
Lemma config_value_sections c root : config_value c = VTable root →
  tree_get (lit "general") root = Some (general_value (c_general c)) ∧
  tree_get (lit "server") root = server_value <$> c_server c ∧ tree_get (lit "client") root = client_value <$> c_client c ∧
  tree_get (lit "webui") root = webui_value <$> c_webui c ∧ tree_get (lit "p2p") root = p2p_value <$> c_p2p c ∧
  list_find (fun e => e.1 ∉ ALLOWED_SECTIONS) root = None.
Proof.
  unfold config_value. intros [= <-]. destruct c as [g s cl w p]. cbn [c_general c_server c_client c_webui c_p2p].
  split_and!; try (destruct s, cl, w, p; read_fields; reflexivity).
Qed.

Lemma section_value {A} (P : A → Prop) root name (p : table → list str → checked A) (f : A → Value) o :
  tree_get name root = f <$> o → option_ok P o →
  (∀ a path, tree_get name root = Some (f a) → P a → p root path = Ok a) → section root name p = Ok o.
Proof.
  intros Hg Ho Hp. unfold section. rewrite Hg. destruct o as [a|]; [|done]. cbn [fmap option_fmap option_map].
  by rewrite (Hp a).
Qed.

(** Every configuration within the bounds is read back from its tree. *)
Lemma config_value_valid c : config_ok c → from_value (config_value c) = Ok c.
Proof.
  intros [Hg Hs Hc Hw Hm]. destruct (config_value c) as [| | | | |root] eqn:E; try done.
  destruct (config_value_sections c root E) as (G1 & G2 & G3 & G4 & G5 & G6).
  unfold from_value. cbn [require_value_table as_table ok_or result_bind]. rewrite G6.
  rewrite (parse_general_value root (c_general c)) by done. cbn [result_bind].
  rewrite (section_value server_ok _ _ _ server_value (c_server c)) by (done || by intros; apply parse_server_value).
  rewrite (section_value client_ok _ _ _ client_value (c_client c)) by (done || by intros; apply parse_client_value).
  rewrite (section_value webui_ok _ _ _ webui_value (c_webui c)) by (done || by intros; apply parse_webui_value).
  rewrite (section_value (fun _ => True) _ _ _ p2p_value (c_p2p c))
    by (done || (by destruct (c_p2p c)) || by intros; apply parse_p2p_value).
  cbn [result_bind]. destruct c as [g s cl w p]. unfold mode_section_present in Hm. cbn in Hm |- *.
  destruct (g_mode g), s, cl, p; try done; by destruct Hm.
Qed.

(** C16: Validation is sound and complete.  What it returns satisfies every bound and
    cross-section rule downstream code relies on: MTU, client limit, reorder window
    and weights in range, at least one named interface, the secret its
    authentication method needs, and the section of its mode.  Every configuration
    that does is accepted from its value tree and comes back unchanged. *)
Theorem config_validation_exact c :
  (∀ v, from_value v = Ok c → config_ok c) ∧ (config_ok c → from_value (config_value c) = Ok c).
Proof. split; [intros v; apply from_value_ok|apply config_value_valid]. Qed.

(** ** What the diff reports *)

(** The fields a running daemon cannot change. *)
Definition server_pinned (s : ServerConfig) : str * str * str := (s_listen s, s_public_key s, s_private_key_file s).
Definition client_pinned (c : ClientConfig) : str * str * str := (cl_server c, cl_server_public_key c, cl_private_key_file c).
Definition pinned (c : Config) : Mode * option (str * str * str) * option (str * str * str) :=
  (g_mode (c_general c), server_pinned <$> c_server c, client_pinned <$> c_client c).

Lemma changed_nil {A} `{EqDecision A} (a b : A) path safe : changed a b path safe = [] ↔ a = b.
Proof. unfold changed. by destruct (decide (a = b)). Qed.

Lemma changed_safe {A} `{EqDecision A} (a b : A) path : forallb cf_safe (changed a b path true) = true.
Proof. unfold changed. by destruct (decide (a = b)). Qed.

Lemma changed_unsafe {A} `{EqDecision A} (a b : A) path : forallb cf_safe (changed a b path false) = true ↔ a = b.
Proof. unfold changed. by destruct (decide (a = b)). Qed.

Lemma diff_option_nil {A} (d : A → A → ConfigDiff) path safe o n :
  (∀ a b, d a b = [] ↔ a = b) → diff_option d path safe o n = [] ↔ o = n.
Proof. intros Hd. destruct o as [a|], n as [b|]; cbn; [rewrite Hd; split; [by intros ->|by intros [= ?]]|by split..]. Qed.

Lemma diff_option_pinned {A B} (f : A → B) (d : A → A → ConfigDiff) path o n :
  (∀ a b, forallb cf_safe (d a b) = true ↔ f a = f b) →
  forallb cf_safe (diff_option d path false o n) = true ↔ f <$> o = f <$> n.
Proof. intros Hd. destruct o as [a|], n as [b|]; cbn; [rewrite Hd; split; [by intros ->|by intros [= ?]]|by split..]. Qed.

Lemma diff_option_safe {A} (d : A → A → ConfigDiff) path o n :
  (∀ a b, forallb cf_safe (d a b) = true) → forallb cf_safe (diff_option d path true o n) = true.
Proof. intros Hd. destruct o as [a|], n as [b|]; cbn; auto. Qed.

(** Equality of records is equality of their fields. *)
Ltac fields_eq := cbn; split; [intros; destruct_and?; congruence|intros [= ]; split_and?].
(** Splits a statement on a concatenation of single-field diffs. *)
Ltac split_diff :=
  rewrite ?app_nil, ?forallb_app, ?andb_true_iff, ?changed_nil, ?changed_unsafe, ?changed_safe.

Lemma diff_general_nil a b : diff_general a b = [] ↔ a = b.
Proof. unfold diff_general. split_diff. destruct a, b. by fields_eq. Qed.
Lemma diff_server_nil a b : diff_server a b = [] ↔ a = b.
Proof. unfold diff_server. split_diff. destruct a, b. by fields_eq. Qed.
Lemma diff_client_nil a b : diff_client a b = [] ↔ a = b.
Proof. unfold diff_client. split_diff. destruct a, b. by fields_eq. Qed.
Lemma diff_webui_nil a b : diff_webui a b = [] ↔ a = b.
Proof. unfold diff_webui. split_diff. destruct a, b. by fields_eq. Qed.
Lemma diff_p2p_nil a b : diff_p2p a b = [] ↔ a = b.
Proof. unfold diff_p2p. split_diff. destruct a, b. by fields_eq. Qed.

Lemma diff_server_pinned a b : forallb cf_safe (diff_server a b) = true ↔ server_pinned a = server_pinned b.
Proof. unfold diff_server, server_pinned. split_diff. by fields_eq. Qed.
Lemma diff_client_pinned a b : forallb cf_safe (diff_client a b) = true ↔ client_pinned a = client_pinned b.
Proof. unfold diff_client, client_pinned. split_diff. by fields_eq. Qed.

Lemma config_diff_safe o n : diff_is_safe (config_diff o n) = true ↔ pinned o = pinned n.
Proof.
  unfold diff_is_safe, config_diff, diff_general, pinned. split_diff.
  rewrite (diff_option_pinned _ _ _ _ _ diff_server_pinned), (diff_option_pinned _ _ _ _ _ diff_client_pinned).
  rewrite !diff_option_safe by (intros; unfold diff_webui, diff_p2p; by split_diff). by fields_eq.
Qed.

Lemma config_diff_empty o n : diff_is_empty (config_diff o n) = true ↔ o = n.
Proof.
  unfold diff_is_empty. rewrite bool_decide_eq_true, length_zero_iff_nil. unfold config_diff. split_diff.
  rewrite diff_general_nil, (diff_option_nil _ _ _ _ _ diff_server_nil), (diff_option_nil _ _ _ _ _ diff_client_nil),
    (diff_option_nil _ _ _ _ _ diff_webui_nil), (diff_option_nil _ _ _ _ _ diff_p2p_nil).
  destruct o, n. by fields_eq.
Qed.

(** The diff misses nothing and blocks nothing without need: it is empty exactly
    for equal configurations, and reload-safe exactly when the mode, the endpoints
    and keys of both roles and the presence of the role sections are unchanged. *)
Theorem diff_exact o n :
  (diff_is_empty (config_diff o n) = true ↔ o = n) ∧
  (diff_is_safe (config_diff o n) = true ↔ pinned o = pinned n).
Proof. split; [apply config_diff_empty|apply config_diff_safe]. Qed.

(** ** Concrete configurations *)

Definition demo_hash : str := lit "$argon2id$v=19$m=65536,t=3,p=4$c2FsdA$aGFzaA".
Definition demo_webui : WebuiConfig := mkWebui true (lit "127.0.0.1:8080") (lit "admin") demo_hash.
Definition demo_server_config : Config :=
  mkConfig (mkGeneral ModeServer LevelInfo 1400)
    (Some (mkServer (lit "0.0.0.0:4433") (lit "pk") (lit "/etc/key") 10
             (mkAuthSection MethodPsk (Some (lit "secret")) None None None)))
    None (Some demo_webui) None.

Lemma demo_server_config_ok : config_ok demo_server_config.
Proof. constructor; cbn; try done; vm_compute; intuition discriminate. Qed.

Lemma config_validation_exact_witness : from_value (config_value demo_server_config) = Ok demo_server_config.
Proof. apply (config_validation_exact demo_server_config), demo_server_config_ok. Defined.

#[local] Instance flat_hash : RingHash := {| pbkdf2_derive i s p := p; pbkdf2_verify i s p h := bool_decide (p = h); sha1 b := b |}.

Lemma validated_webui_locks_out_witness :
  auth_gate demo_auth_request (mkAuthConfig (lit "admin") demo_hash) = Some (Some unauthorized).
Proof.
  apply (validated_webui_locks_out (config_value demo_server_config) demo_server_config demo_webui demo_auth_request).
  - vm_compute. reflexivity.
  - reflexivity.
  - apply (bool_decide_unpack _). vm_compute. exact I.
Defined.

(** The path of an error about a missing section names the section twice, because
    the section parser passes its own path as the parent's. *)
Example missing_general_path :
  from_value (VTable []) = Err (with_path (ParseError_new (MissingField (lit "general")) 0 0) [lit "general"]).
Proof. reflexivity. Qed.

(** The path of a mistyped optional field leaves its section out. *)
Example optional_field_path :
  from_value (VTable [(lit "general", VTable [(lit "mode", VString (lit "server")); (lit "tunnel_mtu", VBoolean true)])])
  = Err (with_path (ParseError_new (TypeMismatch (lit "integer") (lit "boolean")) 0 0) [lit "tunnel_mtu"]).
Proof. reflexivity. Qed.

(** ** Configurations as text *)

Ltac ident_key := split_and!; [reflexivity|by repeat constructor|reflexivity].
Ltac literal_keys := split; [repeat (constructor; try reflexivity)|repeat (constructor; [ident_key|]); constructor].

Lemma leaf_int n : - 2 ^ 63 <= n < 2 ^ 63 → doc_ok (VInteger n).
Proof. intros Hn. cbn [doc_ok leaf_ok]. by rewrite (proj2 (Z.leb_le _ _)), (proj2 (Z.ltb_lt _ _)) by lia. Qed.

Lemma leaf_strings ss : doc_ok (strings ss).
Proof. left. cbn [strings leaf_ok]. apply forallb_forall. intros v Hv%list_elem_of_In. by apply list_elem_of_fmap in Hv as (s & -> & _). Qed.

(** A table with literal keys whose entries are checked one by one. *)
Ltac doc_table := split; [done|]; split; [literal_keys|]; cbn [foldr snd]; split_and?; try done; try apply leaf_strings; try apply leaf_int.

Lemma general_doc g : general_ok g → doc_ok (general_value g).
Proof. intros [H1 H2]. unfold general_value, CONFIG_MIN_MTU, CONFIG_MAX_MTU in *. doc_table. lia. Qed.

Lemma auth_doc a : doc_ok (auth_value a).
Proof. destruct a as [m [?|] [?|] [?|] [?|]]; unfold auth_value; cbn [a_method a_psk a_authorized_keys_file a_totp_secret a_ca_cert_file opt_entry app]; doc_table. Qed.

Lemma server_doc s : server_ok s → doc_ok (server_value s).
Proof. intros [[H1 H2] _]. unfold server_value, umax in *. doc_table; [apply auth_doc|lia]. Qed.

Lemma interface_item i : interface_ok i → item_ok (interface_value i).
Proof.
  intros [_ [H1 H2]]. unfold MAX_WEIGHT in *. split; [literal_keys|]. repeat (apply Forall_cons; split); [done|done| |by constructor].
  cbn [snd leaf_ok]. by rewrite (proj2 (Z.leb_le _ _)), (proj2 (Z.ltb_lt _ _)) by lia.
Qed.

Lemma client_doc c : client_ok c → doc_ok (client_value c).
Proof.
  intros ([H1 H2] & Hne & Hall). unfold client_value, MAX_REORDER_WINDOW_MS in *. doc_table; [|lia].
  right. split; [by destruct (cl_interfaces c)|]. apply Forall_fmap. eapply Forall_impl; [exact Hall|]. apply interface_item.
Qed.

Lemma webui_doc w : doc_ok (webui_value w).
Proof. unfold webui_value. doc_table. Qed.

Lemma p2p_doc p : doc_ok (p2p_value p).
Proof. unfold p2p_value. doc_table. Qed.

Lemma config_value_doc c : config_ok c → ∃ root, config_value c = VTable root ∧ root_ok root.
Proof.
  intros [Hg Hs Hc Hw _]. eexists. split; [done|]. destruct c as [g s cl w p]. cbn [c_general c_server c_client c_webui c_p2p] in *.
  split; [destruct s, cl, w, p; literal_keys|].
  repeat apply Forall_app_2.
  - destruct cl; [|constructor]. apply Forall_singleton. by apply client_doc.
  - apply Forall_singleton. by apply general_doc.
  - destruct p; [|constructor]. apply Forall_singleton. apply p2p_doc.
  - destruct s; [|constructor]. apply Forall_singleton. by apply server_doc.
  - destruct w; [|constructor]. apply Forall_singleton. apply webui_doc.
Qed.

(** From the text of a file to a configuration, as [up] and [PUT /api/v1/config] do. *)
Definition load_config (text : str) : outcome Config ParseError :=
  let% v := parse text in
  match from_value v with Ok c => Ret c | Err e => Fail e end.

Lemma config_prints c : config_ok c → ∃ text, to_toml (config_value c) = Some text ∧ load_config text = Ret c.
Proof.
  intros Hc. destruct (config_value_doc c Hc) as (root & Hv & Hroot). rewrite Hv.
  destruct (toml_print_parse root Hroot) as (text & Hp & Ht). exists text. split; [done|].
  unfold load_config. rewrite Ht. cbn [out_bind]. by rewrite <- Hv, config_value_valid.
Qed.

(** C15: From text to configuration and back: every valid configuration has a text, the
    one the printer writes, from which tokenizer, parser and validator together
    return exactly that configuration. *)
Theorem config_text_roundtrip c : config_ok c → ∃ text, to_toml (config_value c) = Some text ∧ load_config text = Ret c.
Proof. apply config_prints. Qed.

Lemma config_text_roundtrip_witness :
  ∃ text, to_toml (config_value demo_server_config) = Some text ∧ load_config text = Ret demo_server_config.
Proof. apply (config_text_roundtrip demo_server_config), demo_server_config_ok. Defined.
