(* ===== verification/Log.v ===== *)
(** * Logging and the broadcast ring ([desmos-core broadcast.rs, log/])

    The bounded broadcast ring with its subscribers' cursors, the log ring, the
    redactor and the logger's [emit].  A ring operation is first one step; then
    [send], which is not atomic in the code, is split at its two shared accesses.
    Every interleaving of these with the accesses of a poll is in Bus.v. *)

From stdpp Require Import base numbers list strings.
From Stdlib Require Import ZArith Lia.
From S2P Require Import Prelude Str.

(** ** [Broadcast<T>] *)

(** [usize::next_power_of_two], which panics when the result does not fit. *)
Definition next_power_of_two (n : Z) : panics Z := if n <=? 2 ^ 63 then Some (2 ^ Z.log2_up n) else None.

Section broadcast.
Context {T : Type}.

(** The mutexes of the slots make each access atomic; an [Arc] is its payload. *)
Record Broadcast := mkBroadcast { b_slots : list (option T); b_mask : Z; b_write_pos : Z }.

Definition Broadcast_new (capacity : Z) : panics Broadcast :=
  p ← next_power_of_two capacity;
  let cap := Z.max p 2 in
  Some (mkBroadcast (replicate (Z.to_nat cap) None) (cap - 1) 0).

Definition position (b : Broadcast) : Z := b_write_pos b.
Definition Broadcast_capacity (b : Broadcast) : Z := b_mask b + 1.

(** The two shared accesses of [send]: [fetch_add], then the store into the slot. *)
Definition send_reserve (b : Broadcast) : Broadcast * Z :=
  (mkBroadcast (b_slots b) (b_mask b) (wrapping_add 64 (b_write_pos b) 1), b_write_pos b).
Definition send_store (pos : Z) (item : T) (b : Broadcast) : panics Broadcast :=
  let idx := Z.to_nat (Z.land pos (b_mask b)) in
  match b_slots b !! idx with
  | None => None
  | Some _ => Some (mkBroadcast (<[idx := Some item]> (b_slots b)) (b_mask b) (b_write_pos b))
  end.

Definition send (item : T) (b : Broadcast) : panics Broadcast :=
  let '(b, pos) := send_reserve b in send_store pos item b.

(** The loop over [start..head]. *)
Fixpoint recv_loop (b : Broadcast) (pos : Z) (n : nat) : panics (list T) :=
  match n with
  | O => Some []
  | S n =>
      slot ← b_slots b !! Z.to_nat (Z.land pos (b_mask b));
      items ← recv_loop b (pos + 1) n;
      Some (match slot with Some item => item :: items | None => items end)
  end.

Definition recv (b : Broadcast) (cursor : Z) : panics (Z * list T) :=
  let head := position b in
  if head <=? cursor then Some (cursor, [])
  else
    let cap := Broadcast_capacity b in
    let start := if cap <? head - cursor then head - cap else cursor in
    items ← recv_loop b start (Z.to_nat (head - start));
    Some (head, items).

Record Receiver := mkReceiver { r_cursor : Z }.

Definition subscribe (b : Broadcast) : Receiver := mkReceiver (position b).

Definition Receiver_poll (r : Receiver) (b : Broadcast) : panics (Receiver * list T) :=
  '(new_cursor, items) ← recv b (r_cursor r);
  Some (mkReceiver new_cursor, items).

(** ** What the ring means: the history of what was sent *)

Record ring_of (b : Broadcast) (hist : list T) : Prop := {
  ro_cap : ∃ k, 1 <= k ∧ b_mask b = 2 ^ k - 1 ∧ length (b_slots b) = Z.to_nat (2 ^ k);
  ro_pos : b_write_pos b = Z.of_nat (length hist);
  ro_slots : ∀ i x, hist !! i = Some x → Z.of_nat (length hist) - Broadcast_capacity b <= Z.of_nat i →
             b_slots b !! Z.to_nat (Z.land (Z.of_nat i) (b_mask b)) = Some (Some x) }.

(** The index of a position. *)
Lemma bus_slot_index b hist pos : ring_of b hist →
  Z.land pos (b_mask b) = pos mod Broadcast_capacity b ∧ 2 <= Broadcast_capacity b ∧
  length (b_slots b) = Z.to_nat (Broadcast_capacity b).
Proof.
  intros [(k & Hk & Hm & Hl) _ _]. unfold Broadcast_capacity. rewrite Hm, Hl.
  replace (2 ^ k - 1) with (Z.ones k) by (rewrite Z.ones_equiv; lia).
  rewrite Z.land_ones by lia. rewrite Z.ones_equiv.
  assert (2 ^ 1 <= 2 ^ k) by (apply Z.pow_le_mono_r; lia).
  split_and!; [f_equal; lia|lia|f_equal; lia].
Qed.

Lemma slot_in_range b hist pos : ring_of b hist → 0 <= pos →
  (Z.to_nat (Z.land pos (b_mask b)) < length (b_slots b))%nat.
Proof.
  intros Hr Hp. destruct (bus_slot_index b hist pos Hr) as (-> & Hc & ->).
  pose proof (Z.mod_pos_bound pos (Broadcast_capacity b) ltac:(lia)). lia.
Qed.

Lemma Broadcast_new_ring capacity : 0 <= capacity <= 2 ^ 63 →
  ∃ b, Broadcast_new capacity = Some b ∧ ring_of b [] ∧ capacity <= Broadcast_capacity b.
Proof.
  intros Hc. unfold Broadcast_new, next_power_of_two. rewrite (proj2 (Z.leb_le _ _)) by lia. cbn [mbind option_bind].
  eexists. split; [done|]. unfold Broadcast_capacity. cbn [b_mask].
  assert (capacity <= 2 ^ Z.log2_up capacity) as Hup.
  { destruct (decide (capacity <= 0)); [pose proof (Z.pow_nonneg 2 (Z.log2_up capacity) ltac:(lia)); lia|]. apply Z.log2_log2_up_spec. lia. }
  split; [|lia]. constructor; [|done|intros i x Hx; by rewrite lookup_nil in Hx]. cbn [b_mask b_slots]. rewrite length_replicate.
  pose proof (Z.log2_up_nonneg capacity). destruct (decide (Z.log2_up capacity = 0)) as [E|E].
  - exists 1. rewrite E. done.
  - exists (Z.log2_up capacity). assert (2 ^ 1 <= 2 ^ Z.log2_up capacity) by (apply Z.pow_le_mono_r; lia).
    rewrite Z.max_l by lia. split_and!; [lia|done|done].
Qed.

(** Two positions less than a lap apart have different slots. *)
Lemma slot_distinct b hist p q : ring_of b hist → 0 <= p < q → q < p + Broadcast_capacity b →
  Z.to_nat (Z.land p (b_mask b)) ≠ Z.to_nat (Z.land q (b_mask b)).
Proof.
  intros Hr Hpq Hlt. destruct (bus_slot_index b hist p Hr) as (-> & Hc & _). destruct (bus_slot_index b hist q Hr) as (-> & _).
  set (c := Broadcast_capacity b) in *. pose proof (Z.mod_pos_bound p c ltac:(lia)). pose proof (Z.mod_pos_bound q c ltac:(lia)).
  intros E. assert (p mod c = q mod c) as E' by lia.
  pose proof (Z.div_mod p c ltac:(lia)) as Hp. pose proof (Z.div_mod q c ltac:(lia)) as Hq.
  assert (q - p = c * (q / c - p / c)) as Hd by (rewrite Z.mul_sub_distr_l; lia).
  destruct (decide (q / c - p / c <= 0)); nia.
Qed.

Lemma send_ring b hist x : ring_of b hist → Z.of_nat (length hist) + 1 < 2 ^ 64 →
  ∃ b', send x b = Some b' ∧ ring_of b' (hist ++ [x]) ∧ Broadcast_capacity b' = Broadcast_capacity b.
Proof.
  intros Hr Hlen. pose proof (ro_pos _ _ Hr) as Hpos. unfold send, send_reserve, send_store. cbn [b_slots b_mask b_write_pos].
  pose proof (slot_in_range b hist (b_write_pos b) Hr ltac:(lia)) as Hin.
  destruct (lookup_lt_is_Some_2 _ _ Hin) as [old ->].
  eexists. split; [done|]. split; [|done].
  constructor; cbn [b_slots b_mask b_write_pos].
  - rewrite length_insert. apply (ro_cap _ _ Hr).
  - unfold wrapping_add, wrap. rewrite Hpos, Z.mod_small, length_app by lia. cbn [length]. lia.
  - unfold Broadcast_capacity. cbn [b_mask]. rewrite length_app. cbn [length]. intros i y Hi Hge.
    apply lookup_app_Some in Hi as [Hi|[Hi1 Hi2]].
    + apply lookup_lt_Some in Hi as Hlt. rewrite list_lookup_insert_ne.
      * apply (ro_slots _ _ Hr); [done|unfold Broadcast_capacity; lia].
      * apply not_eq_sym. rewrite Hpos. apply (slot_distinct b hist); [done|lia|unfold Broadcast_capacity; lia].
    + apply list_lookup_singleton_Some in Hi2 as [Hi2 ->]. assert (i = length hist) as -> by lia.
      rewrite Hpos, list_lookup_insert_eq by (rewrite <- Hpos; done). done.
Qed.

Lemma recv_loop_ring b hist n : ring_of b hist → ∀ pos,
  (pos + n = length hist)%nat → Z.of_nat (length hist) - Broadcast_capacity b <= Z.of_nat pos →
  recv_loop b (Z.of_nat pos) n = Some (drop pos hist).
Proof.
  intros Hr. induction n as [|n IH]; intros pos Hn Hge; cbn [recv_loop]; [by rewrite drop_ge by lia|].
  destruct (lookup_lt_is_Some_2 hist pos ltac:(lia)) as [x Hx].
  rewrite (ro_slots _ _ Hr pos x Hx Hge). cbn [mbind option_bind].
  replace (Z.of_nat pos + 1) with (Z.of_nat (S pos)) by lia. rewrite IH by lia. cbn [mbind option_bind].
  by rewrite (drop_S hist x pos Hx).
Qed.

(** [recv] returns everything sent since the cursor that the ring still holds. *)
Lemma recv_ring b hist cursor : ring_of b hist → (cursor <= length hist)%nat →
  recv b (Z.of_nat cursor) =
  Some (Z.of_nat (length hist), drop (max cursor (length hist - Z.to_nat (Broadcast_capacity b))) hist).
Proof.
  intros Hr Hc. pose proof (ro_pos _ _ Hr) as Hpos. destruct (bus_slot_index b hist 0 Hr) as (_ & Hcap & _).
  unfold recv, position. rewrite Hpos. destruct (Z.leb_spec (Z.of_nat (length hist)) (Z.of_nat cursor)).
  - assert (cursor = length hist) as -> by lia. by rewrite drop_ge by lia.
  - cbv zeta. set (cap := Broadcast_capacity b) in *.
    destruct (Z.ltb_spec cap (Z.of_nat (length hist) - Z.of_nat cursor)).
    + replace (Z.of_nat (length hist) - cap) with (Z.of_nat (length hist - Z.to_nat cap)) by lia.
      rewrite (recv_loop_ring b hist _ Hr) by (fold cap; lia). cbn [mbind option_bind]. do 3 f_equal. lia.
    + rewrite (recv_loop_ring b hist _ Hr) by (fold cap; lia). cbn [mbind option_bind]. do 3 f_equal. lia.
Qed.

(** *** One publisher and one subscriber, call by call *)

Inductive bus_op := BSend (item : T) | BPoll.

(** The items each poll returned, in order. *)
Fixpoint run_bus (ops : list bus_op) (b : Broadcast) (r : Receiver) : panics (Broadcast * Receiver * list (list T)) :=
  match ops with
  | [] => Some (b, r, [])
  | BSend item :: ops => b ← send item b; run_bus ops b r
  | BPoll :: ops =>
      '(r, items) ← Receiver_poll r b;
      '(b, r, polls) ← run_bus ops b r;
      Some (b, r, items :: polls)
  end.

(** What the polls should return: the items since the last poll, or the newest
    [cap] of them; [pending] is what was sent since. *)
Fixpoint delivered (cap : nat) (ops : list bus_op) (pending : list T) : list (list T) :=
  match ops with
  | [] => []
  | BSend item :: ops => delivered cap ops (pending ++ [item])
  | BPoll :: ops => drop (length pending - cap) pending :: delivered cap ops []
  end.

Definition bus_sends (ops : list bus_op) : list T := omap (fun op => match op with BSend x => Some x | BPoll => None end) ops.

Lemma run_bus_delivered ops : ∀ b hist pending,
  ring_of b (hist ++ pending) → Z.of_nat (length (hist ++ pending)) + Z.of_nat (length (bus_sends ops)) < 2 ^ 64 →
  ∃ b' r', run_bus ops b (mkReceiver (Z.of_nat (length hist)))
           = Some (b', r', delivered (Z.to_nat (Broadcast_capacity b)) ops pending).
Proof.
  induction ops as [|[x|] ops IH]; intros b hist pending Hr Hlen; cbn [run_bus delivered]; [by eexists _, _| |].
  - change (bus_sends (BSend x :: ops)) with (x :: bus_sends ops) in Hlen. cbn [length] in Hlen.
    destruct (send_ring b (hist ++ pending) x Hr ltac:(lia)) as (b' & -> & Hr' & Hcap). cbn [mbind option_bind]. rewrite <- Hcap.
    apply IH; [by rewrite app_assoc|]. rewrite app_assoc, (length_app _ [x]). cbn [length]. lia.
  - unfold Receiver_poll. cbn [r_cursor]. rewrite (recv_ring b (hist ++ pending)) by (done || (rewrite length_app; lia)).
    cbn [mbind option_bind].
    destruct (IH b (hist ++ pending) []) as (b' & r' & ->); [by rewrite app_nil_r|by rewrite app_nil_r|].
    cbn [mbind option_bind]. exists b', r'. do 3 f_equal. rewrite length_app.
    destruct (decide (length pending <= Z.to_nat (Broadcast_capacity b))%nat).
    + rewrite Nat.max_l by lia. replace (length pending - Z.to_nat (Broadcast_capacity b))%nat with 0%nat by lia.
      by rewrite drop_app_length.
    + rewrite Nat.max_r by lia.
      replace (length hist + length pending - Z.to_nat (Broadcast_capacity b))%nat
        with (length hist + (length pending - Z.to_nat (Broadcast_capacity b)))%nat by lia.
      by rewrite <- drop_drop, drop_app_length.
Qed.

(** The ring delivers: a subscriber of a new ring receives, poll by poll, exactly the
    items sent since its previous poll, in order and once, or the newest capacity's
    worth of them when it was slower than that. *)
Theorem broadcast_delivers capacity ops :
  0 <= capacity <= 2 ^ 63 → Z.of_nat (length (bus_sends ops)) < 2 ^ 64 →
  ∃ b b' r', Broadcast_new capacity = Some b ∧ capacity <= Broadcast_capacity b ∧
    run_bus ops b (subscribe b) = Some (b', r', delivered (Z.to_nat (Broadcast_capacity b)) ops []).
Proof.
  intros Hc Hlen. destruct (Broadcast_new_ring capacity Hc) as (b & Hb & Hr & Hcap). exists b.
  destruct (run_bus_delivered ops b [] [] Hr) as (b' & r' & Hrun); [cbn [app length]; lia|].
  exists b', r'. split_and!; [done|done|]. unfold subscribe, position. rewrite (ro_pos _ _ Hr). exact Hrun.
Qed.

(** The race: [send] advances the position before it fills the slot.  A subscriber
    that is up to date and polls in between receives the item of one lap ago a second
    time, and the new item never. *)
Theorem broadcast_race b hist x stale :
  ring_of b hist → Z.of_nat (length hist) + 1 < 2 ^ 64 →
  hist !! (length hist - Z.to_nat (Broadcast_capacity b))%nat = Some stale → Broadcast_capacity b <= Z.of_nat (length hist) →
  let '(b1, pos) := send_reserve b in
  ∃ r b2, Receiver_poll (subscribe b) b1 = Some (r, [stale]) ∧ send_store pos x b1 = Some b2 ∧
          Receiver_poll r b2 = Some (r, []).
Proof.
  intros Hr Hlen Hstale Hlap. pose proof (ro_pos _ _ Hr) as Hpos. destruct (bus_slot_index b hist (b_write_pos b) Hr) as (Hidx & Hcap & _).
  unfold send_reserve. exists (mkReceiver (Z.of_nat (length hist) + 1)). unfold Receiver_poll, subscribe, recv, position.
  cbn [r_cursor b_write_pos b_mask]. unfold wrapping_add, wrap. rewrite Hpos, Z.mod_small by lia.
  rewrite (proj2 (Z.leb_gt _ _)) by lia. unfold Broadcast_capacity. cbn [b_mask]. fold (Broadcast_capacity b).
  rewrite (proj2 (Z.ltb_ge _ _)) by lia. replace (Z.to_nat (Z.of_nat (length hist) + 1 - Z.of_nat (length hist))) with 1%nat by lia.
  cbn [recv_loop b_slots b_mask].
  assert (b_slots b !! Z.to_nat (Z.land (Z.of_nat (length hist)) (b_mask b)) = Some (Some stale)) as Hslot.
  { rewrite <- (ro_slots _ _ Hr _ _ Hstale) by lia. do 2 f_equal. rewrite <- Hpos.
    destruct (bus_slot_index b hist (Z.of_nat (length hist - Z.to_nat (Broadcast_capacity b))) Hr) as (-> & _). rewrite Hidx, Hpos.
    replace (Z.of_nat (length hist)) with (Z.of_nat (length hist - Z.to_nat (Broadcast_capacity b)) + 1 * Broadcast_capacity b) at 1 by lia.
    apply Z.mod_add. lia. }
  rewrite Hslot. cbn [mbind option_bind]. unfold send_store. cbn [b_slots b_mask b_write_pos]. rewrite Hslot.
  eexists. split_and!; [done|done|]. cbn [b_write_pos]. by rewrite (proj2 (Z.leb_le _ _)) by lia.
Qed.

End broadcast.
Arguments Broadcast T : clear implicits.
Arguments bus_op T : clear implicits.

(** A publisher faster than its subscriber, and a race after one lap. *)
Definition demo_ops : list (bus_op Z) := [BSend 1; BPoll; BSend 2; BSend 3; BSend 4; BPoll; BPoll].

Lemma broadcast_delivers_witness :
  ∃ b b' r', Broadcast_new 2 = Some b ∧ 2 <= Broadcast_capacity b ∧
    run_bus demo_ops b (subscribe b) = Some (b', r', delivered (Z.to_nat (Broadcast_capacity b)) demo_ops []).
Proof. apply (broadcast_delivers 2 demo_ops); cbn; lia. Defined.

Example demo_delivered : delivered 2 demo_ops [] = [[1]; [3; 4]; []].
Proof. reflexivity. Qed.

Definition demo_ring : Broadcast Z := mkBroadcast [Some 1; Some 2] 1 2.

Lemma demo_ring_of : ring_of demo_ring [1; 2].
Proof.
  constructor; [by exists 1|done|]. intros [|[|i]] x; cbn; [by intros [= ->]|by intros [= ->]|done].
Qed.

Lemma broadcast_race_witness :
  let '(b1, pos) := send_reserve demo_ring in
  ∃ r b2, Receiver_poll (subscribe demo_ring) b1 = Some (r, [1]) ∧ send_store pos 3 b1 = Some b2 ∧ Receiver_poll r b2 = Some (r, []).
Proof. apply (broadcast_race demo_ring [1; 2] 3 1 demo_ring_of); [reflexivity|reflexivity|discriminate]. Defined.

(** ** Log entries ([log/mod.rs]) *)

Inductive Level := Trace | Debug | Info | Warn | Error.

Definition Level_as_str (l : Level) : str :=
  match l with Trace => lit "trace" | Debug => lit "debug" | Info => lit "info" | Warn => lit "warn" | Error => lit "error" end.

(** The derived order. *)
Definition Level_rank (l : Level) : nat := match l with Trace => 0 | Debug => 1 | Info => 2 | Warn => 3 | Error => 4 end.
Definition Level_ltb (a b : Level) : bool := (Level_rank a <? Level_rank b)%nat.

Record Entry := mkEntry { en_level : Level; en_target : str; en_msg : str; en_fields : list (str * str) }.

(** *** [redact.rs] *)

Definition SECRET_KEYS : list str := [lit "psk"; lit "password"; lit "private_key"].

Definition redact (key value : str) : str :=
  if existsb (fun k => eq_ignore_ascii_case k key) SECRET_KEYS then lit "***" else value.

Definition Entry_fmt (e : Entry) : str :=
  lit "level=" ++ Level_as_str (en_level e) ++ lit " target=" ++ en_target e ++ lit " msg=" ++ en_msg e ++
  (en_fields e ≫= (fun '(k, v) => lit " " ++ k ++ lit "=" ++ redact k v)).

(** *** [ring.rs] *)

Record LogRing := mkLogRing { lr_capacity : nat; lr_buf : list Entry }.

Definition LogRing_with_capacity (capacity : nat) : LogRing := mkLogRing capacity [].

Definition LogRing_push (e : Entry) (r : LogRing) : LogRing :=
  let buf := if (length (lr_buf r) =? lr_capacity r)%nat then tail (lr_buf r) else lr_buf r in
  mkLogRing (lr_capacity r) (buf ++ [e]).

Definition LogRing_len (r : LogRing) : nat := length (lr_buf r).
Definition LogRing_is_empty (r : LogRing) : bool := bool_decide (lr_buf r = []).
Definition LogRing_snapshot (r : LogRing) : list Entry := lr_buf r.

(** *** Sinks and the logger

    What a sink has been given: the lines on standard error, or a bus. *)
Inductive Sink := StderrSink (lines : list str) | BroadcastSink (bus : Broadcast Entry).

Definition Sink_write (e : Entry) (s : Sink) : panics Sink :=
  match s with
  | StderrSink lines => Some (StderrSink (lines ++ [Entry_fmt e ++ [10]]))
  | BroadcastSink bus => bus ← send e bus; Some (BroadcastSink bus)
  end.

(** No thread panics while it holds one of the three locks. *)
Record Logger := mkLogger { lg_sinks : list Sink; lg_ring : LogRing; lg_min_level : Level }.

Definition Logger_new : Logger := mkLogger [StderrSink []] (LogRing_with_capacity 500) Info.

Definition emit (e : Entry) (l : Logger) : panics Logger :=
  if Level_ltb (en_level e) (lg_min_level l) then Some l
  else
    sinks ← mapM (Sink_write e) (lg_sinks l);
    Some (mkLogger sinks (LogRing_push e (lg_ring l)) (lg_min_level l)).

Definition set_min_level (level : Level) (l : Logger) : Logger := mkLogger (lg_sinks l) (lg_ring l) level.
Definition set_sinks (sinks : list Sink) (l : Logger) : Logger := mkLogger sinks (lg_ring l) (lg_min_level l).
Definition snapshot_ring (l : Logger) : list Entry := LogRing_snapshot (lg_ring l).

(** ** Properties *)

(** The newest [n]. *)
Definition newest {A} (n : nat) (l : list A) : list A := drop (length l - n) l.

Lemma push_newest n hist e : (0 < n)%nat →
  LogRing_push e (mkLogRing n (newest n hist)) = mkLogRing n (newest n (hist ++ [e])).
Proof.
  intros Hn. unfold LogRing_push, newest. cbn [lr_buf lr_capacity]. f_equal. rewrite length_drop, length_app. cbn [length].
  destruct (Nat.eqb_spec (length hist - (length hist - n)) n) as [E|E].
  - replace (length hist + 1 - n)%nat with (S (length hist - n)) by lia. rewrite drop_app_le by lia. f_equal.
    destruct (drop (length hist - n) hist) as [|x l] eqn:Ed.
    { apply (f_equal length) in Ed. rewrite length_drop in Ed. cbn in Ed. lia. }
    cbn [tail]. rewrite <- Nat.add_1_r, <- drop_drop, Ed. done.
  - replace (length hist - n)%nat with 0%nat by lia. replace (length hist + 1 - n)%nat with 0%nat by lia. done.
Qed.

(** What the sinks of a logger get. *)
Definition plain_sinks (l : Logger) : Prop := Forall (fun s => match s with StderrSink _ => True | BroadcastSink _ => False end) (lg_sinks l).

Definition recorded (min : Level) (e : Entry) : Prop := Level_ltb (en_level e) min = false.
#[export] Instance recorded_dec min e : Decision (recorded min e).
Proof. unfold recorded. apply _. Defined.

Lemma plain_write e sinks : Forall (fun s => match s with StderrSink _ => True | BroadcastSink _ => False end) sinks →
  ∃ sinks', mapM (Sink_write e) sinks = Some sinks' ∧ Forall (fun s => match s with StderrSink _ => True | BroadcastSink _ => False end) sinks'.
Proof.
  induction 1 as [|s sinks Hs _ (sinks' & IH & Hall)]; [by exists []|]. destruct s as [lines|]; [|done].
  eexists. cbn [mapM mret option_ret]. cbn [Sink_write mbind option_bind]. rewrite IH. cbn [mbind option_bind]. split; [done|]. by constructor.
Qed.

Lemma emits_newest es : ∀ l n hist, plain_sinks l → lg_ring l = mkLogRing n (newest n hist) → (0 < n)%nat →
  ∃ l', foldl (fun m e => l ← m; emit e l) (Some l) es = Some l' ∧
        lg_ring l' = mkLogRing n (newest n (hist ++ filter (recorded (lg_min_level l)) es)).
Proof.
  induction es as [|e es IH]; intros l n hist Hp Hr Hn; cbn [foldl]; [exists l; by rewrite app_nil_r|].
  cbn [mbind option_bind]. unfold emit at 2. rewrite filter_cons. destruct (Level_ltb (en_level e) (lg_min_level l)) eqn:E.
  - rewrite decide_False by (unfold recorded; congruence). by apply IH.
  - rewrite decide_True by done. destruct (plain_write e (lg_sinks l) Hp) as (sinks' & -> & Hp'). cbn [mbind option_bind].
    destruct (IH (mkLogger sinks' (LogRing_push e (lg_ring l)) (lg_min_level l)) n (hist ++ [e])) as (l' & -> & Hl');
      [done|cbn [lg_ring]; rewrite Hr; by apply push_newest|done|]. exists l'. split; [done|]. rewrite Hl'. cbn [lg_min_level].
    by rewrite <- app_assoc.
Qed.

(** The log ring is the tail of the log: after any sequence of entries the Web UI's
    snapshot holds the newest 500 of those at or above the level, oldest first. *)
Theorem log_snapshot_exact es min :
  ∃ l, foldl (fun m e => l ← m; emit e l) (Some (set_min_level min Logger_new)) es = Some l ∧
       snapshot_ring l = newest 500 (filter (recorded min) es).
Proof.
  destruct (emits_newest es (set_min_level min Logger_new) 500 []) as (l & Hl & Hr); [by repeat constructor|done|lia|].
  exists l. split; [done|]. unfold snapshot_ring, LogRing_snapshot. by rewrite Hr.
Qed.

(** A ring of capacity zero is not bounded. *)
Example zero_capacity_grows (e : Entry) : LogRing_len (LogRing_push e (LogRing_push e (LogRing_with_capacity 0))) = 2%nat.
Proof. reflexivity. Qed.

Definition secret_entry : Entry := mkEntry Info (lit "auth") (lit "loaded") [(lit "PSK", lit "hunter2")].

(** Standard error gets the redacted value, the ring keeps the secret. *)
Example ring_keeps_secrets :
  (emit secret_entry Logger_new ≫= (fun l => Some (lg_sinks l, snapshot_ring l)))
  = Some ([StderrSink [lit "level=info target=auth msg=loaded PSK=***" ++ [10]]], [secret_entry]).
Proof. reflexivity. Qed.
