(* ===== verification/Bus.v ===== *)
(** * The broadcast ring under interleaving ([desmos-core broadcast.rs])

    [send] and [recv] of the ring are not atomic: [send] takes its position with
    [fetch_add] and fills the slot afterwards, [recv] reads the position once and then
    one slot after the other.  Here the publisher (one, as the ring's documentation says)
    and a subscriber run on threads of their own, each shared access a step, in any
    order.  Subscribers do not change the ring, so one stands for each of them. *)

From stdpp Require Import base numbers list.
From Stdlib Require Import ZArith Lia.
From S2P Require Import Prelude Log.

Section bus.
Context {T : Type}.

(** What a poll returned, with the cursor it started from and the position it read;
    [po_quiet] records that no step of a [send] fell between its start and its end, nor
    was a [send] under way. *)
Record PollOut := mkPollOut { po_cursor : Z; po_head : Z; po_items : list T; po_quiet : bool }.

(** Where the subscriber is: between polls, or in the loop of [recv]. *)
Inductive SubPc := SubIdle | SubReading (pos head : Z) (items : list T).

Record Bus := mkBus {
  bu_ring : Broadcast T;
  bu_sending : option (Z * T);
  bu_cursor : Z;
  bu_pc : SubPc;
  bu_quiet : bool;
  bu_polls : list PollOut;
}.

Definition bus_start (b : Broadcast T) : Bus := mkBus b None (r_cursor (subscribe b)) SubIdle true [].

(** The shared accesses: the [fetch_add] and the store of a [send]; the load of the
    position and the read of the next slot of a [recv], or its return. *)
Inductive BusEvent := EvReserve (item : T) | EvStore | EvPoll | EvRead.

Definition idle_sending (s : Bus) : bool := match bu_sending s with None => true | Some _ => false end.

(** An event that is not the next access of its thread does nothing. *)
Definition bus_step (s : Bus) (ev : BusEvent) : panics Bus :=
  match ev with
  | EvReserve item =>
      match bu_sending s with
      | Some _ => Some s
      | None => let '(b, pos) := send_reserve (bu_ring s) in
                Some (mkBus b (Some (pos, item)) (bu_cursor s) (bu_pc s) false (bu_polls s))
      end
  | EvStore =>
      match bu_sending s with
      | None => Some s
      | Some (pos, item) => b ← send_store pos item (bu_ring s);
                            Some (mkBus b None (bu_cursor s) (bu_pc s) false (bu_polls s))
      end
  | EvPoll =>
      match bu_pc s with
      | SubReading _ _ _ => Some s
      | SubIdle =>
          let head := position (bu_ring s) in
          if head <=? bu_cursor s
          then Some (mkBus (bu_ring s) (bu_sending s) (bu_cursor s) SubIdle (bu_quiet s)
                       (bu_polls s ++ [mkPollOut (bu_cursor s) (bu_cursor s) [] (idle_sending s)]))
          else
            let cap := Broadcast_capacity (bu_ring s) in
            let start := if cap <? head - bu_cursor s then head - cap else bu_cursor s in
            Some (mkBus (bu_ring s) (bu_sending s) (bu_cursor s) (SubReading start head []) (idle_sending s) (bu_polls s))
      end
  | EvRead =>
      match bu_pc s with
      | SubIdle => Some s
      | SubReading pos head items =>
          if pos <? head then
            slot ← b_slots (bu_ring s) !! Z.to_nat (Z.land pos (b_mask (bu_ring s)));
            Some (mkBus (bu_ring s) (bu_sending s) (bu_cursor s)
                    (SubReading (pos + 1) head (items ++ match slot with Some x => [x] | None => [] end)) (bu_quiet s) (bu_polls s))
          else Some (mkBus (bu_ring s) (bu_sending s) head SubIdle (bu_quiet s)
                       (bu_polls s ++ [mkPollOut (bu_cursor s) head items (bu_quiet s)]))
      end
  end.

Fixpoint run_events (evs : list BusEvent) (s : Bus) : panics Bus :=
  match evs with [] => Some s | ev :: evs => s ← bus_step s ev; run_events evs s end.

Fixpoint reserve_count (evs : list BusEvent) : nat :=
  match evs with [] => 0 | EvReserve _ :: evs => S (reserve_count evs) | _ :: evs => reserve_count evs end.

(** ** Specification *)

(** The items a publisher has stored, in order: the history a subscriber should see. *)
Fixpoint stored (evs : list BusEvent) (sending : option T) : list T :=
  match evs with
  | [] => []
  | EvReserve x :: evs => stored evs (Some (default x sending))
  | EvStore :: evs => match sending with Some x => x :: stored evs None | None => stored evs None end
  | _ :: evs => stored evs sending
  end.

(** Where a poll starts reading. *)
Definition po_start (cap : Z) (o : PollOut) : Z := Z.max (po_cursor o) (po_head o - cap).

(** The items [from, to) of a history. *)
Definition items_between (from to : Z) (hist : list T) : list T := take (Z.to_nat (to - from)) (drop (Z.to_nat from) hist).

(** [x], read for position [p], is an item of the history whose position has the same
    slot and is at most one lap behind. *)
Definition from_slot (cap : Z) (hist : list T) (p : Z) (x : T) : Prop :=
  ∃ q, 0 <= q ∧ hist !! Z.to_nat q = Some x ∧ q mod cap = p mod cap ∧ p - cap <= q.

(** A poll over a history: quiet, it returns exactly the items from its start to the
    position it read; otherwise each item comes from the slot of one of these positions,
    taken in order. *)
Record poll_ok (cap : Z) (hist : list T) (o : PollOut) : Prop := {
  po_range : 0 <= po_cursor o <= po_head o ∧ po_head o <= Z.of_nat (length hist) + 1;
  po_exact : po_quiet o = true →
    po_head o <= Z.of_nat (length hist) ∧ po_items o = items_between (po_start cap o) (po_head o) hist;
  po_any : ∃ ps, sublist ps (seqZ (po_start cap o) (po_head o - po_start cap o)) ∧
    Forall2 (from_slot cap hist) ps (po_items o);
}.

(** Each poll starts where the one before it ended. *)
Fixpoint chained (cursor : Z) (polls : list PollOut) : Prop :=
  match polls with [] => True | o :: polls => po_cursor o = cursor ∧ chained (po_head o) polls end.

Definition last_head (cursor : Z) (polls : list PollOut) : Z := foldl (fun _ o => po_head o) cursor polls.

(** ** Lemmas *)

Lemma items_between_app from to hist x : 0 <= from → to <= Z.of_nat (length hist) →
  items_between from to (hist ++ [x]) = items_between from to hist.
Proof.
  intros H0 Hto. unfold items_between. destruct (decide (to <= from)); [by replace (Z.to_nat (to - from)) with 0%nat by lia|].
  rewrite drop_app_le by lia. rewrite take_app_le; [done|]. rewrite length_drop. lia.
Qed.

Lemma items_between_snoc from pos hist x : 0 <= from <= pos → hist !! Z.to_nat pos = Some x →
  items_between from (pos + 1) hist = items_between from pos hist ++ [x].
Proof.
  intros Hp Hx. unfold items_between. replace (Z.to_nat (pos + 1 - from)) with (S (Z.to_nat (pos - from))) by lia.
  apply take_S_r. rewrite lookup_drop, <-Hx. f_equal. lia.
Qed.

Lemma items_between_join from mid to hist : 0 <= from <= mid → mid <= to →
  items_between from mid hist ++ items_between mid to hist = items_between from to hist.
Proof.
  intros H1 H2. unfold items_between. replace (Z.to_nat (to - from)) with (Z.to_nat (mid - from) + Z.to_nat (to - mid))%nat by lia.
  rewrite <-take_take_drop, drop_drop. do 3 f_equal. lia.
Qed.

Lemma from_slot_app cap hist x p y : from_slot cap hist p y → from_slot cap (hist ++ [x]) p y.
Proof.
  intros (q & H0 & Hq & H1 & H2). exists q. split; [done|]. split; [|done]. by apply lookup_app_l_Some.
Qed.

Lemma poll_ok_app cap hist x o : 2 <= cap → poll_ok cap hist o → poll_ok cap (hist ++ [x]) o.
Proof.
  intros Hc [H1 H2 (ps & H3 & H4)]. split.
  - rewrite length_app. cbn. lia.
  - intros Hq. destruct (H2 Hq) as [Hh Hi]. rewrite length_app. cbn. split; [lia|]. rewrite items_between_app; [done|unfold po_start; lia|done].
  - exists ps. split; [done|]. eapply Forall2_impl; [exact H4|]. intros; by apply from_slot_app.
Qed.

Lemma chained_snoc o polls : ∀ cursor, chained cursor polls → po_cursor o = last_head cursor polls →
  chained cursor (polls ++ [o]) ∧ last_head cursor (polls ++ [o]) = po_head o.
Proof.
  unfold last_head. induction polls as [|p polls IH]; intros cursor; cbn [chained app foldl]; [by intros _ ->|].
  intros [-> Hc] Ho. destruct (IH (po_head p) Hc Ho) as [H1 H2]. done.
Qed.

(** *** The invariant *)

(** The slots hold the newest lap of the history, and nothing else. *)
Record slots_of (b : Broadcast T) (hist : list T) : Prop := {
  so_cap : ∃ k, 1 <= k ∧ b_mask b = 2 ^ k - 1 ∧ length (b_slots b) = Z.to_nat (2 ^ k);
  so_held : ∀ i x, hist !! i = Some x → Z.of_nat (length hist) - Broadcast_capacity b <= Z.of_nat i →
    b_slots b !! Z.to_nat (Z.of_nat i mod Broadcast_capacity b) = Some (Some x);
  so_only : ∀ j x, 0 <= j < Broadcast_capacity b → b_slots b !! Z.to_nat j = Some (Some x) →
    ∃ q, 0 <= q ∧ hist !! Z.to_nat q = Some x ∧ q mod Broadcast_capacity b = j ∧ Z.of_nat (length hist) - Broadcast_capacity b <= q;
}.

Lemma slots_of_cap b hist : slots_of b hist → 2 <= Broadcast_capacity b ∧
  (∀ pos, Z.land pos (b_mask b) = pos mod Broadcast_capacity b) ∧ length (b_slots b) = Z.to_nat (Broadcast_capacity b).
Proof.
  intros [(k & Hk & Hm & Hl) _ _]. unfold Broadcast_capacity. rewrite Hm, Hl.
  assert (2 ^ 1 <= 2 ^ k) by (apply Z.pow_le_mono_r; lia). split_and!; [lia| |f_equal; lia].
  intros pos. replace (2 ^ k - 1) with (Z.ones k) by (rewrite Z.ones_equiv; lia). rewrite Z.land_ones, Z.ones_equiv by lia. f_equal. lia.
Qed.

Lemma slots_of_new b : ring_of b ([] : list T) → (∀ j x, b_slots b !! j ≠ Some (Some x)) → slots_of b [].
Proof.
  intros [H1 _ _] Hn. split; [done|intros i x Hx; by rewrite lookup_nil in Hx|]. intros j x _ Hj. by apply Hn in Hj.
Qed.

(** Two positions of one slot, less than a lap apart, are one. *)
Lemma same_slot cap p q : 2 <= cap → p mod cap = q mod cap → p - cap < q < p + cap → p = q.
Proof.
  intros Hc E Hlt. pose proof (Z.div_mod p cap ltac:(lia)). pose proof (Z.div_mod q cap ltac:(lia)).
  assert (p - q = cap * (p / cap - q / cap)) by lia. assert (p / cap - q / cap = 0) by nia. lia.
Qed.

Lemma slots_of_store b hist x : slots_of b hist →
  ∃ b', send_store (Z.of_nat (length hist)) x b = Some b' ∧ slots_of b' (hist ++ [x]) ∧
    Broadcast_capacity b' = Broadcast_capacity b ∧ b_write_pos b' = b_write_pos b.
Proof.
  intros Hs. destruct (slots_of_cap b hist Hs) as (Hc & Hland & Hl). unfold send_store. rewrite Hland.
  set (cap := Broadcast_capacity b) in *. set (n := Z.of_nat (length hist)).
  pose proof (Z.mod_pos_bound n cap ltac:(lia)) as Hm.
  destruct (lookup_lt_is_Some_2 (b_slots b) (Z.to_nat (n mod cap)) ltac:(lia)) as [old ->].
  eexists. split; [done|]. split; [|done].
  assert (Hcap : Broadcast_capacity (mkBroadcast (<[Z.to_nat (n mod cap):=Some x]> (b_slots b)) (b_mask b) (b_write_pos b)) = cap) by done.
  split; rewrite ?Hcap; cbn [b_slots b_mask].
  - rewrite length_insert. apply (so_cap _ _ Hs).
  - rewrite length_app. cbn [length]. intros i y Hi Hge. apply lookup_app_Some in Hi as [Hi|[Hi1 Hi2]].
    + apply lookup_lt_Some in Hi as Hlt. rewrite list_lookup_insert_ne; [apply (so_held _ _ Hs); [done|fold cap; lia]|].
      pose proof (Z.mod_pos_bound (Z.of_nat i) cap ltac:(lia)). intros E.
      assert (Z.of_nat i = n) by (apply (same_slot cap); lia). lia.
    + apply list_lookup_singleton_Some in Hi2 as [Hi2 ->]. replace (Z.of_nat i) with n by lia. apply list_lookup_insert_eq. lia.
  - intros j y Hj. rewrite length_app. cbn [length]. destruct (decide (j = n mod cap)) as [->|Hne].
    + rewrite list_lookup_insert_eq by lia. intros [= <-]. exists n. split; [lia|]. split; [|split; [done|lia]].
      rewrite lookup_app_r by lia. by replace (Z.to_nat n - length hist)%nat with 0%nat by lia.
    + rewrite list_lookup_insert_ne by lia. intros Hy. destruct (so_only _ _ Hs j y Hj Hy) as (q & H0 & Hq & Hqj & Hge). fold cap in Hqj, Hge.
      exists q. split; [done|]. split; [by apply lookup_app_l_Some|]. split; [done|].
      destruct (decide (q = n - cap)) as [->|]; [|lia]. exfalso. apply Hne. rewrite <-Hqj.
      replace n with (n - cap + 1 * cap) at 2 by lia. symmetry. apply Z.mod_add. lia.
Qed.

(** The state of the two threads over the history of what was stored. *)
Record bus_inv (cap : Z) (s : Bus) (hist : list T) : Prop := {
  bi_cap : Broadcast_capacity (bu_ring s) = cap;
  bi_slots : slots_of (bu_ring s) hist;
  bi_sending : match bu_sending s with
    | None => b_write_pos (bu_ring s) = Z.of_nat (length hist)
    | Some (pos, _) => pos = Z.of_nat (length hist) ∧ b_write_pos (bu_ring s) = Z.of_nat (length hist) + 1
    end;
  bi_cursor : 0 <= bu_cursor s <= b_write_pos (bu_ring s);
  bi_reading : match bu_pc s with
    | SubIdle => True
    | SubReading pos head items =>
        let start := Z.max (bu_cursor s) (head - cap) in
        start <= pos <= head ∧ bu_cursor s <= head ∧ head <= b_write_pos (bu_ring s) ∧
        (∃ ps, sublist ps (seqZ start (pos - start)) ∧ Forall2 (from_slot cap hist) ps items) ∧
        (bu_quiet s = true → bu_sending s = None ∧ head = Z.of_nat (length hist) ∧ items = items_between start pos hist)
    end;
  bi_polls : Forall (poll_ok cap hist) (bu_polls s);
  bi_chain : chained 0 (bu_polls s) ∧ last_head 0 (bu_polls s) = bu_cursor s;
}.

Lemma bi_head cap s hist : bus_inv cap s hist → Z.of_nat (length hist) <= b_write_pos (bu_ring s) <= Z.of_nat (length hist) + 1 ∧
  (bu_sending s = None → b_write_pos (bu_ring s) = Z.of_nat (length hist)).
Proof. intros [_ _ Hs _ _ _ _]. destruct (bu_sending s) as [[pos x]|]; [destruct Hs|]; (split; [lia|done || lia]). Qed.

(** A publisher's step ends the quiet of a poll under way. *)
Lemma reserve_inv cap s hist x : bus_inv cap s hist → bu_sending s = None → Z.of_nat (length hist) + 1 < 2 ^ 64 →
  ∃ s', bus_step s (EvReserve x) = Some s' ∧ bus_inv cap s' hist ∧ bu_sending s' = Some (Z.of_nat (length hist), x).
Proof.
  intros Hi Hn Hlen. destruct (bi_head _ _ _ Hi) as [_ Hw]. specialize (Hw Hn). cbn [bus_step]. rewrite Hn.
  eexists. split; [done|]. cbn [send_reserve bu_sending]. split; [|by rewrite Hw].
  destruct Hi as [Hc Hs Hsend Hcur Hr Hp Hch]. unfold send_reserve, wrapping_add. rewrite wrap_small by (unfold in_width; lia).
  split; cbn [bu_ring bu_sending bu_cursor bu_pc bu_quiet bu_polls b_write_pos]; try done.
  - by destruct Hs.
  - lia.
  - lia.
  - destruct (bu_pc s) as [|pos head items]; [done|]. destruct Hr as (H1 & H2 & H3 & H4 & _). cbn zeta.
    split; [done|]. split; [done|]. split; [lia|]. by split.
Qed.

Lemma store_inv cap s hist pos x : bus_inv cap s hist → bu_sending s = Some (pos, x) →
  ∃ s', bus_step s EvStore = Some s' ∧ bus_inv cap s' (hist ++ [x]) ∧ bu_sending s' = None.
Proof.
  intros Hi Hn. cbn [bus_step]. rewrite Hn. destruct Hi as [Hc Hs Hsend Hcur Hr Hp Hch]. rewrite Hn in Hsend. destruct Hsend as [-> Hw].
  destruct (slots_of_cap _ _ Hs) as [Hc2 _]. rewrite Hc in Hc2.
  destruct (slots_of_store _ _ x Hs) as (b' & -> & Hs' & Hc' & Hw'). cbn [mbind option_bind]. eexists. split; [done|]. split; [|done].
  split; cbn [bu_ring bu_sending bu_cursor bu_pc bu_quiet bu_polls]; try done.
  - by rewrite Hc'.
  - rewrite Hw', Hw, length_app. cbn. lia.
  - by rewrite Hw'.
  - destruct (bu_pc s) as [|pos head items]; [done|]. destruct Hr as (H1 & H2 & H3 & (ps & H4 & H5) & _).
    split; [done|]. split; [done|]. split; [by rewrite Hw'|]. split; [|done]. exists ps. split; [done|]. eapply Forall2_impl; [exact H5|]. intros; by apply from_slot_app.
  - eapply Forall_impl; [exact Hp|]. intros o Ho. by apply poll_ok_app.
Qed.

Lemma bus_poll_inv cap s hist : bus_inv cap s hist → ∃ s', bus_step s EvPoll = Some s' ∧ bus_inv cap s' hist ∧ bu_sending s' = bu_sending s.
Proof.
  intros Hi. cbn [bus_step]. destruct (bu_pc s) as [|pos head items] eqn:Epc; [|by exists s].
  destruct (bi_head _ _ _ Hi) as [Hh Hidle]. pose proof Hi as [Hc Hs Hsend Hcur Hr Hp [Hch Hlast]].
  destruct (slots_of_cap _ _ Hs) as [Hc2 _]. rewrite Hc in Hc2. unfold position, idle_sending.
  destruct (Z.leb_spec (b_write_pos (bu_ring s)) (bu_cursor s)) as [Hle|Hlt].
  - eexists. split; [done|]. split; [|done].
    assert (Hq : bu_sending s = None → bu_cursor s <= Z.of_nat (length hist)) by (intros E; specialize (Hidle E); lia).
    set (o := mkPollOut (bu_cursor s) (bu_cursor s) [] _).
    assert (Ho : poll_ok cap hist o).
    { split; cbn [po_cursor po_head po_items po_quiet o].
      - lia.
      - intros E. split; [apply Hq; by destruct (bu_sending s)|]. unfold po_start, items_between. cbn [po_cursor po_head o].
        replace (Z.to_nat _) with 0%nat; [done|]. unfold po_start. cbn. lia.
      - exists []. split; [apply sublist_nil_l|constructor]. }
    destruct (chained_snoc o (bu_polls s) 0 Hch) as [Hch' Hl']; [done|].
    split; cbn [bu_ring bu_sending bu_cursor bu_pc bu_quiet bu_polls]; try done.
    apply Forall_app. split; [done|]. by apply Forall_singleton.
  - rewrite Hc. eexists. split; [done|]. split; [|done].
    split; cbn [bu_ring bu_sending bu_cursor bu_pc bu_quiet bu_polls]; try done. cbn zeta.
    replace (if cap <? b_write_pos (bu_ring s) - bu_cursor s then b_write_pos (bu_ring s) - cap else bu_cursor s)
      with (Z.max (bu_cursor s) (b_write_pos (bu_ring s) - cap)) by (destruct (Z.ltb_spec cap (b_write_pos (bu_ring s) - bu_cursor s)); lia).
    set (start := Z.max _ _). split; [unfold start; lia|]. split; [lia|]. split; [lia|]. rewrite Z.sub_diag. split.
    + exists []. split; [apply sublist_nil_l|constructor].
    + intros E. destruct (bu_sending s); [done|]. split_and!; [done|by apply Hidle|]. unfold items_between. by rewrite Z.sub_diag.
Qed.

(** The read of one slot: what it holds comes from the slot's history. *)
Lemma bus_slot cap b hist pos : Broadcast_capacity b = cap → slots_of b hist → 0 <= pos → pos <= Z.of_nat (length hist) →
  ∃ slot, b_slots b !! Z.to_nat (Z.land pos (b_mask b)) = Some slot ∧
    (∀ x, slot = Some x → from_slot cap hist pos x) ∧
    (∀ y, hist !! Z.to_nat pos = Some y → Z.of_nat (length hist) - cap <= pos → slot = Some y).
Proof.
  intros <- Hs H0 Hle. destruct (slots_of_cap _ _ Hs) as (Hc & Hland & Hl). rewrite Hland.
  pose proof (Z.mod_pos_bound pos (Broadcast_capacity b) ltac:(lia)) as Hm.
  destruct (lookup_lt_is_Some_2 (b_slots b) (Z.to_nat (pos mod Broadcast_capacity b)) ltac:(lia)) as [slot Hslot].
  exists slot. split; [done|]. split.
  - intros x ->. destruct (so_only _ _ Hs _ _ Hm Hslot) as (q & Hq0 & Hq & Hmod & Hge). exists q. split_and!; try done. lia.
  - intros y Hy Hge. pose proof (so_held _ _ Hs (Z.to_nat pos) y Hy ltac:(lia)) as Hh. rewrite Z2Nat.id in Hh by lia. congruence.
Qed.

Lemma read_inv cap s hist : bus_inv cap s hist → ∃ s', bus_step s EvRead = Some s' ∧ bus_inv cap s' hist ∧ bu_sending s' = bu_sending s.
Proof.
  intros Hi. cbn [bus_step]. destruct (bu_pc s) as [|pos head items] eqn:Epc; [by exists s|].
  destruct (bi_head _ _ _ Hi) as [Hh Hidle]. pose proof Hi as [Hc Hs Hsend Hcur Hr Hp [Hch Hlast]]. rewrite Epc in Hr.
  cbn zeta in Hr. set (start := Z.max (bu_cursor s) (head - cap)) in *.
  destruct Hr as (H1 & H2 & H3 & (ps & Hps & HF) & Hq).
  destruct (Z.ltb_spec pos head) as [Hlt|Hge].
  - destruct (bus_slot cap (bu_ring s) hist pos Hc Hs) as (slot & -> & Hfrom & Hexact); [lia|lia|]. cbn [mbind option_bind].
    eexists. split; [done|]. split; [|done]. split; cbn [bu_ring bu_sending bu_cursor bu_pc bu_quiet bu_polls]; try done.
    cbn zeta. fold start. split; [lia|]. split; [lia|]. split; [lia|]. split.
    + assert (Hseq : seqZ start (pos + 1 - start) = seqZ start (pos - start) ++ [pos]).
      { replace (pos + 1 - start) with (pos - start + 1) by lia. rewrite seqZ_app by lia. replace (start + (pos - start)) with pos by lia. by rewrite (seqZ_cons pos 1) by lia. }
      rewrite Hseq. destruct slot as [x|].
      * exists (ps ++ [pos]). split; [|apply Forall2_app; [done|repeat constructor; by apply Hfrom]].
        by apply sublist_app.
      * exists ps. rewrite app_nil_r. split; [|done]. by apply sublist_inserts_r.
    + intros E. destruct (Hq E) as (Hn & Hhd & Hit). split_and!; [done|done|].
      destruct (lookup_lt_is_Some_2 hist (Z.to_nat pos) ltac:(lia)) as [y Hy]. rewrite (Hexact y Hy ltac:(lia)).
      rewrite (items_between_snoc _ _ _ y); [by rewrite Hit|lia|done].
  - eexists. split; [done|]. split; [|done]. assert (pos = head) as -> by lia.
    set (o := mkPollOut (bu_cursor s) head items (bu_quiet s)).
    assert (Ho : poll_ok cap hist o).
    { split; cbn [po_cursor po_head po_items po_quiet o].
      - lia.
      - intros E. destruct (Hq E) as (Hn & Hhd & Hit). split; [lia|]. exact Hit.
      - by exists ps. }
    destruct (chained_snoc o (bu_polls s) 0 Hch) as [Hch' Hl']; [done|].
    split; cbn [bu_ring bu_sending bu_cursor bu_pc bu_quiet bu_polls]; try done; [lia|].
    apply Forall_app. split; [done|]. by apply Forall_singleton.
Qed.

(** Any interleaving. *)
Lemma run_events_inv cap evs : ∀ s hist, bus_inv cap s hist →
  Z.of_nat (length hist + reserve_count evs) + (if idle_sending s then 0 else 1) < 2 ^ 64 →
  ∃ s', run_events evs s = Some s' ∧ bus_inv cap s' (hist ++ stored evs (snd <$> bu_sending s)).
Proof.
  induction evs as [|ev evs IH]; intros s hist Hi Hlen; cbn [run_events stored]; [exists s; by rewrite app_nil_r|].
  unfold idle_sending in *. destruct ev as [x| | |].
  - cbn [reserve_count] in Hlen.
    destruct (bu_sending s) as [[pos y]|] eqn:En.
    + cbn [bus_step]. rewrite En. cbn [mbind option_bind]. destruct (IH s hist Hi) as (s' & E & Hi'); [rewrite En; lia|].
      rewrite En in Hi'. by exists s'.
    + destruct (reserve_inv cap s hist x Hi En) as (s1 & -> & Hi1 & En1); [lia|]. cbn [mbind option_bind].
      destruct (IH s1 hist Hi1) as (s' & E & Hi'); [rewrite En1; lia|]. rewrite En1 in Hi'. by exists s'.
  - cbn [reserve_count] in Hlen.
    destruct (bu_sending s) as [[pos y]|] eqn:En.
    + destruct (store_inv cap s hist pos y Hi En) as (s1 & -> & Hi1 & En1). cbn [mbind option_bind fmap option_fmap option_map snd].
      destruct (IH s1 (hist ++ [y]) Hi1) as (s' & E & Hi'); [rewrite En1, length_app; cbn; lia|]. rewrite En1, <-app_assoc in Hi'. by exists s'.
    + cbn [bus_step]. rewrite En. cbn [mbind option_bind]. destruct (IH s hist Hi) as (s' & E & Hi'); [rewrite En; lia|].
      rewrite En in Hi'. by exists s'.
  - cbn [reserve_count] in Hlen.
    destruct (bus_poll_inv cap s hist Hi) as (s1 & -> & Hi1 & En). cbn [mbind option_bind]. rewrite <-En in *. by apply IH.
  - cbn [reserve_count] in Hlen.
    destruct (read_inv cap s hist Hi) as (s1 & -> & Hi1 & En). cbn [mbind option_bind]. rewrite <-En in *. by apply IH.
Qed.

(** Quiet polls that were not overtaken deliver the history piece by piece. *)
Lemma quiet_polls_concat cap hist polls : ∀ cursor, 0 <= cursor → chained cursor polls → Forall (poll_ok cap hist) polls →
  Forall (fun o => po_quiet o = true ∧ po_head o - po_cursor o <= cap) polls →
  mjoin (po_items <$> polls) = items_between cursor (last_head cursor polls) hist ∧ cursor <= last_head cursor polls.
Proof.
  unfold last_head. induction polls as [|o polls IH]; intros cursor H0 Hch Hok Hq; cbn [fmap list_fmap mjoin list_join chained foldl] in *.
  { split; [|lia]. unfold items_between. by rewrite Z.sub_diag. }
  destruct Hch as [Hc Hch]. apply Forall_cons in Hok as [[H1 H2 _] Hok]. apply Forall_cons in Hq as [[Hqo Hcap] Hq].
  destruct (H2 Hqo) as [_ Hit]. destruct (IH (po_head o) ltac:(lia) Hch Hok Hq) as [E Hle].
  split; [|lia].
  etrans; [|apply (items_between_join cursor (po_head o)); lia]. rewrite <-E. f_equal.
  rewrite Hit. unfold po_start. rewrite Z.max_l by lia. by rewrite Hc.
Qed.

(** ** Theorem *)


End bus.

Arguments BusEvent T : clear implicits.

(** ** Witnesses *)

(** A capacity of two: an item polled after its send, then two polls that fall into a
    send, the second of them after one lap. *)
Definition demo_events : list (BusEvent Z) :=
  [EvReserve 1; EvStore; EvPoll; EvRead; EvRead; EvReserve 2; EvPoll; EvStore; EvRead; EvRead;
   EvReserve 3; EvPoll; EvRead; EvRead; EvStore].

