(* ===== verification/Daemon.v ===== *)
(** * The daemon: shared context, start-up and the control socket

    [desmos-core daemon/mod.rs], the start-up part of [runner.rs], the commands of [ipc.rs], on the engine, the client registry,
    the logger and the configuration of the other files.  Files, signals and
    sockets are arguments: the content of a key file, the shutdown flag as a field,
    a line of the control socket. *)

From stdpp Require Import base gmap numbers strings list.
From Stdlib Require Import ZArith Lia.
From S2P Require Import Prelude Str Wire Score Strategy Engine Crypto Session Clients Pipeline ServerLoop Http WebSocket Json Config Log.

(** ** [mod.rs] *)

Inductive TunnelState := TunnelDown | TunnelUp | TunnelDegraded.

Definition TunnelState_from_u8 (v : Z) : TunnelState :=
  if v =? 1 then TunnelUp else if v =? 2 then TunnelDegraded else TunnelDown.
(** [state as u8]. *)
Definition TunnelState_as_u8 (s : TunnelState) : Z := match s with TunnelDown => 0 | TunnelUp => 1 | TunnelDegraded => 2 end.
Definition TunnelState_as_str (s : TunnelState) : str :=
  match s with TunnelDown => lit "down" | TunnelUp => lit "up" | TunnelDegraded => lit "degraded" end.

(** The buses and sockets are left out: no command reads them.  [ctx_uptime] is
    what [started_at.elapsed().as_secs()] returns. *)
Record DaemonContext := mkContext {
  ctx_config : Config;
  ctx_engine : Engine DynStrategy;
  ctx_metrics : PipelineMetrics;
  ctx_tunnel_state : Z;
  ctx_uptime : Z;
  ctx_link_scores : gmap LinkId LinkScore;
  ctx_registry : option ClientRegistry }.

Definition tunnel_state (c : DaemonContext) : TunnelState := TunnelState_from_u8 (ctx_tunnel_state c).
Definition set_tunnel_state (s : TunnelState) (c : DaemonContext) : DaemonContext :=
  mkContext (ctx_config c) (ctx_engine c) (ctx_metrics c) (TunnelState_as_u8 s) (ctx_uptime c) (ctx_link_scores c) (ctx_registry c).
Definition set_engine (e : Engine DynStrategy) (c : DaemonContext) : DaemonContext :=
  mkContext (ctx_config c) e (ctx_metrics c) (ctx_tunnel_state c) (ctx_uptime c) (ctx_link_scores c) (ctx_registry c).
Definition set_registry (r : option ClientRegistry) (c : DaemonContext) : DaemonContext :=
  mkContext (ctx_config c) (ctx_engine c) (ctx_metrics c) (ctx_tunnel_state c) (ctx_uptime c) (ctx_link_scores c) r.
Definition set_config (cfg : Config) (c : DaemonContext) : DaemonContext :=
  mkContext cfg (ctx_engine c) (ctx_metrics c) (ctx_tunnel_state c) (ctx_uptime c) (ctx_link_scores c) (ctx_registry c).

(** ** Start-up ([runner.rs]) *)

Definition new_strategy (s : BondingStrategyName) : DynStrategy :=
  match s with
  | StrategyRoundRobin => DynRoundRobin RoundRobin_new
  | StrategyWeighted => DynWeighted Weighted_new
  | StrategyLatencyAdaptive => DynLatencyAdaptive LatencyAdaptive_new
  | StrategyRedundant => DynRedundant mkRedundant
  end.

Definition initial_strategy (c : Config) : DynStrategy :=
  match cl_bonding_strategy <$> c_client c with
  | Some s => new_strategy s
  | None => DynRoundRobin RoundRobin_new
  end.

(** [files] reads a key file. *)
Definition initial_registry (files : str → result bytes IoError) (c : Config) : option ClientRegistry :=
  match g_mode (c_general c) with
  | ModeServer =>
      srv ← c_server c;
      let key := match load_private_key (files (s_private_key_file srv)) with
                 | Ok key => key
                 | Err _ => mkPrivateKey (replicate 32 0)
                 end in
      Some (ClientRegistry_new key [] (lit "desmos-v1") (s_max_clients srv))
  | _ => None
  end.

Definition start_context (files : str → result bytes IoError) (c : Config) : DaemonContext :=
  mkContext c (Engine_new (initial_strategy c) []) PipelineMetrics_new (TunnelState_as_u8 TunnelDown) 0 ∅
    (initial_registry files c).

(** What the [match] on the mode runs, with the section it reads; its errors are
    those of the sections.  [parse_addr] is [SocketAddr]'s [FromStr]. *)
Inductive RunnerError := MissingClientSection | MissingServerSection | BadListenAddress (s : str) | MissingRegistry.
Inductive Role (A : Type) := RoleClient (c : ClientConfig) | RoleServer (listen : A) (r : ClientRegistry) | RoleP2p.
Arguments RoleClient {A} _.
Arguments RoleServer {A} _ _.
Arguments RoleP2p {A}.

Definition daemon_role {A} (parse_addr : str → option A) (ctx : DaemonContext) : result (Role A) RunnerError :=
  match g_mode (c_general (ctx_config ctx)) with
  | ModeClient =>
      match c_client (ctx_config ctx) with None => Err MissingClientSection | Some cl => Ok (RoleClient cl) end
  | ModeServer =>
      match c_server (ctx_config ctx) with
      | None => Err MissingServerSection
      | Some srv =>
          match parse_addr (s_listen srv) with
          | None => Err (BadListenAddress (s_listen srv))
          | Some listen =>
              match ctx_registry ctx with None => Err MissingRegistry | Some r => Ok (RoleServer listen r) end
          end
      end
  | ModeP2p => Ok RoleP2p
  end.

(** ** The control socket ([ipc.rs]) *)

(** The process: the context once it is set, the logger, the shutdown flag. *)
Record Process := mkProcess { pr_ctx : option DaemonContext; pr_logger : Logger; pr_shutdown : bool }.

Definition dq : str := [34].
(** A quoted word. *)
Definition jstr (s : str) : str := dq ++ s ++ dq.
Definition jfield (k : string) (v : str) : str := jstr (lit k) ++ lit ":" ++ v.
Definition jobject (fields : list str) : str := lit "{" ++ separated (lit ",") fields ++ lit "}".
Definition jarray (items : list str) : str := lit "[" ++ separated (lit ",") items ++ lit "]".
Definition jbool (b : bool) : str := if b then lit "true" else lit "false".

Definition ok_json (data : str) : str := jobject [jfield "ok" (lit "true"); jfield "data" data].
Definition error_json (msg : str) : str := jobject [jfield "ok" (lit "false"); jfield "error" (jstr msg)].

Definition trim_start : str → str := trim_start_by is_whitespace.

(** [find] and the slice behind the match are one [split_once]: both patterns are
    ASCII, so the offsets are character boundaries. *)
Definition extract_command (json_line : str) : option str :=
  '(_, rest) ← split_once (jstr (lit "command")) json_line;
  '(_, after_colon) ← split_once (lit ":") rest;
  value ← strip_prefix dq (trim_start after_colon);
  '(v, _) ← split_once dq value;
  Some v.

(** A field whose digits run to the end of the line is not found. *)
Definition extract_field_u16 (json_line : str) (field : str) : option Z :=
  '(_, rest) ← split_once (jstr field) json_line;
  '(_, after_colon) ← split_once (lit ":") rest;
  let '(digits, r) := span_digits (trim_start after_colon) in
  match r with [] => None | _ => parse_uint 16 digits end.

Definition not_running : str := error_json (lit "daemon not running").

Definition cmd_status (p : Process) : str :=
  match pr_ctx p with
  | Some ctx =>
      ok_json (jobject [jfield "tunnel_state" (jstr (TunnelState_as_str (tunnel_state ctx)));
                        jfield "uptime_s" (show_uint (ctx_uptime ctx));
                        jfield "strategy" (jstr (lit (Engine_current_strategy_name (ctx_engine ctx))));
                        jfield "link_count" (show_uint (Z.of_nat (length (Engine_links_snapshot (ctx_engine ctx)))))])
  | None => not_running
  end.

Definition cmd_down (p : Process) : str * Process :=
  (ok_json (jobject [jfield "shutdown" (lit "true")]), mkProcess (pr_ctx p) (pr_logger p) true).

Definition cmd_reload : str := ok_json (jobject [jfield "reloaded" (lit "true")]).

Definition cmd_config (p : Process) : str :=
  match pr_ctx p with
  | Some ctx =>
      let g := c_general (ctx_config ctx) in
      ok_json (jobject [jfield "mode" (jstr (mode_as_str (g_mode g))); jfield "tunnel_mtu" (show_uint (g_tunnel_mtu g))])
  | None => not_running
  end.

Definition cmd_bonding (p : Process) : str :=
  match pr_ctx p with
  | Some ctx =>
      ok_json (jobject [jfield "strategy" (jstr (lit (Engine_current_strategy_name (ctx_engine ctx))));
                        jfield "link_count" (show_uint (Z.of_nat (length (Engine_links_snapshot (ctx_engine ctx)))))])
  | None => not_running
  end.

Definition cmd_logs (p : Process) : str :=
  let entries := take 50 (rev (snapshot_ring (pr_logger p))) in
  ok_json (jobject [jfield "entries" (jarray ((fun e =>
    jobject [jfield "level" (jstr (Level_as_str (en_level e))); jfield "target" (jstr (en_target e));
             jfield "message" (jstr (en_msg e))]) <$> entries))]).

Definition cmd_interfaces (p : Process) : str :=
  match pr_ctx p with
  | Some ctx =>
      ok_json (jobject [jfield "interfaces" (jarray ((fun l =>
        jobject [jfield "name" (jstr (link_name l)); jfield "id" (show_uint (link_id l));
                 jfield "weight" (show_uint (link_weight l))]) <$> Engine_links_snapshot (ctx_engine ctx)))])
  | None => not_running
  end.

Definition cmd_clients_list (p : Process) : str :=
  match pr_ctx p with
  | Some ctx =>
      let ids := match ctx_registry ctx with Some reg => SessionTable_ids (cr_table reg) | None => [] end in
      ok_json (jobject [jfield "clients" (jarray ((fun id => jobject [jfield "id" (show_uint id)]) <$> ids));
                        jfield "count" (show_uint (Z.of_nat (length ids)))])
  | None => not_running
  end.

Definition cmd_clients_kick (line : str) (p : Process) : str * Process :=
  match extract_field_u16 line (lit "id") with
  | None => (error_json (lit "missing or invalid 'id' field"), p)
  | Some id =>
      match pr_ctx p with
      | Some ctx =>
          match ctx_registry ctx with
          | Some reg =>
              let '(reg, slot) := remove_client reg id in
              let removed := match slot with Some _ => true | None => false end in
              (ok_json (jobject [jfield "id" (show_uint id); jfield "kicked" (jbool removed)]),
               mkProcess (Some (set_registry (Some reg) ctx)) (pr_logger p) (pr_shutdown p))
          | None => (error_json (lit "daemon not in server mode"), p)
          end
      | None => (not_running, p)
      end
  end.

Definition cmd_stats (p : Process) : str :=
  match pr_ctx p with
  | Some ctx =>
      let snap := ctx_metrics ctx in
      let clients := match ctx_registry ctx with Some r => active_clients r | None => 0 end in
      ok_json (jobject [jfield "uptime_s" (show_uint (ctx_uptime ctx)); jfield "clients_connected" (show_uint clients);
                        jfield "total_bytes_in" (show_uint (bytes_received snap));
                        jfield "total_bytes_out" (show_uint (bytes_sent snap));
                        jfield "bonding_strategy" (jstr (lit (Engine_current_strategy_name (ctx_engine ctx))))])
  | None => not_running
  end.

Definition dispatch_command (line : str) (p : Process) : str * Process :=
  match extract_command line with
  | None => (error_json (lit "missing or invalid 'command' field"), p)
  | Some c =>
      if bool_decide (c = lit "status") then (cmd_status p, p)
      else if bool_decide (c = lit "down") then cmd_down p
      else if bool_decide (c = lit "reload") then (cmd_reload, p)
      else if bool_decide (c = lit "config") then (cmd_config p, p)
      else if bool_decide (c = lit "bonding") then (cmd_bonding p, p)
      else if bool_decide (c = lit "logs") then (cmd_logs p, p)
      else if bool_decide (c = lit "interfaces") then (cmd_interfaces p, p)
      else if bool_decide (c = lit "clients_list") then (cmd_clients_list p, p)
      else if bool_decide (c = lit "clients_kick") then cmd_clients_kick line p
      else if bool_decide (c = lit "stats") then (cmd_stats p, p)
      else (error_json (lit "unknown command: " ++ c), p)
  end.

(** The lines of a connection and the lines written back. *)
Fixpoint ipc_handle_connection (lines : list str) (p : Process) : list str * Process :=
  match lines with
  | [] => ([], p)
  | line :: lines =>
      match trim line with
      | [] => ipc_handle_connection lines p
      | _ =>
          let '(response, p) := dispatch_command line p in
          let '(out, p) := ipc_handle_connection lines p in
          (response :: out, p)
      end
  end.

(** *** The client's side ([desmos-cli ipc_client.rs], [commands/clients.rs]) *)

Definition command_line (command : str) : str := jobject [jfield "command" (jstr command)].

(** The argument of [clients kick]: the request, or the exit code. *)
Definition kick_request (id_str : str) : result str Z :=
  match parse_uint 16 id_str with
  | Some id => if id =? 0 then Err 64
               else Ok (jobject [jfield "command" (jstr (lit "clients_kick")); jfield "id" (show_uint id)])
  | None => Err 64
  end.

(** ** Properties *)

(** *** Key files *)

Definition hex_char (d : Z) : Z := if d <? 10 then 48 + d else 87 + d.
Definition show_hex (bs : bytes) : str := bs ≫= (fun b => [hex_char (b / 16); hex_char (b mod 16)]).

Lemma hex_byte_char d : 0 <= d < 16 → hex_byte (hex_char d) = Ok d.
Proof.
  intros Hd. unfold hex_byte, hex_char. destruct (Z.ltb_spec d 10).
  - rewrite (proj2 (Z.leb_le 48 _)), (proj2 (Z.leb_le _ 57)) by lia. cbn [andb]. f_equal. lia.
  - rewrite (proj2 (Z.leb_gt _ 57)), andb_false_r by lia. rewrite (proj2 (Z.leb_le 97 _)), (proj2 (Z.leb_le _ 102)) by lia.
    cbn [andb]. f_equal. lia.
Qed.

Lemma hex_char_range d : 0 <= d < 16 → 48 <= hex_char d <= 102.
Proof. unfold hex_char. destruct (Z.ltb_spec d 10); lia. Qed.

Lemma nibbles b : byte_ok b → 0 <= b / 16 < 16 ∧ 0 <= b mod 16 < 16 ∧ Z.lor (wrap 8 (Z.shiftl (b / 16) 4)) (b mod 16) = b.
Proof.
  unfold in_width. intros Hb. divmod b 16. split_and!; [lia..|].
  unfold wrap. rewrite Z.mod_small by (rewrite Z.shiftl_mul_pow2 by lia; lia). rewrite (lor_shiftl_add _ _ 4) by lia. lia.
Qed.

Lemma decode_show_hex bs : Forall byte_ok bs → decode_hex (show_hex bs) = Ok bs.
Proof.
  induction 1 as [|b bs Hb _ IH]; [done|]. destruct (nibbles b Hb) as (H1 & H2 & H3).
  change (show_hex (b :: bs)) with (hex_char (b / 16) :: hex_char (b mod 16) :: show_hex bs). cbn [decode_hex].
  rewrite !hex_byte_char by done. cbn [result_bind]. rewrite IH. cbn [result_bind]. by rewrite H3.
Qed.

Lemma show_hex_range bs : Forall byte_ok bs → Forall (fun c => 48 <= c <= 102) (show_hex bs).
Proof.
  induction 1 as [|b bs Hb _ IH]; [constructor|]. destruct (nibbles b Hb) as (H1 & H2 & _).
  change (show_hex (b :: bs)) with (hex_char (b / 16) :: hex_char (b mod 16) :: show_hex bs).
  constructor; [by apply hex_char_range|]. constructor; [by apply hex_char_range|done].
Qed.

Lemma show_hex_length bs : length (show_hex bs) = (2 * length bs)%nat.
Proof.
  induction bs as [|b bs IH]; [done|]. change (show_hex (b :: bs)) with (hex_char (b / 16) :: hex_char (b mod 16) :: show_hex bs).
  cbn [length]. lia.
Qed.

(** Trimming takes the newline off a word. *)
Lemma trim_word s ws : Forall (fun c => is_whitespace c = false) s → Forall (fun c => is_whitespace c = true) ws → s ≠ [] → trim (s ++ ws) = s.
Proof.
  intros Hs Hws Hne. unfold trim, trim_end_by.
  assert (trim_start_by is_whitespace (s ++ ws) = s ++ ws) as ->.
  { destruct Hs as [|c s Hc _]; [done|]. cbn [app trim_start_by]. by rewrite Hc. }
  rewrite rev_app_distr.
  assert (∀ l, Forall (fun c => is_whitespace c = true) l → ∀ r, trim_start_by is_whitespace (l ++ r) = trim_start_by is_whitespace r) as Hskip.
  { induction 1 as [|c l Hc _ IH]; intros r; [done|]. cbn [app trim_start_by]. by rewrite Hc. }
  rewrite Hskip by (by apply Forall_rev).
  assert (trim_start_by is_whitespace (rev s) = rev s) as ->; [|apply rev_involutive].
  assert (Forall (fun c => is_whitespace c = false) (rev s)) as Hr by (by apply Forall_rev).
  destruct (rev s) as [|c l]; [done|]. apply Forall_cons in Hr as [Hc _]. cbn [trim_start_by]. by rewrite Hc.
Qed.

Lemma load_hex_key bs : Forall byte_ok bs → length bs = 32%nat → load_private_key (Ok (show_hex bs ++ [10])) = Ok (mkPrivateKey bs).
Proof.
  intros Hb Hl. pose proof (show_hex_range bs Hb) as Hr. pose proof (show_hex_length bs) as Hlen.
  assert (is_ascii (show_hex bs)) as Ha by (eapply Forall_impl; [exact Hr|]; cbn; lia).
  unfold load_private_key. cbn [result_bind]. rewrite length_app, Hlen, Hl. cbn [Nat.mul Nat.add length Nat.eqb].
  rewrite from_utf8_ascii by (apply Forall_app; split; [done|by repeat constructor]).
  rewrite trim_word.
  - rewrite (str_len_ascii _ Ha), Hlen, Hl. cbn [Nat.mul Nat.add Nat.eqb negb]. unfold decode_hex_32.
    by rewrite (as_bytes_ascii _ Ha), (decode_show_hex bs Hb).
  - eapply Forall_impl; [exact Hr|]. intros c Hc. cbv beta in Hc. unfold is_whitespace.
    repeat (rewrite (proj2 (Z.eqb_neq c _)) by lia). rewrite (proj2 (Z.leb_gt c 13)), (proj2 (Z.leb_gt 8192 c)) by lia.
    by rewrite andb_false_r.
  - by repeat constructor.
  - destruct bs; [done|]. done.
Qed.

(** Both forms of a key file give the key: 32 raw bytes, or 64 hexadecimal digits
    and a newline. *)
Theorem key_file_roundtrip bs : Forall byte_ok bs → length bs = 32%nat →
  load_private_key (Ok bs) = Ok (mkPrivateKey bs) ∧ load_private_key (Ok (show_hex bs ++ [10])) = Ok (mkPrivateKey bs).
Proof. intros Hb Hl. split; [unfold load_private_key; cbn [result_bind]; by rewrite Hl|by apply load_hex_key]. Qed.

Lemma key_file_roundtrip_witness :
  load_private_key (Ok (replicate 32 171)) = Ok (mkPrivateKey (replicate 32 171)) ∧
  load_private_key (Ok (show_hex (replicate 32 171) ++ [10])) = Ok (mkPrivateKey (replicate 32 171)).
Proof. apply (key_file_roundtrip (replicate 32 171)); [apply Forall_replicate; unfold in_width; lia|reflexivity]. Defined.

(** *** Start-up *)

Definition configured_strategy (c : Config) : str :=
  match c_client c with Some cl => strategy_as_str (cl_bonding_strategy cl) | None => lit "round-robin" end.

Lemma initial_strategy_name c : lit (dyn_name (initial_strategy c)) = configured_strategy c.
Proof. unfold initial_strategy, configured_strategy. destruct (c_client c) as [cl|]; [|done]. cbn. by destruct (cl_bonding_strategy cl). Qed.

(** A validated configuration starts: the runner finds every section its mode needs
    and the registry, so the only error left is a listen address that does not
    parse, and the engine runs the configured strategy. *)
Theorem validated_config_starts {A} (parse_addr : str → option A) files c : config_ok c →
  (∀ e, daemon_role parse_addr (start_context files c) = Err e →
     ∃ srv, c_server c = Some srv ∧ parse_addr (s_listen srv) = None ∧ e = BadListenAddress (s_listen srv)) ∧
  lit (Engine_current_strategy_name (ctx_engine (start_context files c))) = configured_strategy c.
Proof.
  intros [_ _ _ _ Hm]. split; [|apply initial_strategy_name]. intros e. unfold mode_section_present in Hm.
  unfold daemon_role, start_context, initial_registry. cbn [ctx_config ctx_registry].
  destruct (g_mode (c_general c)); destruct Hm as [x Hx]; rewrite ?Hx; [done| |done].
  cbn [mbind option_bind]. destruct (parse_addr (s_listen x)) eqn:E; [done|]. intros [= <-]. eauto.
Qed.

Lemma validated_config_starts_witness :
  (∀ e, daemon_role (fun _ => Some 0) (start_context (fun _ => Err OtherError) demo_server_config) = Err e →
     ∃ srv, c_server demo_server_config = Some srv ∧ Some 0 = None ∧ e = BadListenAddress (s_listen srv)) ∧
  lit (Engine_current_strategy_name (ctx_engine (start_context (fun _ => Err OtherError) demo_server_config))) = lit "round-robin".
Proof. apply (validated_config_starts (fun _ => Some 0) (fun _ => Err OtherError) demo_server_config demo_server_config_ok). Defined.

(** A server whose key file cannot be read or decoded starts all the same, with the
    all-zero private key that everybody knows. *)
Theorem unreadable_key_is_zero files c srv e :
  g_mode (c_general c) = ModeServer → c_server c = Some srv → load_private_key (files (s_private_key_file srv)) = Err e →
  ∃ r, ctx_registry (start_context files c) = Some r ∧ cr_static_key r = mkPrivateKey (replicate 32 0) ∧ cr_known_clients r = [].
Proof.
  intros Hm Hs He. unfold start_context, initial_registry. cbn [ctx_registry]. rewrite Hm, Hs. cbn [mbind option_bind]. rewrite He.
  by eexists.
Qed.

Lemma unreadable_key_is_zero_witness :
  ∃ r, ctx_registry (start_context (fun _ => Err OtherError) demo_server_config) = Some r ∧
       cr_static_key r = mkPrivateKey (replicate 32 0) ∧ cr_known_clients r = [].
Proof.
  apply (unreadable_key_is_zero (fun _ => Err OtherError) demo_server_config
    (mkServer (lit "0.0.0.0:4433") (lit "pk") (lit "/etc/key") 10 (mkAuthSection MethodPsk (Some (lit "secret")) None None None)) OtherError);
    reflexivity.
Defined.

(** *** The control socket *)

(** The command of a request line is found, whatever the other fields. *)
Lemma extract_command_line cmd rest : 34 ∉ cmd →
  extract_command (lit "{" ++ jfield "command" (jstr cmd) ++ rest) = Some cmd.
Proof.
  intros Hc.
  assert (lit "{" ++ jfield "command" (jstr cmd) ++ rest = lit "{" ++ jstr (lit "command") ++ lit ":" ++ dq ++ (cmd ++ dq ++ rest)) as ->
    by (unfold jfield, jstr; cbn [app]; by rewrite <- !app_assoc).
  pose proof (split_once_first 34 [] cmd rest Hc) as Hs. change ([34] ++ rest) with (dq ++ rest) in Hs.
  generalize dependent (cmd ++ dq ++ rest). intros t Hs. transitivity ('(v, _) ← split_once dq t; Some v); [reflexivity|].
  unfold dq. by rewrite Hs.
Qed.

Definition kick_prefix : str := lit "{" ++ jfield "command" (jstr (lit "clients_kick")) ++ lit "," ++ jstr (lit "id") ++ lit ":".

Lemma kick_request_line id : 0 < id < 2 ^ 16 → kick_request (show_uint id) = Ok (kick_prefix ++ show_uint id ++ lit "}").
Proof.
  intros Hid. unfold kick_request. rewrite (parse_show_uint 16) by (unfold umax; lia). rewrite (proj2 (Z.eqb_neq id 0)) by lia.
  f_equal. unfold jobject, kick_prefix, separated. cbn [mbind list_bind]. unfold jfield at 2. rewrite app_nil_r, <- !app_assoc. done.
Qed.

Lemma extract_kick_id id : 0 < id < 2 ^ 16 → extract_field_u16 (kick_prefix ++ show_uint id ++ lit "}") (lit "id") = Some id.
Proof.
  intros Hid. transitivity (let '(digits, r) := span_digits (trim_start (show_uint id ++ lit "}")) in
                            match r with [] => None | _ => parse_uint 16 digits end).
  { generalize (show_uint id ++ lit "}"). intros t. reflexivity. }
  assert (trim_start (show_uint id ++ lit "}") = show_uint id ++ lit "}") as ->.
  { destruct (show_uint_value id) as (d & ds & -> & _ & Hall & _); [lia|]. apply Forall_cons in Hall as [Hd _].
    unfold trim_start. cbn [app trim_start_by]. unfold is_whitespace.
    repeat (rewrite (proj2 (Z.eqb_neq d _)) by lia). rewrite (proj2 (Z.leb_gt d 13)), (proj2 (Z.leb_gt 8192 d)) by lia.
    by rewrite andb_false_r. }
  rewrite span_digits_ok by (done || apply show_uint_digits; lia). apply parse_show_uint. unfold umax. lia.
Qed.

(** Kicking a client works end to end: the request the command line sends for an id
    makes the daemon remove exactly that session from the registry, and the answer
    says whether there was one. *)
Theorem ipc_kick_end_to_end id ctx reg logger sd : 0 < id < 2 ^ 16 → ctx_registry ctx = Some reg →
  ∃ line, kick_request (show_uint id) = Ok line ∧
    dispatch_command line (mkProcess (Some ctx) logger sd) =
    (ok_json (jobject [jfield "id" (show_uint id); jfield "kicked" (jbool (SessionTable_contains (cr_table reg) id))]),
     mkProcess (Some (set_registry (Some (set_table (SessionTable_remove (cr_table reg) id).1 reg)) ctx)) logger sd).
Proof.
  intros Hid Hreg. eexists. split; [by apply kick_request_line|]. unfold dispatch_command.
  assert (extract_command (kick_prefix ++ show_uint id ++ lit "}") = Some (lit "clients_kick")) as ->.
  { unfold kick_prefix. rewrite <- !app_assoc. apply extract_command_line. apply (bool_decide_unpack _). vm_compute. exact I. }
  repeat (rewrite bool_decide_false by discriminate). rewrite bool_decide_true by done.
  unfold cmd_clients_kick. rewrite (extract_kick_id id Hid). cbn [pr_ctx pr_logger pr_shutdown]. rewrite Hreg.
  unfold remove_client, SessionTable_remove, SessionTable_contains. cbn [fst].
  destruct (slots (cr_table reg) !! id) eqn:E; [rewrite bool_decide_true by eauto|rewrite bool_decide_false by (by intros [? ?])]; done.
Qed.

Definition demo_daemon_registry : ClientRegistry := ClientRegistry_new (mkPrivateKey (replicate 32 1)) [] (lit "desmos-v1") 10.
Definition demo_daemon : DaemonContext := set_registry (Some demo_daemon_registry) (start_context (fun _ => Err OtherError) demo_server_config).

Lemma ipc_kick_end_to_end_witness :
  ∃ line, kick_request (show_uint 17) = Ok line ∧
    (dispatch_command line (mkProcess (Some demo_daemon) Logger_new false)).1 =
    ok_json (jobject [jfield "id" (lit "17"); jfield "kicked" (lit "false")]).
Proof.
  destruct (ipc_kick_end_to_end 17 demo_daemon demo_daemon_registry Logger_new false) as (line & H1 & H2); [lia|reflexivity|].
  exists line. split; [exact H1|]. rewrite H2. vm_compute. reflexivity.
Defined.

(** The command [reload] reports success and changes nothing. *)
Example reload_does_nothing p :
  dispatch_command (command_line (lit "reload")) p = (ok_json (jobject [jfield "reloaded" (lit "true")]), p).
Proof. reflexivity. Qed.

(** An error message is not escaped, so the answer may not be JSON. *)
Example unknown_command_not_json p :
  decode (dispatch_command (command_line [92; 113]) p).1 = Some (Err (InvalidEscape 39)).
Proof. vm_compute. reflexivity. Qed.

(** An id at the very end of the line is not found. *)
Example trailing_id_not_found : extract_field_u16 (jfield "id" (lit "17")) (lit "id") = None.
Proof. reflexivity. Qed.
