(* ===== verification/Ipc.v ===== *)
(** * The control socket

    [crates/desmos-core/src/daemon/ipc.rs]: the listener, the accept loop and the
    connections of the daemon's control socket, on the bytes of the streams;
    [crates/desmos-cli/src/ipc_client.rs]: the client's side.  The commands themselves are
    those of the daemon's model.  A request and its answer are lines: the proofs say when
    the client reads exactly what the daemon answered. *)

From stdpp Require Import base gmap numbers strings list.
From Stdlib Require Import ZArith Lia.
From S2P Require Import Prelude Str Strategy Engine Crypto Session Clients Pipeline Config Log Daemon.

(** ** [BufRead::lines] *)

(** What a stream delivers: bytes, then its end or an error such as the timeout of a read
    on a stream that stays open. *)
Record Stream := mkStream { sm_data : bytes; sm_error : option IoError }.

Definition strip_cr (rev_line : bytes) : bytes := match rev_line with 13 :: l => reverse l | l => reverse l end.

(** The lines, each without its line feed and a carriage return before it; [cur] is the
    line so far, reversed.  The last line counts without a line feed when the stream ends
    there; an error loses it. *)
Fixpoint raw_lines (cur : bytes) (err : option IoError) (b : bytes) : list (result bytes IoError) :=
  match b with
  | [] => match err, cur with
          | Some e, _ => [Err e]
          | None, [] => []
          | None, _ => [Ok (reverse cur)]
          end
  | c :: b => if c =? 10 then Ok (strip_cr cur) :: raw_lines [] err b else raw_lines (c :: cur) err b
  end.

(** Bytes that are not UTF-8 are an error too. *)
Definition decode_line (l : result bytes IoError) : result str IoError :=
  let? b := l in match from_utf8 b with Some s => Ok s | None => Err InvalidData end.
Definition stream_lines (s : Stream) : list (result str IoError) := decode_line <$> raw_lines [] (sm_error s) (sm_data s).

(** ** [daemon/ipc.rs] *)

Definition SOCKET_PATH : str := lit "/var/run/desmos.sock".

(** [handle_connection]: the answers written, of which the peer takes [writes]. *)
Fixpoint handle_lines (lines : list (result str IoError)) (writes : nat) (p : Process) : list str * Process :=
  match lines with
  | [] => ([], p)
  | Err _ :: _ => ([], p)
  | Ok line :: lines =>
      match trim line with
      | [] => handle_lines lines writes p
      | _ =>
          let '(response, p) := dispatch_command line p in
          match writes with
          | O => ([], p)
          | S writes => let '(out, p) := handle_lines lines writes p in (response :: out, p)
          end
      end
  end.
Definition ipc_handle_stream (s : Stream) (writes : nat) (p : Process) : list str * Process := handle_lines (stream_lines s) writes p.

(** What a turn of the accept loop finds; a signal may come at any time. *)
Inductive Accept := AcceptConn (s : Stream) (writes : nat) | AcceptNone | AcceptSignal.

(** The answers on each connection, and whether the loop has ended. *)
Fixpoint ipc_accept_loop (accepts : list Accept) (p : Process) : list (list str) * Process * bool :=
  if pr_shutdown p then ([], p, true)
  else
    match accepts with
    | [] => ([], p, false)
    | AcceptConn s writes :: accepts =>
        let '(out, p) := ipc_handle_stream s writes p in
        let '(outs, p, done) := ipc_accept_loop accepts p in (out :: outs, p, done)
    | AcceptNone :: accepts => ipc_accept_loop accepts p
    | AcceptSignal :: accepts => ipc_accept_loop accepts (mkProcess (pr_ctx p) (pr_logger p) true)
    end.

(** [spawn_ipc_server] with the whole life of its thread: [fs] are the paths that exist,
    [remove_ok] whether files can be removed, [bind] and [nonblocking] the outcomes. *)
Definition spawn_ipc_server (path : option str) (remove_ok : bool) (bind nonblocking : result () IoError) (accepts : list Accept)
    (fs : gset str) (p : Process) : gset str * list (list str) * Process * result bool IoError :=
  let path := default SOCKET_PATH path in
  let remove (fs : gset str) := if remove_ok then fs ∖ {[path]} else fs in
  let fs := if decide (path ∈ fs) then remove fs else fs in
  match bind with
  | Err e => (fs, [], p, Err e)
  | Ok _ =>
      let fs := {[path]} ∪ fs in
      match nonblocking with
      | Err e => (fs, [], p, Err e)
      | Ok _ =>
          let '(outs, p, done) := ipc_accept_loop accepts p in
          (if done then remove fs else fs, outs, p, Ok done)
      end
  end.

(** ** [ipc_client.rs] *)

(** Not found, or refused. *)
Definition no_daemon (e : IoError) : bool := match e with NotFound => true | OsError c => (c =? 2) || (c =? 111) | _ => false end.

(** [show] is the [Display] of an error, [reply] what the stream delivers after the
    request was written.  The bytes sent, and the line or the message. *)
Record ClientEnv := mkClientEnv {
  ie_show : IoError → str;
  ie_connect : result () IoError;
  ie_read_timeout : result () IoError;
  ie_write_timeout : result () IoError;
  ie_write : result () IoError;
  ie_flush : result () IoError;
}.

Definition send_raw (env : ClientEnv) (reply : Stream) (json_line : str) : bytes * result str str :=
  match ie_connect env with
  | Err e => ([], Err (if no_daemon e then lit "daemon not running " ++ [8212] ++ lit " start with `desmos up`"
                       else lit "IPC connect error: " ++ ie_show env e))
  | Ok _ =>
  match ie_read_timeout env with
  | Err e => ([], Err (lit "IPC timeout: " ++ ie_show env e))
  | Ok _ =>
  match ie_write_timeout env with
  | Err e => ([], Err (lit "IPC timeout: " ++ ie_show env e))
  | Ok _ =>
  match ie_write env with
  | Err e => ([], Err (lit "IPC write: " ++ ie_show env e))
  | Ok _ =>
  match ie_flush env with
  | Err e => ([], Err (lit "IPC flush: " ++ ie_show env e))
  | Ok _ =>
      (as_bytes json_line ++ [10],
       match stream_lines reply with
       | [] => Err (lit "no response from daemon")
       | Err e :: _ => Err (lit "IPC read: " ++ ie_show env e)
       | Ok line :: _ => Ok line
       end)
  end end end end end.

Definition send_command_with_json (env : ClientEnv) (reply : Stream) (json_line : str) : bytes * result str str := send_raw env reply json_line.
Definition send_command_to (env : ClientEnv) (reply : Stream) (command : str) : bytes * result str str :=
  send_raw env reply (command_line command).

(** The bytes the daemon writes for its answers. *)
Definition written_answers (out : list str) : bytes := out ≫= fun r => as_bytes r ++ [10].

(** ** Lemmas *)

(** Text that is one line: scalar values, no line feed and no carriage return. *)
Definition line_char (c : char) : Prop := is_scalar c = true ∧ c ≠ 10 ∧ c ≠ 13.
Definition one_line (s : str) : Prop := Forall line_char s.

Lemma one_line_scalars s : one_line s → Forall (fun c => is_scalar c = true) s.
Proof. intros H. eapply Forall_impl; [exact H|]. by intros c []. Qed.

Lemma line_char_bytes c : line_char c → Forall (fun b => b ≠ 10 ∧ b ≠ 13) (encode_utf8 c).
Proof.
  intros (Hs%is_scalar_spec & H1 & H2). unfold encode_utf8. split_ifs; repeat constructor; try done.
  all: try (pose proof (Z.div_pos c 64); pose proof (Z.div_pos c 4096); pose proof (Z.div_pos c 262144);
            pose proof (Z.mod_pos_bound c 64); pose proof (Z.mod_pos_bound (c / 64) 64); pose proof (Z.mod_pos_bound (c / 4096) 64); lia).
Qed.

Lemma one_line_bytes s : one_line s → Forall (fun b => b ≠ 10 ∧ b ≠ 13) (as_bytes s).
Proof.
  induction 1 as [|c s Hc _ IH]; [constructor|]. rewrite as_bytes_cons. apply Forall_app. split; [by apply line_char_bytes|done].
Qed.

Lemma raw_lines_line l : ∀ cur err rest, Forall (fun b => b ≠ 10 ∧ b ≠ 13) l →
  raw_lines cur err (l ++ 10 :: rest) = Ok (strip_cr (reverse l ++ cur)) :: raw_lines [] err rest.
Proof.
  induction l as [|b l IH]; intros cur err rest Hl; cbn [app raw_lines]; [done|]. apply Forall_cons in Hl as [[Hb _] Hl].
  rewrite (proj2 (Z.eqb_neq _ _)) by done. rewrite IH by done. by rewrite reverse_cons, <-app_assoc.
Qed.

Lemma strip_cr_none l : Forall (fun b => b ≠ 10 ∧ b ≠ 13) l → strip_cr (reverse l ++ []) = l.
Proof.
  intros Hl%Forall_reverse. rewrite app_nil_r. unfold strip_cr. rewrite <-(reverse_involutive l) at 2.
  destruct (reverse l) as [|b r]; [done|]. apply Forall_cons in Hl as [[_ Hb] _].
  destruct b as [|b|b]; try done. do 4 (destruct b as [b|b|]; try done).
Qed.

(** A line written, then the rest of the stream. *)
Lemma stream_lines_line s rest err : one_line s →
  stream_lines (mkStream (as_bytes s ++ 10 :: rest) err) = Ok s :: stream_lines (mkStream rest err).
Proof.
  intros Hs. pose proof (one_line_bytes s Hs) as Hb. unfold stream_lines. cbn [sm_data sm_error]. rewrite raw_lines_line by done.
  rewrite strip_cr_none by done. cbn [fmap list_fmap decode_line result_bind]. by rewrite from_utf8_as_bytes by by apply one_line_scalars.
Qed.

Lemma lit_one_line s : forallb (fun c => (32 <=? c) && (c <? 127)) (lit s) = true → one_line (lit s).
Proof.
  intros H. apply Forall_forall. intros c Hc. apply forallb_forall with (x := c) in H; [|by apply list_elem_of_In].
  apply andb_true_iff in H as [H1%Z.leb_le H2%Z.ltb_lt]. split; [apply is_scalar_spec; lia|lia].
Qed.

Lemma show_uint_one_line n : 0 <= n → one_line (show_uint n).
Proof.
  intros Hn. eapply Forall_impl; [by apply show_uint_digits|]. cbn. intros c Hc. split; [apply is_scalar_spec; lia|lia].
Qed.

Lemma one_line_app a b : one_line (a ++ b) ↔ one_line a ∧ one_line b.
Proof. apply Forall_app. Qed.

Lemma bind_one_line {A} (l : list A) (f : A → str) : Forall (fun x => one_line (f x)) l → one_line (l ≫= f).
Proof. induction 1 as [|x l Hx _ IH]; [constructor|]. cbn. by apply one_line_app. Qed.

Lemma separated_one_line sep l : one_line sep → Forall one_line l → one_line (separated sep l).
Proof.
  intros Hs Hl. destruct Hl as [|s l H1 H2]; [constructor|]. cbn. apply one_line_app. split; [done|]. apply bind_one_line.
  eapply Forall_impl; [exact H2|]. intros x Hx. by apply one_line_app.
Qed.

Lemma dq_one_line : one_line dq.
Proof. by repeat constructor. Qed.
Lemma jstr_one_line s : one_line s → one_line (jstr s).
Proof. intros H. unfold jstr. rewrite !one_line_app. auto using dq_one_line. Qed.
Lemma jobject_one_line l : Forall one_line l → one_line (jobject l).
Proof. intros H. unfold jobject. rewrite !one_line_app. split_and!; try by apply lit_one_line. apply separated_one_line; [by apply lit_one_line|done]. Qed.
Lemma jarray_one_line l : Forall one_line l → one_line (jarray l).
Proof. intros H. unfold jarray. rewrite !one_line_app. split_and!; try by apply lit_one_line. apply separated_one_line; [by apply lit_one_line|done]. Qed.
Lemma jfield_one_line k v : one_line (lit k) → one_line v → one_line (jfield k v).
Proof. intros Hk Hv. unfold jfield. rewrite !one_line_app. split_and!; [by apply jstr_one_line|by apply lit_one_line|done]. Qed.
Lemma jbool_one_line b : one_line (jbool b).
Proof. destruct b; by apply lit_one_line. Qed.
Lemma ok_json_one_line d : one_line d → one_line (ok_json d).
Proof. intros H. apply jobject_one_line. apply Forall_cons_2; [|apply Forall_cons_2; [|apply Forall_nil_2]]; apply jfield_one_line; try done; by apply lit_one_line. Qed.
Lemma error_json_one_line m : one_line m → one_line (error_json m).
Proof. intros H. apply jobject_one_line. apply Forall_cons_2; [|apply Forall_cons_2; [|apply Forall_nil_2]]; apply jfield_one_line; try by apply lit_one_line. by apply jstr_one_line. Qed.

Create HintDb one_line.
#[export] Hint Resolve jstr_one_line jobject_one_line jarray_one_line jfield_one_line jbool_one_line ok_json_one_line error_json_one_line
  show_uint_one_line Forall_cons_2 Forall_nil_2 : one_line.
#[export] Hint Extern 1 (one_line (lit _)) => (apply lit_one_line; reflexivity) : one_line.
#[export] Hint Extern 2 (_ <= _) => lia : one_line.

(** What a process may put into an answer: names and messages of one line, numbers that are
    not negative. *)
Definition context_plain (ctx : DaemonContext) : Prop :=
  0 <= ctx_uptime ctx ∧ 0 <= g_tunnel_mtu (c_general (ctx_config ctx)) ∧
  0 <= bytes_received (ctx_metrics ctx) ∧ 0 <= bytes_sent (ctx_metrics ctx) ∧
  Forall (fun l => one_line (link_name l) ∧ 0 <= link_id l ∧ 0 <= link_weight l) (e_links (ctx_engine ctx)) ∧
  match ctx_registry ctx with Some reg => Forall (fun id => 0 <= id) (SessionTable_ids (cr_table reg)) ∧ 0 <= active_clients reg | None => True end.
Definition process_plain (p : Process) : Prop :=
  match pr_ctx p with Some ctx => context_plain ctx | None => True end ∧
  Forall (fun e => one_line (en_target e) ∧ one_line (en_msg e)) (snapshot_ring (pr_logger p)).

Lemma strategy_name_one_line (e : Engine DynStrategy) : one_line (lit (Engine_current_strategy_name e)).
Proof. unfold Engine_current_strategy_name. destruct (e_strategy e); by apply lit_one_line. Qed.
Lemma state_one_line s : one_line (TunnelState_as_str s).
Proof. destruct s; by apply lit_one_line. Qed.
Lemma mode_one_line m : one_line (mode_as_str m).
Proof. destruct m; by apply lit_one_line. Qed.
Lemma level_one_line l : one_line (Level_as_str l).
Proof. destruct l; by apply lit_one_line. Qed.
#[export] Hint Resolve strategy_name_one_line state_one_line mode_one_line level_one_line : one_line.

Lemma not_running_one_line : one_line not_running.
Proof. apply error_json_one_line. by apply lit_one_line. Qed.

Lemma fmap_one_line {A} (f : A → str) l (P : A → Prop) : Forall P l → (∀ x, P x → one_line (f x)) → Forall one_line (f <$> l).
Proof. intros Hl Hf. apply Forall_fmap. eapply Forall_impl; [exact Hl|]. exact Hf. Qed.

Lemma extract_command_one_line line c : one_line line → extract_command line = Some c → one_line c.
Proof.
  intros Hl. unfold extract_command. destruct (split_once (jstr (lit "command")) line) as [[a rest]|] eqn:E1; [|done]. cbn [mbind option_bind].
  destruct (split_once (lit ":") rest) as [[b after]|] eqn:E2; [|done]. cbn [mbind option_bind].
  destruct (strip_prefix dq (trim_start after)) as [v|] eqn:E3; [|done]. cbn [mbind option_bind].
  destruct (split_once dq v) as [[w r]|] eqn:E4; [|done]. cbn [mbind option_bind]. intros [= <-].
  apply split_once_spec in E1, E2, E4. subst line rest v. rewrite !one_line_app in Hl. destruct Hl as (_ & _ & _ & _ & Ha).
  assert (Ht : one_line (trim_start after)).
  { clear E3. unfold trim_start. induction Ha as [|x after Hx Ha IH]; cbn; [constructor|]. destruct (is_whitespace x); [done|by constructor]. }
  unfold dq in E3. destruct (trim_start after) as [|x t]; [done|]. cbn [strip_prefix] in E3. destruct (34 =? x); [|done]. injection E3 as ->.
  apply Forall_cons in Ht as [_ Ht]. apply one_line_app in Ht. apply Ht.
Qed.

Lemma parse_digits_nonneg w acc s v : 0 <= acc → parse_digits w 10 acc s = Some v → 0 <= v.
Proof.
  revert acc. induction s as [|c s IH]; intros acc Ha; cbn [parse_digits]; [by intros [= <-]|].
  destruct (to_digit 10 c) as [d|] eqn:E; [|done]. cbn [mbind option_bind]. destruct (_ <=? _); [|done]. apply IH.
  assert (0 <= d); [|lia]. unfold to_digit in E. revert E.
  destruct (Z.leb_spec 48 c), (Z.leb_spec c 57), (Z.leb_spec 97 c), (Z.leb_spec c 122), (Z.leb_spec 65 c), (Z.leb_spec c 90); cbn [andb];
    (case_match; [|done]); intros [= <-]; lia.
Qed.

Lemma parse_uint_nonneg w s v : parse_uint w s = Some v → 0 <= v.
Proof.
  unfold parse_uint, from_str_radix. intros E. repeat case_match; try done; by eapply parse_digits_nonneg.
Qed.

Lemma kick_one_line line p : one_line (cmd_clients_kick line p).1.
Proof.
  unfold cmd_clients_kick. destruct (extract_field_u16 line (lit "id")) as [id|] eqn:E; [|cbn [fst]; auto 10 with one_line].
  assert (0 <= id).
  { unfold extract_field_u16 in E. destruct (split_once _ _) as [[? ?]|]; [|done]. cbn in E. destruct (split_once _ _) as [[? ?]|]; [|done]. cbn in E.
    destruct (Json.span_digits _) as [ds [|c r]]; [done|]. by eapply parse_uint_nonneg. }
  destruct (pr_ctx p) as [ctx|]; [|apply not_running_one_line]. destruct (ctx_registry ctx); [|cbn [fst]; auto 10 with one_line].
  destruct (remove_client _ _) as [reg slot]. cbn [fst]. auto 10 with one_line.
Qed.

(** The answers read from the context. *)
Lemma context_answers_one_line ctx p : pr_ctx p = Some ctx → context_plain ctx →
  one_line (cmd_status p) ∧ one_line (cmd_config p) ∧ one_line (cmd_bonding p) ∧ one_line (cmd_interfaces p) ∧
  one_line (cmd_clients_list p) ∧ one_line (cmd_stats p).
Proof.
  intros Hp (H1 & H2 & H3 & H4 & H5 & H6). unfold cmd_status, cmd_config, cmd_bonding, cmd_interfaces, cmd_clients_list, cmd_stats. rewrite Hp.
  split_and!; auto 12 with one_line.
  - assert (Hl : Forall one_line ((fun l => jobject [jfield "name" (jstr (link_name l)); jfield "id" (show_uint (link_id l));
                 jfield "weight" (show_uint (link_weight l))]) <$> Engine_links_snapshot (ctx_engine ctx))); [|auto 12 with one_line].
    eapply fmap_one_line; [exact H5|]. intros x (Hx1 & Hx2 & Hx3). auto 12 with one_line.
  - set (ids := match ctx_registry ctx with Some reg => _ | None => _ end).
    assert (Hl : Forall one_line ((fun id => jobject [jfield "id" (show_uint id)]) <$> ids)); [|auto 12 with one_line].
    apply (fmap_one_line _ _ (fun id => 0 <= id)); [|intros; auto 12 with one_line]. unfold ids. destruct (ctx_registry ctx); [apply H6|constructor].
  - assert (0 <= match ctx_registry ctx with Some r => active_clients r | None => 0 end) by (destruct (ctx_registry ctx); [apply H6|lia]).
    auto 16 with one_line.
Qed.

Lemma logs_one_line p : Forall (fun e => one_line (en_target e) ∧ one_line (en_msg e)) (snapshot_ring (pr_logger p)) → one_line (cmd_logs p).
Proof.
  intros Hlog. unfold cmd_logs. set (es := take 50 _).
  assert (Hes : Forall (fun e => one_line (en_target e) ∧ one_line (en_msg e)) es).
  { unfold es. apply Forall_take. by apply Forall_rev. }
  assert (Hl : Forall one_line ((fun e => jobject [jfield "level" (jstr (Level_as_str (en_level e))); jfield "target" (jstr (en_target e));
             jfield "message" (jstr (en_msg e))]) <$> es)); [|auto 12 with one_line].
  eapply fmap_one_line; [exact Hes|]. intros x [Hx1 Hx2]. auto 12 with one_line.
Qed.

(** Every answer to a request of one line is one line. *)
Lemma response_one_line line p : one_line line → process_plain p → one_line (dispatch_command line p).1.
Proof.
  intros Hl [Hctx Hlog]. unfold dispatch_command. destruct (extract_command line) as [c|] eqn:Ec; [|cbn [fst]; auto 10 with one_line].
  pose proof (extract_command_one_line _ _ Hl Ec) as Hc.
  assert (Hans : one_line (cmd_status p) ∧ one_line (cmd_config p) ∧ one_line (cmd_bonding p) ∧ one_line (cmd_interfaces p) ∧
    one_line (cmd_clients_list p) ∧ one_line (cmd_stats p)).
  { destruct (pr_ctx p) as [ctx|] eqn:Ep; [by apply (context_answers_one_line ctx)|].
    unfold cmd_status, cmd_config, cmd_bonding, cmd_interfaces, cmd_clients_list, cmd_stats. rewrite Ep. auto 10 using not_running_one_line. }
  destruct Hans as (? & ? & ? & ? & ? & ?).
  repeat (case_bool_decide; [|]); cbn [fst]; try done; [..|by apply logs_one_line|by apply kick_one_line|].
  - unfold cmd_down. cbn [fst]. auto 12 with one_line.
  - unfold cmd_reload. auto 12 with one_line.
  - apply error_json_one_line. apply one_line_app. auto with one_line.
Qed.

(** On a stream without errors and a peer that reads, the connection is the one of the
    daemon's model. *)
Lemma handle_lines_connection lines : ∀ writes p, (length lines <= writes)%nat →
  handle_lines (Ok <$> lines) writes p = ipc_handle_connection lines p.
Proof.
  induction lines as [|line lines IH]; intros writes p Hw; [done|]. cbn [fmap list_fmap handle_lines ipc_handle_connection length] in *.
  destruct (trim line); [apply IH; lia|]. destruct (dispatch_command line p) as [r p1]. destruct writes as [|writes]; [lia|].
  rewrite IH by lia. done.
Qed.

Lemma command_line_one_line c : one_line c → one_line (command_line c).
Proof. intros H. unfold command_line. auto 12 with one_line. Qed.

(** ** Properties *)

(** C33: A request over the control socket, byte for byte.  When the client's connect,
    timeouts, write and flush succeed, the request is one non-blank line and the names and
    log messages the daemon holds are one line each, the daemon reads the request as it was
    sent, executes it once and writes one answer, and the client returns exactly that
    answer.  Both sides keep the socket open: whatever follows the bytes on either stream,
    its end, an error or the timeout of a read that waits for more ([end_d], [end_c]), the
    line feeds alone delimit the request and the answer. *)
Theorem ipc_request_roundtrip (env : ClientEnv) (line : str) (p : Process) (end_d end_c : option IoError)
  (Hconnect : ie_connect env = Ok ()) (Hrt : ie_read_timeout env = Ok ()) (Hwt : ie_write_timeout env = Ok ())
  (Hw : ie_write env = Ok ()) (Hfl : ie_flush env = Ok ()) (Hline : one_line line) (Hblank : trim line ≠ []) (Hp : process_plain p) :
  let '(response, p') := dispatch_command line p in
  ∃ sent, ipc_handle_stream (mkStream sent end_d) 1 p = ([response], p') ∧
          send_raw env (mkStream (written_answers [response]) end_c) line = (sent, Ok response).
Proof.
  pose proof (response_one_line line p Hline Hp) as Hr. destruct (dispatch_command line p) as [response p'] eqn:E. cbn [fst] in Hr.
  exists (as_bytes line ++ [10]). split.
  - unfold ipc_handle_stream. rewrite stream_lines_line by done. cbn [handle_lines]. destruct (trim line); [done|]. rewrite E.
    by destruct end_d.
  - unfold send_raw. rewrite Hconnect, Hrt, Hwt, Hw, Hfl. unfold written_answers. cbn [mbind list_bind]. rewrite app_nil_r.
    by rewrite stream_lines_line.
Qed.

(** [desmos down]: the connection that asks for it is answered, it is the last one the
    daemon accepts, and the socket is removed. *)
Theorem ipc_down_ends_server (path : option str) (accepts : list Accept) (fs : gset str) (p : Process) (Hrun : pr_shutdown p = false) :
  let '(fs', outs, p', r) := spawn_ipc_server path true (Ok ()) (Ok ())
      (AcceptConn (mkStream (as_bytes (command_line (lit "down")) ++ [10]) None) 1 :: accepts) fs p in
  outs = [[ok_json (jobject [jfield "shutdown" (lit "true")])]] ∧ pr_shutdown p' = true ∧ r = Ok true ∧ fs' = fs ∖ {[default SOCKET_PATH path]}.
Proof.
  unfold spawn_ipc_server. cbn [ipc_accept_loop]. rewrite Hrun. unfold ipc_handle_stream.
  rewrite stream_lines_line by (apply command_line_one_line; by apply lit_one_line).
  change (stream_lines (mkStream [] None)) with (@nil (result str IoError)).
  assert (E : handle_lines [Ok (command_line (lit "down"))] 1 p = ([(cmd_down p).1], (cmd_down p).2)) by reflexivity.
  rewrite E. cbn [fst snd cmd_down]. destruct accepts; cbn [ipc_accept_loop pr_shutdown];
    (split_and!; [done..|]); destruct (decide (default SOCKET_PATH path ∈ fs)); set_solver.
Qed.

(** ** Witnesses *)

Lemma ipc_request_roundtrip_witness :
  ∃ sent response p', ipc_handle_stream (mkStream sent (Some (OsError 104))) 1 (mkProcess None Logger_new false) = ([response], p') ∧
    send_raw (mkClientEnv (fun _ => []) (Ok ()) (Ok ()) (Ok ()) (Ok ()) (Ok ()))
      (mkStream (written_answers [response]) (Some TimedOut)) (command_line (lit "status")) = (sent, Ok response) ∧ response = not_running.
Proof.
  pose proof (ipc_request_roundtrip (mkClientEnv (fun _ => []) (Ok ()) (Ok ()) (Ok ()) (Ok ()) (Ok ())) (command_line (lit "status"))
    (mkProcess None Logger_new false) (Some (OsError 104)) (Some TimedOut) eq_refl eq_refl eq_refl eq_refl eq_refl) as H.
  destruct (dispatch_command (command_line (lit "status")) (mkProcess None Logger_new false)) as [response p'] eqn:E.
  destruct H as (sent & Hd & H).
  - apply command_line_one_line. apply lit_one_line. reflexivity.
  - vm_compute. discriminate.
  - split; [exact I|constructor].
  - exists sent, response, p'. split; [exact Hd|]. split; [exact H|]. vm_compute in E. injection E as <- _. reflexivity.
Defined.

Lemma ipc_down_ends_server_witness :
  let '(fs', _, _, r) := spawn_ipc_server None true (Ok ()) (Ok ())
      [AcceptConn (mkStream (as_bytes (command_line (lit "down")) ++ [10]) None) 1; AcceptNone] ∅ (mkProcess None Logger_new false) in
  r = Ok true ∧ fs' = ∅.
Proof.
  pose proof (ipc_down_ends_server None [AcceptNone] ∅ (mkProcess None Logger_new false) eq_refl) as H.
  destruct (spawn_ipc_server _ _ _ _ _ _ _) as [[[fs' outs] p'] r]. destruct H as (_ & _ & H1 & H2). split; [exact H1|]. rewrite H2. set_solver.
Defined.
