(* ===== verification/Tunnel.v ===== *)
(** * The tunnel's event loops

    [crates/desmos-core/src/daemon/client.rs]: the sockets and links of the
    configured interfaces, the handshake and the reactor loop of the client;
    [daemon/server_loop.rs]: the reactor loop of the server.  The kernel is given
    as queues of what successive reads return (an empty queue would block), the
    outcome of every send and the readiness each poll reports.  The whole path from
    the client's TUN to the server's is proved to carry packets exactly. *)

From stdpp Require Import base gmap numbers strings list.
From Stdlib Require Import ZArith Lia.
From S2P Require Import Prelude Str Wire AntiReplay Crypto Noise Session RateLimit Clients Strategy Engine Pipeline ServerLoop.
From S2P Require Import Config.

(** ** Sockets and links *)

(** A bound socket: its link and the device it is bound to. *)
Record SocketEntry := mkSocketEntry { se_link_id : LinkId; se_device : option str }.

(** [build_sockets] on Linux: [bind i dev] is the outcome of binding the socket of
    interface [i], on a device or not. *)
Fixpoint build_sockets (bind : nat → option str → result () IoError) (i : nat) (interfaces : list InterfaceConfig)
    : result (list SocketEntry) IoError :=
  match interfaces with
  | [] => Ok []
  | iface :: interfaces =>
      if negb (i_enabled iface) then build_sockets bind (S i) interfaces
      else
        let link_id := wrapping_add 32 (wrap 32 (Z.of_nat i)) 1 in
        let dev := match i_name iface with [] => None | name => Some name end in
        match bind i dev with
        | Err e => Err e
        | Ok _ =>
            let? out := build_sockets bind (S i) interfaces in
            Ok (mkSocketEntry link_id dev :: out)
        end
  end.

Definition DEFAULT_WEIGHT : Z := 10.

(** The links of the engine: weights are looked up by the position of the socket. *)
Definition build_links (interfaces : list InterfaceConfig) (server_addr : SocketAddr) (sockets : list SocketEntry)
    : list Link :=
  imap (fun i entry =>
          let weight := match interfaces !! i with Some ic => i_weight ic | None => DEFAULT_WEIGHT end in
          Link_new (se_link_id entry) (default (lit "default") (se_device entry)) server_addr weight) sockets.

(** [sockets.iter().find(|e| e.link_id == link_id)]. *)
Definition find_socket (sockets : list SocketEntry) (id : LinkId) : option SocketEntry :=
  List.find (fun e => se_link_id e =? id) sockets.

(** What setting up asks the system: addresses, the key file, sockets, the send of
    message 1, what the first socket receives until the deadline, time and
    randomness. *)
Record SetupEnv := mkSetupEnv {
  su_parse_addr : str → option SocketAddr;
  su_key_file : result bytes IoError;
  su_bind : nat → option str → result () IoError;
  su_bind_default : result () IoError;
  su_send : Datagram → result () IoError;
  su_inbox : list Datagram;
  su_now_ms : Z;
  su_rng : option bytes;
}.

Definition desmos_v1 : bytes := lit "desmos-v1".

Section Setup.
  Context {RC : RingCrypto} {XO : X25519Ops} {S : Type}.

(** The engine keeps the links even when the handshake fails. *)
Definition setup_sockets_and_handshake (cfg : ClientConfig) (engine : Engine S) (env : SetupEnv)
    : Engine S * result (list SocketEntry * Session Established) IoError :=
  match su_parse_addr env (cl_server cfg) with
  | None => (engine, Err InvalidInput)
  | Some server_addr =>
  match load_private_key (su_key_file env) with
  | Err e => (engine, Err e)
  | Ok private_key =>
  match parse_public_key_hex (cl_server_public_key cfg) with
  | Err e => (engine, Err e)
  | Ok server_pub =>
  match build_sockets (su_bind env) 0 (cl_interfaces cfg) with
  | Err e => (engine, Err e)
  | Ok sockets =>
  match (match sockets with
         | [] => match su_bind_default env with Err e => Err e | Ok _ => Ok [mkSocketEntry 1 None] end
         | _ => Ok sockets
         end) with
  | Err e => (engine, Err e)
  | Ok sockets =>
      let engine := Engine_swap_links engine (build_links (cl_interfaces cfg) server_addr sockets) in
      match client_handshake server_addr private_key server_pub CLIENT_SESSION_ID desmos_v1 (su_now_ms env) (su_rng env) with
      | Err e => (engine, Err e)
      | Ok (msg1, wait) =>
          match su_send env msg1 with
          | Err e => (engine, Err e)
          | Ok _ =>
              match wait (su_inbox env) with
              | Err e => (engine, Err e)
              | Ok session => (engine, Ok (sockets, session))
              end
          end
      end
  end end end end end.

End Setup.

(** ** The client's reactor loop *)

(** [EAGAIN], which [std] reports as [WouldBlock]. *)
Definition WouldBlock : IoError := OsError 11.

(** What successive reads of a descriptor return; at the end they would block. *)
Abbreviation Queue := (list (result bytes IoError)).

Section Loop.
  Context {RC : RingCrypto} {S : Type} `{BondingStrategy S}.

Record ClientState := mkClientState {
  cs_engine : Engine S;
  cs_session : Session Established;
  cs_metrics : PipelineMetrics;
  cs_scratch : bytes;
  cs_tun_in : Queue;
  cs_udp_in : list Queue;
  cs_sent : list Datagram;
  cs_written : list bytes;
  cs_published : list PipelineMetrics;
}.

(** The system's side of the loop: sends on a socket, writes to the TUN. *)
Record LoopEnv := mkLoopEnv {
  le_sockets : list SocketEntry;
  le_send : LinkId → Datagram → result () IoError;
  le_tun_send : bytes → result () IoError;
}.

Definition get_sock (env : LoopEnv) (id : LinkId) : option (Datagram → result () IoError) :=
  e ← find_socket (le_sockets env) id; Some (le_send env (se_link_id e)).

(** One call of the outbound stage on the read [r]. *)
Definition tun_stage (env : LoopEnv) (r : result bytes IoError) (st : ClientState)
    : panics (ClientState * result nat IoError) :=
  '(engine, session, metrics, scratch, ds, res) ←
    forward_tun_to_udp_bonded r (cs_engine st) (get_sock env) (cs_session st) (cs_scratch st) (cs_metrics st);
  Some (mkClientState engine session metrics scratch (cs_tun_in st) (cs_udp_in st) (cs_sent st ++ ds) (cs_written st)
          (cs_published st), res).

Definition set_tun_in (q : Queue) (st : ClientState) : ClientState :=
  mkClientState (cs_engine st) (cs_session st) (cs_metrics st) (cs_scratch st) q (cs_udp_in st) (cs_sent st) (cs_written st)
    (cs_published st).

(** The inner [loop] on the TUN, over the reads [q]: a result of zero or any error
    ends it.  A scratch buffer without room for a payload fails before the read. *)
Fixpoint drain_tun (env : LoopEnv) (q : Queue) (st : ClientState) : panics ClientState :=
  match q with
  | [] => '(st, _) ← tun_stage env (Err WouldBlock) st; Some (set_tun_in [] st)
  | r :: q' =>
      '(st', res) ← tun_stage env r st;
      let rest := if (length (cs_scratch st) <? HEADER_LEN + 1)%nat then q else q' in
      match res with
      | Ok (Datatypes.S _) => drain_tun env q' st'
      | _ => Some (set_tun_in rest st')
      end
  end.

(** One call of the inbound stage. *)
Definition udp_stage (env : LoopEnv) (r : result bytes IoError) (st : ClientState) : ClientState * result nat IoError :=
  let '(session, metrics, out, res) :=
    forward_udp_to_tun_encrypted r (le_tun_send env) (cs_session st) (length (cs_scratch st)) (cs_metrics st) in
  (mkClientState (cs_engine st) session metrics (cs_scratch st) (cs_tun_in st) (cs_udp_in st) (cs_sent st)
     (cs_written st ++ option_list out) (cs_published st), res).

Definition set_udp_in (idx : nat) (q : Queue) (st : ClientState) : ClientState :=
  mkClientState (cs_engine st) (cs_session st) (cs_metrics st) (cs_scratch st) (cs_tun_in st) (<[idx := q]> (cs_udp_in st))
    (cs_sent st) (cs_written st) (cs_published st).

(** The inner [loop] on socket [idx]: only an error ends it. *)
Fixpoint drain_udp (env : LoopEnv) (idx : nat) (q : Queue) (st : ClientState) : ClientState :=
  match q with
  | [] => set_udp_in idx [] (udp_stage env (Err WouldBlock) st).1
  | r :: q' =>
      let '(st', res) := udp_stage env r st in
      let rest := if (length (cs_scratch st) <? HEADER_LEN)%nat then q else q' in
      match res with
      | Ok _ => drain_udp env idx q' st'
      | Err _ => set_udp_in idx rest st'
      end
  end.

Definition TUN_TOKEN : Z := 0.

(** The body of [for ev in &events]. *)
Definition handle_event (env : LoopEnv) (token : Z) (st : ClientState) : panics ClientState :=
  if token =? TUN_TOKEN then drain_tun env (cs_tun_in st) st
  else
    let idx := Z.to_nat (token - 1) in
    match le_sockets env !! idx, cs_udp_in st !! idx with
    | Some _, Some q => Some (drain_udp env idx q st)
    | _, _ => Some st
    end.

Fixpoint handle_events (env : LoopEnv) (tokens : list Z) (st : ClientState) : panics ClientState :=
  match tokens with
  | [] => Some st
  | t :: tokens => st ← handle_event env t st; handle_events env tokens st
  end.

(** One turn of the loop: the shutdown flag, what arrived, what the poll returned,
    whether statistics are published (half a second has passed, and there is a context). *)
Record Turn := mkTurn {
  tn_shutdown : bool;
  tn_tun : Queue;
  tn_udp : list Queue;
  tn_poll : result (list Z) IoError;
  tn_stats_due : bool;
}.

Definition arrive (t : Turn) (st : ClientState) : ClientState :=
  mkClientState (cs_engine st) (cs_session st) (cs_metrics st) (cs_scratch st) (cs_tun_in st ++ tn_tun t)
    (zip_with app (cs_udp_in st) (tn_udp t)) (cs_sent st) (cs_written st) (cs_published st).
Definition publish (due : bool) (st : ClientState) : ClientState :=
  mkClientState (cs_engine st) (cs_session st) (cs_metrics st) (cs_scratch st) (cs_tun_in st) (cs_udp_in st) (cs_sent st)
    (cs_written st) (cs_published st ++ if due then [cs_metrics st] else []).

(** The [loop] over the turns to come; no result when they end before the loop. *)
Fixpoint run_reactor_loop (env : LoopEnv) (turns : list Turn) (st : ClientState)
    : panics (ClientState * option (result () IoError)) :=
  match turns with
  | [] => Some (st, None)
  | t :: turns =>
      if tn_shutdown t then Some (st, Some (Ok ()))
      else
        let st := arrive t st in
        match tn_poll t with
        | Err e => Some (st, Some (Err e))
        | Ok tokens => st ← handle_events env tokens st; run_reactor_loop env turns (publish (tn_stats_due t) st)
        end
  end.

End Loop.

Arguments ClientState : clear implicits.
Arguments LoopEnv : clear implicits.

(** ** The server's reactor loop *)

Section ServeLoop.
  Context {RC : RingCrypto} {XO : X25519Ops}.

(** What the server has sent and written so far. *)
Record ServerRun := mkServerRun { sr_server : Server; sr_sent : list Datagram; sr_written : list bytes }.

(** The inner [loop] on the UDP socket: each datagram, cut at the [cap] bytes of the
    scratch buffer, with its source, the clock and the randomness of the call.  An
    error ends it. *)
Abbreviation Arrival := (SocketAddr * bytes * Z * option bytes)%type.
Fixpoint drain_server (cap : nat) (q : list (result Arrival IoError)) (run : ServerRun)
    : ServerRun * list (result Arrival IoError) :=
  match q with
  | [] => (run, [])
  | Err _ :: q => (run, q)
  | Ok (from, data, now_ms, rng) :: q =>
      let '(srv, out) := handle_incoming (sr_server run) (take cap data) from now_ms rng in
      drain_server cap q (mkServerRun srv (sr_sent run ++ out_udp out) (sr_written run ++ out_tun out))
  end.

(** The inner [loop] on the TUN: packets are read and dropped. *)
Fixpoint drain_server_tun (q : Queue) : Queue :=
  match q with
  | [] => []
  | Ok (_ :: _) :: q => drain_server_tun q
  | _ :: q => q
  end.

Definition UDP_TOKEN : Z := 1.

Record ServerLoopState := mkServerLoop { sl_run : ServerRun; sl_udp_in : list (result Arrival IoError); sl_tun_in : Queue }.

Definition server_event (cap : nat) (st : ServerLoopState) (token : Z) : ServerLoopState :=
  if token =? UDP_TOKEN then
    let '(run, q) := drain_server cap (sl_udp_in st) (sl_run st) in mkServerLoop run q (sl_tun_in st)
  else if token =? TUN_TOKEN then mkServerLoop (sl_run st) (sl_udp_in st) (drain_server_tun (sl_tun_in st))
  else st.

(** One turn of the server's loop, as the client's. *)
Record ServerTurn := mkServerTurn {
  st_shutdown : bool;
  st_udp : list (result Arrival IoError);
  st_tun : Queue;
  st_poll : result (list Z) IoError;
}.

Fixpoint run_server_loop (cap : nat) (turns : list ServerTurn) (st : ServerLoopState)
    : ServerLoopState * option (result () IoError) :=
  match turns with
  | [] => (st, None)
  | t :: turns =>
      if st_shutdown t then (st, Some (Ok ()))
      else
        let st := mkServerLoop (sl_run st) (sl_udp_in st ++ st_udp t) (sl_tun_in st ++ st_tun t) in
        match st_poll t with
        | Err e => (st, Some (Err e))
        | Ok tokens => run_server_loop cap turns (foldl (server_event cap) st tokens)
        end
  end.

End ServeLoop.

(** ** Lemmas *)

(** *** Sockets and links *)

Lemma build_sockets_ids bind interfaces : ∀ i out, build_sockets bind i interfaces = Ok out →
  Z.of_nat (i + length interfaces) < 2 ^ 32 →
  Forall (fun e => Z.of_nat i < se_link_id e <= Z.of_nat (i + length interfaces)) out ∧ NoDup (se_link_id <$> out).
Proof.
  induction interfaces as [|iface interfaces IH]; intros i out Hb Hlt; cbn [build_sockets] in Hb.
  { simplify_eq. split; constructor. }
  cbn [length] in Hlt. assert (Hrest : ∀ out', build_sockets bind (S i) interfaces = Ok out' →
    Forall (fun e => Z.of_nat (S i) < se_link_id e <= Z.of_nat (i + S (length interfaces))) out' ∧ NoDup (se_link_id <$> out')).
  { intros out' E. destruct (IH _ _ E) as [H1 H2]; [lia|]. split; [|done]. eapply Forall_impl; [exact H1|]. cbn. intros e. lia. }
  destruct (i_enabled iface); cbn [negb] in Hb.
  2:{ destruct (Hrest _ Hb) as [H1 H2]. split; [|done]. eapply Forall_impl; [exact H1|]. cbn. intros e. lia. }
  destruct (bind i _); [|done]. destruct (build_sockets bind (S i) interfaces) as [out'|] eqn:E; [|done].
  cbn [result_bind] in Hb. simplify_eq. destruct (Hrest _ eq_refl) as [H1 H2].
  assert (Hid : wrapping_add 32 (wrap 32 (Z.of_nat i)) 1 = Z.of_nat (S i)).
  { unfold wrapping_add. rewrite (wrap_small 32 (Z.of_nat i)) by zlia. rewrite wrap_small by zlia. lia. }
  rewrite Hid. split.
  - constructor; [cbn; lia|]. eapply Forall_impl; [exact H1|]. cbn. intros e. lia.
  - cbn [fmap list_fmap se_link_id]. constructor; [|done]. intros (e & E' & He)%list_elem_of_fmap.
    rewrite Forall_forall in H1. specialize (H1 e He). lia.
Qed.

Lemma find_socket_in sockets e : NoDup (se_link_id <$> sockets) → e ∈ sockets → find_socket sockets (se_link_id e) = Some e.
Proof.
  unfold find_socket. induction sockets as [|e' sockets IH]; intros Hnd Hin; [by apply not_elem_of_nil in Hin|].
  rewrite fmap_cons in Hnd. apply NoDup_cons in Hnd as [Hni Hnd]. cbn [List.find]. apply elem_of_cons in Hin as [->|Hin].
  - by rewrite Z.eqb_refl.
  - destruct (Z.eqb_spec (se_link_id e') (se_link_id e)) as [E|]; [|by apply IH].
    destruct Hni. rewrite E. by apply list_elem_of_fmap_2.
Qed.

Lemma build_links_socket interfaces addr sockets l : l ∈ build_links interfaces addr sockets →
  ∃ e, e ∈ sockets ∧ se_link_id e = link_id l ∧ link_peer l = addr ∧ link_healthy l = true.
Proof.
  unfold build_links. intros (i & Hi)%list_elem_of_lookup. rewrite list_lookup_imap in Hi.
  destruct (sockets !! i) as [e|] eqn:E; [|done]. cbn in Hi. simplify_eq. exists e. split; [by eapply list_elem_of_lookup_2|done].
Qed.

(** *** The replay window in order *)

(** Nothing at or past [c] has been seen. *)
Definition ahead (w : AntiReplayWindow) (c : Z) : Prop := initialised w = false ∨ highest w < c.

Lemma ahead_accepts w c : ahead w c → would_accept w c = true.
Proof.
  intros [E|E]; unfold would_accept; [by rewrite E|]. destruct (initialised w); [|done]. cbn [negb].
  by rewrite (proj2 (Z.ltb_lt _ _)).
Qed.

Lemma ahead_update w c : ahead w c → ∃ w', check_and_update w c = (w', Ok tt) ∧ ahead w' (c + 1) ∧
  check_and_update w' c = (w', Err Duplicate).
Proof.
  intros Ha. destruct (accept_marks w c (ahead_accepts w c Ha)) as (w' & E & Hi & Hle & Hlt & Hbit).
  exists w'. split_and!; [done| |by apply marked_duplicate]. right. revert E. unfold check_and_update.
  destruct Ha as [Ea|Ea]; [rewrite Ea; cbn [negb]; intros [= <-]; cbn; lia|].
  destruct (initialised w); cbn [negb]; [|intros [= <-]; cbn; lia].
  rewrite (proj2 (Z.ltb_lt _ _)) by done. intros [= <-]. cbn. lia.
Qed.

Section TunnelLemmas.
  Context {RC : RingCrypto} {RL : RingLaws} {XO : X25519Ops}.

Definition with_window (w : AntiReplayWindow) (b : Session Established) : Session Established :=
  mkSession (s_id b) (set_window w (s_state b)).

Lemma decrypt_in_order b c ct p : ahead (recv_window (s_state b)) c → genuine b c ct p →
  ∃ w, decrypt_data b c ct = (with_window w b, Ok p) ∧ ahead w (c + 1) ∧ check_and_update w c = (w, Err Duplicate).
Proof.
  intros Ha Hg. destruct (ahead_update _ _ Ha) as (w & E & Ha' & Hd). exists w. split; [|done].
  unfold decrypt_data, open_checked. rewrite E. unfold genuine in Hg. by rewrite Hg.
Qed.

Lemma linked_with_window a b w : linked a b → linked a (with_window w b).
Proof. done. Qed.

(** *** The server *)

(** The server opens what comes from [from] with session [b]. *)
Definition serves (srv : Server) (from : SocketAddr) (b : Session Established) : Prop :=
  srv_addr_map srv !! from = Some (s_id b) ∧
  table_lookup (cr_table (srv_registry srv)) (s_id b) = Some (AnyEstablished b).

Lemma length_data_frame sid c ct : length (data_frame sid c ct) = (HEADER_LEN + length ct)%nat.
Proof. unfold data_frame. by rewrite length_app, length_Header_layout. Qed.

(** A data frame goes to the branch of the data. *)
Lemma handle_incoming_frame srv from sid c ct now rng : in_width 16 sid →
  handle_incoming srv (data_frame sid c ct) from now rng
  = handle_data (ServerLoop.mkServer (srv_registry srv) (srv_limiter srv) (srv_addr_map srv)
      (record_received (srv_metrics srv) (length (data_frame sid c ct))))
      (data_header sid c (length ct)) (data_frame sid c ct) from.
Proof.
  intros Hid. set (h := data_header sid c (length ct)).
  pose proof (Header_decode_layout h [] (data_header_wf sid c (length ct) Hid)) as Hd. rewrite app_nil_r in Hd.
  unfold handle_incoming. rewrite length_data_frame, (proj2 (Nat.ltb_ge _ _)) by lia.
  unfold data_frame at 1. fold h. rewrite take_app_length' by done. rewrite Hd. by rewrite bool_decide_false.
Qed.

(** A data frame, as the server sees it. *)
Lemma handle_incoming_data srv from b c ct now rng :
  serves srv from b → in_width 16 (s_id b) → in_width 32 c →
  let '(b', r) := decrypt_data b c ct in
  s_id b' = s_id b →
  ∃ srv', handle_incoming srv (data_frame (s_id b) c ct) from now rng
    = (srv', match r with Ok p => mkServerOut [] [p] | Err _ => no_out end) ∧ serves srv' from b' ∧
      srv_addr_map srv' = srv_addr_map srv.
Proof.
  intros [Hmap Htab] Hid Hc. destruct (decrypt_data b c ct) as [b' r] eqn:Ed. intros Hb'.
  rewrite handle_incoming_frame by done. unfold handle_data. cbn [srv_addr_map srv_registry]. rewrite Hmap.
  unfold table_lookup in Htab. unfold SessionTable_get. destruct (slots (cr_table (srv_registry srv)) !! s_id b) as [slot|] eqn:Es; [|done].
  cbn [mbind option_bind] in Htab. rewrite Htab.
  replace (drop HEADER_LEN (data_frame (s_id b) c ct)) with ct by (unfold data_frame; by rewrite drop_app_length').
  replace (sequence (data_header (s_id b) c (length ct))) with c by (symmetry; by apply wrap_small). rewrite Ed.
  assert (Hs : serves (ServerLoop.mkServer (set_table (slot_write (cr_table (srv_registry srv)) slot (AnyEstablished b')) (srv_registry srv))
      (srv_limiter srv) (srv_addr_map srv) (srv_metrics srv)) from b').
  { split; cbn [srv_addr_map srv_registry]; [by rewrite Hb'|]. unfold table_lookup. cbn [cr_table set_table slot_write slots heap].
    rewrite Hb', Es. cbn [mbind option_bind]. apply lookup_insert_eq. }
  destruct r as [p|e]; eexists; (split; [done|]); (split; [exact Hs|done]).
Qed.

(** The datagrams of a client, as the server's socket returns them. *)
Definition received (from : SocketAddr) (now : Z) (rng : option bytes) (frames : list bytes)
    : list (result (SocketAddr * bytes * Z * option bytes) IoError) :=
  (fun f => Ok (from, f, now, rng)) <$> frames.

(** A frame from an address the server knows no client at: counted as received,
    nothing else happens. *)
Lemma handle_incoming_foreign srv from sid c ct now rng :
  srv_addr_map srv !! from = None → in_width 16 sid →
  handle_incoming srv (data_frame sid c ct) from now rng
  = (ServerLoop.mkServer (srv_registry srv) (srv_limiter srv) (srv_addr_map srv)
       (record_received (srv_metrics srv) (HEADER_LEN + length ct)), no_out).
Proof.
  intros Hm Hid. rewrite handle_incoming_frame, length_data_frame by done. unfold handle_data. cbn [srv_addr_map]. by rewrite Hm.
Qed.

(** *** Arrivals over several links *)

(** What the server's socket returns for frames sent over links: the datagrams of
    one link all come from the address [source] gives it. *)
Definition arrivals (source : LinkId → SocketAddr) (now : Z) (rng : option bytes) (snt : list (Link * bytes))
    : list (result (SocketAddr * bytes * Z * option bytes) IoError) :=
  (fun lf : Link * bytes => Ok (source (link_id lf.1), lf.2, now, rng)) <$> snt.

(** One frame over each of the links. *)
Definition copies (f : bytes) (ls : list Link) : list (Link * bytes) := (fun l => (l, f)) <$> ls.

(** A copy comes from the address [from]. *)
Definition heard (source : LinkId → SocketAddr) (from : SocketAddr) (ls : list Link) : bool :=
  existsb (fun l => bool_decide (source (link_id l) = from)) ls.

Lemma copies_cons f l ls : copies f (l :: ls) = (l, f) :: copies f ls.
Proof. done. Qed.
Lemma copies_frames f ls (ds := (fun lf : Link * bytes => (link_peer lf.1, lf.2)) <$> copies f ls) :
  ds.*2 = replicate (length ds) f.
Proof. unfold ds, copies. rewrite <-!list_fmap_compose, length_fmap. by apply const_fmap. Qed.
Lemma heard_cons source from l ls :
  heard source from (l :: ls) = bool_decide (source (link_id l) = from) || heard source from ls.
Proof. done. Qed.

(** Every link comes from the session's address or from one the server does not know. *)
Definition foreign_or (source : LinkId → SocketAddr) (srv : Server) (from : SocketAddr) (ls : list Link) : Prop :=
  Forall (fun l => source (link_id l) = from ∨ srv_addr_map srv !! source (link_id l) = None) ls.

Lemma foreign_or_map source srv srv' from ls :
  srv_addr_map srv' = srv_addr_map srv → foreign_or source srv from ls → foreign_or source srv' from ls.
Proof. unfold foreign_or. by intros ->. Qed.

Lemma drain_server_app cap source now rng snt q : ∀ run,
  drain_server cap (arrivals source now rng snt ++ q) run
  = drain_server cap q (drain_server cap (arrivals source now rng snt) run).1.
Proof.
  induction snt as [|lf snt IH]; intros run; [done|]. cbn [arrivals fmap list_fmap app drain_server].
  destruct (handle_incoming _ _ _ _ _). apply IH.
Qed.

(** One datagram of a link from an unknown address. *)
Lemma drain_foreign cap source now rng sid c ct l q run :
  srv_addr_map (sr_server run) !! source (link_id l) = None → in_width 16 sid → (HEADER_LEN + length ct <= cap)%nat →
  ∃ srv', drain_server cap (arrivals source now rng ((l, data_frame sid c ct) :: q)) run
      = drain_server cap (arrivals source now rng q) (mkServerRun srv' (sr_sent run) (sr_written run)) ∧
    srv_addr_map srv' = srv_addr_map (sr_server run) ∧ srv_registry srv' = srv_registry (sr_server run).
Proof.
  intros Hm Hid Hcap. cbn [arrivals fmap list_fmap drain_server fst snd].
  rewrite take_ge by by rewrite length_data_frame. rewrite handle_incoming_foreign by done.
  cbn [out_udp out_tun no_out]. rewrite !app_nil_r. by eexists.
Qed.

(** Copies of a frame that has been taken change nothing but the metrics. *)
Lemma drain_duplicates cap source from now rng b c ct ls : ∀ run,
  serves (sr_server run) from b → foreign_or source (sr_server run) from ls →
  in_width 16 (s_id b) → in_width 32 c → (HEADER_LEN + length ct <= cap)%nat →
  check_and_update (recv_window (s_state b)) c = (recv_window (s_state b), Err Duplicate) →
  ∃ srv', drain_server cap (arrivals source now rng (copies (data_frame (s_id b) c ct) ls)) run
    = (mkServerRun srv' (sr_sent run) (sr_written run), []) ∧ serves srv' from b ∧
      srv_addr_map srv' = srv_addr_map (sr_server run).
Proof.
  induction ls as [|l ls IH]; intros run Hs Hf Hid Hc Hcap Hd; [|rewrite copies_cons].
  { exists (sr_server run). by destruct run. }
  apply Forall_cons in Hf as [[Hl|Hl] Hf].
  - cbn [arrivals fmap list_fmap drain_server fst snd]. rewrite Hl, take_ge by by rewrite length_data_frame.
    pose proof (handle_incoming_data (sr_server run) from b c ct now rng Hs Hid Hc) as Hh.
    rewrite decrypt_duplicate in Hh by done. destruct Hh as (srv' & -> & Hs' & Hm); [done|]. cbn [out_udp out_tun no_out].
    rewrite !app_nil_r. destruct (IH (mkServerRun srv' (sr_sent run) (sr_written run))) as (srv'' & E & Hs'' & Hm''); try done.
    { by eapply foreign_or_map. }
    exists srv''. split; [exact E|]. by rewrite Hm''.
  - destruct (drain_foreign cap source now rng (s_id b) c ct l (copies (data_frame (s_id b) c ct) ls) run Hl Hid Hcap)
      as (srv' & -> & Hm & Hr).
    destruct (IH (mkServerRun srv' (sr_sent run) (sr_written run))) as (srv'' & E & Hs'' & Hm''); try done.
    { unfold serves. cbn [sr_server]. by rewrite Hm, Hr. }
    { by eapply foreign_or_map. }
    exists srv''. split; [exact E|]. by rewrite Hm''.
Qed.

(** The first copy from the session's address is written to the TUN, every other
    one is dropped. *)
Lemma drain_copies cap source from now rng b c ct p ls : ∀ run,
  serves (sr_server run) from b → foreign_or source (sr_server run) from ls →
  in_width 16 (s_id b) → in_width 32 c → (HEADER_LEN + length ct <= cap)%nat →
  ahead (recv_window (s_state b)) c → genuine b c ct p →
  ∃ srv' w, drain_server cap (arrivals source now rng (copies (data_frame (s_id b) c ct) ls)) run
    = (mkServerRun srv' (sr_sent run) (sr_written run ++ if heard source from ls then [p] else []), []) ∧
      serves srv' from (with_window w b) ∧ ahead w (c + 1) ∧ srv_addr_map srv' = srv_addr_map (sr_server run).
Proof.
  induction ls as [|l ls IH]; intros run Hs Hf Hid Hc Hcap Ha Hg; [cbn [heard existsb]|rewrite copies_cons, heard_cons].
  { exists (sr_server run), (recv_window (s_state b)). rewrite app_nil_r. destruct run, b as [sid []]. split_and!; try done.
    destruct Ha as [?|?]; [by left|right; lia]. }
  apply Forall_cons in Hf as [Hl Hf]. destruct (bool_decide_reflect (source (link_id l) = from)) as [El|El]; cbn [orb].
  - destruct (decrypt_in_order b c ct p Ha Hg) as (w & Ed & Ha' & Hdup).
    cbn [arrivals fmap list_fmap drain_server fst snd]. rewrite El, take_ge by by rewrite length_data_frame.
    pose proof (handle_incoming_data (sr_server run) from b c ct now rng Hs Hid Hc) as Hh. rewrite Ed in Hh.
    destruct Hh as (srv' & -> & Hs' & Hm); [done|]. cbn [out_udp out_tun]. rewrite app_nil_r.
    destruct (drain_duplicates cap source from now rng (with_window w b) c ct ls (mkServerRun srv' (sr_sent run) (sr_written run ++ [p])))
      as (srv'' & E & Hs'' & Hm''); [done|by eapply foreign_or_map|done..|]. exists srv'', w.
    split; [exact E|]. by rewrite Hm''.
  - destruct Hl as [Hl|Hl]; [done|].
    destruct (drain_foreign cap source now rng (s_id b) c ct l (copies (data_frame (s_id b) c ct) ls) run Hl Hid Hcap)
      as (srv' & -> & Hm & Hr).
    destruct (IH (mkServerRun srv' (sr_sent run) (sr_written run))) as (srv'' & w & E & Hs'' & Ha'' & Hm''); try done.
    { unfold serves. cbn [sr_server]. by rewrite Hm, Hr. }
    { by eapply foreign_or_map. }
    exists srv'', w. split; [exact E|]. by rewrite Hm''.
Qed.

End TunnelLemmas.

(** *** The client's TUN *)

Section ClientLemmas.
  Context {RC : RingCrypto} {RL : RingLaws} {XO : X25519Ops} {S : Type} `{StrategyLaws S}.

(** The tunnel of a client has somewhere to send: there is a healthy link, every
    healthy link has a socket, and sends succeed. *)
Definition can_send (env : LoopEnv) (engine : Engine S) : Prop :=
  LinkTable_healthy (e_links engine) ≠ [] ∧
  (∀ l, l ∈ LinkTable_healthy (e_links engine) → is_Some (get_sock env (link_id l))) ∧
  (∀ id d, le_send env id d = Ok ()).

Lemma get_sock_ok env engine : can_send env engine →
  ∀ id send d, get_sock env id = Some send → send d = Ok ().
Proof.
  intros (_ & _ & Hok) id send d. unfold get_sock. destruct (find_socket _ id); [|done]. cbn. intros [= <-]. apply Hok.
Qed.

(** A read that would block leaves everything as it is. *)
Lemma tun_stage_blocks env (st : ClientState S) : ∃ e, tun_stage env (Err WouldBlock) st = Some (st, Err e).
Proof.
  unfold tun_stage, forward_tun_to_udp_bonded, read_and_seal.
  destruct (_ <? _)%nat; cbn [read_into mbind option_bind]; rewrite app_nil_r; destruct st; eauto.
Qed.

(** The strategy's choices for the next [n] packets. *)
Fixpoint schedule_run (n : nat) (e : Engine S) : panics (Engine S * list LinkSelection) :=
  match n with
  | O => Some (e, [])
  | Datatypes.S n =>
      '(e, sel) ← Engine_schedule e (PacketMeta_outbound 0 0);
      '(e, sels) ← schedule_run n e;
      Some (e, sel :: sels)
  end.

(** Packet number [i] as the frame number [i], once over each link selected for it. *)
Definition sends (sels : list LinkSelection) (frames : list bytes) : list (Link * bytes) :=
  concat (zip_with (fun sel f => copies f (LinkSelection_links sel)) sels frames).

(** The packets of which a copy comes from the address [from]. *)
Definition heard_packets (source : LinkId → SocketAddr) (from : SocketAddr) (sels : list LinkSelection)
    (ps : list bytes) : list bytes :=
  concat (zip_with (fun sel p => if heard source from (LinkSelection_links sel) then [p] else []) sels ps).

(** One packet read from the TUN: one frame leaves on every link selected. *)
Lemma tun_stage_sends env (st : ClientState S) p :
  can_send env (cs_engine st) → packet_fits p (cs_scratch st) → 0 <= send_counter (s_state (cs_session st)) <= umax 32 →
  ∃ st' sel ct n, tun_stage env (Ok p) st = Some (st', Ok (Datatypes.S n)) ∧
    Engine_schedule (cs_engine st) (PacketMeta_outbound 0 0) = Some (cs_engine st', sel) ∧
    LinkSelection_links sel ≠ [] ∧ Forall (fun l => l ∈ LinkTable_healthy (e_links (cs_engine st))) (LinkSelection_links sel) ∧
    cs_sent st' = cs_sent st ++ ((fun lf : Link * bytes => (link_peer lf.1, lf.2)) <$>
      copies (data_frame (s_id (cs_session st)) (send_counter (s_state (cs_session st))) ct) (LinkSelection_links sel)) ∧
    length ct = (length p + TAG_LEN)%nat ∧
    (∀ b, linked (cs_session st) b → genuine b (send_counter (s_state (cs_session st))) ct p) ∧
    e_links (cs_engine st') = e_links (cs_engine st) ∧ length (cs_scratch st') = length (cs_scratch st) ∧
    cs_session st' = mkSession (s_id (cs_session st))
      (set_counter (send_counter (s_state (cs_session st)) + 1) (s_state (cs_session st))) ∧
    cs_udp_in st' = cs_udp_in st ∧ cs_written st' = cs_written st.
Proof.
  intros Hcs Hfit Hc. destruct (bonded_step (cs_engine st) (cs_session st) p (cs_scratch st) (get_sock env) (cs_metrics st)
    Hfit Hc (get_sock_ok env _ Hcs)) as (engine' & sel & m' & scratch' & ds & ct & Es & E & Hl & Hsc & Hct & Hg & Hds & Hsel & Hnone).
  destruct Hcs as (Hh & Hall & _). destruct (links_with_socket_nonempty _ _ _ Hsel Hnone Hh Hall) as [Hlw Hne].
  rewrite Hlw in Hds. unfold tun_stage. rewrite E. cbn [mbind option_bind].
  destruct (LinkSelection_links sel) as [|l ls] eqn:El; [done|]. subst ds.
  eexists _, sel, ct, _. split; [done|]. cbn [cs_engine cs_sent cs_scratch cs_session cs_udp_in cs_written]. rewrite El.
  split_and!; try done. unfold copies. by rewrite <-list_fmap_compose.
Qed.

(** The packets [ps] go through the client's TUN, and what leaves, arriving from the
    address of the link it leaves on, through the server's socket. *)
Lemma tunnel_carries env cap source from now rng ps : ∀ (st : ClientState S) b run,
  linked (cs_session st) b → serves (sr_server run) from b → in_width 16 (s_id b) →
  foreign_or source (sr_server run) from (LinkTable_healthy (e_links (cs_engine st))) →
  Forall (fun p => packet_fits p (cs_scratch st) ∧ (HEADER_LEN + length p + TAG_LEN <= cap)%nat) ps →
  0 <= send_counter (s_state (cs_session st)) →
  send_counter (s_state (cs_session st)) + Z.of_nat (length ps) <= 2 ^ 32 →
  ahead (recv_window (s_state b)) (send_counter (s_state (cs_session st))) →
  can_send env (cs_engine st) →
  ∃ st' sels frames srv', drain_tun env (Ok <$> ps) st = Some st' ∧
    schedule_run (length ps) (cs_engine st) = Some (cs_engine st', sels) ∧ length frames = length ps ∧
    Forall (fun sel => LinkSelection_links sel ≠ [] ∧
              Forall (fun l => l ∈ LinkTable_healthy (e_links (cs_engine st))) (LinkSelection_links sel)) sels ∧
    cs_sent st' = cs_sent st ++ ((fun lf : Link * bytes => (link_peer lf.1, lf.2)) <$> sends sels frames) ∧
    cs_tun_in st' = [] ∧ cs_written st' = cs_written st ∧
    drain_server cap (arrivals source now rng (sends sels frames)) run
      = (mkServerRun srv' (sr_sent run) (sr_written run ++ heard_packets source from sels ps), []).
Proof.
  induction ps as [|p ps IH]; intros st b run Hl Hs Hid Hfo Hps Hc0 Hc Ha Hcs; cbn [fmap list_fmap drain_tun length schedule_run].
  { destruct (tun_stage_blocks env st) as [e ->]. eexists _, [], [], (sr_server run). split; [done|].
    cbn. rewrite !app_nil_r. destruct run. by split_and!. }
  apply Forall_cons in Hps as [[Hfit Hcap] Hps]. cbn [length] in Hc.
  destruct (tun_stage_sends env st p Hcs Hfit) as
    (st1 & sel & ct & n & -> & Hsch & Hne & Hsel & Hsent & Hct & Hg & Hlk & Hsc & Hse & Hu & Hw); [pow2; lia|]. cbn [mbind option_bind].
  destruct (drain_copies cap source from now rng b (send_counter (s_state (cs_session st))) ct p (LinkSelection_links sel) run)
    as (srv1 & w & Ed & Hs1 & Ha1 & Hm1); try done; [|pow2; lia|rewrite Hct; lia|by apply Hg|].
  { unfold foreign_or in *. rewrite Forall_forall in Hfo, Hsel. apply Forall_forall. by eauto. }
  destruct (IH st1 (with_window w b) (mkServerRun srv1 (sr_sent run)
      (sr_written run ++ if heard source from (LinkSelection_links sel) then [p] else [])))
    as (st2 & sels & frames & srv2 & E2 & Hsr & Hlen & Hsels & Hsent2 & Ht2 & Hw2 & Ed2); try done.
  - rewrite Hse. exact Hl.
  - rewrite Hlk. by eapply foreign_or_map.
  - eapply Forall_impl; [exact Hps|]. cbn. unfold packet_fits. by rewrite Hsc.
  - rewrite Hse. cbn. lia.
  - rewrite Hse. cbn. lia.
  - by rewrite Hse.
  - unfold can_send. by rewrite Hlk.
  - rewrite Hlk in Hsels.
    exists st2, (sel :: sels), (data_frame (s_id b) (send_counter (s_state (cs_session st))) ct :: frames), srv2.
    split; [exact E2|]. rewrite Hsch. cbn [mbind option_bind]. rewrite Hsr. cbn [mbind option_bind length]. rewrite Hlen.
    unfold sends, heard_packets. cbn [zip_with concat]. fold (sends sels frames) (heard_packets source from sels ps).
    split_and!; try done; [by constructor|..].
    + rewrite Hsent2, Hsent, fmap_app, <-(proj1 Hl). by rewrite app_assoc.
    + by rewrite Hw2.
    + unfold arrivals. rewrite fmap_app. fold (arrivals source now rng (sends sels frames)).
      fold (arrivals source now rng (copies (data_frame (s_id b) (send_counter (s_state (cs_session st))) ct) (LinkSelection_links sel))).
      rewrite drain_server_app, Ed. cbn [fst]. rewrite Ed2. cbn. by rewrite <-app_assoc.
Qed.

(** When every link comes from the session's address nothing is lost. *)
Lemma heard_packets_all source from healthy sels : ∀ ps,
  Forall (fun sel => LinkSelection_links sel ≠ [] ∧ Forall (fun l => l ∈ healthy) (LinkSelection_links sel)) sels →
  Forall (fun l => source (link_id l) = from) healthy → length sels = length ps → heard_packets source from sels ps = ps.
Proof.
  intros ps Hsels Hsrc. revert ps. induction Hsels as [|sel sels [Hne Hin] _ IH]; intros [|p ps] Hlen; try done.
  unfold heard_packets. cbn [zip_with concat]. fold (heard_packets source from sels ps). rewrite IH by (cbn in Hlen; lia).
  unfold heard. destruct (LinkSelection_links sel) as [|l ls]; [done|]. apply Forall_cons in Hin as [Hl _].
  rewrite Forall_forall in Hsrc. cbn [existsb]. by rewrite bool_decide_true by by apply Hsrc.
Qed.

Lemma schedule_run_length n : ∀ (e : Engine S) e' sels, schedule_run n e = Some (e', sels) → length sels = n.
Proof.
  induction n as [|n IH]; intros e e' sels; cbn [schedule_run]; [intros [= _ <-]; done|].
  destruct (Engine_schedule _ _) as [[e1 sel]|]; [|done]. cbn [mbind option_bind].
  destruct (schedule_run n e1) as [[e2 sels']|] eqn:E; [|done]. cbn [mbind option_bind]. intros [= _ <-].
  cbn [length]. by erewrite IH.
Qed.

End ClientLemmas.

(** ** Theorems *)

Section TunnelProps.
  Context {RC : RingCrypto} {RL : RingLaws} {XO : X25519Ops} {S : Type} `{StrategyLaws S}.

(** C26: The tunnel end to end, with the source address of every link kept apart.
    A client with a healthy link, a working socket on every healthy link and room
    in its buffers reads packets from its TUN; the server serves the linked session
    at the address [from] the handshake came from, and every link's datagrams come
    from [from] or from an address the server knows no client at.  Then one turn of
    the client's loop sends each packet as one frame, once over every link its
    strategy selects (at least one, all healthy); one turn of the server's loop on
    these datagrams writes to its TUN, each once and in order, exactly the packets
    of which a copy comes from [from], and answers nothing.  So when all the links
    come from the handshake's address the packets written are the packets read,
    and what goes only over links with another address is lost. *)
Theorem tunnel_end_to_end (env : LoopEnv) (st : ClientState S) (b : Session Established) (srv : Server) (cap : nat)
    (source : LinkId → SocketAddr) (from : SocketAddr) (now : Z) (rng : option bytes) (due : bool)
    (ps : list bytes) (tun : Queue) :
  linked (cs_session st) b → serves srv from b → in_width 16 (s_id b) →
  foreign_or source srv from (LinkTable_healthy (e_links (cs_engine st))) →
  Forall (fun p => packet_fits p (cs_scratch st) ∧ (HEADER_LEN + length p + TAG_LEN <= cap)%nat) ps →
  0 <= send_counter (s_state (cs_session st)) →
  send_counter (s_state (cs_session st)) + Z.of_nat (length ps) <= 2 ^ 32 →
  ahead (recv_window (s_state b)) (send_counter (s_state (cs_session st))) →
  can_send env (cs_engine st) → cs_tun_in st = [] →
  ∃ st' sels frames srv',
    run_reactor_loop env [mkTurn false (Ok <$> ps) [] (Ok [TUN_TOKEN]) due] st = Some (st', None) ∧
    schedule_run (length ps) (cs_engine st) = Some (cs_engine st', sels) ∧ length frames = length ps ∧
    Forall (fun sel => LinkSelection_links sel ≠ [] ∧
              Forall (fun l => l ∈ LinkTable_healthy (e_links (cs_engine st))) (LinkSelection_links sel)) sels ∧
    cs_sent st' = cs_sent st ++ ((fun lf : Link * bytes => (link_peer lf.1, lf.2)) <$> sends sels frames) ∧
    cs_written st' = cs_written st ∧
    run_server_loop cap [mkServerTurn false (arrivals source now rng (sends sels frames)) [] (Ok [UDP_TOKEN])]
      (mkServerLoop (mkServerRun srv [] []) [] tun)
    = (mkServerLoop (mkServerRun srv' [] (heard_packets source from sels ps)) [] tun, None) ∧
    (Forall (fun l => source (link_id l) = from) (LinkTable_healthy (e_links (cs_engine st))) →
     heard_packets source from sels ps = ps).
Proof.
  intros Hl Hs Hid Hfo Hps Hc0 Hc Ha Hcs Ht.
  set (st0 := arrive (mkTurn false (Ok <$> ps) [] (Ok [TUN_TOKEN]) due) st).
  destruct (tunnel_carries env cap source from now rng ps st0 b (mkServerRun srv [] []))
    as (st' & sels & frames & srv' & E & Hsr & Hlen & Hsels & Hsent & _ & Hw & Ed); try done.
  exists (publish due st'), sels, frames, srv'. split_and!; try done.
  - cbn [run_reactor_loop tn_shutdown tn_poll]. fold st0. cbn [handle_events handle_event TUN_TOKEN Z.eqb].
    replace (cs_tun_in st0) with (@Ok bytes IoError <$> ps) by (unfold st0; cbn; by rewrite Ht).
    rewrite E. done.
  - cbn [run_server_loop st_shutdown st_poll st_udp st_tun sl_run sl_udp_in sl_tun_in app foldl].
    unfold server_event. cbn [UDP_TOKEN Z.eqb Pos.eqb sl_run sl_udp_in sl_tun_in]. rewrite Ed. by rewrite app_nil_r.
  - intros Hsrc. eapply heard_packets_all; [exact Hsels|exact Hsrc|]. by eapply schedule_run_length.
Qed.

(** Setting up a client leaves an engine that can send: at least one link, all
    healthy, ids all different, and a socket for each. *)
Theorem setup_can_send (cfg : ClientConfig) (engine engine' : Engine S) (env : SetupEnv)
    (sockets : list SocketEntry) (session : Session Established)
    (send : LinkId → Datagram → result () IoError) (tun_send : bytes → result () IoError) :
  setup_sockets_and_handshake cfg engine env = (engine', Ok (sockets, session)) →
  Z.of_nat (length (cl_interfaces cfg)) < 2 ^ 32 → (∀ id d, send id d = Ok ()) →
  can_send (mkLoopEnv sockets send tun_send) engine' ∧ NoDup (link_id <$> e_links engine').
Proof.
  unfold setup_sockets_and_handshake. intros Hset Hlen Hsend.
  destruct (su_parse_addr env (cl_server cfg)) as [addr|]; [|done].
  destruct (load_private_key _) as [k|]; [|done]. destruct (parse_public_key_hex _) as [pub|]; [|done].
  destruct (build_sockets _ _ _) as [socks|] eqn:Eb; [|done].
  destruct (match socks with [] => _ | _ => Ok socks end) as [socks'|] eqn:Es; [|done].
  destruct (client_handshake _ _ _ _ _ _ _) as [[msg1 wait]|]; [|done].
  destruct (su_send env msg1); [|done]. destruct (wait _) as [sess|]; [|done]. simplify_eq.
  destruct (build_sockets_ids _ _ _ _ Eb Hlen) as [_ Hnd].
  assert (Hnd' : NoDup (se_link_id <$> sockets) ∧ sockets ≠ []).
  { destruct socks as [|e socks]; [|by simplify_eq]. destruct (su_bind_default env); simplify_eq. split; [|done].
    apply NoDup_singleton. }
  destruct Hnd' as [Hnd' Hne]. unfold can_send, Engine_swap_links. cbn [e_links le_send].
  split_and!; [..|done|].
  - destruct sockets as [|e ss]; [done|]. unfold build_links, LinkTable_healthy. cbn [imap].
    rewrite filter_cons_True by done. done.
  - intros l [_ Hl]%list_elem_of_filter. destruct (build_links_socket _ _ _ _ Hl) as (e & He & <- & _ & _).
    unfold get_sock. cbn [le_sockets]. rewrite find_socket_in by done. by eexists.
  - replace (link_id <$> _) with (se_link_id <$> sockets); [done|]. unfold build_links.
    apply list_eq. intros i. rewrite !list_lookup_fmap, list_lookup_imap. by destruct (sockets !! i).
Qed.

(** With every interface enabled, each link gets the weight its interface is
    configured with. *)
Theorem links_follow_config (bind : nat → option str → result () IoError) (interfaces : list InterfaceConfig)
    (addr : SocketAddr) (sockets : list SocketEntry) :
  build_sockets bind 0 interfaces = Ok sockets → Forall (fun i => i_enabled i = true) interfaces →
  link_weight <$> build_links interfaces addr sockets = i_weight <$> interfaces.
Proof.
  intros Hb Hen. assert (Hl : length sockets = length interfaces).
  { revert sockets Hb. generalize 0%nat. induction Hen as [|ic ics Hi _ IH]; intros k sockets Hb; cbn [build_sockets] in Hb; [by simplify_eq|].
    rewrite Hi in Hb. cbn [negb] in Hb. destruct (bind _ _); [|done]. destruct (build_sockets _ _ ics) as [out|] eqn:E; [|done].
    cbn in Hb. simplify_eq. cbn. by rewrite (IH _ _ E). }
  apply list_eq. intros i. unfold build_links. rewrite !list_lookup_fmap, list_lookup_imap.
  destruct (sockets !! i) as [e|] eqn:Ei.
  - apply lookup_lt_Some in Ei as Hlt. rewrite Hl in Hlt. destruct (lookup_lt_is_Some_2 _ _ Hlt) as [ic Hic].
    by rewrite Hic.
  - apply lookup_ge_None in Ei. rewrite Hl in Ei. by rewrite (lookup_ge_None_2 interfaces i Ei).
Qed.

(** With a disabled interface before it, a link takes the weight of that
    interface instead of its own. *)
Theorem disabled_interface_shifts_weights (bind : nat → option str → result () IoError) (addr : SocketAddr)
    (n0 n1 : str) (w0 w1 : Z) :
  n1 ≠ [] → bind 1%nat (Some n1) = Ok () →
  ∃ sockets, build_sockets bind 0 [mkInterface n0 w0 false; mkInterface n1 w1 true] = Ok sockets ∧
    build_links [mkInterface n0 w0 false; mkInterface n1 w1 true] addr sockets = [Link_new 2 n1 addr w0].
Proof.
  intros Hn Hb. destruct n1 as [|c n1]; [done|]. eexists. cbn [build_sockets i_enabled negb i_name]. rewrite Hb.
  split; [done|]. done.
Qed.

(** The server knows a client by the address its handshake came from: frames of the
    same session over another link come from another address, and are all dropped,
    without a drop being counted. *)
Theorem second_link_lost (srv : Server) (cap : nat) (b : Session Established) (c : Z)
    (ct : bytes) (other : SocketAddr) (t : Z) (rng : option bytes) :
  srv_addr_map srv !! other = None → in_width 16 (s_id b) → in_width 32 c → (HEADER_LEN + length ct <= cap)%nat →
  drain_server cap (received other t rng [data_frame (s_id b) c ct]) (mkServerRun srv [] [])
  = (mkServerRun (ServerLoop.mkServer (srv_registry srv) (srv_limiter srv) (srv_addr_map srv)
       (record_received (srv_metrics srv) (HEADER_LEN + length ct))) [] [], []).
Proof.
  intros Hm Hid Hc Hcap. cbn [received fmap list_fmap drain_server].
  rewrite take_ge by by rewrite length_data_frame. cbn [sr_server]. by rewrite handle_incoming_foreign.
Qed.

End TunnelProps.

(** ** Witnesses *)

Definition tunnel_client : ClientState DynStrategy :=
  mkClientState (Engine_new_with_round_robin [Link_new 1 (lit "eth0") demo_peer 10; Link_new 2 (lit "wlan0") demo_peer 10])
    (demo_session 1 2 0) PipelineMetrics_new (replicate 64 0) [] [] [] [] [].
Definition tunnel_env : LoopEnv :=
  mkLoopEnv [mkSocketEntry 1 (Some (lit "eth0")); mkSocketEntry 2 (Some (lit "wlan0"))] (fun _ _ => Ok ()) (fun _ => Ok ()).
Definition tunnel_server : Server :=
  ServerLoop.mkServer (set_table (SessionTable_insert SessionTable_new (AnyEstablished (demo_session 2 1 0))).1 demo_registry)
    (mkRateLimiter 5000 500 ∅) {[demo_peer := 7]} PipelineMetrics_new.

(** The second link leaves from an address of its own. *)
Definition tunnel_source (id : LinkId) : SocketAddr :=
  if id =? 1 then demo_peer else mkSocketAddr (V4 [10; 9; 9; 9]) 4000.

Example tunnel_end_to_end_witness :
  ∃ st' sels frames srv',
    run_reactor_loop tunnel_env [mkTurn false (Ok <$> [[69; 0]; [69; 1]; [69; 2]]) [] (Ok [TUN_TOKEN]) true] tunnel_client
      = Some (st', None) ∧
    schedule_run 3 (cs_engine tunnel_client) = Some (cs_engine st', sels) ∧
    run_server_loop 64 [mkServerTurn false (arrivals tunnel_source 0 None (sends sels frames)) [] (Ok [UDP_TOKEN])]
      (mkServerLoop (mkServerRun tunnel_server [] []) [] [])
    = (mkServerLoop (mkServerRun srv' [] [[69; 0]; [69; 2]]) [] [], None).
Proof.
  destruct (tunnel_end_to_end tunnel_env tunnel_client (demo_session 2 1 0) tunnel_server 64 tunnel_source demo_peer 0 None true
    [[69; 0]; [69; 1]; [69; 2]] []) as (st' & sels & frames & srv' & H1 & H2 & _ & _ & _ & _ & H3 & _).
  - split; reflexivity.
  - split; vm_compute; reflexivity.
  - vm_compute. split; congruence.
  - constructor; [left; reflexivity|]. constructor; [right; vm_compute; reflexivity|constructor].
  - repeat constructor; try discriminate; vm_compute; try congruence; lia.
  - vm_compute. congruence.
  - vm_compute. congruence.
  - left. reflexivity.
  - split; [discriminate|]. split; [|reflexivity]. intros l Hl.
    apply elem_of_cons in Hl as [->|Hl]; [by eexists|]. apply elem_of_cons in Hl as [->|Hl]; [by eexists|].
    by apply not_elem_of_nil in Hl.
  - reflexivity.
  - exists st', sels, frames, srv'. split; [exact H1|]. split; [exact H2|].
    replace [[69; 0]; [69; 2]] with (heard_packets tunnel_source demo_peer sels [[69; 0]; [69; 1]; [69; 2]]); [exact H3|].
    assert (Hsels : snd <$> schedule_run 3 (cs_engine tunnel_client) = Some sels) by (cbn [length] in H2; rewrite H2; reflexivity).
    vm_compute in Hsels. injection Hsels as <-. vm_compute. reflexivity.
Defined.
