(* ===== verification/PrivDrop.v ===== *)
(** * Dropping privileges

    [crates/desmos-rt/src/priv_drop]: the typestate of [mod.rs], the per-platform
    [drop_and_sandbox], and the seccomp filter of [linux.rs] as the classic BPF
    program it builds; [drop_privileges_if_root] of [daemon/client.rs].  The kernel is
    an interface: [BpfMachine] states what the manual says of the three instructions
    the filter uses, [UnixKernel] what it says of the system calls. *)

From stdpp Require Import base numbers strings list.
From Stdlib Require Import ZArith Lia.
From S2P Require Import Prelude Str Wire Crypto Session Pipeline.

(** ** The seccomp filter *)

Record BpfInsn := mkBpfInsn { bpf_code : Z; bpf_jt : Z; bpf_jf : Z; bpf_k : Z }.

#[export] Instance BpfInsn_eq_dec : EqDecision BpfInsn.
Proof. solve_decision. Defined.

Definition BPF_LD : Z := 0x00.
Definition BPF_W : Z := 0x00.
Definition BPF_ABS : Z := 0x20.
Definition BPF_JMP : Z := 0x05.
Definition BPF_JEQ : Z := 0x10.
Definition BPF_RET : Z := 0x06.
Definition BPF_K : Z := 0x00.

Definition SECCOMP_RET_ERRNO_EPERM : Z := 0x00050001.
Definition SECCOMP_RET_ALLOW : Z := 0x7FFF0000.
Definition AUDIT_ARCH_X86_64 : Z := 0xC000003E.
Definition AUDIT_ARCH_AARCH64 : Z := 0xC00000B7.
Definition SECCOMP_DATA_NR : Z := 0.
Definition SECCOMP_DATA_ARCH : Z := 4.

Definition SYS_OPEN_X86 : Z := 2.
Definition SYS_SOCKET_X86 : Z := 41.
Definition SYS_EXECVE_X86 : Z := 59.
Definition SYS_OPENAT_X86 : Z := 257.
Definition SYS_EXECVEAT_X86 : Z := 322.
Definition SYS_OPENAT_ARM64 : Z := 56.
Definition SYS_EXECVE_ARM64 : Z := 221.
Definition SYS_SOCKET_ARM64 : Z := 198.
Definition SYS_EXECVEAT_ARM64 : Z := 281.

(** [target_arch]. *)
Inductive TargetArch := X86_64 | Aarch64 | OtherArch.

Definition bpf_stmt (code k : Z) : BpfInsn := mkBpfInsn code 0 0 k.
Definition bpf_jump (code k jt jf : Z) : BpfInsn := mkBpfInsn code jt jf k.

(** The [let (arch, blocked)] of each architecture. *)
Definition arch_and_blocked (t : TargetArch) : Z * list Z :=
  match t with
  | X86_64 => (AUDIT_ARCH_X86_64, [SYS_OPEN_X86; SYS_OPENAT_X86; SYS_SOCKET_X86; SYS_EXECVE_X86; SYS_EXECVEAT_X86])
  | Aarch64 => (AUDIT_ARCH_AARCH64, [SYS_OPENAT_ARM64; SYS_SOCKET_ARM64; SYS_EXECVE_ARM64; SYS_EXECVEAT_ARM64])
  | OtherArch => (0, [])
  end.

Definition LD_ABS : Z := Z.lor (Z.lor BPF_LD BPF_W) BPF_ABS.
Definition JEQ_K : Z := Z.lor (Z.lor BPF_JMP BPF_JEQ) BPF_K.
Definition RET_K : Z := Z.lor BPF_RET BPF_K.

(** The loop over the blocked calls, from index [i]. *)
Fixpoint check_blocked (num_blocked i : nat) (blocked : list Z) : list BpfInsn :=
  match blocked with
  | [] => []
  | nr :: blocked =>
      let remaining := (num_blocked - i - 1)%nat in
      bpf_jump JEQ_K nr (wrap 8 (Z.of_nat remaining + 1)) 0 :: check_blocked num_blocked (S i) blocked
  end.

Definition build_filter (t : TargetArch) : list BpfInsn :=
  let '(arch, blocked) := arch_and_blocked t in
  let num_blocked := length blocked in
  let skip_to_allow := wrap 8 (1 + Z.of_nat num_blocked) in
  [bpf_stmt LD_ABS SECCOMP_DATA_ARCH; bpf_jump JEQ_K arch 0 skip_to_allow; bpf_stmt LD_ABS SECCOMP_DATA_NR]
  ++ check_blocked num_blocked 0 blocked
  ++ [bpf_stmt RET_K SECCOMP_RET_ALLOW; bpf_stmt RET_K SECCOMP_RET_ERRNO_EPERM].

(** ** The kernel *)

(** What a filter sees of a call. *)
Record SeccompData := mkSeccompData { sd_nr : Z; sd_arch : Z }.

(** The machine of the filters: [bpf_exec prog d pc a] is the value the program
    returns from instruction [pc] with accumulator [a]. *)
Class BpfMachine := bpf_exec : list BpfInsn → SeccompData → nat → Z → option Z.

(** What the manual says of the instructions used here: a load of the call number at
    offset 0 and of the architecture at offset 4, a jump relative to the next
    instruction, and the return of a constant. *)
Class BpfLaws (M : BpfMachine) := {
  bpf_ld_nr : ∀ p d pc a, p !! pc = Some (bpf_stmt LD_ABS SECCOMP_DATA_NR) →
    bpf_exec p d pc a = bpf_exec p d (S pc) (sd_nr d);
  bpf_ld_arch : ∀ p d pc a, p !! pc = Some (bpf_stmt LD_ABS SECCOMP_DATA_ARCH) →
    bpf_exec p d pc a = bpf_exec p d (S pc) (sd_arch d);
  bpf_jeq : ∀ p d pc a k jt jf, p !! pc = Some (bpf_jump JEQ_K k jt jf) → 0 <= jt → 0 <= jf →
    bpf_exec p d pc a = bpf_exec p d (S pc + Z.to_nat (if a =? k then jt else jf)) a;
  bpf_ret : ∀ p d pc a k, p !! pc = Some (bpf_stmt RET_K k) → bpf_exec p d pc a = Some k;
}.

(** The identity of a process. *)
Record Creds := mkCreds { uids : Z * Z * Z; gids : Z * Z * Z; groups : list Z }.

Definition with_uids (u : Z) (c : Creds) : Creds := mkCreds (u, u, u) (gids c) (groups c).
Definition with_gids (g : Z) (c : Creds) : Creds := mkCreds (uids c) (g, g, g) (groups c).

(** Everything the drop changes about a process of one thread.  On Linux
    [PR_SET_NO_NEW_PRIVS] and [PR_SET_SECCOMP], used without [TSYNC], act on the calling
    thread; no code of the daemon starts another before the drop, and threads started
    later inherit both. *)
Record ProcState := mkProcState {
  p_creds : Creds; p_no_new_privs : bool; p_filters : list (list BpfInsn); p_capability_mode : bool }.

Definition with_creds (c : Creds) (p : ProcState) : ProcState :=
  mkProcState c (p_no_new_privs p) (p_filters p) (p_capability_mode p).

(** The effective user is root. *)
Definition is_root (p : ProcState) : Prop := (uids (p_creds p)).1.2 = 0.

(** The system calls of the drop, on the kernel's state of the process. *)
Class UnixKernel := {
  sys_setgid : Z → ProcState → ProcState * result () IoError;
  sys_setuid : Z → ProcState → ProcState * result () IoError;
  sys_no_new_privs : ProcState → ProcState * result () IoError;
  sys_seccomp : list BpfInsn → ProcState → ProcState * result () IoError;
  sys_cap_enter : ProcState → ProcState * result () IoError;
}.

(** A privileged [setgid] or [setuid] sets all three ids and no others; the sandboxing
    calls set what they are named after; a call that fails changes nothing. *)
Class UnixLaws (K : UnixKernel) := {
  setgid_root : ∀ g p, is_root p → (sys_setgid g p).2 = Ok () → (sys_setgid g p).1 = with_creds (with_gids g (p_creds p)) p;
  setuid_root : ∀ u p, is_root p → (sys_setuid u p).2 = Ok () → (sys_setuid u p).1 = with_creds (with_uids u (p_creds p)) p;
  no_new_privs_ok : ∀ p, (sys_no_new_privs p).2 = Ok () →
    (sys_no_new_privs p).1 = mkProcState (p_creds p) true (p_filters p) (p_capability_mode p);
  seccomp_ok : ∀ f p, (sys_seccomp f p).2 = Ok () →
    (sys_seccomp f p).1 = mkProcState (p_creds p) (p_no_new_privs p) (f :: p_filters p) (p_capability_mode p);
  cap_enter_ok : ∀ p, (sys_cap_enter p).2 = Ok () →
    (sys_cap_enter p).1 = mkProcState (p_creds p) (p_no_new_privs p) (p_filters p) true;
  setgid_err : ∀ g p e, (sys_setgid g p).2 = Err e → (sys_setgid g p).1 = p;
  setuid_err : ∀ u p e, (sys_setuid u p).2 = Err e → (sys_setuid u p).1 = p;
}.

(** ** The drop *)

(** [target_os]. *)
Inductive TargetOs := OsLinux | OsFreeBsd | OsMacOs | OsOther.

Section Drop.
  Context {K : UnixKernel}.

Definition sys_then (m : ProcState * result () IoError) (k : ProcState → ProcState * result () IoError)
    : ProcState * result () IoError :=
  match m with (p, Ok _) => k p | (p, Err e) => (p, Err e) end.

Definition posix_drop_ids (uid gid : Z) (p : ProcState) : ProcState * result () IoError :=
  sys_then (sys_setgid gid p) (fun p => sys_then (sys_setuid uid p) (fun p => (p, Ok ()))).

Definition install_seccomp_filter (t : TargetArch) (p : ProcState) : ProcState * result () IoError :=
  sys_then (sys_seccomp (build_filter t) p) (fun p => (p, Ok ())).

Definition linux_drop_and_sandbox (t : TargetArch) (uid gid : Z) (p : ProcState) : ProcState * result () IoError :=
  sys_then (posix_drop_ids uid gid p) (fun p => sys_then (sys_no_new_privs p) (fun p => install_seccomp_filter t p)).

Definition freebsd_drop_and_sandbox (uid gid : Z) (p : ProcState) : ProcState * result () IoError :=
  sys_then (posix_drop_ids uid gid p) (fun p => sys_then (sys_cap_enter p) (fun p => (p, Ok ()))).

Definition macos_drop_and_sandbox (uid gid : Z) (p : ProcState) : ProcState * result () IoError := posix_drop_ids uid gid p.

Record DropConfig := mkDropConfig { dc_uid : Z; dc_gid : Z }.
Record Privileged := mkPrivileged { pr_config : DropConfig }.
Inductive Unprivileged := mkUnprivileged.

(** [Privileged::drop_privileges], with the lines of its audit log. *)
Definition drop_privileges (os : TargetOs) (t : TargetArch) (self : Privileged) (p : ProcState)
    : ProcState * list str * result Unprivileged IoError :=
  let '(uid, gid) := (dc_uid (pr_config self), dc_gid (pr_config self)) in
  let line s now := lit "[audit] privilege-drop: " ++ lit s ++ lit " (" ++ lit now ++ lit " uid=" ++ show_uint uid ++ lit " gid="
                    ++ show_uint gid ++ lit ")" in
  let '(p, r) := match os with
    | OsLinux => linux_drop_and_sandbox t uid gid p
    | OsFreeBsd => freebsd_drop_and_sandbox uid gid p
    | OsMacOs => macos_drop_and_sandbox uid gid p
    | OsOther => (p, Ok ())
    end in
  match r with
  | Err e => (p, [line "starting" "target"], Err e)
  | Ok _ => (p, [line "starting" "target"; line "complete" "now"], Ok mkUnprivileged)
  end.

(** [drop_privileges_if_root] of the client: [getuid] is the real uid. *)
Definition drop_privileges_if_root (os : TargetOs) (t : TargetArch) (p : ProcState) : ProcState * result () IoError :=
  if negb ((uids (p_creds p)).1.1 =? 0) then (p, Ok ())
  else
    match drop_privileges os t (mkPrivileged (mkDropConfig 65534 65534)) p with
    | (p, _, Ok _) => (p, Ok ())
    | (p, _, Err e) => (p, Err e)
    end.

End Drop.

(** ** Lemmas *)

#[export] Instance TargetOs_eq_dec : EqDecision TargetOs.
Proof. solve_decision. Defined.

Lemma length_check_blocked n i blocked : length (check_blocked n i blocked) = length blocked.
Proof. revert i. induction blocked as [|nr blocked IH]; intros i; cbn; [done|]. by rewrite IH. Qed.

(** The verdict of the blocklist on a call. *)
Definition blocklist_verdict (blocked : list Z) (nr : Z) : Z :=
  if bool_decide (nr ∈ blocked) then SECCOMP_RET_ERRNO_EPERM else SECCOMP_RET_ALLOW.

(** What the daemon's sandbox is meant to answer to a call. *)
Definition sandbox_verdict (t : TargetArch) (d : SeccompData) : Z :=
  let '(arch, blocked) := arch_and_blocked t in
  if sd_arch d =? arch then blocklist_verdict blocked (sd_nr d) else SECCOMP_RET_ALLOW.

Section FilterLemmas.
  Context {M : BpfMachine} {ML : BpfLaws M}.

Lemma at_drop {A} (p l : list A) (pc i : nat) : drop pc p = l → p !! (pc + i)%nat = l !! i.
Proof. intros <-. by rewrite lookup_drop. Qed.

(** The checks from the [i]-th on, with the number of the call loaded. *)
Lemma exec_checks p d n blocked : ∀ i pc,
  drop pc p = check_blocked n i blocked ++ [bpf_stmt RET_K SECCOMP_RET_ALLOW; bpf_stmt RET_K SECCOMP_RET_ERRNO_EPERM] →
  n = (i + length blocked)%nat → (n < 255)%nat → bpf_exec p d pc (sd_nr d) = Some (blocklist_verdict blocked (sd_nr d)).
Proof.
  induction blocked as [|nr blocked IH]; intros i pc Hd Hn Hlt.
  { eapply bpf_ret. rewrite <-(Nat.add_0_r pc). by rewrite (at_drop _ _ _ _ Hd). }
  cbn [length] in Hn. cbn [check_blocked app] in Hd.
  assert (Hpc : p !! pc = Some (bpf_jump JEQ_K nr (wrap 8 (Z.of_nat (n - i - 1) + 1)) 0)).
  { rewrite <-(Nat.add_0_r pc). by rewrite (at_drop _ _ _ _ Hd). }
  rewrite wrap_small in Hpc by zlia. rewrite (bpf_jeq _ _ _ _ _ _ _ Hpc) by lia.
  unfold blocklist_verdict. destruct (Z.eqb_spec (sd_nr d) nr) as [E|E].
  - rewrite bool_decide_true by (rewrite E; left). eapply bpf_ret.
    replace (S pc + Z.to_nat (Z.of_nat (n - i - 1) + 1))%nat with (pc + (2 + length blocked))%nat by lia.
    rewrite (at_drop _ _ _ _ Hd). change (2 + length blocked)%nat with (S (S (length blocked))). rewrite lookup_cons.
    rewrite lookup_app_r by (rewrite length_check_blocked; lia). rewrite length_check_blocked.
    by replace (S (length blocked) - length blocked)%nat with 1%nat by lia.
  - change (Z.to_nat 0) with 0%nat. rewrite Nat.add_0_r. rewrite (IH (S i)); [|..|lia|done].
    + f_equal. unfold blocklist_verdict. rewrite (bool_decide_ext (sd_nr d ∈ nr :: blocked) (sd_nr d ∈ blocked)); [done|].
      rewrite elem_of_cons. naive_solver.
    + change (S pc) with (1 + pc)%nat. rewrite Nat.add_comm, <-drop_drop, Hd. done.
Qed.

(** The seccomp filter is exact: on a call of the architecture the daemon is built
    for, the program returns EPERM when the number is one of the blocked ones and
    ALLOW otherwise; on a call of any other architecture it returns ALLOW.  Every
    jump lands inside the program. *)
Lemma filter_verdict (t : TargetArch) (d : SeccompData) : bpf_exec (build_filter t) d 0 0 = Some (sandbox_verdict t d).
Proof.
  unfold sandbox_verdict. destruct (arch_and_blocked t) as [arch blocked] eqn:Et.
  assert (Hn : (length blocked < 254)%nat) by (destruct t; injection Et as <- <-; cbn; lia).
  unfold build_filter. rewrite Et. set (p := _ ++ _).
  rewrite (bpf_ld_arch p d 0) by done. rewrite (bpf_jeq p d 1 _ _ _ _ eq_refl); [|lia|rewrite wrap_small by zlia; lia].
  rewrite wrap_small by zlia. destruct (sd_arch d =? arch).
  - change (2 + Z.to_nat 0)%nat with 2%nat. rewrite (bpf_ld_nr p d 2) by done. 
    apply (exec_checks _ _ (length blocked) _ 0); [done|done|lia].
  - eapply bpf_ret. unfold p. rewrite app_assoc, lookup_app_r by (rewrite length_app, length_check_blocked; cbn; lia).
    rewrite length_app, length_check_blocked. cbn [length].
    by replace (2 + Z.to_nat (1 + Z.of_nat (length blocked)) - (3 + length blocked))%nat with 0%nat by lia.
Qed.

End FilterLemmas.

Section DropLemmas.
  Context {K : UnixKernel} {KL : UnixLaws K}.

Lemma sys_then_ok m k p' : sys_then m k = (p', Ok ()) → m.2 = Ok () ∧ k m.1 = (p', Ok ()).
Proof. destruct m as [p [[]|e]]; cbn; [done|congruence]. Qed.

Lemma sys_then_err m k p' e : sys_then m k = (p', Err e) → (m.2 = Err e ∧ m.1 = p') ∨ (m.2 = Ok () ∧ k m.1 = (p', Err e)).
Proof. destruct m as [p [[]|e']]; cbn; intros Hk; [by right|left; by simplify_eq]. Qed.

(** The ids of a dropped process. *)
Definition dropped (uid gid : Z) (c : Creds) : Creds := mkCreds (uid, uid, uid) (gid, gid, gid) (groups c).

Lemma posix_drop_ids_ok uid gid p p' : is_root p → posix_drop_ids uid gid p = (p', Ok ()) →
  p' = with_creds (dropped uid gid (p_creds p)) p.
Proof.
  intros Hr (Hg & Hu)%sys_then_ok. rewrite (setgid_root gid p Hr Hg) in Hu. apply sys_then_ok in Hu as [Hu E].
  injection E as <-. by rewrite (setuid_root uid (with_creds (with_gids gid (p_creds p)) p) Hr Hu).
Qed.

(** What a successful drop leaves, on each platform. *)
Lemma drop_privileges_ok os t uid gid p p' log : is_root p → os ≠ OsOther →
  drop_privileges os t (mkPrivileged (mkDropConfig uid gid)) p = (p', log, Ok mkUnprivileged) →
  p' = mkProcState (dropped uid gid (p_creds p)) (bool_decide (os = OsLinux) || p_no_new_privs p)
         ((if bool_decide (os = OsLinux) then [build_filter t] else []) ++ p_filters p)
         (bool_decide (os = OsFreeBsd) || p_capability_mode p).
Proof.
  intros Hr Hos. unfold drop_privileges. cbn [pr_config dc_uid dc_gid].
  destruct (match os with OsLinux => _ | _ => _ end) as [q [[]|e]] eqn:Em; [|done]. intros [= <- _].
  assert (Hids : ∀ k, sys_then (posix_drop_ids uid gid p) k = (q, Ok ()) →
            k (with_creds (dropped uid gid (p_creds p)) p) = (q, Ok ())).
  { intros k [Hd Hk]%sys_then_ok. destruct (posix_drop_ids uid gid p) as [p1 r1] eqn:E1. cbn in Hd, Hk. subst r1.
    by rewrite <-(posix_drop_ids_ok uid gid p p1 Hr E1). }
  destruct os; [| | |done].
  - apply Hids, sys_then_ok in Em as [Hn Em]. rewrite (no_new_privs_ok _ Hn) in Em.
    apply sys_then_ok in Em as [Hs Em]. rewrite (seccomp_ok _ _ Hs) in Em. by simplify_eq.
  - apply Hids, sys_then_ok in Em as [Hn Em]. rewrite (cap_enter_ok _ Hn) in Em. by simplify_eq.
  - by apply posix_drop_ids_ok.
Qed.

End DropLemmas.

(** ** Theorems *)

Section PrivProps.
  Context {M : BpfMachine} {ML : BpfLaws M} {K : UnixKernel} {KL : UnixLaws K}.

(** C40: A successful drop by a root process changes every real, effective and saved
    user and group id.  On Linux it also sets no-new-privileges and installs one filter
    that refuses exactly the blocked calls of the daemon's own architecture, every jump
    landing inside the program, and allows everything else; on FreeBSD it enters
    capability mode.  The supplementary groups stay those of root. *)
Theorem privilege_drop_exact (os : TargetOs) (t : TargetArch) (uid gid : Z) (p p' : ProcState) (log : list str) :
  is_root p → os ≠ OsOther →
  drop_privileges os t (mkPrivileged (mkDropConfig uid gid)) p = (p', log, Ok mkUnprivileged) →
  uids (p_creds p') = (uid, uid, uid) ∧ gids (p_creds p') = (gid, gid, gid) ∧ groups (p_creds p') = groups (p_creds p) ∧
  match os with
  | OsLinux => p_no_new_privs p' = true ∧
      ∃ f, p_filters p' = f :: p_filters p ∧ ∀ d, bpf_exec f d 0 0 = Some (sandbox_verdict t d)
  | OsFreeBsd => p_capability_mode p' = true
  | _ => p_filters p' = p_filters p
  end.
Proof.
  intros Hr Hos Hd. rewrite (drop_privileges_ok os t uid gid p p' log Hr Hos Hd).
  split_and!; [done..|]. destruct os; cbn; [|done..]. split; [done|]. exists (build_filter t). split; [done|].
  intros d. apply filter_verdict.
Qed.

(** The client's drop keeps the supplementary groups the root process started with. *)
Theorem supplementary_groups_kept (os : TargetOs) (t : TargetArch) (p p' : ProcState) :
  is_root p → drop_privileges_if_root os t p = (p', Ok ()) → groups (p_creds p') = groups (p_creds p).
Proof.
  intros Hr. unfold drop_privileges_if_root. destruct (negb _); [congruence|].
  destruct (drop_privileges _ _ _ p) as [[q log] [[]|e]] eqn:E; [|done]. intros [= <-].
  destruct (decide (os = OsOther)) as [->|Hos]; [by injection E as <-|]. by rewrite (drop_privileges_ok _ _ _ _ _ _ _ Hr Hos E).
Qed.

(** The x32 calls of an x86-64 kernel carry the same architecture and bit 30 in the
    number: the filter lets every one of them through, the blocked ones too. *)
Theorem x32_calls_allowed (nr : Z) :
  nr ∈ (arch_and_blocked X86_64).2 →
  bpf_exec (build_filter X86_64) (mkSeccompData (Z.lor nr (2 ^ 30)) AUDIT_ARCH_X86_64) 0 0 = Some SECCOMP_RET_ALLOW.
Proof.
  intros Hnr. rewrite filter_verdict. f_equal. revert nr Hnr. apply Forall_forall. vm_compute. by repeat constructor.
Qed.

End PrivProps.

(** ** Witnesses *)

(** An interpreter of the subset, with the length of the program as fuel: every jump
    goes forward. *)
Fixpoint demo_run (fuel : nat) (p : list BpfInsn) (d : SeccompData) (pc : nat) (a : Z) : option Z :=
  match fuel, p !! pc with
  | S fuel, Some i =>
      if bpf_code i =? LD_ABS then
        demo_run fuel p d (S pc) (if bpf_k i =? SECCOMP_DATA_NR then sd_nr d else sd_arch d)
      else if bpf_code i =? JEQ_K then demo_run fuel p d (S pc + Z.to_nat (if a =? bpf_k i then bpf_jt i else bpf_jf i)) a
      else if bpf_code i =? RET_K then Some (bpf_k i)
      else None
  | _, _ => None
  end.

Lemma demo_run_fuel p d : ∀ n m pc a, (length p - pc <= n)%nat → (length p - pc <= m)%nat → demo_run n p d pc a = demo_run m p d pc a.
Proof.
  induction n as [|n IH]; intros [|m] pc a Hn Hm; [done|..]; cbn [demo_run].
  - by rewrite lookup_ge_None_2 by lia.
  - by rewrite lookup_ge_None_2 by lia.
  - destruct (p !! pc) as [i|] eqn:E; [|done]. apply lookup_lt_Some in E.
    destruct (bpf_code i =? LD_ABS); [apply IH; lia|]. destruct (bpf_code i =? JEQ_K); [apply IH; lia|done].
Qed.

#[local] Instance demo_bpf : BpfMachine := fun p d pc a => demo_run (length p - pc) p d pc a.

Lemma demo_bpf_step p d pc a i : p !! pc = Some i →
  bpf_exec p d pc a =
    if bpf_code i =? LD_ABS then bpf_exec p d (S pc) (if bpf_k i =? SECCOMP_DATA_NR then sd_nr d else sd_arch d)
    else if bpf_code i =? JEQ_K then bpf_exec p d (S pc + Z.to_nat (if a =? bpf_k i then bpf_jt i else bpf_jf i)) a
    else if bpf_code i =? RET_K then Some (bpf_k i) else None.
Proof.
  intros E. apply lookup_lt_Some in E as Hlt. unfold bpf_exec, demo_bpf.
  destruct (length p - pc)%nat as [|n] eqn:En; [lia|]. cbn [demo_run]. rewrite E.
  destruct (bpf_code i =? LD_ABS); [apply demo_run_fuel; lia|].
  destruct (bpf_code i =? JEQ_K); [apply demo_run_fuel; lia|done].
Qed.

#[local] Instance demo_bpf_laws : BpfLaws demo_bpf.
Proof. split; intros p d pc a; intros; match goal with H : _ !! _ = Some _ |- _ => by rewrite (demo_bpf_step _ _ _ _ _ H) end. Qed.

#[local] Instance demo_kernel : UnixKernel := {
  sys_setgid g p := if (uids (p_creds p)).1.2 =? 0 then (with_creds (with_gids g (p_creds p)) p, Ok ()) else (p, Err (OsError 1));
  sys_setuid u p := if (uids (p_creds p)).1.2 =? 0 then (with_creds (with_uids u (p_creds p)) p, Ok ()) else (p, Err (OsError 1));
  sys_no_new_privs p := (mkProcState (p_creds p) true (p_filters p) (p_capability_mode p), Ok ());
  sys_seccomp f p := (mkProcState (p_creds p) (p_no_new_privs p) (f :: p_filters p) (p_capability_mode p), Ok ());
  sys_cap_enter p := (mkProcState (p_creds p) (p_no_new_privs p) (p_filters p) true, Ok ());
}.

#[local] Instance demo_kernel_laws : UnixLaws demo_kernel.
Proof.
  split; try done; unfold is_root; cbn; intros n p.
  - intros ->. done.
  - intros ->. done.
  - intros e. by destruct (_ =? 0).
  - intros e. by destruct (_ =? 0).
Qed.

Definition demo_root : ProcState := mkProcState (mkCreds (0, 0, 0) (0, 0, 0) [0; 4]) false [] false.

Example privilege_drop_exact_witness :
  ∃ p' log, drop_privileges OsLinux X86_64 (mkPrivileged (mkDropConfig 65534 65534)) demo_root = (p', log, Ok mkUnprivileged) ∧
    uids (p_creds p') = (65534, 65534, 65534) ∧ groups (p_creds p') = [0; 4] ∧
    ∃ f, p_filters p' = [f] ∧ bpf_exec f (mkSeccompData 257 AUDIT_ARCH_X86_64) 0 0 = Some SECCOMP_RET_ERRNO_EPERM.
Proof.
  destruct (drop_privileges OsLinux X86_64 (mkPrivileged (mkDropConfig 65534 65534)) demo_root) as [[p' log] r] eqn:E.
  assert (r = Ok mkUnprivileged) as -> by (revert E; vm_compute; congruence).
  destruct (privilege_drop_exact OsLinux X86_64 65534 65534 demo_root p' log) as (H1 & _ & H3 & _ & f & H4 & H5).
  - reflexivity.
  - discriminate.
  - exact E.
  - exists p', log. split; [reflexivity|]. split; [exact H1|]. split; [exact H3|]. exists f. split; [exact H4|].
    rewrite H5. vm_compute. reflexivity.
Defined.
