(* ===== verification/Runners.v ===== *)
(** * The entry points of the daemon

    [crates/desmos-core/src/daemon]: the platform runners of [client.rs] and
    [server_loop.rs], from the creation of the TUN device to the end of the loop, and
    [run_daemon] of [runner.rs] that chooses one; [pipeline/mod.rs]: the plaintext runner.
    A run changes the descriptors of the TUN device, the sockets, the identity of the
    process and the tunnel state it publishes. *)

From stdpp Require Import base gmap numbers strings list.
From Stdlib Require Import ZArith Lia.
From S2P Require Import Prelude Str Wire Crypto Noise Session RateLimit Clients Strategy Engine Pipeline ServerLoop.
From S2P Require Import TunDev Sockets PrivDrop Config Daemon Tunnel.

(** What a run changes outside the loops. *)
Record Machine := mkMachine {
  ma_sys : TunDev.Sys;
  ma_sock : list SockCall;
  ma_proc : ProcState;
  ma_states : list TunnelState;
}.

Definition with_sys (s : TunDev.Sys) (m : Machine) : Machine := mkMachine s (ma_sock m) (ma_proc m) (ma_states m).
Definition with_sock (tr : list SockCall) (m : Machine) : Machine := mkMachine (ma_sys m) tr (ma_proc m) (ma_states m).
Definition with_proc (p : ProcState) (m : Machine) : Machine := mkMachine (ma_sys m) (ma_sock m) p (ma_states m).
Definition publish_state (s : TunnelState) (m : Machine) : Machine :=
  mkMachine (ma_sys m) (ma_sock m) (ma_proc m) (ma_states m ++ [s]).

(** The drop of the device and of a socket at the end of a runner. *)
Definition drop_tun (t : Tun) (m : Machine) : Machine := with_sys (tun_drop t (ma_sys m)) m.
Definition drop_udp (m : Machine) : Machine := with_sock (ma_sock m ++ [CallClose]) m.

(** ** The client *)

(** What the system gives a client: the answers of the calls that create the device, the
    set-up, the creation of the reactor and the registrations, the loop's side. *)
Record ClientWorld := mkClientWorld {
  cw_ifreq : Ifreq → Ifreq;
  cw_ctl_id : Z;
  cw_name_buf : bytes;
  cw_name_len : nat;
  cw_wintun : result () IoError;
  cw_setup : SetupEnv;
  cw_reactor : result () IoError;
  cw_send : LinkId → Datagram → result () IoError;
  cw_tun_send : bytes → result () IoError;
  cw_turns : list Turn;
}.

(** The device of each platform. *)
Definition create_tun (os : TargetOs) (w : ClientWorld) (s : TunDev.Sys) : panics (TunDev.Sys * result Tun IoError) :=
  match os with
  | OsLinux => Some (linux_create (lit "desmos0") (cw_ifreq w) s)
  | OsMacOs => macos_create (cw_ctl_id w) 0 (cw_name_buf w) (cw_name_len w) s
  | OsFreeBsd => '(_, out) ← freebsd_create 0 s; Some out
  | OsOther => Some (s, Err Unsupported)
  end.

Section Client.
  Context {RC : RingCrypto} {XO : X25519Ops} {K : UnixKernel} {S : Type} `{BondingStrategy S}.

(** The state with which [run_reactor_loop] enters its [loop]. *)
Definition client_start (engine : Engine S) (session : Session Established) (metrics : PipelineMetrics) (mtu : nat)
    (sockets : list SocketEntry) : ClientState S :=
  mkClientState engine session metrics (replicate (mtu + PACKET_OVERHEAD) 0) [] (replicate (length sockets) []) [] [] [].

(** [run_client_linux] and the two [run_client_kqueue]: the machine, the engine, the state
    of the loop once it was entered, and the result unless the loop goes on. *)
Definition run_client (os : TargetOs) (arch : TargetArch) (cfg : ClientConfig) (engine : Engine S) (metrics : PipelineMetrics)
    (mtu : nat) (w : ClientWorld) (m : Machine) : panics (Machine * Engine S * option (ClientState S) * option (result () IoError)) :=
  '(s, r) ← create_tun os w (ma_sys m);
  let m := with_sys s m in
  match r with
  | Err e => Some (m, engine, None, Some (Err e))
  | Ok tun =>
      match setup_sockets_and_handshake cfg engine (cw_setup w) with
      | (engine, Err e) => Some (drop_tun tun m, engine, None, Some (Err e))
      | (engine, Ok (sockets, session)) =>
          match drop_privileges_if_root os arch (ma_proc m) with
          | (p, Err e) => Some (drop_tun tun (with_proc p m), engine, None, Some (Err e))
          | (p, Ok _) =>
              let m := publish_state TunnelUp (with_proc p m) in
              match cw_reactor w with
              | Err e => Some (drop_tun tun m, engine, None, Some (Err e))
              | Ok _ =>
                  '(st, out) ← run_reactor_loop (mkLoopEnv sockets (cw_send w) (cw_tun_send w)) (cw_turns w)
                                 (client_start engine session metrics mtu sockets);
                  match out with
                  | None => Some (m, cs_engine st, Some st, None)
                  | Some (Err e) => Some (drop_tun tun m, cs_engine st, Some st, Some (Err e))
                  | Some (Ok _) => Some (drop_tun tun (publish_state TunnelDown m), cs_engine st, Some st, Some (Ok ()))
                  end
              end
          end
      end
  end.

(** ** The client on Windows *)

(** The reads of [recv], which block until a packet arrives: at the end of [tun_in] the
    loop stands still.  A packet that was read is followed by a call of the outbound
    stage, which reads the next one. *)
Definition windows_tun_part (env : LoopEnv) (st : ClientState S) : panics (option (ClientState S)) :=
  match cs_tun_in st with
  | [] => Some None
  | Ok (b :: p) :: q =>
      let pkt := take (length (cs_scratch st) - HEADER_LEN) (b :: p) in
      let st := mkClientState (cs_engine st) (cs_session st) (cs_metrics st) (copy_from_slice (cs_scratch st) HEADER_LEN pkt) q
                  (cs_udp_in st) (cs_sent st) (cs_written st) (cs_published st) in
      match q with
      | [] => Some None
      | r :: q => '(st, _) ← tun_stage env r (set_tun_in q st); Some (Some st)
      end
  | _ :: q => Some (Some (set_tun_in q st))
  end.

(** [for entry in &sockets]: one datagram of each socket, whatever the result. *)
Fixpoint windows_udp_part (env : LoopEnv) (idxs : list nat) (st : ClientState S) : ClientState S :=
  match idxs with
  | [] => st
  | i :: idxs =>
      let q := default [] (cs_udp_in st !! i) in
      let st := (udp_stage env (default (Err WouldBlock) (head q)) st).1 in
      windows_udp_part env idxs (set_udp_in i (tail q) st)
  end.

(** The [loop] of [run_client_windows]; the poll of a turn is not used. *)
Fixpoint windows_loop (env : LoopEnv) (turns : list Turn) (st : ClientState S)
    : panics (ClientState S * option (result () IoError)) :=
  match turns with
  | [] => Some (st, None)
  | t :: turns =>
      if tn_shutdown t then Some (st, Some (Ok ()))
      else
        let st := arrive t st in
        r ← windows_tun_part env st;
        match r with
        | None => Some (st, None)
        | Some st =>
            let st := windows_udp_part env (seq 0 (length (le_sockets env))) st in
            windows_loop env turns (publish (tn_stats_due t) st)
        end
  end.

(** [run_client_windows]: [tun] is the outcome of creating the adapter.  No privilege is
    dropped. *)
Definition run_client_windows (tun : result () IoError) (cfg : ClientConfig) (engine : Engine S) (metrics : PipelineMetrics)
    (mtu : nat) (w : ClientWorld) (m : Machine) : panics (Machine * Engine S * option (ClientState S) * option (result () IoError)) :=
  match tun with
  | Err e => Some (m, engine, None, Some (Err e))
  | Ok _ =>
      match setup_sockets_and_handshake cfg engine (cw_setup w) with
      | (engine, Err e) => Some (m, engine, None, Some (Err e))
      | (engine, Ok (sockets, session)) =>
          let m := publish_state TunnelUp m in
          '(st, out) ← windows_loop (mkLoopEnv sockets (cw_send w) (cw_tun_send w)) (cw_turns w)
                         (client_start engine session metrics mtu sockets);
          match out with
          | None => Some (m, cs_engine st, Some st, None)
          | Some r => Some (publish_state TunnelDown m, cs_engine st, Some st, Some r)
          end
      end
  end.

End Client.

(** ** The server *)

Record ServerWorld := mkServerWorld {
  sw_ifreq : Ifreq → Ifreq;
  sw_reactor : result () IoError;
  sw_turns : list ServerTurn;
}.

Section ServerRunner.
  Context {RC : RingCrypto} {XO : X25519Ops} {SK : SockKernel}.

(** [run_server_linux]. *)
Definition run_server_linux (listen_addr : SocketAddr) (registry : ClientRegistry) (metrics : PipelineMetrics) (mtu : nat)
    (w : ServerWorld) (m : Machine) : panics (Machine * option ServerLoopState * option (result () IoError)) :=
  let '(s, r) := linux_create (lit "desmos0") (sw_ifreq w) (ma_sys m) in
  let m := with_sys s m in
  match r with
  | Err e => Some (m, None, Some (Err e))
  | Ok tun =>
      let '(tr, r) := UdpSocket_bind SockLinux listen_addr (ma_sock m) in
      let m := with_sock tr m in
      match r with
      | Err e => Some (drop_tun tun m, None, Some (Err e))
      | Ok udp =>
          match sw_reactor w with
          | Err e => Some (drop_tun tun (drop_udp m), None, Some (Err e))
          | Ok _ =>
              limiter ← RateLimiter_with_default_policy;
              let m := publish_state TunnelUp m in
              let '(st, out) := run_server_loop (mtu + PACKET_OVERHEAD) (sw_turns w)
                                  (mkServerLoop (mkServerRun (ServerLoop.mkServer registry limiter ∅ metrics) [] []) [] []) in
              match out with
              | None => Some (m, Some st, None)
              | Some (Err e) => Some (drop_tun tun (drop_udp m), Some st, Some (Err e))
              | Some (Ok _) => Some (drop_tun tun (drop_udp (publish_state TunnelDown m)), Some st, Some (Ok ()))
              end
          end
      end
  end.

End ServerRunner.

(** ** The choice of the runner *)

(** The idle loop of the modes without a runner: the shutdown flag of each turn. *)
Fixpoint idle_loop (shutdown : list bool) : option (result () IoError) :=
  match shutdown with [] => None | true :: _ => Some (Ok ()) | false :: shutdown => idle_loop shutdown end.

Definition runner_io (e : RunnerError) : IoError := match e with MissingRegistry => OtherError | _ => InvalidInput end.

(** The [target_os] the runners are compiled for, and the Unix ones among them. *)
Inductive RunPlatform := OnLinux | OnFreeBsd | OnMacOs | OnWindows | OnOther.

#[export] Instance RunPlatform_eq_dec : EqDecision RunPlatform.
Proof. solve_decision. Defined.

Definition unix_os (pf : RunPlatform) : option TargetOs :=
  match pf with OnLinux => Some OsLinux | OnFreeBsd => Some OsFreeBsd | OnMacOs => Some OsMacOs | _ => None end.

Definition entered {A} (st : option A) : bool := match st with Some _ => true | None => false end.

(** [run_daemon]: [files] reads key files, [shutdown] is for the idle loops.  The machine,
    whether the loop of a runner was entered, and the result unless a loop goes on. *)
Definition run_daemon {RC : RingCrypto} {XO : X25519Ops} {K : UnixKernel} {SK : SockKernel} (pf : RunPlatform) (arch : TargetArch)
    (files : str → result bytes IoError) (parse_addr : str → option SocketAddr) (cw : ClientWorld) (sw : ServerWorld)
    (shutdown : list bool) (config : Config) (m : Machine) : panics (Machine * bool * option (result () IoError)) :=
  let ctx := start_context files config in
  let mtu := Z.to_nat (g_tunnel_mtu (c_general config)) in
  match daemon_role parse_addr ctx with
  | Err e => Some (m, false, Some (Err (runner_io e)))
  | Ok (RoleClient cfg) =>
      match unix_os pf, pf with
      | Some os, _ =>
          '(m, _, st, out) ← run_client os arch cfg (ctx_engine ctx) (ctx_metrics ctx) mtu cw m; Some (m, entered st, out)
      | None, OnWindows =>
          '(m, _, st, out) ← run_client_windows (cw_wintun cw) cfg (ctx_engine ctx) (ctx_metrics ctx) mtu cw m; Some (m, entered st, out)
      | None, _ => Some (m, false, Some (Err Unsupported))
      end
  | Ok (RoleServer listen registry) =>
      match pf with
      | OnLinux => '(m, st, out) ← run_server_linux listen registry (ctx_metrics ctx) mtu sw m; Some (m, entered st, out)
      | _ => Some (m, false, idle_loop shutdown)
      end
  | Ok RoleP2p => Some (m, false, idle_loop shutdown)
  end.

(** ** The plaintext runner *)

Record PlaintextConfig := mkPlaintextConfig {
  pc_tun_name : str; pc_listen : SocketAddr; pc_peer : SocketAddr; pc_session_id : SessionId; pc_mtu : nat }.

Record PlainState := mkPlainState {
  pl_seq : Seq; pl_scratch : bytes; pl_tun_in : Queue; pl_udp_in : Queue; pl_sent : list Datagram; pl_written : list bytes }.

Record PlainEnv := mkPlainEnv { pe_send : Datagram → result () IoError; pe_tun_send : bytes → result () IoError }.

Definition is_would_block (e : IoError) : bool := match e with OsError c => c =? 11 | _ => false end.

Section Plain.
  Context (cfg : PlaintextConfig) (env : PlainEnv).

Definition plain_tun_stage (r : result bytes IoError) (st : PlainState) : PlainState * result nat IoError :=
  let '(seq, scratch, ds, res) := forward_tun_to_udp r (pe_send env) (pc_peer cfg) (pc_session_id cfg) (pl_seq st) (pl_scratch st) in
  (mkPlainState seq scratch (pl_tun_in st) (pl_udp_in st) (pl_sent st ++ ds) (pl_written st), res).

Definition plain_set_tun (q : Queue) (st : PlainState) : PlainState :=
  mkPlainState (pl_seq st) (pl_scratch st) q (pl_udp_in st) (pl_sent st) (pl_written st).
Definition plain_set_udp (q : Queue) (st : PlainState) : PlainState :=
  mkPlainState (pl_seq st) (pl_scratch st) (pl_tun_in st) q (pl_sent st) (pl_written st).

(** What ends an inner [loop] with an error: nothing, or a return of the runner. *)
Definition plain_exit (stops : IoError → bool) (e : IoError) : option IoError := if stops e then None else Some e.

(** The inner [loop] on the TUN, and the error the runner returns, if it does. *)
Fixpoint plain_drain_tun (q : Queue) (st : PlainState) : PlainState * option IoError :=
  match q with
  | [] =>
      let '(st, res) := plain_tun_stage (Err WouldBlock) st in
      (plain_set_tun [] st, match res with Err e => plain_exit is_would_block e | Ok _ => None end)
  | r :: q' =>
      let '(st', res) := plain_tun_stage r st in
      let rest := if (length (pl_scratch st) <? HEADER_LEN + 1)%nat then q else q' in
      match res with
      | Ok O => (plain_set_tun rest st', None)
      | Ok (S _) => plain_drain_tun q' st'
      | Err e => (plain_set_tun rest st', plain_exit is_would_block e)
      end
  end.

Definition plain_udp_stage (r : result bytes IoError) (st : PlainState) : PlainState * result nat IoError :=
  let '(out, res) := forward_udp_to_tun r (pe_tun_send env) (length (pl_scratch st)) in
  (mkPlainState (pl_seq st) (pl_scratch st) (pl_tun_in st) (pl_udp_in st) (pl_sent st) (pl_written st ++ option_list out), res).

(** A malformed datagram ends the loop too, and is dropped. *)
Definition plain_udp_stops (e : IoError) : bool := is_would_block e || match e with InvalidData => true | _ => false end.

Fixpoint plain_drain_udp (q : Queue) (st : PlainState) : PlainState * option IoError :=
  match q with
  | [] =>
      let '(st, res) := plain_udp_stage (Err WouldBlock) st in
      (plain_set_udp [] st, match res with Err e => plain_exit plain_udp_stops e | Ok _ => None end)
  | r :: q' =>
      let '(st', res) := plain_udp_stage r st in
      let rest := if (length (pl_scratch st) <? HEADER_LEN)%nat then q else q' in
      match res with
      | Ok _ => plain_drain_udp q' st'
      | Err e => (plain_set_udp rest st', plain_exit plain_udp_stops e)
      end
  end.

Definition plain_event (token : Z) (st : PlainState) : PlainState * option IoError :=
  if token =? TUN_TOKEN then plain_drain_tun (pl_tun_in st) st
  else if token =? UDP_TOKEN then plain_drain_udp (pl_udp_in st) st
  else (st, None).

Fixpoint plain_events (tokens : list Z) (st : PlainState) : PlainState * option IoError :=
  match tokens with
  | [] => (st, None)
  | t :: tokens => match plain_event t st with (st, None) => plain_events tokens st | (st, Some e) => (st, Some e) end
  end.

(** A turn: what arrived on the TUN and on the socket, and the poll. *)
Record PlainTurn := mkPlainTurn { pt_tun : Queue; pt_udp : Queue; pt_poll : result (list Z) IoError }.

Fixpoint plain_loop (turns : list PlainTurn) (st : PlainState) : PlainState * option IoError :=
  match turns with
  | [] => (st, None)
  | t :: turns =>
      let st := mkPlainState (pl_seq st) (pl_scratch st) (pl_tun_in st ++ pt_tun t) (pl_udp_in st ++ pt_udp t) (pl_sent st) (pl_written st) in
      match pt_poll t with
      | Err e => (st, Some e)
      | Ok tokens => match plain_events tokens st with (st, None) => plain_loop turns st | (st, Some e) => (st, Some e) end
      end
  end.

(** [run_plaintext_linux]: no result while the loop goes on. *)
Definition run_plaintext_linux {SK : SockKernel} (ifreq : Ifreq → Ifreq) (reactor : result () IoError) (turns : list PlainTurn) (m : Machine)
    : Machine * option PlainState * option IoError :=
  let '(s, r) := linux_create (pc_tun_name cfg) ifreq (ma_sys m) in
  let m := with_sys s m in
  match r with
  | Err e => (m, None, Some e)
  | Ok tun =>
      let '(tr, r) := UdpSocket_bind SockLinux (pc_listen cfg) (ma_sock m) in
      let m := with_sock tr m in
      match r with
      | Err e => (drop_tun tun m, None, Some e)
      | Ok udp =>
          match reactor with
          | Err e => (drop_tun tun (drop_udp m), None, Some e)
          | Ok _ =>
              match plain_loop turns (mkPlainState 0 (replicate (pc_mtu cfg + PACKET_OVERHEAD) 0) [] [] [] []) with
              | (st, None) => (m, Some st, None)
              | (st, Some e) => (drop_tun tun (drop_udp m), Some st, Some e)
              end
          end
      end
  end.

End Plain.

(** ** Lemmas *)

(** *** Life cycles *)

Lemma create_tun_no_leak os w s s' r : fresh_open s → create_tun os w s = Some (s', r) → no_leak s s' r.
Proof.
  intros Hf. destruct os; cbn [create_tun].
  - intros [= E]. by apply (linux_no_leak _ _ _ _ _ Hf E).
  - destruct (freebsd_create 0 s) as [[path [s1 r1]]|] eqn:E; [|done]. intros [= <- <-]. by apply (freebsd_no_leak _ _ _ _ _ Hf E).
  - apply (macos_no_leak _ _ _ _ _ _ _ Hf).
  - intros [= <- <-]. done.
Qed.

(** The first descriptor of the script is new and not negative. *)
Definition tun_fd_ok (s : TunDev.Sys) : Prop := fresh_open s ∧ ∀ fd rs, sy_returns s = Ok fd :: rs → 0 <= fd.

Lemma opened_fd s s' fd : sys_open_fd s = (s', Ok fd) → ∃ rs, sy_returns s = Ok fd :: rs.
Proof. unfold sys_open_fd, syscall. destruct (sy_returns s) as [|[x|e] rs]; [done|intros [= _ <-]; eauto|done]. Qed.

Lemma linux_create_fd requested answer s s' t : linux_create requested answer s = (s', Ok t) → ∃ rs, sy_returns s = Ok (tun_fd t) :: rs.
Proof.
  unfold linux_create. destruct (sys_open_fd s) as [s1 [fd|e]] eqn:E; [|done]. destruct (Ifreq_with_flags _ _); [|done].
  destruct (syscall s1) as [s2 [x|e]]; [|done]. intros [= _ <-]. by eapply opened_fd.
Qed.

(** A created device is the one the script returned. *)
Lemma create_tun_fd os w s s' t : create_tun os w s = Some (s', Ok t) → ∃ rs, sy_returns s = Ok (tun_fd t) :: rs.
Proof.
  destruct os; cbn [create_tun]; [..|done].
  - intros [= E]. by eapply linux_create_fd.
  - unfold freebsd_create. destruct (write_dev_path _ _) as [[[len buf]|e]|]; [|done..]. cbn [mbind option_bind].
    destruct (slice_checked _ _ _); [|done]. cbn [mbind option_bind].
    destruct (sys_open_fd s) as [s1 [fd|e]] eqn:E; [|done]. destruct (freebsd_init _ _ _) as [s2 [u|e]] eqn:E2; [|done].
    intros [= _ <-]. rewrite (fcntls_result _ _ _ _ E2). by eapply opened_fd.
  - unfold macos_create. destruct (sys_open_fd s) as [s1 [fd|e]] eqn:E; [|done].
    destruct (macos_init _ _ _ _ _ _) as [[s2 [u|e]]|] eqn:E2; [|done..]. cbn [mbind option_bind]. intros [= _ <-].
    apply macos_init_spec in E2 as [_ Hu]. rewrite (Hu u eq_refl). by eapply opened_fd.
Qed.

Lemma owned_tun_drop s s' t rs : tun_fd_ok s → sy_returns s = Ok (tun_fd t) :: rs → no_leak s s' (Ok t) → sy_open (tun_drop t s') = sy_open s.
Proof. intros [Hf H0] Hr Hn. apply drop_restores; [by eapply H0|by eapply Hf|exact Hn]. Qed.

Lemma created_tun_drop os w s s' t : tun_fd_ok s → create_tun os w s = Some (s', Ok t) → sy_open (tun_drop t s') = sy_open s.
Proof.
  intros Hfd E. destruct (create_tun_fd _ _ _ _ _ E) as [rs Hr]. eapply owned_tun_drop; [done|done|].
  exact (create_tun_no_leak _ _ _ _ _ (proj1 Hfd) E).
Qed.

Lemma linux_created_drop requested answer s s' t : tun_fd_ok s → linux_create requested answer s = (s', Ok t) →
  sy_open (tun_drop t s') = sy_open s.
Proof.
  intros Hfd E. destruct (linux_create_fd _ _ _ _ _ E) as [rs Hr]. eapply owned_tun_drop; [done|done|].
  exact (linux_no_leak _ _ _ _ _ (proj1 Hfd) E).
Qed.

(** The client's drop: the ids of an unprivileged process, from a root one. *)
Lemma drop_if_root_ok `{UnixLaws} os arch p p' : ((uids (p_creds p)).1.1 = 0 → is_root p) → os ≠ OsOther →
  drop_privileges_if_root os arch p = (p', Ok ()) →
  (uids (p_creds p')).1.1 ≠ 0 ∧ ((uids (p_creds p)).1.1 = 0 → p_creds p' = dropped 65534 65534 (p_creds p)).
Proof.
  intros Hr Hos. unfold drop_privileges_if_root. destruct (Z.eqb_spec (uids (p_creds p)).1.1 0) as [Hz|Hz]; cbn [negb].
  - destruct (drop_privileges _ _ _ p) as [[q log] [[]|e]] eqn:E; [|done]. intros [= <-].
    rewrite (drop_privileges_ok _ _ _ _ _ _ _ (Hr Hz) Hos E). done.
  - intros [= <-]. done.
Qed.

Lemma replay_app {SK : SockKernel} tr a b st : replay tr (a ++ b) st = replay (tr ++ a) b (replay tr a st).
Proof.
  revert tr st. induction a as [|c a IH]; intros tr st; cbn [app]; [by rewrite app_nil_r|].
  rewrite !replay_cons, IH. by rewrite <-app_assoc.
Qed.

(** Everything a run opened is closed again. *)
Definition released {SK : SockKernel} (m m' : Machine) : Prop :=
  sy_open (ma_sys m') = sy_open (ma_sys m) ∧
  ∃ cs, ma_sock m' = ma_sock m ++ cs ∧ ∀ n, ss_open (replay (ma_sock m) cs (mkSockStatus n false false)) = n.

Lemma bound_then_closed {SK : SockKernel} os addr tr tr' udp : UdpSocket_bind os addr tr = (tr', Ok udp) →
  ∃ cs, tr' ++ [CallClose] = tr ++ cs ∧ ∀ n, ss_open (replay tr cs (mkSockStatus n false false)) = n.
Proof.
  intros (cs & -> & H)%UdpSocket_bind_outcome. exists (cs ++ [CallClose]). split; [by rewrite app_assoc|].
  intros n. destruct (H n) as (c & E & _). rewrite replay_app, E. done.
Qed.

Lemma not_bound_closed {SK : SockKernel} os addr tr tr' e : UdpSocket_bind os addr tr = (tr', Err e) →
  ∃ cs, tr' = tr ++ cs ∧ ∀ n, ss_open (replay tr cs (mkSockStatus n false false)) = n.
Proof.
  intros (cs & -> & H)%UdpSocket_bind_outcome. exists cs. split; [done|]. intros n. by destruct (H n) as (c & -> & _).
Qed.

(** The states a run publishes: up when the loop is entered, and down after it when the
    loop ends well; a run that does not get to its loop ends with an error, and published
    nothing, unless it is a client ([late]) whose reactor could not be set up. *)
Definition run_states (late : result () IoError) (loop : bool) (m m' : Machine) (out : option (result () IoError)) : Prop :=
  if loop then ma_states m' = ma_states m ++ TunnelUp :: match out with Some (Ok _) => [TunnelDown] | _ => [] end
  else ∃ e, out = Some (Err e) ∧
    (ma_states m' = ma_states m ∨ late = Err e ∧ ma_states m' = ma_states m ++ [TunnelUp]).

Lemma no_states late m m' e : ma_states m' = ma_states m → run_states late false m m' (Some (Err e)).
Proof. intros E. exists e. split; [done|by left]. Qed.

Lemma socks_kept {SK : SockKernel} (m m' : Machine) : ma_sock m' = ma_sock m →
  ∃ cs, ma_sock m' = ma_sock m ++ cs ∧ ∀ n, ss_open (replay (ma_sock m) cs (mkSockStatus n false false)) = n.
Proof. intros E. exists []. by rewrite app_nil_r. Qed.

Lemma failed_tun_no_leak os w s s' e : tun_fd_ok s → create_tun os w s = Some (s', Err e) → sy_open s' = sy_open s.
Proof. intros [Hf _] E. exact (create_tun_no_leak _ _ _ _ _ Hf E). Qed.

(** Every step before the loop of the Unix clients succeeds. *)
Definition client_ready {RC : RingCrypto} {XO : X25519Ops} {K : UnixKernel} {S : Type} (os : TargetOs) (arch : TargetArch)
    (cfg : ClientConfig) (engine : Engine S) (w : ClientWorld) (m : Machine) : Prop :=
  ∃ s tun engine' ready p, create_tun os w (ma_sys m) = Some (s, Ok tun) ∧
    setup_sockets_and_handshake cfg engine (cw_setup w) = (engine', Ok ready) ∧
    drop_privileges_if_root os arch (ma_proc m) = (p, Ok ()) ∧ cw_reactor w = Ok ().

(** The same of the Windows client and of the server. *)
Definition windows_ready {RC : RingCrypto} {XO : X25519Ops} {S : Type} (cfg : ClientConfig) (engine : Engine S) (w : ClientWorld) : Prop :=
  cw_wintun w = Ok () ∧ ∃ engine' ready, setup_sockets_and_handshake cfg engine (cw_setup w) = (engine', Ok ready).

Definition server_ready {SK : SockKernel} (listen : SocketAddr) (w : ServerWorld) (m : Machine) : Prop :=
  ∃ s tun tr udp, linux_create (lit "desmos0") (sw_ifreq w) (ma_sys m) = (s, Ok tun) ∧
    UdpSocket_bind SockLinux listen (ma_sock m) = (tr, Ok udp) ∧ sw_reactor w = Ok ().

Section ClientLife.
  Context {RC : RingCrypto} {XO : X25519Ops} {K : UnixKernel} {KL : UnixLaws K} {SK : SockKernel} {S : Type} `{BondingStrategy S}.

Lemma client_run_spec os arch cfg (engine : Engine S) metrics mtu w m m' engine' st out :
  os ≠ OsOther → tun_fd_ok (ma_sys m) → ((uids (p_creds (ma_proc m))).1.1 = 0 → is_root (ma_proc m)) →
  run_client os arch cfg engine metrics mtu w m = Some (m', engine', st, out) →
  run_states (cw_reactor w) (entered st) m m' out ∧ (entered st = true ↔ client_ready os arch cfg engine w m) ∧
  (ma_states m' ≠ ma_states m → (uids (p_creds (ma_proc m'))).1.1 ≠ 0) ∧ (is_Some out → released m m').
Proof.
  intros Hos Hfd Hroot. unfold run_client. destruct (create_tun os w (ma_sys m)) as [[s [tun|e]]|] eqn:Et; [..|done]; cbn [mbind option_bind].
  2:{ intros [= <- <- <- <-]. split_and!; [by apply no_states|split; [done|intros (? & ? & ? & ? & ? & ? & _); congruence]|done|].
      intros _. split; [by apply (failed_tun_no_leak os w _ _ e)|by apply socks_kept]. }
  pose proof (created_tun_drop _ _ _ _ _ Hfd Et) as Hdrop.
  destruct (setup_sockets_and_handshake cfg engine (cw_setup w)) as [engine1 [[sockets session]|e]] eqn:Es.
  2:{ intros [= <- <- <- <-]. split_and!; [by apply no_states|split; [done|intros (? & ? & ? & ? & ? & _ & ? & _); congruence]|done|].
      intros _. split; [done|by apply socks_kept]. }
  destruct (drop_privileges_if_root os arch _) as [p [[]|e]] eqn:Ep.
  2:{ intros [= <- <- <- <-]. split_and!; [by apply no_states|split; [done|intros (? & ? & ? & ? & ? & _ & _ & Hd & _); cbn in Ep; congruence]|done|].
      intros _. split; [done|by apply socks_kept]. }
  destruct (drop_if_root_ok _ _ _ _ Hroot Hos Ep) as [Hp _].
  destruct (cw_reactor w) as [[]|e] eqn:Er.
  2:{ intros [= <- <- <- <-]. split_and!; [exists e; split; [done|by right]|split; [done|intros (? & ? & ? & ? & ? & _ & _ & _ & ?); congruence]|done|].
      intros _. split; [done|by apply socks_kept]. }
  assert (Hready : client_ready os arch cfg engine w m) by (exists s, tun, engine1, (sockets, session), p; by split_and!).
  destruct (run_reactor_loop _ _ _) as [[st1 [[[]|e]|]]|]; [..|done]; cbn [mbind option_bind]; intros [= <- <- <- <-]; split_and!; try done.
  all: first [by cbn; rewrite <-app_assoc | by intros [] | intros _; split; [done|by apply socks_kept]].
Qed.

Lemma windows_loop_result env turns : ∀ (st st' : ClientState S) e, windows_loop env turns st ≠ Some (st', Some (Err e)).
Proof.
  induction turns as [|t turns IH]; intros st st' e; cbn [windows_loop]; [done|]. destruct (tn_shutdown t); [done|].
  destruct (windows_tun_part _ _) as [[st1|]|]; cbn [mbind option_bind]; [apply IH|done..].
Qed.

Lemma windows_run_spec cfg (engine : Engine S) metrics mtu w m m' engine' st out :
  run_client_windows (cw_wintun w) cfg engine metrics mtu w m = Some (m', engine', st, out) →
  run_states (cw_reactor w) (entered st) m m' out ∧ (entered st = true ↔ windows_ready cfg engine w) ∧
  ma_proc m' = ma_proc m ∧ (is_Some out → released m m').
Proof.
  unfold run_client_windows, windows_ready. destruct (cw_wintun w) as [[]|e].
  2:{ intros [= <- <- <- <-]. split_and!; [by apply no_states|by split; [|intros []]|done|]. intros _. split; [done|by apply socks_kept]. }
  destruct (setup_sockets_and_handshake cfg engine (cw_setup w)) as [engine1 [[sockets session]|e]] eqn:Es.
  2:{ intros [= <- <- <- <-]. split_and!; [by apply no_states|split; [done|intros (_ & ? & ? & ?); congruence]|done|].
      intros _. split; [done|by apply socks_kept]. }
  destruct (windows_loop _ _ _) as [[st1 [[[]|e]|]]|] eqn:El; [| |..|done]; cbn [mbind option_bind]; [|by apply windows_loop_result in El|];
    intros [= <- <- <- <-]; split_and!; try done; try by split; eauto.
  all: first [by cbn; rewrite <-app_assoc | by intros [] | intros _; split; [done|by apply socks_kept]].
Qed.

Lemma server_run_spec listen registry metrics mtu w m m' st out : tun_fd_ok (ma_sys m) →
  run_server_linux listen registry metrics mtu w m = Some (m', st, out) →
  run_states (Ok ()) (entered st) m m' out ∧ (entered st = true ↔ server_ready listen w m) ∧
  ma_proc m' = ma_proc m ∧ (is_Some out → released m m').
Proof.
  intros Hfd. unfold run_server_linux, server_ready.
  destruct (linux_create (lit "desmos0") (sw_ifreq w) (ma_sys m)) as [s [tun|e]] eqn:Et.
  2:{ intros [= <- <- <-]. split_and!; [by apply no_states|by split; [|intros (? & ? & ? & ? & ? & _)]|done|]. intros _.
      split; [exact (linux_no_leak _ _ _ _ _ (proj1 Hfd) Et)|by apply socks_kept]. }
  pose proof (linux_created_drop _ _ _ _ _ Hfd Et) as Hdrop. cbn [with_sys ma_sock].
  destruct (UdpSocket_bind SockLinux listen _) as [tr [udp|e]] eqn:Eb.
  2:{ intros [= <- <- <-]. split_and!; [by apply no_states|by split; [|intros (? & ? & ? & ? & _ & ? & _)]|done|].
      intros _. split; [done|]. by apply (not_bound_closed SockLinux listen _ _ e). }
  pose proof (bound_then_closed _ _ _ _ _ Eb) as Hclose.
  destruct (sw_reactor w) as [[]|e].
  2:{ intros [= <- <- <-]. split_and!; [by apply no_states|by split; [|intros (? & ? & ? & ? & _ & _ & ?)]|done|]. intros _. by split. }
  destruct RateLimiter_with_default_policy as [limiter|]; [|done]. cbn [mbind option_bind].
  destruct (run_server_loop _ _ _) as [st1 [[[]|e]|]]; intros [= <- <- <-]; split_and!; try done; try by split; eauto 10.
  all: first [by cbn; rewrite <-app_assoc | by intros [] | intros _; by split].
Qed.

End ClientLife.

(** *** The plaintext stages *)

Definition plain_frame (sid : SessionId) (seq : Z) (p : bytes) : bytes := Header_layout (data_header sid seq (length p)) ++ p.

(** A packet the plaintext stages carry. *)
Definition plain_fits (p : bytes) (room : nat) : Prop := p ≠ [] ∧ Z.of_nat (length p) <= 65535 ∧ (HEADER_LEN + length p <= room)%nat.

Lemma plain_outbound p send peer sid seq scratch : plain_fits p (length scratch) → (∀ d, send d = Ok ()) →
  ∃ scratch' n, forward_tun_to_udp (Ok p) send peer sid seq scratch
    = (Seq_next seq, scratch', [(peer, plain_frame sid seq p)], Ok (S n)) ∧ length scratch' = length scratch.
Proof.
  intros (Hne & Hlen & Hfit) Hsend. assert (Hp0 : length p ≠ O) by (by intros ?%nil_length_inv).
  unfold forward_tun_to_udp, read_into. rewrite (proj2 (Nat.ltb_ge _ _)) by lia. rewrite take_ge by lia.
  rewrite (proj2 (Nat.eqb_neq _ _)) by done. pose proof umax16_nat. rewrite (proj2 (Nat.ltb_ge _ _)) by lia.
  unfold encode_into. set (h := data_header sid seq (length p)). set (sc := copy_from_slice scratch HEADER_LEN p).
  assert (Hsc : length sc = length scratch) by (unfold sc; by rewrite length_inserts).
  rewrite Header_encode_spec by (rewrite length_take; lia). rewrite drop_ge, app_nil_r by (rewrite length_take; lia).
  rewrite Hsend. eexists _, _. split.
  - do 2 f_equal. f_equal. f_equal. unfold plain_frame. f_equal.
    rewrite take_app_ge by (rewrite length_Header_layout; lia). rewrite length_Header_layout. f_equal.
    replace (HEADER_LEN + length p - HEADER_LEN)%nat with (length p) by lia.
    unfold sc. rewrite copy_from_slice_eq by lia. rewrite drop_app_length' by (rewrite length_take; lia). apply take_app_length.
  - rewrite length_app, length_Header_layout, length_drop. lia.
Qed.

Lemma plain_inbound p sid seq tun_send n : in_width 16 sid → plain_fits p n → (∀ b, tun_send b = Ok ()) →
  forward_udp_to_tun (Ok (plain_frame sid seq p)) tun_send n = (Some p, Ok (length p)).
Proof.
  intros Hid (Hne & Hlen & Hfit) Hsend. unfold forward_udp_to_tun, read_into, plain_frame. set (h := data_header sid seq (length p)).
  rewrite (proj2 (Nat.ltb_ge _ _)) by lia. rewrite take_ge by (rewrite length_app, length_Header_layout; lia).
  rewrite length_app, length_Header_layout. rewrite (proj2 (Nat.ltb_ge _ _)) by lia. rewrite take_app_length' by done.
  pose proof (Header_decode_layout h [] (data_header_wf sid seq (length p) Hid)) as Hd. rewrite app_nil_r in Hd. rewrite Hd.
  replace (Z.to_nat (payload_len h)) with (length p). 2:{ simpl. rewrite wrap_small by (pow2; lia). lia. }
  cbn [packet_type h data_header]. rewrite bool_decide_true by done. cbn [negb]. rewrite (proj2 (Nat.ltb_ge _ _)) by lia.
  replace (slice HEADER_LEN (HEADER_LEN + length p) (Header_layout h ++ p)) with p; [by rewrite Hsend|].
  unfold slice. rewrite drop_app_length' by done. rewrite take_ge; [done|lia].
Qed.

(** The frames of successive packets. *)
Fixpoint plain_frames (sid : SessionId) (seq : Seq) (ps : list bytes) : list bytes :=
  match ps with [] => [] | p :: ps => plain_frame sid seq p :: plain_frames sid (Seq_next seq) ps end.

Section PlainLemmas.
  Context (cfg : PlaintextConfig) (env : PlainEnv).

Lemma plain_drain_tun_sends ps : ∀ st, (∀ d, pe_send env d = Ok ()) → (HEADER_LEN + 1 <= length (pl_scratch st))%nat →
  Forall (fun p => plain_fits p (length (pl_scratch st))) ps →
  ∃ st', plain_drain_tun cfg env (Ok <$> ps) st = (st', None) ∧
    pl_sent st' = pl_sent st ++ ((pc_peer cfg,.) <$> plain_frames (pc_session_id cfg) (pl_seq st) ps) ∧
    pl_tun_in st' = [] ∧ pl_udp_in st' = pl_udp_in st ∧ pl_written st' = pl_written st ∧ length (pl_scratch st') = length (pl_scratch st).
Proof.
  induction ps as [|p ps IH]; intros st Hsend Hsc Hps; cbn [fmap list_fmap plain_drain_tun].
  { unfold plain_tun_stage, forward_tun_to_udp. rewrite (proj2 (Nat.ltb_ge _ _)) by lia. cbn. eexists. split; [done|].
    by rewrite !app_nil_r. }
  apply Forall_cons in Hps as [Hp Hps].
  destruct (plain_outbound p (pe_send env) (pc_peer cfg) (pc_session_id cfg) (pl_seq st) (pl_scratch st) Hp Hsend) as (sc & n & E & Hl).
  unfold plain_tun_stage. rewrite E.
  destruct (IH (mkPlainState (Seq_next (pl_seq st)) sc (pl_tun_in st) (pl_udp_in st)
    (pl_sent st ++ [(pc_peer cfg, plain_frame (pc_session_id cfg) (pl_seq st) p)]) (pl_written st))) as (st' & E' & Hs & Ht & Hu & Hw & Hl');
    [done|cbn [pl_scratch]; lia|cbn [pl_scratch]; by rewrite Hl|].
  rewrite E'. exists st'. split; [done|]. cbn in Hs, Hu, Hw, Hl'. rewrite Hs, <-app_assoc. split_and!; [done..|lia].
Qed.


(** What arrives on a socket: frames of packets, and datagrams that are none. *)
Inductive PlainArrival := Frame (seq : Z) (p : bytes) | Garbage (g : bytes).

Definition arrival_data (sid : SessionId) (a : PlainArrival) : bytes := match a with Frame seq p => plain_frame sid seq p | Garbage g => g end.
Definition carried (l : list PlainArrival) : list bytes := l ≫= fun a => match a with Frame _ p => [p] | Garbage _ => [] end.
Fixpoint garbage (l : list PlainArrival) : nat :=
  match l with [] => 0 | Frame _ _ :: l => garbage l | Garbage _ :: l => S (garbage l) end.
Definition malformed (g : bytes) : Prop := (length g < HEADER_LEN)%nat ∨ ∃ e, Header_decode (take HEADER_LEN g) = Err e.
Definition arrival_ok (room : nat) (a : PlainArrival) : Prop :=
  match a with Frame _ p => plain_fits p room | Garbage g => malformed g ∧ (length g <= room)%nat end.

Lemma plain_inbound_garbage g tun_send n : (HEADER_LEN <= n)%nat → malformed g → (length g <= n)%nat →
  forward_udp_to_tun (Ok g) tun_send n = (None, Err InvalidData).
Proof.
  intros Hn Hg Hl. unfold forward_udp_to_tun, read_into. rewrite (proj2 (Nat.ltb_ge _ _)) by lia. rewrite take_ge by lia.
  destruct (Nat.ltb_spec (length g) HEADER_LEN) as [|Hlen]; [done|]. destruct Hg as [?|[e ->]]; [lia|done].
Qed.

Definition udp_turn : PlainTurn := mkPlainTurn [] [] (Ok [UDP_TOKEN]).

(** A state with the queue of the socket and the packets written replaced. *)
Definition plain_with (q : Queue) (w : list bytes) (st : PlainState) : PlainState :=
  mkPlainState (pl_seq st) (pl_scratch st) (pl_tun_in st) q (pl_sent st) w.

Lemma udp_turn_step k st : plain_loop cfg env (replicate (S k) udp_turn) st
  = match plain_drain_udp env (pl_udp_in st) st with (st, None) => plain_loop cfg env (replicate k udp_turn) st | r => r end.
Proof.
  cbn [replicate plain_loop pt_tun pt_udp pt_poll udp_turn]. rewrite !app_nil_r. cbn [plain_events]. unfold plain_event.
  cbn [UDP_TOKEN TUN_TOKEN Z.eqb pl_udp_in]. destruct st; cbn. by destruct (plain_drain_udp _ _ _) as [? []].
Qed.

Lemma plain_drain_arrivals sid l : ∀ st, in_width 16 sid → (∀ b, pe_tun_send env b = Ok ()) → (HEADER_LEN <= length (pl_scratch st))%nat →
  Forall (arrival_ok (length (pl_scratch st))) l →
  ∃ st1, plain_drain_udp env ((fun a => Ok (arrival_data sid a)) <$> l) st = (st1, None) ∧
    plain_loop cfg env (replicate (garbage l) udp_turn) st1 = (plain_with [] (pl_written st ++ carried l) st, None).
Proof.
  induction l as [|a l IH]; intros st Hid Hsend Hsc Hl; cbn [fmap list_fmap plain_drain_udp].
  { unfold plain_udp_stage, forward_udp_to_tun. rewrite (proj2 (Nat.ltb_ge _ _)) by done. cbn. eexists. split; [done|].
    cbn. by rewrite app_nil_r. }
  apply Forall_cons in Hl as [Ha Hl]. unfold plain_udp_stage. destruct a as [seq p|g]; cbn [arrival_data].
  - rewrite plain_inbound by done. destruct (IH (plain_with (pl_udp_in st) (pl_written st ++ [p]) st)) as (st1 & E1 & E2); [done..|].
    exists st1. split; [exact E1|]. cbn [garbage]. rewrite E2. unfold plain_with. cbn. by rewrite <-app_assoc.
  - destruct Ha as [Hm Hlen]. rewrite plain_inbound_garbage by done. rewrite (proj2 (Nat.ltb_ge _ _)) by done. cbn [option_list].
    rewrite app_nil_r. eexists. split; [reflexivity|].
    cbn [garbage]. rewrite udp_turn_step. cbn [pl_udp_in plain_set_udp].
    destruct (IH (plain_set_udp ((fun a => Ok (arrival_data sid a)) <$> l) (mkPlainState (pl_seq st) (pl_scratch st) (pl_tun_in st)
      (pl_udp_in st) (pl_sent st) (pl_written st)))) as (st1 & E1 & E2); [done..|].
    unfold plain_set_udp in *. rewrite E1, E2. done.
Qed.

End PlainLemmas.

(** *** The Windows loop *)

Section WindowsLemmas.
  Context {RC : RingCrypto} {RL : RingLaws} {XO : X25519Ops} {S : Type} `{StrategyLaws S}.

(** Nothing arrives on the sockets. *)
Definition no_datagrams (st : ClientState S) : Prop := Forall (fun q => q = []) (cs_udp_in st).

(** A turn in which nothing arrives and no shutdown is asked for. *)
Definition quiet (t : Turn) : Prop := tn_shutdown t = false ∧ tn_tun t = [] ∧ Forall (fun q => q = []) (tn_udp t).

Lemma udp_stage_blocks env (st : ClientState S) : (udp_stage env (Err WouldBlock) st).1 = st.
Proof.
  unfold udp_stage, forward_udp_to_tun_encrypted. destruct (_ <? _)%nat; cbn; rewrite app_nil_r; by destruct st.
Qed.

Lemma windows_udp_idle env idxs : ∀ st : ClientState S, no_datagrams st → windows_udp_part env idxs st = st.
Proof.
  induction idxs as [|i idxs IH]; intros st Hst; [done|]. cbn [windows_udp_part].
  assert (Hq : default [] (cs_udp_in st !! i) = []).
  { destruct (cs_udp_in st !! i) as [q|] eqn:E; [|done]. exact (proj1 (Forall_lookup _ _) Hst i q E). }
  rewrite Hq. cbn [head tail default]. rewrite udp_stage_blocks.
  replace (set_udp_in i [] st) with st; [by apply IH|]. unfold set_udp_in. destruct (cs_udp_in st !! i) as [q|] eqn:E.
  - cbn in Hq. subst q. rewrite list_insert_id by done. by destruct st.
  - rewrite list_insert_ge by (by apply lookup_ge_None). by destruct st.
Qed.

Lemma arrive_quiet t (st : ClientState S) : quiet t → length (tn_udp t) = length (cs_udp_in st) → no_datagrams st → arrive t st = st.
Proof.
  intros (_ & Ht & Hu) Hl Hst. unfold arrive. rewrite Ht, app_nil_r.
  replace (zip_with app (cs_udp_in st) (tn_udp t)) with (cs_udp_in st); [by destruct st|].
  unfold no_datagrams in Hst. revert Hst Hu Hl. generalize (tn_udp t). induction (cs_udp_in st) as [|q qs IH]; intros [|u us] Hst Hu Hl; try done.
  apply Forall_cons in Hst as [-> Hst]. apply Forall_cons in Hu as [-> Hu]. cbn. f_equal. apply IH; [done|done|]. by injection Hl.
Qed.

(** The reads of pairs of packets. *)
Definition reads_of (pairs : list (bytes * bytes)) : Queue := pairs ≫= fun pr => [Ok pr.1; Ok pr.2].

(** One turn on a pair: the first packet is overwritten, the second is sent. *)
Lemma windows_pair env (st : ClientState S) p1 p2 q :
  p1 ≠ [] → packet_fits p2 (cs_scratch st) → can_send env (cs_engine st) → 0 <= send_counter (s_state (cs_session st)) <= umax 32 →
  cs_tun_in st = Ok p1 :: Ok p2 :: q →
  ∃ st' ds ct, windows_tun_part env st = Some (Some st') ∧ cs_tun_in st' = q ∧
    cs_sent st' = cs_sent st ++ ds ∧ ds ≠ [] ∧
    ds.*2 = replicate (length ds) (data_frame (s_id (cs_session st)) (send_counter (s_state (cs_session st))) ct) ∧
    (∀ b, linked (cs_session st) b → genuine b (send_counter (s_state (cs_session st))) ct p2) ∧
    e_links (cs_engine st') = e_links (cs_engine st) ∧ length (cs_scratch st') = length (cs_scratch st) ∧
    cs_session st' = mkSession (s_id (cs_session st))
      (set_counter (send_counter (s_state (cs_session st)) + 1) (s_state (cs_session st))) ∧
    cs_udp_in st' = cs_udp_in st.
Proof.
  intros Hp1 Hfit Hcs Hc Hq. unfold windows_tun_part. rewrite Hq. destruct p1 as [|b p1]; [done|].
  set (sc := copy_from_slice _ HEADER_LEN _). assert (Hsc : length sc = length (cs_scratch st)) by (unfold sc; by rewrite length_inserts).
  set (st0 := set_tun_in q _).
  destruct (tun_stage_sends env st0 p2) as (st' & sel & ct & n & E & _ & Hne & _ & Hs & Hct & Hg & Hl & Hl2 & Hse & Hu & Hw);
    [done|unfold packet_fits in *; cbn [st0 cs_scratch set_tun_in]; by rewrite Hsc|done|].
  rewrite E. cbn [mbind option_bind]. eexists st', _, ct. cbn in Hl2, Hu. split; [done|]. split; [|split; [exact Hs|]].
  2: { split; [by destruct (LinkSelection_links sel)|]. split; [apply copies_frames|]. split_and!; try done. by rewrite Hl2. }
  unfold tun_stage in E. destruct (forward_tun_to_udp_bonded _ _ _ _ _ _) as [[[[[[]]]]]|]; [|done]. cbn in E. by simplify_eq.
Qed.

End WindowsLemmas.

(** ** Properties *)

(** C31: The life cycle of the daemon, on every platform and for every answer of the system.
    What it does is decided by the configuration's role: a bad configuration ends it with
    that error; the modes without a runner (peer to peer, and a server anywhere but on
    Linux) only wait for the shutdown flag and publish nothing; a client on an unknown
    platform is refused.  Every other run enters its loop exactly when each step before it
    succeeds; then it publishes the tunnel as up, and as down after it exactly when the
    loop ends well (an error leaves it up).  A run that does not reach its loop ends with
    an error and published nothing, except a Unix client whose reactor fails, which leaves
    the tunnel published as up.  A Unix client is never published as up while its real
    user is root, nobody else changes identity, and a run that ends, at whichever step,
    has closed its TUN descriptor and a server also its socket. *)
Theorem daemon_lifecycle {RC : RingCrypto} {XO : X25519Ops} {K : UnixKernel} {KL : UnixLaws K} {SK : SockKernel}
    (pf : RunPlatform) (arch : TargetArch) (files : str → result bytes IoError) (parse_addr : str → option SocketAddr) (cw : ClientWorld)
    (sw : ServerWorld) (shutdown : list bool) (config : Config) (m m' : Machine) (loop : bool) (out : option (result () IoError))
  (Hfd : tun_fd_ok (ma_sys m)) (Hroot : (uids (p_creds (ma_proc m))).1.1 = 0 → is_root (ma_proc m))
  (Hrun : run_daemon pf arch files parse_addr cw sw shutdown config m = Some (m', loop, out)) :
  let engine := ctx_engine (start_context files config) in
  match daemon_role parse_addr (start_context files config) with
  | Err e => m' = m ∧ loop = false ∧ out = Some (Err (runner_io e))
  | Ok RoleP2p => m' = m ∧ loop = false ∧ out = idle_loop shutdown
  | Ok (RoleServer listen _) =>
      if decide (pf = OnLinux) then
        run_states (Ok ()) loop m m' out ∧ (loop = true ↔ server_ready listen sw m) ∧ ma_proc m' = ma_proc m
      else m' = m ∧ loop = false ∧ out = idle_loop shutdown
  | Ok (RoleClient cfg) =>
      match unix_os pf with
      | Some os => run_states (cw_reactor cw) loop m m' out ∧ (loop = true ↔ client_ready os arch cfg engine cw m) ∧
          (ma_states m' ≠ ma_states m → (uids (p_creds (ma_proc m'))).1.1 ≠ 0)
      | None =>
          if decide (pf = OnWindows) then
            run_states (cw_reactor cw) loop m m' out ∧ (loop = true ↔ windows_ready cfg engine cw) ∧ ma_proc m' = ma_proc m
          else m' = m ∧ loop = false ∧ out = Some (Err Unsupported)
      end
  end ∧
  (is_Some out → released m m').
Proof.
  assert (Hidle : released m m) by (split; [done|by apply socks_kept]).
  cbn zeta. revert Hrun. unfold run_daemon. destruct (daemon_role parse_addr _) as [[cfg|listen registry|]|e] eqn:Er.
  - destruct (unix_os pf) as [os|] eqn:Eos.
    + destruct (run_client os arch cfg _ _ _ cw m) as [[[[m1 engine1] st] out1]|] eqn:E; [|done]. cbn [mbind option_bind].
      intros [= <- <- <-]. assert (Hos : os ≠ OsOther) by (intros ->; by destruct pf).
      destruct (client_run_spec _ _ _ _ _ _ _ _ _ _ _ _ Hos Hfd Hroot E) as (H1 & H2 & H3 & H4). by split_and!.
    + destruct pf; try done; [|rewrite decide_False by done; intros [= <- <- <-]; by split_and!].
      destruct (run_client_windows _ cfg _ _ _ cw m) as [[[[m1 engine1] st] out1]|] eqn:E; [|done]. cbn [mbind option_bind].
      intros [= <- <- <-]. rewrite decide_True by done. destruct (windows_run_spec _ _ _ _ _ _ _ _ _ _ E) as (H1 & H2 & H3 & H4). by split_and!.
  - destruct pf; try (rewrite decide_False by done; intros [= <- <- <-]; by split_and!).
    destruct (run_server_linux _ _ _ _ _ _) as [[[m1 st] out1]|] eqn:E; [|done]. intros [= <- <- <-]. rewrite decide_True by done.
    destruct (server_run_spec _ _ _ _ _ _ _ _ _ Hfd E) as (H1 & H2 & H3 & H4). by split_and!.
  - intros [= <- <- <-]. by split_and!.
  - intros [= <- <- <-]. by split_and!.
Qed.

(** A server never changes its identity: started by root, it handles the packets of
    strangers as root for as long as it runs. *)
Theorem server_keeps_privileges {RC : RingCrypto} {XO : X25519Ops} {SK : SockKernel} (listen : SocketAddr) (registry : ClientRegistry)
    (metrics : PipelineMetrics) (mtu : nat) (w : ServerWorld) (m m' : Machine) (st : option ServerLoopState) (out : option (result () IoError))
  (Hfd : tun_fd_ok (ma_sys m)) (Hrun : run_server_linux listen registry metrics mtu w m = Some (m', st, out)) : ma_proc m' = ma_proc m.
Proof. by destruct (server_run_spec _ _ _ _ _ _ _ _ _ Hfd Hrun) as (_ & _ & H & _). Qed.

(** The plaintext tunnel end to end: the packets readable on one side's TUN leave in one
    turn, each in a frame of its own, and reach the other side's TUN exactly, once each and
    in order, whatever malformed datagrams arrive between the frames.  A malformed datagram
    costs one more turn of the loop and nothing else. *)
Theorem plaintext_end_to_end (a b : PlaintextConfig) (enva envb : PlainEnv) (sta stb : PlainState) (ps : list bytes) (l : list PlainArrival)
  (Hsend : ∀ d, pe_send enva d = Ok ()) (Hwrite : ∀ p, pe_tun_send envb p = Ok ()) (Hid : in_width 16 (pc_session_id a))
  (Hsca : (HEADER_LEN + 1 <= length (pl_scratch sta))%nat) (Hscb : (HEADER_LEN <= length (pl_scratch stb))%nat)
  (Hps : Forall (fun p => plain_fits p (length (pl_scratch sta))) ps) (Hl : Forall (arrival_ok (length (pl_scratch stb))) l)
  (Hframes : (l ≫= fun x => match x with Frame seq p => [plain_frame (pc_session_id a) seq p] | Garbage _ => [] end)
             = plain_frames (pc_session_id a) (pl_seq sta) ps)
  (Hcarried : carried l = ps) (Hqa : pl_tun_in sta = []) (Hqb : pl_udp_in stb = []) :
  ∃ sta', plain_loop a enva [mkPlainTurn (Ok <$> ps) [] (Ok [TUN_TOKEN])] sta = (sta', None) ∧
    (pl_sent sta').*2 = (pl_sent sta).*2 ++ (l ≫= fun x => match x with Frame seq p => [plain_frame (pc_session_id a) seq p] | Garbage _ => [] end) ∧
    plain_loop b envb (mkPlainTurn [] ((fun x => Ok (arrival_data (pc_session_id a) x)) <$> l) (Ok [UDP_TOKEN]) :: replicate (garbage l) udp_turn) stb
    = (plain_with [] (pl_written stb ++ ps) stb, None).
Proof.
  set (sta0 := mkPlainState (pl_seq sta) (pl_scratch sta) (Ok <$> ps) (pl_udp_in sta) (pl_sent sta) (pl_written sta)).
  destruct (plain_drain_tun_sends a enva ps sta0) as (sta' & E & Hs & _); [done..|].
  exists sta'. split_and!.
  - cbn [plain_loop pt_tun pt_udp pt_poll]. rewrite Hqa, app_nil_r. cbn [app plain_events]. unfold plain_event. cbn [TUN_TOKEN Z.eqb pl_tun_in].
    fold sta0. by rewrite E.
  - rewrite Hs, fmap_app, Hframes. cbn [sta0 pl_sent pl_seq]. f_equal. rewrite <-list_fmap_compose. apply list_fmap_id.
  - rewrite <-Hcarried. set (q := (fun x => Ok (arrival_data (pc_session_id a) x)) <$> l).
    set (stb0 := mkPlainState (pl_seq stb) (pl_scratch stb) (pl_tun_in stb) q (pl_sent stb) (pl_written stb)).
    destruct (plain_drain_arrivals b envb (pc_session_id a) l stb0) as (st1 & E1 & E2); [done..|].
    cbn [plain_loop pt_tun pt_udp pt_poll]. rewrite Hqb, app_nil_r. cbn [app plain_events]. unfold plain_event.
    cbn [UDP_TOKEN TUN_TOKEN Z.eqb pl_udp_in]. fold stb0. fold q in E1. rewrite E1. exact E2.
Qed.

(** On Windows every second packet is lost: of packets read in pairs, with nothing arriving
    on the sockets, a turn of the loop sends the second of a pair only; the first is read
    into the buffer and overwritten. *)
Theorem windows_sends_every_second {RC : RingCrypto} {RL : RingLaws} {S : Type} `{StrategyLaws S} (env : LoopEnv) :
  ∀ (pairs : list (bytes * bytes)) (turns : list Turn) (st : ClientState S),
  cs_tun_in st = reads_of pairs → length turns = length pairs →
  Forall (fun t => quiet t ∧ length (tn_udp t) = length (cs_udp_in st)) turns → no_datagrams st →
  Forall (fun pr => pr.1 ≠ [] ∧ packet_fits pr.2 (cs_scratch st)) pairs → can_send env (cs_engine st) →
  0 <= send_counter (s_state (cs_session st)) → send_counter (s_state (cs_session st)) + Z.of_nat (length pairs) <= 2 ^ 32 →
  ∃ st' dss, windows_loop env turns st = Some (st', None) ∧ cs_tun_in st' = [] ∧ cs_sent st' = cs_sent st ++ concat dss ∧
    Forall2 (fun pr ds => ds ≠ [] ∧ ∃ c ct, ds.*2 = replicate (length ds) (data_frame (s_id (cs_session st)) c ct) ∧
                          ∀ b, linked (cs_session st) b → genuine b c ct pr.2) pairs dss.
Proof.
  induction pairs as [|[p1 p2] pairs IH]; intros [|t turns] st Hq Hlen Hturns Hud Hp Hcs Hc0 Hc; try done.
  { exists st, []. cbn. rewrite app_nil_r. by split_and!. }
  apply Forall_cons in Hturns as [[Ht Htl] Hturns]. apply Forall_cons in Hp as [[Hp1 Hp2] Hp]. cbn [length] in Hc.
  destruct (windows_pair env st p1 p2 (reads_of pairs) Hp1 Hp2 Hcs) as (st1 & ds & ct & E & Hq1 & Hs & Hne & Hds & Hg & Hlk & Hsc & Hse & Hu);
    [pow2; lia|done|].
  destruct (IH turns (publish (tn_stats_due t) st1)) as (st' & dss & E' & Hq' & Hs' & Hf); clear IH.
  - exact Hq1.
  - by injection Hlen.
  - eapply Forall_impl; [exact Hturns|]. cbn. intros x. by rewrite Hu.
  - unfold no_datagrams. cbn. by rewrite Hu.
  - eapply Forall_impl; [exact Hp|]. cbn. intros x [Hx1 Hx2]. split; [done|]. unfold packet_fits in *. by rewrite Hsc.
  - unfold can_send. cbn. by rewrite Hlk.
  - cbn. rewrite Hse. cbn. lia.
  - cbn. rewrite Hse. cbn. lia.
  - exists st', (ds :: dss). cbn [windows_loop]. rewrite (proj1 Ht), (arrive_quiet t st Ht Htl Hud), E. cbn [mbind option_bind].
    rewrite windows_udp_idle by (unfold no_datagrams; by rewrite Hu). rewrite E'. split_and!; [done|done| |].
    + cbn in Hs'. by rewrite Hs', Hs, <-app_assoc.
    + constructor; [split; [done|]; eauto|]. eapply Forall2_impl; [exact Hf|]. cbn. rewrite Hse. done.
Qed.

(** ** Witnesses *)

#[local] Instance all_calls_answer : SockKernel := fun _ => Ok 9.

Definition demo_machine : Machine := mkMachine (mkSys {[0; 1; 2]} [] [Ok 3; Ok 0]) [] demo_root [].
Definition demo_server_config : Config :=
  mkConfig (mkGeneral ModeServer LevelInfo 1400)
    (Some (Config.mkServer (lit "0.0.0.0:51820") [] [] 8 (mkAuthSection MethodPsk None None None None))) None None None.
Definition demo_client_world : ClientWorld :=
  mkClientWorld (fun r => r) 0 [] 0 (Ok ()) (mkSetupEnv (fun _ => None) (Err OtherError) (fun _ _ => Ok ()) (Ok ()) (fun _ => Ok ()) [] 0 None)
    (Ok ()) (fun _ _ => Ok ()) (fun _ => Ok ()) [].
Definition demo_server_world : ServerWorld := mkServerWorld (fun r => r) (Ok ()) [mkServerTurn false [] [] (Ok []); mkServerTurn true [] [] (Ok [])].

Example daemon_lifecycle_witness :
  ∃ m', run_daemon (K := demo_kernel) OnLinux X86_64 (fun _ => Err OtherError) (fun _ => Some demo_peer) demo_client_world demo_server_world []
          demo_server_config demo_machine = Some (m', true, Some (Ok ())) ∧
    ma_states m' = [TunnelUp; TunnelDown] ∧ ma_proc m' = demo_root ∧ released demo_machine m'.
Proof.
  assert (Hfd : tun_fd_ok (ma_sys demo_machine)).
  { split; intros fd rs [= <- <-]; [vm_compute; set_solver|lia]. }
  destruct (run_daemon (K := demo_kernel) OnLinux X86_64 (fun _ => Err OtherError) (fun _ => Some demo_peer) demo_client_world demo_server_world []
          demo_server_config demo_machine) as [[[m' loop] out]|] eqn:E; [|vm_compute in E; discriminate E].
  destruct (daemon_lifecycle (KL := demo_kernel_laws) OnLinux X86_64 (fun _ => Err OtherError) (fun _ => Some demo_peer) demo_client_world
    demo_server_world [] demo_server_config demo_machine m' loop out Hfd (fun _ => eq_refl) E) as [(Hst & _ & Hp) Hr].
  assert (Ho : loop = true ∧ out = Some (Ok ())) by (vm_compute in E; injection E as _ <- <-; split; reflexivity).
  destruct Ho as [-> ->]. exists m'. split; [reflexivity|]. split; [exact Hst|]. split; [exact Hp|]. apply Hr. eexists. reflexivity.
Defined.

Example server_keeps_privileges_witness :
  ∃ m' st, run_server_linux demo_peer demo_registry PipelineMetrics_new 1400 demo_server_world demo_machine = Some (m', st, Some (Ok ())) ∧
    ma_proc m' = demo_root.
Proof.
  assert (Hfd : tun_fd_ok (ma_sys demo_machine)).
  { split; intros fd rs [= <- <-]; [vm_compute; set_solver|lia]. }
  destruct (run_server_linux demo_peer demo_registry PipelineMetrics_new 1400 demo_server_world demo_machine) as [[[m' st] out]|] eqn:E;
    [|vm_compute in E; discriminate E].
  assert (out = Some (Ok ())) as -> by (vm_compute in E; injection E as _ _ <-; reflexivity).
  exists m', st. split; [reflexivity|]. exact (server_keeps_privileges _ _ _ _ _ _ _ _ _ Hfd E).
Defined.

Definition demo_plain : PlaintextConfig := mkPlaintextConfig (lit "desmos0") demo_peer demo_peer 7 64.
Definition demo_plain_env : PlainEnv := mkPlainEnv (fun _ => Ok ()) (fun _ => Ok ()).
Definition demo_plain_state : PlainState := mkPlainState 0 (replicate 320 0) [] [] [] [].

Example plaintext_end_to_end_witness :
  plain_loop demo_plain demo_plain_env
    (mkPlainTurn [] [Ok (plain_frame 7 0 [69; 1]); Ok [1; 2]; Ok (plain_frame 7 1 [69; 2])] (Ok [UDP_TOKEN]) :: replicate 1 udp_turn) demo_plain_state
  = (plain_with [] [[69; 1]; [69; 2]] demo_plain_state, None).
Proof.
  destruct (plaintext_end_to_end demo_plain demo_plain demo_plain_env demo_plain_env demo_plain_state demo_plain_state [[69; 1]; [69; 2]]
    [Frame 0 [69; 1]; Garbage [1; 2]; Frame 1 [69; 2]]) as (sta' & _ & _ & H).
  - reflexivity.
  - reflexivity.
  - vm_compute. split; congruence.
  - vm_compute. lia.
  - vm_compute. lia.
  - repeat constructor; try discriminate; vm_compute; try congruence; lia.
  - constructor; [|constructor; [|constructor; [|constructor]]]; [|split; [left|]|]; repeat split; try discriminate; vm_compute; try congruence; lia.
  - reflexivity.
  - reflexivity.
  - reflexivity.
  - reflexivity.
  - exact H.
Defined.

Example windows_sends_every_second_witness :
  ∃ st' dss, windows_loop tunnel_env [mkTurn false [] [] (Ok []) false]
      (mkClientState (cs_engine tunnel_client) (cs_session tunnel_client) PipelineMetrics_new (replicate 64 0) [Ok [69; 0]; Ok [69; 1]] [] [] [] [])
    = Some (st', None) ∧ cs_sent st' = concat dss ∧ length dss = 1%nat.
Proof.
  destruct (windows_sends_every_second tunnel_env [([69; 0], [69; 1])] [mkTurn false [] [] (Ok []) false]
    (mkClientState (cs_engine tunnel_client) (cs_session tunnel_client) PipelineMetrics_new (replicate 64 0) [Ok [69; 0]; Ok [69; 1]] [] [] [] []))
    as (st' & dss & H1 & _ & H2 & H3).
  - reflexivity.
  - reflexivity.
  - repeat constructor.
  - constructor.
  - repeat constructor; try discriminate; vm_compute; try congruence; lia.
  - split; [discriminate|]. split; [|reflexivity]. intros l Hl.
    apply elem_of_cons in Hl as [->|Hl]; [by eexists|]. apply elem_of_cons in Hl as [->|Hl]; [by eexists|].
    by apply not_elem_of_nil in Hl.
  - vm_compute. congruence.
  - vm_compute. congruence.
  - exists st', dss. split; [exact H1|]. split; [exact H2|]. apply Forall2_length in H3. symmetry. exact H3.
Defined.
