(* ===== verification/Iface.v ===== *)
(** * Host interfaces

    [crates/desmos-core/src/net/iface.rs]: flags, hardware addresses and the
    discovery of interfaces on Linux (from [/sys] and [getifaddrs]) and on the
    BSDs.  The files of [/sys] and the list [getifaddrs] returns are arguments; a
    socket address is its raw bytes. *)

From stdpp Require Import base gmap numbers list strings sorting.
From Stdlib Require Import ZArith Lia.
From S2P Require Import Prelude Str Pipeline Http Json Netlink Daemon.

Inductive IfaceError :=
| IfaceIo (context : string) (source : IoError)
| NotImplemented (what : string).

Record IfaceFlags := mkIfaceFlags {
  if_up : bool;
  if_running : bool;
  if_loopback : bool;
  if_point_to_point : bool;
  if_broadcast : bool;
  if_multicast : bool;
}.

Definition IfaceFlags_default : IfaceFlags := mkIfaceFlags false false false false false false.

Definition from_linux_bits (bits : Z) : IfaceFlags :=
  let IFF_UP := Z.shiftl 1 0 in
  let IFF_BROADCAST := Z.shiftl 1 1 in
  let IFF_LOOPBACK := Z.shiftl 1 3 in
  let IFF_POINTOPOINT := Z.shiftl 1 4 in
  let IFF_RUNNING := Z.shiftl 1 6 in
  let IFF_MULTICAST := Z.shiftl 1 12 in
  let set mask := negb (Z.land bits mask =? 0) in
  mkIfaceFlags (set IFF_UP) (set IFF_RUNNING) (set IFF_LOOPBACK) (set IFF_POINTOPOINT) (set IFF_BROADCAST)
    (set IFF_MULTICAST).

Record NetworkInterface := mkNetworkInterface {
  ni_name : str;
  ni_mac : bytes;
  ni_ipv4 : list bytes;
  ni_ipv6 : list bytes;
  ni_flags : IfaceFlags;
  ni_operstate : str;
}.

Definition is_bondable (i : NetworkInterface) : bool :=
  if_up (ni_flags i) && if_running (ni_flags i) && negb (if_loopback (ni_flags i)).

(** [{:02x}] of a byte. *)
Definition fmt_02x (b : Z) : str := [hex_char (b / 16); hex_char (b mod 16)].
Definition mac_string (i : NetworkInterface) : str := separated (lit ":") (fmt_02x <$> ni_mac i).

(** ** [/sys/class/net] *)

Fixpoint parse_mac_parts (parts : list str) : option bytes :=
  match parts with
  | [] => Some []
  | p :: parts =>
      if negb (str_len p =? 2)%nat then None
      else b ← from_str_radix 8 16 p; r ← parse_mac_parts parts; Some (b :: r)
  end.

Definition parse_mac (s : str) : option bytes :=
  let parts := split (lit ":") s in
  if negb (length parts =? 6)%nat then None else parse_mac_parts parts.

(** A file that was read, or not. *)
Abbreviation sys_file := (result str IoError).
Definition file_ok (f : sys_file) : option str := match f with Ok s => Some s | Err _ => None end.

Definition read_sys_mac (address : sys_file) : option bytes := raw ← file_ok address; parse_mac (trim raw).
Definition read_sys_operstate (operstate : sys_file) : option str := trim <$> file_ok operstate.
Definition read_sys_flags (flags : sys_file) : option Z :=
  raw ← file_ok flags;
  let trimmed := trim raw in
  let stripped := default trimmed (strip_prefix (lit "0x") trimmed) in
  from_str_radix 32 16 stripped.

(** ** [getifaddrs] *)

(** A node of the list: a name and a socket address, either possibly null. *)
Record ifaddr := mkIfaddr { ifa_name : option bytes; ifa_addr : option bytes }.

(** Linux has a two-byte family at offset 0; the BSDs a length and a one-byte
    family. *)
Inductive SockaddrLayout := Glibc | Bsd.
Definition read_sa_family (l : SockaddrLayout) (sa : bytes) : Z :=
  match l with Glibc => byte_at sa 0 + 256 * byte_at sa 1 | Bsd => byte_at sa 1 end.
Definition AF_INET : Z := 2.
Definition AF_INET6 (l : SockaddrLayout) : Z := match l with Glibc => 10 | Bsd => 30 end.
Definition sin_addr (sa : bytes) : bytes := slice 4 8 sa.
Definition sin6_addr (sa : bytes) : bytes := slice 8 24 sa.

Abbreviation AddressMap := (gmap str (list bytes * list bytes)).

(** One node of the walk. *)
Definition add_node (l : SockaddrLayout) (out : AddressMap) (node : ifaddr) : AddressMap :=
  match ifa_name node with
  | None => out
  | Some raw =>
      let name := from_utf8_lossy raw in
      match ifa_addr node with
      | None => out
      | Some sa =>
          let family := read_sa_family l sa in
          let entry := default ([], []) (out !! name) in
          if family =? AF_INET then <[name := (entry.1 ++ [sin_addr sa], entry.2)]> out
          else if family =? AF_INET6 l then <[name := (entry.1, entry.2 ++ [sin6_addr sa])]> out
          else <[name := entry]> out
      end
  end.

(** [nodes] is what [getifaddrs] returned; the empty list is a null head. *)
Definition getifaddrs_addresses (l : SockaddrLayout) (nodes : result (list ifaddr) IoError)
    : result AddressMap IfaceError :=
  match nodes with
  | Err e => Err (IfaceIo "getifaddrs" e)
  | Ok nodes => Ok (foldl (add_node l) ∅ nodes)
  end.

(** ** Listing *)

(** [sort_by] on names: a stable sort in byte order. *)
Fixpoint insert_by_name (i : NetworkInterface) (l : list NetworkInterface) : list NetworkInterface :=
  match l with
  | [] => [i]
  | j :: l' => match key_compare (ni_name j) (ni_name i) with Gt => i :: l | _ => j :: insert_by_name i l' end
  end.
Definition sort_by_name (l : list NetworkInterface) : list NetworkInterface :=
  foldl (fun acc i => insert_by_name i acc) [] l.

Record Sys := mkSys {
  sys_entries : result (list (result bytes IoError)) IoError;
  sys_address : str → sys_file;
  sys_operstate : str → sys_file;
  sys_flags : str → sys_file;
  sys_ifaddrs : result (list ifaddr) IoError;
}.

(** The loop over the directory. *)
Fixpoint read_entries (sys : Sys) (entries : list (result bytes IoError)) (out : list NetworkInterface)
    : result (list NetworkInterface) IfaceError :=
  match entries with
  | [] => Ok out
  | Err e :: _ => Err (IfaceIo "read /sys/class/net entry" e)
  | Ok raw :: entries =>
      let name := from_utf8_lossy raw in
      if (length name =? 0)%nat then read_entries sys entries out
      else
        let mac := default (replicate 6 0) (read_sys_mac (sys_address sys name)) in
        let operstate := default (lit "unknown") (read_sys_operstate (sys_operstate sys name)) in
        let flag_bits := default 0 (read_sys_flags (sys_flags sys name)) in
        let flags := from_linux_bits flag_bits in
        read_entries sys entries (out ++ [mkNetworkInterface name mac [] [] flags operstate])
  end.

(** The loop that moves the addresses in. *)
Fixpoint take_addresses (addresses : AddressMap) (l : list NetworkInterface) : list NetworkInterface :=
  match l with
  | [] => []
  | i :: l =>
      match addresses !! ni_name i with
      | Some (v4, v6) =>
          mkNetworkInterface (ni_name i) (ni_mac i) v4 v6 (ni_flags i) (ni_operstate i)
          :: take_addresses (delete (ni_name i) addresses) l
      | None => i :: take_addresses addresses l
      end
  end.

Definition linux_list (sys : Sys) : result (list NetworkInterface) IfaceError :=
  match sys_entries sys with
  | Err e => Err (IfaceIo "open /sys/class/net" e)
  | Ok entries =>
      let? out := read_entries sys entries [] in
      let? addresses := getifaddrs_addresses Glibc (sys_ifaddrs sys) in
      Ok (sort_by_name (take_addresses addresses out))
  end.

(** The BSDs: addresses only; the map is read in any order, then sorted. *)
Definition other_unix_list (nodes : result (list ifaddr) IoError) : result (list NetworkInterface) IfaceError :=
  let? addresses := getifaddrs_addresses Bsd nodes in
  Ok (sort_by_name
        ((fun '(name, (v4, v6)) =>
            mkNetworkInterface name (replicate 6 0) v4 v6 IfaceFlags_default (lit "unknown"))
         <$> map_to_list addresses)).

(** ** What a listing should be *)

(** The addresses of [name] among the nodes, in the order of the list. *)
Definition node_addresses (l : SockaddrLayout) (family : Z) (f : bytes → bytes) (name : str) (nodes : list ifaddr)
    : list bytes :=
  omap (fun n => raw ← ifa_name n; sa ← ifa_addr n;
                 if bool_decide (from_utf8_lossy raw = name) && (read_sa_family l sa =? family)
                 then Some (f sa) else None) nodes.

(** The description of interface [name]. *)
Definition describe_iface (sys : Sys) (nodes : list ifaddr) (name : str) : NetworkInterface :=
  mkNetworkInterface name
    (default (replicate 6 0) (read_sys_mac (sys_address sys name)))
    (node_addresses Glibc AF_INET sin_addr name nodes)
    (node_addresses Glibc (AF_INET6 Glibc) sin6_addr name nodes)
    (from_linux_bits (default 0 (read_sys_flags (sys_flags sys name))))
    (default (lit "unknown") (read_sys_operstate (sys_operstate sys name))).

Definition name_le (a b : NetworkInterface) : Prop := key_compare (ni_name a) (ni_name b) ≠ Gt.

(** ** Lemmas *)

Lemma separated_cons2 {A} (sep l l2 : list A) ls : separated sep (l :: l2 :: ls) = l ++ sep ++ separated sep (l2 :: ls).
Proof. unfold separated. rewrite bind_cons. by rewrite <-!app_assoc. Qed.

Lemma split_fuel_separated c ls : Forall (fun l => c ∉ l) ls → ls ≠ [] → ∀ fuel, (length ls <= S fuel)%nat →
  split_fuel fuel [c] (separated [c] ls) = ls.
Proof.
  intros Hls Hne. destruct ls as [|l ls]; [done|]. clear Hne. revert l Hls.
  induction ls as [|l2 ls IH]; intros l Hls fuel Hf; apply Forall_cons in Hls as [Hl Hls].
  - cbn [separated mbind list_bind]. rewrite app_nil_r. destruct fuel; [done|]. cbn [split_fuel]. by rewrite split_once_none.
  - destruct fuel as [|fuel]; [cbn in Hf; lia|]. rewrite separated_cons2. cbn [split_fuel].
    rewrite (split_once_first c []) by done. f_equal. apply IH; [done|cbn in *; lia].
Qed.

(** Splitting a join gives the pieces back. *)
Lemma split_separated c ls : Forall (fun l => c ∉ l) ls → ls ≠ [] → split [c] (separated [c] ls) = ls.
Proof.
  intros Hls Hne. apply split_fuel_separated; [done|done|]. clear Hls. induction ls as [|l [|l2 ls] IH]; [done|simpl; lia|].
  rewrite separated_cons2, !length_app. cbn [length]. specialize (IH ltac:(done)). cbn [length] in IH. lia.
Qed.

Lemma to_digit_hex d : 0 <= d < 16 → to_digit 16 (hex_char d) = Some d.
Proof.
  intros Hd. assert (Hall : forallb (fun i => bool_decide (to_digit 16 (hex_char (Z.of_nat i)) = Some (Z.of_nat i))) (seq 0 16) = true)
    by reflexivity.
  rewrite forallb_forall in Hall. specialize (Hall (Z.to_nat d)). rewrite Z2Nat.id in Hall by lia.
  apply bool_decide_eq_true in Hall; [done|]. apply in_seq. lia.
Qed.

Lemma byte_nibbles b : byte_ok b → 0 <= b / 16 < 16 ∧ 0 <= b mod 16 < 16 ∧ b / 16 * 16 + b mod 16 = b.
Proof.
  intros Hb. pose proof (Z.mod_pos_bound b 16). pose proof (Z.div_mod b 16).
  assert (0 <= b / 16 < 16) by (split; [apply Z.div_pos|apply Z.div_lt_upper_bound]; zlia). lia.
Qed.

Lemma parse_fmt_02x b : byte_ok b → str_len (fmt_02x b) = 2%nat ∧ from_str_radix 8 16 (fmt_02x b) = Some b ∧ 58 ∉ fmt_02x b.
Proof.
  intros Hb. destruct (byte_nibbles b Hb) as (H1 & H2 & E).
  pose proof (hex_char_range _ H1) as R1. pose proof (hex_char_range _ H2) as R2. split_and!.
  - apply str_len_ascii. unfold fmt_02x. repeat constructor; lia.
  - unfold fmt_02x, from_str_radix.
    assert (Hp : parse_digits 8 16 0 [hex_char (b / 16); hex_char (b mod 16)] = Some b).
    { cbn [parse_digits]. rewrite !to_digit_hex by done. cbn [mbind option_bind].
      rewrite (proj2 (Z.leb_le _ _)) by zlia. rewrite (proj2 (Z.leb_le _ _)) by (unfold umax; zlia). f_equal. lia. }
    rewrite <-Hp. destruct (hex_char (b / 16)) as [|p|p] eqn:Ep; [done| |done].
    assert (Z.pos p ≠ 43) by lia. do 6 (destruct p as [p|p|]; try done).
  - unfold fmt_02x, hex_char. rewrite !not_elem_of_cons. destruct (Z.ltb_spec (b / 16) 10), (Z.ltb_spec (b mod 16) 10);
      split_and!; try lia; apply not_elem_of_nil.
Qed.

Lemma parse_mac_parts_fmt mac : Forall byte_ok mac → parse_mac_parts (fmt_02x <$> mac) = Some mac.
Proof.
  induction 1 as [|b mac Hb Hm IH]; [done|]. rewrite fmap_cons. cbn [parse_mac_parts].
  destruct (parse_fmt_02x b Hb) as (-> & -> & _). cbn [Nat.eqb negb mbind option_bind]. by rewrite IH.
Qed.

Lemma name_le_trans : Transitive name_le.
Proof.
  intros a b c. unfold name_le, key_compare. set (x := as_bytes (ni_name a)). set (y := as_bytes (ni_name b)).
  set (z := as_bytes (ni_name c)). intros H1 H2.
  destruct (bytes_compare x y) eqn:E1; [| |done].
  - apply bytes_compare_eq in E1. by rewrite E1.
  - destruct (bytes_compare y z) eqn:E2; [| |done].
    + apply bytes_compare_eq in E2. by rewrite <-E2, E1.
    + by rewrite (bytes_compare_trans _ _ _ E1 E2).
Qed.

Lemma insert_by_name_perm i l : insert_by_name i l ≡ₚ i :: l.
Proof.
  induction l as [|j l IH]; [done|]. cbn [insert_by_name]. destruct (key_compare _ _); [| |done];
    rewrite IH; apply Permutation_swap.
Qed.

Lemma insert_by_name_sorted i l : StronglySorted name_le l → StronglySorted name_le (insert_by_name i l).
Proof.
  induction 1 as [|j l Hs IH Hj]; [repeat constructor|]. cbn [insert_by_name].
  assert (Hother : key_compare (ni_name j) (ni_name i) ≠ Gt → StronglySorted name_le (j :: insert_by_name i l)).
  { intros Hle. constructor; [done|]. rewrite insert_by_name_perm. by constructor. }
  destruct (key_compare (ni_name j) (ni_name i)) eqn:E; [by apply Hother|by apply Hother|].
  assert (Hij : name_le i j) by (unfold name_le, key_compare in *; rewrite bytes_compare_antisym, E; done).
  constructor; [by constructor|]. constructor; [done|]. eapply Forall_impl; [exact Hj|].
  intros k Hk. by eapply name_le_trans.
Qed.

Lemma sort_by_name_spec l : sort_by_name l ≡ₚ l ∧ StronglySorted name_le (sort_by_name l).
Proof.
  unfold sort_by_name. assert (Hgen : ∀ acc, StronglySorted name_le acc →
    foldl (fun acc i => insert_by_name i acc) acc l ≡ₚ acc ++ l ∧
    StronglySorted name_le (foldl (fun acc i => insert_by_name i acc) acc l)).
  { induction l as [|i l IH]; intros acc Hacc; cbn [foldl]; [by rewrite app_nil_r|].
    destruct (IH (insert_by_name i acc)) as [Hp Hs]; [by apply insert_by_name_sorted|]. split; [|done].
    rewrite Hp, insert_by_name_perm. by rewrite <-Permutation_middle. }
  apply (Hgen []). constructor.
Qed.

(** An interface before its addresses are moved in. *)
Definition bare (sys : Sys) (name : str) : NetworkInterface :=
  let d := describe_iface sys [] name in mkNetworkInterface name (ni_mac d) [] [] (ni_flags d) (ni_operstate d).

Lemma read_entries_ok sys raws : ∀ out,
  read_entries sys (Ok <$> raws) out = Ok (out ++ (bare sys <$> filter (fun n => n ≠ []) (from_utf8_lossy <$> raws))).
Proof.
  induction raws as [|raw raws IH]; intros out; [cbn; by rewrite app_nil_r|]. rewrite !fmap_cons. cbn [read_entries].
  destruct (from_utf8_lossy raw) as [|c name] eqn:E; cbn [length Nat.eqb].
  - rewrite filter_cons_False by tauto. apply IH.
  - rewrite filter_cons_True by done. rewrite IH, fmap_cons, <-app_assoc. done.
Qed.

Lemma node_addresses_cons l family f name n nodes :
  node_addresses l family f name (n :: nodes) =
  match (raw ← ifa_name n; sa ← ifa_addr n;
         if bool_decide (from_utf8_lossy raw = name) && (read_sa_family l sa =? family) then Some (f sa) else None) with
  | Some a => a :: node_addresses l family f name nodes
  | None => node_addresses l family f name nodes
  end.
Proof. done. Qed.

(** The map holds, for each name, its addresses in order. *)
Lemma getifaddrs_spec l name nodes : ∀ m, let d := default ([], []) (m !! name) in
  default ([], []) (foldl (add_node l) m nodes !! name)
  = (d.1 ++ node_addresses l AF_INET sin_addr name nodes, d.2 ++ node_addresses l (AF_INET6 l) sin6_addr name nodes).
Proof.
  induction nodes as [|n nodes IH]; intros m d; [cbn [foldl node_addresses omap list_omap]; rewrite !app_nil_r; unfold d; apply surjective_pairing|].
  cbn [foldl]. rewrite IH, !node_addresses_cons. unfold add_node.
  destruct (ifa_name n) as [raw|]; [|done]. destruct (ifa_addr n) as [sa|]; [|done]. cbn [mbind option_bind].
  set (raw' := from_utf8_lossy raw). set (family := read_sa_family l sa).
  destruct (decide (raw' = name)) as [<-|Hne].
  - rewrite !bool_decide_true by done. cbn [andb]. fold d.
    destruct (Z.eqb_spec family AF_INET) as [Ef|Ef].
    + rewrite lookup_insert_eq. cbn [default from_option id fst snd]. rewrite Ef.
      replace (AF_INET =? AF_INET6 l) with false by (by destruct l). by rewrite <-app_assoc.
    + destruct (Z.eqb_spec family (AF_INET6 l)); rewrite lookup_insert_eq; cbn [default from_option id fst snd];
        [by rewrite <-app_assoc|done].
  - rewrite !bool_decide_false by done. cbn [andb].
    assert (Hm : ∀ e, <[raw' := e]> m !! name = m !! name) by (intros; by rewrite lookup_insert_ne).
    destruct (family =? AF_INET); [by rewrite Hm|]. destruct (family =? AF_INET6 l); by rewrite Hm.
Qed.

Lemma take_addresses_spec l : ∀ addresses, NoDup (ni_name <$> l) →
  take_addresses addresses l
  = (fun i => match addresses !! ni_name i with
              | Some (v4, v6) => mkNetworkInterface (ni_name i) (ni_mac i) v4 v6 (ni_flags i) (ni_operstate i)
              | None => i
              end) <$> l.
Proof.
  induction l as [|i l IH]; intros addresses Hnd; [done|]. rewrite fmap_cons in Hnd. apply NoDup_cons in Hnd as [Hi Hnd].
  rewrite fmap_cons. cbn [take_addresses]. destruct (addresses !! ni_name i) as [[v4 v6]|] eqn:E; [|by rewrite IH].
  rewrite IH by done. f_equal. apply list_fmap_ext. intros k j Hj. rewrite lookup_delete_ne; [done|].
  intros Heq. apply Hi. rewrite Heq. apply list_elem_of_fmap. exists j. split; [done|]. by eapply list_elem_of_lookup_2.
Qed.

Lemma mask_bit bits k : 0 <= k → negb (Z.land bits (Z.shiftl 1 k) =? 0) = Z.testbit bits k.
Proof.
  intros Hk. rewrite Z.shiftl_1_l. destruct (Z.eqb_spec (Z.land bits (2 ^ k)) 0) as [E|E]; cbn [negb].
  - apply (f_equal (fun x => Z.testbit x k)) in E. rewrite Z.land_spec, Z.pow2_bits_true, Z.bits_0, andb_true_r in E by done. done.
  - destruct (Z.testbit bits k) eqn:Eb; [done|]. destruct E. apply Z.bits_inj'. intros n Hn.
    rewrite Z.land_spec, Z.bits_0, Z.pow2_bits_eqb by done. destruct (Z.eqb_spec k n) as [<-|]; [by rewrite Eb|apply andb_false_r].
Qed.

(** ** Properties *)

(** Discovery on Linux is exact: when the directory and the address list can
    be read and the names differ, every named entry is listed once, with the
    hardware address, flags and state its files give (zeroes, no flags and
    [unknown] where a file is missing or malformed) and all its IPv4 and IPv6
    addresses in the order of the system's list, sorted by name. *)
Theorem iface_list_exact (sys : Sys) (raws : list bytes) (nodes : list ifaddr) :
  let names := filter (fun n => n ≠ []) (from_utf8_lossy <$> raws) in
  sys_entries sys = Ok (Ok <$> raws) → sys_ifaddrs sys = Ok nodes → NoDup names →
  ∃ out, linux_list sys = Ok out ∧ out ≡ₚ (describe_iface sys nodes <$> names) ∧ StronglySorted name_le out.
Proof.
  intros names He Ha Hnd. unfold linux_list. rewrite He, read_entries_ok. cbn [result_bind app]. fold names.
  unfold getifaddrs_addresses. rewrite Ha. cbn [result_bind].
  destruct (sort_by_name_spec (take_addresses (foldl (add_node Glibc) ∅ nodes) (bare sys <$> names))) as [Hp Hs].
  eexists. split_and!; [done| |done]. rewrite Hp, take_addresses_spec.
  2:{ rewrite <-list_fmap_compose. rewrite (list_fmap_ext _ id names) by done. by rewrite list_fmap_id. }
  rewrite <-list_fmap_compose. apply reflexive_eq, list_fmap_ext. intros k name _. unfold compose, bare. cbn [ni_name ni_mac ni_flags ni_operstate describe_iface].
  pose proof (getifaddrs_spec Glibc name nodes ∅) as Hg. cbn zeta in Hg. rewrite lookup_empty in Hg. cbn [default from_option id app fst snd] in Hg.
  unfold describe_iface. destruct (foldl (add_node Glibc) ∅ nodes !! name) as [[v4 v6]|]; cbn [default from_option id] in Hg;
    pose proof (f_equal fst Hg) as E1; pose proof (f_equal snd Hg) as E2; cbn [fst snd] in E1, E2; rewrite <-E1, <-E2; done.
Qed.

(** Hardware addresses survive printing and parsing. *)
Theorem mac_roundtrip (i : NetworkInterface) :
  length (ni_mac i) = 6%nat → Forall byte_ok (ni_mac i) → parse_mac (mac_string i) = Some (ni_mac i).
Proof.
  intros Hl Hb. unfold parse_mac, mac_string. change (lit ":") with [58].
  rewrite split_separated.
  - rewrite length_fmap, Hl. cbn [Nat.eqb negb]. by apply parse_mac_parts_fmt.
  - apply Forall_fmap. eapply Forall_impl; [exact Hb|]. intros b H. by apply parse_fmt_02x.
  - intros E. apply (f_equal length) in E. rewrite length_fmap, Hl in E. done.
Qed.

(** An interface is bondable exactly when bits 0 and 6 of its flags file are set
    and bit 3 is not. *)
Theorem bondable_exact (i : NetworkInterface) (bits : Z) :
  ni_flags i = from_linux_bits bits →
  is_bondable i = Z.testbit bits 0 && Z.testbit bits 6 && negb (Z.testbit bits 3).
Proof. intros E. unfold is_bondable. rewrite E. cbn [from_linux_bits if_up if_running if_loopback]. by rewrite !mask_bit by lia. Qed.

(** On the BSDs no interface is ever bondable: the flags are left empty. *)
Theorem bsd_never_bondable (nodes : result (list ifaddr) IoError) (out : list NetworkInterface) :
  other_unix_list nodes = Ok out → Forall (fun i => is_bondable i = false) out.
Proof.
  unfold other_unix_list. destruct (getifaddrs_addresses Bsd nodes) as [m|e]; [|done]. cbn [result_bind]. intros [= <-].
  rewrite (proj1 (sort_by_name_spec _)). apply Forall_fmap, Forall_forall. intros [name [v4 v6]] _. done.
Qed.

(** The all-zero address, which [/sys] prints for an interface without hardware
    address, is accepted, and so is a sign in front of a digit. *)
Example zero_mac_accepted : parse_mac (lit "00:00:00:00:00:00") = Some [0; 0; 0; 0; 0; 0].
Proof. reflexivity. Qed.
Example signed_mac_accepted : parse_mac (lit "+a:bb:cc:dd:ee:ff") = Some [0x0a; 0xbb; 0xcc; 0xdd; 0xee; 0xff].
Proof. reflexivity. Qed.

(** ** Witnesses *)

Definition demo_sys : Sys :=
  mkSys (Ok [Ok (lit "lo"); Ok (lit "eth0")])
    (fun n => if bool_decide (n = lit "eth0") then Ok (lit "02:42:ac:11:00:02" ++ [10]) else Err (OsError 2))
    (fun n => Ok (lit "up" ++ [10]))
    (fun n => Ok (lit (if bool_decide (n = lit "eth0") then "0x1043" else "0x9")))
    (Ok [mkIfaddr (Some (lit "eth0")) (Some ([2; 0; 0; 0; 192; 0; 2; 9] ++ replicate 8 0));
         mkIfaddr (Some (lit "lo")) (Some ([2; 0; 0; 0; 127; 0; 0; 1] ++ replicate 8 0))]).
Definition demo_nodes : list ifaddr := match sys_ifaddrs demo_sys with Ok n => n | Err _ => [] end.

Lemma iface_list_exact_witness :
  ∃ out, linux_list demo_sys = Ok out ∧ out ≡ₚ (describe_iface demo_sys demo_nodes <$> [lit "lo"; lit "eth0"]) ∧ StronglySorted name_le out.
Proof.
  apply (iface_list_exact demo_sys [lit "lo"; lit "eth0"] demo_nodes); [reflexivity|reflexivity|].
  apply (bool_decide_unpack _). vm_compute. exact I.
Defined.

Example demo_listing :
  match linux_list demo_sys with Ok l => (fun i => (ni_name i, ni_ipv4 i, is_bondable i)) <$> l | Err _ => [] end
  = [(lit "eth0", [[192; 0; 2; 9]], true); (lit "lo", [[127; 0; 0; 1]], false)].
Proof. vm_compute. reflexivity. Qed.

Definition demo_iface : NetworkInterface :=
  mkNetworkInterface (lit "eth0") [2; 0x42; 0xac; 0x11; 0; 2] [] [] (from_linux_bits 0x1043) (lit "up").

Lemma mac_roundtrip_witness : parse_mac (mac_string demo_iface) = Some [2; 0x42; 0xac; 0x11; 0; 2].
Proof. apply (mac_roundtrip demo_iface); [reflexivity|]. apply (bool_decide_unpack _). vm_compute. exact I. Defined.

Lemma bondable_exact_witness : is_bondable demo_iface = true.
Proof. by rewrite (bondable_exact demo_iface 0x1043 eq_refl). Defined.

Lemma bsd_never_bondable_witness :
  ∃ out, other_unix_list (Ok demo_nodes) = Ok out ∧ Forall (fun i => is_bondable i = false) out.
Proof. eexists. split; [reflexivity|]. by apply (bsd_never_bondable (Ok demo_nodes)). Defined.
