(* ===== verification/WinIface.v ===== *)
(** * Host interfaces on Windows

    [crates/desmos-core/src/net/iface.rs], [windows_list]: the walk over the linked lists
    that [GetAdaptersAddresses] lays out in a buffer.  A pointer is an integer, zero the
    null one; the buffer maps pointers to the nodes behind them, and reading a pointer
    with nothing behind it is an undefined result. *)

From stdpp Require Import base gmap numbers list strings.
From Stdlib Require Import ZArith Lia.
From S2P Require Import Prelude Str Pipeline Iface.

(** [String::from_utf16_lossy]: unpaired surrogates become U+FFFD. *)
Definition is_high (u : Z) : bool := (0xD800 <=? u) && (u <? 0xDC00).
Definition is_low (u : Z) : bool := (0xDC00 <=? u) && (u <? 0xE000).
Fixpoint from_utf16_lossy (us : list Z) : str :=
  match us with
  | [] => []
  | u :: rest =>
      if is_high u then
        match rest with
        | v :: rest' => if is_low v then 0x10000 + (u - 0xD800) * 1024 + (v - 0xDC00) :: from_utf16_lossy rest'
                        else 0xFFFD :: from_utf16_lossy rest
        | [] => [0xFFFD]
        end
      else (if is_low u then 0xFFFD else u) :: from_utf16_lossy rest
  end.

(** A socket address: its family and the bytes behind it. *)
Record UnicastAddress := mkUnicast { ua_next : Z; ua_sockaddr : option (Z * bytes) }.

Record AdapterAddresses := mkAdapter {
  ad_next : Z;
  ad_first_unicast : Z;
  ad_friendly_name : option (list Z);
  ad_physical_address : bytes;
  ad_physical_address_length : Z;
  ad_if_type : Z;
  ad_oper_status : Z;
}.

Record AdapterBuffer := mkAdapterBuffer { ab_adapters : gmap Z AdapterAddresses; ab_unicasts : gmap Z UnicastAddress }.

Definition ERROR_SUCCESS : Z := 0.
Definition ERROR_BUFFER_OVERFLOW : Z := 111.

(** The units before the terminator. *)
Fixpoint units_until_nul (us : list Z) : option (list Z) :=
  match us with [] => None | u :: us => if u =? 0 then Some [] else r ← units_until_nul us; Some (u :: r) end.

Definition adapter_name (a : AdapterAddresses) : panics str :=
  match ad_friendly_name a with
  | None => Some (lit "unknown")
  | Some us => u ← units_until_nul us; Some (from_utf16_lossy u)
  end.

Definition adapter_mac (a : AdapterAddresses) : panics bytes :=
  let mac_len := Z.to_nat (Z.min (ad_physical_address_length a) 6) in
  src ← slice_checked 0 mac_len (ad_physical_address a);
  Some (copy_from_slice (replicate 6 0) 0 src).

Definition oper_name (status : Z) : str :=
  if status =? 1 then lit "up" else if status =? 2 then lit "down" else if status =? 3 then lit "testing" else lit "unknown".

Definition adapter_flags (a : AdapterAddresses) : IfaceFlags :=
  mkIfaceFlags (ad_oper_status a =? 1) (ad_oper_status a =? 1) (ad_if_type a =? 24) (ad_if_type a =? 23) (ad_if_type a =? 6) true.

(** One address of the inner loop. *)
Definition add_unicast (u : UnicastAddress) (acc : list bytes * list bytes) : panics (list bytes * list bytes) :=
  match ua_sockaddr u with
  | None => Some acc
  | Some (family, data) =>
      if family =? 2 then a ← slice_checked 2 6 data; Some (acc.1 ++ [a], acc.2)
      else if family =? 23 then a ← slice_checked 6 22 data; Some (acc.1, acc.2 ++ [a])
      else Some acc
  end.

Fixpoint walk_unicast (fuel : nat) (us : gmap Z UnicastAddress) (ptr : Z) (acc : list bytes * list bytes)
    : panics (list bytes * list bytes) :=
  if ptr =? 0 then Some acc
  else
    match fuel with
    | O => None
    | S fuel => u ← us !! ptr; acc ← add_unicast u acc; walk_unicast fuel us (ua_next u) acc
    end.

(** The body of the outer loop. *)
Definition read_adapter (b : AdapterBuffer) (a : AdapterAddresses) : panics NetworkInterface :=
  name ← adapter_name a;
  mac ← adapter_mac a;
  '(v4, v6) ← walk_unicast (size (ab_unicasts b)) (ab_unicasts b) (ad_first_unicast a) ([], []);
  Some (mkNetworkInterface name mac v4 v6 (adapter_flags a) (oper_name (ad_oper_status a))).

Fixpoint walk_adapters (fuel : nat) (b : AdapterBuffer) (ptr : Z) (out : list NetworkInterface) : panics (list NetworkInterface) :=
  if ptr =? 0 then Some out
  else
    match fuel with
    | O => None
    | S fuel => a ← ab_adapters b !! ptr; i ← read_adapter b a; walk_adapters fuel b (ad_next a) (out ++ [i])
    end.

(** [rc1] is the answer to the size query, [rc2] and [b] to the second call; [base] is the
    address of the buffer, which is never null. *)
Definition windows_list (rc1 rc2 : Z) (b : AdapterBuffer) (base : Z) : panics (result (list NetworkInterface) IfaceError) :=
  if negb (rc1 =? ERROR_BUFFER_OVERFLOW) && negb (rc1 =? ERROR_SUCCESS) then
    Some (Err (IfaceIo "GetAdaptersAddresses size query" (OsError rc1)))
  else if negb (rc2 =? ERROR_SUCCESS) then Some (Err (IfaceIo "GetAdaptersAddresses" (OsError rc2)))
  else out ← walk_adapters (size (ab_adapters b)) b base []; Some (Ok out).

(** ** Lemmas *)

(** A null-terminated list: the nodes from [ptr] on, with their addresses. *)
Fixpoint chain_nodes {A} (next : A → Z) (m : gmap Z A) (ptr : Z) (nodes : list (Z * A)) : Prop :=
  match nodes with
  | [] => ptr = 0
  | (p, a) :: nodes => ptr = p ∧ p ≠ 0 ∧ m !! p = Some a ∧ chain_nodes next m (next a) nodes
  end.

Lemma chain_length {A} (next : A → Z) (m : gmap Z A) nodes : ∀ ptr, NoDup nodes.*1 → chain_nodes next m ptr nodes → (length nodes <= size m)%nat.
Proof.
  intros ptr Hnd Hc. assert (Hsub : list_to_set nodes.*1 ⊆ dom m).
  { clear Hnd. revert ptr Hc. induction nodes as [|[p a] nodes IH]; intros ptr Hc; cbn in *; [set_solver|].
    destruct Hc as (-> & _ & Hp & Hc). apply IH in Hc. apply elem_of_dom_2 in Hp. set_solver. }
  apply subseteq_size in Hsub. rewrite size_dom, size_list_to_set, length_fmap in Hsub by done. exact Hsub.
Qed.

(** The addresses of a family, in the order of the list. *)
Definition unicast_of (family : Z) (lo hi : nat) (nodes : list (Z * UnicastAddress)) : list bytes :=
  omap (fun '(_, u) => '(f, d) ← ua_sockaddr u; if f =? family then Some (slice lo hi d) else None) nodes.

(** Addresses of the two families have the bytes that are read. *)
Definition unicast_ok (u : UnicastAddress) : Prop :=
  match ua_sockaddr u with
  | Some (f, d) => (f = 2 → (6 <= length d)%nat) ∧ (f = 23 → (22 <= length d)%nat)
  | None => True
  end.

Lemma walk_unicast_spec (us : gmap Z UnicastAddress) nodes : ∀ fuel ptr v4 v6, chain_nodes ua_next us ptr nodes →
  (length nodes <= fuel)%nat → Forall (fun n => unicast_ok n.2) nodes →
  walk_unicast fuel us ptr (v4, v6) = Some (v4 ++ unicast_of 2 2 6 nodes, v6 ++ unicast_of 23 6 22 nodes).
Proof.
  induction nodes as [|[p u] nodes IH]; intros fuel ptr v4 v6 Hc Hf Hok; cbn in Hc.
  { subst ptr. cbn. rewrite !app_nil_r. by destruct fuel. }
  destruct Hc as (-> & Hp & Hl & Hc). apply Forall_cons in Hok as [Hu Hok]. destruct fuel as [|fuel]; [cbn in Hf; lia|].
  cbn [walk_unicast]. rewrite (proj2 (Z.eqb_neq _ _)) by done. rewrite Hl. cbn [mbind option_bind]. cbn [length] in Hf.
  unfold add_unicast, unicast_of. cbn [omap list_omap]. cbn in Hu. unfold unicast_ok in Hu.
  destruct (ua_sockaddr u) as [[f d]|]; cbn [mbind option_bind]; [|apply IH; [done|lia|done]].
  unfold slice_checked. destruct (Z.eqb_spec f 2) as [->|H2].
  - rewrite (proj2 (Nat.leb_le 6 (length d))) by (by apply Hu). cbn [Nat.leb andb mbind option_bind fst snd Z.eqb].
    rewrite IH by (done || lia). by rewrite <-app_assoc.
  - destruct (Z.eqb_spec f 23) as [->|H23]; cbn [mbind option_bind]; [|apply IH; [done|lia|done]].
    rewrite (proj2 (Nat.leb_le 22 (length d))) by (by apply Hu). cbn [Nat.leb andb mbind option_bind fst snd].
    rewrite IH by (done || lia). by rewrite <-app_assoc.
Qed.

(** An adapter as the lists describe it. *)
Record AdapterView := mkView { vw_name : str; vw_mac : bytes; vw_unicasts : list (Z * UnicastAddress) }.
Definition views (b : AdapterBuffer) (a : AdapterAddresses) (v : AdapterView) : Prop :=
  adapter_name a = Some (vw_name v) ∧ adapter_mac a = Some (vw_mac v) ∧
  chain_nodes ua_next (ab_unicasts b) (ad_first_unicast a) (vw_unicasts v) ∧ NoDup (vw_unicasts v).*1 ∧
  Forall (fun n => unicast_ok n.2) (vw_unicasts v).
Definition view_iface (a : AdapterAddresses) (v : AdapterView) : NetworkInterface :=
  mkNetworkInterface (vw_name v) (vw_mac v) (unicast_of 2 2 6 (vw_unicasts v)) (unicast_of 23 6 22 (vw_unicasts v)) (adapter_flags a)
    (oper_name (ad_oper_status a)).

Lemma read_adapter_spec b a v : views b a v → read_adapter b a = Some (view_iface a v).
Proof.
  intros (Hn & Hm & Hc & Hnd & Hok). unfold read_adapter. rewrite Hn, Hm. cbn [mbind option_bind].
  rewrite (walk_unicast_spec _ (vw_unicasts v)); [done|done|by eapply chain_length|done].
Qed.

Lemma walk_adapters_spec b nodes : ∀ views_l fuel ptr out, chain_nodes ad_next (ab_adapters b) ptr nodes → (length nodes <= fuel)%nat →
  Forall2 (fun n v => views b n.2 v) nodes views_l →
  walk_adapters fuel b ptr out = Some (out ++ zip_with (fun n v => view_iface n.2 v) nodes views_l).
Proof.
  induction nodes as [|[p a] nodes IH]; intros vs fuel ptr out Hc Hf Hv; inversion Hv as [|? v ? vs' Hv1 Hv2]; subst; cbn in Hc.
  { subst ptr. cbn. rewrite app_nil_r. by destruct fuel. }
  destruct Hc as (-> & Hp & Hl & Hc). destruct fuel as [|fuel]; [cbn in Hf; lia|]. cbn [walk_adapters length] in *.
  rewrite (proj2 (Z.eqb_neq _ _)) by done. rewrite Hl. cbn [mbind option_bind]. rewrite (read_adapter_spec b a v Hv1). cbn [mbind option_bind].
  rewrite (IH vs') by (done || lia). by rewrite <-app_assoc.
Qed.

(** ** Properties *)

(** The Windows enumeration is exact: on a null-terminated list of adapters, each with a
    null-terminated list of addresses, it terminates, reads nothing else, and returns one
    interface per adapter, in order, with every address of its list and no other; and an
    interface is bondable exactly when its adapter is up and not the loopback. *)
Theorem windows_list_exact (b : AdapterBuffer) (base rc1 : Z) (nodes : list (Z * AdapterAddresses)) (vs : list AdapterView)
  (Hrc : rc1 = ERROR_BUFFER_OVERFLOW ∨ rc1 = ERROR_SUCCESS) (Hchain : chain_nodes ad_next (ab_adapters b) base nodes) (Hnd : NoDup nodes.*1)
  (Hviews : Forall2 (fun n v => views b n.2 v) nodes vs) :
  windows_list rc1 ERROR_SUCCESS b base = Some (Ok (zip_with (fun n v => view_iface n.2 v) nodes vs)) ∧
  ∀ a v, is_bondable (view_iface a v) = (ad_oper_status a =? 1) && negb (ad_if_type a =? 24).
Proof.
  split.
  - unfold windows_list. assert (negb (rc1 =? ERROR_BUFFER_OVERFLOW) && negb (rc1 =? ERROR_SUCCESS) = false) as -> by (by destruct Hrc as [-> | ->]).
    cbn [negb Z.eqb ERROR_SUCCESS]. rewrite (walk_adapters_spec _ nodes vs); [done|done|by eapply chain_length|done].
  - intros a v. unfold is_bondable, view_iface, adapter_flags. cbn. by destruct (ad_oper_status a =? 1).
Qed.

(** Wi-Fi adapters, of interface type 71, are bondable but never marked as broadcast. *)
Example windows_wifi_not_broadcast (a : AdapterAddresses) (v : AdapterView) : ad_if_type a = 71 → ad_oper_status a = 1 →
  is_bondable (view_iface a v) = true ∧ if_broadcast (ni_flags (view_iface a v)) = false.
Proof. intros H1 H2. unfold is_bondable, view_iface, adapter_flags. cbn. by rewrite H1, H2. Qed.

(** ** Witnesses *)

Definition demo_adapter : AdapterAddresses := mkAdapter 0 64 (Some [87; 105; 45; 70; 105; 0]) [2; 0; 0; 0; 0; 1; 0; 0] 6 71 1.
Definition demo_unicast : UnicastAddress := mkUnicast 0 (Some (2, [0; 0; 10; 0; 0; 7; 0; 0; 0; 0; 0; 0; 0; 0])).
Definition demo_buffer : AdapterBuffer := mkAdapterBuffer {[16 := demo_adapter]} {[64 := demo_unicast]}.

Lemma windows_list_exact_witness :
  windows_list ERROR_BUFFER_OVERFLOW ERROR_SUCCESS demo_buffer 16
  = Some (Ok [mkNetworkInterface (lit "Wi-Fi") [2; 0; 0; 0; 0; 1] [[10; 0; 0; 7]] [] (mkIfaceFlags true true false false false true) (lit "up")]).
Proof.
  destruct (windows_list_exact demo_buffer 16 ERROR_BUFFER_OVERFLOW [(16, demo_adapter)]
    [mkView (lit "Wi-Fi") [2; 0; 0; 0; 0; 1] [(64, demo_unicast)]]) as [H _].
  - left. reflexivity.
  - repeat split; discriminate.
  - apply NoDup_singleton.
  - apply Forall2_cons. split; [|apply Forall2_nil_2]. split; [reflexivity|]. split; [reflexivity|].
    split; [repeat split; discriminate|]. split; [apply NoDup_singleton|]. apply Forall_singleton. split; [intros _; cbn; lia|discriminate].
  - exact H.
Defined.
