(* ===== verification/WebUi.v ===== *)
(** * The REST interface ([desmos-webui])

    The envelope of [dto.rs], the handlers, the Prometheus exposition and the route
    table of [routes.rs], on the router and the JSON codec of [desmos-http] and the
    daemon's shared context.  A handler is a change of the process together with its
    response; [None] is a panic.  The wall clock is a field, the build's embedded
    files and version string are arguments. *)

From stdpp Require Import base gmap numbers strings list sorting relations.
From Stdlib Require Import ZArith Lia SpecFloat.
From S2P Require Import Prelude Str Float Wire Score Strategy Engine Crypto Session.
From S2P Require Import Clients Pipeline Http WebSocket Toml TomlPrint Config Log Daemon Json.

(** The process with the request counter and what [now_us] returns. *)
Record Web := mkWeb { wb_proc : Process; wb_counter : Z; wb_now_us : Z }.

Abbreviation Act := (Web → panics (Response * Web)).

(** A response of the router or of a middleware. *)
Definition answer (r : Response) : Act := fun w => Some (r, w).

Definition web_ctx (w : Web) : option DaemonContext := pr_ctx (wb_proc w).
(** Writes through the shared context. *)
Definition with_ctx (ctx : DaemonContext) (w : Web) : Web :=
  mkWeb (mkProcess (Some ctx) (pr_logger (wb_proc w)) (pr_shutdown (wb_proc w))) (wb_counter w) (wb_now_us w).

(** ** [dto.rs] *)

Fixpoint hex_digits (fuel : nat) (n : Z) (acc : str) : str :=
  match fuel with
  | O => acc
  | S fuel => let acc := hex_digit (n mod 16) :: acc in if n <? 16 then acc else hex_digits fuel (n / 16) acc
  end.
(** [{:08x}] of a [u64]. *)
Definition show_hex08 (n : Z) : str :=
  let ds := hex_digits 16 n [] in replicate (8 - length ds) 48 ++ ds.

Definition next_request_id (w : Web) : str * Web :=
  (lit "0x" ++ show_hex08 (wb_counter w), mkWeb (wb_proc w) (wrapping_add 64 (wb_counter w) 1) (wb_now_us w)).

(** A [BTreeMap] filled by [insert]s. *)
Definition object (es : list (string * Value)) : Value :=
  Object (foldl (fun m e => btree_insert (lit e.1) e.2 m) [] es).

Definition num (n : Z) : Value := Number (f64_of_Z n).

Definition meta_object (request_id : str) (generated_at_us : Z) : Value :=
  object [("request_id"%string, JString request_id); ("generated_at_us"%string, num generated_at_us)].

Definition success_envelope (data : Value) (w : Web) : str * Web :=
  let '(id, w) := next_request_id w in
  (encode (object [("data"%string, data); ("meta"%string, meta_object id (wb_now_us w))]), w).

Definition error_envelope_with_details (code msg : str) (details : option Value) (w : Web) : str * Web :=
  let '(id, w) := next_request_id w in
  let err := [("code"%string, JString code); ("message"%string, JString msg)] ++
             match details with Some d => [("details"%string, d)] | None => [] end in
  (encode (object [("error"%string, object err); ("meta"%string, meta_object id (wb_now_us w))]), w).

Definition error_envelope (code msg : str) (w : Web) : str * Web := error_envelope_with_details code msg None w.

(** The two ways a handler ends. *)
Definition reply_ok (data : Value) : Act :=
  fun w => let '(json, w) := success_envelope data w in Some (body_json json Response_ok, w).
Definition reply_error (r : Response) (code msg : str) : Act :=
  fun w => let '(json, w) := error_envelope code msg w in Some (body_json json r, w).

(** ** [handlers/config.rs] *)

Definition REDACTED_KEYS : list str := [lit "psk"; lit "password_hash"; lit "private_key"; lit "totp_secret"].
Definition REDACTED : str := lit "***".

(** The entries of the result are inserted one by one. *)
Fixpoint redact_secrets (v : Value) : Value :=
  match v with
  | Object obj =>
      Object (foldl (fun m e => btree_insert e.1 e.2 m) []
        (map (fun e => (e.1, if bool_decide (e.1 ∈ REDACTED_KEYS) then JString REDACTED else redact_secrets e.2)) obj))
  | Array arr => Array (map redact_secrets arr)
  | other => other
  end.

Definition config_get (_ : Request) (_ : Params) : Act := fun w =>
  let data := match web_ctx w with
              | Some ctx =>
                  let g := c_general (ctx_config ctx) in
                  redact_secrets (object [("mode"%string, JString (mode_as_str (g_mode g)));
                                          ("log_level"%string, JString (level_as_str (g_log_level g)));
                                          ("tunnel_mtu"%string, num (g_tunnel_mtu g))])
              | None => object [("mode"%string, JString (lit "client"))]
              end in
  reply_ok data w.

Definition strings_json (ss : list str) : Value := Array (JString <$> ss).

Section handlers.
Context (char_debug : char → str) (VERSION : str) (lookup_file : str → option (str * bytes)).

(** The part of [put] behind validation. *)
Definition apply_config (new_config : Config) : Act := fun w =>
  let current := match web_ctx w with Some ctx => ctx_config ctx | None => new_config end in
  let diff := config_diff current new_config in
  if negb (diff_is_safe diff) then
    let details := object [("unsafe_fields"%string, strings_json (unsafe_fields diff))] in
    let '(json, w) := error_envelope_with_details (lit "unsafe_reload")
                        (lit "Some fields cannot be hot-reloaded and require a restart") (Some details) w in
    Some (body_json json (Response_new 409), w)
  else
    let w := match web_ctx w with Some ctx => with_ctx (set_config new_config ctx) w | None => w end in
    reply_ok (object ([("applied"%string, Bool true)] ++
                      (if diff_is_empty diff then [] else [("reloaded_fields"%string, strings_json (safe_fields diff))]))) w.

Definition config_put (req : Request) (_ : Params) : Act := fun w =>
  match from_utf8 (rq_body req) with
  | None => reply_error (bad_request (lit "invalid body")) (lit "invalid_body") (lit "Request body is not valid UTF-8") w
  | Some body_str =>
      match trim body_str with
      | [] => reply_error (bad_request (lit "empty body")) (lit "empty_body") (lit "TOML body is required") w
      | _ =>
          match Toml.parse body_str with
          | Panic => None
          | Fail e => reply_error (bad_request (lit "parse error")) (lit "parse_error")
                        (lit "TOML parse error: " ++ ParseError_fmt char_debug e) w
          | Ret value =>
              match from_value value with
              | Err e => reply_error (bad_request (lit "validation error")) (lit "validation_error")
                           (lit "Validation error: " ++ ParseError_fmt char_debug e) w
              | Ok new_config => apply_config new_config w
              end
          end
      end
  end.

(** ** [handlers/bonding.rs] *)

Definition VALID_STRATEGIES : list str :=
  [lit "round-robin"; lit "weighted"; lit "latency-adaptive"; lit "redundant"].

Definition bonding_get (_ : Request) (_ : Params) : Act := fun w =>
  match web_ctx w with
  | Some ctx =>
      let links := Engine_links_snapshot (ctx_engine ctx) in
      let healthy := f64_of_Z (Z.of_nat (length (LinkTable_healthy links))) in
      let total := f64_of_Z (Z.of_nat (length links)) in
      reply_ok (object [("strategy"%string, JString (lit (Engine_current_strategy_name (ctx_engine ctx))));
                        ("active_links"%string, Number healthy); ("degraded_links"%string, num 0);
                        ("dead_links"%string, Number (f64_sub total healthy))]) w
  | None =>
      reply_ok (object [("strategy"%string, JString (lit "round-robin")); ("active_links"%string, num 0);
                        ("degraded_links"%string, num 0); ("dead_links"%string, num 0)]) w
  end.

Definition JsonError_fmt (e : JsonError) : str :=
  let at_ (n : nat) := lit " at position " ++ show_uint (Z.of_nat n) in
  match e with
  | UnexpectedEof => lit "unexpected end of input"
  | UnexpectedChar pos ch => lit "unexpected '" ++ [ch] ++ lit "'" ++ at_ pos
  | InvalidNumber pos => lit "invalid number" ++ at_ pos
  | UnterminatedString => lit "unterminated string"
  | InvalidEscape pos => lit "invalid escape" ++ at_ pos
  | DepthExceeded => lit "nesting depth exceeded (max 32)"
  | TrailingContent pos => lit "trailing content" ++ at_ pos
  end.

(** The first two checks of the handlers with a JSON body. *)
Definition with_json_body (req : Request) (k : Value → Act) : Act := fun w =>
  match from_utf8 (rq_body req) with
  | None => reply_error (bad_request (lit "invalid body")) (lit "invalid_body") (lit "Request body is not valid UTF-8") w
  | Some body_str =>
      r ← decode body_str;
      match r with
      | Err e => reply_error (bad_request (lit "invalid json")) (lit "invalid_json") (lit "Invalid JSON: " ++ JsonError_fmt e) w
      | Ok v => k v w
      end
  end.

Definition bonding_set_strategy (req : Request) (_ : Params) : Act :=
  with_json_body req (fun body_value w =>
    match Value_get (lit "strategy") body_value ≫= as_str with
    | None => reply_error (bad_request (lit "missing strategy")) (lit "missing_strategy") (lit "Field 'strategy' is required") w
    | Some strategy =>
        if negb (bool_decide (strategy ∈ VALID_STRATEGIES)) then
          reply_error (bad_request (lit "invalid strategy")) (lit "invalid_strategy")
            (lit "Unknown strategy '" ++ strategy ++ lit "'. Valid: " ++ separated (lit ", ") VALID_STRATEGIES) w
        else
          let w := match web_ctx w, strategy_of_str strategy with
                   | Some ctx, Some s => with_ctx (set_engine (Engine_swap_strategy (ctx_engine ctx) (new_strategy s)) ctx) w
                   | _, _ => w
                   end in
          reply_ok (object [("strategy"%string, JString strategy); ("applied"%string, Bool true)]) w
    end).

(** ** [handlers/interfaces.rs] *)

Definition link_json (l : Link) : Value :=
  object [("name"%string, JString (link_name l)); ("id"%string, num (link_id l)); ("state"%string, JString (lit "active"));
          ("rtt_us"%string, num 0); ("loss_pct"%string, num 0); ("jitter_us"%string, num 0); ("tx_bytes"%string, num 0);
          ("rx_bytes"%string, num 0); ("weight"%string, num (link_weight l)); ("enabled"%string, Bool true)].

Definition interfaces_list (_ : Request) (_ : Params) : Act := fun w =>
  let arr := match web_ctx w with Some ctx => link_json <$> Engine_links_snapshot (ctx_engine ctx) | None => [] end in
  reply_ok (object [("interfaces"%string, Array arr)]) w.

(** [(0.0..=1000.0).contains(&n) && n.fract() == 0.0]. *)
Definition valid_weight (n : f64) : bool := match small_integer n with Some i => (0 <=? i) && (i <=? 1000) | None => false end.

Definition interfaces_update (req : Request) (params : Params) : Act :=
  match Params_get (lit "name") params with
  | None => reply_error (bad_request (lit "missing param")) (lit "missing_param") (lit "Interface name is required")
  | Some name =>
      with_json_body req (fun body_value w =>
        match as_object body_value with
        | None => reply_error (bad_request (lit "invalid body")) (lit "invalid_body") (lit "Expected a JSON object") w
        | Some obj =>
            let bad_weight := match btree_get (lit "weight") obj with
                              | Some v => match as_f64 v with Some n => negb (valid_weight n) | None => true end
                              | None => false
                              end in
            let bad_enabled := match btree_get (lit "enabled") obj with
                               | Some v => match as_bool v with Some _ => false | None => true end
                               | None => false
                               end in
            if bad_weight : bool then
              reply_error (bad_request (lit "invalid weight")) (lit "invalid_weight") (lit "Weight must be 0-1000 integer") w
            else if bad_enabled : bool then
              reply_error (bad_request (lit "invalid enabled")) (lit "invalid_enabled") (lit "Enabled must be a boolean") w
            else
              let weight := f64_as_u32 <$> (btree_get (lit "weight") obj ≫= as_f64) in
              let enabled := btree_get (lit "enabled") obj ≫= as_bool in
              match web_ctx w with
              | None => reply_error (Response_new 503) (lit "no_daemon") (lit "Daemon not running") w
              | Some ctx =>
                  let '(engine, found) := Engine_update_link (ctx_engine ctx) name weight enabled in
                  if negb found then reply_error not_found (lit "not_found") (lit "No link with that name") w
                  else
                    reply_ok (object ([("name"%string, JString name); ("updated"%string, Bool true)] ++
                                      match weight with Some x => [("weight"%string, num x)] | None => [] end ++
                                      match enabled with Some b => [("enabled"%string, Bool b)] | None => [] end))
                      (with_ctx (set_engine engine ctx) w)
              end
        end)
  end.

(** ** [handlers/clients.rs] *)

Definition clients_list (_ : Request) (_ : Params) : Act := fun w =>
  let ids := match web_ctx w ≫= ctx_registry with Some reg => SessionTable_ids (cr_table reg) | None => [] end in
  reply_ok (object [("clients"%string, Array ((fun id => object [("session_id"%string, num id)]) <$> ids))]) w.

Definition clients_kick (_ : Request) (params : Params) : Act := fun w =>
  match Params_get (lit "session_id") params with
  | None => reply_error (bad_request (lit "missing param")) (lit "missing_param") (lit "Session ID is required") w
  | Some s =>
      let invalid := reply_error (bad_request (lit "invalid session id")) (lit "invalid_session_id")
                       (lit "Session ID must be a positive integer (1-65535)") in
      match parse_uint 16 s with
      | None => invalid w
      | Some id =>
          if negb (0 <? id) then invalid w
          else
            let absent := reply_error not_found (lit "not_found") (lit "Session not found or daemon not in server mode") in
            match web_ctx w with
            | None => absent w
            | Some ctx =>
                match ctx_registry ctx with
                | None => absent w
                | Some reg =>
                    let '(reg, slot) := remove_client reg id in
                    let w := with_ctx (set_registry (Some reg) ctx) w in
                    match slot with
                    | None => absent w
                    | Some _ => reply_ok (object [("session_id"%string, num id); ("kicked"%string, Bool true)]) w
                    end
                end
            end
      end
  end.

(** ** [prometheus.rs] *)

Record InterfaceStats := mkInterfaceStats {
  is_name : str; is_tx_bytes : Z; is_rx_bytes : Z; is_tx_packets : Z; is_rx_packets : Z;
  is_decrypt_errors : Z; is_replay_drops : Z; is_rtt_us : Z; is_loss_pct : f64; is_jitter_us : Z }.

Record Sample := mkSample { sm_name : str; sm_labels : list (str * str); sm_value : f64 }.
Record MetricFamily := mkFamily { mf_name : str; mf_help : str; mf_type : str; mf_samples : list Sample }.

Definition PROMETHEUS_CONTENT_TYPE : str := lit "text/plain; version=0.0.4; charset=utf-8".

Definition escape_label_value (s : str) : str :=
  s ≫= (fun c => if c =? 92 then [92; 92] else if c =? 34 then [92; 34] else if c =? 10 then [92; 110] else [c]).

Definition render_sample (s : Sample) : str :=
  sm_name s ++
  (match sm_labels s with
   | [] => []
   | labels => lit "{" ++ separated (lit ",") ((fun l => l.1 ++ lit "=" ++ [34] ++ escape_label_value l.2 ++ [34]) <$> labels) ++ lit "}"
   end) ++
  lit " " ++ (match small_integer (sm_value s) with Some i => show_int i | None => show_f64 (sm_value s) end) ++ [10].

Definition render_family (f : MetricFamily) : str :=
  lit "# HELP " ++ mf_name f ++ lit " " ++ mf_help f ++ [10] ++
  lit "# TYPE " ++ mf_name f ++ lit " " ++ mf_type f ++ [10] ++ (mf_samples f ≫= render_sample) ++ [10].

Definition render (fs : list MetricFamily) : str := fs ≫= render_family.

(** One family with one sample per interface. *)
Definition interface_family (name help typ : string) (value : InterfaceStats → f64) (ifs : list InterfaceStats) : MetricFamily :=
  mkFamily (lit name) (lit help) (lit typ)
    ((fun i => mkSample (lit name) [(lit "interface", is_name i)] (value i)) <$> ifs).

Definition build_desmos_metrics (ifs : list InterfaceStats) : list MetricFamily :=
  [interface_family "desmos_bytes_tx" "Total bytes transmitted through the tunnel" "counter" (fun i => f64_of_Z (is_tx_bytes i)) ifs;
   interface_family "desmos_bytes_rx" "Total bytes received through the tunnel" "counter" (fun i => f64_of_Z (is_rx_bytes i)) ifs;
   interface_family "desmos_packets_tx" "Total packets transmitted" "counter" (fun i => f64_of_Z (is_tx_packets i)) ifs;
   interface_family "desmos_packets_rx" "Total packets received" "counter" (fun i => f64_of_Z (is_rx_packets i)) ifs;
   mkFamily (lit "desmos_errors_total") (lit "Total errors by type") (lit "counter")
     (ifs ≫= (fun i =>
        [mkSample (lit "desmos_errors_total") [(lit "interface", is_name i); (lit "type", lit "decrypt")] (f64_of_Z (is_decrypt_errors i));
         mkSample (lit "desmos_errors_total") [(lit "interface", is_name i); (lit "type", lit "replay")] (f64_of_Z (is_replay_drops i))]));
   interface_family "desmos_link_rtt_us" "Current RTT in microseconds" "gauge" (fun i => f64_of_Z (is_rtt_us i)) ifs;
   interface_family "desmos_link_loss_pct" "Current packet loss percentage" "gauge" is_loss_pct ifs;
   interface_family "desmos_link_jitter_us" "Current jitter in microseconds" "gauge" (fun i => f64_of_Z (is_jitter_us i)) ifs].

(** ** [handlers/stats.rs] *)

(** The value of the first pair with this key. *)
Definition parse_query_param (query key : str) : option str :=
  snd <$> (snd <$> list_find (fun e => e.1 = key) (omap (split_once (lit "=")) (split (lit "&") query))).

Definition wants_prometheus (req : Request) : bool :=
  (match Request_query req with
   | Some query => existsb (fun e => bool_decide (e.1 = lit "format") && bool_decide (e.2 = lit "prometheus"))
                     (omap (split_once (lit "=")) (split (lit "&") query))
   | None => false
   end) ||
  (match Headers_get (lit "accept") (rq_headers req) with
   | Some accept => str_contains (lit "text/plain") accept && str_contains (lit "version=0.0.4") accept
   | None => false
   end).

Definition collect_stats (ctx : option DaemonContext) : list InterfaceStats :=
  match ctx with
  | Some ctx =>
      let snap := ctx_metrics ctx in
      (fun link =>
         let score := ctx_link_scores ctx !! link_id link in
         mkInterfaceStats (link_name link) (bytes_sent snap) (bytes_received snap) (packets_sent snap) (packets_received snap)
           (decrypt_failures snap) (replay_drops snap)
           (match score with Some s => rtt_us s | None => 0 end)
           (match score with Some s => f32_as_f64 (loss_rate s) | None => f64_of_Z 0 end)
           (match score with Some s => jitter_us s | None => 0 end)) <$> Engine_links_snapshot (ctx_engine ctx)
  | None => []
  end.

Definition stats_json (i : InterfaceStats) : Value :=
  object [("name"%string, JString (is_name i)); ("tx_bytes"%string, num (is_tx_bytes i)); ("rx_bytes"%string, num (is_rx_bytes i));
          ("tx_packets"%string, num (is_tx_packets i)); ("rx_packets"%string, num (is_rx_packets i));
          ("rtt_us"%string, num (is_rtt_us i)); ("loss_pct"%string, Number (is_loss_pct i)); ("jitter_us"%string, num (is_jitter_us i))].

(** The two totals, accumulated with [saturating_add]. *)
Definition total_of (f : InterfaceStats → Z) (ifs : list InterfaceStats) : Z := foldl (fun t i => saturating_add 64 t (f i)) 0 ifs.

Definition stats_get (req : Request) (_ : Params) : Act := fun w =>
  let ifs := collect_stats (web_ctx w) in
  if wants_prometheus req then
    Some (body_raw PROMETHEUS_CONTENT_TYPE (as_bytes (render (build_desmos_metrics ifs))) Response_ok, w)
  else
    reply_ok (object [("total_tx_bytes"%string, num (total_of is_tx_bytes ifs)); ("total_rx_bytes"%string, num (total_of is_rx_bytes ifs));
                      ("interfaces"%string, Array (stats_json <$> ifs))]) w.

(** ** [handlers/status.rs], [health.rs], [version.rs] *)

Definition status_get (_ : Request) (_ : Params) : Act := fun w =>
  match web_ctx w with
  | Some ctx =>
      let links := Engine_links_snapshot (ctx_engine ctx) in
      reply_ok (object [("tunnel_state"%string, JString (TunnelState_as_str (tunnel_state ctx))); ("uptime_s"%string, num (ctx_uptime ctx));
                        ("strategy"%string, JString (lit (Engine_current_strategy_name (ctx_engine ctx))));
                        ("link_count"%string, num (Z.of_nat (length links)));
                        ("interfaces"%string, Array ((fun l =>
                           object [("name"%string, JString (link_name l));
                                   ("state"%string, JString (if link_healthy l then lit "active" else lit "dead"))]) <$> links))]) w
  | None =>
      reply_ok (object [("tunnel_state"%string, JString (lit "unknown")); ("uptime_s"%string, num 0);
                        ("strategy"%string, JString (lit "unknown")); ("link_count"%string, num 0); ("interfaces"%string, Array [])]) w
  end.

Definition health_get (_ : Request) (_ : Params) : Act := fun w =>
  let '(state, uptime) := match web_ctx w with
                          | Some ctx => (TunnelState_as_str (tunnel_state ctx), ctx_uptime ctx)
                          | None => (lit "unknown", 0)
                          end in
  Some (body_json (encode (object [("status"%string, JString (lit "ok")); ("version"%string, JString VERSION);
                                   ("tunnel_state"%string, JString state); ("uptime_s"%string, num uptime)])) Response_ok, w).

Definition version_get (_ : Request) (_ : Params) : Act :=
  answer (body_json (encode (object [("version"%string, JString VERSION)])) Response_ok).

(** ** [handlers/logs.rs] *)

Definition DEFAULT_LIMIT : Z := 100.
Definition MAX_LIMIT : Z := 1000.

Definition parse_limit (query : str) : Z :=
  default DEFAULT_LIMIT ((fun n => Z.min n MAX_LIMIT) <$> (parse_query_param query (lit "limit") ≫= parse_uint 64)).
Definition parse_level (query : str) : str := default (lit "debug") (parse_query_param query (lit "level")).

(** [>=] on [&str]. *)
Definition str_geb (a b : str) : bool := match key_compare a b with Lt => false | _ => true end.

Definition entry_json (e : Entry) : Value :=
  object [("level"%string, JString (Level_as_str (en_level e))); ("target"%string, JString (en_target e));
          ("message"%string, JString (en_msg e))].

Definition logs_selected (query : str) (l : Logger) : list Entry :=
  take (Z.to_nat (parse_limit query))
    (List.filter (fun e => str_geb (Level_as_str (en_level e)) (parse_level query)) (snapshot_ring l)).

Definition logs_list (req : Request) (_ : Params) : Act := fun w =>
  let query := default [] (Request_query req) in
  reply_ok (object [("entries"%string, Array (entry_json <$> logs_selected query (pr_logger (wb_proc w))))]) w.

(** ** [handlers/ws.rs] *)

Definition ws_upgrade `{RingHash} (req : Request) (_ : Params) : Act := fun w =>
  match try_upgrade req with
  | Some resp => Some (resp, w)
  | None => reply_error (bad_request (lit "upgrade required")) (lit "upgrade_required") (lit "WebSocket upgrade required") w
  end.

(** ** [embed.rs] *)

Definition spa_root (_ : Request) (_ : Params) : Act :=
  answer (match lookup_file (lit "/") with
          | Some (content_type, data) => body_raw content_type data Response_ok
          | None => not_found
          end).

Definition spa_static (req : Request) (_ : Params) : Act :=
  answer (match lookup_file (Request_path req) with
          | Some (content_type, data) =>
              let r := body_raw content_type data Response_ok in
              if str_contains (lit "/assets/") (Request_path req)
              then Response_header (lit "Cache-Control") (lit "public, max-age=31536000, immutable") r else r
          | None => not_found
          end).

(** ** [routes.rs] *)

(** [OnceLock::set], whose error is dropped: only the first value stays. *)
Definition OnceLock_set {A} (cell : option A) (v : A) : option A := match cell with Some _ => cell | None => Some v end.

(** The gate as a middleware, on the configuration in [GLOBAL_AUTH_CONFIG]; a panic in it is
    the request's. *)
Definition auth_middleware `{RingHash} (global : option AuthConfig) : MiddlewareFn Act := fun req =>
  match global with
  | None => Some (answer internal_error)
  | Some config =>
      match auth_gate req config with
      | None => Some (fun _ => None)
      | Some None => None
      | Some (Some resp) => Some (answer resp)
      end
  end.

(** The cell never changes once it is set, so the middleware reads what it holds now. *)
Definition make_auth_middleware `{RingHash} (global : option AuthConfig) (config : AuthConfig)
    : option AuthConfig * list (MiddlewareFn Act) :=
  let global := OnceLock_set global config in (global, [auth_middleware global]).

(** The routes, and the cell afterwards. *)
Definition build_router `{RingHash} (global : option AuthConfig) (config : AuthConfig) : option AuthConfig * Router Act :=
  let '(global, mw) := make_auth_middleware global config in
  let open m path h := mkRoute m (parse_pattern (lit path)) [] h in
  let gated m path h := mkRoute m (parse_pattern (lit path)) mw h in
  (global,
  [open Get "/api/v1/health" health_get; open Get "/api/v1/version" version_get;
   gated Get "/api/v1/status" status_get; gated Get "/api/v1/interfaces" interfaces_list;
   gated Get "/api/v1/bonding" bonding_get; gated Get "/api/v1/stats" stats_get;
   gated Get "/api/v1/clients" clients_list; gated Get "/api/v1/config" config_get;
   gated Get "/api/v1/logs" logs_list;
   gated Put "/api/v1/interfaces/:name" interfaces_update; gated Put "/api/v1/bonding/strategy" bonding_set_strategy;
   gated Put "/api/v1/config" config_put; gated Delete "/api/v1/clients/:session_id" clients_kick;
   gated Get "/api/v1/ws/stats" ws_upgrade; gated Get "/api/v1/ws/logs" ws_upgrade;
   open Get "/" spa_root; open Get "/assets/:file" spa_static]%string).

(** One request on the process, to the router built for [config]. *)
Definition serve `{RingHash} (global : option AuthConfig) (config : AuthConfig) (req : Request) : Act :=
  dispatch answer (build_router global config).2 req.

End handlers.

(** ** Who can change the daemon *)

(** The act leaves the process as it is, the request counter aside. *)
Definition keeps (a : Act) : Prop := ∀ w r w', a w = Some (r, w') → wb_proc w' = wb_proc w.

Lemma keeps_reply_ok data : keeps (reply_ok data).
Proof. intros w r w' [= _ <-]. done. Qed.
Lemma keeps_reply_error r0 code msg : keeps (reply_error r0 code msg).
Proof. intros w r w' [= _ <-]. done. Qed.
Lemma keeps_answer r0 : keeps (answer r0).
Proof. intros w r w' [= _ <-]. done. Qed.

Section access.
Context (char_debug : char → str) (VERSION : str) (lookup_file : str → option (str * bytes)).
Context `{RingHash} (global : option AuthConfig) (config : AuthConfig).

(** A route is read-only, or it is a gated write. *)
Definition guarded (rt : Route Act) : Prop :=
  (∀ req params, keeps (rt_handler rt req params)) ∨
  (rt_middleware rt = [auth_middleware (OnceLock_set global config)] ∧ (rt_method rt = Put ∨ rt_method rt = Delete)).

Lemma bonding_get_keeps req params : keeps (bonding_get req params).
Proof. intros w r w'. unfold bonding_get. destruct (web_ctx w); apply keeps_reply_ok. Qed.
Lemma status_get_keeps req params : keeps (status_get req params).
Proof. intros w r w'. unfold status_get. destruct (web_ctx w); apply keeps_reply_ok. Qed.
Lemma stats_get_keeps req params : keeps (stats_get req params).
Proof. intros w r w'. unfold stats_get. destruct (wants_prometheus req); [by intros [= _ <-]|apply keeps_reply_ok]. Qed.
Lemma health_get_keeps req params : keeps (health_get VERSION req params).
Proof. intros w r w'. unfold health_get. destruct (web_ctx w); by intros [= _ <-]. Qed.
Lemma ws_upgrade_keeps req params : keeps (ws_upgrade req params).
Proof. intros w r w'. unfold ws_upgrade. destruct (try_upgrade req); [by intros [= _ <-]|apply keeps_reply_error]. Qed.

Lemma routes_guarded : Forall guarded (build_router char_debug VERSION lookup_file global config).2.
Proof.
  unfold build_router, make_auth_middleware. cbn [snd]. repeat (apply Forall_cons; split); try (apply Forall_nil; done);
    first [ right; split; [reflexivity|by (left + right)] | left; intros req params; cbn [rt_handler] ].
  - apply health_get_keeps.
  - apply keeps_answer.
  - apply status_get_keeps.
  - intros w r w'. apply keeps_reply_ok.
  - apply bonding_get_keeps.
  - apply stats_get_keeps.
  - intros w r w'. apply keeps_reply_ok.
  - intros w r w'. apply keeps_reply_ok.
  - intros w r w'. apply keeps_reply_ok.
  - apply ws_upgrade_keeps.
  - apply ws_upgrade_keeps.
  - apply keeps_answer.
  - apply keeps_answer.
Qed.

(** The configuration the gate checks against: the first a router was built with. *)
Lemma once_set_default : OnceLock_set global config = Some (default config global).
Proof. by destruct global. Qed.

Lemma chain_keeps req a : MiddlewareChain_run [auth_middleware (OnceLock_set global config)] req = Some a → keeps a.
Proof.
  rewrite once_set_default. cbn [MiddlewareChain_run]. unfold auth_middleware. destruct (auth_gate req _) as [[resp|]|]; [|done|].
  - intros [= <-]. apply keeps_answer.
  - intros [= <-]. intros w r w'. done.
Qed.

Lemma router_middleware : Forall (fun rt => rt_middleware rt = [] ∨ rt_middleware rt = [auth_middleware (OnceLock_set global config)])
  (build_router char_debug VERSION lookup_file global config).2.
Proof.
  unfold build_router, make_auth_middleware. cbn [snd].
  repeat (apply Forall_cons; split); try (apply Forall_nil; done); cbn [rt_middleware]; auto.
Qed.

(** C17: Whatever changes the daemon's state through the interface is a PUT or a DELETE
    that has passed the authentication gate, with the configuration of the first router
    the process built (the only one, when [global] was not set): every other request, and every request
    the gate refuses, leaves configuration, engine, registry, log and shutdown flag
    as they were. *)
Theorem state_change_is_authorized req w r w' :
  serve char_debug VERSION lookup_file global config req w = Some (r, w') → wb_proc w' ≠ wb_proc w →
  auth_gate req (default config global) = Some None ∧ (rq_method req = Put ∨ rq_method req = Delete).
Proof.
  intros Hs Hne. unfold serve, dispatch in Hs. rewrite dispatch_loop_spec in Hs.
  destruct (list_find _ _) as [[i rt]|] eqn:Hf; [|destruct (_ || _); by injection Hs as _ <-].
  apply list_find_Some in Hf as (Hin & [_ Hm] & _).
  apply list_elem_of_lookup_2 in Hin. pose proof routes_guarded as Hg. pose proof router_middleware as Hmw.
  rewrite Forall_forall in Hg, Hmw. specialize (Hg rt Hin). specialize (Hmw rt Hin). unfold route_response in Hs.
  destruct (MiddlewareChain_run (rt_middleware rt) req) as [a|] eqn:Ec.
  { destruct Hmw as [E|E]; rewrite E in Ec; [done|]. destruct Hne. by eapply (chain_keeps req a Ec). }
  destruct Hg as [Hk|[Hgate Hmeth]]; [destruct Hne; by eapply Hk|].
  rewrite Hgate, once_set_default in Ec. cbn [MiddlewareChain_run] in Ec. unfold auth_middleware in Ec. rewrite <- Hm.
  by destruct (auth_gate req (default config global)) as [[?|]|].
Qed.

End access.

(** ** Replacing the configuration *)

Lemma status_body_json json r : rs_status (body_json json r) = rs_status r.
Proof. unfold body_json, body_raw, set_content_type_if_missing. destruct (existsb _ _); reflexivity. Qed.

(** What [put] answers and leaves behind. *)
Definition put_outcome (text : str) (ctx : DaemonContext) : Z * Config :=
  match load_config text with
  | Ret c => if decide (pinned (ctx_config ctx) = pinned c) then (200, c) else (409, ctx_config ctx)
  | _ => (400, ctx_config ctx)
  end.

Lemma apply_config_exact c ctx w : web_ctx w = Some ctx →
  ∃ r w', apply_config c w = Some (r, w') ∧
    if decide (pinned (ctx_config ctx) = pinned c)
    then rs_status r = 200 ∧ web_ctx w' = Some (set_config c ctx)
    else rs_status r = 409 ∧ wb_proc w' = wb_proc w.
Proof.
  intros Hctx. unfold apply_config. rewrite Hctx. destruct (config_diff_safe (ctx_config ctx) c) as [Hs Hp].
  destruct (decide (pinned (ctx_config ctx) = pinned c)) as [E|E].
  - rewrite (Hp E). cbn [negb]. eexists _, _. split; [reflexivity|]. split; [apply status_body_json|done].
  - destruct (diff_is_safe (config_diff (ctx_config ctx) c)); [by destruct E; apply Hs|]. cbn [negb].
    eexists _, _. split; [reflexivity|]. split; [apply status_body_json|done].
Qed.

(** [PUT /api/v1/config] does what it documents: a text that does not parse or
    validate is answered 400, a change of mode, endpoints, keys or role sections
    409, both without effect; any other valid configuration replaces the running one
    and is answered 200. *)
Theorem config_put_exact char_debug req params text ctx w :
  from_utf8 (rq_body req) = Some text → trim text ≠ [] → web_ctx w = Some ctx →
  ∃ r w', config_put char_debug req params w = Some (r, w') ∧ rs_status r = (put_outcome text ctx).1 ∧
    web_ctx w' = Some (set_config (put_outcome text ctx).2 ctx).
Proof.
  intros Hu Ht Hctx. unfold config_put, put_outcome, load_config. rewrite Hu.
  assert (set_config (ctx_config ctx) ctx = ctx) as Hsame by (by destruct ctx).
  assert (∀ code msg why, ∃ r w', reply_error (bad_request why) code msg w = Some (r, w') ∧ rs_status r = 400 ∧
            web_ctx w' = Some (set_config (ctx_config ctx) ctx)) as Hbad.
  { intros code msg why. eexists _, _. split; [reflexivity|]. rewrite Hsame. split; [apply status_body_json|done]. }
  destruct (trim text) as [|ch t]; [done|].
  destruct (toml_parse_total_cases text) as [[tb ->]|[e ->]]; cbn [out_bind]; [|apply Hbad].
  destruct (from_value (VTable tb)) as [c|e]; [|apply Hbad].
  destruct (apply_config_exact c ctx w Hctx) as (r & w' & E & Hr). exists r, w'. split; [done|].
  destruct (decide (pinned (ctx_config ctx) = pinned c)); destruct Hr as [H1 H2]; [done|]. split; [done|].
  unfold web_ctx in *. cbn [snd]. by rewrite H2, Hctx, Hsame.
Qed.

(** *** Concurrent requests and the running daemon

    [put] clones the configuration under a read guard and replaces it under the write
    guard of the same [RwLock], which waits until there is no reader.  [run_daemon] keeps
    the read guard it takes for the client or server section until the runner returns.
    A request whose body does not validate is answered before it gets here. *)

(** A validated request: before its [read], in it, before its [write], answered. *)
Inductive PutState := PutRead (new : Config) | PutReading (new : Config) | PutWrite (new : Config) | PutDone (new : Config) (status : Z).

Definition put_check (current new : Config) : PutState :=
  if diff_is_safe (config_diff current new) then PutWrite new else PutDone new 409.

(** The configuration and the read guards of its lock; [rl_running]: one of them is the
    daemon's. *)
Record Reload := mkReload { rl_config : Config; rl_readers : nat; rl_running : bool; rl_puts : list PutState }.

Inductive reload_step : Reload → Reload → Prop :=
| reload_arrive s v new : from_value v = Ok new →
    reload_step s (mkReload (rl_config s) (rl_readers s) (rl_running s) (rl_puts s ++ [PutRead new]))
| reload_lock s i new : rl_puts s !! i = Some (PutRead new) →
    reload_step s (mkReload (rl_config s) (S (rl_readers s)) (rl_running s) (<[i := PutReading new]> (rl_puts s)))
| reload_check s i new : rl_puts s !! i = Some (PutReading new) →
    reload_step s (mkReload (rl_config s) (pred (rl_readers s)) (rl_running s) (<[i := put_check (rl_config s) new]> (rl_puts s)))
| reload_write s i new : rl_puts s !! i = Some (PutWrite new) → rl_readers s = O →
    reload_step s (mkReload new O (rl_running s) (<[i := PutDone new 200]> (rl_puts s)))
| reload_stop s : rl_running s = true →
    reload_step s (mkReload (rl_config s) (pred (rl_readers s)) false (rl_puts s)).

Definition reload_start (c : Config) : Reload :=
  let running := match g_mode (c_general c) with ModeP2p => false | _ => true end in
  mkReload c (Nat.b2n running) running [].

(** One request that nobody interrupts is [apply_config]. *)
Lemma apply_config_is_put c ctx w r w' : web_ctx w = Some ctx → apply_config c w = Some (r, w') →
  web_ctx w' = Some (set_config (match put_check (ctx_config ctx) c with PutWrite new => new | _ => ctx_config ctx end) ctx).
Proof.
  intros Hctx. assert (set_config (ctx_config ctx) ctx = ctx) as Hsame by (by destruct ctx).
  unfold apply_config, put_check. rewrite Hctx. destruct (diff_is_safe _); cbn [negb]; intros [= _ <-]; [done|].
  rewrite Hsame. exact Hctx.
Qed.

(** Where a request may be, by the running configuration's pinned fields: rejected with
    409 exactly when it changes them, answered 200 only after the daemon stopped. *)
Definition put_ok (c : Config) (running : bool) (p : PutState) : Prop :=
  match p with
  | PutRead new | PutReading new => config_ok new
  | PutWrite new => config_ok new ∧ pinned new = pinned c
  | PutDone new status =>
      config_ok new ∧ (status = 409 ∧ pinned new ≠ pinned c ∨ status = 200 ∧ pinned new = pinned c ∧ running = false)
  end.

Definition reading (p : PutState) : nat := match p with PutReading _ => 1 | _ => 0 end.

Fixpoint readings (l : list PutState) : nat := match l with [] => 0 | p :: l => (reading p + readings l)%nat end.

Lemma readings_app l k : readings (l ++ k) = (readings l + readings k)%nat.
Proof. induction l as [|p l IH]; cbn; lia. Qed.

Lemma readings_insert l : ∀ i p q, l !! i = Some p → (readings (<[i := q]> l) + reading p = readings l + reading q)%nat.
Proof.
  induction l as [|x l IH]; intros [|i] p q Hp; simpl in *; [done..|injection Hp as ->; lia|]. specialize (IH i p q Hp). lia.
Qed.

Record reload_inv (c : Config) (s : Reload) : Prop := {
  ri_ok : config_ok (rl_config s);
  ri_pinned : pinned (rl_config s) = pinned c;
  ri_readers : rl_readers s = (Nat.b2n (rl_running s) + readings (rl_puts s))%nat;
  ri_puts : Forall (put_ok c (rl_running s)) (rl_puts s);
  ri_origin : rl_config s = c ∨ rl_running s = false ∧ PutDone (rl_config s) 200 ∈ rl_puts s }.

(** What a request in state [p] becomes leaves the origin of the configuration alone. *)
Lemma origin_insert (c : Config) s i p q : rl_puts s !! i = Some p → (∀ new status, p ≠ PutDone new status) →
  rl_config s = c ∨ rl_running s = false ∧ PutDone (rl_config s) 200 ∈ rl_puts s →
  rl_config s = c ∨ rl_running s = false ∧ PutDone (rl_config s) 200 ∈ <[i := q]> (rl_puts s).
Proof.
  intros Hi Hp [?|[Hr (j & Hj)%list_elem_of_lookup]]; [by left|]. right. split; [done|].
  apply list_elem_of_lookup. exists j. rewrite list_lookup_insert_ne; [done|]. intros ->. rewrite Hi in Hj. simplify_eq. by eapply Hp.
Qed.

Lemma reload_step_inv c s s' : reload_inv c s → reload_step s s' → reload_inv c s'.
Proof.
  intros [Hok Hpin Hrd Hputs Horig] Hstep.
  destruct Hstep as [s v new Hv|s i new Hi|s i new Hi|s i new Hi Hfree|s Hrun];
    try (pose proof (Forall_lookup_1 _ _ _ _ Hputs Hi) as Hnew; cbn [put_ok] in Hnew);
    constructor; cbn [rl_config rl_readers rl_running rl_puts]; try done.
  - rewrite readings_app. cbn. lia.
  - apply Forall_app. split; [done|]. apply Forall_singleton. by eapply from_value_ok.
  - destruct Horig as [?|[? ?]]; [by left|right; split; [done|]]. apply elem_of_app. by left.
  - pose proof (readings_insert _ i _ (PutReading new) Hi). cbn [reading] in *. lia.
  - by apply Forall_insert.
  - by eapply origin_insert.
  - pose proof (readings_insert _ i _ (put_check (rl_config s) new) Hi) as Hr. revert Hr. unfold put_check.
    destruct (diff_is_safe _); cbn [reading]; lia.
  - apply Forall_insert; [done|]. unfold put_check. destruct (diff_is_safe (config_diff (rl_config s) new)) eqn:E.
    + apply config_diff_safe in E. cbn. split; [done|congruence].
    + cbn. split; [done|]. left. split; [done|]. intros Hp. assert (diff_is_safe (config_diff (rl_config s) new) = true); [|congruence].
      apply config_diff_safe. congruence.
  - by eapply origin_insert.
  - apply Hnew.
  - apply Hnew.
  - pose proof (readings_insert _ i _ (PutDone new 200) Hi). cbn [reading] in *. lia.
  - apply Forall_insert; [done|]. destruct Hnew as [? ?]. split; [done|]. right. split_and!; [done|done|].
    destruct (rl_running s); [cbn in Hrd; lia|done].
  - right. split; [destruct (rl_running s); [cbn in Hrd; lia|done]|].
    apply list_elem_of_lookup. exists i. apply list_lookup_insert_eq. by eapply lookup_lt_Some.
  - rewrite Hrun in Hrd. cbn in Hrd |- *. lia.
  - eapply Forall_impl; [exact Hputs|]. rewrite Hrun. intros [| | |new status]; cbn; try done.
    intros [? [?|(_ & _ & ?)]]; [|done]. split; [done|]. by left.
  - destruct Horig as [?|[? _]]; [by left|congruence].
Qed.

(** C18: Hot reload is safe under any interleaving of validated requests with the daemon's
    life.  The running configuration stays valid, keeps mode, endpoints and keys, and is
    the initial one or that of a request answered 200.  Every request answered so far was
    answered 409, and then it changes a pinned field, or 200, and then it changes none
    and the daemon has stopped: while a client or server runs, its read guard keeps every
    acceptable request waiting, the configuration is the initial one, and only refusals
    are answered.  A waiting request takes effect as soon as there is no reader. *)
Theorem hot_reload_interleaved c s : config_ok c → rtc reload_step (reload_start c) s →
  config_ok (rl_config s) ∧ pinned (rl_config s) = pinned c ∧
  (rl_config s = c ∨ PutDone (rl_config s) 200 ∈ rl_puts s) ∧
  (∀ new status, PutDone new status ∈ rl_puts s →
     status = 409 ∧ pinned new ≠ pinned c ∨ status = 200 ∧ pinned new = pinned c ∧ rl_running s = false) ∧
  (rl_running s = true → rl_config s = c ∧ (0 < rl_readers s)%nat) ∧
  (∀ i new, rl_puts s !! i = Some (PutWrite new) → rl_readers s = O →
     ∃ s', reload_step s s' ∧ rl_config s' = new ∧ rl_puts s' !! i = Some (PutDone new 200)).
Proof.
  intros Hc Hr. assert (reload_inv c s) as [Hok Hpin Hrd Hputs Horig].
  { remember (reload_start c) as s0 eqn:E0.
    assert (reload_inv c s0) as Hi by (subst; constructor; cbn; [done|done|lia|constructor|by left]). clear E0.
    induction Hr as [|s0 s1 s2 Hstep _ IH]; [done|]. apply IH. by eapply reload_step_inv. }
  split_and!; [done|done|destruct Horig as [?|[_ ?]]; auto| | |].
  - intros new status Hin. rewrite Forall_forall in Hputs. by destruct (Hputs _ Hin) as [_ ?].
  - intros Hrun. rewrite Hrun in Hrd. split; [|cbn in Hrd; lia]. destruct Horig as [?|[? _]]; [done|congruence].
  - intros i new Hi Hfree. eexists. split; [by eapply reload_write|]. cbn. split; [done|].
    apply list_lookup_insert_eq. by eapply lookup_lt_Some.
Qed.

(** ** Redaction *)

(** Objects are maps: their entries are in key order. *)
Fixpoint maps_ok (v : Value) : Prop :=
  match v with
  | Object obj => StronglySorted key_lt obj ∧ foldr (fun e P => maps_ok e.2 ∧ P) True obj
  | Array arr => foldr (fun v P => maps_ok v ∧ P) True arr
  | _ => True
  end.

(** No value under a secret key but the placeholder, at any depth. *)
Fixpoint no_secrets (v : Value) : Prop :=
  match v with
  | Object obj => foldr (fun e P => ((e.1 ∈ REDACTED_KEYS → e.2 = JString REDACTED) ∧ no_secrets e.2) ∧ P) True obj
  | Array arr => foldr (fun v P => no_secrets v ∧ P) True arr
  | _ => True
  end.

Definition redact_entry (e : str * Value) : str * Value :=
  (e.1, if bool_decide (e.1 ∈ REDACTED_KEYS) then JString REDACTED else redact_secrets e.2).

(** Inserting ordered entries one by one gives them back. *)
Lemma insert_sorted_all m es : StronglySorted key_lt (m ++ es) → foldl (fun m e => btree_insert e.1 e.2 m) m es = m ++ es.
Proof.
  revert m. induction es as [|[k v] es IH]; intros m Hs; cbn [foldl]; [by rewrite app_nil_r|].
  assert (Forall (fun e => key_compare e.1 k = Lt) m) as Hlt.
  { clear IH. induction m as [|e m IHm]; [constructor|]. cbn [app] in Hs. inversion_clear Hs as [|? ? Hs' Hall].
    constructor; [|by apply IHm]. rewrite Forall_app in Hall. destruct Hall as [_ Hall]. apply Forall_cons in Hall as [Hk _]. exact Hk. }
  cbn [fst snd]. rewrite btree_insert_last by done. rewrite IH; [by rewrite <- app_assoc|]. by rewrite <- app_assoc.
Qed.

Lemma redact_sorted obj : StronglySorted key_lt obj → StronglySorted key_lt (map redact_entry obj).
Proof.
  induction 1 as [|e obj Hs IH Hall]; [constructor|]. cbn [map]. constructor; [done|].
  apply Forall_map. eapply Forall_impl; [exact Hall|]. intros e' He. exact He.
Qed.

Lemma redact_object obj : StronglySorted key_lt obj → redact_secrets (Object obj) = Object (map redact_entry obj).
Proof. intros Hs. cbn [redact_secrets]. f_equal. apply (insert_sorted_all []). by apply redact_sorted. Qed.

Lemma redact_spec v : maps_ok v →
  no_secrets (redact_secrets v) ∧ redact_secrets (redact_secrets v) = redact_secrets v.
Proof.
  induction v as [| | | |vs IH|es IH] using Value_ind'; try done.
  - cbn [maps_ok redact_secrets no_secrets]. rewrite foldr_and. intros Hm. rewrite foldr_and.
    assert (Forall (fun v => no_secrets (redact_secrets v) ∧ redact_secrets (redact_secrets v) = redact_secrets v) vs) as Hall.
    { rewrite Forall_forall in *. intros v Hv. by apply IH, Hm. }
    split; [apply Forall_map; eapply Forall_impl; [exact Hall|]; by intros v [? _]|].
    f_equal. rewrite map_map. apply map_ext_in. intros v Hv%list_elem_of_In. rewrite Forall_forall in Hall. by apply Hall.
  - cbn [maps_ok]. intros [Hs Hm]. rewrite (foldr_and (fun e => maps_ok e.2)) in Hm. rewrite (redact_object es Hs).
    rewrite (redact_object _ (redact_sorted es Hs)). cbn [no_secrets].
    assert (Forall (fun e => no_secrets (redact_secrets e.2) ∧ redact_secrets (redact_secrets e.2) = redact_secrets e.2) es) as Hall.
    { rewrite Forall_forall in *. intros e He. by apply IH, Hm. }
    rewrite (foldr_and (fun e => (e.1 ∈ REDACTED_KEYS → e.2 = JString REDACTED) ∧ no_secrets e.2)). split.
    + apply Forall_map. eapply Forall_impl; [exact Hall|]. intros e [He _]. unfold redact_entry. cbn [fst snd].
      case_bool_decide; [done|]. split; [done|exact He].
    + f_equal. rewrite map_map. apply map_ext_in. intros e He%list_elem_of_In. rewrite Forall_forall in Hall.
      destruct (Hall e He) as [_ Hid]. unfold redact_entry. cbn [fst snd]. case_bool_decide; [done|]. by rewrite Hid.
Qed.

(** Redaction is complete and stable: at no depth of the result does a secret key
    keep its value, and redacting again changes nothing. *)
Theorem redact_secrets_complete v : maps_ok v →
  no_secrets (redact_secrets v) ∧ redact_secrets (redact_secrets v) = redact_secrets v.
Proof. apply redact_spec. Qed.

Lemma redact_secrets_complete_witness :
  no_secrets (redact_secrets (Object [(lit "auth", Object [(lit "psk", JString (lit "x"))]); (lit "mode", JString (lit "server"))])) ∧
  redact_secrets (redact_secrets (Object [(lit "auth", Object [(lit "psk", JString (lit "x"))]); (lit "mode", JString (lit "server"))]))
  = redact_secrets (Object [(lit "auth", Object [(lit "psk", JString (lit "x"))]); (lit "mode", JString (lit "server"))]).
Proof. apply redact_secrets_complete. repeat constructor. Defined.

(** ** Switching the strategy *)

Definition strategy_body (s : BondingStrategyName) : bytes :=
  as_bytes (encode (Object [(lit "strategy", JString (strategy_as_str s))])).

Lemma strategy_body_decodes s :
  from_utf8 (strategy_body s) ≫= decode = Some (Ok (Object [(lit "strategy", JString (strategy_as_str s))])).
Proof. destruct s; vm_compute; reflexivity. Qed.

(** The strategy a request names is the one the engine runs afterwards, on the same
    links, and the answer is 200. *)
Theorem set_strategy_takes_effect s req params ctx w :
  rq_body req = strategy_body s → web_ctx w = Some ctx →
  ∃ r w' ctx', bonding_set_strategy req params w = Some (r, w') ∧ rs_status r = 200 ∧ web_ctx w' = Some ctx' ∧
    lit (Engine_current_strategy_name (ctx_engine ctx')) = strategy_as_str s ∧
    Engine_links_snapshot (ctx_engine ctx') = Engine_links_snapshot (ctx_engine ctx).
Proof.
  intros Hb Hctx. unfold bonding_set_strategy, with_json_body. rewrite Hb. pose proof (strategy_body_decodes s) as Hd.
  destruct (from_utf8 (strategy_body s)) as [text|]; [|done]. cbn [mbind option_bind] in Hd |- *. rewrite Hd. cbn [mbind option_bind].
  replace (Value_get (lit "strategy") (Object [(lit "strategy", JString (strategy_as_str s))]) ≫= as_str)
    with (Some (strategy_as_str s)) by (by destruct s).
  rewrite bool_decide_true by (destruct s; apply (bool_decide_unpack _); vm_compute; exact I). cbn [negb].
  rewrite Hctx. replace (strategy_of_str (strategy_as_str s)) with (Some s) by (by destruct s).
  eexists _, _, _. split_and!; [reflexivity|apply status_body_json|reflexivity|by destruct s|done].
Qed.

(** ** What the read endpoints get wrong *)

(** Levels are compared as words, so a request for the entries from [info] or from
    [warn] up returns no error entry. *)
Theorem level_filter_hides_errors query l e :
  parse_level query = lit "info" ∨ parse_level query = lit "warn" → e ∈ logs_selected query l → en_level e ≠ Error.
Proof.
  intros Hq He. unfold logs_selected in He. apply (subseteq_take (Z.to_nat (parse_limit query))) in He.
  apply list_elem_of_In, filter_In in He as [_ He]. intros E. rewrite E in He. by destruct Hq as [Hq|Hq]; rewrite Hq in He.
Qed.

Lemma total_of_same (f : InterfaceStats → Z) n ifs t : 0 <= t <= umax 64 → 0 <= n → Forall (fun i => f i = n) ifs →
  foldl (fun t i => saturating_add 64 t (f i)) t ifs = Z.min (t + Z.of_nat (length ifs) * n) (umax 64).
Proof.
  intros Ht Hn Hall. revert t Ht. induction Hall as [|i ifs Hi _ IH]; intros t Ht; cbn [foldl length]; [lia|].
  unfold saturating_add at 2. rewrite Hi, IH by lia. nia.
Qed.

(** The totals of the statistics count the tunnel once per link: every interface
    reports the counters of the whole tunnel, and the totals add them up. *)
Theorem stats_totals_multiplied ctx : 0 <= bytes_sent (ctx_metrics ctx) →
  total_of is_tx_bytes (collect_stats (Some ctx)) =
  Z.min (Z.of_nat (length (Engine_links_snapshot (ctx_engine ctx))) * bytes_sent (ctx_metrics ctx)) (umax 64).
Proof.
  intros Hn. unfold total_of. rewrite (total_of_same is_tx_bytes (bytes_sent (ctx_metrics ctx))).
  - unfold collect_stats. by rewrite length_fmap.
  - unfold umax. lia.
  - done.
  - unfold collect_stats. apply Forall_fmap, Forall_true. done.
Qed.

(** ** Concrete requests *)

#[local] Instance flat_web_hash : RingHash := {| pbkdf2_derive i s p := p; pbkdf2_verify i s p h := bool_decide (p = h); sha1 b := b |}.

Definition demo_web : Web := mkWeb (mkProcess (Some demo_daemon) Logger_new false) 1 0.
(** A hash of the kind the credential check reads. *)
Definition demo_auth : AuthConfig := mkAuthConfig (lit "root") (default [] (hash_password (lit "pw") [1; 2] 1000)).
Definition demo_put : Request :=
  mkRequest Put (lit "/api/v1/bonding/strategy") [mkHeader (lit "Authorization") (basic_header (lit "root") (lit "pw"))]
    (strategy_body StrategyRedundant).

Definition demo_served : option (Response * Web) :=
  serve (fun c => [c]) (lit "1.1.0") (fun _ => None) None demo_auth demo_put demo_web.
Definition demo_after : option Web := snd <$> demo_served.

Lemma state_change_is_authorized_witness :
  auth_gate demo_put demo_auth = Some None ∧ (rq_method demo_put = Put ∨ rq_method demo_put = Delete).
Proof.
  destruct demo_served as [[r w']|] eqn:E; [|vm_compute in E; discriminate].
  apply (state_change_is_authorized (fun c => [c]) (lit "1.1.0") (fun _ => None) None demo_auth demo_put demo_web r w' E).
  intros Hw. assert (demo_after = Some w') as Ha by (unfold demo_after; by rewrite E).
  apply (f_equal (fun p => (fun c => dyn_name (e_strategy (ctx_engine c))) <$> pr_ctx p)) in Hw.
  assert (((fun w => (fun c => dyn_name (e_strategy (ctx_engine c))) <$> pr_ctx (wb_proc w)) <$> demo_after) = Some (Some "redundant"%string)) as Hb
    by (vm_compute; reflexivity).
  rewrite Ha in Hb. cbn [fmap option_fmap option_map] in Hb. injection Hb as Hb. rewrite Hw in Hb. vm_compute in Hb. discriminate.
Defined.

Lemma set_strategy_takes_effect_witness :
  ∃ r w' ctx', bonding_set_strategy demo_put [] demo_web = Some (r, w') ∧ rs_status r = 200 ∧ web_ctx w' = Some ctx' ∧
    lit (Engine_current_strategy_name (ctx_engine ctx')) = lit "redundant" ∧
    Engine_links_snapshot (ctx_engine ctx') = Engine_links_snapshot (ctx_engine demo_daemon).
Proof. apply (set_strategy_takes_effect StrategyRedundant demo_put [] demo_daemon demo_web); reflexivity. Defined.

Lemma config_put_exact_witness :
  ∃ r w', config_put (fun c => [c]) demo_put [] demo_web = Some (r, w') ∧ rs_status r = 400 ∧
    web_ctx w' = Some (set_config demo_server_config demo_daemon).
Proof.
  destruct (config_put_exact (fun c => [c]) demo_put [] (encode (Object [(lit "strategy", JString (lit "redundant"))])) demo_daemon demo_web)
    as (r & w' & H1 & H2 & H3); [vm_compute; reflexivity|vm_compute; discriminate|reflexivity|].
  exists r, w'. split_and!; [exact H1|rewrite H2; vm_compute; reflexivity|rewrite H3; vm_compute; reflexivity].
Defined.

(** The running server and two requests: one with another log level waits for the write
    guard, one with another port is refused. *)
Definition demo_reload_safe : Config :=
  mkConfig (mkGeneral ModeServer LevelDebug (g_tunnel_mtu (c_general demo_server_config)))
    (c_server demo_server_config) (c_client demo_server_config) (c_webui demo_server_config) (c_p2p demo_server_config).
Definition demo_reload_unsafe : Config :=
  mkConfig (mkGeneral ModeServer LevelInfo 1400)
    (Some (Config.mkServer (lit "0.0.0.0:4434") (lit "pk") (lit "/etc/key") 10
             (mkAuthSection MethodPsk (Some (lit "secret")) None None None)))
    None (c_webui demo_server_config) None.

Lemma hot_reload_interleaved_witness :
  ∃ s, rtc reload_step (reload_start demo_server_config) s ∧ rl_running s = true ∧
    rl_puts s = [PutWrite demo_reload_safe; PutDone demo_reload_unsafe 409] ∧
    rl_config s = demo_server_config ∧ (0 < rl_readers s)%nat.
Proof.
  set (s := mkReload demo_server_config 1 true [PutWrite demo_reload_safe; PutDone demo_reload_unsafe 409]).
  assert (Hr : rtc reload_step (reload_start demo_server_config) s).
  { eapply rtc_l; [apply (reload_arrive _ (config_value demo_reload_safe) demo_reload_safe); vm_compute; reflexivity|].
    eapply rtc_l; [apply (reload_arrive _ (config_value demo_reload_unsafe) demo_reload_unsafe); vm_compute; reflexivity|].
    eapply rtc_l; [apply (reload_lock _ 0 demo_reload_safe); reflexivity|].
    eapply rtc_l; [apply (reload_lock _ 1 demo_reload_unsafe); reflexivity|].
    eapply rtc_l; [apply (reload_check _ 0 demo_reload_safe); reflexivity|].
    eapply rtc_l; [apply (reload_check _ 1 demo_reload_unsafe); reflexivity|].
    apply rtc_refl. }
  exists s. split; [exact Hr|]. split; [reflexivity|]. split; [reflexivity|].
  destruct (hot_reload_interleaved demo_server_config s demo_server_config_ok Hr) as (_ & _ & _ & _ & H & _).
  apply H. reflexivity.
Defined.

Definition demo_logger : Logger :=
  mkLogger [] (mkLogRing 500 [mkEntry Warn (lit "t") (lit "a") []; mkEntry Error (lit "t") (lit "b") []]) Info.

Lemma level_filter_hides_errors_witness : ∀ e, e ∈ logs_selected (lit "level=warn") demo_logger → en_level e ≠ Error.
Proof. intros e. apply (level_filter_hides_errors (lit "level=warn") demo_logger e). right. reflexivity. Defined.

Example error_entry_hidden : en_msg <$> logs_selected (lit "level=warn") demo_logger = [lit "a"].
Proof. reflexivity. Qed.

(** A client with two links that has sent 100 bytes. *)
Definition demo_two_links : DaemonContext :=
  mkContext demo_server_config
    (Engine_new (DynRoundRobin RoundRobin_new)
       [Link_new 1 (lit "eth0") (mkSocketAddr (V4 [10; 0; 0; 1]) 51820) 100; Link_new 2 (lit "wlan0") (mkSocketAddr (V4 [10; 0; 0; 2]) 51820) 100])
    (mkMetrics 1 0 100 0 0 0 0) 1 0 ∅ None.

Lemma stats_totals_multiplied_witness : total_of is_tx_bytes (collect_stats (Some demo_two_links)) = 200.
Proof. rewrite (stats_totals_multiplied demo_two_links); [reflexivity|cbn; lia]. Defined.
