(* ===== verification/WsLoop.v ===== *)
(** * The WebSocket streams

    [crates/desmos-webui/src/ws_loop.rs]: the frame loops of the statistics and log
    streams, on what happens between two turns (what is published on the bus, what the
    client sends, what the clock says) and on the outcome of every write. *)

From stdpp Require Import base gmap numbers strings list.
From Stdlib Require Import ZArith Lia.
From S2P Require Import Prelude Str Crypto Session Pipeline Http WebSocket Log Daemon Json.

(** [check_client_close] on the outcome of the two-byte read. *)
Definition check_client_close (read : result nat IoError) : bool :=
  match read with
  | Ok O => true
  | Err (OsError 11) => false
  | Err TimedOut => false
  | Err _ => true
  | Ok _ => false
  end.

Definition send_text_frame (text : str) : bytes := encode_frame (mkFrame true Text (as_bytes text)).
Definition send_close_frame : bytes := encode_frame (mkFrame true Close []).

(** The text of a log entry: its fields as they are. *)
Definition log_json (e : Entry) : str :=
  jobject [jfield "level" (jstr (Level_as_str (en_level e))); jfield "target" (jstr (en_target e)); jfield "message" (jstr (en_msg e))].

Definition ws_stats_json (m : option PipelineMetrics) : str :=
  jobject [jfield "total_tx_bytes" (show_uint (default 0 (bytes_sent <$> m)));
           jfield "total_rx_bytes" (show_uint (default 0 (bytes_received <$> m))); jfield "interfaces" (lit "[]")].

(** The sends of a list of texts: the bytes on the wire, and whether all succeeded. *)
Fixpoint send_texts (write : bytes → bool) (texts : list str) : list bytes * bool :=
  match texts with
  | [] => ([], true)
  | t :: texts =>
      let f := send_text_frame t in
      if write f then let '(out, ok) := send_texts write texts in (f :: out, ok) else ([], false)
  end.

(** [ctx.*_bus.send] of each item. *)
Fixpoint publish_all {T} (items : list T) (b : Broadcast T) : panics (Broadcast T) :=
  match items with [] => Some b | x :: items => b ← send x b; publish_all items b end.

(** Before a turn of the loop: what was published, the tunnel being down in the context
    if there is one, what the read of the socket returns, whether half a second has
    passed, which writes succeed. *)
Record WsTurn (T : Type) := mkWsTurn {
  wt_published : list T; wt_ctx : option bool; wt_read : result nat IoError; wt_due : bool; wt_write : bytes → bool }.
Arguments mkWsTurn {T} _ _ _ _ _.
Arguments wt_published {T} _.
Arguments wt_ctx {T} _.
Arguments wt_read {T} _.
Arguments wt_due {T} _.
Arguments wt_write {T} _ _.

(** [is_shutdown]. *)
Definition ws_shutdown {T} (t : WsTurn T) : bool := default false (wt_ctx t).

(** [recv] on the bus of the context, where there is one. *)
Definition ws_recv {T} (t : WsTurn T) (b : Broadcast T) (cursor : Z) : panics (Z * list T) :=
  match wt_ctx t with Some _ => recv b cursor | None => Some (cursor, []) end.

(** [run_logs_loop], over the turns to come. *)
Fixpoint run_logs_loop (turns : list (WsTurn Entry)) (b : Broadcast Entry) (cursor : Z) : panics (list bytes) :=
  match turns with
  | [] => Some []
  | t :: turns =>
      b ← publish_all (wt_published t) b;
      if ws_shutdown t || check_client_close (wt_read t) then Some (if wt_write t send_close_frame then [send_close_frame] else [])
      else
        '(cursor, items) ← ws_recv t b cursor;
        let '(out, ok) := send_texts (wt_write t) (log_json <$> items) in
        if ok then rest ← run_logs_loop turns b cursor; Some (out ++ rest) else Some out
  end.

(** [run_stats_loop]: the read is made only between two sends. *)
Fixpoint run_stats_loop (turns : list (WsTurn PipelineMetrics)) (b : Broadcast PipelineMetrics) (cursor : Z) : panics (list bytes) :=
  match turns with
  | [] => Some []
  | t :: turns =>
      b ← publish_all (wt_published t) b;
      let close := if wt_write t send_close_frame then [send_close_frame] else [] in
      if ws_shutdown t then Some close
      else if negb (wt_due t) then
        if check_client_close (wt_read t) then Some close else run_stats_loop turns b cursor
      else
        '(cursor, items) ← ws_recv t b cursor;
        let '(out, ok) := send_texts (wt_write t) [ws_stats_json (last items)] in
        if ok then rest ← run_stats_loop turns b cursor; Some (out ++ rest) else Some (out ++ close)
  end.

(** [handle_upgrade]. *)
Inductive WsStream := StatsStream | LogStream.
Definition upgrade_stream (uri : str) : option WsStream :=
  if str_contains (lit "/ws/stats") uri then Some StatsStream
  else if str_contains (lit "/ws/logs") uri then Some LogStream else None.

(** ** Lemmas *)

Lemma publish_all_ring {T} (items : list T) : ∀ b hist, ring_of b hist → Z.of_nat (length hist + length items) < 2 ^ 64 →
  ∃ b', publish_all items b = Some b' ∧ ring_of b' (hist ++ items) ∧ Broadcast_capacity b' = Broadcast_capacity b.
Proof.
  induction items as [|x items IH]; intros b hist Hr Hlen; cbn [publish_all length] in *; [exists b; by rewrite app_nil_r|].
  destruct (send_ring b hist x Hr) as (b1 & -> & Hr1 & Hc1); [lia|]. cbn [mbind option_bind].
  destruct (IH b1 (hist ++ [x]) Hr1) as (b' & E & Hr' & Hc'); [rewrite length_app; cbn; lia|].
  exists b'. rewrite <-app_assoc in Hr'. split; [done|]. split; [done|congruence].
Qed.

Lemma send_texts_ok write texts : (∀ f, write f = true) → send_texts write texts = (send_text_frame <$> texts, true).
Proof. intros Hw. induction texts as [|t texts IH]; cbn [send_texts fmap list_fmap]; [done|]. by rewrite Hw, IH. Qed.

(** A turn in which the stream goes on. *)
Definition goes_on {T} (cap : nat) (t : WsTurn T) : Prop :=
  wt_ctx t = Some false ∧ check_client_close (wt_read t) = false ∧ (∀ f, wt_write t f = true) ∧ (length (wt_published t) <= cap)%nat.

Definition log_frames (entries : list Entry) : list bytes := send_text_frame <$> (log_json <$> entries).

(** One turn of the log stream. *)
Lemma logs_turn t turns b hist unread cursor cap :
  ring_of b (hist ++ unread) → cursor = Z.of_nat (length hist) → cap = Z.to_nat (Broadcast_capacity b) →
  goes_on cap t → (length unread + length (wt_published t) <= cap)%nat →
  Z.of_nat (length (hist ++ unread) + length (wt_published t)) < 2 ^ 64 →
  ∃ b', ring_of b' (hist ++ unread ++ wt_published t) ∧ Broadcast_capacity b' = Broadcast_capacity b ∧
    run_logs_loop (t :: turns) b cursor
    = rest ← run_logs_loop turns b' (Z.of_nat (length (hist ++ unread ++ wt_published t)));
      Some (log_frames (unread ++ wt_published t) ++ rest).
Proof.
  intros Hr -> -> (Hctx & Hread & Hw & _) Hcap Hlen. cbn [run_logs_loop].
  destruct (publish_all_ring (wt_published t) b _ Hr Hlen) as (b' & -> & Hr' & Hc'). cbn [mbind option_bind].
  rewrite <-app_assoc in Hr'. exists b'. split; [done|]. split; [done|].
  unfold ws_shutdown, ws_recv. rewrite Hctx, Hread. cbn [default orb].
  rewrite (recv_ring b' _ (length hist) Hr') by (rewrite length_app; lia). cbn [mbind option_bind].
  rewrite send_texts_ok by done. unfold log_frames. rewrite Nat.max_l; [by rewrite drop_app_length|].
  rewrite !length_app, Hc'. lia.
Qed.

(** ** Theorems *)

(** The log stream is complete: as long as the client reads and no more entries
    arrive between two turns than the ring holds, the frames are exactly the entries,
    those in the ring at the start and those published since, once and in order, and a
    close frame when the tunnel goes down. *)
Theorem log_stream_complete (turns : list (WsTurn Entry)) (b : Broadcast Entry) (hist : list Entry) (cap : nat)
    (down : WsTurn Entry) :
  ring_of b hist → cap = Z.to_nat (Broadcast_capacity b) → Forall (goes_on cap) turns →
  (length hist + match turns with t :: _ => length (wt_published t) | [] => 0 end <= cap)%nat →
  wt_ctx down = Some true → wt_published down = [] → (∀ f, wt_write down f = true) → turns ≠ [] →
  Z.of_nat (length hist + length (turns ≫= wt_published)) < 2 ^ 64 →
  run_logs_loop (turns ++ [down]) b 0
  = Some (log_frames (hist ++ (turns ≫= wt_published)) ++ [send_close_frame]).
Proof.
  intros Hr Hcap Hgo Hfirst Hd Hp Hw Hne Hlen.
  assert (Hmain : ∀ turns b old unread, ring_of b (old ++ unread) → cap = Z.to_nat (Broadcast_capacity b) →
    Forall (goes_on cap) turns → (length unread + match turns with t :: _ => length (wt_published t) | [] => 0 end <= cap)%nat →
    (turns = [] → unread = []) → Z.of_nat (length (old ++ unread) + length (turns ≫= wt_published)) < 2 ^ 64 →
    run_logs_loop (turns ++ [down]) b (Z.of_nat (length old))
    = Some (log_frames (unread ++ (turns ≫= wt_published)) ++ [send_close_frame])).
  { clear -Hd Hp Hw. intros turns. induction turns as [|t turns IH]; intros b old unread Hr Hcap Hgo Hfirst Hun Hlen.
    - rewrite (Hun eq_refl). cbn [app run_logs_loop]. rewrite Hp. cbn [publish_all mbind option_bind].
      unfold ws_shutdown. rewrite Hd. cbn [default orb]. by rewrite Hw.
    - apply Forall_cons in Hgo as [Ht Hgo]. rewrite bind_cons in Hlen |- *.
      destruct (logs_turn t (turns ++ [down]) b old unread (Z.of_nat (length old)) cap Hr eq_refl Hcap Ht Hfirst) as (b' & Hr' & Hc' & E);
        [rewrite !length_app in *; lia|]. cbn [app]. rewrite E.
      specialize (IH b' (old ++ unread ++ wt_published t) []). rewrite app_nil_r in IH. rewrite IH; cbn [mbind option_bind].
      + unfold log_frames. by rewrite !fmap_app, <-!app_assoc.
      + done.
      + by rewrite Hc'.
      + done.
      + destruct turns as [|t' turns]; cbn; [lia|]. apply Forall_cons in Hgo as [(_ & _ & _ & ?) _]. done.
      + done.
      + rewrite !length_app in Hlen |- *. lia. }
  apply (Hmain turns b [] hist); [done|done|done|done|by intros ->|done].
Qed.

(** The text of an entry is not escaped: a quote in the message makes a frame that is
    not JSON. *)
Example log_frame_not_json :
  ∃ e, decode (log_json (mkEntry Info (lit "net") (lit "link " ++ dq ++ lit "eth0" ++ dq ++ lit " lost") [])) = Some (Err e).
Proof. eexists. vm_compute. reflexivity. Qed.

(** A turn of the statistics stream that finds no new snapshot reports zero traffic. *)
Theorem idle_stats_report_zero (t : WsTurn PipelineMetrics) (turns : list (WsTurn PipelineMetrics)) (b : Broadcast PipelineMetrics)
    (hist : list PipelineMetrics) :
  ring_of b hist → wt_published t = [] → wt_ctx t = Some false → wt_due t = true → (∀ f, wt_write t f = true) →
  run_stats_loop (t :: turns) b (Z.of_nat (length hist))
  = rest ← run_stats_loop turns b (Z.of_nat (length hist)); Some (send_text_frame (ws_stats_json None) :: rest).
Proof.
  intros Hr Hp Hctx Hdue Hw. cbn [run_stats_loop]. rewrite Hp. cbn [publish_all mbind option_bind].
  unfold ws_shutdown, ws_recv. rewrite Hctx, Hdue. cbn [default negb]. rewrite (recv_ring b hist) by done. cbn [mbind option_bind].
  rewrite drop_ge by lia. cbn [last]. by rewrite send_texts_ok.
Qed.

(** ** Witnesses *)

Definition demo_turn (entries : list Entry) (ctx : option bool) : WsTurn Entry :=
  mkWsTurn entries ctx (Err TimedOut) true (fun _ => true).
Definition demo_entry (msg : string) : Entry := mkEntry Info (lit "net") (lit msg) [].

Example log_stream_complete_witness :
  ∃ b, Broadcast_new 4 = Some b ∧
  run_logs_loop ([demo_turn [demo_entry "up"] (Some false); demo_turn [demo_entry "lost"; demo_entry "back"] (Some false)]
    ++ [demo_turn [] (Some true)]) b 0
  = Some (log_frames [demo_entry "up"; demo_entry "lost"; demo_entry "back"] ++ [send_close_frame]).
Proof.
  destruct (Broadcast_new_ring (T := Entry) 4) as (b & Hb & Hr & _); [lia|]. exists b. split; [exact Hb|].
  assert (Hc : Broadcast_capacity b = 4) by (revert Hb; vm_compute; intros [= <-]; reflexivity).
  apply (log_stream_complete [demo_turn [demo_entry "up"] (Some false); demo_turn [demo_entry "lost"; demo_entry "back"] (Some false)]
    b [] 4 (demo_turn [] (Some true))).
  - exact Hr.
  - rewrite Hc. reflexivity.
  - repeat constructor; simpl; lia.
  - simpl. lia.
  - reflexivity.
  - reflexivity.
  - reflexivity.
  - discriminate.
  - vm_compute. reflexivity.
Defined.
