(* ===== verification/EditDistance.v ===== *)
(** * Edit distance

    The dynamic-programming [levenshtein] of [crates/desmos-cli/src/dispatch.rs],
    which suggests a subcommand for a mistyped one, with its two rows and their
    bounds checks.  It is proved to compute the edit distance: the least number of
    single-character insertions, deletions and substitutions between two strings. *)

From stdpp Require Import base numbers list relations strings.
From Stdlib Require Import ZArith Lia.
From S2P Require Import Prelude Str.

(** ** The source *)

(** A [for] loop whose body may panic. *)
Fixpoint for_panics {S} (l : list nat) (body : nat → S → panics S) (s : S) : panics S :=
  match l with
  | [] => Some s
  | i :: l => s ← body i s; for_panics l body s
  end.

(** [v[i] = x] with its bounds check. *)
Definition set_checked {A} (v : list A) (i : nat) (x : A) : panics (list A) :=
  if (i <? length v)%nat then Some (<[i := x]> v) else None.

(** The body of the inner loop, on [curr]. *)
Definition lev_cell (sc tc : str) (prev : list nat) (i j : nat) (curr : list nat) : panics (list nat) :=
  a ← sc !! (i - 1)%nat; b ← tc !! (j - 1)%nat;
  let cost := if a =? b then 0%nat else 1%nat in
  p ← prev !! j; l ← curr !! (j - 1)%nat; d ← prev !! (j - 1)%nat;
  set_checked curr j (Nat.min (Nat.min (p + 1) (l + 1)) (d + cost)).

(** The body of the outer loop: the rows are swapped at its end. *)
Definition lev_row (sc tc : str) (n i : nat) (rows : list nat * list nat) : panics (list nat * list nat) :=
  let '(prev, curr) := rows in
  curr ← set_checked curr 0 i;
  curr ← for_panics (seq 1 n) (lev_cell sc tc prev i) curr;
  Some (curr, prev).

Definition levenshtein (s t : str) : panics nat :=
  let '(m, n) := (length s, length t) in
  if (m =? 0)%nat then Some n
  else if (n =? 0)%nat then Some m
  else
    '(prev, _) ← for_panics (seq 1 m) (lev_row s t n) (seq 0 (S n), replicate (S n) 0%nat);
    prev !! n.

(** ** The specification *)

(** One edit. *)
Inductive edit1 : relation str :=
| edit_insert x c y : edit1 (x ++ y) (x ++ c :: y)
| edit_delete x c y : edit1 (x ++ c :: y) (x ++ y)
| edit_subst x c d y : edit1 (x ++ c :: y) (x ++ d :: y).

(** [d] is the edit distance from [s] to [t]. *)
Definition edit_distance (s t : str) (d : nat) : Prop :=
  nsteps edit1 d s t ∧ ∀ k, nsteps edit1 k s t → (d <= k)%nat.

(** The recursive definition, on the last characters. *)
Inductive align : str → str → nat → Prop :=
| align_nil : align [] [] 0
| align_keep a s t k : align s t k → align (a :: s) (a :: t) k
| align_sub a b s t k : align s t k → align (a :: s) (b :: t) (S k)
| align_del a s t k : align s t k → align (a :: s) t (S k)
| align_ins b s t k : align s t k → align s (b :: t) (S k).

Definition cost (a b : char) : nat := if a =? b then 0%nat else 1%nat.

Fixpoint ed (s : str) : str → nat :=
  fix ed_s (t : str) : nat :=
    match s, t with
    | [], _ => length t
    | _, [] => length s
    | a :: s', b :: t' => Nat.min (Nat.min (ed s' t + 1) (ed_s t' + 1)) (ed s' t' + cost a b)
    end.

(** ** Alignments *)

Lemma align_nil_l t : align [] t (length t).
Proof. induction t; constructor; done. Qed.

Lemma align_nil_r s : align s [] (length s).
Proof. induction s; constructor; done. Qed.

Lemma align_refl s : align s s 0.
Proof. induction s; by constructor. Qed.

Lemma align_nil_l_inv t k : align [] t k → k = length t.
Proof. revert k. induction t as [|b t IH]; intros k H; inversion H; subst; [done|]. cbn. f_equal. by apply IH. Qed.

Lemma align_nil_r_inv s k : align s [] k → k = length s.
Proof. revert k. induction s as [|b s IH]; intros k H; inversion H; subst; [done|]. cbn. f_equal. by apply IH. Qed.

Lemma align_step a b s t k : align s t k → align (a :: s) (b :: t) (k + cost a b).
Proof.
  intros H. unfold cost. destruct (Z.eqb_spec a b) as [->|]; [rewrite Nat.add_0_r; by constructor|].
  rewrite Nat.add_1_r. by constructor.
Qed.

Lemma ed_cons a s b t : ed (a :: s) (b :: t) = Nat.min (Nat.min (ed s (b :: t) + 1) (ed (a :: s) t + 1)) (ed s t + cost a b).
Proof. done. Qed.

Lemma ed_nil_l t : ed [] t = length t.
Proof. by destruct t. Qed.

Lemma ed_nil_r s : ed s [] = length s.
Proof. by destruct s. Qed.

(** [ed] is the cost of a cheapest alignment. *)
Lemma ed_align s : ∀ t, align s t (ed s t).
Proof.
  induction s as [|a s IHs]; intros t; [rewrite ed_nil_l; apply align_nil_l|].
  induction t as [|b t IHt]; [rewrite ed_nil_r; apply align_nil_r|]. rewrite ed_cons.
  destruct (Nat.min_dec (Nat.min (ed s (b :: t) + 1) (ed (a :: s) t + 1)) (ed s t + cost a b)) as [->| ->].
  - destruct (Nat.min_dec (ed s (b :: t) + 1) (ed (a :: s) t + 1)) as [->| ->]; rewrite Nat.add_1_r; by constructor.
  - by apply align_step.
Qed.

Lemma ed_least s t k : align s t k → (ed s t <= k)%nat.
Proof.
  induction 1 as [|a s t k H IH|a b s t k H IH|a s t k H IH|b s t k H IH].
  - done.
  - rewrite ed_cons. unfold cost. rewrite Z.eqb_refl. lia.
  - rewrite ed_cons. unfold cost. destruct (a =? b); lia.
  - destruct t as [|b t]; [rewrite ed_nil_r in *; cbn; lia|rewrite ed_cons; lia].
  - destruct s as [|a s]; [rewrite ed_nil_l in *; cbn; lia|rewrite ed_cons; lia].
Qed.

(** Alignments compose. *)
Lemma align_trans s t k : align s t k → ∀ u l, align t u l → ∃ m, align s u m ∧ (m <= k + l)%nat.
Proof.
  induction 1 as [|a s t k H IH|a b s t k H IH|a s t k H IH|b s t k H IH]; intros u l Hu.
  - exists l. split; [done|lia].
  - remember (a :: t) as t0 eqn:E. induction Hu as [|a' t' u l Hu _|a' b' t' u l Hu _|a' t' u l Hu _|b' t' u l Hu IHu]; simplify_eq.
    + destruct (IH _ _ Hu) as (m & Hm & Hle). exists m. split; [by constructor|lia].
    + destruct (IH _ _ Hu) as (m & Hm & Hle). exists (S m). split; [by constructor|lia].
    + destruct (IH _ _ Hu) as (m & Hm & Hle). exists (S m). split; [by constructor|lia].
    + destruct IHu as (m & Hm & Hle); [done|]. exists (S m). split; [by constructor|lia].
  - remember (b :: t) as t0 eqn:E. induction Hu as [|a' t' u l Hu _|a' b' t' u l Hu _|a' t' u l Hu _|b' t' u l Hu IHu]; simplify_eq.
    + destruct (IH _ _ Hu) as (m & Hm & Hle). exists (S m). split; [by constructor|lia].
    + destruct (IH _ _ Hu) as (m & Hm & Hle). exists (S m). split; [by constructor|lia].
    + destruct (IH _ _ Hu) as (m & Hm & Hle). exists (S m). split; [by constructor|lia].
    + destruct IHu as (m & Hm & Hle); [done|]. exists (S m). split; [by constructor|lia].
  - destruct (IH _ _ Hu) as (m & Hm & Hle). exists (S m). split; [by constructor|lia].
  - remember (b :: t) as t0 eqn:E. induction Hu as [|a' t' u l Hu _|a' b' t' u l Hu _|a' t' u l Hu _|b' t' u l Hu IHu]; simplify_eq.
    + destruct (IH _ _ Hu) as (m & Hm & Hle). exists (S m). split; [by constructor|lia].
    + destruct (IH _ _ Hu) as (m & Hm & Hle). exists (S m). split; [by constructor|lia].
    + destruct (IH _ _ Hu) as (m & Hm & Hle). exists m. split; [done|lia].
    + destruct IHu as (m & Hm & Hle); [done|]. exists (S m). split; [by constructor|lia].
Qed.

Lemma align_app s t k s' t' k' : align s t k → align s' t' k' → align (s ++ s') (t ++ t') (k + k').
Proof. intros H H'. induction H; cbn [app Nat.add]; [done|by constructor..]. Qed.

Lemma align_rev s t k : align s t k → align (rev s) (rev t) k.
Proof.
  induction 1 as [|a s t k H IH|a b s t k H IH|a s t k H IH|b s t k H IH]; cbn [rev].
  - constructor.
  - rewrite <-(Nat.add_0_r k). apply align_app; [done|apply align_refl].
  - rewrite <-Nat.add_1_r. apply align_app; [done|]. apply align_sub, align_nil.
  - rewrite <-Nat.add_1_r, <-(app_nil_r (rev t)). apply align_app; [done|]. apply align_del, align_nil.
  - rewrite <-Nat.add_1_r, <-(app_nil_r (rev s)). apply align_app; [done|]. apply align_ins, align_nil.
Qed.

Lemma edit1_align s t : edit1 s t → align s t 1.
Proof.
  intros [x c y|x c y|x c d y]; change 1%nat with (0 + 1)%nat; (apply align_app; [apply align_refl|]); constructor; apply align_refl.
Qed.

Lemma edits_align n s t : nsteps edit1 n s t → ∃ k, align s t k ∧ (k <= n)%nat.
Proof.
  induction 1 as [s|n s t u H1 H2 (k & Hk & Hle)]; [exists 0%nat; split; [apply align_refl|done]|].
  destruct (align_trans _ _ _ (edit1_align _ _ H1) _ _ Hk) as (m & Hm & ?). exists m. split; [done|lia].
Qed.

Lemma edits_cons c n s t : nsteps edit1 n s t → nsteps edit1 n (c :: s) (c :: t).
Proof.
  induction 1 as [s|n s t u H1 H2 IH]; [constructor|]. econstructor; [|exact IH].
  destruct H1 as [x d y|x d y|x d e y]; [apply (edit_insert (c :: x))|apply (edit_delete (c :: x))|apply (edit_subst (c :: x))].
Qed.

Lemma align_edits s t k : align s t k → nsteps edit1 k s t.
Proof.
  induction 1 as [|a s t k H IH|a b s t k H IH|a s t k H IH|b s t k H IH].
  - constructor.
  - by apply edits_cons.
  - eapply nsteps_l; [apply (edit_subst [] a b s)|]. by apply edits_cons.
  - eapply nsteps_l; [apply (edit_delete [] a s)|]. done.
  - eapply nsteps_l; [apply (edit_insert [] b s)|]. by apply edits_cons.
Qed.

Lemma ed_edit_distance s t : edit_distance s t (ed s t).
Proof.
  split; [by apply align_edits, ed_align|]. intros k Hk. destruct (edits_align _ _ _ Hk) as (m & Hm & ?).
  apply ed_least in Hm. lia.
Qed.

Lemma ed_rev s t : ed (rev s) (rev t) = ed s t.
Proof.
  apply Nat.le_antisymm.
  - apply ed_least, align_rev, ed_align.
  - apply ed_least. rewrite <-(rev_involutive s), <-(rev_involutive t) at 1. apply align_rev, ed_align.
Qed.

(** ** The table *)

Section Table.
  Context (s t : str).

(** The cell: the distance of two prefixes, seen from their ends. *)
Definition lev_table (i j : nat) : nat := ed (rev (take i s)) (rev (take j t)).

(** A row holds the distances up to column [k]. *)
Definition row_ok (i k : nat) (row : list nat) : Prop :=
  length row = S (length t) ∧ ∀ j, (j <= k)%nat → row !! j = Some (lev_table i j).

Lemma rev_take_S (l : str) i a : l !! i = Some a → rev (take (S i) l) = a :: rev (take i l).
Proof. intros E. by rewrite (take_S_r _ _ _ E), rev_app_distr. Qed.

Lemma lev_table_0 j : (j <= length t)%nat → lev_table 0 j = j.
Proof. intros Hj. unfold lev_table. cbn [take rev]. rewrite ed_nil_l, length_rev, length_take. lia. Qed.

Lemma lev_table_i0 i : (i <= length s)%nat → lev_table i 0 = i.
Proof. intros Hi. unfold lev_table. cbn [take rev]. rewrite ed_nil_r, length_rev, length_take. lia. Qed.

Lemma lev_table_step i j a b : s !! i = Some a → t !! j = Some b →
  lev_table (S i) (S j) = Nat.min (Nat.min (lev_table i (S j) + 1) (lev_table (S i) j + 1)) (lev_table i j + cost a b).
Proof. intros Ha Hb. unfold lev_table. rewrite (rev_take_S s i a Ha), (rev_take_S t j b Hb). apply ed_cons. Qed.

Lemma lev_cell_ok prev curr i j : (i < length s)%nat → (j < length t)%nat →
  row_ok i (length t) prev → row_ok (S i) j curr →
  ∃ curr', lev_cell s t prev (S i) (S j) curr = Some curr' ∧ row_ok (S i) (S j) curr'.
Proof.
  intros Hi Hj [Hlp Hp] [Hlc Hc]. unfold lev_cell. cbn [Nat.sub]. rewrite !Nat.sub_0_r.
  destruct (lookup_lt_is_Some_2 s i Hi) as [a Ha]. destruct (lookup_lt_is_Some_2 t j Hj) as [b Hb].
  rewrite Ha, Hb. cbn [mbind option_bind].
  rewrite (Hp (S j)), (Hc j), (Hp j) by lia. cbn [mbind option_bind]. unfold set_checked.
  rewrite (proj2 (Nat.ltb_lt _ _)) by lia. eexists. split; [done|]. split; [by rewrite length_insert|].
  intros k Hk. destruct (decide (k = S j)) as [->|].
  - rewrite list_lookup_insert_eq by lia. f_equal. symmetry. by apply lev_table_step.
  - rewrite list_lookup_insert_ne by done. apply Hc. lia.
Qed.

Lemma lev_inner_ok prev i : (i < length s)%nat → row_ok i (length t) prev → ∀ k j curr, (j + k = length t)%nat →
  row_ok (S i) j curr →
  ∃ curr', for_panics (seq (S j) k) (lev_cell s t prev (S i)) curr = Some curr' ∧ row_ok (S i) (length t) curr'.
Proof.
  intros Hi Hp k. induction k as [|k IH]; intros j curr Hj Hc; cbn [seq for_panics].
  { exists curr. split; [done|]. by replace (length t) with j by lia. }
  destruct (lev_cell_ok prev curr i j Hi ltac:(lia) Hp Hc) as (c1 & -> & Hc1). cbn [mbind option_bind]. apply IH; [lia|done].
Qed.

Lemma lev_row_ok prev curr i : (i < length s)%nat → length curr = S (length t) → row_ok i (length t) prev →
  ∃ curr', lev_row s t (length t) (S i) (prev, curr) = Some (curr', prev) ∧ row_ok (S i) (length t) curr'.
Proof.
  intros Hi Hl Hp. unfold lev_row, set_checked. rewrite (proj2 (Nat.ltb_lt _ _)) by lia. cbn [mbind option_bind].
  destruct (lev_inner_ok prev i Hi Hp (length t) 0 (<[0%nat := S i]> curr)) as (c & -> & Hc); [lia| |by eexists].
  split; [by rewrite length_insert|]. intros j Hj. replace j with 0%nat by lia.
  rewrite list_lookup_insert_eq by lia. by rewrite lev_table_i0 by lia.
Qed.

Lemma lev_outer_ok k : ∀ i prev curr, (i + k = length s)%nat → length curr = S (length t) → row_ok i (length t) prev →
  ∃ prev' curr', for_panics (seq (S i) k) (lev_row s t (length t)) (prev, curr) = Some (prev', curr') ∧
    row_ok (length s) (length t) prev'.
Proof.
  induction k as [|k IH]; intros i prev curr Hi Hl Hp; cbn [seq for_panics].
  { exists prev, curr. split; [done|]. by replace (length s) with i by lia. }
  destruct (lev_row_ok prev curr i ltac:(lia) Hl Hp) as (c & -> & Hc). cbn [mbind option_bind].
  apply IH; [lia|apply Hp|done].
Qed.

(** The code computes the recursive definition, without a panic. *)
Lemma levenshtein_ed : levenshtein s t = Some (ed s t).
Proof.
  unfold levenshtein. destruct (Nat.eqb_spec (length s) 0) as [E|_].
  { apply nil_length_inv in E. rewrite E, ed_nil_l. done. }
  destruct (Nat.eqb_spec (length t) 0) as [E|_].
  { apply nil_length_inv in E. rewrite E, ed_nil_r. done. }
  destruct (lev_outer_ok (length s) 0 (seq 0 (S (length t))) (replicate (S (length t)) 0%nat)) as (p & c & -> & Hl & Hp);
    [lia|by rewrite length_replicate| |].
  - split; [by rewrite length_seq|]. intros j Hj. rewrite lookup_seq_lt by lia. by rewrite lev_table_0.
  - cbn [mbind option_bind]. rewrite (Hp (length t)) by lia. f_equal. unfold lev_table. rewrite !take_ge by lia. apply ed_rev.
Qed.

End Table.

(** ** Properties *)

(** C38: The suggestion distance is the edit distance: the table never indexes out
    of bounds and its last cell is the least number of single-character
    insertions, deletions and substitutions that turn one string into the other. *)
Theorem levenshtein_exact (s t : str) : ∃ d, levenshtein s t = Some d ∧ edit_distance s t d.
Proof. exists (ed s t). split; [apply levenshtein_ed|apply ed_edit_distance]. Qed.

(** The bound its comment states: no more than the longer string, in characters. *)
Theorem levenshtein_bound (s t : str) : ∃ d, levenshtein s t = Some d ∧ (d <= Nat.max (length s) (length t))%nat.
Proof.
  exists (ed s t). split; [apply levenshtein_ed|]. revert t. induction s as [|a s IH]; intros t; [rewrite ed_nil_l; lia|].
  destruct t as [|b t]; [rewrite ed_nil_r; lia|]. rewrite ed_cons. specialize (IH t). cbn [length].
  unfold cost. destruct (a =? b); lia.
Qed.

Example levenshtein_ex : levenshtein (lit "kitten") (lit "sitting") = Some 3%nat.
Proof. reflexivity. Qed.
