(* ===== verification/Cli.v ===== *)
(** * The command line

    [crates/desmos-cli/src]: the argument parser ([parser.rs]), the error type and
    its exit codes ([errors.rs]), the output modes ([output.rs]), the dispatcher
    with its suggestions ([dispatch.rs]) and the subcommands ([commands/]).  A
    command is a function of its arguments, the global flags and the environment
    (the daemon's socket, the file system, the terminal) to the lines it prints
    and its result. *)

From stdpp Require Import base numbers list strings.
From Stdlib Require Import ZArith Lia SpecFloat.
From S2P Require Import Prelude Str Float Pipeline Http Json Toml Config Log Daemon Iface EditDistance.

(** ** [errors.rs] *)

Inductive CliError :=
| UnknownFlag (flag : str)
| MissingFlagValue (flag : str)
| InvalidFlagValue (flag value reason : str)
| NoSubcommand
| UnknownSubcommand (name : str) (suggestion : option str)
| SubcommandFailed (msg : str).

Abbreviation CliResult := (result Z CliError).

Definition exit_code (e : CliError) : Z :=
  match e with
  | UnknownFlag _ | MissingFlagValue _ | InvalidFlagValue _ _ _ | NoSubcommand | UnknownSubcommand _ _ => 64
  | SubcommandFailed _ => 1
  end.

Definition backtick (s : str) : str := lit "`" ++ s ++ lit "`".

Definition CliError_fmt (e : CliError) : str :=
  match e with
  | UnknownFlag flag => lit "cli: unrecognised flag " ++ backtick flag ++ lit ". See `desmos --help`."
  | MissingFlagValue flag => lit "cli: flag " ++ backtick flag ++ lit " expected a value. See `desmos --help`."
  | InvalidFlagValue flag value reason =>
      lit "cli: invalid value " ++ backtick value ++ lit " for " ++ backtick flag ++ lit ". " ++ reason
  | NoSubcommand => lit "cli: no subcommand given. See `desmos --help`."
  | UnknownSubcommand name (Some s) =>
      lit "cli: unknown subcommand " ++ backtick name ++ lit ". Did you mean " ++ backtick s ++ lit "? See `desmos --help`."
  | UnknownSubcommand name None => lit "cli: unknown subcommand " ++ backtick name ++ lit ". See `desmos --help`."
  | SubcommandFailed msg => lit "desmos: " ++ msg
  end.

(** ** [parser.rs] *)

Record GlobalFlags := mkGlobalFlags {
  config_path : option str;
  verbose : Z;
  quiet : bool;
  no_color : bool;
  json : bool;
  help : bool;
  version : bool;
}.

Record ParsedArgs := mkParsedArgs {
  globals : GlobalFlags;
  subcommand : option str;
  subargs : list str;
}.

Definition GlobalFlags_default : GlobalFlags := mkGlobalFlags None 0 false false false false false.
Definition ParsedArgs_default : ParsedArgs := mkParsedArgs GlobalFlags_default None [].

Definition with_globals (f : GlobalFlags → GlobalFlags) (a : ParsedArgs) : ParsedArgs :=
  mkParsedArgs (f (globals a)) (subcommand a) (subargs a).
Definition set_config_path (p : str) (g : GlobalFlags) : GlobalFlags :=
  mkGlobalFlags (Some p) (verbose g) (quiet g) (no_color g) (json g) (help g) (version g).
Definition add_verbose (g : GlobalFlags) : GlobalFlags :=
  mkGlobalFlags (config_path g) (saturating_add 8 (verbose g) 1) (quiet g) (no_color g) (json g) (help g) (version g).
Definition set_quiet (g : GlobalFlags) : GlobalFlags :=
  mkGlobalFlags (config_path g) (verbose g) true (no_color g) (json g) (help g) (version g).
Definition set_no_color (g : GlobalFlags) : GlobalFlags :=
  mkGlobalFlags (config_path g) (verbose g) (quiet g) true (json g) (help g) (version g).
Definition set_json (g : GlobalFlags) : GlobalFlags :=
  mkGlobalFlags (config_path g) (verbose g) (quiet g) (no_color g) true (help g) (version g).
Definition set_help (g : GlobalFlags) : GlobalFlags :=
  mkGlobalFlags (config_path g) (verbose g) (quiet g) (no_color g) (json g) true (version g).
Definition set_version (g : GlobalFlags) : GlobalFlags :=
  mkGlobalFlags (config_path g) (verbose g) (quiet g) (no_color g) (json g) (help g) true.

(** The value and what is left of the arguments. *)
Definition take_value (flag : str) (inline : option str) (iter : list str) : result (str * list str) CliError :=
  match inline with
  | Some v => Ok (v, iter)
  | None => match iter with v :: iter => Ok (v, iter) | [] => Err (MissingFlagValue flag) end
  end.

Definition reject_inline (flag : str) (inline : option str) : result () CliError :=
  match inline with
  | Some v => Err (InvalidFlagValue flag v (lit "this flag takes no value"))
  | None => Ok ()
  end.

Definition handle_long_flag (rest : str) (iter : list str) (out : ParsedArgs)
    : result (ParsedArgs * list str) CliError :=
  let '(name, inline) := match split_once (lit "=") rest with Some (n, v) => (n, Some v) | None => (rest, None) end in
  let plain flag f := let? _ := reject_inline flag inline in Ok (with_globals f out, iter) in
  if bool_decide (name = lit "config") then
    let? r := take_value (lit "--config") inline iter in
    Ok (with_globals (set_config_path r.1) out, r.2)
  else if bool_decide (name = lit "verbose") then plain (lit "--verbose") add_verbose
  else if bool_decide (name = lit "quiet") then plain (lit "--quiet") set_quiet
  else if bool_decide (name = lit "no-color") then plain (lit "--no-color") set_no_color
  else if bool_decide (name = lit "json") then plain (lit "--json") set_json
  else if bool_decide (name = lit "help") then plain (lit "--help") set_help
  else if bool_decide (name = lit "version") then plain (lit "--version") set_version
  else Err (UnknownFlag (lit "--" ++ name)).

Fixpoint handle_short_flags (chars : str) (iter : list str) (out : ParsedArgs)
    : result (ParsedArgs * list str) CliError :=
  match chars with
  | [] => Ok (out, iter)
  | c :: chars =>
      if c =? 118 then handle_short_flags chars iter (with_globals add_verbose out)
      else if c =? 113 then handle_short_flags chars iter (with_globals set_quiet out)
      else if c =? 104 then handle_short_flags chars iter (with_globals set_help out)
      else if c =? 86 then handle_short_flags chars iter (with_globals set_version out)
      else if c =? 99 then
        let rest := match chars with 61 :: r => r | r => r end in
        match rest with
        | [] =>
            match iter with
            | value :: iter => Ok (with_globals (set_config_path value) out, iter)
            | [] => Err (MissingFlagValue (lit "-c"))
            end
        | value => Ok (with_globals (set_config_path value) out, iter)
        end
      else Err (UnknownFlag (lit "-" ++ [c]))
  end.

(** The [while let Some(tok)] loop.  [None] is exhausted fuel; every round takes a
    token. *)
Fixpoint parse_loop (fuel : nat) (iter : list str) (out : ParsedArgs) : option (result ParsedArgs CliError) :=
  match fuel with
  | O => None
  | S fuel =>
      match iter with
      | [] => Some (Ok out)
      | tok :: iter =>
          match subcommand out with
          | Some _ => parse_loop fuel iter (mkParsedArgs (globals out) (subcommand out) (subargs out ++ [tok]))
          | None =>
              if bool_decide (tok = lit "--") then
                Some (Ok (mkParsedArgs (globals out) (subcommand out) (subargs out ++ iter)))
              else
                match strip_prefix (lit "--") tok with
                | Some stripped =>
                    match handle_long_flag stripped iter out with
                    | Err e => Some (Err e)
                    | Ok (out, iter) => parse_loop fuel iter out
                    end
                | None =>
                    match strip_prefix (lit "-") tok with
                    | Some [] => Some (Err (UnknownFlag tok))
                    | Some short =>
                        match handle_short_flags short iter out with
                        | Err e => Some (Err e)
                        | Ok (out, iter) => parse_loop fuel iter out
                        end
                    | None => parse_loop fuel iter (mkParsedArgs (globals out) (Some tok) (subargs out))
                    end
                end
          end
      end
  end.

Definition ParsedArgs_parse (argv : list str) : option (result ParsedArgs CliError) :=
  parse_loop (S (length argv)) (drop 1 argv) ParsedArgs_default.

(** ** [output.rs] *)

Inductive OutputMode := Colored | NoColor | JsonMode.
Inductive Stream := Stdout | Stderr.
(** A line written, without its newline; the outcome of a write is ignored. *)
Abbreviation Line := (Stream * str)%type.

(** What a command can ask the system. *)
Record Env := mkEnv {
  env_no_color : bool;
  env_terminal : bool;
  env_ipc : str → result str str;
  env_read_to_string : str → result str str;
  env_interfaces : result (list NetworkInterface) str;
  env_parse_addr : str → option str;
  env_char_debug : char → str;
  env_run_daemon : Config → result () str;
  env_run_plaintext : str → str → str → result () str;
  env_stdout : result () str;
  env_example_config : str;
  env_version : str;
}.

Definition detect_mode (g : GlobalFlags) (env : Env) : OutputMode :=
  if json g then JsonMode
  else if no_color g || env_no_color env || negb (env_terminal env) then NoColor
  else Colored.

(** A [Writer] is its mode. *)
Abbreviation Writer := OutputMode.
Definition Writer_is_json (w : Writer) : bool := match w with JsonMode => true | _ => false end.
Definition esc (code : string) : str := [27] ++ lit code.

Definition Writer_println (w : Writer) (line : str) : list Line := if Writer_is_json w then [] else [(Stdout, line)].

Definition Writer_annotated (w : Writer) (line ansi prefix : str) : list Line :=
  match w with
  | JsonMode => []
  | Colored => [(Stdout, ansi ++ prefix ++ esc "[0m" ++ lit ": " ++ line)]
  | NoColor => [(Stdout, prefix ++ lit ": " ++ line)]
  end.
Definition Writer_success (w : Writer) (line : str) : list Line := Writer_annotated w line (esc "[32m") (lit "OK").
Definition Writer_warn (w : Writer) (line : str) : list Line := Writer_annotated w line (esc "[33m") (lit "WARN").

(** [json_escape], character by character. *)
Definition escape_char (c : char) : str :=
  if c =? 34 then [92; 34] else if c =? 92 then [92; 92]
  else if c =? 10 then [92; 110] else if c =? 13 then [92; 114] else if c =? 9 then [92; 116]
  else if c <? 0x20 then hex4 c else [c].
Definition json_escape (s : str) : str := [34] ++ (s ≫= escape_char) ++ [34].

Definition cli_error_envelope (line : str) : str :=
  lit "{" ++ jstr (lit "error") ++ lit ":{" ++ jstr (lit "message") ++ lit ":" ++ json_escape line ++ lit "}}".

Definition Writer_error (w : Writer) (line : str) : list Line :=
  match w with
  | JsonMode => [(Stderr, cli_error_envelope line)]
  | Colored => [(Stderr, esc "[31mERROR" ++ esc "[0m" ++ lit ": " ++ line)]
  | NoColor => [(Stderr, lit "ERROR: " ++ line)]
  end.
Definition Writer_json (w : Writer) (payload : str) : list Line := if Writer_is_json w then [(Stdout, payload)] else [].

(** [emit_error] of the [clients] and [stats] commands. *)
Definition emit_error (w : Writer) (json_mode : bool) (message : str) : list Line :=
  if json_mode then [(Stderr, cli_error_envelope message)] else Writer_error w message.

(** ** Commands ([commands/]) *)

Definition is_json_invocation (subargs : list str) (g : GlobalFlags) : bool :=
  json g || existsb (fun a => bool_decide (a = lit "--json")) subargs.
Definition is_flag (s : str) : bool := starts_with (lit "-") s.

(** The response of the daemon, printed, or its failure. *)
Definition print_response (json_mode : bool) (w : Writer) (response : str) : list Line :=
  if json_mode then [(Stdout, response)] else Writer_println w response.

Definition ipc_run (command : str) (subargs : list str) (g : GlobalFlags) (env : Env) : list Line * CliResult :=
  let w := detect_mode g env in
  match env_ipc env (command_line command) with
  | Ok response => (print_response (is_json_invocation subargs g) w response, Ok 0)
  | Err msg => (Writer_error w msg, Ok 1)
  end.

Definition config_generate (env : Env) : list Line * CliResult := ([(Stdout, env_example_config env)], Ok 0).

(** [position(..).and_then(|i| subargs.get(i + 1))]. *)
Fixpoint config_argument (subargs : list str) : option str :=
  match subargs with
  | [] => None
  | a :: subargs =>
      if bool_decide (a = lit "--config") || bool_decide (a = lit "-c") then subargs !! 0%nat
      else config_argument subargs
  end.

(** [None] is a panic of the configuration parser. *)
Definition config_validate (subargs : list str) (g : GlobalFlags) (env : Env) : panics (list Line * CliResult) :=
  let w := detect_mode g env in
  match config_argument subargs with
  | None => Some (Writer_error w (lit "desmos config validate: missing --config <path>"), Ok 64)
  | Some path =>
      match env_read_to_string env path with
      | Err e => Some (Writer_error w (lit "desmos config validate: cannot read " ++ path ++ lit ": " ++ e), Ok 1)
      | Ok content =>
          match Toml.parse content with
          | Panic => None
          | Fail e =>
              Some (Writer_error w (lit "desmos config validate: parse error: " ++ ParseError_fmt (env_char_debug env) e), Ok 1)
          | Ret value =>
              match from_value value with
              | Ok _ => Some (Writer_println w (lit "configuration is valid"), Ok 0)
              | Err e => Some (Writer_error w (lit "desmos config validate: " ++ ParseError_fmt (env_char_debug env) e), Ok 1)
              end
          end
      end
  end.

Definition run_config (subargs : list str) (g : GlobalFlags) (env : Env) : panics (list Line * CliResult) :=
  let sub := List.find (fun a => negb (is_flag a)) subargs in
  if bool_decide (sub = Some (lit "generate")) then Some (config_generate env)
  else if bool_decide (sub = Some (lit "validate")) then config_validate subargs g env
  else Some (ipc_run (lit "config") subargs g env).

Definition run_version (env : Env) : list Line * CliResult := ([(Stdout, lit "desmos " ++ env_version env)], Ok 0).

Definition run_stats (subargs : list str) (g : GlobalFlags) (env : Env) : list Line * CliResult :=
  let json_mode := is_json_invocation subargs g in
  let w := detect_mode g env in
  match env_ipc env (command_line (lit "stats")) with
  | Ok response => (print_response json_mode w response, Ok 0)
  | Err msg => (emit_error w json_mode msg, Ok 1)
  end.

(** *** [clients.rs] *)

Definition clients_run_list (g : GlobalFlags) (json_mode : bool) (env : Env) : list Line * CliResult :=
  let w := detect_mode g env in
  match env_ipc env (command_line (lit "clients_list")) with
  | Ok response => (print_response json_mode w response, Ok 0)
  | Err msg => (emit_error w json_mode msg, Ok 1)
  end.

Definition run_kick (rest : list str) (g : GlobalFlags) (json_mode : bool) (env : Env) : list Line * CliResult :=
  let w := detect_mode g env in
  match List.find (fun a => negb (is_flag a)) rest with
  | None => (emit_error w json_mode (lit "desmos clients kick: missing <id>"), Ok 64)
  | Some id_str =>
      match kick_request id_str with
      | Err code =>
          (emit_error w json_mode (lit "desmos clients kick: invalid id " ++ backtick id_str ++ lit " (expect 1..=65535)"), Ok code)
      | Ok req =>
          match env_ipc env req with
          | Ok response => (print_response json_mode w response, Ok 0)
          | Err msg => (emit_error w json_mode msg, Ok 1)
          end
      end
  end.

Fixpoint split_subcommand (subargs : list str) : option str * list str :=
  match subargs with
  | [] => (None, [])
  | a :: rest => if is_flag a then split_subcommand rest else (Some a, rest)
  end.

Definition run_clients (subargs : list str) (g : GlobalFlags) (env : Env) : list Line * CliResult :=
  let json_mode := is_json_invocation subargs g in
  let '(sub, rest) := split_subcommand subargs in
  match sub with
  | None => clients_run_list g json_mode env
  | Some s =>
      if bool_decide (s = lit "kick") then run_kick rest g json_mode env
      else if bool_decide (s = lit "list") then clients_run_list g json_mode env
      else (emit_error (detect_mode g env) json_mode (lit "unknown `desmos clients` subcommand: " ++ backtick s), Ok 64)
  end.

(** *** [up.rs] *)

Record UpArgs := mkUpArgs {
  up_mode : option str;
  up_config_path : option str;
  up_tun_name : option str;
  up_listen : option str;
  up_peer : option str;
}.

Definition set_up_mode (v : str) (a : UpArgs) : UpArgs := mkUpArgs (Some v) (up_config_path a) (up_tun_name a) (up_listen a) (up_peer a).
Definition set_up_config (v : str) (a : UpArgs) : UpArgs := mkUpArgs (up_mode a) (Some v) (up_tun_name a) (up_listen a) (up_peer a).
Definition set_up_tun (v : str) (a : UpArgs) : UpArgs := mkUpArgs (up_mode a) (up_config_path a) (Some v) (up_listen a) (up_peer a).
Definition set_up_listen (v : str) (a : UpArgs) : UpArgs := mkUpArgs (up_mode a) (up_config_path a) (up_tun_name a) (Some v) (up_peer a).
Definition set_up_peer (v : str) (a : UpArgs) : UpArgs := mkUpArgs (up_mode a) (up_config_path a) (up_tun_name a) (up_listen a) (Some v).

(** What a token does: an inline value, a flag that takes the next token, or
    nothing. *)
Inductive up_token := UpInline (f : UpArgs → UpArgs) | UpTakes (flag : str) (f : str → UpArgs → UpArgs) | UpIgnored | UpUnknown.

Definition classify_up (tok : str) : up_token :=
  match strip_prefix (lit "--mode=") tok with Some v => UpInline (set_up_mode v) | None =>
  match strip_prefix (lit "--tun=") tok with Some v => UpInline (set_up_tun v) | None =>
  match strip_prefix (lit "--listen=") tok with Some v => UpInline (set_up_listen v) | None =>
  match strip_prefix (lit "--peer=") tok with Some v => UpInline (set_up_peer v) | None =>
  match strip_prefix (lit "--config=") tok with Some v => UpInline (set_up_config v) | None =>
  if bool_decide (tok = lit "--mode") then UpTakes (lit "--mode") set_up_mode
  else if bool_decide (tok = lit "--config") || bool_decide (tok = lit "-c") then UpTakes (lit "--config") set_up_config
  else if bool_decide (tok = lit "--tun") then UpTakes (lit "--tun") set_up_tun
  else if bool_decide (tok = lit "--listen") then UpTakes (lit "--listen") set_up_listen
  else if bool_decide (tok = lit "--peer") then UpTakes (lit "--peer") set_up_peer
  else if bool_decide (tok = lit "--json") || bool_decide (tok = lit "--no-color") then UpIgnored
  else if starts_with (lit "--") tok then UpUnknown
  else UpIgnored
  end end end end end.

Fixpoint up_args_loop (iter : list str) (out : UpArgs) : result UpArgs CliError :=
  match iter with
  | [] => Ok out
  | tok :: iter =>
      match classify_up tok with
      | UpInline f => up_args_loop iter (f out)
      | UpTakes flag f =>
          match iter with
          | value :: iter => up_args_loop iter (f value out)
          | [] => Err (MissingFlagValue flag)
          end
      | UpIgnored => up_args_loop iter out
      | UpUnknown => Err (UnknownFlag tok)
      end
  end.

Definition parse_up_args (subargs : list str) : result UpArgs CliError :=
  up_args_loop subargs (mkUpArgs None None None None None).

Definition run_encrypted (args : UpArgs) (g : GlobalFlags) (env : Env) : panics (list Line * CliResult) :=
  let path := match up_config_path args with
              | Some p => p
              | None => default (lit "/etc/desmos/desmos.toml") (config_path g)
              end in
  match env_read_to_string env path with
  | Err e => Some ([], Err (SubcommandFailed (lit "cannot read config " ++ path ++ lit ": " ++ e)))
  | Ok toml_str =>
      match Toml.parse toml_str with
      | Panic => None
      | Fail e => Some ([], Err (SubcommandFailed (lit "config parse error: " ++ ParseError_fmt (env_char_debug env) e)))
      | Ret value =>
          match from_value value with
          | Err e => Some ([], Err (SubcommandFailed (lit "config validation error: " ++ ParseError_fmt (env_char_debug env) e)))
          | Ok config =>
              let out := Writer_success (detect_mode g env)
                           (lit "desmos up: config=" ++ path ++ lit " mode=" ++ mode_as_str (g_mode (c_general config))) in
              match env_run_daemon env config with
              | Err e => Some (out, Err (SubcommandFailed (lit "daemon: " ++ e)))
              | Ok _ => Some (out, Ok 0)
              end
          end
      end
  end.

(** Linux; [env_parse_addr] is [SocketAddr]'s [FromStr], with the address shown. *)
Definition run_plaintext (args : UpArgs) (g : GlobalFlags) (env : Env) : list Line * CliResult :=
  let tun_name := default (lit "desmos0") (up_tun_name args) in
  let listen := default (lit "0.0.0.0:4900") (up_listen args) in
  match up_peer args with
  | None => ([], Err (MissingFlagValue (lit "--peer")))
  | Some peer =>
      match env_parse_addr env listen with
      | None => ([], Err (InvalidFlagValue (lit "--listen") listen (lit "expected HOST:PORT")))
      | Some listen =>
          match env_parse_addr env peer with
          | None => ([], Err (InvalidFlagValue (lit "--peer") peer (lit "expected HOST:PORT")))
          | Some peer_addr =>
              let out := Writer_success (detect_mode g env)
                           (lit "desmos up: tun=" ++ tun_name ++ lit " listen=" ++ listen ++ lit " peer=" ++ peer_addr
                            ++ lit " mode=plaintext") in
              match env_run_plaintext env tun_name listen peer_addr with
              | Err e => (out, Err (SubcommandFailed (lit "up: " ++ e)))
              | Ok _ => (out, Ok 0)
              end
          end
      end
  end.

Definition run_up (subargs : list str) (g : GlobalFlags) (env : Env) : panics (list Line * CliResult) :=
  match parse_up_args subargs with
  | Err e => Some ([], Err e)
  | Ok args =>
      match up_mode args with
      | Some m =>
          if bool_decide (m = lit "plaintext") then Some (run_plaintext args g env)
          else Some ([], Err (InvalidFlagValue (lit "--mode") m (lit "supported modes: plaintext")))
      | None => run_encrypted args g env
      end
  end.

(** *** [interfaces.rs] *)

(** [Display] of [Ipv4Addr]. *)
Definition show_ipv4 (octets : bytes) : str := separated (lit ".") (show_uint <$> octets).

(** [{:x}]. *)
Fixpoint hex_fuel (fuel : nat) (n : Z) (acc : str) : str :=
  match fuel with
  | O => acc
  | S fuel => if n <? 16 then hex_char n :: acc else hex_fuel fuel (n / 16) (hex_char (n mod 16) :: acc)
  end.
Definition show_hex_uint (n : Z) : str := hex_fuel (S (Z.to_nat (Z.log2 n))) n [].

Fixpoint segments (octets : bytes) : list Z :=
  match octets with a :: b :: rest => from_be_bytes [a; b] :: segments rest | _ => [] end.

(** The longest run of zero segments, the first of them: start and length. *)
Fixpoint zero_span (i : nat) (segs : list Z) (current longest : nat * nat) : nat * nat :=
  match segs with
  | [] => longest
  | s :: segs =>
      if s =? 0 then
        let start := if (current.2 =? 0)%nat then i else current.1 in
        let current := (start, S current.2) in
        zero_span (S i) segs current (if (longest.2 <? current.2)%nat then current else longest)
      else zero_span (S i) segs (0, 0)%nat longest
  end.

(** [Display] of [Ipv6Addr]. *)
Definition show_ipv6 (octets : bytes) : str :=
  let segs := segments octets in
  let show l := separated (lit ":") (show_hex_uint <$> l) in
  if bool_decide (take 12 octets = replicate 10 0 ++ [255; 255]) then lit "::ffff:" ++ show_ipv4 (drop 12 octets)
  else
    let '(start, len) := zero_span 0 segs (0, 0)%nat (0, 0)%nat in
    if (1 <? len)%nat then show (take start segs) ++ lit "::" ++ show (drop (start + len) segs) else show segs.

(** [{:width$}]: padded to [width] characters. *)
Definition pad_to (width : nat) (s : str) : str := s ++ replicate (width - length s) 32.
Definition gap : str := lit "  ".

Definition format_flag_label (i : NetworkInterface) : str :=
  let f := ni_flags i in
  let part (b : bool) (s : string) := if b then [lit s] else [] in
  match part (if_up f) "UP" ++ part (if_running f) "RUNNING" ++ part (if_loopback f) "LOOPBACK"
        ++ part (if_point_to_point f) "P2P" ++ part (if_broadcast f) "BROADCAST" ++ part (if_multicast f) "MULTICAST" with
  | [] => lit "-"
  | parts => separated (lit ",") parts
  end.

Definition max_len (least : nat) (l : list str) : nat := foldr Nat.max least (str_len <$> l).

Definition render_table (w : Writer) (ifaces : list NetworkInterface) : list Line :=
  match ifaces with
  | [] => Writer_warn w (lit "no interfaces reported by the kernel")
  | _ =>
      let name_w := max_len 4 (ni_name <$> ifaces) in
      let state_w := max_len 5 (ni_operstate <$> ifaces) in
      let row a b c d := pad_to name_w a ++ gap ++ pad_to state_w b ++ gap ++ pad_to 17 c ++ gap ++ d in
      Writer_println w (row (lit "NAME") (lit "STATE") (lit "MAC") (pad_to 15 (lit "IPV4")) ++ gap ++ lit "FLAGS")
      ++ (ifaces ≫= (fun i =>
            let first_ipv4 := match ni_ipv4 i with a :: _ => show_ipv4 a | [] => lit "-" end in
            Writer_println w (row (ni_name i) (ni_operstate i) (mac_string i) (pad_to 15 first_ipv4)
                              ++ gap ++ format_flag_label i)
            ++ (drop 1 (ni_ipv4 i) ≫= (fun a => Writer_println w (row [] [] [] (pad_to 15 (show_ipv4 a)))))
            ++ (ni_ipv6 i ≫= (fun a => Writer_println w (row [] [] [] (show_ipv6 a))))))
  end.

(** [json_string], which escapes as [json_escape] does. *)
Definition json_string (s : str) : str := [34] ++ (s ≫= escape_char) ++ [34].

(** The array it prints, and the outcome of printing it. *)
Definition interfaces_json (ifaces : list NetworkInterface) : str :=
  let item (i : NetworkInterface) :=
    lit "{" ++ jfield "name" (json_string (ni_name i)) ++ lit "," ++ jfield "mac" (json_string (mac_string i))
    ++ lit "," ++ jfield "operstate" (json_string (ni_operstate i))
    ++ lit "," ++ jstr (lit "ipv4") ++ lit ":[" ++ separated (lit ",") ((fun a => json_string (show_ipv4 a)) <$> ni_ipv4 i)
    ++ lit "]," ++ jstr (lit "ipv6") ++ lit ":[" ++ separated (lit ",") ((fun a => json_string (show_ipv6 a)) <$> ni_ipv6 i)
    ++ lit "]," ++ jstr (lit "flags") ++ lit ":{" ++ jfield "up" (jbool (if_up (ni_flags i)))
    ++ lit "," ++ jfield "running" (jbool (if_running (ni_flags i)))
    ++ lit "," ++ jfield "loopback" (jbool (if_loopback (ni_flags i))) ++ lit "}}" in
  lit "[" ++ separated (lit ",") (item <$> ifaces) ++ lit "]".

Definition render_json (ifaces : list NetworkInterface) (env : Env) : list Line * CliResult :=
  match env_stdout env with
  | Err e => ([], Err (SubcommandFailed (lit "write stdout: " ++ e)))
  | Ok _ => ([(Stdout, interfaces_json ifaces)], Ok 0)
  end.

Definition run_interfaces (subargs : list str) (g : GlobalFlags) (env : Env) : list Line * CliResult :=
  let w := detect_mode g env in
  let listing :=
    match env_interfaces env with
    | Err e => ([], Err (SubcommandFailed (lit "interface discovery failed: " ++ e)))
    | Ok ifaces =>
        if is_json_invocation subargs g then
          match render_json ifaces env with
          | (out, Err e) => (out, Err e)
          | (out, Ok _) => (out, Ok 0)
          end
        else (render_table w ifaces, Ok 0)
    end in
  match subargs with
  | first :: _ =>
      if negb (bool_decide (first = lit "list")) && negb (starts_with (lit "--") first) then
        (Writer_error w (lit "desmos interfaces: subcommand " ++ backtick first
                         ++ lit " not recognized. Only `list` is available."), Ok 64)
      else listing
  | [] => listing
  end.

(** *** Formatters of [clients.rs] and [stats.rs] *)

Record ClientRow := mkClientRow {
  row_id : Z;
  row_cn : str;
  row_src : str;
  row_uptime_s : Z;
  row_bytes_in : Z;
  row_bytes_out : Z;
}.

(** [{:02}]. *)
Definition show_02 (n : Z) : str := if n <? 10 then 48 :: show_uint n else show_uint n.

Definition format_uptime (seconds : Z) : str :=
  let h := seconds / 3600 in
  let m := (seconds mod 3600) / 60 in
  let s := seconds mod 60 in
  if 0 <? h then show_uint h ++ lit "h" ++ show_02 m ++ lit "m" ++ show_02 s ++ lit "s"
  else if 0 <? m then show_uint m ++ lit "m" ++ show_02 s ++ lit "s"
  else show_uint s ++ lit "s".

(** [{:.2}] of a finite positive float: its exact value rounded to hundredths,
    ties to even. *)
Definition round_half_even (num den : Z) : Z :=
  let q := num / den in
  let r := num mod den in
  if (2 * r <? den) || ((2 * r =? den) && Z.even q) then q else q + 1.
Definition fixed2 (x : f64) : str :=
  match x with
  | S754_finite false m e =>
      let c := if 0 <=? e then Z.pos m * 2 ^ e * 100 else round_half_even (Z.pos m * 100) (2 ^ (- e)) in
      show_uint (c / 100) ++ lit "." ++ show_02 (c mod 100)
  | _ => lit "0.00"
  end.

Definition KIB : Z := 1024.
Definition MIB : Z := 1024 * 1024.
Definition GIB : Z := 1024 * 1024 * 1024.
Definition format_bytes (n : Z) : str :=
  if GIB <=? n then fixed2 (f64_div (f64_of_Z n) (f64_of_Z GIB)) ++ lit "GiB"
  else if MIB <=? n then fixed2 (f64_div (f64_of_Z n) (f64_of_Z MIB)) ++ lit "MiB"
  else if KIB <=? n then fixed2 (f64_div (f64_of_Z n) (f64_of_Z KIB)) ++ lit "KiB"
  else show_uint n ++ lit "B".

(** [push_padded]: by bytes, so that a wide character shortens the padding. *)
Definition push_padded (s : str) (width : nat) : str := s ++ replicate (width - str_len s) 32.

Definition list_headers : list str := [lit "ID"; lit "CN"; lit "SRC"; lit "UPTIME"; lit "RX"; lit "TX"].
Definition row_cells (r : ClientRow) : list str :=
  [show_uint (row_id r); row_cn r; row_src r; format_uptime (row_uptime_s r); format_bytes (row_bytes_in r);
   format_bytes (row_bytes_out r)].
Definition widen (widths : list nat) (cells : list str) : list nat :=
  zip_with (fun w c => if (w <? str_len c)%nat then str_len c else w) widths cells.
Definition table_row (cells : list str) (widths : list nat) : str :=
  separated gap (zip_with push_padded cells widths) ++ [10].

Definition format_list_table (rows : list ClientRow) : str :=
  match rows with
  | [] => lit "no clients connected" ++ [10]
  | _ =>
      let formatted := row_cells <$> rows in
      let widths := foldl widen (str_len <$> list_headers) formatted in
      table_row list_headers widths
      ++ separated gap ((fun w => replicate w 45) <$> widths) ++ [10]
      ++ (formatted ≫= (fun cells => table_row cells widths))
  end.

Definition format_list_json (rows : list ClientRow) : str :=
  lit "{" ++ jstr (lit "clients") ++ lit ":["
  ++ separated (lit ",") ((fun r =>
       jobject [jfield "id" (show_uint (row_id r)); jfield "cn" (json_escape (row_cn r));
                jfield "src" (json_escape (row_src r)); jfield "uptime_s" (show_uint (row_uptime_s r));
                jfield "bytes_in" (show_uint (row_bytes_in r)); jfield "bytes_out" (show_uint (row_bytes_out r))]) <$> rows)
  ++ lit "]}".

Definition format_kick_text (id : Z) (ok : bool) : str :=
  if ok then lit "kicked client " ++ show_uint id else lit "no such client " ++ show_uint id.
Definition format_kick_json (id : Z) (ok : bool) : str :=
  jobject [jfield "kicked" (jobject [jfield "id" (show_uint id); jfield "ok" (jbool ok)])].

Record CliStats := mkCliStats {
  st_uptime_s : Z;
  st_clients_connected : Z;
  st_total_bytes_in : Z;
  st_total_bytes_out : Z;
  st_handshakes_accepted : Z;
  st_handshakes_rejected : Z;
  st_bonding_strategy : str;
}.

Definition format_stats_text (s : CliStats) : str :=
  lit "uptime            " ++ format_uptime (st_uptime_s s) ++ [10]
  ++ lit "clients connected " ++ show_uint (st_clients_connected s) ++ [10]
  ++ lit "bytes in          " ++ format_bytes (st_total_bytes_in s) ++ [10]
  ++ lit "bytes out         " ++ format_bytes (st_total_bytes_out s) ++ [10]
  ++ lit "handshakes        " ++ show_uint (st_handshakes_accepted s) ++ lit " accepted / "
  ++ show_uint (st_handshakes_rejected s) ++ lit " rejected" ++ [10]
  ++ lit "bonding strategy  " ++ st_bonding_strategy s ++ [10].

Definition format_stats_json (s : CliStats) : str :=
  jobject [jfield "uptime_s" (show_uint (st_uptime_s s)); jfield "clients_connected" (show_uint (st_clients_connected s));
           jfield "total_bytes_in" (show_uint (st_total_bytes_in s)); jfield "total_bytes_out" (show_uint (st_total_bytes_out s));
           jfield "handshakes_accepted" (show_uint (st_handshakes_accepted s));
           jfield "handshakes_rejected" (show_uint (st_handshakes_rejected s));
           jfield "bonding_strategy" (json_escape (st_bonding_strategy s))].

(** ** [dispatch.rs] *)

Record Command := mkCommand {
  cmd_name : str;
  cmd_synopsis : str;
  cmd_run : list str → GlobalFlags → Env → panics (list Line * CliResult);
}.

Definition ipc_command (name synopsis : string) : Command :=
  mkCommand (lit name) (lit synopsis) (fun a g env => Some (ipc_run (lit name) a g env)).

Definition all_commands : list Command :=
  [mkCommand (lit "up") (lit "Bring the tunnel up") run_up;
   ipc_command "down" "Tear the tunnel down";
   ipc_command "status" "Show tunnel and link status";
   ipc_command "reload" "Hot-reload the running configuration";
   mkCommand (lit "config") (lit "Validate, show, or edit configuration") run_config;
   mkCommand (lit "interfaces") (lit "List, enable, disable, or reweight bonded interfaces")
     (fun a g env => Some (run_interfaces a g env));
   ipc_command "bonding" "Show or hot-switch the bonding strategy";
   mkCommand (lit "clients") (lit "List or kick connected clients (server mode)") (fun a g env => Some (run_clients a g env));
   mkCommand (lit "stats") (lit "Print aggregate server statistics") (fun a g env => Some (run_stats a g env));
   ipc_command "logs" "Tail recent log entries";
   ipc_command "webui" "Manage the embedded Web UI (password, bind address)";
   mkCommand (lit "version") (lit "Print version and exit") (fun _ _ env => Some (run_version env))].

Definition Dispatcher_find (cmds : list Command) (name : str) : option Command :=
  List.find (fun c => bool_decide (cmd_name c = name)) cmds.

Fixpoint closest_loop (input : str) (cmds : list Command) (best : option (nat * str)) : panics (option (nat * str)) :=
  match cmds with
  | [] => Some best
  | cmd :: cmds =>
      d ← levenshtein input (cmd_name cmd);
      let better := match best with Some (best_d, _) => (d <? best_d)%nat | None => true end in
      closest_loop input cmds (if (d <=? 3)%nat && better then Some (d, cmd_name cmd) else best)
  end.

Definition closest_match (cmds : list Command) (input : str) : panics (option str) :=
  match closest_loop input cmds None with
  | None => None
  | Some best => Some (match best with Some (_, name) => Some name | None => None end)
  end.

Definition print_error (e : CliError) : list Line := [(Stderr, CliError_fmt e)].

Definition print_help (cmds : list Command) (env : Env) : list Line :=
  let width := foldr Nat.max 0%nat ((fun c => str_len (cmd_name c)) <$> cmds) in
  ((fun l => (Stdout, l)) <$>
   ([lit "desmos " ++ env_version env ++ [32; 0x2014] ++ lit " Bond every link."; []; lit "Usage:";
     lit "  desmos [GLOBAL FLAGS] <subcommand> [ARGS]"; []; lit "Global flags:";
     lit "  -c, --config <PATH>    Path to desmos.toml";
     lit "  -v, --verbose          Increase log verbosity (repeatable)";
     lit "  -q, --quiet            Suppress non-error output";
     lit "      --no-color         Disable ANSI colour output";
     lit "      --json             Emit machine-readable JSON instead of text";
     lit "  -h, --help             Show this help text";
     lit "  -V, --version          Print version and exit"; []; lit "Subcommands:"]
    ++ ((fun c => gap ++ pad_to width (cmd_name c) ++ gap ++ cmd_synopsis c) <$> cmds))).

(** The lines written and the exit code; [None] is a panic. *)
Definition Dispatcher_dispatch (cmds : list Command) (argv : list str) (env : Env) : panics (list Line * Z) :=
  parsed ← ParsedArgs_parse argv;
  match parsed with
  | Err e => Some (print_error e, exit_code e)
  | Ok parsed =>
      let g := globals parsed in
      if version g then Some ([(Stdout, lit "desmos " ++ env_version env)], 0)
      else
        match subcommand parsed with
        | None => Some (print_help cmds env, 0)
        | Some name =>
            match Dispatcher_find cmds name with
            | None =>
                suggestion ← closest_match cmds name;
                let err := UnknownSubcommand name suggestion in
                Some (print_error err, exit_code err)
            | Some cmd =>
                if help g then Some ([(Stdout, lit "desmos " ++ cmd_name cmd ++ lit ": " ++ cmd_synopsis cmd)], 0)
                else
                  '(out, r) ← cmd_run cmd (subargs parsed) g env;
                  match r with
                  | Ok code => Some (out, code)
                  | Err e => Some (out ++ print_error e, exit_code e)
                  end
            end
        end
  end.

(** ** Lemmas *)

Lemma handle_long_shrinks rest iter out out' iter' :
  handle_long_flag rest iter out = Ok (out', iter') → (length iter' <= length iter)%nat ∧ subcommand out' = subcommand out.
Proof.
  unfold handle_long_flag. destruct (match split_once _ _ with Some _ => _ | None => _ end) as [name inline].
  repeat case_bool_decide; try done.
  1:{ destruct inline as [v|]; cbn [take_value result_bind]; [intros [= <- <-]; done|].
      destruct iter; cbn [result_bind]; [done|]. intros [= <- <-]. cbn [length]. split; [lia|done]. }
  all: destruct inline; cbn [reject_inline result_bind]; [done|]; intros [= <- <-]; done.
Qed.

Lemma handle_short_shrinks chars iter : ∀ out out' iter',
  handle_short_flags chars iter out = Ok (out', iter') → (length iter' <= length iter)%nat ∧ subcommand out' = subcommand out.
Proof.
  induction chars as [|c chars IH]; intros out out' iter'; cbn [handle_short_flags]; [intros [= <- <-]; done|].
  destruct (c =? 118); [intros H; by apply IH in H|]. destruct (c =? 113); [intros H; by apply IH in H|].
  destruct (c =? 104); [intros H; by apply IH in H|]. destruct (c =? 86); [intros H; by apply IH in H|].
  destruct (c =? 99); [|done]. destruct (match chars with 61 :: r => r | r => r end); [|intros [= <- <-]; done].
  destruct iter; [done|]. intros [= <- <-]. cbn [length]. split; [lia|done].
Qed.

(** The parser's loop ends. *)
Lemma parse_loop_total fuel : ∀ iter out, (length iter < fuel)%nat → is_Some (parse_loop fuel iter out).
Proof.
  induction fuel as [|fuel IH]; intros iter out Hf; [lia|]. cbn [parse_loop]. destruct iter as [|tok iter]; [done|].
  cbn [length] in Hf. destruct (subcommand out); [apply IH; lia|]. case_bool_decide; [done|].
  destruct (strip_prefix (lit "--") tok) as [stripped|].
  - destruct (handle_long_flag stripped iter out) as [[out' iter']|] eqn:E; [|done].
    apply handle_long_shrinks in E as [? _]. apply IH. lia.
  - destruct (strip_prefix (lit "-") tok) as [[|c short]|]; [done| |apply IH; lia].
    destruct (handle_short_flags (c :: short) iter out) as [[out' iter']|] eqn:E; [|done].
    apply handle_short_shrinks in E as [? _]. apply IH. lia.
Qed.

Lemma parse_loop_mono fuel : ∀ fuel' iter out r, parse_loop fuel iter out = Some r → (fuel <= fuel')%nat →
  parse_loop fuel' iter out = Some r.
Proof.
  induction fuel as [|fuel IH]; intros [|fuel'] iter out r Hr Hf; try done; [lia|]. revert Hr. cbn [parse_loop].
  destruct iter as [|tok iter]; [done|]. destruct (subcommand out); [intros Hr; apply IH; [done|lia]|]. case_bool_decide; [done|].
  destruct (strip_prefix (lit "--") tok) as [stripped|].
  - destruct (handle_long_flag stripped iter out) as [[out' iter']|]; [|done]. intros Hr. apply IH; [done|lia].
  - destruct (strip_prefix (lit "-") tok) as [[|c short]|]; [done| |intros Hr; apply IH; [done|lia]].
    destruct (handle_short_flags (c :: short) iter out) as [[out' iter']|]; [|done]. intros Hr. apply IH; [done|lia].
Qed.

(** The loop ends with [r], whatever the fuel. *)
Definition parses (iter : list str) (out : ParsedArgs) (r : result ParsedArgs CliError) : Prop :=
  ∃ fuel, parse_loop fuel iter out = Some r.

Lemma parses_enough fuel iter out r : parses iter out r → (length iter < fuel)%nat → parse_loop fuel iter out = Some r.
Proof.
  intros [f Hf] Hl. destruct (parse_loop_total fuel iter out Hl) as [r' Hr'].
  pose proof (parse_loop_mono _ (Nat.max f fuel) _ _ _ Hf ltac:(lia)) as H1.
  pose proof (parse_loop_mono _ (Nat.max f fuel) _ _ _ Hr' ltac:(lia)) as H2. congruence.
Qed.

Lemma ParsedArgs_parse_total argv : is_Some (ParsedArgs_parse argv).
Proof. apply parse_loop_total. rewrite length_drop. lia. Qed.

(** *** Printing a command line *)

(** The flags of [g], spelled out. *)
Definition render_globals (g : GlobalFlags) : list str :=
  (match config_path g with Some p => [lit "--config"; p] | None => [] end)
  ++ replicate (Z.to_nat (verbose g)) (lit "-v")
  ++ (if quiet g then [lit "--quiet"] else []) ++ (if no_color g then [lit "--no-color"] else [])
  ++ (if json g then [lit "--json"] else []) ++ (if help g then [lit "-h"] else [])
  ++ (if version g then [lit "--version"] else []).

Definition render_args (a : ParsedArgs) : list str :=
  render_globals (globals a) ++ match subcommand a with Some n => n :: subargs a | None => lit "--" :: subargs a end.

(** A subcommand name is no flag; the verbosity is a byte. *)
Definition args_ok (a : ParsedArgs) : Prop :=
  in_width 8 (verbose (globals a)) ∧ match subcommand a with Some n => is_flag n = false | None => True end.

Lemma parse_rest g sub rest : ∀ args, parses rest (mkParsedArgs g (Some sub) args) (Ok (mkParsedArgs g (Some sub) (args ++ rest))).
Proof.
  induction rest as [|r rest IH]; intros args; [exists 1%nat; by rewrite app_nil_r|].
  destruct (IH (args ++ [r])) as [fuel H]. exists (S fuel). cbn [parse_loop subcommand globals subargs]. by rewrite H, <-app_assoc.
Qed.

Lemma is_flag_strip n : is_flag n = false → strip_prefix (lit "-") n = None ∧ strip_prefix (lit "--") n = None ∧ n ≠ lit "--".
Proof.
  unfold is_flag, starts_with. destruct (strip_prefix (lit "-") n) eqn:E; [done|]. intros _. split; [done|].
  destruct n as [|c n]; [done|]. change (lit "--") with [45; 45]. change (lit "-") with [45] in E. cbn [strip_prefix] in *.
  destruct (Z.eqb_spec 45 c); [done|]. split; [done|]. congruence.
Qed.

(** The arguments after the flags. *)
Lemma parse_tail g sub args : match sub with Some n => is_flag n = false | None => True end →
  parses (match sub with Some n => n :: args | None => lit "--" :: args end) (mkParsedArgs g None []) (Ok (mkParsedArgs g sub args)).
Proof.
  intros Hn. destruct sub as [n|]; [|by exists 1%nat]. destruct (parse_rest g n args []) as [fuel H]. exists (S fuel).
  apply is_flag_strip in Hn as (H1 & H2 & H3). cbn [parse_loop subcommand globals subargs]. rewrite bool_decide_false by done.
  by rewrite H2, H1, H.
Qed.

(** A flag that is set, or left out. *)
Lemma parse_flag (b : bool) tok f rest g r :
  (∀ fuel, parse_loop (S fuel) (tok :: rest) (mkParsedArgs g None []) = parse_loop fuel rest (mkParsedArgs (f g) None [])) →
  parses rest (mkParsedArgs (if b then f g else g) None []) r →
  parses ((if b then [tok] else []) ++ rest) (mkParsedArgs g None []) r.
Proof. intros Htok [fuel H]. destruct b; [exists (S fuel); cbn [app]; by rewrite Htok|by exists fuel]. Qed.

Lemma parse_verbose k rest r : ∀ g, 0 <= verbose g → verbose g + Z.of_nat k <= 255 →
  parses rest (mkParsedArgs (mkGlobalFlags (config_path g) (verbose g + Z.of_nat k) (quiet g) (no_color g) (json g)
      (help g) (version g)) None []) r →
  parses (replicate k (lit "-v") ++ rest) (mkParsedArgs g None []) r.
Proof.
  induction k as [|k IH]; intros g H0 Hk H; cbn [replicate app].
  { rewrite Z.add_0_r in H. by destruct g. }
  assert (Hs : saturating_add 8 (verbose g) 1 = verbose g + 1) by (unfold saturating_add, umax; zlia).
  destruct (IH (add_verbose g)) as [fuel Hf]; cbn [add_verbose verbose config_path quiet no_color json help version].
  - rewrite Hs. lia.
  - rewrite Hs. lia.
  - rewrite Hs. by replace (verbose g + 1 + Z.of_nat k) with (verbose g + Z.of_nat (S k)) by lia.
  - exists (S fuel). exact Hf.
Qed.

Lemma parse_render a : args_ok a → parses (render_args a) ParsedArgs_default (Ok a).
Proof.
  destruct a as [[cp v q nc j h ver] sub args]. intros [Hv Hn]. unfold render_args, render_globals.
  cbn [globals subcommand subargs config_path verbose quiet no_color json help version] in *. rewrite <-!app_assoc.
  assert (Hcp : parses (replicate (Z.to_nat v) (lit "-v") ++ (if q then [lit "--quiet"] else []) ++ (if nc then [lit "--no-color"] else [])
      ++ (if j then [lit "--json"] else []) ++ (if h then [lit "-h"] else []) ++ (if ver then [lit "--version"] else [])
      ++ match sub with Some n => n :: args | None => lit "--" :: args end)
      (mkParsedArgs (mkGlobalFlags cp 0 false false false false false) None [])
      (Ok (mkParsedArgs (mkGlobalFlags cp v q nc j h ver) sub args))).
  { apply parse_verbose; cbn [verbose config_path quiet no_color json help version]; [lia|zlia|]. rewrite Z2Nat.id by zlia.
    rewrite Z.add_0_l. apply (parse_flag q _ set_quiet); [done|]. apply (parse_flag nc _ set_no_color); [done|].
    apply (parse_flag j _ set_json); [done|]. apply (parse_flag h _ set_help); [done|]. apply (parse_flag ver _ set_version); [done|].
    replace (if ver then _ else _) with (mkGlobalFlags cp v q nc j h ver) by (by destruct q, nc, j, h, ver).
    by apply parse_tail. }
  destruct cp as [p|]; [|exact Hcp]. destruct Hcp as [fuel H]. exists (S fuel). exact H.
Qed.

(** *** Exit codes *)

Definition code_ok (code : Z) : Prop := code = 0 ∨ code = 1 ∨ code = 64.
Definition returns (r : panics (list Line * CliResult)) : Prop :=
  match r with Some (_, Ok code) => code_ok code | Some (_, Err _) => True | None => False end.

Lemma exit_code_ok e : code_ok (exit_code e).
Proof. unfold code_ok. destruct e; cbn; auto. Qed.

Lemma ipc_run_returns name a g env : returns (Some (ipc_run name a g env)).
Proof. unfold ipc_run. destruct (env_ipc env _); cbn; unfold code_ok; auto. Qed.

Lemma kick_request_code id code : kick_request id = Err code → code = 64.
Proof. unfold kick_request. destruct (parse_uint 16 id) as [n|]; [destruct (n =? 0)|]; congruence. Qed.

Lemma run_up_returns a g env : returns (run_up a g env).
Proof.
  unfold run_up. destruct (parse_up_args a) as [args|]; [|done]. destruct (up_mode args) as [m|].
  - case_bool_decide; [|done]. unfold run_plaintext. destruct (up_peer args); [|done].
    destruct (env_parse_addr env _); [|done]. destruct (env_parse_addr env _); [|done].
    destruct (env_run_plaintext env _ _ _); cbn; unfold code_ok; auto.
  - unfold run_encrypted. destruct (env_read_to_string env _) as [text|]; [|done].
    destruct (toml_parse_total_cases text) as [[t ->]|[e ->]]; [|done]. destruct (from_value _) as [c|]; [|done].
    destruct (env_run_daemon env c); cbn; unfold code_ok; auto.
Qed.

Lemma run_config_returns a g env : returns (run_config a g env).
Proof.
  unfold run_config. case_bool_decide; [cbn; unfold code_ok; auto|]. case_bool_decide; [|apply ipc_run_returns].
  unfold config_validate. destruct (config_argument a); [|cbn; unfold code_ok; auto].
  destruct (env_read_to_string env _) as [text|]; [|cbn; unfold code_ok; auto].
  destruct (toml_parse_total_cases text) as [[t ->]|[e ->]]; [|cbn; unfold code_ok; auto].
  destruct (from_value _); cbn; unfold code_ok; auto.
Qed.

Lemma run_clients_returns a g env : returns (Some (run_clients a g env)).
Proof.
  unfold run_clients. destruct (split_subcommand a) as [[s|] rest].
  - case_bool_decide; [|case_bool_decide].
    + unfold run_kick. destruct (List.find _ rest) as [id|]; [|cbn; unfold code_ok; auto].
      destruct (kick_request id) as [req|code] eqn:E; [destruct (env_ipc env req); cbn; unfold code_ok; auto|].
      apply kick_request_code in E as ->. cbn. unfold code_ok. auto.
    + unfold clients_run_list. destruct (env_ipc env _); cbn; unfold code_ok; auto.
    + cbn. unfold code_ok. auto.
  - unfold clients_run_list. destruct (env_ipc env _); cbn; unfold code_ok; auto.
Qed.

Lemma run_interfaces_returns a g env : returns (Some (run_interfaces a g env)).
Proof.
  unfold run_interfaces.
  assert (H : ∀ l r, returns (Some (match env_interfaces env with Err e => l e | Ok i => if is_json_invocation a g then r i else (render_table (detect_mode g env) i, Ok 0) end)) ↔
    match env_interfaces env with Err e => returns (Some (l e)) | Ok i => if is_json_invocation a g then returns (Some (r i)) else True end).
  { intros l r. destruct (env_interfaces env); [destruct (is_json_invocation a g)|]; try done. cbn. unfold code_ok. tauto. }
  destruct a as [|first a]; [|destruct (_ && _); [cbn; unfold code_ok; auto|]]; apply H; destruct (env_interfaces env); try done;
    (destruct (is_json_invocation _ g); [|done]); unfold render_json; destruct (env_stdout env); cbn; unfold code_ok; auto.
Qed.

Lemma run_stats_returns a g env : returns (Some (run_stats a g env)).
Proof. unfold run_stats. destruct (env_ipc env _); cbn; unfold code_ok; auto. Qed.

Lemma all_commands_return c : c ∈ all_commands → ∀ a g env, returns (cmd_run c a g env).
Proof.
  intros Hc a g env. unfold all_commands in Hc. rewrite !elem_of_cons in Hc.
  destruct_or! Hc; subst; cbn [cmd_run ipc_command];
    first [apply run_up_returns|apply ipc_run_returns|apply run_config_returns|apply run_interfaces_returns
          |apply run_clients_returns|apply run_stats_returns|idtac].
  - cbn. unfold code_ok. auto.
  - by apply not_elem_of_nil in Hc.
Qed.

(** *** Suggestions *)

Lemma edit_distance_unique s t d : edit_distance s t d → d = ed s t.
Proof.
  intros [H1 H2]. destruct (ed_edit_distance s t) as [H3 H4]. specialize (H2 _ H3). specialize (H4 _ H1). lia.
Qed.

(** [best] is the first nearest of [cmds] within three edits. *)
Definition nearest (input : str) (cmds : list Command) (best : option (nat * str)) : Prop :=
  match best with
  | None => ∀ c, c ∈ cmds → (3 < ed input (cmd_name c))%nat
  | Some (d, name) =>
      ∃ before c after, cmds = before ++ c :: after ∧ cmd_name c = name ∧ ed input name = d ∧ (d <= 3)%nat ∧
        (∀ c', c' ∈ before → (d < ed input (cmd_name c'))%nat) ∧ (∀ c', c' ∈ after → (d <= ed input (cmd_name c'))%nat)
  end.

Lemma closest_loop_nearest input cmds : ∀ seen best, nearest input seen best →
  ∃ best', closest_loop input cmds best = Some best' ∧ nearest input (seen ++ cmds) best'.
Proof.
  induction cmds as [|c cmds IH]; intros seen best Hbest; cbn [closest_loop]; [exists best; by rewrite app_nil_r|].
  rewrite levenshtein_ed. cbn [mbind option_bind]. rewrite cons_middle, app_assoc. apply IH.
  set (d := ed input (cmd_name c)). destruct (Nat.leb_spec d 3) as [H3|H3]; cbn [andb].
  - destruct best as [[bd bn]|].
    + destruct Hbest as (before & b & after & -> & Hn & Hd & Hle & Hb & Ha). destruct (Nat.ltb_spec d bd) as [Hlt|Hge].
      * exists (before ++ b :: after), c, []. split_and!; [by rewrite <-app_assoc|done|done|done| |by intros ? ?%not_elem_of_nil].
        intros c' [Hc'|[->|Hc']%elem_of_cons]%elem_of_app; [specialize (Hb _ Hc')|rewrite Hn, Hd|specialize (Ha _ Hc')]; lia.
      * exists before, b, (after ++ [c]). split_and!; [by rewrite <-app_assoc|done|done|done|done|].
        intros c' [Hc'| ->%list_elem_of_singleton]%elem_of_app; [by apply Ha|fold d; lia].
    + exists seen, c, []. split_and!; [done|done|done|done| |by intros ? ?%not_elem_of_nil].
      intros c' Hc'. specialize (Hbest _ Hc'). lia.
  - destruct best as [[bd bn]|].
    + destruct Hbest as (before & b & after & -> & Hn & Hd & Hle & Hb & Ha). exists before, b, (after ++ [c]).
      split_and!; [by rewrite <-app_assoc|done|done|done|done|].
      intros c' [Hc'| ->%list_elem_of_singleton]%elem_of_app; [by apply Ha|fold d; lia].
    + intros c' [Hc'| ->%list_elem_of_singleton]%elem_of_app; [by apply Hbest|done].
Qed.

(** ** Properties *)

(** The command line is total: on every argument vector and every outcome of
    the system, the dispatcher returns without a panic, with exit code 0 for
    success, 1 for a failed command or 64 for a usage error. *)
Theorem dispatch_total (argv : list str) (env : Env) :
  ∃ out code, Dispatcher_dispatch all_commands argv env = Some (out, code) ∧ (code = 0 ∨ code = 1 ∨ code = 64).
Proof.
  unfold Dispatcher_dispatch. destruct (ParsedArgs_parse_total argv) as [[parsed|e] ->]; cbn [mbind option_bind].
  2:{ eexists _, _. split; [done|]. apply exit_code_ok. }
  destruct (version (globals parsed)); [eexists _, _; split; [done|auto]|].
  destruct (subcommand parsed) as [name|]; [|eexists _, _; split; [done|auto]].
  destruct (Dispatcher_find all_commands name) as [cmd|] eqn:Ef.
  - destruct (help (globals parsed)); [eexists _, _; split; [done|auto]|].
    apply List.find_some in Ef as [Hin _]. apply list_elem_of_In in Hin.
    pose proof (all_commands_return cmd Hin (subargs parsed) (globals parsed) env) as Hr.
    destruct (cmd_run cmd (subargs parsed) (globals parsed) env) as [[out [code|e]]|]; [| |done]; cbn [mbind option_bind].
    + by eexists _, _.
    + eexists _, _. split; [done|]. apply exit_code_ok.
  - unfold closest_match. destruct (closest_loop_nearest name all_commands [] None) as (best & -> & _); [by intros ? ?%not_elem_of_nil|].
    cbn [mbind option_bind]. eexists _, _. split; [done|]. auto.
Qed.

(** Arguments survive printing and parsing: the flags, the subcommand and its
    arguments of any command line come back from its spelled-out form. *)
Theorem args_roundtrip (program : str) (a : ParsedArgs) :
  args_ok a → ParsedArgs_parse (program :: render_args a) = Some (Ok a).
Proof. intros Ha. unfold ParsedArgs_parse. change (drop 1 (program :: render_args a)) with (render_args a). apply parses_enough; [by apply parse_render|cbn [length]; lia]. Qed.

(** A mistyped subcommand gets the nearest one: the suggestion is the first of the
    commands at the least edit distance, if that is at most three. *)
Theorem suggestion_exact (cmds : list Command) (input : str) :
  ∃ r, closest_match cmds input = Some r ∧
  match r with
  | None => ∀ c d, c ∈ cmds → edit_distance input (cmd_name c) d → (3 < d)%nat
  | Some name =>
      ∃ before c after d, cmds = before ++ c :: after ∧ cmd_name c = name ∧ edit_distance input name d ∧ (d <= 3)%nat ∧
        (∀ c' d', c' ∈ before → edit_distance input (cmd_name c') d' → (d < d')%nat) ∧
        (∀ c' d', c' ∈ after → edit_distance input (cmd_name c') d' → (d <= d')%nat)
  end.
Proof.
  unfold closest_match. destruct (closest_loop_nearest input cmds [] None) as (best & -> & Hb); [by intros ? ?%not_elem_of_nil|].
  eexists. split; [done|]. cbn [app] in Hb. destruct best as [[d name]|]; cbn [nearest] in Hb.
  - destruct Hb as (before & c & after & H1 & H2 & H3 & H4 & H5 & H6). exists before, c, after, d.
    split_and!; [done|done|rewrite <-H3; apply ed_edit_distance|done|..].
    + intros c' d' Hc' ->%edit_distance_unique. by apply H5.
    + intros c' d' Hc' ->%edit_distance_unique. by apply H6.
  - intros c d Hc ->%edit_distance_unique. by apply Hb.
Qed.

(** In JSON mode an error is a JSON document: the envelope decodes to the message. *)
Theorem json_errors_decode (line : str) : is_ascii line →
  decode (cli_error_envelope line) = Some (Ok (Object [(lit "error", Object [(lit "message", JString line)])])).
Proof.
  intros Ha. assert (cli_error_envelope line = encode (Object [(lit "error", Object [(lit "message", JString line)])])) as ->.
  { unfold encode, cli_error_envelope. cbn [encode_value fmap list_fmap]. unfold commas. cbn [imap mbind list_bind Nat.ltb Nat.leb].
    rewrite !app_nil_r. unfold encode_string at 3, json_escape, compose, id. cbn [app].
    change encode_char with escape_char. rewrite <-!app_assoc. cbn [app]. rewrite <-!app_assoc. reflexivity. }
  apply decode_encode; [|apply Nat.leb_le; reflexivity].
  assert (Hin : value_ok (Object [(lit "message", JString line)])).
  { apply ok_object; [|repeat constructor]. apply Forall_singleton. split; [repeat constructor; lia|by apply ok_string]. }
  apply ok_object; [|repeat constructor]. apply Forall_singleton. split; [repeat constructor; lia|done].
Qed.

(** [config validate] does not see the global [--config]: with the path where the
    help text puts it, the command is refused as a usage error. *)
Theorem config_validate_ignores_global (path : str) (env : Env) :
  Dispatcher_dispatch all_commands [lit "desmos"; lit "--config"; path; lit "config"; lit "validate"] env
  = Some (Writer_error (detect_mode (set_config_path path GlobalFlags_default) env)
            (lit "desmos config validate: missing --config <path>"), 64).
Proof. reflexivity. Qed.

(** [--quiet] and [--verbose] are parsed and then ignored by every command. *)
Theorem quiet_ignored (c : Command) (a : list str) (g : GlobalFlags) (env : Env) :
  c ∈ all_commands → cmd_run c a (set_quiet g) env = cmd_run c a g env ∧ cmd_run c a (add_verbose g) env = cmd_run c a g env.
Proof.
  intros Hc. unfold all_commands in Hc. rewrite !elem_of_cons in Hc.
  destruct_or! Hc; subst; try done. by apply not_elem_of_nil in Hc.
Qed.

(** [webui] sends a command the daemon does not know, prints its refusal and exits
    with success. *)
Theorem webui_command_unknown (p : Process) (env : Env) :
  env_ipc env = (fun line => Ok (dispatch_command line p).1) →
  Dispatcher_dispatch all_commands [lit "desmos"; lit "webui"] env
  = Some ([(Stdout, error_json (lit "unknown command: webui"))], 0).
Proof.
  intros Hipc. unfold Dispatcher_dispatch. change (ParsedArgs_parse _) with (Some (@Ok _ CliError (mkParsedArgs GlobalFlags_default (Some (lit "webui")) []))).
  cbn [mbind option_bind globals version subcommand GlobalFlags_default help subargs].
  change (Dispatcher_find all_commands (lit "webui"))
    with (Some (ipc_command "webui" "Manage the embedded Web UI (password, bind address)")).
  cbn [cmd_run ipc_command mbind option_bind]. unfold ipc_run. rewrite Hipc.
  assert ((dispatch_command (command_line (lit "webui")) p).1 = error_json (lit "unknown command: webui")) as -> by reflexivity.
  unfold print_response, is_json_invocation. cbn [json existsb orb]. unfold Writer_println, detect_mode. cbn [json no_color].
  destruct (env_no_color env), (env_terminal env); reflexivity.
Qed.

(** ** Examples and witnesses *)

Example format_bytes_ex : format_bytes 1536 = lit "1.50KiB" ∧ format_bytes 1023 = lit "1023B" ∧ format_bytes (5 * GIB) = lit "5.00GiB".
Proof. vm_compute. done. Qed.
Example format_uptime_ex : format_uptime 3725 = lit "1h02m05s" ∧ format_uptime 61 = lit "1m01s" ∧ format_uptime 7 = lit "7s".
Proof. vm_compute. done. Qed.
Example show_ipv6_ex :
  show_ipv6 ([0xfe; 0x80] ++ replicate 13 0 ++ [1]) = lit "fe80::1" ∧ show_ipv6 (replicate 16 0) = lit "::" ∧
  show_ipv6 (replicate 10 0 ++ [255; 255; 192; 0; 2; 1]) = lit "::ffff:192.0.2.1".
Proof. vm_compute. done. Qed.
Example suggestion_ex : closest_match all_commands (lit "staus") = Some (Some (lit "status")).
Proof. vm_compute. reflexivity. Qed.

Definition demo_env : Env :=
  mkEnv false false (fun line => Ok (dispatch_command line (mkProcess None Logger_new false)).1) (fun _ => Err (lit "no such file"))
    (Ok []) (fun _ => None) (fun c => [c]) (fun _ => Ok ()) (fun _ _ _ => Ok ()) (Ok ()) [] (lit "1.1.0").

Lemma args_roundtrip_witness :
  ParsedArgs_parse (lit "desmos" :: render_args (mkParsedArgs (mkGlobalFlags (Some (lit "/etc/d.toml")) 2 true false true false false)
    (Some (lit "clients")) [lit "kick"; lit "--json"; lit "7"]))
  = Some (Ok (mkParsedArgs (mkGlobalFlags (Some (lit "/etc/d.toml")) 2 true false true false false) (Some (lit "clients"))
      [lit "kick"; lit "--json"; lit "7"])).
Proof. apply args_roundtrip. split; [cbn; zlia|reflexivity]. Defined.

Lemma json_errors_decode_witness :
  decode (cli_error_envelope (lit "IPC read: timed out"))
  = Some (Ok (Object [(lit "error", Object [(lit "message", JString (lit "IPC read: timed out"))])])).
Proof. apply json_errors_decode. apply (bool_decide_unpack _). vm_compute. exact I. Defined.

Lemma quiet_ignored_witness :
  run_up [] (set_quiet GlobalFlags_default) demo_env = run_up [] GlobalFlags_default demo_env.
Proof.
  apply (quiet_ignored (mkCommand (lit "up") (lit "Bring the tunnel up") run_up) [] GlobalFlags_default demo_env).
  apply elem_of_cons. by left.
Defined.

Lemma webui_command_unknown_witness :
  Dispatcher_dispatch all_commands [lit "desmos"; lit "webui"] demo_env
  = Some ([(Stdout, error_json (lit "unknown command: webui"))], 0).
Proof. by apply (webui_command_unknown (mkProcess None Logger_new false)). Defined.
